(* ===== verification/_CoqProject ===== *)
-Q . S2P
Prelude.v
Float64.v
Message.v
Reassembly.v
Cache.v
Replay.v
AntiFlood.v
Scoring.v
Gossip.v
Sync.v
Identity.v
Router.v
Transport.v
Mesh.v
SimNet.v
Failover.v
Sha256.v
GF256.v
Matrix.v
Cauchy.v
Chunk.v
GoStr.v
ChunkReasm.v
LedgerEvent.v
LedgerKinds.v
Ledger.v
LedgerInv.v
LedgerReach.v
LedgerPrune.v
LedgerTrust.v
LedgerSnap.v
LedgerSync.v
LedgerSyncSpec.v
LedgerAgree.v
LedgerExamples.v
RelayTypes.v
RelayMailbox.v
RelayServer.v
RelayPoller.v
RelaySender.v
RelayExamples.v
Trust.v
TrustSpec.v
Profile.v
ProfileSpec.v
Bundle.v
BundleSpec.v
Import.v
ImportSpec.v
BundleExamples.v
Community.v
CommunitySpec.v
Persona.v
PersonaSpec.v
CommunityService.v
CommunityServiceSpec.v
DeviceLink.v
ChatCodec.v
DeviceLinkSpec.v
CommunityExamples.v
SyncWire.v
SyncSched.v
SyncSchedSpec.v
SyncSecurity.v
SyncSecuritySpec.v
SyncService.v
Messaging.v
SyncRelay.v
SyncServiceSpec.v
SyncRelaySpec.v
SyncPrim.v
SyncPrimSpec.v
SyncExamples.v
Chat.v
ChatSpec.v
ChatServiceSpec.v
ChatDelivery.v
ChatExamples.v
