(* ===== verification/Prelude.v ===== *)
(** * SunLionet: a verification development of the Go agent

    SunLionet is an offline-first agent.  It carries messages over a store-and-forward mesh
    of short-range radios, distributes configuration bundles as erasure-coded text chunks,
    keeps a signed, replicated ledger of events, and switches between proxy cores behind a
    kill switch.  This library translates the parts that carry this logic into executable
    definitions, named as in the source, and proves what makes them correct.  Paths below
    are relative to src/.

    ** The parts and how they interact

    - The proximity mesh.  A node ([core/mesh], [core/proximity]) receives chunk frames from
      its radios.  The router charges them to token buckets (anti-flood guard), scores the
      neighbour (relay scoring), reassembles messages, checks their identifier, drops what
      the replay filter has seen, caches and delivers the rest, and forwards it after a
      delay with a probability that the gossip controller asks of the routing engine.
      Inventory and want frames repair partitions.  The frames go out over a fused
      transport, which chooses among BLE, Wi-Fi and LoRa by a profile the mesh policy sets.
    - The bundle chunks ([pkg/bundle/chunk_engine.go]).  A payload is cut into data shards,
      extended by parity shards over GF(256), checksummed with SHA-256 and collected again
      under a byte limit.
    - The ledger ([pkg/ledger]).  Events are signed, content-addressed and refer to parents
      and to their author's previous event.  A ledger stores valid events, detects two
      events under one author and number, compromises their keys, signs witness events of
      its own, confirms an event once the witness weight reaches a threshold, forgets old
      events by policy, saves and loads snapshots, and exchanges events with peers.
    - Proxy core failover ([pkg/proxycore]).  A switch engages the kill switch, tries the
      candidates in turn and releases the kill switch for a healthy one only.
    - The message relay ([pkg/relay]).  Clients push envelopes into mailboxes, with a proof of
      work the server may ask for, poll them and acknowledge what they have handled; a
      shaper delays and batches pushes.
    - Trust, profiles and bundles ([pkg/importctl], [pkg/profile], [pkg/bundle]).  Root keys
      sign update blocks that add, retire and revoke the signers of bundles; profiles are
      normalised before they are distributed; a bundle of profiles and templates is signed
      and sealed, verified, checked against replays and merged into the stores.
    - Communities ([pkg/community]).  Members join on an invite, a request and an approval,
      each signed; a registry applies these and revocations; a service keeps a user's own
      state of them.
    - Identities ([pkg/identity]).  Personas, devices, prekeys and the mailboxes that rotate
      with time; devices are linked to a persona by a certificate in a sealed bundle.
    - The synchronisation of ledgers ([pkg/ledgersync], [pkg/messaging]).  Peers exchange heads,
      inventories, wants and events in padded messages; what comes in is limited, judged by a
      layer of trust, queued by priority and applied in turns; events also travel as sealed
      envelopes over relays, wrapped for several hops.
    - Messaging between users ([pkg/chat]).  Texts, groups with roles, and community posts are
      signed payloads in envelopes sealed for a contact's prekey; a service keeps contacts,
      conversations and messages, sends over a relay and takes in what a relay delivers.

    ** Files

    Shared.
    - Prelude: results of fallible functions ([res]), machine integers, wall-clock times,
      bytes and big-endian integers, lists, maps, tactics and the hint database.
    - Float64: Go's float64 on primitive floats: conversions, signs, comparisons.
    - GoStr: strings.TrimSpace, unpadded base64, JSON strings, decimal numbers; SHA-256 of a
      string.  Sha256: FIPS 180-4.

    The mesh.
    - Message: message_router/message.go, wire.go, chunking.go.  Reassembly: reassembly.go.
      Cache: cache_manager, with its linked list of handles.  Replay: replay_protection,
      behind the class [ReplayFilter].  AntiFlood: anti_flood_guard.  Scoring:
      relay_scoring.  Gossip: routing_engine and gossip_controller, behind the class of
      neighbour scorers.  Sync: partition_sync.  Identity: identity_manager.
    - Router: router.go.  A handler is an [act] on the router's state that also yields the
      frames broadcast, messages delivered and timers armed, in order; the select loop of
      Run is [router_step] over the events a node can see.
    - Transport: transport_selector and transport_manager over the class [Transport].
      Mesh: security/policy.go, mesh_controller, multipath_router/hybrid_node.go.
      SimNet: bridge_node_logic/simnet.go and experimental/lora (radio and queue).

    The proxy core.
    - Failover: failover.go and core_interface.go over the class [World], whose laws say
      what the kill switch does.

    The chunks.
    - GF256, Matrix, Cauchy: the arithmetic, Gauss-Jordan inversion, and why the parity rows
      are independent.  Chunk: encoding, format and reconstruction.  ChunkReasm: the
      collector, and chunks as lines of text.

    The ledger.
    - LedgerEvent: types.go, canonical.go.  LedgerKinds: kinds.go, policy.go.  Ledger:
      ledger.go and mvp_api.go, every operation.  LedgerSync: sync.go.
    - Properties: LedgerInv and LedgerReach (what any sequence of operations keeps),
      LedgerPrune, LedgerTrust, LedgerSnap, LedgerSyncSpec, LedgerAgree; LedgerExamples
      applies them to concrete ledgers with a simple signature scheme.

    The relay.
    - RelayTypes: types.go and the nonce search of http_client.go.  RelayMailbox: memory.go,
      with the turns of a long poll.  RelayServer: http_server.go over the class [Relay].
      RelayPoller: relay.go.  RelaySender: sender.go.  RelayExamples: concrete runs.

    Trust and profiles.
    - Trust: revocation.go; TrustSpec: its properties.  Profile: profile.go, normalize.go;
      ProfileSpec: the normal form.
    - Bundle: pkg/bundle (bundle.go, canonical.go, crypto.go, verify.go), over the classes of
      Ed25519, age, templates and JSON decoders; BundleSpec: what verification guarantees and
      that what is made verifies.  Import: import.go, its replay
      tables and its merge into the class [Stores]; ImportSpec: histories of parsing and
      storing.  BundleExamples: concrete trust states, profiles, bundles and imports.

    Communities and identities.
    - Community: invites.go, membership.go.  CommunitySpec: signatures, histories of the
      registry, joining.  Persona: pkg/identity (types.go, prekey.go, device.go);
      PersonaSpec: valid states, prekeys, mailboxes.  CommunityService: types.go, service.go and the checks of store.go over the class
      [CommunityFile]; CommunityServiceSpec: its invariant and the whole way of joining.
      CommunityExamples: concrete keys, statements and runs, a linked device.
    - DeviceLink: offer.go, the certificates of device.go, device_link.go.  DeviceLinkSpec:
      what a persona signs, links from end to end, what they do to the state.

    The synchronisation of ledgers (pkg/ledgersync).
    - SyncWire: the messages, options, padding and shuffling of service.go, with the policy of
      security.go, and what padding keeps.  SyncSched: the priority scheduler; SyncSchedSpec: its
      histories.  SyncSecurity: security.go, one function per observation; SyncSecuritySpec:
      histories of observations in the order of time.  SyncService: the service with its
      handlers; a panic is [None], what it sends comes with the result.  SyncRelay: the part over
      relays, the class [RelayOps]; Messaging: pkg/messaging.  SyncServiceSpec and SyncRelaySpec:
      the service over the ledger of the other files.  SyncPrim: primitives.go; SyncPrimSpec: one
      exchange.  SyncExamples: concrete peers and runs.

    Messaging between users (pkg/chat).
    - ChatCodec: codec.go, with the compaction of a raw JSON body.  Chat: types.go, service.go and
      the checks of store.go over the classes [ChatFile] and [RelayOps]; an operation takes and
      returns state, file and relay.  ChatSpec: every operation is a sequence of [edit]s and a
      save.  ChatServiceSpec: histories of calls and restarts.  ChatDelivery: a text from one
      service to another.  ChatExamples: concrete payloads and runs.

    ** What the theorems show

    - Routing: a node delivers a message once per replay horizon ([at_most_once_delivery]),
      everything it delivers or sends passed the checks ([node_outputs_allowed]), refused
      frames change nothing but their sender's statistics; reassembly in any order of
      frames; the cache refines a bounded list; buckets are never overdrawn; quarantine
      needs abuse; stealth mode uses BLE only.
    - Chunks: any sufficient set of chunks gives the payload back, up to 129 data shards,
      and the sets that do not beyond that; the collector delivers with the completing chunk
      and keeps its limit.
    - Ledger: the well-formedness of every reachable ledger, authenticity and
      non-equivocation of what it stores, confirmation exactly by uncompromised weight,
      report of equivocations, what pruning and retention keep, snapshot round trips,
      bounded and terminating queries, plans and messages, the agreement of the optimised
      application with the plain one; and the cases where these fail (names not bound to
      keys, indexes lost by pruning, a child stored before its predecessor).
    - Failover: the kill switch opens only for a healthy running core.
    - Trust, bundles and imports: accepted trust blocks are endorsed, revocations win and
      last; a bundle that verifies is signed and its payload sound; what is handed out is
      authentic, unrevoked and new; imports keep one owner per profile and endpoint; and a
      failed import that blocks its own retry, blocks without signatures.
    - Communities: signatures bind statements; members asked to join; limits and rates of
      joins; bans hold, and what lifts them; a service's state stays valid while who invites has
      a private key that belongs to the public one; an invited user joins.
    - Identities: no signature of a persona stands for two of what it signs: invites, requests,
      approvals, revocations, certificates, offers, link envelopes, chat payloads and events;
      a saved state can be loaded later; mailboxes rotate on time; what a sealed link gives
      was signed by the persona it brings, and a device that asks is linked; but a package
      is not bound to its certificate, and linking an unknown device spoils the state.
    - Relay: a pull hands out what is pending, an acknowledged message is gone, a long poll
      ends, what a server stores was authorized and paid for, the poller acknowledges only
      what was handled, the shaper keeps order; and a closed shaper leaves callers waiting.
    - Synchronisation: the ledger behind the service stays well-formed and authentic whatever
      comes in; a want is answered with events that may go out; nothing that comes in makes a
      service without an observer panic;
      one exchange with room brings all the peer has;
      queues, traffic and selections keep their limits; what waits is served; padding and
      layers come off again.  And what goes wrong: an evicted peer stays charged, peers that are
      idle or in step are taken for attackers, a huge event number stops a service with an
      observer, a full batch never fits a relay behind a hop.
    - Messaging: the state stays consistent and what is stored loads again; a text reported as
      sent is opened, verified and kept by the receiver; what is delivered again is not kept again;
      what a payload does to roles is determined by who is said to have sent it, also where the
      signature does not verify; and a payload about a group without an identifier keeps the
      service from ever saving again.

    ** Conventions, bounds and fuel

    - A Go integer is a [Z]; wrap-around is written where the code can reach it (counters of
      the scorer, uint16 and uint32 fields of frames, uint64 event numbers).  A [time.Time]
      is its count of nanoseconds since 1970, [zeroTime] the one of the zero value.
    - A map whose iteration order can matter is read through a parameter [range] or [perm]
      with the law that it lists the map's keys; goroutines that run in any order are a
      parameter [finish] that permutes; the clock and random draws are arguments.
    - Fuel appears where the code loops on data: multiplication, powers and inverse in
      GF(256) (8 bits, 255 powers), trimming of strings (their length), decimal digits (40,
      more than any 64-bit number has), ranges of author events (the range's length plus two
      rounds).  Each has a lemma that the fuel is enough, or states that the loop ends.

    ** Parameters

    BLAKE2s, X25519, HKDF, XChaCha20-Poly1305, age, text/template and Ed25519 (of which the proofs use that a verifying signature has 64
    bytes where the code checks lengths); the JSON decoding of event payloads; map iteration
    and worker orders; clock and random source; the proxy cores and the operating system's
    kill switch.  SHA-256, base64 and the JSON encodings are computed.

    ** Not modelled

    Files and their encryption (ledger/store.go, the file-backed relay, the encryption of the chat store,
    profile, template, replay, community and identity stores), HTTP servers and clients, process supervision of
    sing-box, flags, telemetry and the Android and web parts: input and output around the
    components above.  Receiving goroutines of the fused transport are represented by the
    event sequences of the router.

    ** Plan

    Next: device synchronisation (pkg/devsync), the policy engine, the relay on files. *)

From stdpp Require Export base numbers option list gmap strings sorting.
From Stdlib Require Export ZArith Lia Permutation.
From Stdlib Require Import Zwf.

#[global] Open Scope Z_scope.

(** ** Results of fallible Go functions

    A Go function returning [(T, error)] is a [res E T]: a nil error is [Ok],
    a non-nil one is [Err] with the error value. *)

Inductive res (E A : Type) : Type :=
  | Ok (a : A)
  | Err (e : E).
Arguments Ok {E A} a.
Arguments Err {E A} e.

Definition rbind {E A B} (r : res E A) (k : A -> res E B) : res E B :=
  match r with Ok a => k a | Err e => Err e end.

Definition is_ok {E A} (r : res E A) : bool :=
  match r with Ok _ => true | Err _ => false end.

Declare Scope res_scope.
Delimit Scope res_scope with res.
Notation "x <-! c ; k" := (rbind c (fun x => k))
  (at level 100, c at next level, right associativity) : res_scope.
(** [guard! b else e ; k]: the early return [if !b { return e }]. *)
Notation "'require!' b 'else' e ; k" := (if b then k else Err e)
  (at level 100, b at next level, e at next level, right associativity) : res_scope.

(** ** Machine integers: a w-bit integer is a [Z], its wrap-around is written out *)

Definition u8 (x : Z) : Z := x mod 2 ^ 8.
Definition u16 (x : Z) : Z := x mod 2 ^ 16.
Definition u32 (x : Z) : Z := x mod 2 ^ 32.
Definition u64 (x : Z) : Z := x mod 2 ^ 64.
Definition i64 (x : Z) : Z := (x + 2 ^ 63) mod 2 ^ 64 - 2 ^ 63.

Definition min_i64 : Z := - 2 ^ 63.
Definition max_i64 : Z := 2 ^ 63 - 1.

Definition is_u8 (x : Z) : Prop := 0 <= x < 2 ^ 8.
Definition is_u16 (x : Z) : Prop := 0 <= x < 2 ^ 16.
Definition is_u32 (x : Z) : Prop := 0 <= x < 2 ^ 32.
Definition is_u64 (x : Z) : Prop := 0 <= x < 2 ^ 64.
Definition is_i64 (x : Z) : Prop := min_i64 <= x <= max_i64.

#[export] Instance is_u8_dec x : Decision (is_u8 x).
Proof. unfold is_u8. apply _. Defined.
#[export] Instance is_u16_dec x : Decision (is_u16 x).
Proof. unfold is_u16. apply _. Defined.
#[export] Instance is_u32_dec x : Decision (is_u32 x).
Proof. unfold is_u32. apply _. Defined.
#[export] Instance is_u64_dec x : Decision (is_u64 x).
Proof. unfold is_u64. apply _. Defined.

(** The bytes of a Go [[]byte]; a byte is a [Z] in [0, 256). *)
Abbreviation bytes := (list Z) (only parsing).

Definition blen (b : list Z) : Z := Z.of_nat (length b).

Definition bytes_ok (b : list Z) : Prop := Forall is_u8 b.

#[export] Instance bytes_ok_dec b : Decision (bytes_ok b).
Proof. unfold bytes_ok. apply _. Defined.

(** Evaluates a closed decidable proposition. *)
Ltac decided := apply (bool_decide_eq_true_1 _); vm_compute; reflexivity.

Create HintDb sl.
Create Rewrite HintDb slr.

Ltac unfold_ints :=
  unfold is_u8, is_u16, is_u32, is_u64, is_i64, u8, u16, u32, u64, i64, min_i64, max_i64 in *.

(** A property of finitely many integers, checked by evaluation. *)
Lemma all_below (P : Z -> bool) (n : nat) :
  forallb (fun k => P (Z.of_nat k)) (seq 0 n) = true -> forall x, 0 <= x < Z.of_nat n -> P x = true.
Proof.
  intros H x Hx. rewrite forallb_forall in H. specialize (H (Z.to_nat x)).
  rewrite Z2Nat.id in H by lia. apply H, in_seq. lia.
Qed.

Lemma forallb_true {A} (f : A -> bool) l : forallb f l = true <-> Forall (fun x => f x = true) l.
Proof.
  induction l as [|x l IH]; simpl; [by split|]. rewrite Forall_cons, <- IH. apply andb_true_iff.
Qed.

Lemma u8_id x : is_u8 x -> u8 x = x.
Proof. unfold_ints. apply Z.mod_small. Qed.
Lemma u16_id x : is_u16 x -> u16 x = x.
Proof. unfold_ints. apply Z.mod_small. Qed.
Lemma u32_id x : is_u32 x -> u32 x = x.
Proof. unfold_ints. apply Z.mod_small. Qed.
Lemma u64_id x : is_u64 x -> u64 x = x.
Proof. unfold_ints. apply Z.mod_small. Qed.
Lemma i64_id x : is_i64 x -> i64 x = x.
Proof. unfold_ints. intros. rewrite Z.mod_small; lia. Qed.

Lemma u8_range x : is_u8 (u8 x).
Proof. unfold_ints. apply Z.mod_pos_bound. lia. Qed.
Lemma u16_range x : is_u16 (u16 x).
Proof. unfold_ints. apply Z.mod_pos_bound. lia. Qed.
Lemma u32_range x : is_u32 (u32 x).
Proof. unfold_ints. apply Z.mod_pos_bound. lia. Qed.
Lemma u64_range x : is_u64 (u64 x).
Proof. unfold_ints. apply Z.mod_pos_bound. lia. Qed.
#[export] Hint Resolve u8_range u16_range u32_range u64_range : sl.

Lemma blen_nonneg b : 0 <= blen b.
Proof. unfold blen. lia. Qed.
Lemma blen_app a b : blen (a ++ b) = blen a + blen b.
Proof. unfold blen. rewrite length_app. lia. Qed.
Lemma blen_nil : blen [] = 0.
Proof. reflexivity. Qed.
Lemma blen_cons x b : blen (x :: b) = 1 + blen b.
Proof. unfold blen. simpl. lia. Qed.
Lemma blen_zero b : blen b = 0 <-> b = [].
Proof. unfold blen. destruct b; simpl; split; intros; try done; lia. Qed.
#[export] Hint Resolve blen_nonneg : sl.
#[export] Hint Rewrite blen_app blen_nil blen_cons : slr.

(** ** Byte orders: [encoding/binary]'s PutUint / Uint at n bytes *)

Fixpoint le_put (n : nat) (x : Z) : list Z :=
  match n with
  | O => []
  | S n' => x mod 256 :: le_put n' (x / 256)
  end.

Fixpoint le_get (b : list Z) : Z :=
  match b with
  | [] => 0
  | x :: b' => x + 256 * le_get b'
  end.

Definition be_put (n : nat) (x : Z) : list Z := reverse (le_put n x).
Definition be_get (b : list Z) : Z := le_get (reverse b).

Lemma le_put_length n x : length (le_put n x) = n.
Proof. revert x; induction n; intros; simpl; [done | by rewrite IHn]. Qed.

Lemma le_put_ok n x : bytes_ok (le_put n x).
Proof.
  revert x; induction n as [|n IH]; intros x; simpl; [constructor|].
  constructor; [|apply IH]. unfold is_u8. apply Z.mod_pos_bound. lia.
Qed.

Lemma le_get_put n x : 0 <= x < 256 ^ Z.of_nat n -> le_get (le_put n x) = x.
Proof.
  revert x; induction n as [|n IH]; intros x Hx.
  { change (256 ^ Z.of_nat 0) with 1 in Hx. simpl. lia. }
  simpl. rewrite IH.
  - pose proof (Z.div_mod x 256). lia.
  - rewrite Nat2Z.inj_succ, Z.pow_succ_r in Hx by lia.
    split; [apply Z.div_pos; lia | apply Z.div_lt_upper_bound; lia].
Qed.

Lemma le_put_get b : bytes_ok b -> le_put (length b) (le_get b) = b.
Proof.
  induction 1 as [|x b Hx Hb IH]; simpl; [done|].
  unfold is_u8 in Hx. rewrite (Z.mul_comm 256), Z_mod_plus_full, Z.mod_small by lia.
  rewrite Z.div_add, Z.div_small, Z.add_0_l by lia. by rewrite IH.
Qed.

Lemma le_get_range b : bytes_ok b -> 0 <= le_get b < 256 ^ Z.of_nat (length b).
Proof.
  induction 1 as [|x b Hx Hb IH]; simpl le_get; [simpl; lia|].
  cbn [length]. rewrite Nat2Z.inj_succ, Z.pow_succ_r by lia. unfold is_u8 in Hx. lia.
Qed.

Lemma be_put_length n x : length (be_put n x) = n.
Proof. unfold be_put. by rewrite length_reverse, le_put_length. Qed.
Lemma be_put_ok n x : bytes_ok (be_put n x).
Proof. unfold be_put, bytes_ok. apply Forall_reverse, le_put_ok. Qed.
Lemma be_get_put n x : 0 <= x < 256 ^ Z.of_nat n -> be_get (be_put n x) = x.
Proof. intros. unfold be_get, be_put. rewrite reverse_involutive. by apply le_get_put. Qed.
Lemma be_put_get b : bytes_ok b -> be_put (length b) (be_get b) = b.
Proof.
  intros Hb. unfold be_get, be_put.
  rewrite <- (length_reverse b), le_put_get, reverse_involutive; [done|].
  unfold bytes_ok. by apply Forall_reverse.
Qed.
Lemma be_get_range b : bytes_ok b -> 0 <= be_get b < 256 ^ Z.of_nat (length b).
Proof.
  intros Hb. unfold be_get. rewrite <- (length_reverse b). apply le_get_range.
  unfold bytes_ok. by apply Forall_reverse.
Qed.
#[export] Hint Resolve le_put_ok be_put_ok : sl.
#[export] Hint Rewrite le_put_length be_put_length : slr.

(** ** Slices: [b[i:j]] of a Go slice, for [i <= j <= len(b)] *)

Definition slice {A} (b : list A) (i j : Z) : list A :=
  take (Z.to_nat (j - i)) (drop (Z.to_nat i) b).

(** [b[i:]] *)
Definition slice_from {A} (b : list A) (i : Z) : list A := drop (Z.to_nat i) b.

(** [b[i]] on bytes, 0 standing for the run-time panic; the uses are behind length guards. *)
Definition byte_at (b : list Z) (i : Z) : Z := default 0 (b !! Z.to_nat i).

(** Writing [copy(dst[:], src)] into a fixed array of length [n]. *)
Definition copy_into (n : nat) (src : list Z) : list Z :=
  take n src ++ replicate (n - length src) 0.

Lemma copy_into_exact n src : length src = n -> copy_into n src = src.
Proof.
  intros <-. unfold copy_into. rewrite Nat.sub_diag, firstn_all. simpl. apply app_nil_r.
Qed.

Lemma copy_into_length n src : length (copy_into n src) = n.
Proof. unfold copy_into. rewrite length_app, length_take, length_replicate. lia. Qed.

Lemma slice_length {A} (b : list A) i j :
  0 <= i <= j -> j <= Z.of_nat (length b) -> length (slice b i j) = Z.to_nat (j - i).
Proof. intros. unfold slice. rewrite length_take, length_drop. lia. Qed.

Lemma slice_app {A} (a m r : list A) i j :
  i = Z.of_nat (length a) -> j = i + Z.of_nat (length m) -> slice (a ++ m ++ r) i j = m.
Proof.
  intros -> ->. unfold slice.
  rewrite Nat2Z.id, drop_app_length.
  replace (Z.to_nat _) with (length m) by lia. apply take_app_length.
Qed.

(** ** Time: a [time.Time] is its distance to the Unix epoch in nanoseconds *)

Abbreviation Time := Z (only parsing).
Abbreviation Duration := Z (only parsing).

Definition Nanosecond : Z := 1.
Definition Millisecond : Z := 1000000.
Definition Second : Z := 1000000000.
Definition Minute : Z := 60 * Second.
Definition Hour : Z := 60 * Minute.

(** Go's zero [time.Time] is January 1, year 1, 00:00 UTC. *)
Definition zeroTime : Z := - 62135596800 * Second.

Definition IsZero (t : Z) : bool := t =? zeroTime.
Definition Before (t u : Z) : bool := t <? u.
Definition After (t u : Z) : bool := u <? t.
Definition TimeAdd (t d : Z) : Z := t + d.
(** [t.Sub(u)] saturates at the range of [time.Duration]. *)
Definition TimeSub (t u : Z) : Z := Z.max min_i64 (Z.min max_i64 (t - u)).
(** [t.Unix()]: whole seconds since the epoch. *)
Definition Unix (t : Z) : Z := t / Second.
(** [time.Unix(s, 0)] *)
Definition UnixTime (s : Z) : Z := s * Second.

Lemma Unix_UnixTime s : Unix (UnixTime s) = s.
Proof. unfold Unix, UnixTime. apply Z.div_mul. unfold Second. lia. Qed.

Lemma TimeSub_small t u : is_i64 (t - u) -> TimeSub t u = t - u.
Proof. intros. unfold TimeSub. unfold_ints. lia. Qed.

Lemma TimeSub_lt t u d :
  min_i64 < d <= max_i64 -> (TimeSub t u < d <-> t - u < d).
Proof. intros. unfold TimeSub. unfold_ints. lia. Qed.

(** ** Options brought within their limits *)

(** [if x > m { x = m }], [if x < 0 { x = 0 }] *)
Definition at_most (m x : Z) : Z := if m <? x then m else x.
Definition not_neg (x : Z) : Z := if x <? 0 then 0 else x.
(** [if x <= 0 { x = d }] *)
Definition if_le0 (d x : Z) : Z := if x <=? 0 then d else x.
(** [if x == 0 && on { x = d }] *)
Definition if_zero (on : bool) (d x : Z) : Z := if (x =? 0) && on then d else x.

(** ** Generic list lemmas shared by the components *)

Definition sum_len (l : list (list Z)) : Z := foldr (fun b acc => blen b + acc) 0 l.

Lemma sum_len_cons x l : sum_len (x :: l) = blen x + sum_len l.
Proof. reflexivity. Qed.

Lemma sum_len_app a b : sum_len (a ++ b) = sum_len a + sum_len b.
Proof. induction a as [|x a IH]; simpl; [done|]. rewrite IH. lia. Qed.

Lemma sum_len_concat l : blen (concat l) = sum_len l.
Proof. induction l as [|x l IH]; simpl; [done|]. by rewrite blen_app, IH. Qed.

Lemma sum_len_nonneg l : 0 <= sum_len l.
Proof. rewrite <- sum_len_concat. apply blen_nonneg. Qed.

Lemma sum_len_replicate_nil n : sum_len (replicate n []) = 0.
Proof. induction n; simpl; rewrite ?blen_nil; lia. Qed.

Lemma sum_len_insert (l : list (list Z)) i b old :
  l !! i = Some old -> sum_len (<[i:=b]> l) = sum_len l - blen old + blen b.
Proof.
  revert i. induction l as [|x l IH]; intros [|i]; simpl; intros H; try done.
  - injection H as ->. lia.
  - rewrite (IH _ H). lia.
Qed.

Lemma list_filter_all {A} (P : A -> Prop) `{forall x, Decision (P x)} (l : list A) :
  Forall P l -> filter P l = l.
Proof. induction 1; [done|]. rewrite filter_cons_True by done. by f_equal. Qed.

Lemma list_filter_ext {A} (P Q : A -> Prop) `{forall x, Decision (P x)} `{forall x, Decision (Q x)}
    (l : list A) :
  (forall x, x ∈ l -> P x <-> Q x) -> filter P l = filter Q l.
Proof.
  induction l as [|x l IH]; intros HPQ; [done|]. rewrite !filter_cons.
  rewrite IH by (intros; apply HPQ; by right).
  specialize (HPQ x ltac:(by left)). do 2 case_decide; try done; tauto.
Qed.

Lemma filter_fmap_iff {A B} (f : A -> B) (P : A -> Prop) (Q : B -> Prop)
    `{forall x, Decision (P x)} `{forall y, Decision (Q y)} (l : list A) :
  (forall x, x ∈ l -> P x <-> Q (f x)) -> f <$> filter P l = filter Q (f <$> l).
Proof.
  induction l as [|x l IH]; intros HPQ; [done|]. rewrite fmap_cons, !filter_cons.
  rewrite <- IH by (intros; apply HPQ; by right).
  specialize (HPQ x ltac:(by left)). do 2 case_decide; try done; tauto.
Qed.

(** A loop over a list that stops at a bad element or a key seen before. *)
Lemma seen_loop {A} (ok : A -> Prop) (key : A -> string) (v : list A -> gset string -> Prop) :
  (forall seen, v [] seen) -> (forall x l seen, v (x :: l) seen <-> ok x /\ (key x ∉ seen) /\ v l ({[key x]} ∪ seen)) ->
  forall l seen, v l seen <-> Forall ok l /\ NoDup (key <$> l) /\ Forall (fun x => key x ∉ seen) l.
Proof.
  intros Hnil Hcons l. induction l as [|x l IH]; intros seen.
  { split; [|done]. intros _. split; [constructor|]. split; constructor. }
  rewrite Hcons, IH, fmap_cons, !Forall_cons, NoDup_cons. clear. split.
  - intros (Hx & Hs & Hl & Hn & Hf). split; [done|]. split.
    + split; [|done]. intros (y & E & Hy)%list_elem_of_fmap. rewrite Forall_forall in Hf. specialize (Hf y Hy). set_solver.
    + split; [done|]. eapply Forall_impl; [exact Hf|]. set_solver.
  - intros ((Hx & Hl) & (Hk & Hn) & Hs & Hf). split; [done|]. split; [done|]. split; [done|]. split; [done|]. apply Forall_forall. intros y Hy.
    rewrite Forall_forall in Hf. specialize (Hf y Hy). intros [E%elem_of_singleton|?]%elem_of_union; [|done]. apply Hk, list_elem_of_fmap. by exists y.
Qed.

(** ** [sort.Slice]: some sorted permutation, ties in any order *)

Class SortSlice {A} (le : A -> A -> Prop) := {
  sort_slice : list A -> list A;
  sort_slice_perm l : sort_slice l ≡ₚ l;
  sort_slice_sorted l : StronglySorted le (sort_slice l);
}.

Definition le_by {A} (key : A -> Z) (x y : A) : Prop := key x <= key y.

#[export] Instance le_by_dec {A} (key : A -> Z) : RelDecision (le_by key).
Proof. intros x y. unfold le_by. apply _. Defined.
#[export] Instance le_by_total {A} (key : A -> Z) : Total (le_by key).
Proof. intros x y. unfold le_by. lia. Qed.
#[export] Instance le_by_trans {A} (key : A -> Z) : Transitive (le_by key).
Proof. intros x y z. unfold le_by. lia. Qed.

(** A stable sort is one of the sorts it may be. *)
Definition merge_sort_slice {A} (le : A -> A -> Prop) `{!RelDecision le, !Total le, !Transitive le} : SortSlice le :=
  {| sort_slice := merge_sort le; sort_slice_perm := merge_sort_Permutation le; sort_slice_sorted := StronglySorted_merge_sort le |}.
