(* ===== verification/Float64.v ===== *)
(** * float64

    Go's [float64] is IEEE 754 binary64 with round-to-nearest-even, which the kernel's
    primitive floats implement; their axioms relate them to the reference operations of
    [SpecFloat].  This file gives the conversions the source uses and the sign and
    comparison facts that the token buckets, the relay scores and the routing
    probabilities need.  Go may fuse [x*y + z] on some architectures; the model is the
    unfused (amd64) evaluation. *)

From S2P Require Import Prelude.
From Stdlib Require PrimFloat FloatAxioms SpecFloat FloatOps Uint63.
Export (notations) PrimFloat.

Abbreviation float := PrimFloat.float.
Abbreviation Prim2SF := FloatOps.Prim2SF.

(** [float64(z)] of an integer of at most 63 bits and its sign. *)
Definition of_Z (z : Z) : float :=
  if z <? 0 then (- PrimFloat.of_uint63 (Uint63.of_Z (- z)))%float
  else PrimFloat.of_uint63 (Uint63.of_Z z).

(** [d.Seconds()] of a [time.Duration]. *)
Definition Seconds (d : Z) : float :=
  (of_Z (Z.quot d Second) + of_Z (Z.rem d Second) / 1000000000)%float.

(** [int64(x)]: truncation towards zero; what does not fit is the hardware's min int64. *)
Definition trunc_i64 (x : float) : Z :=
  match Prim2SF x with
  | SpecFloat.S754_zero _ => 0
  | SpecFloat.S754_finite s m e =>
      let v := if 0 <=? e then Zpos m * 2 ^ e else Zpos m / 2 ^ (- e) in
      let v := if s then - v else v in
      if bool_decide (is_i64 v) then v else min_i64
  | _ => min_i64
  end.

(** [a > b], [a >= b] of the source. *)
Definition fgt (a b : float) : bool := (b <? a)%float.
Definition fge (a b : float) : bool := (b <=? a)%float.

(** A float that is neither NaN nor below zero. *)
Definition fnn (x : float) : Prop := (0 <=? x)%float = true.
Definition fpos (x : float) : Prop := (0 <? x)%float = true.

(** [max(0, min(1, p))] as the source clamps a score or a probability. *)
Definition clamp01 (p : float) : float :=
  if (p <? 0)%float then 0%float else if (1 <? p)%float then 1%float else p.

(** ** Comparisons *)

Lemma SFcompare_refl_not_nan x : x <> SpecFloat.S754_nan -> SpecFloat.SFcompare x x = Some Eq.
Proof.
  destruct x as [s|s| |s m e]; intros H; try done; try by destruct s.
  simpl. rewrite Z.compare_refl, Pos.compare_cont_refl. by destruct s.
Qed.

Definition sf_neg (x : SpecFloat.spec_float) : bool :=
  match x with SpecFloat.S754_infinity true | SpecFloat.S754_finite true _ _ => true | _ => false end.
Definition sf_nan (x : SpecFloat.spec_float) : bool :=
  match x with SpecFloat.S754_nan => true | _ => false end.

Lemma Prim2SF_0 : Prim2SF 0%float = SpecFloat.S754_zero false.
Proof. reflexivity. Qed.

Lemma fnn_spec x : fnn x <-> sf_neg (Prim2SF x) = false /\ sf_nan (Prim2SF x) = false.
Proof.
  unfold fnn. rewrite FloatAxioms.leb_spec, Prim2SF_0. unfold SpecFloat.SFleb.
  destruct (Prim2SF x) as [s|[]| |[] m e]; simpl; intuition congruence.
Qed.

Lemma ltb0_spec x : (x <? 0)%float = sf_neg (Prim2SF x).
Proof. rewrite FloatAxioms.ltb_spec, Prim2SF_0. by destruct (Prim2SF x) as [s|[]| |[] m e]. Qed.

Lemma fpos_spec x :
  fpos x <-> match Prim2SF x with SpecFloat.S754_infinity false | SpecFloat.S754_finite false _ _ => True | _ => False end.
Proof.
  unfold fpos. rewrite FloatAxioms.ltb_spec, Prim2SF_0.
  destruct (Prim2SF x) as [s|[]| |[] m e]; simpl; split; done.
Qed.

Lemma fpos_fnn x : fpos x -> fnn x.
Proof. rewrite fpos_spec, fnn_spec. by destruct (Prim2SF x) as [s|[]| |[] m e]. Qed.

(** A failed strict comparison of two numbers is the converse weak one. *)
Lemma ltb_false_leb x y :
  sf_nan (Prim2SF x) = false -> sf_nan (Prim2SF y) = false ->
  (x <? y)%float = false -> (y <=? x)%float = true.
Proof.
  rewrite FloatAxioms.ltb_spec, FloatAxioms.leb_spec. unfold SpecFloat.SFltb, SpecFloat.SFleb.
  destruct (Prim2SF x) as [s|s| |s m e], (Prim2SF y) as [s'|s'| |s' m' e'];
    simpl; intros; try done; try destruct s; try destruct s'; try done.
  all: rewrite (Z.compare_antisym e e'); destruct (e ?= e'); simpl in *; try done.
  all: change (Pos.compare_cont Eq) with Pos.compare in *.
  all: rewrite (Pos.compare_antisym m m'); by destruct (Pos.compare m m').
Qed.

(** ** Signs of sums, differences and products

    Rounding keeps the sign it is given, so only the exact value's sign matters. *)

Lemma binary_round_aux_sign prec emax s m e l :
  0 <= m ->
  let r := SpecFloat.binary_round_aux prec emax s m e l in
  sf_nan r = false /\ (s = false -> sf_neg r = false).
Proof.
  intros Hm. unfold SpecFloat.binary_round_aux.
  assert (Hshr1 : forall r, 0 <= SpecFloat.shr_m r -> 0 <= SpecFloat.shr_m (SpecFloat.shr_1 r)).
  { intros [[|[p|p|]|[p|p|]] rr ss]; simpl; lia. }
  assert (Hiter : forall p r, 0 <= SpecFloat.shr_m r ->
            0 <= SpecFloat.shr_m (SpecFloat.iter_pos SpecFloat.shr_1 p r)).
  { induction p; intros r Hr; simpl; auto. }
  assert (Hfexp : forall m e l, 0 <= m ->
            0 <= SpecFloat.shr_m (fst (SpecFloat.shr_fexp prec emax m e l))).
  { intros m' e' l' Hm'. unfold SpecFloat.shr_fexp, SpecFloat.shr.
    destruct (_ - e') as [|p|p]; simpl; [| apply Hiter |]; by destruct l' as [|[]]. }
  pose proof (Hfexp m e l Hm) as H1.
  destruct (SpecFloat.shr_fexp prec emax m e l) as [r1 e1]. simpl in H1.
  assert (0 <= SpecFloat.round_nearest_even (SpecFloat.shr_m r1)
                 (SpecFloat.loc_of_shr_record r1)) as H2.
  { destruct (SpecFloat.loc_of_shr_record r1) as [|[]]; simpl; try destruct (Z.even _); lia. }
  pose proof (Hfexp _ e1 SpecFloat.loc_Exact H2) as H3.
  destruct (SpecFloat.shr_fexp prec emax _ e1 SpecFloat.loc_Exact) as [r2 e2]. simpl in H3.
  destruct (SpecFloat.shr_m r2); [done| |lia].
  destruct (_ <=? _); split; try done; by intros ->.
Qed.

Lemma binary_normalize_sign prec emax m e :
  0 <= m ->
  let r := SpecFloat.binary_normalize prec emax m e false in
  sf_nan r = false /\ sf_neg r = false.
Proof.
  intros Hm. destruct m as [|m|m]; [done| |lia]. simpl. unfold SpecFloat.binary_round.
  destruct (SpecFloat.shl_align _ _ _) as [mz ez].
  destruct (binary_round_aux_sign prec emax false (Zpos mz) ez SpecFloat.loc_Exact); [lia|auto].
Qed.

Lemma fadd_nn x y : fnn x -> fnn y -> fnn (x + y)%float.
Proof.
  rewrite !fnn_spec, FloatAxioms.add_spec. intros [Hx Nx] [Hy Ny].
  destruct (Prim2SF x) as [[]|[]| |[] m e], (Prim2SF y) as [[]|[]| |[] m' e'];
    cbn -[SpecFloat.binary_normalize] in *; try done.
  apply and_comm, binary_normalize_sign. lia.
Qed.

Lemma fmul_nn x y : fnn x -> fnn y -> sf_nan (Prim2SF (x * y)%float) = false -> fnn (x * y)%float.
Proof.
  rewrite !fnn_spec, FloatAxioms.mul_spec. intros [Hx Nx] [Hy Ny].
  destruct (Prim2SF x) as [[]|[]| |[] m e], (Prim2SF y) as [[]|[]| |[] m' e'];
    cbn -[SpecFloat.binary_round_aux] in *; try done.
  intros Hn. split; [|done].
  destruct (binary_round_aux_sign FloatOps.prec FloatOps.emax false
              (Z.pos (m * m')) (e + e') SpecFloat.loc_Exact); [lia|auto].
Qed.

(** Not below zero (a NaN is not below zero either). *)
Definition fge0 (x : float) : Prop := (x <? 0)%float = false.

Lemma fge0_spec x : fge0 x <-> sf_neg (Prim2SF x) = false.
Proof. unfold fge0. by rewrite ltb0_spec. Qed.

Lemma fnn_fge0 x : fnn x -> fge0 x.
Proof. rewrite fnn_spec, fge0_spec. tauto. Qed.

Lemma fadd_ge0 x y : fge0 x -> fge0 y -> fge0 (x + y)%float.
Proof.
  rewrite !fge0_spec, FloatAxioms.add_spec. intros Hx Hy.
  destruct (Prim2SF x) as [[]|[]| |[] m e], (Prim2SF y) as [[]|[]| |[] m' e'];
    cbn -[SpecFloat.binary_normalize] in *; try done.
  apply binary_normalize_sign. lia.
Qed.

Lemma fmul_ge0 x y : fge0 x -> fge0 y -> fge0 (x * y)%float.
Proof.
  rewrite !fge0_spec, FloatAxioms.mul_spec. intros Hx Hy.
  destruct (Prim2SF x) as [s|[]| |[] m e], (Prim2SF y) as [s'|[]| |[] m' e'];
    cbn -[SpecFloat.binary_round_aux] in *; try done.
  by apply binary_round_aux_sign.
Qed.

(** The exact value of an aligned mantissa. *)
Lemma shl_align_val m e ez :
  ez <= e -> Zpos (fst (SpecFloat.shl_align m e ez)) = Zpos m * 2 ^ (e - ez).
Proof.
  intros H. unfold SpecFloat.shl_align. destruct (ez - e) as [|d|d] eqn:E; simpl.
  - replace (e - ez) with 0 by lia. lia.
  - lia.
  - replace (e - ez) with (Zpos d) by lia. rewrite <- Z.shiftl_mul_pow2 by lia. by apply Pos.iter_swap_gen.
Qed.

Lemma digits2_pos_bounds m :
  2 ^ (Zpos (SpecFloat.digits2_pos m) - 1) <= Zpos m < 2 ^ Zpos (SpecFloat.digits2_pos m).
Proof.
  induction m as [m IH|m IH|]; cbn [SpecFloat.digits2_pos]; [| |simpl; lia];
    rewrite Pos2Z.inj_succ; unfold Z.succ; rewrite Z.add_simpl_r, Z.pow_add_r by lia;
    assert (2 ^ Zpos (SpecFloat.digits2_pos m) =
            2 * 2 ^ (Zpos (SpecFloat.digits2_pos m) - 1)) as E
      by (rewrite <- Z.pow_succ_r by lia; f_equal; lia); lia.
Qed.

(** Two canonical positive floats are ordered as their exact values. *)
Lemma canonical_le m e m' e' :
  SpecFloat.canonical_mantissa 53 1024 m e = true ->
  SpecFloat.canonical_mantissa 53 1024 m' e' = true ->
  e < e' \/ (e = e' /\ Zpos m <= Zpos m') ->
  Zpos m * 2 ^ (e - Z.min e e') <= Zpos m' * 2 ^ (e' - Z.min e e').
Proof.
  unfold SpecFloat.canonical_mantissa, SpecFloat.fexp, SpecFloat.emin.
  rewrite !Z.eqb_eq. intros Hc Hc' [Hlt|[-> Hm]]; [|rewrite Z.min_id, Z.sub_diag; lia].
  rewrite Z.min_l, Z.sub_diag by lia.
  pose proof (digits2_pos_bounds m) as [_ Hm]. pose proof (digits2_pos_bounds m') as [Hm' _].
  set (d := Zpos (SpecFloat.digits2_pos m)) in *.
  set (d' := Zpos (SpecFloat.digits2_pos m')) in *.
  assert (d <= 53) by lia. assert (d' = 53) by lia.
  transitivity (2 ^ (d' - 1) * 2 ^ (e' - e)).
  - rewrite <- Z.pow_add_r by lia.
    transitivity (2 ^ d); [lia|]. apply Z.pow_le_mono_r; lia.
  - apply Z.mul_le_mono_nonneg_r; [apply Z.pow_nonneg|]; lia.
Qed.

(** Paying a cost that is covered does not overdraw: [b.tokens -= cost] after
    [b.tokens >= cost]. *)
Lemma fsub_not_neg x c :
  fpos c -> (c <=? x)%float = true -> (x - c <? 0)%float = false.
Proof.
  rewrite fpos_spec, FloatAxioms.leb_spec, ltb0_spec, FloatAxioms.sub_spec.
  pose proof (FloatAxioms.Prim2SF_valid x) as Vx. pose proof (FloatAxioms.Prim2SF_valid c) as Vc.
  unfold SpecFloat.SFleb.
  destruct (Prim2SF c) as [[]|[]| |[] m e], (Prim2SF x) as [[]|[]| |[] m' e'];
    cbn -[SpecFloat.binary_normalize] in *; try done.
  intros _ Hle. apply binary_normalize_sign.
  unfold SpecFloat.bounded in *. apply andb_prop in Vx as [Vx _]. apply andb_prop in Vc as [Vc _].
  rewrite !shl_align_val by lia. rewrite (Z.min_comm e' e).
  pose proof (canonical_le m e m' e' Vc Vx). change (Pos.compare_cont Eq) with Pos.compare in *.
  destruct (Z.compare_spec e e'); try done; [|lia].
  destruct (Pos.compare_spec m m'); try done; lia.
Qed.

(** ** The clamp *)

Lemma clamp01_bounds p : (clamp01 p <? 0)%float = false /\ (1 <? clamp01 p)%float = false.
Proof.
  unfold clamp01. destruct (p <? 0)%float eqn:E0; [done|].
  destruct (1 <? p)%float eqn:E1; done.
Qed.
