(* ===== verification/Message.v ===== *)
(** * Messages, chunk frames and chunking ([core/proximity/message_router])

    [message.go]: a message, its identifier and its expiry.  [wire.go]: the binary chunk
    frame.  [chunking.go]: cutting a message into frames that fit the radio.  BLAKE2s is
    not code of the repository: [blake2s] is a parameter, and no property of it is
    needed, because an identifier is always its first 16 bytes. *)

From S2P Require Import Prelude.

Abbreviation MessageID := (list Z) (only parsing).
Abbreviation NodeID := (list Z) (only parsing).

Record Message := mkMessage {
  m_ID : list Z;
  m_Sender : list Z;
  m_Timestamp : Z;
  m_TTLSec : Z;
  m_Hop : Z;
  m_Payload : list Z;
}.

Definition zeroMessage : Message := mkMessage (replicate 16 0) (replicate 8 0) zeroTime 0 0 [].

Inductive MsgErr :=
  | ErrTTLZero
  | ErrIndexCount (index count : Z)
  | ErrTimestampRequired
  | ErrFrameTooSmall
  | ErrBadMagic
  | ErrUnsupportedVersion
  | ErrUnsupportedKind
  | ErrMaxFrameBytes
  | ErrMaxFrameTooSmall (overhead : Z)
  | ErrTooManyChunks.

(** [Message.ExpiresAt], shared by messages and frames. *)
Definition expires_at (ts ttlSec : Z) : Z := TimeAdd ts (i64 (ttlSec * Second)).
Definition Message_ExpiresAt (m : Message) : Z := expires_at (m_Timestamp m) (m_TTLSec m).

Section Hash.
Context (blake2s : list Z -> list Z).

Definition ComputeMessageID (sender : list Z) (ts ttlSec : Z) (payload : list Z) : list Z :=
  let tmp := copy_into 8 sender ++ le_put 8 (u64 (Unix ts)) ++ le_put 2 ttlSec in
  copy_into 16 (slice (blake2s (tmp ++ payload)) 0 16).

Definition NewMessage (sender : list Z) (now ttlSec : Z) (payload : list Z) : res MsgErr Message :=
  if ttlSec =? 0 then Err ErrTTLZero
  else Ok (mkMessage (ComputeMessageID sender now ttlSec payload) sender now ttlSec 0 payload).

End Hash.

(** ** The wire format *)

Definition wireMagic0 : Z := 83.
Definition wireMagic1 : Z := 76.
Definition wireVersion : Z := 1.
Definition wireKindChunk : Z := 1.

Definition DecodeHeader (b : list Z) : Z * Z * bool :=
  if blen b <? 4 then (0, 0, false)
  else if negb (byte_at b 0 =? wireMagic0) || negb (byte_at b 1 =? wireMagic1) then (0, 0, false)
  else (byte_at b 2, byte_at b 3, true).

Record ChunkFrame := mkChunkFrame {
  f_MsgID : list Z;
  f_Sender : list Z;
  f_Timestamp : Z;
  f_TTLSec : Z;
  f_Hop : Z;
  f_ChunkIndex : Z;
  f_ChunkCount : Z;
  f_Data : list Z;
}.

Definition ChunkFrame_ExpiresAt (f : ChunkFrame) : Z := expires_at (f_Timestamp f) (f_TTLSec f).

(** The bytes [EncodeChunkFrame] appends, in order. *)
Definition frame_bytes (f : ChunkFrame) : list Z :=
  [wireMagic0; wireMagic1; wireVersion; wireKindChunk]
  ++ f_MsgID f ++ f_Sender f
  ++ le_put 4 (u32 (Unix (f_Timestamp f))) ++ le_put 2 (f_TTLSec f) ++ [f_Hop f]
  ++ le_put 2 (f_ChunkIndex f) ++ le_put 2 (f_ChunkCount f)
  ++ f_Data f.

Definition EncodeChunkFrame (f : ChunkFrame) : res MsgErr (list Z) :=
  if f_TTLSec f =? 0 then Err ErrTTLZero
  else if (f_ChunkCount f =? 0) || (f_ChunkCount f <=? f_ChunkIndex f)
  then Err (ErrIndexCount (f_ChunkIndex f) (f_ChunkCount f))
  else if IsZero (f_Timestamp f) then Err ErrTimestampRequired
  else Ok (frame_bytes f).

(** [2 + 1 + 1 + 16 + 8 + (4 + 2 + 1 + 2 + 2)], in [DecodeChunkFrame] and [ChunkMessage]. *)
Definition frame_overhead : Z := 2 + 1 + 1 + 16 + 8 + (4 + 2 + 1 + 2 + 2).

Definition DecodeChunkFrame (b : list Z) : res MsgErr ChunkFrame :=
  if blen b <? frame_overhead then Err ErrFrameTooSmall
  else if negb (byte_at b 0 =? wireMagic0) || negb (byte_at b 1 =? wireMagic1) then Err ErrBadMagic
  else if negb (byte_at b 2 =? wireVersion) then Err ErrUnsupportedVersion
  else if negb (byte_at b 3 =? wireKindChunk) then Err ErrUnsupportedKind
  else
    let msgID := copy_into 16 (slice b 4 20) in
    let sender := copy_into 8 (slice b 20 28) in
    let ts := le_get (slice b 28 32) in
    let ttlSec := le_get (slice b 32 34) in
    let hop := byte_at b 34 in
    let idx := le_get (slice b 35 37) in
    let cnt := le_get (slice b 37 39) in
    if ttlSec =? 0 then Err ErrTTLZero
    else if (cnt =? 0) || (cnt <=? idx) then Err (ErrIndexCount idx cnt)
    else Ok (mkChunkFrame msgID sender (UnixTime ts) ttlSec hop idx cnt (slice_from b 39)).

(** ** Chunking *)

Definition chunk_frame (msg : Message) (index count : Z) (data : list Z) : ChunkFrame :=
  mkChunkFrame (m_ID msg) (m_Sender msg) (m_Timestamp msg) (m_TTLSec msg) (m_Hop msg)
    index count data.

(** One turn of the loop: bytes [i * maxData, min ((i + 1) * maxData) len). *)
Definition chunk_data (payload : list Z) (maxData i : Z) : list Z :=
  let start := i64 (i * maxData) in
  let stop := i64 (start + maxData) in
  slice payload start (if blen payload <? stop then blen payload else stop).

Fixpoint chunk_loop (msg : Message) (maxData chunks : Z) (n : nat) (i : Z) : list ChunkFrame :=
  match n with
  | O => []
  | S n' =>
      chunk_frame msg (u16 i) (u16 chunks) (chunk_data (m_Payload msg) maxData i)
      :: chunk_loop msg maxData chunks n' (i + 1)
  end.

Definition ChunkMessage (msg : Message) (maxFrameBytes : Z) : res MsgErr (list ChunkFrame) :=
  if maxFrameBytes <=? 0 then Err ErrMaxFrameBytes
  else if maxFrameBytes <=? frame_overhead then Err (ErrMaxFrameTooSmall frame_overhead)
  else
    let maxData := maxFrameBytes - frame_overhead in
    let payload := m_Payload msg in
    if blen payload =? 0 then Ok [chunk_frame msg 0 1 []]
    else
      let chunks := Z.quot (i64 (i64 (blen payload + maxData) - 1)) maxData in
      if 65535 <? chunks then Err ErrTooManyChunks
      else Ok (chunk_loop msg maxData chunks (Z.to_nat chunks) 0).

(** ** Well-formed values: what Go's types guarantee *)

Record frame_ok (f : ChunkFrame) : Prop := {
  fo_id : length (f_MsgID f) = 16%nat;
  fo_sender : length (f_Sender f) = 8%nat;
  fo_ttl : is_u16 (f_TTLSec f);
  fo_hop : is_u8 (f_Hop f);
  fo_idx : is_u16 (f_ChunkIndex f);
  fo_cnt : is_u16 (f_ChunkCount f);
}.

Record msg_ok (m : Message) : Prop := {
  mo_id : length (m_ID m) = 16%nat;
  mo_sender : length (m_Sender m) = 8%nat;
  mo_ttl : is_u16 (m_TTLSec m) /\ m_TTLSec m <> 0;
  mo_hop : is_u8 (m_Hop m);
}.

(** The frame a receiver sees: the timestamp at the wire's one second resolution. *)
Definition wire_time (t : Z) : Z := UnixTime (u32 (Unix t)).
Definition on_wire (f : ChunkFrame) : ChunkFrame :=
  mkChunkFrame (f_MsgID f) (f_Sender f) (wire_time (f_Timestamp f)) (f_TTLSec f) (f_Hop f)
    (f_ChunkIndex f) (f_ChunkCount f) (f_Data f).

(** What the encoder accepts. *)
Definition encodable (f : ChunkFrame) : bool :=
  negb (f_TTLSec f =? 0) && (f_ChunkIndex f <? f_ChunkCount f) && negb (f_ChunkCount f =? 0)
  && negb (IsZero (f_Timestamp f)).

(** ** Identifiers and headers *)

Lemma ComputeMessageID_length blake2s s t l p : length (ComputeMessageID blake2s s t l p) = 16%nat.
Proof. apply copy_into_length. Qed.

Lemma NewMessage_ok blake2s s now ttl p m :
  length s = 8%nat -> is_u16 ttl -> NewMessage blake2s s now ttl p = Ok m -> msg_ok m.
Proof.
  unfold NewMessage. intros Hs Ht. destruct (Z.eqb_spec ttl 0); [done|]. intros [= <-].
  split; simpl; auto; [apply ComputeMessageID_length | by unfold is_u8].
Qed.

(** ** The encoder and decoder *)

Lemma encode_ok f b : EncodeChunkFrame f = Ok b <-> encodable f = true /\ b = frame_bytes f.
Proof.
  unfold encodable, EncodeChunkFrame. rewrite Z.leb_antisym.
  destruct (f_TTLSec f =? 0), (f_ChunkCount f =? 0), (f_ChunkIndex f <? f_ChunkCount f),
    (IsZero (f_Timestamp f)); simpl; intuition congruence.
Qed.

Lemma frame_bytes_length f : frame_ok f -> blen (frame_bytes f) = frame_overhead + blen (f_Data f).
Proof.
  intros [H1 H2 _ _ _ _]. unfold frame_bytes, blen, frame_overhead.
  rewrite !length_app, !le_put_length, H1, H2. simpl. lia.
Qed.

Lemma wire_time_not_zero t : IsZero (wire_time t) = false.
Proof.
  unfold IsZero, wire_time, UnixTime, zeroTime, Second. pose proof (u32_range (Unix t)).
  unfold_ints. lia.
Qed.

(** Reading a field behind a known prefix. *)
Lemma byte_at_app p x r i : i = Z.of_nat (length p) -> byte_at (p ++ x :: r) i = x.
Proof.
  intros ->. unfold byte_at. rewrite Nat2Z.id, lookup_app_r, Nat.sub_diag by lia. done.
Qed.

(** Offsets of consecutive fields: lengths of concatenations, computed. *)
Local Ltac seg :=
  repeat match goal with hd := _ : list Z |- _ => unfold hd end;
  rewrite ?length_app; cbn [length]; lia.

(** The decoder reads back the fields at their offsets. *)
Lemma decode_layout mid snd ts ttl hop idx cnt data :
  length mid = 16%nat -> length snd = 8%nat -> length ts = 4%nat -> length ttl = 2%nat ->
  length idx = 2%nat -> length cnt = 2%nat ->
  DecodeChunkFrame ([wireMagic0; wireMagic1; wireVersion; wireKindChunk]
     ++ mid ++ snd ++ ts ++ ttl ++ [hop] ++ idx ++ cnt ++ data) =
  if le_get ttl =? 0 then Err ErrTTLZero
  else if (le_get cnt =? 0) || (le_get cnt <=? le_get idx)
  then Err (ErrIndexCount (le_get idx) (le_get cnt))
  else Ok (mkChunkFrame mid snd (UnixTime (le_get ts)) (le_get ttl) hop (le_get idx) (le_get cnt) data).
Proof.
  intros Hm Hs Ht Hl Hi Hc. set (hd := [wireMagic0; wireMagic1; wireVersion; wireKindChunk]).
  unfold DecodeChunkFrame.
  rewrite (proj2 (Z.ltb_ge _ _)); cycle 1.
  { unfold blen, frame_overhead. rewrite !length_app, Hm, Hs, Ht, Hl, Hi, Hc. simpl. lia. }
  change (byte_at (hd ++ _) 0) with wireMagic0. change (byte_at (hd ++ _) 1) with wireMagic1.
  change (byte_at (hd ++ _) 2) with wireVersion. change (byte_at (hd ++ _) 3) with wireKindChunk.
  rewrite !Z.eqb_refl. cbn [negb orb].
  rewrite (slice_app hd mid _ 4 20) by seg.
  rewrite (app_assoc hd mid), (slice_app _ snd _ 20 28) by seg.
  rewrite (app_assoc _ snd), (slice_app _ ts _ 28 32) by seg.
  rewrite (app_assoc _ ts), (slice_app _ ttl _ 32 34) by seg.
  rewrite (app_assoc _ ttl), (byte_at_app _ hop (idx ++ cnt ++ data) 34) by seg.
  rewrite (app_assoc _ [hop]), (slice_app _ idx _ 35 37) by seg.
  rewrite (app_assoc _ idx), (slice_app _ cnt _ 37 39) by seg.
  rewrite (app_assoc _ cnt). unfold slice_from.
  rewrite drop_app_length' by seg.
  by rewrite !copy_into_exact.
Qed.

Lemma unapp (n : nat) (b : list Z) :
  (n <= length b)%nat -> exists a r, b = a ++ r /\ length a = n.
Proof.
  intros H. exists (take n b), (drop n b). rewrite take_drop, length_take. split; [done|lia].
Qed.

Lemma frame_split (b : list Z) :
  (39 <= length b)%nat ->
  exists x0 x1 x2 x3 mid snd ts ttl hop idx cnt data,
    b = [x0; x1; x2; x3] ++ mid ++ snd ++ ts ++ ttl ++ [hop] ++ idx ++ cnt ++ data
    /\ length mid = 16%nat /\ length snd = 8%nat /\ length ts = 4%nat /\ length ttl = 2%nat
    /\ length idx = 2%nat /\ length cnt = 2%nat.
Proof.
  intros H.
  destruct (unapp 4 b) as (h & r & -> & Hh); [lia|]. rewrite length_app in H.
  destruct h as [|x0 [|x1 [|x2 [|x3 [|]]]]]; try done.
  destruct (unapp 16 r) as (mid & r1 & -> & ?); [lia|]. rewrite length_app in H.
  destruct (unapp 8 r1) as (snd & r2 & -> & ?); [lia|]. rewrite length_app in H.
  destruct (unapp 4 r2) as (ts & r3 & -> & ?); [lia|]. rewrite length_app in H.
  destruct (unapp 2 r3) as (ttl & r4 & -> & ?); [lia|]. rewrite length_app in H.
  destruct (unapp 1 r4) as ([|hop []] & r5 & -> & ?); [lia|done| |done]. rewrite length_app in H.
  destruct (unapp 2 r5) as (idx & r6 & -> & ?); [lia|]. rewrite length_app in H.
  destruct (unapp 2 r6) as (cnt & data & -> & ?); [lia|].
  by exists x0, x1, x2, x3, mid, snd, ts, ttl, hop, idx, cnt, data.
Qed.

Lemma decode_header_bytes (b : list Z) f :
  DecodeChunkFrame b = Ok f ->
  (39 <= length b)%nat /\ byte_at b 0 = wireMagic0 /\ byte_at b 1 = wireMagic1
  /\ byte_at b 2 = wireVersion /\ byte_at b 3 = wireKindChunk.
Proof.
  unfold DecodeChunkFrame.
  destruct (Z.ltb_spec (blen b) frame_overhead) as [|Hl]; [done|].
  destruct (Z.eqb_spec (byte_at b 0) wireMagic0); [|done].
  destruct (Z.eqb_spec (byte_at b 1) wireMagic1); [|done].
  destruct (Z.eqb_spec (byte_at b 2) wireVersion); [|done].
  destruct (Z.eqb_spec (byte_at b 3) wireKindChunk); [|done].
  intros _. unfold blen, frame_overhead in Hl. split_and!; auto. lia.
Qed.

Lemma le_get_u16 b : bytes_ok b -> length b = 2%nat -> is_u16 (le_get b).
Proof. intros Hb Hl. pose proof (le_get_range b Hb). rewrite Hl in *. unfold_ints. lia. Qed.

Lemma decode_frame_bytes b f :
  bytes_ok b -> DecodeChunkFrame b = Ok f ->
  frame_ok f /\ encodable f = true /\ b = frame_bytes f
  /\ wire_time (f_Timestamp f) = f_Timestamp f.
Proof.
  intros Hb Hd. pose proof (decode_header_bytes b f Hd) as (Hlen & H0 & H1 & H2 & H3).
  destruct (frame_split b Hlen) as
    (x0 & x1 & x2 & x3 & mid & snd & ts & ttl & hop & idx & cnt & data & -> & L1 & L2 & L3 & L4 & L5 & L6).
  cbv [byte_at lookup list_lookup app Z.to_nat Pos.to_nat Pos.iter_op default from_option id Nat.add] in H0, H1, H2, H3.
  simpl in H0, H1, H2, H3. subst. rewrite decode_layout in Hd by done.
  unfold bytes_ok in Hb. rewrite !Forall_app in Hb.
  destruct Hb as (_ & B1 & B2 & B3 & B4 & Bh & B5 & B6 & B7). rewrite Forall_singleton in Bh.
  destruct (Z.eqb_spec (le_get ttl) 0); [done|].
  destruct (Z.eqb_spec (le_get cnt) 0); [done|].
  destruct (Z.leb_spec (le_get cnt) (le_get idx)); [done|]. injection Hd as <-.
  pose proof (le_get_range ts B3) as Hts. rewrite L3 in Hts.
  assert (u32 (Unix (UnixTime (le_get ts))) = le_get ts) as Ets.
  { rewrite Unix_UnixTime. apply u32_id. unfold_ints. lia. }
  split_and!.
  - split; simpl; try assumption; by apply le_get_u16.
  - unfold encodable. simpl.
    rewrite (proj2 (Z.eqb_neq _ _)), (proj2 (Z.ltb_lt _ _)), (proj2 (Z.eqb_neq (le_get cnt) 0)) by lia.
    pose proof (wire_time_not_zero (UnixTime (le_get ts))) as Hz.
    unfold wire_time in Hz. rewrite Ets in Hz. by rewrite Hz.
  - unfold frame_bytes. simpl f_MsgID. simpl f_Sender. simpl f_Timestamp. simpl f_TTLSec.
    simpl f_Hop. simpl f_ChunkIndex. simpl f_ChunkCount. simpl f_Data. rewrite Ets.
    rewrite <- L3 at 1. rewrite <- L4 at 1. rewrite <- L5 at 1. rewrite <- L6 at 1.
    by rewrite !le_put_get.
  - simpl. unfold wire_time. by rewrite Ets.
Qed.

Lemma frame_bytes_decode f :
  frame_ok f -> encodable f = true -> DecodeChunkFrame (frame_bytes f) = Ok (on_wire f).
Proof.
  intros [? ? Httl ? Hidx Hcnt] He. unfold frame_bytes.
  rewrite decode_layout by (rewrite ?le_put_length; done).
  rewrite !(le_get_put 2), (le_get_put 4) by (pose proof (u32_range (Unix (f_Timestamp f))); unfold_ints; lia).
  unfold encodable in He.
  rewrite Z.leb_antisym.
  destruct (f_TTLSec f =? 0), (f_ChunkCount f =? 0), (f_ChunkIndex f <? f_ChunkCount f); try done.
Qed.

(** Encoding then decoding a chunk frame gives the frame back, with its timestamp at
    the wire's resolution (whole seconds modulo 2^32); the encoder accepts exactly the
    frames with a non-zero TTL, an index below its count and a set timestamp. *)
Theorem chunk_frame_roundtrip (f : ChunkFrame) :
  frame_ok f ->
  if encodable f
  then exists b, EncodeChunkFrame f = Ok b /\ DecodeChunkFrame b = Ok (on_wire f)
  else is_ok (EncodeChunkFrame f) = false.
Proof.
  intros Hf. destruct (encodable f) eqn:He.
  - exists (frame_bytes f). split; [by apply encode_ok | by apply frame_bytes_decode].
  - destruct (EncodeChunkFrame f) eqn:E; [|done]. apply encode_ok in E as [??]. congruence.
Qed.

(** Every byte string the decoder accepts is the encoding of the frame it returns, so
    two different byte strings never decode to the same frame. *)
Theorem chunk_frame_decode_canonical (b : list Z) (f : ChunkFrame) :
  bytes_ok b -> DecodeChunkFrame b = Ok f -> frame_ok f /\ EncodeChunkFrame f = Ok b.
Proof.
  intros Hb Hd. destruct (decode_frame_bytes b f Hb Hd) as (? & ? & -> & _).
  split; [done|]. by apply encode_ok.
Qed.

(** ** Chunking covers the payload *)

Section ChunkLoop.
Context (msg : Message) (D chunks : Z).
Let payload := m_Payload msg.
Hypothesis HD : 0 < D.
Hypothesis Hfit : blen payload + D <= max_i64.

Lemma chunk_data_slice i :
  0 <= i -> i * D < blen payload ->
  chunk_data payload D i = take (Z.to_nat D) (drop (Z.to_nat (i * D)) payload).
Proof.
  intros Hi Hlt. unfold chunk_data. rewrite !i64_id by (unfold_ints; nia). unfold slice.
  destruct (Z.ltb_spec (blen payload) (i * D + D)) as [Hc|Hc]; [|f_equal; lia].
  unfold blen in *. rewrite !take_ge by (rewrite length_drop; lia). done.
Qed.

Lemma chunk_loop_concat n i :
  0 <= i -> (n = O -> blen payload <= i * D) ->
  (i + Z.of_nat n - 1) * D < blen payload <= (i + Z.of_nat n) * D ->
  concat (f_Data <$> chunk_loop msg D chunks n i) = drop (Z.to_nat (i * D)) payload.
Proof.
  revert i. induction n as [|n IH]; intros i Hi H0 Hn.
  { simpl. rewrite drop_ge; [done|]. unfold blen in *. specialize (H0 eq_refl). lia. }
  simpl. rewrite IH; [|lia|nia|nia]. fold payload. rewrite chunk_data_slice by nia.
  rewrite <- (take_drop (Z.to_nat D) (drop (Z.to_nat (i * D)) payload)) at 2.
  rewrite drop_drop. do 2 f_equal. lia.
Qed.

Lemma chunk_loop_length n i : length (chunk_loop msg D chunks n i) = n.
Proof. revert i; induction n; intros; simpl; [done|by f_equal]. Qed.

Lemma chunk_loop_lookup n i k f :
  chunk_loop msg D chunks n i !! k = Some f ->
  f = chunk_frame msg (u16 (i + Z.of_nat k)) (u16 chunks) (chunk_data payload D (i + Z.of_nat k)).
Proof.
  revert i k; induction n as [|n IH]; intros i [|k]; simpl; intros H; try done.
  - injection H as <-. by rewrite Z.add_0_r.
  - apply IH in H. rewrite H. by replace (i + 1 + Z.of_nat k) with (i + Z.of_nat (S k)) by lia.
Qed.
End ChunkLoop.

(** What [ChunkMessage] promises its callers about the frames it returns. *)
Record chunking_of (msg : Message) (maxFrameBytes : Z) (fs : list ChunkFrame) : Prop := {
  co_payload : concat (f_Data <$> fs) = m_Payload msg;
  co_count : 1 <= Z.of_nat (length fs) <= 65535;
  co_frame k f : fs !! k = Some f ->
    f = chunk_frame msg (Z.of_nat k) (Z.of_nat (length fs)) (f_Data f)
    /\ frame_overhead + blen (f_Data f) <= maxFrameBytes
    /\ (f_Data f = [] -> m_Payload msg = []);
}.

Lemma chunk_count_bounds P D :
  0 < D -> 0 < P -> P + D <= max_i64 ->
  let chunks := Z.quot (i64 (i64 (P + D) - 1)) D in
  1 <= chunks /\ (chunks - 1) * D < P <= chunks * D.
Proof.
  intros HD HP Hfit. rewrite (i64_id (P + D)), (i64_id (P + D - 1)) by (unfold_ints; lia). rewrite Z.quot_div_nonneg by lia.
  pose proof (Z.div_mod (P + D - 1) D). pose proof (Z.mod_pos_bound (P + D - 1) D HD). nia.
Qed.

(** For a frame size above the header size, [ChunkMessage] fails only when more than
    65535 chunks are needed, and otherwise returns frames that carry the message's header,
    are numbered consecutively, fit [maxFrameBytes] when encoded, and whose data
    concatenate to the payload. *)
Theorem ChunkMessage_spec (msg : Message) (maxFrameBytes : Z) :
  frame_overhead < maxFrameBytes -> blen (m_Payload msg) + maxFrameBytes <= max_i64 ->
  match ChunkMessage msg maxFrameBytes with
  | Ok fs => chunking_of msg maxFrameBytes fs
  | Err e => e = ErrTooManyChunks /\ 65535 * (maxFrameBytes - frame_overhead) < blen (m_Payload msg)
  end.
Proof.
  intros HM Hfit. unfold ChunkMessage.
  assert (0 < frame_overhead) by (unfold frame_overhead; lia).
  rewrite (proj2 (Z.leb_gt maxFrameBytes 0)), (proj2 (Z.leb_gt maxFrameBytes frame_overhead)) by lia.
  set (D := maxFrameBytes - frame_overhead).
  destruct (Z.eqb_spec (blen (m_Payload msg)) 0) as [H0|H0].
  { apply blen_zero in H0. split; [by rewrite H0|simpl; lia|].
    intros [|k] f Hk; [injection Hk as <-; simpl|done]. rewrite blen_nil. split_and!; [done|lia|done]. }
  pose proof (blen_nonneg (m_Payload msg)).
  destruct (chunk_count_bounds (blen (m_Payload msg)) D) as [Hc1 Hc2]; [lia..|].
  cbv zeta in Hc1, Hc2 |- *.
  set (chunks := Z.quot _ D) in *.
  destruct (Z.ltb_spec 65535 chunks) as [Hbig|Hsmall]; [split; [done|nia]|].
  split.
  - rewrite chunk_loop_concat; [by rewrite Z.mul_0_l|lia..].
  - rewrite chunk_loop_length. lia.
  - intros k f Hk. pose proof (lookup_lt_Some _ _ _ Hk) as Hlt. rewrite chunk_loop_length in *.
    apply chunk_loop_lookup in Hk. rewrite Z.add_0_l in Hk. simpl in *.
    rewrite (u16_id (Z.of_nat k)), (u16_id chunks) in Hk by (unfold_ints; lia).
    rewrite Z2Nat.id by lia.
    rewrite chunk_data_slice in Hk by (try lia; nia).
    rewrite Hk. simpl. split; [done|].
    assert (Z.of_nat k * D < blen (m_Payload msg)) by nia.
    unfold blen in *. rewrite length_take, length_drop. split; [lia|].
    intros Hnil%(f_equal length). rewrite length_take, length_drop in Hnil. simpl in Hnil. lia.
Qed.

(** ** Witnesses *)

Definition wit_frame : ChunkFrame :=
  mkChunkFrame (replicate 16 7) (replicate 8 9) (1700000000 * Second + 5) 60 2 1 3 [10; 20; 30].

Lemma wit_frame_ok : frame_ok wit_frame.
Proof. split; try done; cbn; unfold_ints; lia. Defined.

Lemma chunk_frame_roundtrip_witness :
  if encodable wit_frame
  then exists b, EncodeChunkFrame wit_frame = Ok b /\ DecodeChunkFrame b = Ok (on_wire wit_frame)
  else is_ok (EncodeChunkFrame wit_frame) = false.
Proof. apply (chunk_frame_roundtrip wit_frame wit_frame_ok). Defined.

Lemma chunk_frame_decode_canonical_witness :
  frame_ok (on_wire wit_frame) /\ EncodeChunkFrame (on_wire wit_frame) = Ok (frame_bytes wit_frame).
Proof.
  apply (chunk_frame_decode_canonical (frame_bytes wit_frame) (on_wire wit_frame)).
  - decided.
  - vm_compute. reflexivity.
Defined.

Lemma ChunkMessage_spec_witness :
  match ChunkMessage (mkMessage (replicate 16 7) (replicate 8 9) 0 60 0 [1; 2; 3; 4; 5; 6; 7]) 42 with
  | Ok fs => chunking_of (mkMessage (replicate 16 7) (replicate 8 9) 0 60 0 [1; 2; 3; 4; 5; 6; 7]) 42 fs
  | Err e => e = ErrTooManyChunks /\ 65535 * (42 - frame_overhead) < 7
  end.
Proof.
  apply (ChunkMessage_spec (mkMessage (replicate 16 7) (replicate 8 9) 0 60 0 [1; 2; 3; 4; 5; 6; 7]) 42);
    vm_compute; congruence.
Defined.
