(* ===== verification/Reassembly.v ===== *)
(** * Reassembly ([core/proximity/message_router/reassembly.go])

    The per-message partial state, [Add], [Sweep], the well-formedness invariant with the
    memory bound, and the delivery theorem: frames of a message arriving in any order and
    with repetitions rebuild it exactly when the last missing one arrives. *)

From S2P Require Import Prelude Message.

Record partial := mkPartial {
  p_sender : list Z;
  p_timestamp : Z;
  p_ttlSec : Z;
  p_hop : Z;
  p_count : Z;
  p_received : Z;
  p_chunks : list (list Z);  (** a nil chunk is [[]] *)
  p_lastAt : Z;
  p_total : Z;
}.

Record Reassembler := mkReassembler {
  r_parts : gmap (list Z) partial;
  r_staleAfter : Z;
  r_maxBytes : Z;
}.

Inductive ReasmErr :=
  | ErrChunkCountMismatch
  | ErrHeaderMismatch
  | ErrPayloadTooLarge
  | PanicChunkIndex.  (** [p.chunks[i]] out of range: a run-time panic *)

Definition NewReassemblerWithLimit (staleAfter maxBytes : Z) : Reassembler :=
  mkReassembler ∅
    (if staleAfter <=? 0 then 30 * Second else staleAfter)
    (if maxBytes <=? 0 then 32 * 1024 else maxBytes).

Definition NewReassembler (staleAfter : Z) : Reassembler := NewReassemblerWithLimit staleAfter 0.

Definition with_parts (r : Reassembler) (m : gmap (list Z) partial) : Reassembler :=
  mkReassembler m (r_staleAfter r) (r_maxBytes r).

Definition new_partial (f : ChunkFrame) (now : Z) : partial :=
  mkPartial (copy_into 8 (f_Sender f)) (f_Timestamp f) (f_TTLSec f) (f_Hop f) (f_ChunkCount f)
    0 (replicate (Z.to_nat (f_ChunkCount f)) []) now 0.

Definition put_chunk (p : partial) (i : Z) (data : list Z) : partial :=
  mkPartial (p_sender p) (p_timestamp p) (p_ttlSec p) (p_hop p) (p_count p)
    (u16 (p_received p + 1)) (<[Z.to_nat i := data]> (p_chunks p)) (p_lastAt p)
    (p_total p + blen data).

Definition touch (p : partial) (now : Z) : partial :=
  mkPartial (p_sender p) (p_timestamp p) (p_ttlSec p) (p_hop p) (p_count p)
    (p_received p) (p_chunks p) now (p_total p).

(** ** Chunk tables *)

Lemma imap_sum_le (g : nat -> bool) (ds : list (list Z)) :
  sum_len (imap (fun i d => if g i then d else []) ds) <= sum_len ds.
Proof.
  revert g. induction ds as [|d ds IH]; intros g; [done|].
  simpl. specialize (IH (fun i => g (S i))). pose proof (blen_nonneg d).
  unfold compose in *. simpl in *. destruct (g 0%nat); rewrite ?blen_nil; lia.
Qed.

Lemma NoDup_bounded_length n (l : list nat) :
  NoDup l -> Forall (fun i => (i < n)%nat) l -> (length l <= n)%nat.
Proof.
  intros Hnd Hall. rewrite <- (length_seq n 0). apply submseteq_length, NoDup_submseteq; [done|].
  intros x Hx. apply elem_of_seq. rewrite Forall_forall in Hall. specialize (Hall x Hx). lia.
Qed.

Lemma covers_full n (l : list nat) i :
  NoDup l -> Forall (fun i => (i < n)%nat) l -> (n <= length l)%nat -> (i < n)%nat -> i ∈ l.
Proof.
  intros Hnd Hall Hlen Hi. rewrite Forall_forall in Hall.
  assert (l ≡ₚ seq 0 n) as ->; [|apply elem_of_seq; lia].
  apply submseteq_length_Permutation; [|by rewrite length_seq].
  apply NoDup_submseteq; [done|]. intros x Hx. apply elem_of_seq. specialize (Hall x Hx). lia.
Qed.

Section Table.
Context (ds : list (list Z)).

(** The chunk table after the chunks of [l] arrived. *)
Definition table (l : list nat) : list (list Z) :=
  imap (fun i d => if bool_decide (i ∈ l) then d else []) ds.

Lemma table_nil : table [] = replicate (length ds) [].
Proof.
  apply list_eq. intros i. unfold table. rewrite list_lookup_imap.
  destruct (ds !! i) eqn:E; simpl.
  - symmetry. apply lookup_replicate_2. by eapply lookup_lt_Some.
  - symmetry. apply lookup_replicate_None. by apply lookup_ge_None.
Qed.

Lemma table_lookup l i : (i < length ds)%nat ->
  table l !! i = Some (if bool_decide (i ∈ l) then ds !!! i else []).
Proof.
  intros Hi. unfold table. rewrite list_lookup_imap.
  destruct (lookup_lt_is_Some_2 ds i Hi) as [d Hd]. rewrite Hd. simpl.
  by rewrite (list_lookup_total_correct _ _ _ Hd).
Qed.

Lemma table_insert l i : (i < length ds)%nat -> <[i := ds !!! i]> (table l) = table (i :: l).
Proof.
  intros Hi. apply list_eq. intros j.
  assert (Hlen : forall l, length (table l) = length ds) by (intros; apply length_imap).
  destruct (decide (j < length ds)%nat) as [Hj|Hj].
  - rewrite (table_lookup (i :: l) j Hj). destruct (decide (i = j)) as [<-|Hne].
    + rewrite list_lookup_insert_eq by (by rewrite Hlen).
      rewrite bool_decide_eq_true_2 by set_solver. done.
    + rewrite list_lookup_insert_ne, table_lookup by done. f_equal.
      destruct (decide (j ∈ l)).
      * rewrite !bool_decide_eq_true_2 by set_solver. done.
      * rewrite !bool_decide_eq_false_2 by set_solver. done.
  - rewrite !lookup_ge_None_2 by (rewrite ?length_insert, Hlen; lia). done.
Qed.

Lemma table_full l : (forall i, (i < length ds)%nat -> i ∈ l) -> table l = ds.
Proof.
  intros Hl. apply list_eq. intros i. unfold table. rewrite list_lookup_imap.
  destruct (ds !! i) eqn:E; simpl; [|done].
  rewrite bool_decide_eq_true_2; [done|]. apply Hl. by eapply lookup_lt_Some.
Qed.

Lemma table_sum_le l i : (i < length ds)%nat -> i ∉ l ->
  sum_len (table l) + blen (ds !!! i) <= sum_len ds.
Proof.
  intros Hi Hl.
  pose proof (imap_sum_le (fun j => bool_decide (j ∈ i :: l)) ds) as H.
  change (sum_len (table (i :: l)) <= sum_len ds) in H. rewrite <- (table_insert l i Hi) in H.
  rewrite (sum_len_insert _ _ _ []) in H; [rewrite blen_nil in H; lia|].
  rewrite table_lookup by done. by rewrite bool_decide_eq_false_2.
Qed.
End Table.

Section Reasm.
Context (blake2s : list Z -> list Z).

(** The message assembled from a complete partial. *)
Definition assemble (p : partial) : Message :=
  let payload := concat (take (Z.to_nat (p_count p)) (p_chunks p)) in
  let sender := copy_into 8 (p_sender p) in
  mkMessage (ComputeMessageID blake2s sender (p_timestamp p) (p_ttlSec p) payload)
    sender (p_timestamp p) (p_ttlSec p) (p_hop p) payload.

(** The end of [Add], from [p.lastAt = now] on. *)
Definition add_finish (r : Reassembler) (id : list Z) (p : partial) (now : Z)
  : res ReasmErr (Message * bool) * Reassembler :=
  let p := touch p now in
  if p_received p <? p_count p
  then (Ok (zeroMessage, false), with_parts r (<[id := p]> (r_parts r)))
  else (Ok (assemble p, true), with_parts r (delete id (r_parts r))).

Definition Add (frame : ChunkFrame) (now : Z) (r : Reassembler)
  : res ReasmErr (Message * bool) * Reassembler :=
  let id := f_MsgID frame in
  let p := default (new_partial frame now) (r_parts r !! id) in
  let r := with_parts r (<[id := p]> (r_parts r)) in
  if negb (p_count p =? f_ChunkCount frame) then (Err ErrChunkCountMismatch, r)
  else if negb (Unix (p_timestamp p) =? Unix (f_Timestamp frame))
          || negb (p_ttlSec p =? f_TTLSec frame)
  then (Err ErrHeaderMismatch, r)
  else
    match p_chunks p !! Z.to_nat (f_ChunkIndex frame) with
    | None => (Err PanicChunkIndex, r)
    | Some [] =>
        if r_maxBytes r <? p_total p + blen (f_Data frame)
        then (Err ErrPayloadTooLarge, with_parts r (delete id (r_parts r)))
        else add_finish r id (put_chunk p (f_ChunkIndex frame) (f_Data frame)) now
    | Some (_ :: _) => add_finish r id p now
    end.

Definition stale (r : Reassembler) (now : Z) (p : partial) : bool :=
  r_staleAfter r <=? TimeSub now (p_lastAt p).

Definition Sweep (now : Z) (r : Reassembler) : Z * Reassembler :=
  let kept := filter (fun kv => stale r now kv.2 = false) (r_parts r) in
  (Z.of_nat (size (r_parts r) - size kept), with_parts r kept).

(** ** Invariant: what is buffered is accounted for and bounded *)

Record partial_ok (maxBytes : Z) (p : partial) : Prop := {
  po_count : is_u16 (p_count p);
  po_chunks : Z.of_nat (length (p_chunks p)) = p_count p;
  po_total : p_total p = sum_len (p_chunks p);
  po_bound : p_total p <= maxBytes;
  po_received : 0 <= p_received p < p_count p;
}.

Definition reasm_ok (r : Reassembler) : Prop :=
  0 <= r_maxBytes r /\ map_Forall (fun _ p => partial_ok (r_maxBytes r) p) (r_parts r).

(** A frame as [DecodeChunkFrame] returns it. *)
Definition frame_valid (f : ChunkFrame) : Prop :=
  frame_ok f /\ f_ChunkIndex f < f_ChunkCount f /\ f_ChunkCount f <> 0.

Lemma new_partial_ok f now mx : 0 <= mx -> frame_valid f -> partial_ok mx (new_partial f now).
Proof.
  intros Hmx [[? ? ? ? ? Hc] [Hi Hn]]. split; simpl; auto.
  - rewrite length_replicate. unfold_ints. lia.
  - by rewrite sum_len_replicate_nil.
  - unfold_ints. lia.
Qed.

Lemma put_chunk_ok mx p i d :
  partial_ok mx p -> p_chunks p !! Z.to_nat i = Some [] -> p_total p + blen d <= mx ->
  p_received p + 1 < p_count p -> partial_ok mx (put_chunk p i d).
Proof.
  intros [H1 H2 H3 H4 H5] Hi Hb Hr. unfold is_u16 in H1. split; simpl; auto.
  - by rewrite length_insert.
  - rewrite (sum_len_insert _ _ _ _ Hi), blen_nil. lia.
  - rewrite u16_id by (unfold_ints; lia). lia.
Qed.

Lemma touch_ok mx p now : partial_ok mx p -> partial_ok mx (touch p now).
Proof. by intros []. Qed.

(** The partial a frame is added to: the stored one or a fresh one. *)
Lemma current_partial_ok f now r :
  reasm_ok r -> frame_valid f ->
  partial_ok (r_maxBytes r) (default (new_partial f now) (r_parts r !! f_MsgID f)).
Proof.
  intros [Hmx Hr] Hf. destruct (r_parts r !! f_MsgID f) eqn:E; simpl.
  - exact (Hr _ _ E).
  - by apply new_partial_ok.
Qed.

Lemma put_partial_ok r id p :
  reasm_ok r -> partial_ok (r_maxBytes r) p -> reasm_ok (with_parts r (<[id := p]> (r_parts r))).
Proof. intros [? Hr] Hp. split; [done|]. by apply map_Forall_insert_2. Qed.

Lemma delete_partial_ok r id : reasm_ok r -> reasm_ok (with_parts r (delete id (r_parts r))).
Proof. intros [? Hr]. split; [done|]. by apply map_Forall_delete. Qed.

Lemma add_finish_ok r id p now :
  reasm_ok r -> (p_received p < p_count p -> partial_ok (r_maxBytes r) p) ->
  reasm_ok (snd (add_finish r id p now)).
Proof.
  intros Hr Hp. unfold add_finish. simpl.
  destruct (Z.ltb_spec (p_received p) (p_count p)); simpl.
  - apply put_partial_ok; auto using touch_ok.
  - by apply delete_partial_ok.
Qed.

(** [Add] keeps the reassembler well-formed: every buffered message's byte count is
    the size of its stored chunks and at most the limit, the received count stays below
    the announced one, and a decoded frame never indexes outside the chunk table. *)
Theorem Add_preserves_ok (frame : ChunkFrame) (now : Z) (r : Reassembler) :
  reasm_ok r -> frame_valid frame ->
  reasm_ok (snd (Add frame now r)) /\ fst (Add frame now r) <> Err PanicChunkIndex.
Proof.
  intros Hr Hf. pose proof (current_partial_ok frame now r Hr Hf) as Hp.
  unfold Add. set (p := default _ _) in *.
  pose proof (put_partial_ok r (f_MsgID frame) p Hr Hp) as Hr1.
  set (r1 := with_parts r _) in *.
  destruct (Z.eqb_spec (p_count p) (f_ChunkCount frame)) as [Hc|]; simpl; [|done].
  destruct (_ || _); [done|].
  destruct (p_chunks p !! _) as [[|x d]|] eqn:E.
  - destruct (Z.ltb_spec (r_maxBytes r) (p_total p + blen (f_Data frame))); simpl.
    { split; [|done]. by apply (delete_partial_ok r1). }
    split; [|unfold add_finish; by destruct (_ <? _)].
    apply add_finish_ok; [done|]. intros Hlt.
    apply put_chunk_ok; auto. simpl in Hlt.
    destruct Hp as [Hcnt _ _ _ Hrec]. unfold is_u16 in Hcnt.
    rewrite u16_id in Hlt by (unfold_ints; lia). lia.
  - split; [|unfold add_finish; by destruct (_ <? _)]. by apply add_finish_ok.
  - exfalso. apply lookup_ge_None in E. destruct Hp as [_ Hl _ _ _], Hf as [[] [? ?]].
    unfold_ints. lia.
Qed.

(** [Sweep] removes exactly the partials idle for [staleAfter] or longer, reports
    their number, and keeps the reassembler well-formed. *)
Theorem Sweep_spec (now : Z) (r : Reassembler) :
  let r' := snd (Sweep now r) in
  (forall id, r_parts r' !! id =
     match r_parts r !! id with
     | Some p => if stale r now p then None else Some p
     | None => None
     end)
  /\ Z.of_nat (size (r_parts r)) = fst (Sweep now r) + Z.of_nat (size (r_parts r'))
  /\ (reasm_ok r -> reasm_ok r').
Proof.
  simpl. split_and!.
  - intros id. rewrite map_lookup_filter. destruct (r_parts r !! id) as [p|]; simpl; [|done].
    destruct (stale r now p) eqn:E; case_guard; naive_solver.
  - pose proof (map_subseteq_size _ _ (map_filter_subseteq (fun kv => stale r now kv.2 = false) (r_parts r))).
    lia.
  - intros [? Hr]. split; [done|]. simpl. intros id p [Hp _]%map_lookup_filter_Some.
    exact (Hr _ _ Hp).
Qed.

(** ** What a completed message inherits

    A property of partials that only looks at their header fields is kept by [Add], and the
    message it completes is assembled from a partial with the property. *)

Definition same_header (p q : partial) : Prop :=
  p_sender p = p_sender q /\ p_timestamp p = p_timestamp q /\ p_ttlSec p = p_ttlSec q /\ p_hop p = p_hop q.

Lemma Add_header (Q : partial -> Prop) frame now r :
  (forall p q, same_header p q -> Q p -> Q q) ->
  map_Forall (fun _ p => Q p) (r_parts r) -> Q (new_partial frame now) ->
  map_Forall (fun _ p => Q p) (r_parts (snd (Add frame now r)))
  /\ forall m, fst (Add frame now r) = Ok (m, true) ->
      exists p, Q p /\ m = assemble p /\ p_ttlSec p = f_TTLSec frame
        /\ Unix (p_timestamp p) = Unix (f_Timestamp frame).
Proof.
  intros HQ Hr Hn. unfold Add. set (p := default _ _).
  assert (Q p) as Hp by (subst p; destruct (r_parts r !! f_MsgID frame) eqn:E; [by apply (Hr _ _ E)|done]).
  assert (map_Forall (fun _ p => Q p) (<[f_MsgID frame := p]> (r_parts r))) as Hr1
    by (by apply map_Forall_insert_2).
  set (r1 := with_parts r _) in *.
  destruct (p_count p =? f_ChunkCount frame); simpl; [|done].
  destruct (Z.eqb_spec (Unix (p_timestamp p)) (Unix (f_Timestamp frame))) as [Ht|]; [|done].
  destruct (Z.eqb_spec (p_ttlSec p) (f_TTLSec frame)) as [Hl|]; [|done]. simpl.
  assert (forall q, same_header p q ->
    map_Forall (fun _ p => Q p) (r_parts (snd (add_finish r1 (f_MsgID frame) q now)))
    /\ forall m, fst (add_finish r1 (f_MsgID frame) q now) = Ok (m, true) ->
      exists p, Q p /\ m = assemble p /\ p_ttlSec p = f_TTLSec frame
        /\ Unix (p_timestamp p) = Unix (f_Timestamp frame)) as Hfin.
  { intros q Hq. pose proof (HQ _ _ Hq Hp) as HQq. destruct Hq as (_ & E1 & E2 & _).
    unfold add_finish. simpl. destruct (_ <? _); simpl.
    - split; [|done]. apply map_Forall_insert_2; [by apply (HQ q)|done].
    - split; [by apply map_Forall_delete|]. intros m [= <-]. exists (touch q now).
      split; [by apply (HQ q)|]. simpl. by rewrite <- E1, <- E2. }
  destruct (p_chunks p !! _) as [[|x d]|]; [|by apply Hfin|done].
  destruct (_ <? _); simpl; [|by apply Hfin]. split; [by apply map_Forall_delete|done].
Qed.

(** ** Delivery in any order, with repetitions *)

(** A frame as it travels: encoded by the sender, decoded by the receiver. *)
Definition wire_copy (f : ChunkFrame) : res MsgErr ChunkFrame :=
  rbind (EncodeChunkFrame f) DecodeChunkFrame.

(** The frames of [ds], one per chunk, with the header of [hdr]. *)
Definition nth_frame (hdr : Message) (ds : list (list Z)) (i : nat) : ChunkFrame :=
  chunk_frame hdr (Z.of_nat i) (Z.of_nat (length ds)) (ds !!! i).

(** The frames [ks] of a message, each with its arrival time. *)
Definition scheduled (hdr : Message) (ds : list (list Z)) (ks : list (nat * Z)) : list (ChunkFrame * Z) :=
  List.map (fun kt => (nth_frame hdr ds kt.1, kt.2)) ks.

(** Adding frames one after the other, each at its own time. *)
Fixpoint feed (fs : list (ChunkFrame * Z)) (r : Reassembler)
  : list (res ReasmErr (Message * bool)) * Reassembler :=
  match fs with
  | [] => ([], r)
  | (f, now) :: fs' =>
      let (o, r1) := Add f now r in
      let (os, r2) := feed fs' r1 in
      (o :: os, r2)
  end.

Definition pending : res ReasmErr (Message * bool) := Ok (zeroMessage, false).

(** The message a receiver assembles from all chunks. *)
Definition assembled (hdr : Message) (ds : list (list Z)) : Message :=
  mkMessage (ComputeMessageID blake2s (m_Sender hdr) (m_Timestamp hdr) (m_TTLSec hdr) (concat ds))
    (m_Sender hdr) (m_Timestamp hdr) (m_TTLSec hdr) (m_Hop hdr) (concat ds).

Section Delivery.
Context (hdr : Message) (ds : list (list Z)).
Hypothesis Hsender : length (m_Sender hdr) = 8%nat.
Hypothesis Hcount : 1 <= Z.of_nat (length ds) <= 65535.
Hypothesis Hnonempty : length ds = 1%nat \/ Forall (fun d => d <> []) ds.

(** [r] holds the chunks of [l] of this message, and nothing else of it. *)
Definition holds (r : Reassembler) (l : list nat) : Prop :=
  match r_parts r !! m_ID hdr with
  | None => l = []
  | Some p =>
      p_sender p = m_Sender hdr /\ p_timestamp p = m_Timestamp hdr /\ p_ttlSec p = m_TTLSec hdr
      /\ p_hop p = m_Hop hdr /\ p_count p = Z.of_nat (length ds)
      /\ p_received p = Z.of_nat (length l) /\ p_chunks p = table ds l
      /\ p_total p = sum_len (table ds l)
  end /\ sum_len ds <= r_maxBytes r /\ NoDup l /\ Forall (fun i => (i < length ds)%nat) l
  /\ (length l < length ds)%nat.


Lemma holds_current r l f now :
  holds r l -> f = chunk_frame hdr (f_ChunkIndex f) (Z.of_nat (length ds)) (f_Data f) ->
  let p := default (new_partial f now) (r_parts r !! m_ID hdr) in
  p_sender p = m_Sender hdr /\ p_timestamp p = m_Timestamp hdr /\ p_ttlSec p = m_TTLSec hdr
  /\ p_hop p = m_Hop hdr /\ p_count p = Z.of_nat (length ds)
  /\ p_received p = Z.of_nat (length l) /\ p_chunks p = table ds l
  /\ p_total p = sum_len (table ds l).
Proof.
  intros [H _] ->. destruct (r_parts r !! m_ID hdr) as [p|]; simpl; [done|]. subst l.
  rewrite table_nil, Nat2Z.id, sum_len_replicate_nil, copy_into_exact by done. done.
Qed.

Lemma holds_put r l' (p : partial) parts :
  sum_len ds <= r_maxBytes r -> NoDup l' -> Forall (fun i => (i < length ds)%nat) l' -> (length l' < length ds)%nat ->
  p_sender p = m_Sender hdr -> p_timestamp p = m_Timestamp hdr -> p_ttlSec p = m_TTLSec hdr ->
  p_hop p = m_Hop hdr -> p_count p = Z.of_nat (length ds) ->
  p_received p = Z.of_nat (length l') -> p_chunks p = table ds l' -> p_total p = sum_len (table ds l') ->
  holds (with_parts r (<[m_ID hdr := p]> parts)) l'.
Proof.
  intros. unfold holds. simpl. rewrite lookup_insert_eq. done.
Qed.

(** A chunk already held changes nothing. *)
Lemma step_dup r l i now :
  holds r l -> (i < length ds)%nat -> i ∈ l ->
  exists r', Add (nth_frame hdr ds i) now r = (pending, r') /\ holds r' l
    /\ delete (m_ID hdr) (r_parts r') = delete (m_ID hdr) (r_parts r).
Proof.
  intros Hh Hi Hin. pose proof (holds_current r l (nth_frame hdr ds i) now Hh eq_refl) as Hp.
  pose proof Hh as (_ & Hmax & Hnd & Hall & Hlen).
  unfold Add. simpl f_MsgID. cbv zeta in *. set (p := default _ _) in *.
  destruct Hp as (P1 & P2 & P3 & P4 & P5 & P6 & P7 & P8).
  simpl f_ChunkCount. simpl f_Timestamp. simpl f_TTLSec. simpl f_ChunkIndex.
  rewrite P5, P2, P3, !Z.eqb_refl. simpl negb. cbn [orb].
  rewrite P7, Nat2Z.id, (table_lookup ds l i Hi), bool_decide_eq_true_2 by done.
  assert (ds !!! i <> []) as Hne.
  { destruct Hnonempty as [H1|H1].
    - destruct l; [by apply not_elem_of_nil in Hin|]. simpl in Hlen. lia.
    - rewrite Forall_lookup in H1. apply (H1 i). by apply list_lookup_lookup_total_lt. }
  destruct (ds !!! i) as [|x d]; [done|]. unfold add_finish. simpl p_received. simpl p_count.
  rewrite P6, P5, (proj2 (Z.ltb_lt _ _)) by lia.
  eexists. split; [done|]. split.
  - by apply (holds_put (with_parts r _)).
  - simpl. by rewrite !delete_insert_eq.
Qed.
(** A missing chunk is stored; the last missing one completes the message. *)
Lemma step_new r l i now :
  holds r l -> (i < length ds)%nat -> i ∉ l ->
  exists r', delete (m_ID hdr) (r_parts r') = delete (m_ID hdr) (r_parts r) /\
    if decide (S (length l) < length ds)%nat
    then Add (nth_frame hdr ds i) now r = (pending, r') /\ holds r' (i :: l)
    else Add (nth_frame hdr ds i) now r = (Ok (assembled hdr ds, true), r')
         /\ r_parts r' !! m_ID hdr = None.
Proof.
  intros Hh Hi Hin. pose proof (holds_current r l (nth_frame hdr ds i) now Hh eq_refl) as Hp.
  pose proof Hh as (_ & Hmax & Hnd & Hall & Hlen).
  unfold Add. simpl f_MsgID. cbv zeta in *. set (p := default _ _) in *.
  destruct Hp as (P1 & P2 & P3 & P4 & P5 & P6 & P7 & P8).
  simpl f_ChunkCount. simpl f_Timestamp. simpl f_TTLSec. simpl f_ChunkIndex. simpl f_Data.
  rewrite P5, P2, P3, !Z.eqb_refl. simpl negb. cbn [orb].
  rewrite P7, Nat2Z.id, (table_lookup ds l i Hi), bool_decide_eq_false_2 by done.
  pose proof (table_sum_le ds l i Hi Hin) as Hsum.
  rewrite P8, (proj2 (Z.ltb_ge _ _)) by (simpl; lia).
  assert (NoDup (i :: l)) as Hnd' by by constructor.
  assert (sum_len (table ds l) + blen (ds !!! i) = sum_len (table ds (i :: l))) as Hs'.
  { rewrite <- (table_insert ds l i Hi), (sum_len_insert _ _ _ []), blen_nil; [lia|].
    by rewrite table_lookup, bool_decide_eq_false_2. }
  assert (put_chunk p (Z.of_nat i) (ds !!! i) =
    mkPartial (m_Sender hdr) (m_Timestamp hdr) (m_TTLSec hdr) (m_Hop hdr) (Z.of_nat (length ds))
      (Z.of_nat (S (length l))) (table ds (i :: l)) (p_lastAt p) (sum_len (table ds (i :: l)))) as ->.
  { unfold put_chunk. rewrite P1, P2, P3, P4, P5, P6, P7, P8, Nat2Z.id, table_insert, Hs' by done.
    rewrite u16_id by (unfold_ints; lia). f_equal. lia. }
  unfold add_finish. simpl p_received. simpl p_count.
  case_decide as Hlt.
  - rewrite (proj2 (Z.ltb_lt _ _)) by lia. eexists. split; [|split; [done|]].
    + simpl. by rewrite !delete_insert_eq.
    + apply (holds_put (with_parts r _)); auto.
  - rewrite (proj2 (Z.ltb_ge _ _)) by lia. eexists. split; [|split; [f_equal|]].
    + simpl. by rewrite delete_delete_eq, delete_insert_eq.
    + assert (table ds (i :: l) = ds) as Hfull.
      { apply table_full. intros j Hj. apply (covers_full (length ds)); [done| |simpl; lia|done].
        by constructor. }
      unfold assemble, assembled. simpl. by rewrite Nat2Z.id, Hfull, firstn_all, copy_into_exact.
    + simpl. apply lookup_delete_eq.
Qed.

(** Frames before the last missing one are pending, whatever their order and repetitions. *)
Lemma feed_any_order pre i now r l :
  holds r l ->
  Forall (fun kt : nat * Z => (kt.1 < length ds)%nat) pre -> (i < length ds)%nat ->
  i ∉ l -> i ∉ pre.*1 ->
  (forall j, (j < length ds)%nat -> j = i \/ j ∈ l \/ j ∈ pre.*1) ->
  exists r',
    feed (scheduled hdr ds (pre ++ [(i, now)])) r
    = (replicate (length pre) pending ++ [Ok (assembled hdr ds, true)], r')
    /\ r_parts r' !! m_ID hdr = None
    /\ delete (m_ID hdr) (r_parts r') = delete (m_ID hdr) (r_parts r).
Proof.
  revert r l. induction pre as [|[k t] pre IH]; intros r l Hh Hpre Hi Hil Hip Hcov.
  - destruct (step_new r l i now Hh Hi Hil) as (r' & Hdel & Hstep).
    destruct Hh as (_ & _ & Hnd & Hall & Hlen). rewrite decide_False in Hstep.
    + destruct Hstep as [Hstep Hn]. exists r'. unfold scheduled. simpl. by rewrite Hstep.
    + intros Hlt. assert (length (seq 0 (length ds)) <= length (i :: l))%nat as Hle.
      { apply submseteq_length, NoDup_submseteq; [apply NoDup_seq|].
        intros j [_ Hj]%elem_of_seq. destruct (Hcov j Hj) as [->|[?|?]]; [left|by right|].
        by apply not_elem_of_nil in H. }
      rewrite length_seq in Hle. simpl in Hle. lia.
  - apply Forall_cons in Hpre as [Hk Hpre]. simpl in Hk. rewrite fmap_cons in Hip, Hcov. simpl in Hip.
    apply not_elem_of_cons in Hip as [Hik Hip].
    assert (exists r1 l1, Add (nth_frame hdr ds k) t r = (pending, r1) /\ holds r1 l1
        /\ delete (m_ID hdr) (r_parts r1) = delete (m_ID hdr) (r_parts r)
        /\ (forall j, j ∈ l1 <-> j = k \/ j ∈ l)) as (r1 & l1 & Hadd & Hh1 & Hdel & Hl1).
    { destruct (decide (k ∈ l)) as [Hkl|Hkl].
      - destruct (step_dup r l k t Hh Hk Hkl) as (r1 & ? & ? & ?). exists r1, l.
        split_and!; auto. intros j. split; [tauto|by intros [->|]].
      - destruct (step_new r l k t Hh Hk Hkl) as (r1 & ? & Hs). rewrite decide_True in Hs.
        + exists r1, (k :: l). destruct Hs. split_and!; auto. intros j. by rewrite elem_of_cons.
        + destruct Hh as (_ & _ & Hnd & Hall & _).
          assert (length (i :: k :: l) <= length ds)%nat; [|simpl in *; lia].
          apply (NoDup_bounded_length (length ds)).
          * by repeat constructor; rewrite ?not_elem_of_cons.
          * by repeat constructor. }
    destruct (IH r1 l1) as (r' & Hfeed & Hn & Hd); auto.
    { rewrite Hl1. tauto. }
    { intros j Hj. rewrite Hl1. destruct (Hcov j Hj) as [?|[?|[?|?]%elem_of_cons]]; tauto. }
    exists r'. unfold scheduled in *. simpl. rewrite Hadd, Hfeed. split_and!; [done|done|congruence].
Qed.
End Delivery.

(** The header a receiver sees. *)
Definition wire_msg (m : Message) : Message :=
  mkMessage (m_ID m) (m_Sender m) (wire_time (m_Timestamp m)) (m_TTLSec m) (m_Hop m) (m_Payload m).

Lemma chunk_wire_copy m maxFrameBytes fs k f :
  msg_ok m -> IsZero (m_Timestamp m) = false -> chunking_of m maxFrameBytes fs -> fs !! k = Some f ->
  wire_copy f = Ok (nth_frame (wire_msg m) (f_Data <$> fs) k).
Proof.
  intros [? ? [? ?] ?] Hz Hc Hk. pose proof (lookup_lt_Some _ _ _ Hk).
  destruct (co_frame _ _ _ Hc k f Hk) as (Hf & _ & _). pose proof (co_count _ _ _ Hc).
  assert (frame_ok f) by (rewrite Hf; split; simpl; auto; unfold_ints; lia).
  assert (encodable f = true) as He.
  { rewrite Hf. unfold encodable. simpl. rewrite Hz.
    rewrite (proj2 (Z.eqb_neq _ _)), (proj2 (Z.ltb_lt _ _)), (proj2 (Z.eqb_neq _ _)) by lia. done. }
  unfold wire_copy. rewrite (proj2 (encode_ok f _) (conj He eq_refl)). simpl.
  rewrite frame_bytes_decode by done. unfold nth_frame. rewrite length_fmap.
  rewrite (list_lookup_total_correct _ _ (f_Data f)) by by rewrite list_lookup_fmap, Hk.
  by rewrite Hf.
Qed.

(** What a receiver gets when the frames [fs] are sent and arrive as [sched] says: which
    frame, and when. *)
Definition arrivals (fs : list ChunkFrame) (sched : list (nat * Z)) : list (ChunkFrame * Z) :=
  omap (fun kt => f ← fs !! kt.1; match wire_copy f with Ok w => Some (w, kt.2) | Err _ => None end) sched.

Lemma arrivals_scheduled m maxFrameBytes fs sched :
  msg_ok m -> IsZero (m_Timestamp m) = false -> chunking_of m maxFrameBytes fs ->
  Forall (fun kt : nat * Z => (kt.1 < length fs)%nat) sched ->
  arrivals fs sched = scheduled (wire_msg m) (f_Data <$> fs) sched.
Proof.
  intros Hm Hz Hc Hs. unfold arrivals, scheduled.
  induction Hs as [|[k t] sched Hk Hs IH]; [done|]. cbn in Hk |- *.
  destruct (lookup_lt_is_Some_2 fs k Hk) as [f Hf]. rewrite Hf. cbn.
  rewrite (chunk_wire_copy m maxFrameBytes fs k f) by done. by rewrite <- IH.
Qed.

(** C18: a message cut by [ChunkMessage], whose frames are encoded, decoded by a receiver
    and added in any order and with any repetitions, is pending until the last missing
    frame arrives; that frame yields the message with its payload, sender, TTL and hop,
    the timestamp in whole seconds, and an identifier recomputed from these; the
    reassembler keeps nothing of it and what it holds of other messages is untouched. *)
Theorem reassembly_any_order
    (m : Message) (maxFrameBytes : Z) (fs : list ChunkFrame) (r : Reassembler)
    (pre : list (nat * Z)) (last : nat) (now : Z) :
  msg_ok m -> IsZero (m_Timestamp m) = false ->
  frame_overhead < maxFrameBytes -> blen (m_Payload m) + maxFrameBytes <= max_i64 ->
  ChunkMessage m maxFrameBytes = Ok fs ->
  r_parts r !! m_ID m = None -> blen (m_Payload m) <= r_maxBytes r ->
  Forall (fun kt => (kt.1 < length fs)%nat) pre -> (last < length fs)%nat -> last ∉ pre.*1 ->
  (forall j, (j < length fs)%nat -> j = last \/ j ∈ pre.*1) ->
  exists r',
    feed (arrivals fs (pre ++ [(last, now)])) r
    = (replicate (length pre) pending ++
         [Ok (assembled (wire_msg m) [m_Payload m], true)], r')
    /\ r_parts r' = r_parts r.
Proof.
  intros Hm Hz HM Hfit Hfs Hnone Hmax Hpre Hlast Hnot Hcov.
  pose proof (ChunkMessage_spec m maxFrameBytes HM Hfit) as Hc. rewrite Hfs in Hc.
  rewrite (arrivals_scheduled m maxFrameBytes) by (try apply Forall_app; auto).
  pose proof (co_payload _ _ _ Hc) as Hpay. pose proof (co_count _ _ _ Hc) as Hcnt.
  set (ds := f_Data <$> fs) in *. assert (length ds = length fs) as Hl by apply length_fmap.
  destruct (feed_any_order (wire_msg m) ds (mo_sender _ Hm)) with (pre := pre) (i := last)
    (now := now) (r := r) (l := @nil nat) as (r' & Hfeed & Hn & Hd); rewrite ?Hl; auto.
  - destruct (decide (length fs = 1%nat)); [by left|right].
    apply Forall_lookup. intros k d Hk. unfold ds in Hk.
    apply list_lookup_fmap_Some in Hk as (f & -> & Hk).
    intros Hd. destruct (co_frame _ _ _ Hc k f Hk) as (_ & _ & Hemp). specialize (Hemp Hd).
    unfold ChunkMessage in Hfs. rewrite Hemp in Hfs. simpl in Hfs.
    repeat case_match; try done. by injection Hfs as <-.
  - unfold holds. simpl m_ID. rewrite Hnone, <- sum_len_concat, Hpay, Hl. split_and!; auto using NoDup_nil_2. simpl; lia.
  - set_solver.
  - intros j Hj. destruct (Hcov j Hj); auto.
  - exists r'. rewrite Hfeed. split.
    + unfold assembled. simpl. by rewrite Hpay, app_nil_r.
    + rewrite <- (delete_id _ _ Hn). by rewrite Hd, (delete_id _ _ Hnone).
Qed.

Lemma feed_cons f now fs r :
  feed ((f, now) :: fs) r =
  let (o, r1) := Add f now r in let (os, r2) := feed fs r1 in (o :: os, r2).
Proof. done. Qed.

Lemma feed_length fs r : length (fst (feed fs r)) = length fs.
Proof.
  revert r. induction fs as [|[f now] fs IH]; intros r; [done|]. simpl.
  destruct (Add f now r) as [o r1]. specialize (IH r1). destruct (feed fs r1). simpl in *. lia.
Qed.

(** ** Empty chunks *)

(** The state after [k] copies of one frame without data. *)
Definition empty_state (f : ChunkFrame) (now : Z) (k : Z) : partial :=
  mkPartial (copy_into 8 (f_Sender f)) (f_Timestamp f) (f_TTLSec f) (f_Hop f) (f_ChunkCount f)
    k (replicate (Z.to_nat (f_ChunkCount f)) []) now 0.

Lemma add_empty_chunk f now r k :
  frame_valid f -> f_Data f = [] -> 0 <= r_maxBytes r -> 0 <= k < f_ChunkCount f ->
  r_parts r !! f_MsgID f = (if k =? 0 then None else Some (empty_state f now k)) ->
  let r' := snd (Add f now r) in
  r_maxBytes r' = r_maxBytes r /\
  if k + 1 <? f_ChunkCount f
  then fst (Add f now r) = pending /\ r_parts r' !! f_MsgID f = Some (empty_state f now (k + 1))
  else exists m, fst (Add f now r) = Ok (m, true) /\ m_Payload m = [].
Proof.
  intros [Hok [Hi Hn]] Hd Hmax Hk Hr. unfold Add.
  assert (default (new_partial f now) (r_parts r !! f_MsgID f) = empty_state f now k) as ->.
  { rewrite Hr. destruct (Z.eqb_spec k 0) as [->|]; done. }
  destruct Hok as [_ _ _ _ Hidx Hcnt]. unfold_ints.
  cbn -[Z.eqb replicate Z.to_nat Z.leb]. rewrite !Z.eqb_refl. cbn -[replicate Z.to_nat].
  rewrite lookup_replicate_2 by lia. rewrite Hd, blen_nil.
  rewrite (proj2 (Z.ltb_ge _ _)) by lia. unfold add_finish, put_chunk, touch. cbn -[replicate Z.to_nat].
  rewrite u16_id, insert_replicate by (unfold_ints; lia). 
  destruct (Z.ltb_spec (k + 1) (f_ChunkCount f)); cbn -[replicate Z.to_nat]; (split; [done|]).
  - rewrite lookup_insert_eq. split; [done|]. by rewrite blen_nil.
  - eexists. split; [done|]. simpl.
    rewrite firstn_all2 by (rewrite length_replicate; lia).
    generalize (Z.to_nat (f_ChunkCount f)). intros n. by induction n.
Qed.

(** Repeating one frame that carries no data, as many times as it announces chunks,
    completes a message with an empty payload although no other chunk ever arrived: an
    empty chunk is stored as nil and counted again each time. *)
Theorem empty_chunk_repeats_complete (f : ChunkFrame) (now : Z) (r : Reassembler) :
  frame_valid f -> f_Data f = [] -> 0 <= r_maxBytes r -> r_parts r !! f_MsgID f = None ->
  exists m, List.last (fst (feed (replicate (Z.to_nat (f_ChunkCount f)) (f, now)) r)) pending = Ok (m, true)
    /\ m_Payload m = [].
Proof.
  intros Hf Hd Hmax Hnone. pose proof Hf as [[_ _ _ _ _ Hc] [_ Hn]]. unfold is_u16 in Hc.
  assert (forall n r k, Z.of_nat (S n) + k = f_ChunkCount f -> 0 <= k -> 0 <= r_maxBytes r ->
    r_parts r !! f_MsgID f = (if k =? 0 then None else Some (empty_state f now k)) ->
    exists m, List.last (fst (feed (replicate (S n) (f, now)) r)) pending = Ok (m, true)
      /\ m_Payload m = []) as Hgen.
  { clear r Hmax Hnone. induction n as [|n IH]; intros r k Hk Hk0 Hmax Hr;
      pose proof (add_empty_chunk f now r k Hf Hd Hmax ltac:(lia) Hr) as [Hm Hstep];
      rewrite replicate_S, feed_cons; destruct (Add f now r) as [o r1]; cbn [fst snd] in *.
    - rewrite (proj2 (Z.ltb_ge _ _)) in Hstep by lia. exact Hstep.
    - rewrite (proj2 (Z.ltb_lt _ _)) in Hstep by lia. destruct Hstep as [-> Hr1].
      destruct (IH r1 (k + 1)) as (m & Hl & Hp); [lia|lia|lia| |].
      { rewrite Hr1. by rewrite (proj2 (Z.eqb_neq _ _)) by lia. }
      exists m. split; [|done].
      pose proof (feed_length (replicate (S n) (f, now)) r1) as Hlen.
      destruct (feed (replicate (S n) (f, now)) r1) as [[|o os] r2]; [done|exact Hl]. }
  destruct (Z.to_nat (f_ChunkCount f)) as [|n] eqn:En; [lia|].
  apply (Hgen n r 0); [lia|lia|done|done].
Qed.
End Reasm.

(** ** Witnesses *)

Definition toy_hash (b : list Z) : list Z := le_put 32 (le_get b).

Definition wit_msg : Message :=
  mkMessage (replicate 16 7) (replicate 8 9) (1700000000 * Second + 5) 60 0 [1; 2; 3; 4; 5; 6; 7].

Lemma wit_msg_ok : msg_ok wit_msg.
Proof. split; try done; cbn; unfold_ints; lia. Defined.

Definition wit_frames : list ChunkFrame :=
  match ChunkMessage wit_msg 42 with Ok fs => fs | Err _ => [] end.

Lemma reassembly_any_order_witness :
  exists r', feed toy_hash (arrivals wit_frames ([(2%nat, 10); (0%nat, 11); (2%nat, 12)] ++ [(1%nat, 13)]))
      (NewReassembler 0)
    = (replicate 3 pending ++ [Ok (assembled toy_hash (wire_msg wit_msg) [m_Payload wit_msg], true)], r')
    /\ r_parts r' = ∅.
Proof.
  apply (reassembly_any_order toy_hash wit_msg 42 wit_frames (NewReassembler 0)
           [(2%nat, 10); (0%nat, 11); (2%nat, 12)] 1 13 wit_msg_ok); [reflexivity|reflexivity|vm_compute;discriminate|vm_compute;reflexivity|reflexivity|vm_compute;discriminate| | | |].
  - change (length wit_frames) with 3%nat. repeat constructor; simpl; lia.
  - change (length wit_frames) with 3%nat. lia.
  - cbn. rewrite !elem_of_cons, elem_of_nil. lia.
  - intros j Hj. change (length wit_frames) with 3%nat in Hj. cbn. rewrite !elem_of_cons. lia.
Defined.

Definition wit_empty_frame : ChunkFrame :=
  mkChunkFrame (replicate 16 7) (replicate 8 9) Second 60 0 0 3 [].

Lemma wit_empty_frame_valid : frame_valid wit_empty_frame.
Proof. split; [split; try done; cbn; unfold_ints; lia | cbn; lia]. Defined.

Lemma empty_chunk_repeats_complete_witness :
  exists m, List.last (fst (feed toy_hash (replicate 3 (wit_empty_frame, 5)) (NewReassembler 0))) pending
    = Ok (m, true) /\ m_Payload m = [].
Proof.
  apply (empty_chunk_repeats_complete toy_hash wit_empty_frame 5 (NewReassembler 0) wit_empty_frame_valid);
    [done | cbn; lia | done].
Defined.

Lemma Add_preserves_ok_witness :
  reasm_ok (snd (Add toy_hash wit_empty_frame 5 (NewReassembler 0)))
  /\ fst (Add toy_hash wit_empty_frame 5 (NewReassembler 0)) <> Err PanicChunkIndex.
Proof.
  apply (Add_preserves_ok toy_hash wit_empty_frame 5 (NewReassembler 0));
    [split; [cbn; lia | apply map_Forall_empty] | exact wit_empty_frame_valid].
Defined.
