(* ===== verification/Cache.v ===== *)
(** * The message cache ([core/proximity/cache_manager])

    A Go map from identifiers to elements of a doubly linked list that keeps insertion
    order.  A list element is a pointer: here a handle drawn from an allocation counter,
    with the (never overwritten) entry it holds.  The specification is a list of entries
    with distinct identifiers, oldest first; every operation refines it, whatever the
    sequence of calls. *)

From S2P Require Import Prelude.

Record Entry := mkEntry {
  e_ID : list Z;
  e_Sender : list Z;
  e_Timestamp : Z;
  e_TTLSec : Z;
  e_Inserted : Z;
  e_ExpiresAt : Z;
  e_Payload : list Z;
}.

(** A [list.Element]: its identity and its value. *)
Abbreviation Element := (nat * Entry)%type (only parsing).

Record Cache := mkCache {
  c_maxItems : Z;
  c_items : gmap (list Z) (nat * Entry);
  c_order : list (nat * Entry);
  c_next : nat;  (** allocation counter of list elements *)
}.

Definition New (maxItems : Z) : Cache :=
  mkCache (if maxItems <=? 0 then 512 else maxItems) ∅ [] 0.

(** [!e.ExpiresAt.IsZero() && !now.Before(e.ExpiresAt)] *)
Definition expired (now : Z) (e : Entry) : bool :=
  negb (IsZero (e_ExpiresAt e)) && negb (Before now (e_ExpiresAt e)).

(** [c.order.Remove(el); delete(c.items, id)] *)
Definition remove_el (h : nat) (l : list (nat * Entry)) : list (nat * Entry) :=
  filter (fun x => x.1 <> h) l.

Definition remove (h : nat) (id : list Z) (c : Cache) : Cache :=
  mkCache (c_maxItems c) (delete id (c_items c)) (remove_el h (c_order c)) (c_next c).

Definition push_back (e : Entry) (c : Cache) : Cache :=
  mkCache (c_maxItems c) (<[e_ID e := (c_next c, e)]> (c_items c))
    (c_order c ++ [(c_next c, e)]) (S (c_next c)).

Definition Has (id : list Z) (now : Z) (c : Cache) : bool * Cache :=
  match c_items c !! id with
  | None => (false, c)
  | Some (h, e) => if expired now e then (false, remove h id c) else (true, c)
  end.

(** [for c.order.Len() > c.maxItems { ... }]: each turn removes the front, so the list's
    length bounds the number of turns. *)
Fixpoint evict (fuel : nat) (c : Cache) : Cache :=
  match fuel with
  | O => c
  | S fuel' =>
      if c_maxItems c <? Z.of_nat (length (c_order c)) then
        match c_order c with
        | [] => c
        | (h, old) :: _ => evict fuel' (remove h (e_ID old) c)
        end
      else c
  end.

Definition Put (e : Entry) (now : Z) (c : Cache) : Cache :=
  if expired now e then c
  else
    let c := match c_items c !! e_ID e with
             | Some (h, _) => remove h (e_ID e) c
             | None => c
             end in
    let c := push_back e c in
    evict (length (c_order c)) c.

Definition Get (id : list Z) (now : Z) (c : Cache) : option Entry * Cache :=
  match c_items c !! id with
  | None => (None, c)
  | Some (h, e) => if expired now e then (None, remove h id c) else (Some e, c)
  end.

(** The loop of [Sweep]: the successor is read before the element is removed, so the
    elements visited are those of the list as it was. *)
Fixpoint sweep_loop (els : list (nat * Entry)) (now : Z) (removed : Z) (c : Cache) : Z * Cache :=
  match els with
  | [] => (removed, c)
  | (h, e) :: els' =>
      if expired now e then sweep_loop els' now (removed + 1) (remove h (e_ID e) c)
      else sweep_loop els' now removed c
  end.

Definition Sweep (now : Z) (c : Cache) : Z * Cache := sweep_loop (c_order c) now 0 c.

Fixpoint list_loop (els : list (nat * Entry)) (now limit : Z) (out : list Entry) : list Entry :=
  match els with
  | [] => out
  | (_, e) :: els' =>
      if Z.of_nat (length out) <? limit then
        if expired now e then list_loop els' now limit out
        else list_loop els' now limit (out ++ [e])
      else out
  end.

Definition List_ (now limit : Z) (c : Cache) : list Entry :=
  let len := Z.of_nat (length (c_order c)) in
  let limit := if (limit <=? 0) || (len <? limit) then len else limit in
  list_loop (reverse (c_order c)) now limit [].

(** ** The specification: a bounded list of entries, oldest first *)

Definition spec_find (id : list Z) (l : list Entry) : option Entry :=
  snd <$> list_find (fun e => e_ID e = id) l.

Definition spec_without (id : list Z) (l : list Entry) : list Entry :=
  filter (fun e => e_ID e <> id) l.

Definition spec_get (id : list Z) (now : Z) (l : list Entry) : option Entry * list Entry :=
  match spec_find id l with
  | Some e => if expired now e then (None, spec_without id l) else (Some e, l)
  | None => (None, l)
  end.

Definition spec_put (max : Z) (e : Entry) (now : Z) (l : list Entry) : list Entry :=
  if expired now e then l
  else let l' := spec_without (e_ID e) l ++ [e] in drop (length l' - Z.to_nat max) l'.

Definition spec_live (now : Z) (l : list Entry) : list Entry :=
  filter (fun e => expired now e = false) l.

Definition spec_list (now limit : Z) (l : list Entry) : list Entry :=
  let n := if limit <=? 0 then length l else Z.to_nat limit in
  take n (spec_live now (reverse l)).

(** ** Invariant and abstraction *)

Record cache_ok (c : Cache) : Prop := {
  ck_max : 0 < c_maxItems c;
  ck_handles : NoDup (c_order c).*1;
  ck_fresh : Forall (fun x => (x.1 < c_next c)%nat) (c_order c);
  ck_index : forall id x, c_items c !! id = Some x <-> x ∈ c_order c /\ e_ID x.2 = id;
  ck_size : Z.of_nat (length (c_order c)) <= c_maxItems c;
}.

(** The invariant without the size bound, which holds inside [Put]. *)
Record core_ok (c : Cache) : Prop := {
  co_max : 0 < c_maxItems c;
  co_handles : NoDup (c_order c).*1;
  co_fresh : Forall (fun x => (x.1 < c_next c)%nat) (c_order c);
  co_index : forall id x, c_items c !! id = Some x <-> x ∈ c_order c /\ e_ID x.2 = id;
}.

Definition abs (c : Cache) : list Entry := (c_order c).*2.

Lemma cache_core c : cache_ok c <-> core_ok c /\ Z.of_nat (length (c_order c)) <= c_maxItems c.
Proof. split; [intros []; split; [split|]; auto | intros [[] ?]; split; auto]. Qed.

Lemma cache_New_ok n : cache_ok (New n).
Proof.
  unfold New. split; simpl; try constructor.
  - destruct (Z.leb_spec n 0); lia.
  - by rewrite lookup_empty.
  - intros [H _]. by apply not_elem_of_nil in H.
  - destruct (Z.leb_spec n 0); lia.
Qed.

(** Two elements of the list with the same handle, or the same identifier, are the same. *)
Lemma same_handle c x y : core_ok c -> x ∈ c_order c -> y ∈ c_order c -> x.1 = y.1 -> x = y.
Proof.
  intros [_ Hnd _ _] Hx Hy E. apply list_elem_of_lookup in Hx as [i Hi], Hy as [j Hj].
  assert (i = j) as ->; [|congruence].
  eapply NoDup_lookup; [exact Hnd| |]; rewrite list_lookup_fmap.
  - by rewrite Hi.
  - rewrite Hj. simpl. by rewrite E.
Qed.

Lemma same_id c x y : core_ok c -> x ∈ c_order c -> y ∈ c_order c -> e_ID x.2 = e_ID y.2 -> x = y.
Proof.
  intros [_ _ _ Hi] Hx Hy E.
  assert (c_items c !! e_ID x.2 = Some x) as H1 by (by apply Hi).
  assert (c_items c !! e_ID x.2 = Some y) as H2 by (by apply Hi). congruence.
Qed.

Lemma remove_spec c x :
  core_ok c -> x ∈ c_order c ->
  core_ok (remove x.1 (e_ID x.2) c) /\ abs (remove x.1 (e_ID x.2) c) = spec_without (e_ID x.2) (abs c).
Proof.
  intros Hok Hx. pose proof Hok as [Hm Hnd Hfr Hix].
  assert (forall y, y ∈ c_order c -> y.1 <> x.1 <-> e_ID y.2 <> e_ID x.2) as Hiff.
  { intros y Hy. split; intros Hne E; apply Hne.
    - by rewrite (same_id c y x Hok Hy Hx E).
    - by rewrite (same_handle c y x Hok Hy Hx E). }
  split; [split; simpl|].
  - done.
  - eapply sublist_NoDup; [exact Hnd|]. apply fmap_sublist, sublist_filter.
  - rewrite Forall_forall in Hfr |- *. intros y [_ Hy]%list_elem_of_filter. auto.
  - intros id y. unfold remove_el. rewrite lookup_delete, list_elem_of_filter.
    case_decide as Hid.
    + subst. split; [done|]. intros [[Hne Hy] E]. by apply Hiff in Hne.
    + rewrite Hix. split; [|tauto]. intros [Hy <-]. split_and!; auto. apply Hiff; auto.
  - unfold abs, spec_without. simpl. unfold remove_el. by apply filter_fmap_iff.
Qed.

Lemma items_find c id : core_ok c -> snd <$> c_items c !! id = spec_find id (abs c).
Proof.
  intros [_ _ _ Hix]. unfold spec_find, abs.
  destruct (list_find (fun e => e_ID e = id) (c_order c).*2) as [[i e]|] eqn:E; simpl.
  - apply list_find_Some in E as (Hl & He & _).
    apply list_lookup_fmap_Some in Hl as ([h e'] & -> & Hl).
    assert (c_items c !! id = Some (h, e')) as ->; [|done].
    apply Hix. split; [by eapply list_elem_of_lookup_2|done].
  - apply list_find_None in E. destruct (c_items c !! id) as [x|] eqn:Ei; [|done].
    apply Hix in Ei as [Hx Hid]. rewrite Forall_fmap, Forall_forall in E. by destruct (E x Hx).
Qed.

Lemma push_spec c e :
  core_ok c -> c_items c !! e_ID e = None ->
  core_ok (push_back e c) /\ abs (push_back e c) = abs c ++ [e].
Proof.
  intros [Hm Hnd Hfr Hix] Hnone. split; [split; simpl|].
  - done.
  - rewrite fmap_app. apply NoDup_app. split_and!; [done| |apply NoDup_singleton].
    intros h ([h' e'] & -> & Hx)%list_elem_of_fmap Heq%list_elem_of_singleton.
    rewrite Forall_forall in Hfr. apply Hfr in Hx. simpl in *. lia.
  - apply Forall_app. split; [|by repeat constructor].
    eapply Forall_impl; [exact Hfr|]. simpl. lia.
  - intros id x. rewrite lookup_insert, elem_of_app, list_elem_of_singleton.
    case_decide as Hid.
    + subst id. split; [intros [= <-]; auto|]. intros [[Hx| ->] E]; [|done].
      assert (c_items c !! e_ID e = Some x) as Hs by (by apply Hix). congruence.
    + rewrite Hix. split; [tauto|]. intros [[Hx| ->] E]; [done|]. by subst.
  - unfold abs. simpl. by rewrite fmap_app.
Qed.

Lemma remove_front c h e l :
  core_ok c -> c_order c = (h, e) :: l -> c_order (remove h (e_ID e) c) = l.
Proof.
  intros [_ Hnd _ _] E. simpl. rewrite E in *. unfold remove_el.
  rewrite filter_cons_False by (simpl; tauto).
  apply list_filter_all. rewrite fmap_cons in Hnd. apply NoDup_cons in Hnd as [Hnot _].
  rewrite Forall_forall. intros x Hx <-. apply Hnot. exact (list_elem_of_fmap_2 fst _ x Hx).
Qed.

Lemma evict_spec fuel c :
  core_ok c -> (length (c_order c) <= fuel)%nat ->
  cache_ok (evict fuel c) /\ c_maxItems (evict fuel c) = c_maxItems c
  /\ abs (evict fuel c) = drop (length (abs c) - Z.to_nat (c_maxItems c)) (abs c).
Proof.
  revert c. induction fuel as [|fuel IH]; intros c Hok Hlen.
  - simpl. rewrite cache_core. pose proof (co_max c Hok). unfold abs. rewrite length_fmap.
    split_and!; [done|lia|done|]. by replace (_ - _)%nat with 0%nat by lia.
  - simpl. destruct (Z.ltb_spec (c_maxItems c) (Z.of_nat (length (c_order c)))) as [Hbig|Hsmall].
    + destruct (c_order c) as [|[h e] l] eqn:E; [pose proof (co_max c Hok); simpl in *; lia|].
      destruct (remove_spec c (h, e) Hok) as [Hok' _]; [rewrite E; left|]. simpl in Hok'.
      pose proof (remove_front c h e l Hok E) as Hl.
      destruct (IH (remove h (e_ID e) c) Hok') as (H1 & H2 & H3); [rewrite Hl; simpl in Hlen; lia|].
      split_and!; [done|done|]. rewrite H3. unfold abs. rewrite Hl, E. simpl c_maxItems.
      rewrite fmap_cons. cbn [length]. rewrite !length_fmap. simpl in Hbig.
      replace (S (length l) - Z.to_nat (c_maxItems c))%nat
        with (S (length l - Z.to_nat (c_maxItems c))) by lia. done.
    + rewrite cache_core. unfold abs. rewrite length_fmap. split_and!; auto.
      by replace (_ - _)%nat with 0%nat by lia.
Qed.

(** ** Each operation refines its specification *)

Lemma Put_refines e now c :
  cache_ok c ->
  cache_ok (Put e now c) /\ c_maxItems (Put e now c) = c_maxItems c
  /\ abs (Put e now c) = spec_put (c_maxItems c) e now (abs c).
Proof.
  intros Hck. pose proof Hck as Hc. rewrite cache_core in Hc. destruct Hc as [Hok _].
  unfold Put, spec_put. destruct (expired now e); [done|].
  assert (exists c1, core_ok c1 /\ c_items c1 !! e_ID e = None /\ abs c1 = spec_without (e_ID e) (abs c)
    /\ c_maxItems c1 = c_maxItems c
    /\ match c_items c !! e_ID e with Some (h, _) => remove h (e_ID e) c | None => c end = c1)
    as (c1 & Hok1 & Hn1 & Ha1 & Hm1 & ->).
  { destruct (c_items c !! e_ID e) as [[h old]|] eqn:E.
    - apply (co_index c Hok) in E as [Hx Hid]. destruct (remove_spec c (h, old) Hok Hx) as [H1 H2].
      simpl in *. rewrite Hid in *. eexists. split_and!; [exact H1| |exact H2|done|done].
      simpl. apply lookup_delete_eq.
    - exists c. split_and!; auto. unfold spec_without. symmetry. apply list_filter_all.
      rewrite Forall_forall. intros x (y & -> & Hy)%list_elem_of_fmap Hid.
      assert (c_items c !! e_ID e = Some y) by (by apply (co_index c Hok)). congruence. }
  destruct (push_spec c1 e Hok1 Hn1) as [Hok2 Ha2].
  destruct (evict_spec (length (c_order (push_back e c1))) (push_back e c1) Hok2) as (H1 & H2 & H3); [done|].
  split_and!; [done|by rewrite H2|]. rewrite H3, Ha2, Ha1. simpl. by rewrite Hm1.
Qed.

Lemma Get_refines id now c :
  cache_ok c ->
  let '(o, c') := Get id now c in
  cache_ok c' /\ c_maxItems c' = c_maxItems c /\ (o, abs c') = spec_get id now (abs c).
Proof.
  intros Hck. pose proof Hck as Hc. rewrite cache_core in Hc. destruct Hc as [Hok Hsz].
  unfold Get, spec_get. rewrite <- (items_find c id Hok).
  destruct (c_items c !! id) as [[h e]|] eqn:E; simpl; [|done].
  destruct (expired now e); [|done].
  apply (co_index c Hok) in E as [Hx Hid]. destruct (remove_spec c (h, e) Hok Hx) as [H1 H2].
  simpl in *. rewrite Hid in *. split_and!; [|done|by rewrite H2].
  rewrite cache_core. split; [done|]. simpl. unfold remove_el.
  pose proof (length_filter (fun y : nat * Entry => y.1 <> h) (c_order c)). lia.
Qed.

(** [Has] answers whether [Get] finds an entry, with the same effect. *)
Lemma Has_is_Get id now c : Has id now c = (bool_decide (is_Some (fst (Get id now c))), snd (Get id now c)).
Proof.
  unfold Has, Get. destruct (c_items c !! id) as [[h e]|]; [|done].
  by destruct (expired now e).
Qed.

Lemma sweep_loop_refines els now removed c :
  core_ok c -> els `suffix_of` c_order c -> NoDup els.*1 ->
  let '(n, c') := sweep_loop els now removed c in
  core_ok c' /\ c_maxItems c' = c_maxItems c /\ (length (c_order c') <= length (c_order c))%nat
  /\ n = removed + Z.of_nat (length (c_order c)) - Z.of_nat (length (c_order c'))
  /\ forall pre, c_order c = pre ++ els ->
       abs c' = pre.*2 ++ spec_live now els.*2.
Proof.
  revert removed c. induction els as [|[h e] els IH]; intros removed c Hok Hsuf Hnd.
  { simpl. split_and!; auto; [lia|]. intros pre Hp. unfold abs, spec_live. simpl. by rewrite Hp, !app_nil_r. }
  destruct Hsuf as [pre0 Ho]. rewrite fmap_cons in Hnd. apply NoDup_cons in Hnd as [Hnot Hnd].
  simpl. destruct (expired now e) eqn:Ee.
  - destruct (remove_spec c (h, e) Hok) as [Hok1 _]; [rewrite Ho; set_solver|]. simpl in Hok1.
    assert (c_order (remove h (e_ID e) c) = pre0 ++ els) as Ho1.
    { simpl. rewrite Ho. unfold remove_el. rewrite filter_app, filter_cons_False by (simpl; tauto).
      destruct Hok as [_ Hndc _ _]. rewrite Ho, fmap_app in Hndc.
      apply NoDup_app in Hndc as (_ & Hdis & _).
      f_equal; apply list_filter_all; rewrite Forall_forall; intros x Hx Heq.
      - apply (Hdis x.1); [exact (list_elem_of_fmap_2 fst _ x Hx)|]. rewrite Heq. left.
      - apply Hnot. simpl. rewrite <- Heq. exact (list_elem_of_fmap_2 fst _ x Hx). }
    specialize (IH (removed + 1) (remove h (e_ID e) c) Hok1 ltac:(by exists pre0) Hnd).
    destruct (sweep_loop els now (removed + 1) (remove h (e_ID e) c)) as [n c'].
    destruct IH as (H1 & H2 & H3 & H4 & H5). rewrite Ho1 in *. rewrite Ho.
    rewrite length_app in *. cbn [length]. split_and!; auto; [lia|lia|].
    intros pre Hp. rewrite (H5 pre0 eq_refl). apply app_inj_2 in Hp as [<- _]; [|done].
    f_equal. unfold spec_live. simpl. rewrite filter_cons_False by congruence. done.
  - specialize (IH removed c Hok ltac:(exists (pre0 ++ [(h, e)]); by rewrite <- app_assoc) Hnd).
    destruct (sweep_loop els now removed c) as [n c']. destruct IH as (H1 & H2 & H3 & H4 & H5).
    split_and!; auto. intros pre Hp. rewrite (H5 (pre ++ [(h, e)])) by (by rewrite Hp, <- app_assoc).
    rewrite fmap_app, <- app_assoc. f_equal. simpl. unfold spec_live. simpl.
    by rewrite filter_cons_True.
Qed.

Lemma Sweep_refines now c :
  cache_ok c ->
  let '(n, c') := Sweep now c in
  cache_ok c' /\ c_maxItems c' = c_maxItems c /\ abs c' = spec_live now (abs c)
  /\ n = Z.of_nat (length (abs c)) - Z.of_nat (length (abs c')).
Proof.
  intros Hck. pose proof Hck as Hc. rewrite cache_core in Hc. destruct Hc as [Hok Hsz].
  unfold Sweep. pose proof (sweep_loop_refines (c_order c) now 0 c Hok ltac:(by exists []) (co_handles c Hok)) as H.
  destruct (sweep_loop (c_order c) now 0 c) as [n c']. destruct H as (H1 & H2 & H3 & H4 & H5).
  rewrite cache_core. unfold abs in *. rewrite !length_fmap.
  split_and!; [done|lia|done|by rewrite (H5 [])|lia].
Qed.

Lemma list_loop_spec els now limit out :
  Z.of_nat (length out) <= limit ->
  list_loop els now limit out = out ++ take (Z.to_nat limit - length out) (spec_live now els.*2).
Proof.
  revert out. induction els as [|[h e] els IH]; intros out Hl; simpl.
  { unfold spec_live. simpl. by rewrite firstn_nil, app_nil_r. }
  destruct (Z.ltb_spec (Z.of_nat (length out)) limit).
  - unfold spec_live in *. simpl. rewrite filter_cons. destruct (expired now e) eqn:Ee; case_decide; try done.
    + by apply IH.
    + rewrite IH by (rewrite length_app; simpl; lia). rewrite length_app, <- app_assoc. simpl.
      f_equal. replace (Z.to_nat limit - length out)%nat with (S (Z.to_nat limit - (length out + 1))) by lia.
      done.
  - replace (Z.to_nat limit - length out)%nat with 0%nat by lia. by rewrite take_0, app_nil_r.
Qed.

Lemma List_refines now limit c : List_ now limit c = spec_list now limit (abs c).
Proof.
  unfold List_, spec_list, abs.
  assert (length (spec_live now (reverse (c_order c).*2)) <= length (c_order c))%nat as Hlen.
  { unfold spec_live. rewrite length_filter, length_reverse, length_fmap. done. }
  rewrite list_loop_spec, fmap_reverse, Nat.sub_0_r by (simpl; repeat case_match; lia).
  rewrite length_fmap. simpl. destruct (Z.leb_spec limit 0); simpl; [by rewrite Nat2Z.id|].
  destruct (Z.ltb_spec (Z.of_nat (length (c_order c))) limit); [|done].
  rewrite Nat2Z.id, !take_ge by lia. done.
Qed.

(** ** Sequences of calls *)

Inductive Op :=
  | OpHas (id : list Z)
  | OpPut (e : Entry)
  | OpGet (id : list Z)
  | OpSweep
  | OpList (limit : Z).

Inductive Answer :=
  | AnsBool (b : bool)
  | AnsUnit
  | AnsEntry (o : option Entry)
  | AnsCount (n : Z)
  | AnsEntries (l : list Entry).

Definition step (op : Op) (now : Z) (c : Cache) : Answer * Cache :=
  match op with
  | OpHas id => let (b, c') := Has id now c in (AnsBool b, c')
  | OpPut e => (AnsUnit, Put e now c)
  | OpGet id => let (o, c') := Get id now c in (AnsEntry o, c')
  | OpSweep => let (n, c') := Sweep now c in (AnsCount n, c')
  | OpList limit => (AnsEntries (List_ now limit c), c)
  end.

Definition spec_step (max : Z) (op : Op) (now : Z) (l : list Entry) : Answer * list Entry :=
  match op with
  | OpHas id => let (o, l') := spec_get id now l in (AnsBool (bool_decide (is_Some o)), l')
  | OpPut e => (AnsUnit, spec_put max e now l)
  | OpGet id => let (o, l') := spec_get id now l in (AnsEntry o, l')
  | OpSweep => (AnsCount (Z.of_nat (length l) - Z.of_nat (length (spec_live now l))), spec_live now l)
  | OpList limit => (AnsEntries (spec_list now limit l), l)
  end.

Fixpoint run {S} (f : Op -> Z -> S -> Answer * S) (ops : list (Op * Z)) (s : S) : list Answer * S :=
  match ops with
  | [] => ([], s)
  | (op, now) :: ops' =>
      let (a, s1) := f op now s in let (answers, s2) := run f ops' s1 in (a :: answers, s2)
  end.

Lemma step_refines op now c :
  cache_ok c ->
  let '(a, c') := step op now c in
  cache_ok c' /\ c_maxItems c' = c_maxItems c /\ spec_step (c_maxItems c) op now (abs c) = (a, abs c').
Proof.
  intros Hok. destruct op as [id|e|id| |limit]; simpl.
  - rewrite Has_is_Get. pose proof (Get_refines id now c Hok) as H.
    destruct (Get id now c) as [o c']. destruct H as (H1 & H2 & H3). simpl. by rewrite <- H3.
  - destruct (Put_refines e now c Hok) as (H1 & H2 & H3). by rewrite H3.
  - pose proof (Get_refines id now c Hok) as H.
    destruct (Get id now c) as [o c']. destruct H as (H1 & H2 & H3). by rewrite <- H3.
  - pose proof (Sweep_refines now c Hok) as H.
    destruct (Sweep now c) as [n c']. destruct H as (H1 & H2 & H3 & H4). split_and!; [done|done|].
    rewrite H4, H3. done.
  - by rewrite List_refines.
Qed.

(** C39: every sequence of cache calls, at any times, gives the answers of the bounded
    entry list and leaves a cache whose list is that list: [Has] and [Get] find exactly
    the unexpired entry with the identifier and drop an expired one, [Put] replaces an
    entry of the same identifier, appends, and evicts the oldest beyond [maxItems],
    [Sweep] drops and counts the expired ones, [List] gives the newest unexpired first. *)
Theorem cache_refines_bounded_list (maxItems : Z) (ops : list (Op * Z)) :
  let max := if maxItems <=? 0 then 512 else maxItems in
  let '(answers, c) := run step ops (New maxItems) in
  run (spec_step max) ops [] = (answers, abs c)
  /\ cache_ok c /\ Z.of_nat (length (abs c)) <= max.
Proof.
  cbv zeta.
  assert (forall c, cache_ok c ->
    let '(answers, c') := run step ops c in
    run (spec_step (c_maxItems c)) ops (abs c) = (answers, abs c')
    /\ cache_ok c' /\ c_maxItems c' = c_maxItems c) as H.
  { induction ops as [|[op now] ops IH]; intros c Hok; [done|]. simpl.
    pose proof (step_refines op now c Hok) as Hstep. destruct (step op now c) as [a c1].
    destruct Hstep as (H1 & H2 & H3). rewrite H3. specialize (IH c1 H1). rewrite H2 in IH.
    destruct (run step ops c1) as [answers c2]. destruct IH as (H4 & H5 & H6). by rewrite H4. }
  specialize (H (New maxItems) (cache_New_ok maxItems)).
  destruct (run step ops (New maxItems)) as [answers c]. destruct H as (H1 & H2 & H3).
  split_and!; [exact H1|done|]. pose proof (ck_size c H2) as Hs. rewrite H3 in Hs.
  unfold abs. by rewrite length_fmap.
Qed.
