(* ===== verification/Replay.v ===== *)
(** * Replay protection ([core/proximity/replay_protection])

    A ring of identifier sets, one per [bucketDur], rotated by the clock.  The file states
    what a replay filter promises its clients as a class, shows that the buckets keep the
    promise for all but the oldest bucket's worth of the window, and that they forget. *)

From S2P Require Import Prelude.

Record Protector := mkProtector {
  rp_bucketDur : Z;
  rp_windowDur : Z;
  rp_buckets : list (gset (list Z));
  rp_zero : Z;
}.

(** [New(Options{BucketDuration, WindowDuration})] *)
Definition New (bucketDuration windowDuration : Z) : Protector :=
  let bucket := if bucketDuration <=? 0 then 10 * Second else bucketDuration in
  let window := if windowDuration <=? 0 then 10 * Minute else windowDuration in
  let window := if window <? bucket then bucket else window in
  let n := Z.quot window bucket in
  let n := if n <? 1 then 1 else n in
  mkProtector bucket window (replicate (Z.to_nat n) ∅) zeroTime.

Definition with_buckets (p : Protector) (b : list (gset (list Z))) (zero : Z) : Protector :=
  mkProtector (rp_bucketDur p) (rp_windowDur p) b zero.

(** The rotation loop: one bucket dropped and one appended per turn. *)
Fixpoint shift_loop (n : nat) (p : Protector) : Protector :=
  match n with
  | O => p
  | S n' => shift_loop n' (with_buckets p (drop 1 (rp_buckets p) ++ [∅]) (TimeAdd (rp_zero p) (rp_bucketDur p)))
  end.

Definition rotateLocked (now : Z) (p : Protector) : Protector :=
  if IsZero (rp_zero p) then with_buckets p (rp_buckets p) now
  else
    let elapsed := TimeSub now (rp_zero p) in
    if elapsed <? rp_bucketDur p then p
    else
      let shift := Z.quot elapsed (rp_bucketDur p) in
      if Z.of_nat (length (rp_buckets p)) <=? shift
      then with_buckets p ((fun _ => ∅) <$> rp_buckets p) now
      else shift_loop (Z.to_nat shift) p.

Definition in_buckets (id : list Z) (p : Protector) : bool :=
  existsb (fun s => bool_decide (id ∈ s)) (rp_buckets p).

Definition SeenOrAdd (id : list Z) (now : Z) (p : Protector) : bool * Protector :=
  let p := rotateLocked now p in
  if in_buckets id p then (true, p)
  else (false, with_buckets p (alter (fun s => {[id]} ∪ s) (length (rp_buckets p) - 1)%nat (rp_buckets p)) (rp_zero p)).

Definition Seen (id : list Z) (now : Z) (p : Protector) : bool * Protector :=
  let p := rotateLocked now p in (in_buckets id p, p).

(** ** What a replay filter promises

    [remembers s id u]: the filter will answer that [id] was seen at every call up to time
    [u], whatever calls are made before. *)

Class ReplayFilter (F : Type) := {
  rf_ok : F -> Prop;
  rf_seen_or_add : list Z -> Z -> F -> bool * F;
  rf_seen : list Z -> Z -> F -> bool * F;
  rf_horizon : F -> Z;
  rf_remembers : F -> list Z -> Z -> Prop;
  rf_ok_step id t s : rf_ok s -> zeroTime <= t -> rf_ok (snd (rf_seen_or_add id t s)) /\ rf_ok (snd (rf_seen id t s));
  rf_horizon_step id t s : rf_ok s -> zeroTime <= t ->
    rf_horizon (snd (rf_seen_or_add id t s)) = rf_horizon s /\ rf_horizon (snd (rf_seen id t s)) = rf_horizon s;
  rf_add id t s : rf_ok s -> zeroTime <= t ->
    fst (rf_seen_or_add id t s) = false -> rf_remembers (snd (rf_seen_or_add id t s)) id (t + rf_horizon s);
  rf_keep id id' t u s : rf_ok s -> zeroTime <= t <= u -> rf_remembers s id u ->
    rf_remembers (snd (rf_seen_or_add id' t s)) id u /\ rf_remembers (snd (rf_seen id' t s)) id u;
  rf_hit id t u s : rf_ok s -> zeroTime <= t <= u -> rf_remembers s id u ->
    fst (rf_seen_or_add id t s) = true /\ fst (rf_seen id t s) = true;
}.

(** ** The buckets keep the promise *)

Record protector_ok (p : Protector) : Prop := {
  pk_dur : 0 < rp_bucketDur p <= max_i64;
  pk_len : (0 < length (rp_buckets p))%nat;
  pk_window : Z.of_nat (length (rp_buckets p)) * rp_bucketDur p <= max_i64;
  pk_zero : zeroTime <= rp_zero p;
}.

Definition horizon (p : Protector) : Z := (Z.of_nat (length (rp_buckets p)) - 1) * rp_bucketDur p.

(** [id] is in a bucket that is dropped only after time [u]. *)
Definition remembers (p : Protector) (id : list Z) (u : Z) : Prop :=
  exists j s, rp_buckets p !! j = Some s /\ id ∈ s
    /\ u < rp_zero p + (Z.of_nat j + 1) * rp_bucketDur p.

Lemma protector_New_ok b w : b <= max_i64 -> w <= max_i64 -> protector_ok (New b w).
Proof.
  intros Hb Hw. unfold New.
  set (bk := if b <=? 0 then _ else b). set (w0 := if w <=? 0 then _ else w).
  assert (0 < bk <= max_i64) by (subst bk; destruct (Z.leb_spec b 0); unfold Second, max_i64 in *; lia).
  assert (w0 <= max_i64) by (subst w0; destruct (Z.leb_spec w 0); unfold Minute, Second, max_i64 in *; lia).
  set (w1 := if w0 <? bk then bk else w0).
  assert (bk <= w1 <= max_i64) by (subst w1; destruct (Z.ltb_spec w0 bk); lia).
  pose proof (Z.mul_quot_le w1 bk ltac:(lia) ltac:(lia)).
  assert (1 <= Z.quot w1 bk) by (apply Z.quot_le_lower_bound; lia).
  destruct (Z.ltb_spec (Z.quot w1 bk) 1); [lia|].
  split; simpl; rewrite ?length_replicate; try lia; try done.
Qed.

Lemma shift_loop_length n p :
  (0 < length (rp_buckets p))%nat -> length (rp_buckets (shift_loop n p)) = length (rp_buckets p).
Proof.
  revert p. induction n as [|n IH]; intros p Hl; [done|]. cbn [shift_loop].
  assert (length (drop 1 (rp_buckets p) ++ [∅ : gset (list Z)]) = length (rp_buckets p)) as E
    by (rewrite length_app, length_drop; simpl; lia).
  rewrite IH; cbn [with_buckets rp_buckets]; lia.
Qed.

Lemma shift_loop_zero n p :
  rp_zero (shift_loop n p) = rp_zero p + Z.of_nat n * rp_bucketDur p
  /\ rp_bucketDur (shift_loop n p) = rp_bucketDur p.
Proof.
  revert p. induction n as [|n IH]; intros p; [simpl; lia|]. cbn [shift_loop].
  destruct (IH (with_buckets p (drop 1 (rp_buckets p) ++ [∅]) (TimeAdd (rp_zero p) (rp_bucketDur p)))) as [H1 H2].
  rewrite H1, H2. simpl. unfold TimeAdd. lia.
Qed.

Lemma shift_loop_lookup n p j s :
  rp_buckets p !! (n + j)%nat = Some s -> rp_buckets (shift_loop n p) !! j = Some s.
Proof.
  revert p. induction n as [|n IH]; intros p H; [done|]. simpl. apply IH. simpl.
  apply lookup_app_l_Some. rewrite lookup_drop. exact H.
Qed.

(** What the loop leaves at [j] was at [n + j], or is a fresh bucket. *)
Lemma shift_loop_lookup_inv n p j s :
  rp_buckets (shift_loop n p) !! j = Some s -> s = ∅ \/ rp_buckets p !! (n + j)%nat = Some s.
Proof.
  revert p. induction n as [|n IH]; intros p H; [by right|]. simpl in H.
  apply IH in H as [->|H]; [by left|]. simpl in H.
  apply lookup_app_Some in H as [H|[_ H]].
  - right. rewrite lookup_drop in H. by replace (S n + j)%nat with (1 + (n + j))%nat by lia.
  - left. apply list_lookup_singleton_Some in H. by destruct H.
Qed.

Lemma protector_rotate_ok now p :
  protector_ok p -> zeroTime <= now ->
  protector_ok (rotateLocked now p)
  /\ length (rp_buckets (rotateLocked now p)) = length (rp_buckets p)
  /\ rp_bucketDur (rotateLocked now p) = rp_bucketDur p.
Proof.
  intros [Hd Hl Hw Hz] Hn. unfold rotateLocked.
  destruct (IsZero _); [by split; [split|split]|].
  destruct (_ <? _); [by split; [split|split]|].
  destruct (_ <=? _); simpl.
  { rewrite length_fmap. split; [|done]. split; simpl; rewrite ?length_fmap; done. }
  destruct (shift_loop_zero (Z.to_nat (Z.quot (TimeSub now (rp_zero p)) (rp_bucketDur p))) p) as [E1 E2].
  rewrite E2, shift_loop_length by done. split; [|done].
  split; rewrite ?E2, ?shift_loop_length by done; try done. rewrite E1. nia.
Qed.

(** After a rotation the oldest bucket is less than one bucket old, and on a clock that does
    not run backwards the window starts in the past. *)
Lemma rotate_zero now p :
  protector_ok p ->
  now < rp_zero (rotateLocked now p) + rp_bucketDur p
  /\ (rp_zero p <= now -> rp_zero (rotateLocked now p) <= now).
Proof.
  intros [Hd Hl Hw Hz]. unfold rotateLocked.
  destruct (IsZero (rp_zero p)) eqn:E0; [simpl; lia|].
  destruct (Z.ltb_spec (TimeSub now (rp_zero p)) (rp_bucketDur p)) as [H|H].
  { split; [|done]. apply TimeSub_lt in H; unfold_ints; lia. }
  destruct (Z.leb_spec (Z.of_nat (length (rp_buckets p)))
    (Z.quot (TimeSub now (rp_zero p)) (rp_bucketDur p))) as [Hs|Hs]; simpl; [lia|].
  rewrite (proj1 (shift_loop_zero _ _)).
  pose proof (Z.quot_rem' (TimeSub now (rp_zero p)) (rp_bucketDur p)).
  pose proof (Z.rem_bound_pos (TimeSub now (rp_zero p)) (rp_bucketDur p) ltac:(lia) ltac:(lia)).
  rewrite Z2Nat.id by (apply Z.quot_pos; lia).
  assert (TimeSub now (rp_zero p) = now - rp_zero p); [|lia].
  assert (TimeSub now (rp_zero p) < max_i64) by nia.
  unfold TimeSub in *. unfold_ints. lia.
Qed.

(** A rotation drops no bucket before its time. *)
Lemma rotate_remembers id now u p :
  protector_ok p -> zeroTime <= now <= u -> remembers p id u -> remembers (rotateLocked now p) id u.
Proof.
  intros [Hd Hl Hw Hz] Hn (j & s & Hj & Hid & Hu). unfold rotateLocked.
  destruct (IsZero (rp_zero p)) eqn:E0.
  { exists j, s. simpl. apply Z.eqb_eq in E0. split_and!; [done|done|lia]. }
  destruct (Z.ltb_spec (TimeSub now (rp_zero p)) (rp_bucketDur p)) as [H|H]; [by exists j, s|].
  set (q := Z.quot (TimeSub now (rp_zero p)) (rp_bucketDur p)).
  assert (q * rp_bucketDur p <= TimeSub now (rp_zero p) /\ 0 <= q) as [Hq Hq0].
  { split; [rewrite Z.mul_comm; apply Z.mul_quot_le; lia | apply Z.quot_pos; lia]. }
  assert (TimeSub now (rp_zero p) <= now - rp_zero p) by (unfold TimeSub in *; unfold_ints; lia).
  assert (q <= Z.of_nat j) as Hqj by nia.
  apply lookup_lt_Some in Hj as Hlt.
  destruct (Z.leb_spec (Z.of_nat (length (rp_buckets p))) q); [lia|].
  destruct (shift_loop_zero (Z.to_nat q) p) as [E1 E2].
  exists (j - Z.to_nat q)%nat, s. split_and!; [|done|].
  - apply shift_loop_lookup. by replace (Z.to_nat q + (j - Z.to_nat q))%nat with j by lia.
  - rewrite E1, E2. nia.
Qed.

Lemma in_buckets_spec id p : in_buckets id p = true <-> exists j s, rp_buckets p !! j = Some s /\ id ∈ s.
Proof.
  unfold in_buckets. rewrite existsb_exists. split.
  - intros (s & Hs & Hid). apply bool_decide_eq_true in Hid.
    apply list_elem_of_In, list_elem_of_lookup in Hs as [j Hj]. eauto.
  - intros (j & s & Hj & Hid). exists s. split; [|by apply bool_decide_eq_true].
    apply list_elem_of_In, list_elem_of_lookup. eauto.
Qed.

Lemma remembers_hit id u p : remembers p id u -> in_buckets id p = true.
Proof. intros (j & s & Hj & Hid & _). apply in_buckets_spec. eauto. Qed.

(** The state after either call, and what it remembers. *)
Lemma seen_or_add_state id t p :
  snd (SeenOrAdd id t p) = rotateLocked t p
  \/ snd (SeenOrAdd id t p)
     = with_buckets (rotateLocked t p)
         (alter (fun s => {[id]} ∪ s) (length (rp_buckets (rotateLocked t p)) - 1)%nat
           (rp_buckets (rotateLocked t p))) (rp_zero (rotateLocked t p)).
Proof. unfold SeenOrAdd. destruct (in_buckets _ _); [by left|by right]. Qed.

Lemma remembers_alter id x u k p :
  remembers p id u ->
  remembers (with_buckets p (alter (fun s => {[x]} ∪ s) k (rp_buckets p)) (rp_zero p)) id u.
Proof.
  intros (j & s & Hj & Hid & Hu). destruct (decide (j = k)) as [->|Hne].
  - exists k, ({[x]} ∪ s). simpl. rewrite list_lookup_alter_eq, Hj. split_and!; [done|set_solver|done].
  - exists j, s. simpl. by rewrite list_lookup_alter_ne.
Qed.

Lemma alter_ok p (x : list Z) k :
  protector_ok p -> protector_ok (with_buckets p (alter (fun s => {[x]} ∪ s) k (rp_buckets p)) (rp_zero p)).
Proof. intros [????]. split; simpl; rewrite ?length_alter; done. Qed.

Lemma seen_or_add_ok id t p :
  protector_ok p -> zeroTime <= t ->
  protector_ok (snd (SeenOrAdd id t p)) /\ horizon (snd (SeenOrAdd id t p)) = horizon p
  /\ rp_bucketDur (snd (SeenOrAdd id t p)) = rp_bucketDur p.
Proof.
  intros Hp Ht. destruct (protector_rotate_ok t p Hp Ht) as (H1 & H2 & H3). unfold horizon.
  destruct (seen_or_add_state id t p) as [-> | ->]; [by rewrite H2, H3|].
  simpl. rewrite length_alter, H2, H3. split; [|done]. rewrite <- H2. by apply alter_ok.
Qed.

Lemma seen_or_add_remembers id t p :
  protector_ok p -> zeroTime <= t -> fst (SeenOrAdd id t p) = false ->
  remembers (snd (SeenOrAdd id t p)) id (t + horizon p).
Proof.
  intros Hp Ht. unfold SeenOrAdd. destruct (in_buckets _ _); [done|]. intros _. simpl.
  destruct (protector_rotate_ok t p Hp Ht) as ([_ Hl _ _] & E2 & E3).
  destruct (rotate_zero t p Hp) as [Hz _].
  set (p' := rotateLocked t p) in *.
  destruct (lookup_lt_is_Some_2 (rp_buckets p') (length (rp_buckets p') - 1) ltac:(lia)) as [s Hs].
  exists (length (rp_buckets p') - 1)%nat, ({[id]} ∪ s). simpl.
  rewrite list_lookup_alter_eq, Hs. split_and!; [done|set_solver|].
  unfold horizon. rewrite <- E2, E3 in *.
  rewrite Nat2Z.inj_sub by lia. rewrite Z.sub_simpl_r. lia.
Qed.

Lemma remembers_step id id' t u p :
  protector_ok p -> zeroTime <= t <= u -> remembers p id u ->
  remembers (snd (SeenOrAdd id' t p)) id u /\ remembers (snd (Seen id' t p)) id u.
Proof.
  intros Hp Ht Hr. pose proof (rotate_remembers id t u p Hp Ht Hr) as H. split; [|done].
  destruct (seen_or_add_state id' t p) as [-> | ->]; [done|by apply remembers_alter].
Qed.

#[export] Program Instance protector_replay_filter : ReplayFilter Protector := {
  rf_ok := protector_ok;
  rf_seen_or_add := SeenOrAdd;
  rf_seen := Seen;
  rf_horizon := horizon;
  rf_remembers := remembers;
  rf_add := seen_or_add_remembers;
  rf_keep := remembers_step;
}.
Next Obligation. intros id t s Hs Ht. split; [by apply seen_or_add_ok|by apply protector_rotate_ok]. Qed.
Next Obligation.
  intros id t s Hs Ht. split; [by apply seen_or_add_ok|].
  destruct (protector_rotate_ok t s Hs Ht) as (_ & E1 & E2). unfold horizon. simpl. by rewrite E1, E2.
Qed.
Next Obligation.
  intros id t u s Hs Ht Hr. pose proof (rotate_remembers id t u s Hs Ht Hr) as H%remembers_hit.
  unfold SeenOrAdd, Seen. by rewrite H.
Qed.

(** ** Runs of calls *)

Inductive call :=
  | CallAdd (id : list Z) (t : Z)
  | CallSeen (id : list Z) (t : Z).

Definition call_time (c : call) : Z := match c with CallAdd _ t | CallSeen _ t => t end.
Definition call_id (c : call) : list Z := match c with CallAdd id _ | CallSeen id _ => id end.

Section runs.
Context {F} `{ReplayFilter F}.

Definition do_call (c : call) (s : F) : bool * F :=
  match c with CallAdd id t => rf_seen_or_add id t s | CallSeen id t => rf_seen id t s end.

(** The answers of a run, in order, and its final state. *)
Fixpoint run_calls (l : list call) (s : F) : list bool * F :=
  match l with
  | [] => ([], s)
  | c :: l' =>
      let '(a, s1) := do_call c s in
      let '(r, s2) := run_calls l' s1 in (a :: r, s2)
  end.

Lemma do_call_ok c s : rf_ok s -> zeroTime <= call_time c ->
  rf_ok (snd (do_call c s)) /\ rf_horizon (snd (do_call c s)) = rf_horizon s.
Proof.
  intros Hs Ht. destruct c; simpl in *;
    split; [apply rf_ok_step | apply rf_horizon_step | apply rf_ok_step | apply rf_horizon_step]; done.
Qed.

Lemma run_calls_ok l s : rf_ok s -> Forall (fun c => zeroTime <= call_time c) l ->
  rf_ok (snd (run_calls l s)) /\ rf_horizon (snd (run_calls l s)) = rf_horizon s.
Proof.
  intros Hs Hl. revert s Hs. induction Hl as [|c l Hc _ IH]; intros s Hs; [done|]. simpl.
  destruct (do_call_ok c s Hs Hc) as [H1 H2]. destruct (do_call c s) as [a s1].
  destruct (IH s1 H1) as [H3 H4]. destruct (run_calls l s1). simpl in *. split; congruence.
Qed.

(** Calls do not make it forget before [u]. *)
Lemma run_keeps id u l s :
  rf_ok s -> rf_remembers s id u -> Forall (fun c => zeroTime <= call_time c <= u) l ->
  rf_remembers (snd (run_calls l s)) id u.
Proof.
  intros Hs Hr Hl. revert s Hs Hr. induction Hl as [|c l Hc _ IH]; intros s Hs Hr; [done|]. simpl.
  destruct (do_call_ok c s Hs ltac:(lia)) as [H1 _].
  assert (rf_remembers (snd (do_call c s)) id u) as Hr'.
  { destruct c; simpl in *; by apply rf_keep. }
  destruct (do_call c s) as [a s1]. specialize (IH s1 H1 Hr'). by destruct (run_calls l s1).
Qed.

(** While the filter remembers [id], every call about it answers true. *)
Lemma run_remembered id u l s :
  rf_ok s -> rf_remembers s id u -> Forall (fun c => zeroTime <= call_time c <= u) l ->
  Forall2 (fun c a => call_id c = id -> a = true) l (fst (run_calls l s)).
Proof.
  intros Hs Hr Hl. revert s Hs Hr. induction Hl as [|c l Hc _ IH]; intros s Hs Hr; [constructor|].
  simpl. destruct (do_call_ok c s Hs ltac:(lia)) as [H1 _].
  assert (call_id c = id -> fst (do_call c s) = true) as Ha.
  { intros <-. destruct c; simpl in *; by eapply rf_hit. }
  assert (rf_remembers (snd (do_call c s)) id u) as Hr'.
  { destruct c; simpl in *; by apply rf_keep. }
  destruct (do_call c s) as [a s1]. specialize (IH s1 H1 Hr').
  destruct (run_calls l s1). by constructor.
Qed.
End runs.

(** ** Forgetting

    A bucket's identifiers are gone one window after they were added, so the memory is
    bounded by the calls of one window. *)

(** Every bucket holding [id] is dropped by time [u]. *)
Definition gone_by (p : Protector) (id : list Z) (u : Z) : Prop :=
  forall j s, rp_buckets p !! j = Some s -> id ∈ s ->
    rp_zero p <> zeroTime /\ rp_zero p + (Z.of_nat j + 1) * rp_bucketDur p <= u.

Lemma rotate_gone id now u p :
  protector_ok p -> gone_by p id u -> gone_by (rotateLocked now p) id u.
Proof.
  intros [Hd Hl Hw Hz] Hg. unfold rotateLocked, IsZero.
  destruct (Z.eqb_spec (rp_zero p) zeroTime) as [E|E].
  { intros j s Hj Hs. by destruct (Hg j s Hj Hs). }
  destruct (Z.ltb_spec (TimeSub now (rp_zero p)) (rp_bucketDur p)) as [H|H]; [done|].
  destruct (_ <=? _).
  { intros j s Hj Hs. simpl in Hj. rewrite list_lookup_fmap in Hj.
    destruct (rp_buckets p !! j); simplify_eq/=; set_solver. }
  intros j s Hj Hs. destruct (shift_loop_zero (Z.to_nat (Z.quot (TimeSub now (rp_zero p)) (rp_bucketDur p))) p) as [E1 E2].
  apply shift_loop_lookup_inv in Hj as [->|Hj]; [set_solver|].
  destruct (Hg _ s Hj Hs) as [_ Hu]. rewrite E1, E2. nia.
Qed.

Lemma gone_miss id now u p :
  protector_ok p -> gone_by p id u -> u <= now -> in_buckets id (rotateLocked now p) = false.
Proof.
  intros Hp Hg Hu. apply not_true_iff_false. rewrite in_buckets_spec. intros (j & s & Hj & Hs).
  destruct (rotate_gone id now u p Hp Hg j s Hj Hs) as [_ H].
  destruct (rotate_zero now p Hp) as [H' _].
  assert (rp_bucketDur (rotateLocked now p) = rp_bucketDur p) as E.
  { unfold rotateLocked. repeat case_match; try done. apply shift_loop_zero. }
  rewrite E in H. destruct Hp as [Hd _ _ _]. nia.
Qed.

Lemma seen_or_add_gone id id' t u p :
  protector_ok p -> zeroTime < t -> rp_zero p <= t -> gone_by p id u ->
  (id' = id -> t + Z.of_nat (length (rp_buckets p)) * rp_bucketDur p <= u) ->
  gone_by (snd (SeenOrAdd id' t p)) id u.
Proof.
  intros Hp Ht Hz Hg Hnew. pose proof (rotate_gone id t u p Hp Hg) as Hg'.
  destruct (protector_rotate_ok t p Hp ltac:(lia)) as (Hp' & E2 & E3).
  destruct (rotate_zero t p Hp) as [Hz1 Hz2]. specialize (Hz2 Hz).
  destruct (seen_or_add_state id' t p) as [-> | ->]; [done|].
  intros j s Hj Hs. simpl in *. set (p' := rotateLocked t p) in *.
  destruct (decide (j = (length (rp_buckets p') - 1)%nat)) as [->|Hne];
    [|rewrite list_lookup_alter_ne in Hj by done; by apply (Hg' j s)].
  rewrite list_lookup_alter_eq in Hj. destruct (rp_buckets p' !! _) as [s0|] eqn:E0; simplify_eq/=.
  apply elem_of_union in Hs as [->%elem_of_singleton|Hs]; [|by apply (Hg' _ s0)].
  specialize (Hnew eq_refl). destruct Hp as [Hd Hl Hw Hzz].
  split.
  - unfold p', rotateLocked, IsZero in *. destruct (Z.eqb_spec (rp_zero p) zeroTime); [simpl; lia|].
    repeat case_match; simpl; try done; [lia|]. rewrite (proj1 (shift_loop_zero _ _)). nia.
  - rewrite E2, E3 in *. nia.
Qed.

(** The whole window, oldest bucket included. *)
Definition window (p : Protector) : Z := Z.of_nat (length (rp_buckets p)) * rp_bucketDur p.

Lemma do_call_gone id u c p :
  protector_ok p -> zeroTime < call_time c -> rp_zero p <= call_time c -> gone_by p id u ->
  (forall t, c = CallAdd id t -> t + window p <= u) ->
  gone_by (snd (do_call c p)) id u /\ protector_ok (snd (do_call c p))
  /\ rp_zero (snd (do_call c p)) <= call_time c /\ window (snd (do_call c p)) = window p.
Proof.
  intros Hp Ht Hz Hg Hc. destruct (protector_rotate_ok (call_time c) p Hp ltac:(lia)) as (H1 & H2 & H3).
  destruct (rotate_zero (call_time c) p Hp) as [_ Hz']. specialize (Hz' Hz).
  destruct c as [id' t|id' t]; simpl in *.
  - split; [apply seen_or_add_gone; try done; intros ->; by apply Hc|].
    split; [apply seen_or_add_ok; [done|lia]|].
    unfold window. destruct (seen_or_add_state id' t p) as [-> | ->]; simpl;
      rewrite ?length_alter, H2, H3; done.
  - split; [by apply rotate_gone|]. unfold window. by rewrite H2, H3.
Qed.

Lemma run_gone id u l p :
  protector_ok p -> gone_by p id u -> StronglySorted Z.le (call_time <$> l) ->
  Forall (fun c => zeroTime < call_time c /\ rp_zero p <= call_time c) l ->
  (forall t, CallAdd id t ∈ l -> t + window p <= u) ->
  gone_by (snd (run_calls l p)) id u /\ protector_ok (snd (run_calls l p)).
Proof.
  revert p. induction l as [|c l IH]; intros p Hp Hg Hs Hf Hn; [done|].
  apply Forall_cons in Hf as [[Hc1 Hc2] Hf]. rewrite fmap_cons in Hs.
  apply StronglySorted_inv in Hs as [Hs Hle]. rewrite Forall_fmap in Hle.
  destruct (do_call_gone id u c p) as (G1 & G2 & G3 & G4); try done.
  { intros t ->. apply Hn. by left. }
  simpl. destruct (do_call c p) as [a s1]. simpl in *.
  specialize (IH s1 G2 G1 Hs). destruct (run_calls l s1) as [r s2]. apply IH.
  - apply Forall_forall. intros x Hx. rewrite Forall_forall in Hf, Hle.
    specialize (Hf x Hx). specialize (Hle x Hx). simpl in Hle. lia.
  - intros t Ht. rewrite G4. apply Hn. by right.
Qed.

Lemma New_gone b w id u : gone_by (New b w) id u.
Proof.
  intros j s Hj Hs. unfold New in Hj. simpl in Hj.
  apply lookup_replicate in Hj as [-> _]. set_solver.
Qed.

(** ** The two promises, for every run from [New] *)

(** Once an identifier has been accepted at time t0, no later SeenOrAdd or Seen about it
    answers that it is new at any time up to t0 plus the horizon (all but one bucket of the
    window), whatever calls came before and whatever calls are interleaved, even if the
    clock readings are not in order. *)
Theorem accepted_at_most_once b w l0 id t0 l :
  b <= max_i64 -> w <= max_i64 ->
  Forall (fun c => zeroTime <= call_time c) (l0 ++ [CallAdd id t0]) ->
  let p := snd (run_calls l0 (New b w)) in
  fst (SeenOrAdd id t0 p) = false ->
  Forall (fun c => zeroTime <= call_time c <= t0 + horizon (New b w)) l ->
  Forall2 (fun c a => call_id c = id -> a = true) l (fst (run_calls l (snd (SeenOrAdd id t0 p)))).
Proof.
  intros Hb Hw Hf p Hacc Hl. apply Forall_app in Hf as [Hf Hf0]. apply Forall_inv in Hf0. simpl in Hf0.
  assert (rf_ok (New b w)) as Hok by (by apply protector_New_ok).
  destruct (run_calls_ok l0 (New b w) Hok Hf) as [Hp Hh]. fold p in Hp, Hh. simpl in Hh.
  apply run_remembered with (u := t0 + horizon (New b w)).
  - by apply seen_or_add_ok.
  - rewrite <- Hh. by apply seen_or_add_remembers.
  - done.
Qed.

Lemma accepted_at_most_once_witness :
  let c k := CallSeen [k] (1000 * Second) in
  fst (SeenOrAdd [7] (1000 * Second) (snd (run_calls [c 7] (New 0 0)))) = false
  /\ Forall2 (fun c a => call_id c = [7] -> a = true)
      [CallAdd [7] (1590 * Second); CallAdd [8] (1500 * Second); CallAdd [7] (900 * Second)]
      (fst (run_calls [CallAdd [7] (1590 * Second); CallAdd [8] (1500 * Second); CallAdd [7] (900 * Second)]
        (snd (SeenOrAdd [7] (1000 * Second) (snd (run_calls [c 7] (New 0 0))))))).
Proof.
  split; [vm_compute; reflexivity|].
  apply (accepted_at_most_once 0 0 [CallSeen [7] (1000 * Second)] [7] (1000 * Second)).
  - decided.
  - decided.
  - decided.
  - vm_compute; reflexivity.
  - decided.
Defined.

(** On a clock that does not run backwards the filter forgets: if every SeenOrAdd of an
    identifier lies at least one whole window in the past, the identifier is not in memory. *)
Theorem forgotten_after_window b w l id t :
  b <= max_i64 -> w <= max_i64 ->
  StronglySorted Z.le (call_time <$> l) -> Forall (fun c => zeroTime < call_time c) l ->
  (forall t', CallAdd id t' ∈ l -> t' + window (New b w) <= t) ->
  fst (Seen id t (snd (run_calls l (New b w)))) = false.
Proof.
  intros Hb Hw Hs Hf Hn. destruct (run_gone id t l (New b w)) as [Hg Hp]; try done.
  - by apply protector_New_ok.
  - apply New_gone.
  - eapply Forall_impl; [exact Hf|]. simpl. lia.
  - unfold Seen. by apply (gone_miss id t t).
Qed.

Lemma forgotten_after_window_witness :
  fst (Seen [7] (1600 * Second) (snd (run_calls
    [CallAdd [7] (1000 * Second); CallAdd [8] (1300 * Second); CallSeen [7] (1590 * Second)] (New 0 0)))) = false.
Proof.
  apply forgotten_after_window.
  - decided.
  - decided.
  - repeat constructor; decided.
  - decided.
  - intros t' H. repeat (apply elem_of_cons in H as [H|H]); simplify_eq. 2: set_solver. decided.
Defined.
