(* ===== verification/AntiFlood.v ===== *)
(** * Anti-flood guard ([core/proximity/anti_flood_guard])

    Token buckets on float64: one for the node and one per sender.  A call is paid from both
    or from neither, and no bucket is ever overdrawn. *)

From S2P Require Import Prelude Float64.

Record tokenBucket := mkBucket {
  tb_capacity : float;
  tb_rate : float;
  tb_tokens : float;
  tb_last : Z;
}.

(** Go's zero value, what a missing map key reads as. *)
Definition zeroBucket : tokenBucket := mkBucket 0 0 0 zeroTime.

Definition newBucket (capacity rate : float) (now : Z) : tokenBucket :=
  mkBucket capacity rate capacity now.

Definition refill (now : Z) (b : tokenBucket) : tokenBucket :=
  let last := if IsZero (tb_last b) then now else tb_last b in
  let dt := Seconds (TimeSub now last) in
  if fgt dt 0 then
    let tokens := (tb_tokens b + dt * tb_rate b)%float in
    mkBucket (tb_capacity b) (tb_rate b) (if fgt tokens (tb_capacity b) then tb_capacity b else tokens) now
  else mkBucket (tb_capacity b) (tb_rate b) (tb_tokens b) last.

Definition can (cost : float) (b : tokenBucket) : bool := fge (tb_tokens b) cost.

Definition consume (cost : float) (b : tokenBucket) : tokenBucket :=
  mkBucket (tb_capacity b) (tb_rate b) (tb_tokens b - cost) (tb_last b).

Record Guard := mkGuard {
  g_global : tokenBucket;
  g_per : gmap (list Z) tokenBucket;
  g_perCapacity : float;
  g_perRate : float;
}.

Record Options := mkOptions {
  o_GlobalCapacity : float;
  o_GlobalRate : float;
  o_PerCapacity : float;
  o_PerRate : float;
}.

(** [if x <= 0 { x = d }] *)
Definition default_if_le0 (x d : float) : float := if (x <=? 0)%float then d else x.

Definition New (o : Options) (now : Z) : Guard :=
  mkGuard
    (newBucket (default_if_le0 (o_GlobalCapacity o) 60) (default_if_le0 (o_GlobalRate o) 30) now)
    ∅ (default_if_le0 (o_PerCapacity o) 10) (default_if_le0 (o_PerRate o) 4).

(** The sender's bucket, made on first use. *)
Definition sender_bucket (sender : list Z) (now : Z) (g : Guard) : tokenBucket :=
  let b := default zeroBucket (g_per g !! sender) in
  if (tb_capacity b =? 0)%float && (tb_rate b =? 0)%float
  then newBucket (g_perCapacity g) (g_perRate g) now else b.

Definition Allow (sender : list Z) (now : Z) (cost : float) (g : Guard) : bool * Guard :=
  let cost := default_if_le0 cost 1 in
  let b := sender_bucket sender now g in
  let global := refill now (g_global g) in
  let b := refill now b in
  if negb (can cost global) || negb (can cost b) then
    (false, mkGuard global (<[sender := b]> (g_per g)) (g_perCapacity g) (g_perRate g))
  else
    (true, mkGuard (consume cost global) (<[sender := consume cost b]> (g_per g)) (g_perCapacity g) (g_perRate g)).

Definition AllowGlobal (now : Z) (cost : float) (g : Guard) : bool * Guard :=
  let cost := default_if_le0 cost 1 in
  let global := refill now (g_global g) in
  if negb (can cost global) then (false, mkGuard global (g_per g) (g_perCapacity g) (g_perRate g))
  else (true, mkGuard (consume cost global) (g_per g) (g_perCapacity g) (g_perRate g)).

(** ** The invariant *)

(** A bucket with a positive rate and capacity that is not overdrawn. *)
Record bucket_ok (b : tokenBucket) : Prop := {
  bk_capacity : fpos (tb_capacity b);
  bk_rate : fpos (tb_rate b);
  bk_tokens : fge0 (tb_tokens b);
}.

Record guard_ok (g : Guard) : Prop := {
  gk_global : bucket_ok (g_global g);
  gk_per : map_Forall (fun _ b => bucket_ok b) (g_per g);
  gk_capacity : fpos (g_perCapacity g);
  gk_rate : fpos (g_perRate g);
}.

Lemma fgt0_fpos x : fgt x 0 = true -> fpos x.
Proof. done. Qed.

Lemma newBucket_ok c r now : fpos c -> fpos r -> bucket_ok (newBucket c r now).
Proof. intros Hc Hr. split; simpl; [done..|]. by apply fnn_fge0, fpos_fnn. Qed.

Lemma refill_ok now b : bucket_ok b -> bucket_ok (refill now b).
Proof.
  intros [Hc Hr Ht]. unfold refill.
  set (dt := Seconds _). destruct (fgt dt 0) eqn:E; [|by split].
  split; cbn [tb_capacity tb_rate tb_tokens]; [done..|].
  case_match; [by apply fnn_fge0, fpos_fnn|].
  apply fadd_ge0; [done|]. by apply fmul_ge0; apply fnn_fge0, fpos_fnn.
Qed.

(** A cost is positive or fails every comparison. *)
Lemma cost_pos c b : can (default_if_le0 c 1) b = true -> fpos (default_if_le0 c 1).
Proof.
  unfold default_if_le0. destruct (c <=? 0)%float eqn:E; [reflexivity|]. unfold can, fge. intros H.
  destruct (sf_nan (Prim2SF c)) eqn:N.
  - rewrite FloatAxioms.leb_spec in H. unfold SpecFloat.SFleb in H. by destruct (Prim2SF c).
  - unfold fpos. destruct (0 <? c)%float eqn:E'; [done|].
    by rewrite (ltb_false_leb 0 c) in E.
Qed.

Lemma consume_ok c b :
  bucket_ok b -> can (default_if_le0 c 1) b = true -> bucket_ok (consume (default_if_le0 c 1) b).
Proof.
  intros [Hc Hr Ht] H. split; [done..|]. simpl. apply fsub_not_neg; [|done]. by eapply cost_pos.
Qed.

Lemma sender_bucket_ok sender now g : guard_ok g -> bucket_ok (sender_bucket sender now g).
Proof.
  intros [Hg Hp Hc Hr]. unfold sender_bucket.
  destruct (_ && _) eqn:E; [by apply newBucket_ok|].
  destruct (g_per g !! sender) as [b|] eqn:Eb; [by apply (Hp sender)|done].
Qed.

Lemma Allow_ok sender now cost g : guard_ok g -> guard_ok (snd (Allow sender now cost g)).
Proof.
  intros Hg. pose proof (sender_bucket_ok sender now g Hg) as Hb.
  destruct Hg as [Hgl Hp Hc Hr]. unfold Allow. apply (refill_ok now) in Hb, Hgl.
  destruct (can _ (refill now (g_global g))) eqn:E1, (can _ (refill now (sender_bucket _ _ _))) eqn:E2;
    split; try done; simpl; try (by apply consume_ok); by apply map_Forall_insert_2; try apply consume_ok.
Qed.

Lemma AllowGlobal_ok now cost g : guard_ok g -> guard_ok (snd (AllowGlobal now cost g)).
Proof.
  intros [Hgl Hp Hc Hr]. unfold AllowGlobal. apply (refill_ok now) in Hgl.
  destruct (can _ _) eqn:E; split; try done. by apply consume_ok.
Qed.

Definition not_nan (x : float) : Prop := sf_nan (Prim2SF x) = false.

Lemma default_if_le0_pos x d : not_nan x -> fpos d -> fpos (default_if_le0 x d).
Proof.
  intros Hx Hd. unfold default_if_le0, fpos in *. destruct (x <=? 0)%float eqn:E; [done|].
  destruct (0 <? x)%float eqn:E'; [done|]. by rewrite (ltb_false_leb 0 x) in E.
Qed.

Lemma guard_New_ok o now :
  Forall not_nan [o_GlobalCapacity o; o_GlobalRate o; o_PerCapacity o; o_PerRate o] -> guard_ok (New o now).
Proof.
  rewrite !Forall_cons. intros (H1 & H2 & H3 & H4 & _).
  split; simpl; try (apply newBucket_ok); try (by apply default_if_le0_pos). apply map_Forall_empty.
Qed.

(** ** Runs *)

Inductive request :=
  | ReqAllow (sender : list Z) (now : Z) (cost : float)
  | ReqGlobal (now : Z) (cost : float).

Definition serve (r : request) (g : Guard) : bool * Guard :=
  match r with ReqAllow s t c => Allow s t c g | ReqGlobal t c => AllowGlobal t c g end.

Definition serve_all (rs : list request) (g : Guard) : Guard := fold_left (fun g r => snd (serve r g)) rs g.

Lemma serve_all_ok rs g : guard_ok g -> guard_ok (serve_all rs g).
Proof.
  revert g. induction rs as [|r rs IH]; intros g Hg; [done|]. apply IH.
  destruct r; [by apply Allow_ok|by apply AllowGlobal_ok].
Qed.

(** In every run from [New], with whatever costs, senders and clock readings, no bucket
    is ever overdrawn: the node's and every sender's token count is never below zero. *)
Theorem buckets_never_overdrawn o now rs :
  Forall not_nan [o_GlobalCapacity o; o_GlobalRate o; o_PerCapacity o; o_PerRate o] ->
  let g := serve_all rs (New o now) in
  (tb_tokens (g_global g) <? 0)%float = false
  /\ forall sender b, g_per g !! sender = Some b -> (tb_tokens b <? 0)%float = false.
Proof.
  intros Ho g. destruct (serve_all_ok rs _ (guard_New_ok o now Ho)) as [Hg Hp _ _].
  split; [apply Hg|]. intros sender b Hb. by apply (Hp sender b Hb).
Qed.

Lemma buckets_never_overdrawn_witness :
  let o := mkOptions 3 1 2 0.5 in
  let rs := [ReqAllow [1] 0 2; ReqAllow [1] 500000000 1; ReqGlobal 600000000 PrimFloat.nan; ReqAllow [2] 5000000000 (-1)] in
  (tb_tokens (g_global (serve_all rs (New o 0))) <? 0)%float = false
  /\ forall sender b, g_per (serve_all rs (New o 0)) !! sender = Some b -> (tb_tokens b <? 0)%float = false.
Proof. apply buckets_never_overdrawn. repeat constructor. Defined.

(** [Allow] charges both buckets or neither.  It answers true exactly when the refilled
    node bucket and the refilled sender bucket both cover the cost; both are then reduced by
    it.  A refused sender keeps its tokens and takes none of the node's, and no call touches
    another sender's bucket. *)
Theorem Allow_charges_both_or_neither sender now cost g :
  let c := default_if_le0 cost 1 in
  let G := refill now (g_global g) in
  let B := refill now (sender_bucket sender now g) in
  let '(ok, g') := Allow sender now cost g in
  (ok = true <-> (c <=? tb_tokens G)%float = true /\ (c <=? tb_tokens B)%float = true)
  /\ (exists b', g_per g' !! sender = Some b'
      /\ tb_tokens b' = (if ok then tb_tokens B - c else tb_tokens B)%float
      /\ tb_tokens (g_global g') = (if ok then tb_tokens G - c else tb_tokens G)%float)
  /\ (forall other, other <> sender -> g_per g' !! other = g_per g !! other).
Proof.
  cbv zeta. unfold Allow, can, fge.
  destruct (_ <=? tb_tokens (refill now (g_global g)))%float,
    (_ <=? tb_tokens (refill now (sender_bucket sender now g)))%float; simpl;
    (split; [intuition congruence|]); (split; [eexists; rewrite lookup_insert_eq; eauto|]);
    intros other Hne; by rewrite lookup_insert_ne.
Qed.
