(* ===== verification/Scoring.v ===== *)
(** * Relay scoring ([core/proximity/relay_scoring])

    Per-neighbour counters, a short quarantine for neighbours that send invalid or rate
    limited frames, and a float64 score.  The counters are uint32 and wrap around. *)

From S2P Require Import Prelude Float64.
#[local] Set Warnings "-inexact-float".

Record Stats := mkStats {
  st_Neighbor : list Z;
  st_SeenCount : Z;
  st_LastSeenAt : Z;
  st_FirstSeenAt : Z;
  st_ForwardOK : Z;
  st_ForwardFail : Z;
  st_InvalidFrames : Z;
  st_RateLimited : Z;
  st_windowStart : Z;
  st_invalidInWindow : Z;
  st_limitedInWindow : Z;
  st_QuarantineUntil : Z;
  st_lastPenaltyExtend : Z;
}.

(** [Stats{Neighbor: id}] *)
Definition fresh_stats (id : list Z) : Stats :=
  mkStats id 0 zeroTime zeroTime 0 0 0 0 zeroTime 0 0 zeroTime zeroTime.

(** The scorer is its map of statistics. *)
Abbreviation Scorer := (gmap (list Z) Stats) (only parsing).

Definition New : Scorer := ∅.

Definition with_counts (st : Stats) (ok fail invalid limited : Z) : Stats :=
  mkStats (st_Neighbor st) (st_SeenCount st) (st_LastSeenAt st) (st_FirstSeenAt st)
    ok fail invalid limited (st_windowStart st) (st_invalidInWindow st) (st_limitedInWindow st)
    (st_QuarantineUntil st) (st_lastPenaltyExtend st).

Definition OnSeen (id : list Z) (now : Z) (s : Scorer) : Scorer :=
  let st := match s !! id with
    | Some st => st
    | None => mkStats id 0 zeroTime now 0 0 0 0 zeroTime 0 0 zeroTime zeroTime
    end in
  <[id := mkStats (st_Neighbor st) (u32 (st_SeenCount st + 1)) now (st_FirstSeenAt st)
      (st_ForwardOK st) (st_ForwardFail st) (st_InvalidFrames st) (st_RateLimited st)
      (st_windowStart st) (st_invalidInWindow st) (st_limitedInWindow st)
      (st_QuarantineUntil st) (st_lastPenaltyExtend st)]> s.

(** The entry of [id], allocated on first use. *)
Definition stats_of (id : list Z) (s : Scorer) : Stats := default (fresh_stats id) (s !! id).

Definition OnForwardResult (id : list Z) (ok : bool) (s : Scorer) : Scorer :=
  let st := stats_of id s in
  <[id := if ok
      then with_counts st (u32 (st_ForwardOK st + 1)) (st_ForwardFail st) (st_InvalidFrames st) (st_RateLimited st)
      else with_counts st (st_ForwardOK st) (u32 (st_ForwardFail st + 1)) (st_InvalidFrames st) (st_RateLimited st)]> s.

Definition add_invalid (st : Stats) : Stats :=
  with_counts st (st_ForwardOK st) (st_ForwardFail st) (u32 (st_InvalidFrames st + 1)) (st_RateLimited st).

Definition add_limited (st : Stats) : Stats :=
  with_counts st (st_ForwardOK st) (st_ForwardFail st) (st_InvalidFrames st) (u32 (st_RateLimited st + 1)).

Definition OnInvalid (id : list Z) (s : Scorer) : Scorer := <[id := add_invalid (stats_of id s)]> s.
Definition OnRateLimited (id : list Z) (s : Scorer) : Scorer := <[id := add_limited (stats_of id s)]> s.

Definition with_window (st : Stats) (start invalid limited : Z) : Stats :=
  mkStats (st_Neighbor st) (st_SeenCount st) (st_LastSeenAt st) (st_FirstSeenAt st)
    (st_ForwardOK st) (st_ForwardFail st) (st_InvalidFrames st) (st_RateLimited st)
    start invalid limited (st_QuarantineUntil st) (st_lastPenaltyExtend st).

Definition with_quarantine (st : Stats) (until extend : Z) : Stats :=
  mkStats (st_Neighbor st) (st_SeenCount st) (st_LastSeenAt st) (st_FirstSeenAt st)
    (st_ForwardOK st) (st_ForwardFail st) (st_InvalidFrames st) (st_RateLimited st)
    (st_windowStart st) (st_invalidInWindow st) (st_limitedInWindow st) until extend.

(** The window the event falls in, the event counted. *)
Definition count_event (st : Stats) (now : Z) (invalidEvent : bool) : Stats :=
  let st :=
    if IsZero (st_windowStart st) || (2 * Second <? TimeSub now (st_windowStart st))
    then with_window st now 0 0 else st in
  if invalidEvent
  then with_window st (st_windowStart st) (u32 (st_invalidInWindow st + 1)) (st_limitedInWindow st)
  else with_window st (st_windowStart st) (st_invalidInWindow st) (u32 (st_limitedInWindow st + 1)).

(** The quarantine the window's counts ask for. *)
Definition penalty_dur (st : Stats) : Z :=
  if 6 <=? st_invalidInWindow st then 8 * Second
  else if 3 <=? st_invalidInWindow st then 2 * Second
  else if (120 <=? st_limitedInWindow st) && (1 <=? st_invalidInWindow st) then 2 * Second
  else 0.

Definition maybeQuarantineLocked (st : Stats) (now : Z) (invalidEvent : bool) : Stats :=
  let st := count_event st now invalidEvent in
  let dur := penalty_dur st in
  if dur =? 0 then st
  else
    let until := TimeAdd now dur in
    if After until (st_QuarantineUntil st) then
      if negb (IsZero (st_lastPenaltyExtend st)) && (TimeSub now (st_lastPenaltyExtend st) <? 1 * Second)
      then st
      else with_quarantine st until now
    else st.

Definition OnInvalidAt (id : list Z) (now : Z) (s : Scorer) : Scorer :=
  <[id := maybeQuarantineLocked (add_invalid (stats_of id s)) now true]> s.

Definition OnRateLimitedAt (id : list Z) (now : Z) (s : Scorer) : Scorer :=
  <[id := maybeQuarantineLocked (add_limited (stats_of id s)) now false]> s.

Definition AllowFrom (id : list Z) (now : Z) (s : Scorer) : bool :=
  match s !! id with
  | None => true
  | Some st => if Before now (st_QuarantineUntil st) then false else true
  end.

Definition Snapshot (id : list Z) (s : Scorer) : option Stats := s !! id.

Definition Score (id : list Z) (now : Z) (s : Scorer) : float :=
  match s !! id with
  | None => 0.9%float
  | Some st =>
      let fail := of_Z (st_ForwardFail st) in
      let ok := of_Z (st_ForwardOK st) in
      let invalid := of_Z (st_InvalidFrames st) in
      let limited := of_Z (st_RateLimited st) in
      let reliability := (if fgt (ok + fail) 0 then (ok + 1) / (ok + fail + 2) else 1)%float in
      let penalty := (1 / (1 + 0.8 * invalid + 0.9 * limited))%float in
      let recency :=
        if negb (IsZero (st_LastSeenAt st)) then
          let age := TimeSub now (st_LastSeenAt st) in
          if 0 <? age then (1 / (1 + Seconds age / 60))%float else 1%float
        else 1%float in
      clamp01 (0.9 * reliability * penalty * recency)%float
  end.

(** ** Runs of the scorer's calls *)

Inductive event :=
  | EvSeen (id : list Z) (now : Z)
  | EvForward (id : list Z) (ok : bool)
  | EvInvalid (id : list Z)
  | EvInvalidAt (id : list Z) (now : Z)
  | EvLimited (id : list Z)
  | EvLimitedAt (id : list Z) (now : Z).

Definition apply_event (e : event) (s : Scorer) : Scorer :=
  match e with
  | EvSeen id now => OnSeen id now s
  | EvForward id ok => OnForwardResult id ok s
  | EvInvalid id => OnInvalid id s
  | EvInvalidAt id now => OnInvalidAt id now s
  | EvLimited id => OnRateLimited id s
  | EvLimitedAt id now => OnRateLimitedAt id now s
  end.

(** The latest event is the head of the list. *)
Definition run_events (es : list event) : Scorer := foldr apply_event New es.

(** The clock reading and kind of an event that [maybeQuarantineLocked] sees for [id]. *)
Definition penalised (id : list Z) (e : event) : option (Z * bool) :=
  match e with
  | EvInvalidAt id' now => if decide (id' = id) then Some (now, true) else None
  | EvLimitedAt id' now => if decide (id' = id) then Some (now, false) else None
  | _ => None
  end.

(** The number of events of that kind in [from, to]. *)
Definition count_in (kind : bool) (from to : Z) (l : list (Z * bool)) : Z :=
  Z.of_nat (length (filter (fun e => from <= e.1 <= to /\ e.2 = kind) l)).

(** What earns a quarantine ending with the event at [te]. *)
Definition abuse (te : Z) (l : list (Z * bool)) : Prop :=
  3 <= count_in true (te - 2 * Second) te l
  \/ 1 <= count_in true (te - 2 * Second) te l /\ 120 <= count_in false (te - 2 * Second) te l.

Lemma count_in_cons kind from to e l :
  count_in kind from to l <= count_in kind from to (e :: l).
Proof. unfold count_in. rewrite filter_cons. case_decide; simpl; lia. Qed.

Lemma count_in_hit kind from to t l :
  from <= t <= to -> count_in kind from to ((t, kind) :: l) = count_in kind from to l + 1.
Proof. intros. unfold count_in. rewrite filter_cons_True by done. simpl. lia. Qed.

Lemma count_in_mono kind from to from' to' l :
  Forall (fun e => from <= e.1 <= to -> from' <= e.1 <= to') l ->
  count_in kind from to l <= count_in kind from' to' l.
Proof.
  unfold count_in. induction 1 as [|e l He _ IH]; [done|]. rewrite !filter_cons.
  repeat case_decide; simpl; lia || tauto.
Qed.

Lemma count_in_nonneg kind from to l : 0 <= count_in kind from to l.
Proof. unfold count_in. lia. Qed.

Lemma abuse_cons te e l : abuse te l -> abuse te (e :: l).
Proof.
  pose proof (count_in_cons true (te - 2 * Second) te e l).
  pose proof (count_in_cons false (te - 2 * Second) te e l). unfold abuse. lia.
Qed.

(** The counts of the current window, against the events (latest first): they are real
    events of it. *)
Record window_ok (st : Stats) (l : list (Z * bool)) (t : Z) : Prop := {
  wn_invalid : 0 <= st_invalidInWindow st <= count_in true (st_windowStart st) t l;
  wn_limited : 0 <= st_limitedInWindow st <= count_in false (st_windowStart st) t l;
}.

(** The statistics against the events, latest first, that produced them. *)
Record tracks (st : Stats) (l : list (Z * bool)) : Prop := {
  tr_start : forall t, zeroTime <= t -> Forall (fun e => e.1 <= t) l -> st_windowStart st <= t;
  tr_window : forall t, Forall (fun e => e.1 <= t) l -> window_ok st l t;
  tr_quarantine : st_QuarantineUntil st = zeroTime
    \/ exists te, st_QuarantineUntil st <= te + 8 * Second /\ abuse te l;
}.

Lemma u32_le x : 0 <= x -> 0 <= u32 (x + 1) <= x + 1.
Proof. intros. unfold_ints. split; [apply Z.mod_pos_bound|apply Z.mod_le]; lia. Qed.

(** After the event is counted, the window has at most two seconds and its counts are
    real. *)
Lemma count_event_tracks st l now kind :
  tracks st l -> Forall (fun e => e.1 <= now) l -> zeroTime <= now ->
  let st' := count_event st now kind in
  (forall t, now <= t -> window_ok st' ((now, kind) :: l) t)
  /\ now - 2 * Second <= st_windowStart st' <= now /\ st_QuarantineUntil st' = st_QuarantineUntil st.
Proof.
  intros [Hs Hw _] Hf Hz. cbv zeta. unfold count_event, IsZero.
  set (reset := _ || _). set (st1 := if reset then _ else _).
  assert (now - 2 * Second <= st_windowStart st1 <= now) as Hb.
  { subst st1. destruct reset eqn:E; [simpl; unfold Second; lia|].
    apply orb_false_iff in E as [_ E%Z.ltb_ge]. specialize (Hs now Hz Hf).
    unfold TimeSub, Second in *. unfold_ints. lia. }
  assert (forall t, now <= t -> window_ok st1 l t) as Hc.
  { intros t Ht. subst st1. destruct reset; [split; simpl; split; try done; apply count_in_nonneg|].
    apply Hw. eapply Forall_impl; [exact Hf|]. simpl. lia. }
  assert (st_QuarantineUntil st1 = st_QuarantineUntil st) as Hq by (subst st1; by destruct reset).
  clearbody st1. destruct kind; (split; [|done]); intros t Ht; destruct (Hc t Ht) as [Hi Hl];
    pose proof (count_in_cons true (st_windowStart st1) t (now, false) l);
    pose proof (count_in_cons false (st_windowStart st1) t (now, true) l);
    split; simpl; rewrite ?count_in_hit by lia; try lia.
  - pose proof (u32_le (st_invalidInWindow st1)). lia.
  - pose proof (u32_le (st_limitedInWindow st1)). lia.
Qed.

Lemma penalty_abuse st l now :
  window_ok st l now -> now - 2 * Second <= st_windowStart st -> penalty_dur st <> 0 -> abuse now l.
Proof.
  intros [Hi Hl] Hw Hp.
  assert (forall k, count_in k (st_windowStart st) now l <= count_in k (now - 2 * Second) now l) as Hm.
  { intros k. apply count_in_mono, Forall_forall. lia. }
  pose proof (Hm true). pose proof (Hm false). unfold abuse, penalty_dur in *.
  destruct (Z.leb_spec 6 (st_invalidInWindow st)); [lia|].
  destruct (Z.leb_spec 3 (st_invalidInWindow st)); [lia|].
  destruct (Z.leb_spec 120 (st_limitedInWindow st)), (Z.leb_spec 1 (st_invalidInWindow st)); simpl in *; lia.
Qed.

Lemma penalty_dur_range st : 0 <= penalty_dur st <= 8 * Second.
Proof. unfold penalty_dur, Second. repeat case_match; lia. Qed.

(** The step is one of: count only, or count and set the quarantine. *)
Lemma maybeQuarantine_cases st now kind :
  let st' := count_event st now kind in
  maybeQuarantineLocked st now kind = st'
  \/ penalty_dur st' <> 0 /\ st_QuarantineUntil st' < now + penalty_dur st'
     /\ maybeQuarantineLocked st now kind = with_quarantine st' (now + penalty_dur st') now.
Proof.
  cbv zeta. unfold maybeQuarantineLocked, After, TimeAdd.
  destruct (Z.eqb_spec (penalty_dur (count_event st now kind)) 0); [by left|].
  destruct (Z.ltb_spec (st_QuarantineUntil (count_event st now kind))
    (now + penalty_dur (count_event st now kind))); [|by left].
  destruct (_ && _); [by left|by right].
Qed.

Lemma maybeQuarantine_tracks st l now kind :
  tracks st l -> Forall (fun e => e.1 <= now) l -> zeroTime <= now ->
  tracks (maybeQuarantineLocked st now kind) ((now, kind) :: l).
Proof.
  intros Ht Hf Hz. destruct (count_event_tracks st l now kind Ht Hf Hz) as (Hw & Hs & Hq).
  destruct Ht as [_ _ Hold].
  assert (st_QuarantineUntil (count_event st now kind) = zeroTime \/
    exists te, st_QuarantineUntil (count_event st now kind) <= te + 8 * Second /\ abuse te ((now, kind) :: l)) as Hold'.
  { rewrite Hq. destruct Hold as [->|(te & H1 & H2)]; [by left|right]. exists te. auto using abuse_cons. }
  assert (forall t, Forall (fun e => e.1 <= t) ((now, kind) :: l) -> now <= t) as Hnow.
  { intros t H%Forall_inv. done. }
  destruct (maybeQuarantine_cases st now kind) as [-> | (Hp & _ & ->)].
  - split; [|by intros t H%Hnow; apply Hw|done]. intros t _ H%Hnow. lia.
  - split. { intros t _ H%Hnow. simpl. lia. }
    + intros t H%Hnow. destruct (Hw t H). by split.
    + right. exists now. simpl. pose proof (penalty_dur_range (count_event st now kind)).
      split; [lia|]. eapply penalty_abuse; [by apply Hw| lia|done].
Qed.

(** ** The event runs against the scorer's map *)

(** The penalised events of [id], latest first. *)
Definition history (id : list Z) (es : list event) : list (Z * bool) := omap (penalised id) es.

(** Only the penalty fields matter. *)
Lemma tracks_ext st st' l :
  st_windowStart st' = st_windowStart st -> st_invalidInWindow st' = st_invalidInWindow st ->
  st_limitedInWindow st' = st_limitedInWindow st -> st_QuarantineUntil st' = st_QuarantineUntil st ->
  tracks st l -> tracks st' l.
Proof.
  intros E1 E2 E3 E4 [H1 H2 H3]. split; rewrite ?E1, ?E4; [done| |done].
  intros t Ht. destruct (H2 t Ht). by split; rewrite ?E1, ?E2, ?E3.
Qed.

Lemma with_counts_tracks st l a b c d : tracks st l -> tracks (with_counts st a b c d) l.
Proof. by apply tracks_ext. Qed.

Lemma fresh_tracks id seen : tracks (mkStats id 0 zeroTime seen 0 0 0 0 zeroTime 0 0 zeroTime zeroTime) [].
Proof. split; [by simpl|by split|by left]. Qed.

Definition latest_first (l : list (Z * bool)) : Prop :=
  StronglySorted (fun a b => b.1 <= a.1) l /\ Forall (fun e => zeroTime <= e.1) l.

Definition entry_tracks (o : option Stats) (l : list (Z * bool)) : Prop :=
  match o with Some st => tracks st l | None => l = [] end.

Lemma entry_stats_of id s l : entry_tracks (s !! id) l -> tracks (stats_of id s) l.
Proof. unfold stats_of. destruct (s !! id); simpl; [done|]. intros ->. apply fresh_tracks. Qed.

Lemma apply_event_other id e s l :
  entry_tracks (s !! id) l -> penalised id e = None -> entry_tracks (apply_event e s !! id) l.
Proof.
  intros Hs He. destruct e as [id' now|id' ok|id'|id' now|id'|id' now]; simpl in *;
    unfold OnSeen, OnForwardResult, OnInvalid, OnRateLimited, OnInvalidAt, OnRateLimitedAt;
    (destruct (decide (id' = id)) as [->|Hne]; [|by rewrite lookup_insert_ne]); try done;
    rewrite lookup_insert_eq; simpl.
  - destruct (s !! id) as [st|]; simpl in *; [|subst l].
    + by apply (tracks_ext st).
    + by apply (tracks_ext (fresh_stats id)), fresh_tracks.
  - destruct ok; by apply with_counts_tracks, entry_stats_of.
  - by apply with_counts_tracks, entry_stats_of.
  - by apply with_counts_tracks, entry_stats_of.
Qed.

Lemma apply_event_penalised id e s l now kind :
  entry_tracks (s !! id) l -> penalised id e = Some (now, kind) ->
  Forall (fun e => e.1 <= now) l -> zeroTime <= now ->
  entry_tracks (apply_event e s !! id) ((now, kind) :: l).
Proof.
  intros Hs He Hf Hz. destruct e as [id' now'|id' ok|id'|id' now'|id'|id' now']; simpl in *; try done;
    case_decide; simplify_eq; unfold OnInvalidAt, OnRateLimitedAt; rewrite lookup_insert_eq; simpl;
    apply maybeQuarantine_tracks; try done; by apply with_counts_tracks, entry_stats_of.
Qed.

Lemma run_events_tracks id es :
  latest_first (history id es) -> entry_tracks (run_events es !! id) (history id es).
Proof.
  induction es as [|e es IH]; intros [Hs Hz]; [done|]. simpl in *.
  destruct (penalised id e) as [[now kind]|] eqn:E.
  - apply StronglySorted_inv in Hs as [Hs Hf]. apply Forall_cons in Hz as [Hz0 Hz].
    apply apply_event_penalised; try done. by apply IH.
  - apply apply_event_other; [|done]. by apply IH.
Qed.

(** Whatever calls are made about whatever neighbours, if at time [t] frames from [id]
    are refused, then less than eight seconds before there was a moment whose preceding two
    seconds hold three invalid frames of [id], or one invalid frame and 120 rate-limited
    ones: no neighbour is quarantined for less, nor longer than eight seconds after. *)
Theorem quarantine_needs_abuse id es t :
  latest_first (history id es) -> zeroTime <= t ->
  AllowFrom id t (run_events es) = false ->
  exists te, t < te + 8 * Second /\ abuse te (history id es).
Proof.
  intros Hl Ht. pose proof (run_events_tracks id es Hl) as H. unfold AllowFrom, Before.
  destruct (run_events es !! id) as [st|]; [|done]. simpl in H.
  destruct (Z.ltb_spec t (st_QuarantineUntil st)) as [Hlt|]; [|done]. intros _.
  destruct (tr_quarantine _ _ H) as [Hq|(te & H1 & H2)]; [lia|]. exists te. split; [lia|done].
Qed.

Lemma quarantine_needs_abuse_witness :
  exists te, 2100 * Millisecond < te + 8 * Second
    /\ abuse te (history [5] [EvInvalidAt [5] (1200 * Millisecond); EvSeen [5] 7;
         EvInvalidAt [5] (1100 * Millisecond); EvInvalidAt [6] 8; EvInvalidAt [5] (1000 * Millisecond)]).
Proof.
  apply quarantine_needs_abuse.
  - split; simpl; repeat constructor; decided.
  - decided.
  - vm_compute. reflexivity.
Defined.

(** ** Monotonicity: no call lifts or shortens a quarantine *)

Lemma quarantine_grows st now kind :
  st_QuarantineUntil st <= st_QuarantineUntil (maybeQuarantineLocked st now kind).
Proof.
  assert (st_QuarantineUntil (count_event st now kind) = st_QuarantineUntil st) as Hq.
  { unfold count_event. destruct (_ || _), kind; done. }
  destruct (maybeQuarantine_cases st now kind) as [-> | (_ & H & ->)]; simpl; lia.
Qed.

(** No call lifts or shortens a quarantine: while frames of a neighbour are refused at
    a time, they stay refused at that time after any further calls. *)
Theorem quarantine_is_kept id t s es :
  AllowFrom id t s = false -> AllowFrom id t (foldr apply_event s es) = false.
Proof.
  intros H. induction es as [|e es IH]; [done|]. simpl. revert IH. generalize (foldr apply_event s es).
  clear. intros s. unfold AllowFrom, Before.
  destruct (s !! id) as [st|] eqn:E; [|done]. destruct (Z.ltb_spec t (st_QuarantineUntil st)) as [Hlt|]; [|done].
  intros _.
  assert (exists st', apply_event e s !! id = Some st' /\ st_QuarantineUntil st <= st_QuarantineUntil st')
    as (st' & -> & Hle); [|by destruct (Z.ltb_spec t (st_QuarantineUntil st')); [|lia]].
  destruct e as [id' now|id' ok|id'|id' now|id'|id' now]; simpl;
    unfold OnSeen, OnForwardResult, OnInvalid, OnRateLimited, OnInvalidAt, OnRateLimitedAt, stats_of;
    (destruct (decide (id' = id)) as [->|Hne]; [|rewrite lookup_insert_ne by done; eauto with lia]);
    rewrite lookup_insert_eq, E; eexists; (split; [reflexivity|]); simpl; try lia.
  - by destruct ok.
  - apply (quarantine_grows (add_invalid st)).
  - apply (quarantine_grows (add_limited st)).
Qed.

Lemma quarantine_is_kept_witness :
  let bad k := EvInvalidAt [5] (k * Millisecond) in
  AllowFrom [5] (1500 * Millisecond)
    (foldr apply_event (run_events [bad 1200; bad 1100; bad 1000]) [EvForward [5] true; EvSeen [5] 0; bad 90]) = false.
Proof. apply quarantine_is_kept. vm_compute. reflexivity. Defined.
