(* ===== verification/Gossip.v ===== *)
(** * Forwarding decisions ([core/proximity/routing_engine], [core/proximity/gossip_controller])

    The routing engine turns a frame's hop count, remaining life and its sender's score into
    a probability; the gossip controller draws a coin and a delay.  The engine sees the
    scorer through the [NeighborScorer] interface. *)

From S2P Require Import Prelude Float64 Scoring.
#[local] Set Warnings "-inexact-float".

(** [routing_engine.NeighborScorer] *)
Class NeighborScorer (S : Type) := Score_of : list Z -> Z -> S -> float.
#[export] Instance scorer_neighbor_scorer : NeighborScorer (gmap (list Z) Stats) := Score.

Record Input := mkInput {
  in_From : list Z;
  in_Hop : Z;
  in_MaxHop : Z;
  in_ExpiresAt : Z;
  in_Now : Z;
  in_HasFrom : bool;
  in_RateLimited : bool;
}.

Record Engine := mkEngine {
  e_BaseProb : float;
  e_MaxJitter : Z;
  e_MinTTLRemain : Z;
}.

Definition NewEngine : Engine := mkEngine 0.75 (650 * Millisecond) (3 * Second).

(** [h := float64(in.Hop) / float64(in.MaxHop)], at most one. *)
Definition hop_share (i : Input) : float :=
  let h := (of_Z (in_Hop i) / of_Z (in_MaxHop i))%float in if fgt h 1 then 1%float else h.

Section probability.
Context {S} `{NeighborScorer S}.

(** [Probability]; [scorer] is [None] for a nil scorer. *)
Definition Probability (e : Engine) (i : Input) (scorer : option S) : float :=
  if negb (Before (in_Now i) (in_ExpiresAt i)) then 0%float
  else
    let ttlRemain := TimeSub (in_ExpiresAt i) (in_Now i) in
    if ttlRemain <? e_MinTTLRemain e then 0.10%float
    else
      let p := e_BaseProb e in
      let p := if 0 <? in_MaxHop i then (p * (1 - 0.55 * hop_share i))%float else p in
      let p :=
        match scorer with
        | Some s => if in_HasFrom i then (p * (0.05 + 0.95 * Score_of (in_From i) (in_Now i) s))%float else (p * 0.6)%float
        | None => (p * 0.6)%float
        end in
      let p := if in_RateLimited i then (p * 0.2)%float else p in
      clamp01 p.
End probability.

Definition JitterMax (e : Engine) : Z := e_MaxJitter e.

Record Decision := mkDecision {
  d_Forward : bool;
  d_Delay : Z;
}.

(** One draw of the controller's source: what [Float64] answers and the 63 random bits that
    [Int63n] reduces. *)
Record draw := mkDraw {
  dr_float : float;
  dr_bits : Z;
}.

(** [Int63n(int64(maxDelay) + 1)]: any value below the bound.  (The bound overflows, and
    Int63n panics, only for the largest duration.) *)
Definition jitter (maxDelay : Z) (d : draw) : Z :=
  if maxDelay <=? 0 then 0 else Z.modulo (dr_bits d) (i64 (maxDelay + 1)).

Definition Decide (prob : float) (maxDelay : Z) (d : draw) : Decision :=
  if (prob <=? 0)%float then mkDecision false 0
  else if fge prob 1 then mkDecision true (jitter maxDelay d)
  else if fgt (dr_float d) prob then mkDecision false 0
  else mkDecision true (jitter maxDelay d).

(** ** The decision is within bounds *)

Lemma jitter_range maxDelay d : maxDelay < max_i64 -> 0 <= jitter maxDelay d <= Z.max 0 maxDelay.
Proof.
  intros H. unfold jitter. destruct (Z.leb_spec maxDelay 0); [lia|].
  rewrite i64_id by (unfold_ints; lia).
  pose proof (Z.mod_pos_bound (dr_bits d) (maxDelay + 1)). lia.
Qed.

Lemma Probability_clamped {S} `{NeighborScorer S} e i (s : option S) :
  (Probability e i s <? 0)%float = false /\ (1 <? Probability e i s)%float = false.
Proof. unfold Probability. repeat case_match; try done; apply clamp01_bounds. Qed.

Lemma Decide_delay prob maxDelay d :
  maxDelay < max_i64 -> 0 <= d_Delay (Decide prob maxDelay d) <= Z.max 0 maxDelay.
Proof.
  intros H. pose proof (jitter_range maxDelay d H).
  unfold Decide. repeat case_match; simpl; lia.
Qed.

(** For every engine, frame, sender score and random draw: the probability lies in
    [0, 1]; an expired frame is never forwarded; one whose remaining life is below the
    engine's minimum is forwarded exactly when the draw is at most 0.10; and a forwarded
    frame is delayed by at least nothing and at most the engine's jitter. *)
Theorem gossip_decision {S} `{NeighborScorer S} e i (s : option S) d :
  e_MaxJitter e < max_i64 ->
  let p := Probability e i s in
  let v := Decide p (JitterMax e) d in
  (p <? 0)%float = false /\ (1 <? p)%float = false
  /\ (in_ExpiresAt i <= in_Now i -> d_Forward v = false)
  /\ (in_Now i < in_ExpiresAt i -> TimeSub (in_ExpiresAt i) (in_Now i) < e_MinTTLRemain e ->
      (d_Forward v = true <-> (0.10 <? dr_float d)%float = false))
  /\ 0 <= d_Delay v <= Z.max 0 (e_MaxJitter e).
Proof.
  intros Hj p v. split_and!.
  - apply Probability_clamped.
  - apply Probability_clamped.
  - intros Hx. unfold v, p, Probability, Before.
    destruct (Z.ltb_spec (in_Now i) (in_ExpiresAt i)); [lia|done].
  - intros Hx Ht. unfold v, p, Probability, Before.
    destruct (Z.ltb_spec (in_Now i) (in_ExpiresAt i)); [|lia].
    destruct (Z.ltb_spec (TimeSub (in_ExpiresAt i) (in_Now i)) (e_MinTTLRemain e)); [|lia].
    unfold Decide. simpl negb. cbv iota. change ((0.1 <=? 0)%float) with false.
    change (fge 0.1 1) with false. cbv iota. unfold fgt. by destruct (0.1 <? dr_float d)%float.
  - by apply Decide_delay.
  - by apply Decide_delay.
Qed.

Lemma gossip_decision_witness :
  let e := NewEngine in
  let i := mkInput [1] 3 8 (10 * Second) (8 * Second) true false in
  let p := Probability e i (Some (∅ : gmap (list Z) Stats)) in
  let v := Decide p (JitterMax e) (mkDraw 0.05 1000000007) in
  (p <? 0)%float = false /\ (1 <? p)%float = false
  /\ (in_ExpiresAt i <= in_Now i -> d_Forward v = false)
  /\ (in_Now i < in_ExpiresAt i -> TimeSub (in_ExpiresAt i) (in_Now i) < e_MinTTLRemain e ->
      (d_Forward v = true <-> (0.10 <? 0.05)%float = false))
  /\ 0 <= d_Delay v <= Z.max 0 (e_MaxJitter e).
Proof.
  apply (gossip_decision NewEngine (mkInput [1] 3 8 (10 * Second) (8 * Second) true false)
    (Some (∅ : gmap (list Z) Stats)) (mkDraw 0.05 1000000007)). decided.
Defined.
