(* ===== verification/Sync.v ===== *)
(** * Inventory, want and cover frames ([core/proximity/partition_sync])

    The anti-entropy frames: an inventory lists message identifiers with their expiry, a
    want asks for some of them, a cover frame is noise. *)

From S2P Require Import Prelude Message.

Definition KindInventory : Z := 2.
Definition KindWant : Z := 3.
Definition KindCover : Z := 4.

Record InventoryItem := mkItem {
  it_ID : list Z;
  it_ExpiresAt : Z;
}.

Record InventoryFrame := mkInventory {
  iv_Sender : list Z;
  iv_Timestamp : Z;
  iv_Items : list InventoryItem;
}.

Record WantFrame := mkWant {
  wf_Sender : list Z;
  wf_Wants : list (list Z);
}.

Inductive sync_err :=
  | ErrInvTooSmall
  | ErrInvHeader
  | ErrInvTruncated
  | ErrWantTooSmall
  | ErrWantHeader
  | ErrWantTruncated
  | ErrCoverSize.

(** [byte('S'), byte('L'), byte(1), kind] *)
Definition header (kind : Z) : list Z := [83; 76; 1; kind].

Definition is_header (kind : Z) (b : list Z) : bool :=
  (byte_at b 0 =? 83) && (byte_at b 1 =? 76) && (byte_at b 2 =? 1) && (byte_at b 3 =? kind).

Definition item_bytes (i : InventoryItem) : list Z :=
  it_ID i ++ le_put 4 (u32 (Unix (it_ExpiresAt i))).

Definition EncodeInventory (sender : list Z) (now : Z) (items : list InventoryItem) (maxItems : Z) : list Z :=
  let maxItems := if maxItems <=? 0 then 12 else maxItems in
  let items := if maxItems <? Z.of_nat (length items) then slice items 0 maxItems else items in
  header KindInventory ++ sender ++ le_put 4 (u32 (Unix now))
  ++ [u8 (Z.of_nat (length items))] ++ concat (item_bytes <$> items).

Fixpoint decode_items (n : nat) (off : Z) (b : list Z) : list InventoryItem :=
  match n with
  | O => []
  | S n' =>
      mkItem (slice b off (off + 16)) (UnixTime (le_get (slice b (off + 16) (off + 20))))
      :: decode_items n' (off + 20) b
  end.

Definition DecodeInventory (b : list Z) : res sync_err InventoryFrame :=
  if blen b <? 17 then Err ErrInvTooSmall
  else if negb (is_header KindInventory b) then Err ErrInvHeader
  else
    let n := byte_at b 16 in
    let need := 17 + n * 20 in
    if blen b <? need then Err ErrInvTruncated
    else Ok (mkInventory (slice b 4 12) (UnixTime (le_get (slice b 12 16))) (decode_items (Z.to_nat n) 17 b)).

Definition EncodeWant (sender : list Z) (ids : list (list Z)) (max : Z) : list Z :=
  let max := if max <=? 0 then 10 else max in
  let ids := if max <? Z.of_nat (length ids) then slice ids 0 max else ids in
  header KindWant ++ sender ++ [u8 (Z.of_nat (length ids))] ++ concat ids.

Fixpoint decode_ids (n : nat) (off : Z) (b : list Z) : list (list Z) :=
  match n with
  | O => []
  | S n' => slice b off (off + 16) :: decode_ids n' (off + 16) b
  end.

Definition DecodeWant (b : list Z) : res sync_err WantFrame :=
  if blen b <? 13 then Err ErrWantTooSmall
  else if negb (is_header KindWant b) then Err ErrWantHeader
  else
    let n := byte_at b 12 in
    let need := 13 + n * 16 in
    if blen b <? need then Err ErrWantTruncated
    else Ok (mkWant (slice b 4 12) (decode_ids (Z.to_nat n) 13 b)).

(** [noise size] is what [rand.Read] fills the payload with. *)
Definition EncodeCover (noise : Z -> list Z) (now size : Z) : res sync_err (list Z) :=
  if size <? 0 then Err ErrCoverSize
  else
    let size := if 255 <? size then 255 else size in
    Ok (header KindCover ++ le_put 4 (u32 (Unix now)) ++ [u8 size] ++ noise size).

(** ** Round trips *)

Definition wire_item (i : InventoryItem) : Prop :=
  length (it_ID i) = 16%nat /\ exists s, it_ExpiresAt i = UnixTime s /\ is_u32 s.

(** The whole seconds of a time, as the frames carry them. *)
Definition at_seconds (i : InventoryItem) : InventoryItem :=
  mkItem (it_ID i) (UnixTime (u32 (Unix (it_ExpiresAt i)))).

Definition kept {A} (d max : Z) (l : list A) : list A :=
  take (Z.to_nat (if max <=? 0 then d else max)) l.

Lemma kept_slice {A} (l : list A) m :
  0 <= m -> (if m <? Z.of_nat (length l) then slice l 0 m else l) = take (Z.to_nat m) l.
Proof.
  intros Hm. destruct (Z.ltb_spec m (Z.of_nat (length l))).
  - unfold slice. by rewrite Z.sub_0_r.
  - by rewrite take_ge by lia.
Qed.

Lemma slice_prefix {A} (p m r : list A) i j :
  i = Z.of_nat (length p) -> j = i + Z.of_nat (length m) -> slice (p ++ m ++ r) i j = m.
Proof. apply slice_app. Qed.

Lemma item_bytes_length i : length (it_ID i) = 16%nat -> length (item_bytes i) = 20%nat.
Proof. intros H. unfold item_bytes. rewrite length_app, le_put_length, H. done. Qed.

Lemma decode_items_encoded items p off r :
  Forall (fun i => length (it_ID i) = 16%nat) items -> off = Z.of_nat (length p) ->
  decode_items (length items) off (p ++ concat (item_bytes <$> items) ++ r) = at_seconds <$> items.
Proof.
  intros Hi. revert p off. induction Hi as [|i items Hl _ IH]; intros p off Ho; [done|].
  cbn [length decode_items]. rewrite !fmap_cons. cbn [concat].
  pose proof (item_bytes_length i Hl) as Hb.
  f_equal; [|rewrite <- app_assoc, app_assoc; apply IH; rewrite length_app; lia].
  rewrite <- app_assoc. change (item_bytes i) with (it_ID i ++ le_put 4 (u32 (Unix (it_ExpiresAt i)))).
  rewrite <- !app_assoc. unfold at_seconds. f_equal.
  - apply slice_app; [done|]. rewrite Hl. lia.
  - rewrite (app_assoc p), (slice_app (p ++ it_ID i) (le_put 4 (u32 (Unix (it_ExpiresAt i))))).
    + rewrite le_get_put; [done|]. apply (u32_range (Unix (it_ExpiresAt i))).
    + rewrite length_app, Hl. lia.
    + rewrite le_put_length. lia.
Qed.

Lemma decode_ids_encoded ids p off r :
  Forall (fun id => length id = 16%nat) ids -> off = Z.of_nat (length p) ->
  decode_ids (length ids) off (p ++ concat ids ++ r) = ids.
Proof.
  intros Hi. revert p off. induction Hi as [|id ids Hl _ IH]; intros p off Ho; [done|].
  cbn [length decode_ids concat]. rewrite <- app_assoc. f_equal.
  - apply slice_app; [done|]. rewrite Hl. lia.
  - rewrite app_assoc. apply IH. rewrite length_app, Hl. lia.
Qed.


Lemma header_ok kind p : is_header kind (header kind ++ p) = true.
Proof. unfold is_header. simpl. by rewrite Z.eqb_refl. Qed.

(** Decoding an encoded inventory gives the sender, the time at one-second resolution
    and the first [maxItems] items (12 by default) with their expiry at one-second
    resolution, provided at most 255 items are kept: the count is one byte. *)
Theorem inventory_roundtrip sender now items maxItems :
  length sender = 8%nat -> Forall (fun i => length (it_ID i) = 16%nat) items ->
  Z.of_nat (length (kept 12 maxItems items)) <= 255 ->
  DecodeInventory (EncodeInventory sender now items maxItems)
  = Ok (mkInventory sender (UnixTime (u32 (Unix now))) (at_seconds <$> kept 12 maxItems items)).
Proof.
  intros Hs Hi Hn. unfold EncodeInventory. rewrite kept_slice by (case_match; lia).
  fold (kept 12 maxItems items). assert (Forall (fun i => length (it_ID i) = 16%nat) (kept 12 maxItems items)) as Hk
    by (unfold kept; by apply Forall_take).
  revert Hn Hk. generalize (kept 12 maxItems items). clear Hi items. intros items Hn Hi.
  assert (length (concat (item_bytes <$> items)) = (20 * length items)%nat) as Hl.
  { clear Hn. induction Hi as [|i items H _ IH]; [done|]. rewrite fmap_cons. cbn [concat length].
    rewrite length_app, item_bytes_length, IH by done. lia. }
  rewrite u8_id by (unfold_ints; lia).
  set (n := Z.of_nat (length items)) in *. set (body := concat _) in *.
  set (ts := le_put 4 _). assert (length ts = 4%nat) as Ht by apply le_put_length.
  unfold DecodeInventory. rewrite header_ok.
  assert (blen (header KindInventory ++ sender ++ ts ++ [n] ++ body) = 17 + n * 20) as ->.
  { unfold blen. rewrite !length_app, Hs, Ht, Hl. simpl. lia. }
  destruct (Z.ltb_spec (17 + n * 20) 17); [lia|]. cbn [negb].
  assert (byte_at (header KindInventory ++ sender ++ ts ++ [n] ++ body) 16 = n) as ->.
  { rewrite (app_assoc sender), (app_assoc (header _)). apply byte_at_app.
    rewrite !length_app, Hs, Ht. done. }
  destruct (Z.ltb_spec (17 + n * 20) (17 + n * 20)); [lia|]. f_equal. f_equal.
  - apply slice_app; [done|]. by rewrite Hs.
  - rewrite (app_assoc (header _)), (slice_app _ ts).
    + unfold ts. rewrite le_get_put; [done|]. apply (u32_range (Unix now)).
    + rewrite length_app, Hs. done.
    + by rewrite Ht.
  - unfold n. rewrite Nat2Z.id, <- (app_nil_r body). rewrite !app_assoc, <- (app_assoc _ body).
    apply decode_items_encoded; [done|]. rewrite !length_app, Hs, Ht. done.
Qed.

Lemma inventory_roundtrip_witness :
  let id k := replicate 16 k in
  let items := [mkItem (id 1) (10 * Second + 5); mkItem (id 2) (20 * Second); mkItem (id 3) 0] in
  DecodeInventory (EncodeInventory (replicate 8 9) (1500 * Millisecond) items 2)
  = Ok (mkInventory (replicate 8 9) (UnixTime (u32 (Unix (1500 * Millisecond)))) (at_seconds <$> kept 12 2 items)).
Proof. apply inventory_roundtrip; [reflexivity|decided|decided]. Defined.

(** Decoding an encoded want frame gives the sender and the first [max] identifiers (10
    by default), provided at most 255 are kept. *)
Theorem want_roundtrip sender ids max :
  length sender = 8%nat -> Forall (fun id => length id = 16%nat) ids ->
  Z.of_nat (length (kept 10 max ids)) <= 255 ->
  DecodeWant (EncodeWant sender ids max) = Ok (mkWant sender (kept 10 max ids)).
Proof.
  intros Hs Hi Hn. unfold EncodeWant. rewrite kept_slice by (case_match; lia).
  fold (kept 10 max ids). assert (Forall (fun id => length id = 16%nat) (kept 10 max ids)) as Hk
    by (unfold kept; by apply Forall_take).
  revert Hn Hk. generalize (kept 10 max ids). clear Hi ids. intros ids Hn Hi.
  assert (length (concat ids) = (16 * length ids)%nat) as Hl.
  { clear Hn. induction Hi as [|id ids H _ IH]; [done|]. cbn [concat length].
    rewrite length_app, H, IH. lia. }
  rewrite u8_id by (unfold_ints; lia). set (n := Z.of_nat (length ids)) in *.
  unfold DecodeWant. rewrite header_ok.
  assert (blen (header KindWant ++ sender ++ [n] ++ concat ids) = 13 + n * 16) as ->.
  { unfold blen. rewrite !length_app, Hs, Hl. simpl. lia. }
  destruct (Z.ltb_spec (13 + n * 16) 13); [lia|]. cbn [negb].
  assert (byte_at (header KindWant ++ sender ++ [n] ++ concat ids) 12 = n) as ->.
  { rewrite (app_assoc (header _)). apply byte_at_app. rewrite !length_app, Hs. done. }
  destruct (Z.ltb_spec (13 + n * 16) (13 + n * 16)); [lia|]. f_equal. f_equal.
  - apply slice_app; [done|]. by rewrite Hs.
  - unfold n. rewrite Nat2Z.id, <- (app_nil_r (concat ids)). rewrite !app_assoc, <- (app_assoc _ (concat ids)).
    apply decode_ids_encoded; [done|]. rewrite !length_app, Hs. done.
Qed.

Lemma want_roundtrip_witness :
  let ids := [replicate 16 1; replicate 16 2] in
  DecodeWant (EncodeWant (replicate 8 9) ids 0) = Ok (mkWant (replicate 8 9) (kept 10 0 ids)).
Proof. apply want_roundtrip; [reflexivity|decided|decided]. Defined.
