(* ===== verification/Identity.v ===== *)
(** * Rotating identities ([core/proximity/identity_manager])

    A node's X25519 key pair and its 8-byte identifier, replaced once a rotation period has
    passed.  X25519 and BLAKE2s are not code of the repository: they are parameters.  The
    random source is a state [G] with [rand_read], which need not be random for anything
    proved here. *)

From S2P Require Import Prelude.

Record Identity := mkIdentity {
  id_NodeID : list Z;
  id_PubKey : list Z;
}.

Record Manager := mkManager {
  im_rotationPeriod : Z;
  im_current : Identity;
  im_currentPriv : list Z;
  im_rotatedAt : Z;
}.

Inductive id_err := ErrRotationPeriod.

Section manager.
Context {G : Type} (rand_read : Z -> G -> list Z * G).
Context (x25519_base blake2s : list Z -> list Z).

(** [priv[0] &= 248; priv[31] &= 127; priv[31] |= 64] *)
Definition clamp_priv (priv : list Z) : list Z :=
  alter (fun b => Z.lor (Z.land b 127) 64) 31%nat (alter (fun b => Z.land b 248) 0%nat priv).

(** [uint64(now.UnixNano() / m.rotationPeriod.Nanoseconds())] *)
Definition rotation_bucket (period now : Z) : Z := u64 (Z.quot (i64 now) period).

Definition rotateLocked (now : Z) (m : Manager) (g : G) : Manager * G :=
  let (r, g) := rand_read 32 g in
  let priv := clamp_priv (copy_into 32 r) in
  let pub32 := copy_into 32 (x25519_base priv) in
  let sum := blake2s (pub32 ++ le_put 8 (rotation_bucket (im_rotationPeriod m) now)) in
  let nid := copy_into 8 (slice sum 0 8) in
  (mkManager (im_rotationPeriod m) (mkIdentity nid pub32) priv now, g).

(** [New]; [now] is its own reading of the clock. *)
Definition New (rotationPeriod now : Z) (g : G) : res id_err (Manager * G) :=
  if rotationPeriod <=? 0 then Err ErrRotationPeriod
  else Ok (rotateLocked now (mkManager rotationPeriod (mkIdentity (replicate 8 0) (replicate 32 0)) (replicate 32 0) zeroTime) g).

Definition refresh (now : Z) (m : Manager) (g : G) : Manager * G :=
  if im_rotationPeriod m <=? TimeSub now (im_rotatedAt m) then rotateLocked now m g else (m, g).

Definition Current (now : Z) (m : Manager) (g : G) : Identity * (Manager * G) :=
  let (m, g) := refresh now m g in (im_current m, (m, g)).

Definition PrivateKey (now : Z) (m : Manager) (g : G) : list Z * (Manager * G) :=
  let (m, g) := refresh now m g in (im_currentPriv m, (m, g)).

(** ** The key pair and the identifier belong together *)

(** A clamped X25519 scalar: a multiple of 8 with bit 254 set and bit 255 clear. *)
Definition clamped (priv : list Z) : Prop :=
  length priv = 32%nat
  /\ (exists b, priv !! 0%nat = Some b /\ b mod 8 = 0)
  /\ (exists b, priv !! 31%nat = Some b /\ 64 <= b < 128).

Record manager_ok (p : Z) (m : Manager) : Prop := {
  mk_period : im_rotationPeriod m = p /\ 0 < p;
  mk_priv : clamped (im_currentPriv m);
  mk_pub : id_PubKey (im_current m) = copy_into 32 (x25519_base (im_currentPriv m));
  mk_node : id_NodeID (im_current m)
    = copy_into 8 (slice (blake2s (id_PubKey (im_current m)
        ++ le_put 8 (rotation_bucket p (im_rotatedAt m)))) 0 8);
}.

Lemma clamp_priv_clamped r : clamped (clamp_priv (copy_into 32 r)).
Proof.
  unfold clamp_priv, clamped. pose proof (copy_into_length 32 r) as Hl.
  rewrite !length_alter. split; [done|]. split.
  - rewrite list_lookup_alter_ne by done. rewrite list_lookup_alter_eq.
    destruct (lookup_lt_is_Some_2 (copy_into 32 r) 0 ltac:(lia)) as [b ->].
    eexists. split; [done|]. apply Z.bits_inj'. intros n Hn.
    change 8 with (2 ^ 3). destruct (Z.ltb_spec n 3).
    + rewrite Z.mod_pow2_bits_low by lia. rewrite Z.land_spec, Z.bits_0.
      assert (n = 0 \/ n = 1 \/ n = 2) as [->|[->| ->]] by lia; apply andb_false_r.
    + by rewrite Z.mod_pow2_bits_high, Z.bits_0 by lia.
  - rewrite list_lookup_alter_eq, list_lookup_alter_ne by done.
    destruct (lookup_lt_is_Some_2 (copy_into 32 r) 31 ltac:(lia)) as [b ->].
    eexists. split; [done|]. change 127 with (Z.ones 7). rewrite Z.land_ones by lia.
    pose proof (Z.mod_pos_bound b (2 ^ 7) ltac:(lia)) as Hb. set (x := b mod 2 ^ 7) in *.
    pose proof (all_below (fun x => (64 <=? Z.lor x 64) && (Z.lor x 64 <? 128)) 128 eq_refl x Hb) as H.
    apply andb_prop in H as [H1 H2]. lia.
Qed.

Lemma manager_rotate_ok now m g : 0 < im_rotationPeriod m -> manager_ok (im_rotationPeriod m) (fst (rotateLocked now m g)).
Proof.
  intros Hp. unfold rotateLocked. destruct (rand_read 32 g) as [r g'].
  split; try done. apply clamp_priv_clamped.
Qed.

Lemma manager_New_ok period t0 g m0 g0 : New period t0 g = Ok (m0, g0) -> manager_ok period m0.
Proof.
  unfold New. destruct (Z.leb_spec period 0) as [|Hp]; [done|]. intros HN.
  injection HN as HN. change m0 with (fst (m0, g0)). rewrite <- HN.
  match goal with |- manager_ok _ (fst (rotateLocked _ ?m _)) => by apply (manager_rotate_ok t0 m) end.
Qed.

(** What a refresh leaves: a well-formed manager whose key is younger than the period; the
    old one if that was young enough. *)
Lemma refresh_spec p now m g :
  manager_ok p m ->
  let (m', g') := refresh now m g in
  manager_ok p m' /\ TimeSub now (im_rotatedAt m') < p
  /\ (TimeSub now (im_rotatedAt m) < p -> m' = m /\ g' = g).
Proof.
  intros Hm. destruct (mk_period _ _ Hm) as [Ep Hp]. unfold refresh. rewrite Ep.
  destruct (Z.leb_spec p (TimeSub now (im_rotatedAt m))) as [H|H]; [|done].
  pose proof (manager_rotate_ok now m g) as Hr. rewrite Ep in Hr. specialize (Hr Hp).
  assert (im_rotatedAt (fst (rotateLocked now m g)) = now) as Ht.
  { unfold rotateLocked. by destruct (rand_read 32 g). }
  destruct (rotateLocked now m g) as [m' g']. simpl in *. split_and!; [done| |lia].
  rewrite Ht, TimeSub_small by (unfold_ints; lia). lia.
Qed.

(** Calls of the two accessors. *)
Inductive id_call :=
  | CallCurrent (now : Z)
  | CallPrivateKey (now : Z).

Definition do_id_call (s : Manager * G) (c : id_call) : Manager * G :=
  match c with
  | CallCurrent now => snd (Current now (fst s) (snd s))
  | CallPrivateKey now => snd (PrivateKey now (fst s) (snd s))
  end.

Lemma run_id_calls_ok p cs s : manager_ok p (fst s) -> manager_ok p (fst (foldl do_id_call s cs)).
Proof.
  revert s. induction cs as [|c cs IH]; intros s Hs; [done|]. apply IH.
  destruct c as [now|now]; simpl; unfold Current, PrivateKey;
    pose proof (refresh_spec p now (fst s) (snd s) Hs); destruct (refresh now (fst s) (snd s)); tauto.
Qed.
End manager.

(** After [New] and any calls of [Current] and [PrivateKey] at any times: the identity
    that [Current] gives and the key that [PrivateKey] gives at the same time belong
    together (the public key is X25519 of a correctly clamped private key, the identifier
    is the first eight bytes of the hash of the public key and the time bucket of the
    rotation), and the identity is the one in force unless that is a rotation period old. *)
Theorem identity_key_agree {G} (rand_read : Z -> G -> list Z * G) x25519_base blake2s period t0 g m0 g0 cs now :
  New rand_read x25519_base blake2s period t0 g = Ok (m0, g0) ->
  let '(m, g1) := foldl (do_id_call rand_read x25519_base blake2s) (m0, g0) cs in
  let '(i, (m1, g2)) := Current rand_read x25519_base blake2s now m g1 in
  let '(k, (m2, g3)) := PrivateKey rand_read x25519_base blake2s now m1 g2 in
  clamped k /\ id_PubKey i = copy_into 32 (x25519_base k)
  /\ id_NodeID i = copy_into 8 (slice (blake2s (id_PubKey i ++ le_put 8 (rotation_bucket period (im_rotatedAt m1)))) 0 8)
  /\ m2 = m1 /\ g3 = g2
  /\ TimeSub now (im_rotatedAt m1) < period
  /\ (TimeSub now (im_rotatedAt m) < period -> i = im_current m /\ m1 = m /\ g2 = g1).
Proof.
  intros HN. pose proof (manager_New_ok _ _ _ _ _ _ _ _ HN) as H0.
  pose proof (run_id_calls_ok rand_read x25519_base blake2s period cs (m0, g0) H0) as Hm.
  destruct (foldl _ (m0, g0) cs) as [m g1]. simpl in Hm.
  unfold Current. pose proof (refresh_spec rand_read _ _ _ now m g1 Hm) as H1.
  destruct (refresh _ _ _ now m g1) as [m1 g2]. destruct H1 as (Hm1 & Hy & Hkeep).
  unfold PrivateKey. pose proof (refresh_spec rand_read _ _ _ now m1 g2 Hm1) as H2.
  destruct (refresh _ _ _ now m1 g2) as [m2 g3]. destruct H2 as (_ & _ & Hsame).
  destruct (Hsame Hy) as [-> ->]. destruct Hm1 as [_ H3 H4 H5]. split; [exact H3|]. split; [exact H4|]. split; [exact H5|]. do 3 (split; [done|]).
  intros Ho. by destruct (Hkeep Ho) as [-> ->].
Qed.

(** A source of bytes, a stand-in for the curve and a stand-in for the hash. *)
Definition counter_source (n g : Z) : list Z * Z := (replicate (Z.to_nat n) (g mod 256), g + 1).
Definition toy_base (k : list Z) : list Z := reverse k.

Definition wit_start : Manager * Z :=
  rotateLocked counter_source toy_base toy_base 0
    (mkManager (10 * Minute) (mkIdentity (replicate 8 0) (replicate 32 0)) (replicate 32 0) zeroTime) 250.

Lemma identity_key_agree_witness :
  let cs := [CallCurrent (3 * Minute); CallPrivateKey (11 * Minute)] in
  let '(m, g1) := foldl (do_id_call counter_source toy_base toy_base) (fst wit_start, snd wit_start) cs in
  let '(i, (m1, g2)) := Current counter_source toy_base toy_base (12 * Minute) m g1 in
  let '(k, _) := PrivateKey counter_source toy_base toy_base (12 * Minute) m1 g2 in
  clamped k /\ id_PubKey i = copy_into 32 (toy_base k) /\ i = im_current m.
Proof.
  pose proof (identity_key_agree counter_source toy_base toy_base (10 * Minute) 0 250
    (fst wit_start) (snd wit_start) [CallCurrent (3 * Minute); CallPrivateKey (11 * Minute)] (12 * Minute)
    eq_refl) as H.
  vm_compute in H |- *. destruct H as (H1 & H2 & _ & _ & _ & _ & H3).
  split; [exact H1|]. split; [exact H2|]. by apply H3.
Defined.
