(* ===== verification/Router.v ===== *)
(** * The message router ([core/proximity/message_router/router.go])

    The node's event handlers over the components: cache, reassembler, scorer, guard, replay
    filter, gossip and routing.  A handler is an [act]: it changes the router's state and
    leaves the effects it has on the outside (frames broadcast, messages delivered, timers
    armed) in order.  The replay filter is any [ReplayFilter]; the identity source, BLAKE2s
    and the validator are parameters. *)

From S2P Require Import Prelude Float64 Message Reassembly Gossip Sync.
From S2P Require Cache Replay AntiFlood Scoring Identity.
#[local] Set Warnings "-inexact-float".

(** [NewRouter]'s options. *)
Record Options := mkOptions {
  o_MaxFrameBytes : Z;
  o_MaxHop : Z;
  o_MinRebroadcastEvery : Z;
  o_ReassemblyStaleAfter : Z;
  o_CacheMaxItems : Z;
  o_ClockSkewAllowance : Z;
  o_MaxPayloadBytes : Z;
  o_ReplayBucketDuration : Z;
  o_ReplayWindowDuration : Z;
  o_GlobalRateCapacity : float;
  o_GlobalRate : float;
  o_PerSenderCapacity : float;
  o_PerSenderRate : float;
  o_RoutingBaseProb : float;
  o_RoutingMaxJitter : Z;
  o_RoutingMinTTLRemain : Z;
  o_InventoryEvery : Z;
  o_InventoryMax : Z;
  o_WantMax : Z;
  o_CoverTrafficEvery : Z;
  o_CoverTrafficSize : Z;
  o_Validate : option (Message -> bool);
}.

(** The fields of [Router] that no method changes after [NewRouter]. *)
Record Config := mkConfig {
  maxFrameBytes : Z;
  maxHop : Z;
  minRebroadcastEvery : Z;
  clockSkewAllowance : Z;
  maxPayloadBytes : Z;
  route : Engine;
  invEvery : Z;
  invMax : Z;
  wantMax : Z;
  validate : option (Message -> bool);
}.

(** What the handlers do outside the router. *)
Inductive effect :=
  | Broadcast (frame : list Z)      (** [r.transport.Broadcast] *)
  | Deliver (m : Message)           (** [r.onMessage] *)
  | AfterFunc (delay : Z) (m : Message). (** a timer that broadcasts [m] *)

Inductive RouterErr :=
  | ErrTransportRequired
  | ErrIdentityRequired
  | ErrRejected
  | ErrMsg (e : MsgErr).

Section Router.
Context (blake2s : list Z -> list Z).
Context {I : Type} (currentIdentity : Z -> I -> Identity.Identity * I).
Context {F : Type} `{Replay.ReplayFilter F} (newReplay : Z -> Z -> F).

(** The mutable part of [Router]; [ident] is the state behind [currentIdentity], and
    [listening] tells whether [onMessage] is set. *)
Record Router := mkRouter {
  cfg : Config;
  cache : Cache.Cache;
  reasm : Reassembler;
  scorer : gmap (list Z) Scoring.Stats;
  guard : AntiFlood.Guard;
  replay : F;
  ident : I;
  coverEvery : Z;
  coverSize : Z;
  lastInvAt : Z;
  lastCoverAt : Z;
  lastForward : gmap (list Z) Z;
  listening : bool;
}.

(** [if x <= 0 { x = d }] *)
Definition or_default (x d : Z) : Z := if x <=? 0 then d else x.

Definition NewRouter (hasTransport hasIdentity : bool) (o : Options) (now : Z) (i : I) : res RouterErr Router :=
  if negb hasTransport then Err ErrTransportRequired
  else if negb hasIdentity then Err ErrIdentityRequired
  else
    let maxPayload := or_default (o_MaxPayloadBytes o) (32 * 1024) in
    let c := mkConfig
      (or_default (o_MaxFrameBytes o) 220)
      (if o_MaxHop o =? 0 then 6 else o_MaxHop o)
      (or_default (o_MinRebroadcastEvery o) (800 * Millisecond))
      (or_default (o_ClockSkewAllowance o) (2 * Minute))
      maxPayload
      (mkEngine
        (if fgt (o_RoutingBaseProb o) 0 then o_RoutingBaseProb o else e_BaseProb NewEngine)
        (if 0 <? o_RoutingMaxJitter o then o_RoutingMaxJitter o else e_MaxJitter NewEngine)
        (if 0 <? o_RoutingMinTTLRemain o then o_RoutingMinTTLRemain o else e_MinTTLRemain NewEngine))
      (or_default (o_InventoryEvery o) (15 * Second))
      (or_default (o_InventoryMax o) 12)
      (or_default (o_WantMax o) 10)
      (o_Validate o) in
    Ok (mkRouter c
      (Cache.New (o_CacheMaxItems o))
      (NewReassemblerWithLimit (o_ReassemblyStaleAfter o) maxPayload)
      Scoring.New
      (AntiFlood.New (AntiFlood.mkOptions (o_GlobalRateCapacity o) (o_GlobalRate o)
        (o_PerSenderCapacity o) (o_PerSenderRate o)) now)
      (newReplay (o_ReplayBucketDuration o) (o_ReplayWindowDuration o))
      i
      (if o_CoverTrafficEvery o <? 0 then 0 else o_CoverTrafficEvery o)
      (or_default (o_CoverTrafficSize o) 24)
      zeroTime now ∅ false).

Definition with_cache (x : Cache.Cache) (r : Router) : Router :=
  mkRouter (cfg r) x (reasm r) (scorer r) (guard r) (replay r) (ident r) (coverEvery r) (coverSize r)
    (lastInvAt r) (lastCoverAt r) (lastForward r) (listening r).
Definition with_reasm (x : Reassembler) (r : Router) : Router :=
  mkRouter (cfg r) (cache r) x (scorer r) (guard r) (replay r) (ident r) (coverEvery r) (coverSize r)
    (lastInvAt r) (lastCoverAt r) (lastForward r) (listening r).
Definition with_scorer (x : gmap (list Z) Scoring.Stats) (r : Router) : Router :=
  mkRouter (cfg r) (cache r) (reasm r) x (guard r) (replay r) (ident r) (coverEvery r) (coverSize r)
    (lastInvAt r) (lastCoverAt r) (lastForward r) (listening r).
Definition with_guard (x : AntiFlood.Guard) (r : Router) : Router :=
  mkRouter (cfg r) (cache r) (reasm r) (scorer r) x (replay r) (ident r) (coverEvery r) (coverSize r)
    (lastInvAt r) (lastCoverAt r) (lastForward r) (listening r).
Definition with_replay (x : F) (r : Router) : Router :=
  mkRouter (cfg r) (cache r) (reasm r) (scorer r) (guard r) x (ident r) (coverEvery r) (coverSize r)
    (lastInvAt r) (lastCoverAt r) (lastForward r) (listening r).
Definition with_ident (x : I) (r : Router) : Router :=
  mkRouter (cfg r) (cache r) (reasm r) (scorer r) (guard r) (replay r) x (coverEvery r) (coverSize r)
    (lastInvAt r) (lastCoverAt r) (lastForward r) (listening r).
Definition with_cover (every size last : Z) (r : Router) : Router :=
  mkRouter (cfg r) (cache r) (reasm r) (scorer r) (guard r) (replay r) (ident r) every size
    (lastInvAt r) last (lastForward r) (listening r).
Definition with_lastInvAt (x : Z) (r : Router) : Router :=
  mkRouter (cfg r) (cache r) (reasm r) (scorer r) (guard r) (replay r) (ident r) (coverEvery r) (coverSize r)
    x (lastCoverAt r) (lastForward r) (listening r).
Definition with_lastForward (x : gmap (list Z) Z) (r : Router) : Router :=
  mkRouter (cfg r) (cache r) (reasm r) (scorer r) (guard r) (replay r) (ident r) (coverEvery r) (coverSize r)
    (lastInvAt r) (lastCoverAt r) x (listening r).

Definition SetOnMessage (r : Router) : Router :=
  mkRouter (cfg r) (cache r) (reasm r) (scorer r) (guard r) (replay r) (ident r) (coverEvery r) (coverSize r)
    (lastInvAt r) (lastCoverAt r) (lastForward r) true.

(** ** Handlers as state changes with effects *)

Definition act : Type := Router -> list effect * Router.

Definition skip : act := fun r => ([], r).
Definition emit (e : effect) : act := fun r => ([e], r).
Definition modify (f : Router -> Router) : act := fun r => ([], f r).
Definition andThen (a b : act) : act := fun r =>
  let (e1, r1) := a r in let (e2, r2) := b r1 in (e1 ++ e2, r2).
(** A call that answers and may change the router. *)
Definition query {A} (q : Router -> A * Router) (k : A -> act) : act := fun r =>
  let (a, r') := q r in k a r'.
(** Reading a field. *)
Definition reading {A} (q : Router -> A) (k : A -> act) : act := fun r => k (q r) r.

#[local] Notation "a ;;; b" := (andThen a b) (at level 100, right associativity).
#[local] Notation "x <~ q ; k" := (query q (fun x => k)) (at level 100, q at next level, right associativity).

Definition cacheHas (id : list Z) (now : Z) (r : Router) : bool * Router :=
  let (b, c) := Cache.Has id now (cache r) in (b, with_cache c r).
Definition cacheGet (id : list Z) (now : Z) (r : Router) : option Cache.Entry * Router :=
  let (e, c) := Cache.Get id now (cache r) in (e, with_cache c r).
Definition guardAllow (key : list Z) (now : Z) (cost : float) (r : Router) : bool * Router :=
  let (b, g) := AntiFlood.Allow key now cost (guard r) in (b, with_guard g r).
Definition guardAllowGlobal (now : Z) (cost : float) (r : Router) : bool * Router :=
  let (b, g) := AntiFlood.AllowGlobal now cost (guard r) in (b, with_guard g r).
Definition reasmAdd (f : ChunkFrame) (now : Z) (r : Router) : res ReasmErr (Message * bool) * Router :=
  let (a, m) := Add blake2s f now (reasm r) in (a, with_reasm m r).
Definition replaySeenOrAdd (id : list Z) (now : Z) (r : Router) : bool * Router :=
  let (b, p) := Replay.rf_seen_or_add id now (replay r) in (b, with_replay p r).
Definition replaySeen (id : list Z) (now : Z) (r : Router) : bool * Router :=
  let (b, p) := Replay.rf_seen id now (replay r) in (b, with_replay p r).
Definition identity (now : Z) (r : Router) : Identity.Identity * Router :=
  let (x, i) := currentIdentity now (ident r) in (x, with_ident i r).

(** [if hasFrom { r.scorer.OnInvalidAt(from, now) }] *)
Definition onInvalid (from : list Z) (hasFrom : bool) (now : Z) : act :=
  if hasFrom then modify (fun r => with_scorer (Scoring.OnInvalidAt from now (scorer r)) r) else skip.
Definition onRateLimited (from : list Z) (hasFrom : bool) (now : Z) : act :=
  if hasFrom then modify (fun r => with_scorer (Scoring.OnRateLimitedAt from now (scorer r)) r) else skip.

(** The cache entry of a message, as [Send] and [handleChunk] put it. *)
Definition cachePut (msg : Message) (now : Z) : act :=
  modify (fun r => with_cache (Cache.Put (Cache.mkEntry (m_ID msg) (m_Sender msg) (m_Timestamp msg) (m_TTLSec msg)
    now (Message_ExpiresAt msg) (m_Payload msg)) now (cache r)) r).

(** [for i := range frames { ... }] *)
Fixpoint broadcast_frames (fs : list ChunkFrame) : act :=
  match fs with
  | [] => skip
  | f :: fs' =>
      match EncodeChunkFrame f with
      | Err _ => broadcast_frames fs'
      | Ok b => emit (Broadcast b);;; broadcast_frames fs'
      end
  end.

(** [broadcastMessage]: the chunking error, if any, and the effects. *)
Definition broadcastMessage (msg : Message) (now : Z) (r : Router) : option MsgErr * (list effect * Router) :=
  match guardAllowGlobal now 2 r with
  | (false, r) => (None, ([], r))
  | (true, r) =>
      match ChunkMessage msg (maxFrameBytes (cfg r)) with
      | Err e => (Some e, ([], r))
      | Ok frames =>
          match guardAllowGlobal now (1 * of_Z (Z.of_nat (length frames)))%float r with
          | (false, r) => (None, ([], r))
          | (true, r) => (None, broadcast_frames frames r)
          end
      end
  end.

(** [_ = r.broadcastMessage(msg, now)] *)
Definition rebroadcast (msg : Message) (now : Z) : act := fun r => snd (broadcastMessage msg now r).

(** [Send]: the answer and the effects. *)
Definition Send (now : Z) (payload : list Z) (ttlSec : Z) (r : Router)
  : res RouterErr (list Z) * (list effect * Router) :=
  let (id, r) := identity now r in
  match NewMessage blake2s (Identity.id_NodeID id) now ttlSec payload with
  | Err e => (Err (ErrMsg e), ([], r))
  | Ok msg =>
      if match validate (cfg r) with Some v => negb (v msg) | None => false end
      then (Err ErrRejected, ([], r))
      else
        let (_, r) := cachePut msg now r in
        match broadcastMessage msg now r with
        | (Some e, out) => (Err (ErrMsg e), out)
        | (None, out) => (Ok (m_ID msg), out)
        end
  end.

Definition maybeForward (msg : Message) (from : list Z) (hasFrom : bool) (now : Z) (rateLimited : bool)
    (d : draw) : act := reading id (fun r =>
  if maxHop (cfg r) <=? m_Hop msg then skip
  else if match lastForward r !! m_ID msg with
          | Some last => TimeSub now last <? minRebroadcastEvery (cfg r)
          | None => false
          end then skip
  else
    let prob := Probability (route (cfg r))
      (mkInput from (m_Hop msg) (maxHop (cfg r)) (Message_ExpiresAt msg) now hasFrom rateLimited)
      (Some (scorer r)) in
    let dec := Decide prob (JitterMax (route (cfg r))) d in
    if negb (d_Forward dec) then skip
    else
      modify (with_lastForward (<[m_ID msg := now]> (lastForward r)));;;
      emit (AfterFunc (d_Delay dec)
        (mkMessage (m_ID msg) (m_Sender msg) (m_Timestamp msg) (m_TTLSec msg) (u8 (m_Hop msg + 1)) (m_Payload msg)))).

(** What [handleChunk] does with a message the reassembler completed. *)
Definition acceptMessage (msg : Message) (from : list Z) (hasFrom : bool) (now : Z) (d : draw) : act :=
  seen <~ replaySeenOrAdd (m_ID msg) now;
  if seen then skip
  else
    has <~ cacheHas (m_ID msg) now;
    if has then skip
    else
      cachePut msg now;;;
      reading listening (fun l => if l then emit (Deliver msg) else skip);;;
      maybeForward msg from hasFrom now false d.

Definition handleChunk (raw from : list Z) (hasFrom : bool) (now : Z) (d : draw) : act := reading cfg (fun c =>
  match DecodeChunkFrame raw with
  | Err _ => onInvalid from hasFrom now
  | Ok frame =>
      if After (f_Timestamp frame) (TimeAdd now (clockSkewAllowance c)) then onInvalid from hasFrom now
      else if negb (Before now (ChunkFrame_ExpiresAt frame)) then skip
      else if maxHop c <? f_Hop frame then skip
      else
        let limitKey := if hasFrom then from else f_Sender frame in
        let cost := (0.25 + 0.03 * of_Z (f_Hop frame))%float in
        let cost := if 220 <? blen raw then (cost + 0.25)%float else cost in
        ok <~ guardAllow limitKey now cost;
        if negb ok then onRateLimited from hasFrom now
        else
          added <~ reasmAdd frame now;
          match added with
          | Err _ => onInvalid from hasFrom now
          | Ok (_, false) => skip
          | Ok (msg, true) =>
              if negb (bool_decide (m_ID msg = f_MsgID frame)) then onInvalid from hasFrom now
              else if negb (Before now (Message_ExpiresAt msg)) then skip
              else if match validate c with Some v => negb (v msg) | None => false end
              then onInvalid from hasFrom now
              else acceptMessage msg from hasFrom now d
          end
  end).

(** The loop of [handleInventory]: the identifiers to ask for. *)
Fixpoint want_loop (items : list InventoryItem) (now max : Z) (want : list (list Z)) (r : Router)
  : list (list Z) * Router :=
  match items with
  | [] => (want, r)
  | it :: items' =>
      if max <=? Z.of_nat (length want) then (want, r)
      else if negb (Before now (it_ExpiresAt it)) then want_loop items' now max want r
      else
        match cacheHas (it_ID it) now r with
        | (true, r) => want_loop items' now max want r
        | (false, r) =>
            match replaySeen (it_ID it) now r with
            | (true, r) => want_loop items' now max want r
            | (false, r) => want_loop items' now max (want ++ [it_ID it]) r
            end
        end
  end.

(** [if hasFrom && !r.guard.Allow(from, now, 0.6) { ...; return }], then [k]. *)
Definition rate_gate (from : list Z) (hasFrom : bool) (now : Z) (k : act) : act :=
  if hasFrom then
    ok <~ guardAllow from now 0.6;
    if negb ok then onRateLimited from true now else k
  else k.

Definition handleInventory (raw from : list Z) (hasFrom : bool) (now : Z) : act :=
  rate_gate from hasFrom now (reading cfg (fun c =>
    match DecodeInventory raw with
    | Err _ => onInvalid from hasFrom now
    | Ok inv =>
        if After (iv_Timestamp inv) (TimeAdd now (clockSkewAllowance c)) then skip
        else
          want <~ want_loop (iv_Items inv) now (wantMax c) [];
          if bool_decide (want = []) then skip
          else
            id <~ identity now;
            ok <~ guardAllowGlobal now 0.5;
            if negb ok then skip
            else emit (Broadcast (EncodeWant (Identity.id_NodeID id) want (wantMax c)))
    end)).

(** The loop of [handleWant]. *)
Fixpoint serve_wants (wants : list (list Z)) (now : Z) : act :=
  match wants with
  | [] => skip
  | w :: wants' =>
      e <~ cacheGet w now;
      (match e with
       | None => skip
       | Some e =>
           let id := ComputeMessageID blake2s (Cache.e_Sender e) (Cache.e_Timestamp e) (Cache.e_TTLSec e) (Cache.e_Payload e) in
           if negb (bool_decide (id = Cache.e_ID e)) then skip
           else rebroadcast
             (mkMessage id (Cache.e_Sender e) (Cache.e_Timestamp e) (Cache.e_TTLSec e) 0 (Cache.e_Payload e)) now
       end;;; serve_wants wants' now)
  end.

Definition handleWant (raw from : list Z) (hasFrom : bool) (now : Z) : act :=
  rate_gate from hasFrom now
    match DecodeWant raw with
    | Err _ => onInvalid from hasFrom now
    | Ok w => serve_wants (wf_Wants w) now
    end.

Definition handleFrame (raw from : list Z) (hasFrom : bool) (now : Z) (d : draw) : act :=
  match DecodeHeader raw with
  | (ver, kind, ok) =>
      if negb ok || negb (ver =? 1) then onInvalid from hasFrom now
      else
        (if hasFrom then modify (fun r => with_scorer (Scoring.OnSeen from now (scorer r)) r) else skip);;;
        reading scorer (fun s =>
          if hasFrom && negb (Scoring.AllowFrom from now s) then skip
          else if kind =? wireKindChunk then handleChunk raw from hasFrom now d
          else if kind =? KindInventory then handleInventory raw from hasFrom now
          else if kind =? KindWant then handleWant raw from hasFrom now
          else skip)
  end.

Definition maybeBroadcastInventory (now : Z) : act := reading id (fun r =>
  if negb (IsZero (lastInvAt r)) && (TimeSub now (lastInvAt r) <? invEvery (cfg r)) then skip
  else
    ok <~ guardAllowGlobal now 0.75;
    if negb ok then skip
    else
      let entries := Cache.List_ now (invMax (cfg r)) (cache r) in
      let items := (fun e => mkItem (Cache.e_ID e) (Cache.e_ExpiresAt e)) <$> entries in
      if bool_decide (items = []) then skip
      else
        id <~ identity now;
        (emit (Broadcast (EncodeInventory (Identity.id_NodeID id) now items (invMax (cfg r))));;;
         modify (with_lastInvAt now))).

(** [noise] is what the random source fills a cover frame with. *)
Definition broadcastCover (noise : Z -> list Z) (now : Z) : act :=
  _ <~ identity now;
  reading coverSize (fun size =>
    match EncodeCover noise now size with
    | Err _ => skip
    | Ok b =>
        ok <~ guardAllowGlobal now 0.4;
        if negb ok then skip else emit (Broadcast b)
    end).

Definition SetCoverTraffic (every size now : Z) : act :=
  modify (with_cover (if every <? 0 then 0 else every) (if size <=? 0 then 24 else size) now).

(** The sweep tick of [Run]. *)
Definition sweep (now : Z) : act :=
  modify (fun r => with_reasm (snd (Sweep now (reasm r))) (with_cache (snd (Cache.Sweep now (cache r))) r)).

(** ** The node: the router under its run loop, its callers and its timers *)

Inductive event :=
  | EvSend (payload : list Z) (ttlSec : Z)
  | EvFrame (raw from : list Z) (hasFrom : bool) (d : draw)
  | EvSweep
  | EvInventory
  | EvCover (noise : Z -> list Z)
  | EvSetCover (every size : Z)
  | EvTimer (k : nat).  (** the [k]-th armed timer fires *)

(** The router and the forwards that wait for their timer: due time and message. *)
Record Node := mkNode {
  router : Router;
  pending : list (Z * Message);
}.

Definition handle (e : event) (now : Z) (timers : list (Z * Message)) : act :=
  match e with
  | EvSend payload ttl => fun r => snd (Send now payload ttl r)
  | EvFrame raw from hasFrom d => handleFrame raw from hasFrom now d
  | EvSweep => sweep now
  | EvInventory => maybeBroadcastInventory now
  | EvCover noise =>
      broadcastCover noise now;;; modify (fun r => with_cover (coverEvery r) (coverSize r) now r)
  | EvSetCover every size => SetCoverTraffic every size now
  | EvTimer k => match timers !! k with Some (_, m) => rebroadcast m now | None => skip end
  end.

(** A timer that is not due does not fire. *)
Definition fires (e : event) (now : Z) (timers : list (Z * Message)) : bool :=
  match e with
  | EvTimer k => match timers !! k with Some (due, _) => due <=? now | None => false end
  | _ => true
  end.

Definition armed (now : Z) (e : effect) : option (Z * Message) :=
  match e with AfterFunc d m => Some (TimeAdd now d, m) | _ => None end.

Definition node_step (e : event) (now : Z) (n : Node) : list effect * Node :=
  if fires e now (pending n) then
    let (es, r) := handle e now (pending n) (router n) in
    let left := match e with EvTimer k => delete k (pending n) | _ => pending n end in
    (es, mkNode r (left ++ omap (armed now) es))
  else ([], n).

(** A run: the effects of each event with its time, and the node it ends in. *)
Fixpoint node_run (evs : list (Z * event)) (n : Node) : list (Z * list effect) * Node :=
  match evs with
  | [] => ([], n)
  | (now, e) :: evs' =>
      let (es, n1) := node_step e now n in
      let (tr, n2) := node_run evs' n1 in ((now, es) :: tr, n2)
  end.

(** ** What an act does to the replay filter: the refinement to [Replay.run_calls]

    Every event of the node is, for its replay filter, a list of calls at the event's time;
    a delivery is the one [SeenOrAdd] that answered that the identifier is new. *)

Definition delivered (e : effect) : option Message :=
  match e with Deliver m => Some m | _ => None end.

Definition deliveries (es : list effect) : list Message := omap delivered es.

Definition replays (now : Z) (r r' : Router) (es : list effect) : Prop :=
  exists calls, Forall (fun c => Replay.call_time c = now) calls
    /\ replay r' = snd (Replay.run_calls calls (replay r))
    /\ (deliveries es = []
       \/ exists m, deliveries es = [m] /\ calls = [Replay.CallAdd (m_ID m) now]
          /\ fst (Replay.rf_seen_or_add (m_ID m) now (replay r)) = false).

(** An act that leaves the filter alone and delivers nothing. *)
Definition quiet (a : act) : Prop :=
  forall r, replay (snd (a r)) = replay r /\ deliveries (fst (a r)) = [].

Lemma deliveries_app es1 es2 : deliveries (es1 ++ es2) = deliveries es1 ++ deliveries es2.
Proof. apply omap_app. Qed.

Lemma quiet_replays now a r : quiet a -> replays now r (snd (a r)) (fst (a r)).
Proof. intros Ha. destruct (Ha r) as [H1 H2]. exists []. split; [done|]. split; [done|by left]. Qed.

Lemma quiet_skip : quiet skip.
Proof. done. Qed.
Lemma quiet_emit e : delivered e = None -> quiet (emit e).
Proof. intros He r. split; [done|]. unfold deliveries. simpl. by rewrite He. Qed.
Lemma quiet_modify f : (forall r, replay (f r) = replay r) -> quiet (modify f).
Proof. intros Hf r. split; [apply Hf|done]. Qed.
Lemma quiet_andThen a b : quiet a -> quiet b -> quiet (a;;; b).
Proof.
  intros Ha Hb r. unfold andThen. destruct (Ha r) as [H1 H2]. destruct (a r) as [e1 r1].
  destruct (Hb r1) as [H3 H4]. destruct (b r1) as [e2 r2]. simpl in *.
  rewrite deliveries_app, H2, H4. split; [congruence|done].
Qed.
Lemma quiet_query {A} (q : Router -> A * Router) k :
  (forall r, replay (snd (q r)) = replay r) -> (forall x, quiet (k x)) -> quiet (query q k).
Proof.
  intros Hq Hk r. unfold query. specialize (Hq r). destruct (q r) as [x r'].
  destruct (Hk x r') as [H1 H2]. simpl in *. split; [congruence|done].
Qed.
Lemma quiet_reading {A} (q : Router -> A) k : (forall x, quiet (k x)) -> quiet (reading q k).
Proof. intros Hk r. apply Hk. Qed.

Lemma quiet_gate from hasFrom now k : quiet k -> quiet (rate_gate from hasFrom now k).
Proof.
  intros Hk. unfold rate_gate. destruct hasFrom; [|done]. apply quiet_query.
  - intros r. unfold guardAllow. by destruct (AntiFlood.Allow _ _ _ _).
  - intros ok. destruct ok; [done|]. by apply quiet_modify.
Qed.

Lemma quiet_onInvalid from hasFrom now : quiet (onInvalid from hasFrom now).
Proof. unfold onInvalid. destruct hasFrom; [by apply quiet_modify|done]. Qed.
Lemma quiet_onRateLimited from hasFrom now : quiet (onRateLimited from hasFrom now).
Proof. unfold onRateLimited. destruct hasFrom; [by apply quiet_modify|done]. Qed.

Lemma quiet_guardAllowGlobal now cost r : replay (snd (guardAllowGlobal now cost r)) = replay r.
Proof. unfold guardAllowGlobal. by destruct (AntiFlood.AllowGlobal _ _ _). Qed.

Lemma quiet_broadcast_frames fs : quiet (broadcast_frames fs).
Proof.
  induction fs as [|f fs IH]; [apply quiet_skip|]. simpl. destruct (EncodeChunkFrame f); [|done].
  apply quiet_andThen; [by apply quiet_emit|done].
Qed.

Lemma quiet_rebroadcast msg now : quiet (rebroadcast msg now).
Proof.
  intros r. unfold rebroadcast, broadcastMessage.
  pose proof (quiet_guardAllowGlobal now 2 r) as H1. destruct (guardAllowGlobal now 2 r) as [[] r1]; [|done].
  simpl in H1. destruct (ChunkMessage _ _) as [fs|e]; [|done].
  set (cost := (1 * _)%float). pose proof (quiet_guardAllowGlobal now cost r1) as H2.
  destruct (guardAllowGlobal now cost r1) as [[] r2]; simpl in *; [|by rewrite H2].
  destruct (quiet_broadcast_frames fs r2) as [H3 H4]. split; congruence.
Qed.

Lemma quiet_maybeForward msg from hasFrom now rl d : quiet (maybeForward msg from hasFrom now rl d).
Proof.
  unfold maybeForward. intros r. unfold reading, id.
  destruct (_ <=? _); [done|]. destruct (match lastForward r !! m_ID msg with Some _ => _ | None => _ end); [done|].
  destruct (d_Forward _); [|done]. simpl. by split.
Qed.

Lemma quiet_serve_wants wants now : quiet (serve_wants wants now).
Proof.
  induction wants as [|w wants IH]; [apply quiet_skip|]. simpl. apply quiet_query.
  - intros r. unfold cacheGet. by destruct (Cache.Get _ _ _).
  - intros [e|]; apply quiet_andThen; try done.
    case_match; [done|]. apply quiet_rebroadcast.
Qed.

Lemma query_eq {A} (q : Router -> A * Router) k r : query q k r = k (fst (q r)) (snd (q r)).
Proof. unfold query. by destruct (q r). Qed.

Lemma replays_query {A} now (q : Router -> A * Router) k r :
  replay (snd (q r)) = replay r ->
  replays now (snd (q r)) (snd (k (fst (q r)) (snd (q r)))) (fst (k (fst (q r)) (snd (q r)))) ->
  replays now r (snd (query q k r)) (fst (query q k r)).
Proof.
  intros Hq. unfold query. destruct (q r) as [x r1]. simpl in *. unfold replays. by rewrite Hq.
Qed.

Lemma replays_after now a b r :
  quiet a -> replays now (snd (a r)) (snd (b (snd (a r)))) (fst (b (snd (a r)))) ->
  replays now r (snd ((a;;; b) r)) (fst ((a;;; b) r)).
Proof.
  intros Ha. unfold andThen. destruct (Ha r) as [H1 H2]. destruct (a r) as [e1 r1]. simpl in *.
  destruct (b r1) as [e2 r2]. simpl. unfold replays. by rewrite deliveries_app, H2, H1.
Qed.

(** An act that leaves the filter alone and delivers at most [m]. *)
Definition at_most (m : Message) (a : act) : Prop :=
  forall r, replay (snd (a r)) = replay r
    /\ (deliveries (fst (a r)) = [] \/ deliveries (fst (a r)) = [m]).

Lemma quiet_at_most m a : quiet a -> at_most m a.
Proof. intros Ha r. destruct (Ha r). auto. Qed.

Lemma at_most_andThen_l m a b : quiet a -> at_most m b -> at_most m (a;;; b).
Proof.
  intros Ha Hb r. unfold andThen. destruct (Ha r) as [H1 H2]. destruct (a r) as [e1 r1].
  destruct (Hb r1) as [H3 H4]. destruct (b r1) as [e2 r2]. simpl in *.
  rewrite deliveries_app, H2. split; [congruence|done].
Qed.

Lemma at_most_andThen_r m a b : at_most m a -> quiet b -> at_most m (a;;; b).
Proof.
  intros Ha Hb r. unfold andThen. destruct (Ha r) as [H1 H2]. destruct (a r) as [e1 r1].
  destruct (Hb r1) as [H3 H4]. destruct (b r1) as [e2 r2]. simpl in *.
  rewrite deliveries_app, H4, app_nil_r. split; [congruence|done].
Qed.

Lemma at_most_query {A} m (q : Router -> A * Router) k :
  (forall r, replay (snd (q r)) = replay r) -> (forall x, at_most m (k x)) -> at_most m (query q k).
Proof.
  intros Hq Hk r. unfold query. specialize (Hq r). destruct (q r) as [x r'].
  destruct (Hk x r') as [H1 H2]. simpl in *. split; [congruence|done].
Qed.

Lemma replays_acceptMessage msg from hasFrom now d r :
  let a := acceptMessage msg from hasFrom now d in replays now r (snd (a r)) (fst (a r)).
Proof.
  cbv zeta. unfold acceptMessage.
  set (k := cacheHas (m_ID msg) now). set (body := query k _).
  assert (at_most msg body) as Hbody.
  { apply at_most_query.
    - intros r0. subst k. unfold cacheHas. by destruct (Cache.Has _ _ _).
    - intros [|]; [by apply quiet_at_most|].
      apply at_most_andThen_l; [by apply quiet_modify|].
      apply at_most_andThen_r; [|apply quiet_maybeForward].
      intros r0. unfold reading. destruct (listening r0); simpl; auto. }
  clearbody body. unfold query, replaySeenOrAdd.
  destruct (Replay.rf_seen_or_add (m_ID msg) now (replay r)) as [seen p] eqn:E.
  exists [Replay.CallAdd (m_ID msg) now]. split; [by apply Forall_singleton|]. simpl. rewrite E.
  destruct seen; [by split; [|left]|].
  destruct (Hbody (with_replay p r)) as [H1 H2].
  split; [exact H1|]. destruct H2 as [H2|H2]; [by left|right]. exists msg. by rewrite E.
Qed.

Lemma replays_handleChunk raw from hasFrom now d r :
  let a := handleChunk raw from hasFrom now d in replays now r (snd (a r)) (fst (a r)).
Proof.
  cbv zeta. unfold handleChunk, reading. destruct (DecodeChunkFrame raw) as [frame|e];
    [|apply quiet_replays, quiet_onInvalid].
  destruct (After _ _); [apply quiet_replays, quiet_onInvalid|].
  destruct (negb _); [by apply quiet_replays|]. destruct (_ <? _); [by apply quiet_replays|].
  apply replays_query; [unfold guardAllow; by destruct (AntiFlood.Allow _ _ _ _)|].
  set (r1 := snd (guardAllow _ _ _ _)). destruct (fst (guardAllow _ _ _ _)); simpl;
    [|apply quiet_replays, quiet_onRateLimited].
  apply replays_query; [unfold reasmAdd; by destruct (Add _ _ _ _)|].
  destruct (fst (reasmAdd _ _ _)) as [[msg []]|e]; [|by apply quiet_replays|apply quiet_replays, quiet_onInvalid].
  destruct (negb _); [apply quiet_replays, quiet_onInvalid|].
  destruct (negb _); [by apply quiet_replays|].
  destruct (match validate (cfg r) with Some _ => _ | None => _ end); [apply quiet_replays, quiet_onInvalid|].
  apply replays_acceptMessage.
Qed.

Lemma run_calls_app l1 l2 (s : F) :
  snd (Replay.run_calls (l1 ++ l2) s) = snd (Replay.run_calls l2 (snd (Replay.run_calls l1 s))).
Proof.
  revert s. induction l1 as [|c l1 IH]; intros s; [done|]. simpl.
  destruct (Replay.do_call c s) as [x s1]. specialize (IH s1).
  destruct (Replay.run_calls (l1 ++ l2) s1), (Replay.run_calls l1 s1). done.
Qed.

Lemma replays_want_loop items now max want r :
  exists calls, Forall (fun c => Replay.call_time c = now) calls
    /\ replay (snd (want_loop items now max want r)) = snd (Replay.run_calls calls (replay r)).
Proof.
  revert want r. induction items as [|it items IH]; intros want r; simpl; [by exists []|].
  destruct (_ <=? _); [by exists []|]. destruct (negb _); [apply IH|].
  assert (replay (snd (cacheHas (it_ID it) now r)) = replay r) as Hc
    by (unfold cacheHas; by destruct (Cache.Has _ _ _)).
  destruct (cacheHas _ _ r) as [[] r1]; simpl in Hc; rewrite <- Hc; [apply IH|].
  unfold replaySeen. destruct (Replay.rf_seen (it_ID it) now (replay r1)) as [seen p] eqn:E.
  assert (forall w, exists calls, Forall (fun c => Replay.call_time c = now) calls
    /\ replay (snd (want_loop items now max w (with_replay p r1))) = snd (Replay.run_calls calls (replay r1))) as Hk.
  { intros w. destruct (IH w (with_replay p r1)) as (calls & H1 & H2).
    exists (Replay.CallSeen (it_ID it) now :: calls). split; [by constructor|].
    rewrite H2. simpl. rewrite E. by destruct (Replay.run_calls calls p). }
  destruct seen; apply Hk.
Qed.

Lemma replays_handleInventory raw from hasFrom now r :
  let a := handleInventory raw from hasFrom now in replays now r (snd (a r)) (fst (a r)).
Proof.
  cbv zeta. unfold handleInventory. set (body := reading cfg _).
  assert (forall r, replays now r (snd (body r)) (fst (body r))) as Hb.
  { clear r. intros r. subst body. unfold reading. destruct (DecodeInventory raw) as [inv|e];
      [|apply quiet_replays, quiet_onInvalid].
    destruct (After _ _); [by apply quiet_replays|]. rewrite query_eq.
    destruct (replays_want_loop (iv_Items inv) now (wantMax (cfg r)) [] r) as (calls & H1 & H2).
    destruct (want_loop _ _ _ _ r) as [want r1]. simpl in H2.
    assert (forall a, quiet a -> replays now r (snd (a r1)) (fst (a r1))) as Hq.
    { intros a Ha. destruct (Ha r1) as [H3 H4]. exists calls. split; [done|]. split; [congruence|by left]. }
    destruct (bool_decide _); [by apply (Hq skip)|]. apply Hq.
    apply quiet_query; [intros r0; unfold identity; by destruct (currentIdentity _ _)|]. intros x.
    apply quiet_query; [intros r0; apply quiet_guardAllowGlobal|]. intros [|]; [|done].
    by apply quiet_emit. }
  unfold rate_gate. destruct hasFrom; [|apply Hb].
  apply replays_query; [unfold guardAllow; by destruct (AntiFlood.Allow _ _ _ _)|].
  destruct (fst (guardAllow _ _ _ _)); [apply Hb|]. apply quiet_replays, quiet_modify. done.
Qed.

Lemma replays_handleFrame raw from hasFrom now d r :
  let a := handleFrame raw from hasFrom now d in replays now r (snd (a r)) (fst (a r)).
Proof.
  cbv zeta. unfold handleFrame. destruct (DecodeHeader raw) as [[ver kind] ok].
  destruct (_ || _); [apply quiet_replays, quiet_onInvalid|].
  apply replays_after; [destruct hasFrom; [by apply quiet_modify|done]|].
  unfold reading at 1 2. destruct (hasFrom && _); [by apply quiet_replays|].
  destruct (kind =? _); [apply replays_handleChunk|].
  destruct (kind =? _); [apply replays_handleInventory|].
  destruct (kind =? _); [|by apply quiet_replays].
  apply quiet_replays. unfold handleWant. apply quiet_gate.
  destruct (DecodeWant raw); [apply quiet_serve_wants|apply quiet_onInvalid].
Qed.

Lemma quiet_inventory now : quiet (maybeBroadcastInventory now).
Proof.
  intros r. unfold maybeBroadcastInventory, reading. destruct (_ && _); [done|].
  apply quiet_query; [intros; apply quiet_guardAllowGlobal|]. intros [|]; [|done]. simpl.
  destruct (bool_decide _); [done|].
  apply quiet_query; [intros r0; unfold identity; by destruct (currentIdentity _ _)|]. intros x.
  apply quiet_andThen; [by apply quiet_emit|by apply quiet_modify].
Qed.

Lemma quiet_cover noise now : quiet (broadcastCover noise now).
Proof.
  apply quiet_query; [intros r0; unfold identity; by destruct (currentIdentity _ _)|]. intros _.
  apply quiet_reading. intros size. destruct (EncodeCover noise now size); [|done].
  apply quiet_query; [intros; apply quiet_guardAllowGlobal|]. intros [|]; [|done]. by apply quiet_emit.
Qed.

Lemma quiet_Send now payload ttl : quiet (fun r => snd (Send now payload ttl r)).
Proof.
  intros r. unfold Send. assert (replay (snd (identity now r)) = replay r) as Hi
    by (unfold identity; by destruct (currentIdentity _ _)).
  destruct (identity now r) as [x r1]. simpl in Hi. rewrite <- Hi.
  destruct (NewMessage _ _ _ _ _) as [msg|e]; [|done].
  destruct (match validate (cfg r1) with Some _ => _ | None => _ end); [done|].
  unfold cachePut, modify. set (r2 := with_cache _ r1). change (replay r1) with (replay r2).
  pose proof (quiet_rebroadcast msg now r2) as Hb. unfold rebroadcast in Hb.
  by destruct (broadcastMessage msg now r2) as [[e|] out].
Qed.

(** Only received frames touch the filter. *)
Lemma quiet_handle e now timers :
  match e with EvFrame _ _ _ _ => True | _ => quiet (handle e now timers) end.
Proof.
  destruct e as [payload ttl|raw from hasFrom d| | |noise|every size|k]; cbn [handle]; [| done | | | | |].
  - apply quiet_Send.
  - by apply quiet_modify.
  - apply quiet_inventory.
  - apply quiet_andThen; [apply quiet_cover|by apply quiet_modify].
  - by apply quiet_modify.
  - destruct (timers !! k) as [[due m]|]; [apply quiet_rebroadcast|done].
Qed.

(** Every event of the node is a list of calls of the replay filter at its time. *)
Lemma node_step_replays e now n :
  replays now (router n) (router (snd (node_step e now n))) (fst (node_step e now n)).
Proof.
  unfold node_step. destruct (fires _ _ _); [|by exists []; split; [|split; [|left]]].
  assert (replays now (router n) (snd (handle e now (pending n) (router n)))
    (fst (handle e now (pending n) (router n)))) as Hr.
  { pose proof (quiet_handle e now (pending n)) as Hq.
    destruct e; try (by apply quiet_replays). apply replays_handleFrame. }
  by destruct (handle e now (pending n) (router n)).
Qed.

(** The messages a run hands to the application, with their times. *)
Definition delivery_log (tr : list (Z * list effect)) : list (Z * Message) :=
  concat ((fun x => (fun m => (x.1, m)) <$> deliveries x.2) <$> tr).

Definition times_ok (evs : list (Z * event)) : Prop :=
  StronglySorted Z.le (fst <$> evs) /\ Forall (fun x => zeroTime <= x.1) evs.

Lemma times_ok_cons now e evs :
  times_ok ((now, e) :: evs) -> zeroTime <= now /\ Forall (fun x => now <= x.1) evs /\ times_ok evs.
Proof.
  intros [Hs Hz]. rewrite fmap_cons in Hs. apply StronglySorted_inv in Hs as [Hs Hle].
  apply Forall_cons in Hz as [H0 Hz]. rewrite Forall_fmap in Hle. split; [done|]. by split; [|split].
Qed.

Lemma node_run_log now e evs n :
  delivery_log (fst (node_run ((now, e) :: evs) n))
  = ((fun m => (now, m)) <$> deliveries (fst (node_step e now n)))
    ++ delivery_log (fst (node_run evs (snd (node_step e now n)))).
Proof. simpl. destruct (node_step e now n) as [es n1]. simpl. by destruct (node_run evs n1). Qed.

Lemma log_times evs n u :
  Forall (fun x => u <= x.1) evs -> Forall (fun x => u <= x.1) (delivery_log (fst (node_run evs n))).
Proof.
  intros Hf. revert n. induction Hf as [|[now e] evs Hx _ IH]; intros n; [constructor|].
  rewrite node_run_log. apply Forall_app. split; [|apply IH].
  apply Forall_fmap, Forall_forall. simpl in *. done.
Qed.

Lemma step_filter_ok e now n :
  Replay.rf_ok (replay (router n)) -> zeroTime <= now ->
  Replay.rf_ok (replay (router (snd (node_step e now n))))
  /\ Replay.rf_horizon (replay (router (snd (node_step e now n)))) = Replay.rf_horizon (replay (router n)).
Proof.
  intros Hok Hz. destruct (node_step_replays e now n) as (calls & Hc & Hr & _). rewrite Hr.
  apply Replay.run_calls_ok; [done|]. eapply Forall_impl; [exact Hc|]. simpl. lia.
Qed.

(** While the filter remembers an identifier, no message with it is delivered. *)
Lemma remembered_not_delivered id u evs n :
  Replay.rf_ok (replay (router n)) -> times_ok evs -> Replay.rf_remembers (replay (router n)) id u ->
  Forall (fun x => m_ID x.2 = id -> u < x.1) (delivery_log (fst (node_run evs n))).
Proof.
  revert n. induction evs as [|[now e] evs IH]; intros n Hok Ht Hr; [constructor|].
  apply times_ok_cons in Ht as (Hz & Hlater & Ht).
  destruct (decide (u < now)) as [Hu|Hu].
  { eapply Forall_impl; [apply (log_times _ _ now)|simpl; lia]. by constructor; [simpl|]. }
  destruct (step_filter_ok e now n Hok Hz) as [Hok' _].
  destruct (node_step_replays e now n) as (calls & Hc & Hrep & Hd).
  rewrite node_run_log. apply Forall_app. split.
  - destruct Hd as [->|(m & -> & _ & Hadd)]; [constructor|]. apply Forall_singleton. simpl. intros <-.
    destruct (Replay.rf_hit (m_ID m) now u (replay (router n))) as [Hhit _]; [done|lia|done|congruence].
  - apply IH; [done|done|]. rewrite Hrep. apply Replay.run_keeps; [done|done|].
    eapply Forall_impl; [exact Hc|]. simpl. lia.
Qed.

Lemma deliveries_spaced evs n :
  Replay.rf_ok (replay (router n)) -> times_ok evs ->
  StronglySorted (fun a b => m_ID b.2 = m_ID a.2 -> a.1 + Replay.rf_horizon (replay (router n)) < b.1)
    (delivery_log (fst (node_run evs n))).
Proof.
  revert n. induction evs as [|[now e] evs IH]; intros n Hok Ht; [constructor|].
  apply times_ok_cons in Ht as (Hz & _ & Ht).
  destruct (step_filter_ok e now n Hok Hz) as [Hok' Hh]. specialize (IH _ Hok' Ht). rewrite Hh in IH.
  destruct (node_step_replays e now n) as (calls & _ & Hrep & Hd).
  rewrite node_run_log. destruct Hd as [->|(m & -> & -> & Hadd)]; [done|].
  simpl. constructor; [done|]. simpl.
  apply (remembered_not_delivered (m_ID m) (now + Replay.rf_horizon (replay (router n)))); [done|done|].
  rewrite Hrep. simpl. pose proof (Replay.rf_add (m_ID m) now (replay (router n)) Hok Hz Hadd) as Hrem.
  by destruct (Replay.rf_seen_or_add (m_ID m) now (replay (router n))).
Qed.

(** ** What may leave the node *)

Section outputs.
Context (c : Config).

(** What the application and the radio may see at time [now]. *)
Definition authentic (now : Z) (m : Message) : Prop :=
  m_ID m = ComputeMessageID blake2s (m_Sender m) (m_Timestamp m) (m_TTLSec m) (m_Payload m)
  /\ now < Message_ExpiresAt m
  /\ m_Timestamp m <= now + clockSkewAllowance c
  /\ 0 <= m_Hop m <= maxHop c
  /\ match validate c with Some v => v m = true | None => True end.

Definition allowed (now : Z) (e : effect) : Prop :=
  match e with
  | Broadcast b => (exists f, EncodeChunkFrame f = Ok b /\ f_Hop f <= maxHop c) \/ byte_at b 3 <> wireKindChunk
  | Deliver m => authentic now m
  | AfterFunc _ m => m_Hop m <= maxHop c
  end.

(** Partials come from frames that passed the hop and header checks. *)
Definition part_ok (p : partial) : Prop :=
  0 <= p_hop p <= maxHop c /\ UnixTime (Unix (p_timestamp p)) = p_timestamp p.

Record router_ok (r : Router) : Prop := {
  rk_cfg : cfg r = c;
  rk_hop : 0 <= maxHop c <= 255;
  rk_parts : map_Forall (fun _ p => part_ok p) (r_parts (reasm r));
}.

Definition keeps (now : Z) (a : act) : Prop :=
  forall r, router_ok r -> router_ok (snd (a r)) /\ Forall (allowed now) (fst (a r)).

Lemma keeps_skip now : keeps now skip.
Proof. by intros r Hr. Qed.
Lemma keeps_emit now e : allowed now e -> keeps now (emit e).
Proof. intros He r Hr. split; [done|by constructor]. Qed.
Lemma keeps_modify now f : (forall r, cfg (f r) = cfg r /\ reasm (f r) = reasm r) -> keeps now (modify f).
Proof.
  intros Hf r [H1 H2 H3]. destruct (Hf r) as [E1 E2]. split; [|done].
  split; simpl; rewrite ?E1, ?E2; done.
Qed.
Lemma keeps_andThen now a b : keeps now a -> keeps now b -> keeps now (a;;; b).
Proof.
  intros Ha Hb r Hr. unfold andThen. destruct (Ha r Hr) as [H1 H2]. destruct (a r) as [e1 r1].
  destruct (Hb r1 H1) as [H3 H4]. destruct (b r1) as [e2 r2]. simpl in *. split; [done|]. by apply Forall_app.
Qed.
Lemma keeps_query {A} now (q : Router -> A * Router) k :
  (forall r, cfg (snd (q r)) = cfg r /\ reasm (snd (q r)) = reasm r) ->
  (forall x, keeps now (k x)) -> keeps now (query q k).
Proof.
  intros Hq Hk r [H1 H2 H3]. rewrite query_eq. destruct (Hq r) as [E1 E2]. apply Hk.
  split; rewrite ?E1, ?E2; done.
Qed.
Lemma keeps_reading {A} now (q : Router -> A) k :
  (forall r, router_ok r -> keeps now (k (q r))) -> keeps now (reading q k).
Proof. intros Hk r Hr. by apply Hk. Qed.
Lemma keeps_cfg now (k : Config -> act) : keeps now (k c) -> keeps now (reading cfg k).
Proof. intros Hk r Hr. unfold reading. rewrite (rk_cfg r Hr). by apply Hk. Qed.

(** The calls of the components that the reassembler and the configuration do not see. *)
Lemma pure_guardAllow key now cost r :
  cfg (snd (guardAllow key now cost r)) = cfg r /\ reasm (snd (guardAllow key now cost r)) = reasm r.
Proof. unfold guardAllow. by destruct (AntiFlood.Allow _ _ _ _). Qed.
Lemma pure_guardAllowGlobal now cost r :
  cfg (snd (guardAllowGlobal now cost r)) = cfg r /\ reasm (snd (guardAllowGlobal now cost r)) = reasm r.
Proof. unfold guardAllowGlobal. by destruct (AntiFlood.AllowGlobal _ _ _). Qed.
Lemma pure_cacheHas id now r : cfg (snd (cacheHas id now r)) = cfg r /\ reasm (snd (cacheHas id now r)) = reasm r.
Proof. unfold cacheHas. by destruct (Cache.Has _ _ _). Qed.
Lemma pure_cacheGet id now r : cfg (snd (cacheGet id now r)) = cfg r /\ reasm (snd (cacheGet id now r)) = reasm r.
Proof. unfold cacheGet. by destruct (Cache.Get _ _ _). Qed.
Lemma pure_identity now r : cfg (snd (identity now r)) = cfg r /\ reasm (snd (identity now r)) = reasm r.
Proof. unfold identity. by destruct (currentIdentity _ _). Qed.
Lemma pure_replaySeen id now r : cfg (snd (replaySeen id now r)) = cfg r /\ reasm (snd (replaySeen id now r)) = reasm r.
Proof. unfold replaySeen. by destruct (Replay.rf_seen _ _ _). Qed.
Lemma pure_replaySeenOrAdd id now r :
  cfg (snd (replaySeenOrAdd id now r)) = cfg r /\ reasm (snd (replaySeenOrAdd id now r)) = reasm r.
Proof. unfold replaySeenOrAdd. by destruct (Replay.rf_seen_or_add _ _ _). Qed.
Lemma pure_want_loop items now mx want r :
  cfg (snd (want_loop items now mx want r)) = cfg r /\ reasm (snd (want_loop items now mx want r)) = reasm r.
Proof.
  revert want r. induction items as [|it items IH]; intros want r; simpl; [done|].
  destruct (_ <=? _); [done|]. destruct (negb _); [done|].
  pose proof (pure_cacheHas (it_ID it) now r) as [E1 E2]. destruct (cacheHas _ _ r) as [[] r1]; simpl in *;
    [destruct (IH want r1); split; congruence|].
  pose proof (pure_replaySeen (it_ID it) now r1) as [E3 E4]. destruct (replaySeen _ _ r1) as [[] r2]; simpl in *;
    [destruct (IH want r2) | destruct (IH (want ++ [it_ID it]) r2)]; split; congruence.
Qed.

Lemma keeps_onInvalid from hasFrom now : keeps now (onInvalid from hasFrom now).
Proof. unfold onInvalid. destruct hasFrom; [by apply keeps_modify|apply keeps_skip]. Qed.
Lemma keeps_onRateLimited from hasFrom now : keeps now (onRateLimited from hasFrom now).
Proof. unfold onRateLimited. destruct hasFrom; [by apply keeps_modify|apply keeps_skip]. Qed.

Lemma ChunkMessage_hop msg mx fs : ChunkMessage msg mx = Ok fs -> Forall (fun f => f_Hop f = m_Hop msg) fs.
Proof.
  unfold ChunkMessage. repeat (case_match; try done); intros [= <-]; [by constructor|].
  set (n := Z.to_nat _). generalize 0. induction n as [|n IH]; intros i; simpl; by constructor.
Qed.

Lemma keeps_broadcast_frames now fs :
  Forall (fun f => f_Hop f <= maxHop c) fs -> keeps now (broadcast_frames fs).
Proof.
  induction 1 as [|f fs Hf _ IH]; [apply keeps_skip|]. simpl. destruct (EncodeChunkFrame f) as [b|e] eqn:E; [|done].
  apply keeps_andThen; [|done]. apply keeps_emit. left. eauto.
Qed.

Lemma keeps_rebroadcast msg now : m_Hop msg <= maxHop c -> keeps now (rebroadcast msg now).
Proof.
  intros Hm r Hr. unfold rebroadcast, broadcastMessage.
  assert (forall r cost, router_ok r -> router_ok (snd (guardAllowGlobal now cost r))) as Hg.
  { intros r0 cost [H1 H2 H3]. destruct (pure_guardAllowGlobal now cost r0) as [E1 E2].
    split; rewrite ?E1, ?E2; done. }
  pose proof (Hg r 2%float Hr) as Hr1. destruct (guardAllowGlobal now 2 r) as [[] r1]; [|done].
  destruct (ChunkMessage msg _) as [fs|e] eqn:E; [|done]. simpl in Hr1.
  pose proof (Hg r1 (1 * of_Z (Z.of_nat (length fs)))%float Hr1) as Hr2.
  destruct (guardAllowGlobal now _ r1) as [[] r2]; [|done].
  apply keeps_broadcast_frames; [|done]. eapply Forall_impl; [by eapply ChunkMessage_hop|]. simpl. lia.
Qed.

Lemma keeps_maybeForward msg from hasFrom now rl d :
  0 <= m_Hop msg -> keeps now (maybeForward msg from hasFrom now rl d).
Proof.
  intros Hm. apply keeps_reading. intros r Hr. unfold id.
  rewrite (rk_cfg r Hr). pose proof (rk_hop r Hr).
  destruct (Z.leb_spec (maxHop c) (m_Hop msg)); [apply keeps_skip|].
  destruct (match lastForward r !! m_ID msg with Some _ => _ | None => _ end); [apply keeps_skip|].
  destruct (d_Forward _); [|apply keeps_skip]. simpl negb. cbv iota.
  apply keeps_andThen; [by apply keeps_modify|]. apply keeps_emit. simpl.
  rewrite u8_id by (unfold_ints; lia). lia.
Qed.

Lemma keeps_acceptMessage msg from hasFrom now d :
  authentic now msg -> keeps now (acceptMessage msg from hasFrom now d).
Proof.
  intros Hm. apply keeps_query; [apply pure_replaySeenOrAdd|]. intros [|]; [apply keeps_skip|].
  apply keeps_query; [apply pure_cacheHas|]. intros [|]; [apply keeps_skip|].
  apply keeps_andThen; [by apply keeps_modify|]. apply keeps_andThen; [|apply keeps_maybeForward; apply Hm].
  apply keeps_reading. intros r _. destruct (listening r); [by apply keeps_emit|apply keeps_skip].
Qed.

Lemma decoded_frame raw f :
  bytes_ok raw -> DecodeChunkFrame raw = Ok f -> 0 <= f_Hop f /\ UnixTime (Unix (f_Timestamp f)) = f_Timestamp f.
Proof.
  intros Hb. unfold DecodeChunkFrame. repeat (case_match; try done). intros [= <-]. simpl.
  rewrite Unix_UnixTime. split; [|done]. unfold byte_at. destruct (raw !! Z.to_nat 34) as [x|] eqn:E; simpl; [|lia].
  apply (Forall_lookup_1 _ _ _ _ Hb) in E. unfold_ints. lia.
Qed.

Lemma keeps_handleChunk raw from hasFrom now d : bytes_ok raw -> keeps now (handleChunk raw from hasFrom now d).
Proof.
  intros Hb. apply keeps_cfg. destruct (DecodeChunkFrame raw) as [frame|e] eqn:Ed; [|apply keeps_onInvalid].
  destruct (decoded_frame raw frame Hb Ed) as [Hh Ht].
  unfold After, Before, TimeAdd. destruct (Z.ltb_spec (now + clockSkewAllowance c) (f_Timestamp frame)) as [|Hskew];
    [apply keeps_onInvalid|].
  destruct (negb _); [apply keeps_skip|].
  destruct (Z.ltb_spec (maxHop c) (f_Hop frame)) as [|Hhop]; [apply keeps_skip|].
  apply keeps_query; [apply pure_guardAllow|]. intros [|]; [|apply keeps_onRateLimited]. simpl negb. cbv iota.
  intros r [H1 H2 H3]. rewrite query_eq. unfold reasmAdd.
  destruct (Add_header blake2s part_ok frame now (reasm r)) as [Hparts Hmsg]; [|done|done|].
  { intros p q (_ & E1 & _ & E2). unfold part_ok. by rewrite E1, E2. }
  destruct (Add blake2s frame now (reasm r)) as [added m]. simpl in *.
  assert (router_ok (with_reasm m r)) as Hr' by done.
  destruct added as [[msg []]|e]; [|done|by apply keeps_onInvalid].
  destruct (Hmsg msg eq_refl) as (p & [Hp1 Hp2] & -> & Httl & Hunix).
  destruct (negb _); [by apply keeps_onInvalid|].
  destruct (Z.ltb_spec now (Message_ExpiresAt (assemble blake2s p))) as [Hexp|]; [|by apply keeps_skip].
  simpl negb. cbv iota.
  assert (p_timestamp p = f_Timestamp frame) as Hts by congruence.
  destruct (match validate c with Some _ => _ | None => _ end) eqn:Ev; [by apply keeps_onInvalid|].
  apply keeps_acceptMessage; [|done]. split; [done|]. split; [done|]. split; [simpl; lia|]. split; [done|].
  destruct (validate c) as [v|]; [|done]. by destruct (v _).
Qed.

Lemma allowed_header now kind b : kind <> wireKindChunk -> allowed now (Broadcast (header kind ++ b)).
Proof. intros Hk. right. exact Hk. Qed.

Lemma keeps_gate from hasFrom now k : keeps now k -> keeps now (rate_gate from hasFrom now k).
Proof.
  intros Hk. unfold rate_gate. destruct hasFrom; [|done].
  apply keeps_query; [apply pure_guardAllow|]. intros [|]; [done|apply (keeps_onRateLimited from true)].
Qed.

Lemma keeps_handleInventory raw from hasFrom now : keeps now (handleInventory raw from hasFrom now).
Proof.
  apply keeps_gate, keeps_cfg. destruct (DecodeInventory raw) as [inv|e]; [|apply keeps_onInvalid].
  destruct (After _ _); [apply keeps_skip|].
  apply keeps_query; [apply pure_want_loop|]. intros want. destruct (bool_decide _); [apply keeps_skip|].
  apply keeps_query; [apply pure_identity|]. intros id.
  apply keeps_query; [apply pure_guardAllowGlobal|]. intros [|]; [|apply keeps_skip].
  by apply keeps_emit, allowed_header.
Qed.

Lemma keeps_handleWant raw from hasFrom now : 0 <= maxHop c -> keeps now (handleWant raw from hasFrom now).
Proof.
  intros Hc. apply keeps_gate. destruct (DecodeWant raw) as [w|e]; [|apply keeps_onInvalid].
  induction (wf_Wants w) as [|x ws IH]; [apply keeps_skip|]. simpl.
  apply keeps_query; [apply pure_cacheGet|]. intros e. apply keeps_andThen; [|done].
  destruct e as [e|]; [|apply keeps_skip]. case_match; [apply keeps_skip|]. by apply keeps_rebroadcast.
Qed.

Lemma keeps_handleFrame raw from hasFrom now d :
  0 <= maxHop c -> bytes_ok raw -> keeps now (handleFrame raw from hasFrom now d).
Proof.
  intros Hc Hb. unfold handleFrame. destruct (DecodeHeader raw) as [[ver kind] ok].
  destruct (_ || _); [apply keeps_onInvalid|].
  apply keeps_andThen; [destruct hasFrom; [by apply keeps_modify|apply keeps_skip]|].
  apply keeps_reading. intros r _. destruct (hasFrom && _); [apply keeps_skip|].
  destruct (kind =? _); [by apply keeps_handleChunk|].
  destruct (kind =? _); [apply keeps_handleInventory|].
  destruct (kind =? _); [by apply keeps_handleWant|apply keeps_skip].
Qed.

Lemma keeps_inventory now : keeps now (maybeBroadcastInventory now).
Proof.
  apply keeps_reading. intros r _. unfold id. destruct (_ && _); [apply keeps_skip|].
  apply keeps_query; [apply pure_guardAllowGlobal|]. intros [|]; [|apply keeps_skip]. simpl negb. cbv iota.
  destruct (bool_decide _); [apply keeps_skip|].
  apply keeps_query; [apply pure_identity|]. intros x.
  apply keeps_andThen; [by apply keeps_emit, allowed_header|by apply keeps_modify].
Qed.

Lemma keeps_cover noise now : keeps now (broadcastCover noise now).
Proof.
  apply keeps_query; [apply pure_identity|]. intros _. apply keeps_reading. intros r _.
  unfold EncodeCover. destruct (_ <? 0); [apply keeps_skip|].
  apply keeps_query; [apply pure_guardAllowGlobal|]. intros [|]; [|apply keeps_skip].
  by apply keeps_emit, allowed_header.
Qed.

Lemma keeps_Send now payload ttl : 0 <= maxHop c -> keeps now (fun r => snd (Send now payload ttl r)).
Proof.
  intros Hc r Hr. unfold Send. destruct (pure_identity now r) as [E1 E2].
  destruct (identity now r) as [x r1]. simpl in *.
  assert (router_ok r1) as Hr1 by (destruct Hr; split; rewrite ?E1, ?E2; done).
  destruct (NewMessage _ _ _ _ _) as [msg|e] eqn:Em; [|done].
  destruct (match validate (cfg r1) with Some _ => _ | None => _ end); [done|].
  unfold cachePut, modify. set (r2 := with_cache _ r1).
  assert (m_Hop msg <= maxHop c) as Hm.
  { unfold NewMessage in Em. destruct (ttl =? 0); simplify_eq. done. }
  pose proof (keeps_rebroadcast msg now Hm r2) as Hk. unfold rebroadcast in Hk.
  destruct (broadcastMessage msg now r2) as [[e|] out]; apply Hk; by destruct Hr1.
Qed.

Lemma keeps_sweep now : keeps now (sweep now).
Proof.
  intros r [H1 H2 H3]. split; [|done]. split; [done|done|]. simpl.
  intros id p [Hp _]%map_lookup_filter_Some. by apply (H3 id).
Qed.

(** The received bytes are bytes. *)
Definition event_ok (e : event) : Prop :=
  match e with EvFrame raw _ _ _ => bytes_ok raw | _ => True end.

Definition node_ok (n : Node) : Prop :=
  router_ok (router n) /\ Forall (fun p => m_Hop p.2 <= maxHop c) (pending n).

Lemma keeps_handle e now timers :
  0 <= maxHop c -> event_ok e -> Forall (fun p => m_Hop p.2 <= maxHop c) timers -> keeps now (handle e now timers).
Proof.
  intros Hc He Ht. destruct e as [payload ttl|raw from hasFrom d| | |noise|every size|k]; cbn [handle].
  - by apply keeps_Send.
  - by apply keeps_handleFrame.
  - apply keeps_sweep.
  - apply keeps_inventory.
  - apply keeps_andThen; [apply keeps_cover|by apply keeps_modify].
  - by apply keeps_modify.
  - destruct (timers !! k) as [[due m]|] eqn:E; [|apply keeps_skip].
    apply keeps_rebroadcast. by apply (Forall_lookup_1 _ _ _ _ Ht E).
Qed.

Lemma node_step_ok e now n :
  node_ok n -> event_ok e ->
  node_ok (snd (node_step e now n)) /\ Forall (allowed now) (fst (node_step e now n)).
Proof.
  intros [Hr Hp] He. unfold node_step. destruct (fires _ _ _); [|done].
  pose proof (rk_hop _ Hr) as Hc.
  destruct (keeps_handle e now (pending n) ltac:(lia) He Hp (router n) Hr) as [H1 H2].
  destruct (handle e now (pending n) (router n)) as [es r']. simpl in *. split; [|done]. split; [done|]. simpl.
  apply Forall_app. split.
  - destruct e; try done. by apply Forall_delete.
  - clear -H2. induction H2 as [|[b|m|d m] es Hx _ IH]; simpl; try done. by constructor.
Qed.

Lemma node_run_ok evs n :
  node_ok n -> Forall (fun x => event_ok x.2) evs ->
  Forall (fun x => Forall (allowed x.1) x.2) (fst (node_run evs n)).
Proof.
  intros Hn He. revert n Hn. induction He as [|[now e] evs Hx _ IH]; intros n Hn; [constructor|]. simpl.
  destruct (node_step_ok e now n Hn Hx) as [H1 H2]. destruct (node_step e now n) as [es n1].
  specialize (IH n1 H1). destruct (node_run evs n1). by constructor.
Qed.
End outputs.

Lemma NewRouter_parts o now i r : NewRouter true true o now i = Ok r ->
  r_parts (reasm r) = ∅ /\ replay r = newReplay (o_ReplayBucketDuration o) (o_ReplayWindowDuration o)
  /\ (0 <= o_MaxHop o <= 255 -> 0 <= maxHop (cfg r) <= 255).
Proof.
  unfold NewRouter. intros [= <-]. simpl. split_and!; [done|done|].
  destruct (o_MaxHop o =? 0); lia.
Qed.

(** ** What the node asks its neighbours for *)

Definition worth_asking (items : list InventoryItem) (now : Z) (r : Router) (w : list Z) : Prop :=
  (exists it, it ∈ items /\ it_ID it = w /\ now < it_ExpiresAt it)
  /\ ~ Replay.rf_remembers (replay r) w now.

Lemma want_loop_spec items now max want r :
  Replay.rf_ok (replay r) -> zeroTime <= now -> Z.of_nat (length want) <= Z.max 0 max ->
  exists added, fst (want_loop items now max want r) = want ++ added
    /\ Forall (worth_asking items now r) added
    /\ Z.of_nat (length (want ++ added)) <= Z.max 0 max.
Proof.
  intros Hok Hz. revert want r Hok. induction items as [|it items IH]; intros want r Hok Hl; simpl.
  { exists []. by rewrite app_nil_r. }
  destruct (Z.leb_spec max (Z.of_nat (length want))) as [Hfull|Hroom]; [exists []; by rewrite app_nil_r|].
  assert (forall r0 added, replay r0 = replay r \/ (forall w, Replay.rf_remembers (replay r) w now -> Replay.rf_remembers (replay r0) w now) ->
    Forall (worth_asking items now r0) added -> Forall (worth_asking (it :: items) now r) added) as Hlift.
  { intros r0 added Hr0 Ha. eapply Forall_impl; [exact Ha|]. intros w [(it' & H1 & H2 & H3) Hn]. split.
    - exists it'. split; [by right|done].
    - intros Hw. apply Hn. destruct Hr0 as [->|Hr0]; [done|by apply Hr0]. }
  unfold Before. destruct (Z.ltb_spec now (it_ExpiresAt it)) as [Hexp|Hgone]; simpl.
  2: { destruct (IH want r Hok Hl) as (added & H1 & H2 & H3). exists added. split_and!; [done| |done].
       apply (Hlift r); [by left|done]. }
  assert (replay (snd (cacheHas (it_ID it) now r)) = replay r) as Hc
    by (unfold cacheHas; by destruct (Cache.Has _ _ _)).
  destruct (cacheHas _ _ r) as [[] r1]; simpl in Hc.
  { destruct (IH want r1) as (added & H1 & H2 & H3); [by rewrite Hc|done|]. exists added. split_and!; [done| |done].
    apply (Hlift r1); [by left|done]. }
  unfold replaySeen. destruct (Replay.rf_seen (it_ID it) now (replay r1)) as [seen p] eqn:E.
  assert (Replay.rf_ok p) as Hp.
  { destruct (Replay.rf_ok_step (it_ID it) now (replay r)) as [_ Hs]; [done|done|]. by rewrite <- Hc, E in Hs. }
  assert (forall w, Replay.rf_remembers (replay r) w now -> Replay.rf_remembers p w now) as Hkeep.
  { intros w Hw. destruct (Replay.rf_keep w (it_ID it) now now (replay r) Hok ltac:(lia) Hw) as [_ Hs].
    by rewrite <- Hc, E in Hs. }
  set (r2 := with_replay p r1). destruct seen.
  - destruct (IH want r2) as (added & H1 & H2 & H3); [done|done|]. exists added. split_and!; [done| |done].
    apply (Hlift r2); [by right|done].
  - destruct (IH (want ++ [it_ID it]) r2) as (added & H1 & H2 & H3); [done|rewrite length_app; simpl; lia|].
    exists (it_ID it :: added). rewrite H1, <- app_assoc. split; [done|]. split; [|by rewrite <- app_assoc in H3].
    constructor; [|apply (Hlift r2); [by right|done]]. split; [exists it; split; [by left|done]|].
    intros Hw. destruct (Replay.rf_hit (it_ID it) now now (replay r) Hok ltac:(lia) Hw) as [_ Hs].
    rewrite <- Hc, E in Hs. done.
Qed.
End Router.

Arguments router {I F}.
Arguments pending {I F}.

(** ** The router's theorems *)

#[local] Existing Instance Replay.protector_replay_filter.

(** C1: At most once.  In every run of a node, whatever it sends, receives and forwards,
    with a clock that does not run backwards, two messages with the same identifier are
    handed to the application only if the replay horizon (by default 590 seconds) lies
    between them. *)
Theorem at_most_once_delivery blake2s {I} (currentIdentity : Z -> I -> Identity.Identity * I) o t0 i r evs :
  o_ReplayBucketDuration o <= max_i64 -> o_ReplayWindowDuration o <= max_i64 ->
  NewRouter Replay.New true true o t0 i = Ok r -> times_ok evs ->
  let horizon := Replay.horizon (Replay.New (o_ReplayBucketDuration o) (o_ReplayWindowDuration o)) in
  StronglySorted (fun a b => m_ID b.2 = m_ID a.2 -> a.1 + horizon < b.1)
    (delivery_log (fst (node_run blake2s currentIdentity evs (mkNode (SetOnMessage r) [])))).
Proof.
  intros Hb Hw Hr Ht horizon. destruct (NewRouter_parts _ _ _ _ _ Hr) as (_ & Hf & _).
  assert (Replay.rf_horizon (replay (SetOnMessage r)) = horizon) as <- by (simpl; by rewrite Hf).
  apply (deliveries_spaced blake2s currentIdentity evs (mkNode (SetOnMessage r) [])); [|done].
  simpl. rewrite Hf. by apply Replay.protector_New_ok.
Qed.

(** C5: Whatever frames a node receives and whatever it is told to send, from [NewRouter]
    on: a message handed to the application carries the identifier recomputed from its
    sender, time, lifetime and payload, is not expired, not from the future beyond the
    clock allowance, within the hop limit and accepted by the validator; every chunk frame
    broadcast, and every forward whose timer is armed, is within the hop limit. *)
Theorem node_outputs_allowed blake2s {I} (currentIdentity : Z -> I -> Identity.Identity * I) o t0 i r evs :
  0 <= o_MaxHop o <= 255 -> NewRouter Replay.New true true o t0 i = Ok r ->
  Forall (fun x => event_ok x.2) evs ->
  Forall (fun x => Forall (allowed blake2s (cfg r) x.1) x.2)
    (fst (node_run blake2s currentIdentity evs (mkNode (SetOnMessage r) []))).
Proof.
  intros Hh Hr He. destruct (NewRouter_parts _ _ _ _ _ Hr) as (Hp & _ & Hm). apply node_run_ok; [|done].
  split; [|constructor]. split; [done|by apply Hm|]. simpl. rewrite Hp. apply map_Forall_empty.
Qed.

(** A want request is worth making: what [handleInventory] broadcasts asks only for
    identifiers that the inventory lists as unexpired and that the replay filter does not
    remember having accepted, at most [wantMax] of them; it broadcasts nothing else. *)
Theorem want_requests_are_fresh {I F} `{Replay.ReplayFilter F}
    (currentIdentity : Z -> I -> Identity.Identity * I) raw from hasFrom now (r : Router (I:=I) (F:=F)) :
  Replay.rf_ok (replay r) -> zeroTime <= now ->
  fst (handleInventory currentIdentity raw from hasFrom now r) = []
  \/ exists inv sender want, DecodeInventory raw = Ok inv
     /\ fst (handleInventory currentIdentity raw from hasFrom now r) = [Broadcast (EncodeWant sender want (wantMax (cfg r)))]
     /\ Forall (worth_asking (iv_Items inv) now r) want
     /\ Z.of_nat (length want) <= Z.max 0 (wantMax (cfg r)).
Proof.
  intros Hok Hz. unfold handleInventory, rate_gate. set (body := reading cfg _).
  assert (forall r0, cfg r0 = cfg r -> replay r0 = replay r ->
    fst (body r0) = [] \/ exists inv sender want, DecodeInventory raw = Ok inv
     /\ fst (body r0) = [Broadcast (EncodeWant sender want (wantMax (cfg r)))]
     /\ Forall (worth_asking (iv_Items inv) now r) want
     /\ Z.of_nat (length want) <= Z.max 0 (wantMax (cfg r))) as Hb.
  { intros r0 Ec Er. subst body. unfold reading. rewrite Ec.
    destruct (DecodeInventory raw) as [inv|e]; [|left; unfold onInvalid; by destruct hasFrom].
    destruct (After _ _); [by left|]. rewrite query_eq.
    destruct (want_loop_spec (iv_Items inv) now (wantMax (cfg r)) [] r0) as (want & Hw & Hall & Hlen);
      [by rewrite Er|done|simpl; lia|].
    rewrite Hw. simpl. destruct (bool_decide _); [by left|]. rewrite !query_eq.
    destruct (fst (guardAllowGlobal _ _ _)); [right|by left].
    eexists inv, _, want. split; [done|]. split; [done|]. split; [|done].
    eapply Forall_impl; [exact Hall|]. unfold worth_asking. by rewrite Er. }
  destruct hasFrom; [|by apply Hb]. rewrite query_eq.
  unfold guardAllow. destruct (AntiFlood.Allow _ _ _ _) as [[] g]; simpl; [by apply Hb|by left].
Qed.

(** A neighbour the scorer refuses stays refused when its frame is counted. *)
Lemma OnSeen_refused from now s :
  Scoring.AllowFrom from now s = false -> Scoring.AllowFrom from now (Scoring.OnSeen from now s) = false.
Proof.
  unfold Scoring.AllowFrom, Scoring.OnSeen. rewrite lookup_insert_eq. by destruct (s !! from).
Qed.

(** A frame that is refused costs the node nothing: if its header is not the protocol's
    only the sender's invalid count (and quarantine) changes; if the sender is quarantined
    only its seen count changes.  In both cases nothing is sent, delivered or scheduled. *)
Theorem refused_frame_is_isolated blake2s {I F} `{Replay.ReplayFilter F}
    (currentIdentity : Z -> I -> Identity.Identity * I) raw from now d (r : Router (I:=I) (F:=F)) :
  let '(ver, kind, ok) := DecodeHeader raw in
  let out := handleFrame blake2s currentIdentity raw from true now d r in
  (ok && (ver =? 1) = false -> out = ([], with_scorer (Scoring.OnInvalidAt from now (scorer r)) r))
  /\ (ok && (ver =? 1) = true -> Scoring.AllowFrom from now (scorer r) = false ->
      out = ([], with_scorer (Scoring.OnSeen from now (scorer r)) r)).
Proof.
  unfold handleFrame. destruct (DecodeHeader raw) as [[ver kind] ok].
  rewrite <- negb_andb. destruct (ok && (ver =? 1)); simpl; (split; [done|]); [|done].
  intros _ Ha. unfold andThen, modify, reading. simpl. by rewrite OnSeen_refused.
Qed.

(** ** Witnesses: a node that receives a two-frame message, one frame twice *)

Definition wit_identity (now i : Z) : Identity.Identity * Z := (Identity.mkIdentity (replicate 8 3) (replicate 32 1), i).

Definition wit_options : Options :=
  mkOptions 42 4 0 0 0 0 0 0 0 0 0 0 0 0 0 0 0 0 0 0 0 (Some (fun m => negb (bool_decide (m_Payload m = [])))).

Definition wit_t : Z := 1700000000 * Second.

Definition wit_message : Message :=
  match NewMessage toy_hash (replicate 8 9) wit_t 60 [1; 2; 3; 4; 5] with Ok m => m | Err _ => zeroMessage end.

Definition wit_raw (k : nat) : list Z :=
  match ChunkMessage wit_message 42 with
  | Ok fs => match fs !! k with Some f => match EncodeChunkFrame f with Ok b => b | Err _ => [] end | None => [] end
  | Err _ => []
  end.

Definition wit_router : Router (I:=Z) (F:=Replay.Protector) :=
  match NewRouter Replay.New true true wit_options wit_t 0 with
  | Ok r => r
  | Err _ => mkRouter (mkConfig 0 0 0 0 0 NewEngine 0 0 0 None) (Cache.New 0) (NewReassembler 0) ∅
      (AntiFlood.New (AntiFlood.mkOptions 0 0 0 0) 0) (Replay.New 0 0) 0 0 0 0 0 ∅ false
  end.

Definition wit_events : list (Z * event) :=
  let d := mkDraw 0.1 12345 in
  let from := replicate 8 5 in
  [(wit_t + Second, EvFrame (wit_raw 1) from true d); (wit_t + Second, EvFrame (wit_raw 1) from true d);
   (wit_t + 2 * Second, EvFrame (wit_raw 0) from true d); (wit_t + 3 * Second, EvTimer 0);
   (wit_t + 4 * Second, EvFrame (wit_raw 0) from true d); (wit_t + 4 * Second, EvFrame (wit_raw 1) from true d);
   (wit_t + 9 * Second, EvInventory); (wit_t + 9 * Second, EvSend [7] 30)].

Lemma at_most_once_delivery_witness :
  StronglySorted (fun a b => m_ID b.2 = m_ID a.2 -> a.1 + Replay.horizon (Replay.New 0 0) < b.1)
    (delivery_log (fst (node_run toy_hash wit_identity wit_events (mkNode (SetOnMessage wit_router) []))))
  /\ length (delivery_log (fst (node_run toy_hash wit_identity wit_events (mkNode (SetOnMessage wit_router) [])))) = 1%nat.
Proof.
  split; [|vm_compute; reflexivity].
  apply (at_most_once_delivery toy_hash wit_identity wit_options wit_t 0 wit_router wit_events).
  - decided.
  - decided.
  - reflexivity.
  - split; [|decided]. repeat constructor; decided.
Defined.

Lemma node_outputs_allowed_witness :
  Forall (fun x => Forall (allowed toy_hash (cfg wit_router) x.1) x.2)
    (fst (node_run toy_hash wit_identity wit_events (mkNode (SetOnMessage wit_router) []))).
Proof.
  apply (node_outputs_allowed toy_hash wit_identity wit_options wit_t 0 wit_router wit_events).
  - decided.
  - reflexivity.
  - repeat (apply Forall_cons; split); try exact I; try apply Forall_nil_2; decided.
Defined.

Lemma want_requests_are_fresh_witness :
  let raw := EncodeInventory (replicate 8 5) wit_t [mkItem (replicate 16 1) (wit_t + Minute)] 12 in
  fst (handleInventory wit_identity raw (replicate 8 5) true wit_t wit_router) = []
  \/ exists inv sender want, DecodeInventory raw = Ok inv
     /\ fst (handleInventory wit_identity raw (replicate 8 5) true wit_t wit_router)
        = [Broadcast (EncodeWant sender want (wantMax (cfg wit_router)))]
     /\ Forall (worth_asking (iv_Items inv) wit_t wit_router) want
     /\ Z.of_nat (length want) <= Z.max 0 (wantMax (cfg wit_router)).
Proof.
  apply want_requests_are_fresh; [|decided]. simpl. apply Replay.protector_New_ok; decided.
Defined.
