(* ===== verification/Transport.v ===== *)
(** * Choosing and fusing transports ([core/transport])

    [transport_selector]: which media carry a payload.  [transport_manager]: the fused
    transport that broadcasts over the chosen ones.  A transport is any type with the
    [Transport] interface; a nil interface value is [None]. *)

From S2P Require Import Prelude Float64.
#[local] Open Scope string_scope.
#[local] Open Scope Z_scope.

Inductive Profile := ProfileStealth | ProfileBalanced | ProfilePerformance | ProfileOther (n : Z).
Inductive Preference := PreferenceAny | PreferencePreferBLE | PreferencePreferWiFi | PreferencePreferLoRa | PreferenceOther (n : Z).

#[export] Instance Preference_eq_dec : EqDecision Preference.
Proof. solve_decision. Defined.

(** [transport_selector.Candidate], the part of a transport the selector sees. *)
Record Candidate := mkCandidate {
  cand_Name : string;
  cand_Available : bool;
}.

(** [append(names, name)] for every available candidate of that name. *)
Definition named (n : string) (available : list Candidate) : list string :=
  (fun _ => n) <$> filter (fun c => cand_Name c = n) available.

Definition nonempty {A} (l : list A) : bool := match l with [] => false | _ => true end.

(** [Selector.Decide]; nil candidates are [None]. *)
Definition Decide (profile : Profile) (candidates : list (option Candidate)) (pref : Preference)
    (payloadBytes : Z) (multipath : bool) : list string :=
  let available := filter (fun c => cand_Available c = true) (omap id candidates) in
  if negb (nonempty available) then []
  else
    let ble := named "ble" available in
    let wifi := named "wifi_direct" available in
    let lora := named "lora" available in
    let by_profile :=
      match profile with
      | ProfileStealth =>
          if multipath && nonempty ble && nonempty lora && (payloadBytes <=? 200) then ["ble"; "lora"]
          else if nonempty ble then ble
          else if nonempty wifi then wifi
          else lora
      | ProfilePerformance =>
          if multipath && nonempty wifi && nonempty lora && (payloadBytes <=? 200) then ["wifi_direct"; "lora"]
          else if nonempty wifi then wifi
          else if multipath && nonempty ble && nonempty lora && (payloadBytes <=? 200) then ["ble"; "lora"]
          else if nonempty ble then ble
          else lora
      | _ =>
          if multipath && nonempty ble && nonempty wifi then ["ble"; "wifi_direct"]
          else if multipath && nonempty wifi && nonempty lora && (payloadBytes <=? 200) then ["wifi_direct"; "lora"]
          else if multipath && nonempty ble && nonempty lora && (payloadBytes <=? 200) then ["ble"; "lora"]
          else if (800 <? payloadBytes) && nonempty wifi then wifi
          else if nonempty ble then ble
          else if nonempty wifi then wifi
          else if (payloadBytes <=? 200) && nonempty lora then lora
          else lora
      end in
    match pref with
    | PreferencePreferBLE =>
        if nonempty ble then ble else if nonempty wifi then wifi else if nonempty lora then lora else by_profile
    | PreferencePreferWiFi =>
        if nonempty wifi then wifi else if nonempty ble then ble else if nonempty lora then lora else by_profile
    | PreferencePreferLoRa =>
        if nonempty lora then lora else if nonempty ble then ble else if nonempty wifi then wifi else by_profile
    | _ => by_profile
    end.

(** ** The decision *)

(** Some candidate of that name is there and available. *)
Definition reachable (cs : list (option Candidate)) (n : string) : Prop := Some (mkCandidate n true) ∈ cs.

Lemma elem_named x n l : x ∈ named n l <-> x = n /\ Exists (fun c => cand_Name c = n) l.
Proof.
  unfold named. rewrite list_elem_of_fmap, Exists_exists. split.
  - intros (c & -> & Hc). apply list_elem_of_filter in Hc as [H1 H2]. eauto.
  - intros [-> (c & H1 & H2)]. exists c. split; [done|]. by apply list_elem_of_filter.
Qed.

Lemma named_reachable n cs :
  nonempty (named n (filter (fun c => cand_Available c = true) (omap id cs))) = true <-> reachable cs n.
Proof.
  set (l := filter _ _).
  assert (nonempty (named n l) = true <-> exists c, c ∈ l /\ cand_Name c = n) as ->.
  { rewrite <- Exists_exists. destruct (named n l) as [|x k] eqn:E; simpl.
    - split; [done|]. intros He. exfalso. assert (n ∈ named n l) as Hn by (by apply elem_named).
      rewrite E in Hn. by apply not_elem_of_nil in Hn.
    - split; [|done]. intros _. assert (x ∈ named n l) as Hn by (rewrite E; by left). by apply elem_named in Hn as [_ Hn]. }
  unfold reachable. split.
  - intros ([m a] & Hc & Hm). simpl in Hm. subst m. apply list_elem_of_filter in Hc as [Ha Hc].
    apply list_elem_of_omap in Hc as (o & Ho & E). unfold id in E. subst o. simpl in Ha. by subst a.
  - intros Hc. exists (mkCandidate n true). split; [|done]. apply list_elem_of_filter. split; [done|].
    apply list_elem_of_omap. eauto.
Qed.

(** What the decision depends on: which media are reachable. *)
Definition sound_choice (b w l : bool) (pref : Preference) (payloadBytes : Z) (names : list string) : Prop :=
  Forall (fun n => n = "ble" /\ b = true \/ n = "wifi_direct" /\ w = true \/ n = "lora" /\ l = true) names
  /\ (names = [] <-> b || w || l = false)
  /\ ("lora" ∈ names -> payloadBytes <= 200 \/ pref = PreferencePreferLoRa \/ b || w = false)
  /\ (pref = PreferencePreferBLE -> b = true -> Forall (fun n => n = "ble") names)
  /\ (pref = PreferencePreferWiFi -> w = true -> Forall (fun n => n = "wifi_direct") names)
  /\ (pref = PreferencePreferLoRa -> l = true -> Forall (fun n => n = "lora") names).

Lemma named_all n l : Forall (fun x => x = n) (named n l).
Proof. apply Forall_forall. intros x Hx. by apply elem_named in Hx as [-> _]. Qed.

Lemma choice_named n names b w l pref pl :
  Forall (fun x => x = n) names -> nonempty names = true ->
  (n = "ble" /\ b = true \/ n = "wifi_direct" /\ w = true \/ n = "lora" /\ l = true) ->
  (n = "lora" -> pl <= 200 \/ pref = PreferencePreferLoRa \/ b || w = false) ->
  (pref = PreferencePreferBLE -> b = true -> n = "ble") ->
  (pref = PreferencePreferWiFi -> w = true -> n = "wifi_direct") ->
  (pref = PreferencePreferLoRa -> l = true -> n = "lora") ->
  sound_choice b w l pref pl names.
Proof.
  intros Hall Hne Hn Hl H1 H2 H3. unfold sound_choice. destruct names as [|x names]; [done|].
  split_and!.
  - eapply Forall_impl; [exact Hall|]. by intros y ->.
  - split; [done|]. intros Hf. apply orb_false_iff in Hf as [[-> ->]%orb_false_iff ->].
    by destruct Hn as [[_ ?]|[[_ ?]|[_ ?]]].
  - intros Hx. rewrite Forall_forall in Hall. apply Hl. symmetry. by apply Hall.
  - intros Hp Hb. rewrite <- (H1 Hp Hb). done.
  - intros Hp Hb. rewrite <- (H2 Hp Hb). done.
  - intros Hp Hb. rewrite <- (H3 Hp Hb). done.
Qed.

Lemma choice_empty b w l pref pl : b || w || l = false -> sound_choice b w l pref pl [].
Proof.
  intros Hn. unfold sound_choice. split; [constructor|]. split; [done|].
  split; [by intros ?%not_elem_of_nil|]. repeat split; constructor.
Qed.

Definition not_preferring (pref : Preference) : Prop :=
  pref <> PreferencePreferBLE /\ pref <> PreferencePreferWiFi /\ pref <> PreferencePreferLoRa.

Lemma choice_pair n m b w l pref pl :
  not_preferring pref ->
  (n = "ble" /\ b = true \/ n = "wifi_direct" /\ w = true) ->
  (m = "wifi_direct" /\ w = true \/ m = "lora" /\ l = true /\ pl <= 200) ->
  sound_choice b w l pref pl [n; m].
Proof.
  intros (Hp1 & Hp2 & Hp3) Hn Hm. unfold sound_choice. split_and!; try done.
  - apply Forall_cons. split; [tauto|]. apply Forall_singleton. tauto.
  - split; [done|]. intros [[-> ->]%orb_false_iff ->]%orb_false_iff. by destruct Hn as [[_ ?]|[_ ?]].
  - intros Hl. apply elem_of_cons in Hl as [<-|Hl]; [by destruct Hn as [[? _]|[? _]]|].
    apply list_elem_of_singleton in Hl as <-. destruct Hm as [[? _]|(_ & _ & ?)]; [done|by left].
Qed.

Lemma Decide_sound profile cs pref pl mp :
  let av := filter (fun c => cand_Available c = true) (omap id cs) in
  sound_choice (nonempty (named "ble" av)) (nonempty (named "wifi_direct" av)) (nonempty (named "lora" av))
    pref pl (Decide profile cs pref pl mp).
Proof.
  cbv zeta. unfold Decide. set (av := filter _ _).
  pose proof (named_all "ble" av) as Hb. pose proof (named_all "wifi_direct" av) as Hw.
  pose proof (named_all "lora" av) as Hl.
  destruct (nonempty av) eqn:Eav; simpl; [|destruct av; [by apply choice_empty|done]].
  revert Hb Hw Hl. generalize (named "ble" av) (named "wifi_direct" av) (named "lora" av). clear Eav av.
  intros ble wifi lora Hb Hw Hl.
  destruct (nonempty ble) eqn:Eb, (nonempty wifi) eqn:Ew, (nonempty lora) eqn:El, pref, profile; simpl.
  all: repeat match goal with |- context [if ?x then _ else _] =>
         lazymatch x with
         | context [if _ then _ else _] => fail
         | _ => let E := fresh "E" in destruct x eqn:E; simpl
         end end.
  all: try (apply choice_empty; reflexivity).
  all: repeat match goal with E : _ && _ = true |- _ => apply andb_prop in E as [? E] end.
  all: try discriminate.
  all: first [ apply choice_pair
             | apply (choice_named "ble"); [assumption|assumption|..]
             | apply (choice_named "wifi_direct"); [assumption|assumption|..]
             | apply (choice_named "lora"); [assumption|assumption|..]
             | destruct lora; [by apply choice_empty|discriminate El] ].
  all: first [by intros | by split_and! | by left | by right | by right; left | by right; right
             | right; split_and!; [done|done|lia] | intros _; left; lia].
Qed.

(** The selector only names media of which an available candidate exists, and names
    none only if there is no such candidate; it puts a payload over 200 bytes on LoRa only
    if the caller prefers LoRa or neither BLE nor Wi-Fi Direct is reachable; and a preferred
    medium that is reachable is used alone. *)
Theorem selector_decision profile cs pref payloadBytes multipath :
  let names := Decide profile cs pref payloadBytes multipath in
  (forall n, n ∈ names -> reachable cs n /\ n ∈ ["ble"; "wifi_direct"; "lora"])
  /\ (names = [] <-> ~ reachable cs "ble" /\ ~ reachable cs "wifi_direct" /\ ~ reachable cs "lora")
  /\ ("lora" ∈ names -> payloadBytes <= 200 \/ pref = PreferencePreferLoRa
      \/ ~ reachable cs "ble" /\ ~ reachable cs "wifi_direct")
  /\ (pref = PreferencePreferBLE -> reachable cs "ble" -> forall n, n ∈ names -> n = "ble")
  /\ (pref = PreferencePreferWiFi -> reachable cs "wifi_direct" -> forall n, n ∈ names -> n = "wifi_direct")
  /\ (pref = PreferencePreferLoRa -> reachable cs "lora" -> forall n, n ∈ names -> n = "lora").
Proof.
  intros names. pose proof (Decide_sound profile cs pref payloadBytes multipath) as H. fold names in H.
  destruct H as (H1 & H2 & H3 & H4 & H5 & H6). rewrite Forall_forall in H1.
  rewrite <- !named_reachable, !not_true_iff_false. split_and!.
  - intros n Hn. specialize (H1 n Hn).
    destruct H1 as [[-> E]|[[-> E]|[-> E]]]; (split; [by apply named_reachable|]); rewrite !elem_of_cons; tauto.
  - rewrite H2, !orb_false_iff. tauto.
  - intros Hl. destruct (H3 Hl) as [?|[?|Hbw%orb_false_iff]]; tauto.
  - intros Hp Hb n. specialize (H4 Hp Hb). rewrite Forall_forall in H4. apply H4.
  - intros Hp Hb n. specialize (H5 Hp Hb). rewrite Forall_forall in H5. apply H5.
  - intros Hp Hb n. specialize (H6 Hp Hb). rewrite Forall_forall in H6. apply H6.
Qed.

(** ** The fused transport *)

(** [transport_manager.Transport], with what the loops of [Broadcast] rely on: sending
    changes neither the name nor the availability. *)
Class Transport (T : Type) := {
  t_Name : T -> string;
  t_Available : T -> bool;
  t_Broadcast : list Z -> T -> option string * T;  (** the error, if any *)
  t_LinkScore : list Z -> Z -> T -> float;
  t_Broadcast_name data t : t_Name (snd (t_Broadcast data t)) = t_Name t;
  t_Broadcast_available data t : t_Available (snd (t_Broadcast data t)) = t_Available t;
}.

Inductive fused_err := ErrNoTransport.

Section Fused.
Context {T : Type} `{Transport T}.

Record FusedTransport := mkFused {
  ft_profile : Profile;
  ft_multipath : bool;
  ft_transports : list (option T);
  ft_preference : Preference;
}.

Definition NewFused (profile : Profile) (multipath : bool) (transports : list (option T)) : res fused_err FusedTransport :=
  if nonempty transports then Ok (mkFused profile multipath transports PreferenceAny) else Err ErrNoTransport.

Definition usable (o : option T) : bool := match o with Some t => t_Available t | None => false end.

Definition Available (f : FusedTransport) : bool := existsb usable (ft_transports f).

Definition with_preference (pref : Preference) (f : FusedTransport) : FusedTransport :=
  mkFused (ft_profile f) (ft_multipath f) (ft_transports f) pref.

(** [WithPreference]: [fn] runs under the preference, the previous one is restored. *)
Definition WithPreference {A} (pref : Preference) (fn : FusedTransport -> A * FusedTransport)
    (f : FusedTransport) : A * FusedTransport :=
  let prev := ft_preference f in
  let (a, f') := fn (with_preference pref f) in (a, with_preference prev f').

Definition SetProfile (profile : Profile) (f : FusedTransport) : FusedTransport :=
  mkFused profile (ft_multipath f) (ft_transports f) (ft_preference f).

Definition SetMultipath (enabled : bool) (f : FusedTransport) : FusedTransport :=
  mkFused (ft_profile f) enabled (ft_transports f) (ft_preference f).

Definition toCandidates (ts : list (option T)) : list (option Candidate) :=
  List.map (option_map (fun t => mkCandidate (t_Name t) (t_Available t))) ts.

(** [t == nil || !t.Available() || t.Name() != name], negated. *)
Definition matches (name : string) (o : option T) : bool :=
  match o with Some t => t_Available t && String.eqb (t_Name t) name | None => false end.

(** [if err != nil && firstErr == nil { firstErr = err }] *)
Definition first_err (firstErr err : option string) : option string :=
  match firstErr with Some e => Some e | None => err end.

(** The inner loop over the transports, for one name. *)
Fixpoint broadcast_name (name : string) (data : list Z) (ts : list (option T)) (err : option string)
  : option string * list (option T) :=
  match ts with
  | [] => (err, [])
  | o :: ts' =>
      match o with
      | Some t =>
          if matches name o then
            let (e, t') := t_Broadcast data t in
            let (err', ts'') := broadcast_name name data ts' (first_err err e) in (err', Some t' :: ts'')
          else let (err', ts'') := broadcast_name name data ts' err in (err', o :: ts'')
      | None => let (err', ts'') := broadcast_name name data ts' err in (err', o :: ts'')
      end
  end.

Fixpoint broadcast_names (names : list string) (data : list Z) (ts : list (option T)) (err : option string)
  : option string * list (option T) :=
  match names with
  | [] => (err, ts)
  | name :: names' => let (err', ts') := broadcast_name name data ts err in broadcast_names names' data ts' err'
  end.

Definition Broadcast (data : list Z) (f : FusedTransport) : option string * FusedTransport :=
  let names := Decide (ft_profile f) (toCandidates (ft_transports f)) (ft_preference f) (blen data) (ft_multipath f) in
  match names with
  | [] => (None, f)
  | _ =>
      let (err, ts) := broadcast_names names data (ft_transports f) None in
      (err, mkFused (ft_profile f) (ft_multipath f) ts (ft_preference f))
  end.

Definition LinkScore (peer : list Z) (now : Z) (f : FusedTransport) : float :=
  fold_left (fun best o =>
    match o with
    | Some t => if t_Available t then let s := t_LinkScore peer now t in if fgt s best then s else best else best
    | None => best
    end) (ft_transports f) 0%float.

(** ** What a broadcast does to each transport *)

(** Sending the frame [n] times, errors ignored. *)
Definition sent (data : list Z) (n : nat) (t : T) : T := Nat.iter n (fun t => snd (t_Broadcast data t)) t.

Lemma sent_same data n t : t_Name (sent data n t) = t_Name t /\ t_Available (sent data n t) = t_Available t.
Proof.
  unfold sent. induction n as [|n [IH1 IH2]]; [done|]. simpl.
  by rewrite t_Broadcast_name, t_Broadcast_available.
Qed.

Lemma sent_plus data n m t : sent data n (sent data m t) = sent data (n + m) t.
Proof. unfold sent. by rewrite Nat.iter_add. Qed.

Definition times (b : bool) : nat := if b then 1%nat else 0%nat.

Lemma broadcast_name_spec name data ts err :
  snd (broadcast_name name data ts err) = List.map (fun o => option_map (sent data (times (matches name o))) o) ts.
Proof.
  revert err. induction ts as [|[t|] ts IH]; intros err; [done| |]; simpl.
  - destruct (_ && _); simpl.
    + destruct (t_Broadcast data t) as [e t'] eqn:E. specialize (IH (first_err err e)).
      destruct (broadcast_name _ _ ts _). simpl in *.
      by rewrite IH.
    + specialize (IH err). destruct (broadcast_name _ _ ts _). simpl in *. by rewrite IH.
  - specialize (IH err). destruct (broadcast_name _ _ ts _). simpl in *. by rewrite IH.
Qed.

Definition uses (names : list string) (o : option T) : nat :=
  length (filter (fun n => matches n o = true) names).

Lemma matches_sent name data n o : matches name (option_map (sent data n) o) = matches name o.
Proof. destruct o as [t|]; [|done]. simpl. by destruct (sent_same data n t) as [-> ->]. Qed.

Lemma broadcast_names_spec names data ts err :
  snd (broadcast_names names data ts err) = List.map (fun o => option_map (sent data (uses names o)) o) ts.
Proof.
  revert ts err. induction names as [|name names IH]; intros ts err; simpl.
  - symmetry. transitivity (List.map id ts); [|apply List.map_id]. apply List.map_ext. by intros [t|].
  - pose proof (broadcast_name_spec name data ts err) as Hn.
    destruct (broadcast_name name data ts err) as [e ts']. simpl in Hn. subst ts'.
    rewrite IH, List.map_map. apply List.map_ext. intros o.
    assert (uses names (option_map (sent data (times (matches name o))) o) = uses names o) as ->.
    { unfold uses. f_equal. apply list_filter_ext. intros n _. by rewrite matches_sent. }
    destruct o as [t|]; [|done]. simpl. rewrite sent_plus. unfold uses. rewrite filter_cons.
    destruct (matches name (Some t)) eqn:E; [rewrite decide_True by done | rewrite decide_False by congruence];
      do 2 f_equal; cbn [length times]; simpl in E; rewrite E; simpl; lia.
Qed.

Lemma Broadcast_spec data f :
  let names := Decide (ft_profile f) (toCandidates (ft_transports f)) (ft_preference f) (blen data) (ft_multipath f) in
  snd (Broadcast data f)
  = mkFused (ft_profile f) (ft_multipath f)
      (List.map (fun o => option_map (sent data (uses names o)) o) (ft_transports f)) (ft_preference f).
Proof.
  cbv zeta. unfold Broadcast. set (names := Decide _ _ _ _ _).
  pose proof (broadcast_names_spec names data (ft_transports f) None) as Hs.
  destruct names as [|n names].
  - destruct f as [pr mp ts pref]. simpl in *. by rewrite <- Hs.
  - destruct (broadcast_names (n :: names) data (ft_transports f) None). simpl in *. by rewrite Hs.
Qed.

(** Sending changes nothing the selector sees. *)
Lemma toCandidates_Broadcast data f :
  toCandidates (ft_transports (snd (Broadcast data f))) = toCandidates (ft_transports f).
Proof.
  rewrite Broadcast_spec. simpl. unfold toCandidates. rewrite List.map_map. apply List.map_ext.
  intros [t|]; [|done]. unfold option_map.
  match goal with |- context [sent data ?n t] => by destruct (sent_same data n t) as [-> ->] end.
Qed.

Lemma uses_nil names : uses names None = 0%nat.
Proof. unfold uses. induction names as [|n names IH]; [done|]. rewrite filter_cons. by rewrite decide_False. Qed.

Lemma uses_off names t : t_Available t = false -> uses names (Some t) = 0%nat.
Proof.
  intros Ht. unfold uses. induction names as [|n names IH]; [done|]. rewrite filter_cons.
  rewrite decide_False; [done|]. simpl. by rewrite Ht.
Qed.

Lemma uses_on names t : t_Available t = true ->
  uses names (Some t) = length (filter (fun n => n = t_Name t) names).
Proof.
  intros Ht. unfold uses. f_equal. apply list_filter_ext. intros n _. simpl. rewrite Ht. simpl.
  rewrite String.eqb_eq. naive_solver.
Qed.

Lemma uses_other names t n : Forall (fun x => x = n) names -> t_Name t <> n -> uses names (Some t) = 0%nat.
Proof.
  intros Hn Ht. unfold uses. induction Hn as [|x names -> _ IH]; [done|]. rewrite filter_cons.
  rewrite decide_False; [done|]. simpl. rewrite andb_true_iff, String.eqb_eq. by intros [_ ?].
Qed.

Lemma uses_once names t : t_Available t = true -> NoDup names ->
  uses names (Some t) = if decide (t_Name t ∈ names) then 1%nat else 0%nat.
Proof.
  intros Ht Hn. rewrite uses_on by done. clear Ht. induction Hn as [|n names Hni _ IH]; [done|].
  rewrite filter_cons. destruct (decide (n = t_Name t)) as [E|E]; simpl.
  - subst n. rewrite IH, (decide_False (P := t_Name t ∈ names)) by done.
    rewrite decide_True by (by left). done.
  - rewrite IH. 
    destruct (decide (t_Name t ∈ names)) as [Ha|Ha]; destruct (decide (t_Name t ∈ n :: names)) as [Hb|Hb]; try done; exfalso;
      [apply Hb; by right | apply elem_of_cons in Hb as [Hb|Hb]; congruence].
Qed.
End Fused.

(** A fused broadcast hands the frame to the transports as the selector decides: an
    unavailable transport gets nothing; if no medium is named twice, an available transport
    gets the frame exactly once if its medium is named and not at all otherwise; nothing
    else of the fused transport changes. *)
Theorem fused_broadcast {T} `{Transport T} data (f : FusedTransport (T:=T)) :
  let names := Decide (ft_profile f) (toCandidates (ft_transports f)) (ft_preference f) (blen data) (ft_multipath f) in
  let f' := snd (Broadcast data f) in
  ft_profile f' = ft_profile f /\ ft_multipath f' = ft_multipath f /\ ft_preference f' = ft_preference f
  /\ length (ft_transports f') = length (ft_transports f)
  /\ forall i t, ft_transports f !! i = Some (Some t) ->
      exists n, ft_transports f' !! i = Some (Some (sent data n t))
        /\ (t_Available t = false -> n = 0%nat)
        /\ (t_Available t = true -> NoDup names -> n = if decide (t_Name t ∈ names) then 1%nat else 0%nat).
Proof.
  intros names f'. pose proof (Broadcast_spec data f) as Hs. fold names in Hs. fold f' in Hs. rewrite Hs.
  split_and!; try done; simpl.
  { apply length_map. }
  intros i t Hi. exists (uses names (Some t)). split_and!.
  - match goal with |- List.map ?g ?l !! i = _ => change (List.map g l) with (g <$> l) end.
    by rewrite list_lookup_fmap, Hi.
  - apply uses_off.
  - apply uses_once.
Qed.

(** When several available transports share the preferred medium's name, the names
    repeat in the decision and each of them sends the frame once per repetition: with [k]
    BLE transports every one broadcasts the same frame [k] times. *)
Theorem same_name_copies {T} `{Transport T} data profile multipath (ts : list T) :
  Forall (fun t => t_Available t = true /\ t_Name t = "ble") ts ->
  ft_transports (snd (Broadcast data (mkFused profile multipath (Some <$> ts) PreferencePreferBLE)))
  = Some <$> (sent data (length ts) <$> ts).
Proof.
  intros Hts. rewrite Broadcast_spec. simpl.
  set (cs := toCandidates _).
  assert (omap id cs = (fun _ => mkCandidate "ble" true) <$> ts) as Ho.
  { subst cs. clear -Hts. induction Hts as [|t ts [H1 H2] _ IH]; [done|].
    change (omap id (toCandidates (Some <$> (t :: ts))))
      with (mkCandidate (t_Name t) (t_Available t) :: omap id (toCandidates (Some <$> ts))).
    by rewrite H1, H2, IH. }
  assert (Decide profile cs PreferencePreferBLE (blen data) multipath = (fun _ => "ble") <$> ts) as ->.
  { clearbody cs. unfold Decide. rewrite Ho.
    assert (filter (fun c => cand_Available c = true) ((fun _ => mkCandidate "ble" true) <$> ts)
      = (fun _ => mkCandidate "ble" true) <$> ts) as ->.
    { apply list_filter_all, Forall_fmap, Forall_forall. done. }
    assert (named "ble" ((fun _ => mkCandidate "ble" true) <$> ts) = (fun _ => "ble") <$> ts) as ->.
    { unfold named. rewrite list_filter_all; [by rewrite <- list_fmap_compose|].
      apply Forall_fmap, Forall_forall. done. }
    destruct ts; done. }
  assert (forall t, t ∈ ts -> uses ((fun _ => "ble") <$> ts) (Some t) = length ts) as Hu.
  { intros t Ht. rewrite Forall_forall in Hts. destruct (Hts t Ht) as [H1 H2].
    rewrite uses_on by done. rewrite list_filter_all; [by rewrite length_fmap|].
    apply Forall_fmap, Forall_forall. intros x _. simpl. by rewrite H2. }
  match goal with |- List.map ?g ?l = _ => change (List.map g l) with (g <$> l) end.
  rewrite <- !list_fmap_compose. apply list_fmap_ext. intros i t Ht. unfold compose. simpl.
  by rewrite Hu by (by eapply list_elem_of_lookup_2).
Qed.

(** ** A transport that logs what it sends, for the witnesses *)

Record Radio := mkRadio {
  rd_name : string;
  rd_up : bool;
  rd_log : list (list Z);
}.

#[export] Program Instance radio_transport : Transport Radio := {
  t_Name := rd_name;
  t_Available := rd_up;
  t_Broadcast data r := (None, mkRadio (rd_name r) (rd_up r) (rd_log r ++ [data]));
  t_LinkScore _ _ r := if rd_up r then 0.5%float else 0%float;
}.
Next Obligation. done. Qed.
Next Obligation. done. Qed.

Lemma same_name_copies_witness :
  let r k := mkRadio "ble" true [[k]] in
  ft_transports (snd (Broadcast [1; 2] (mkFused ProfileBalanced false (Some <$> [r 7; r 8]) PreferencePreferBLE)))
  = Some <$> (sent [1; 2] 2 <$> [r 7; r 8]).
Proof. apply same_name_copies. repeat constructor. Defined.
