(* ===== verification/Mesh.v ===== *)
(** * Mesh policy, controller and hybrid node
    ([core/mesh/security], [core/mesh/mesh_controller], [core/transport/multipath_router])

    The controller ties the router to the fused transport: a policy sets the transport
    profile, the cover traffic and the preference under which [Send] runs.  The frames a
    router handler broadcasts are carried by the fused transport in their order. *)

From S2P Require Import Prelude Float64 Message Transport.
From S2P Require Cache Replay AntiFlood Scoring Identity Router.
#[local] Open Scope string_scope.
#[local] Open Scope Z_scope.

Inductive Mode := ModeStealth | ModeBalanced | ModeResilience | ModeOther (n : Z).

Record Policy := mkPolicy {
  p_Mode : Mode;
  p_Multipath : bool;
  p_CoverTraffic : bool;
  p_MaxPayloadBytes : Z;
}.

Definition TransportProfile (p : Policy) : Profile :=
  match p_Mode p with
  | ModeStealth => ProfileStealth
  | ModeResilience => ProfileBalanced
  | _ => ProfileBalanced
  end.

Definition MultipathEnabled (p : Policy) : bool :=
  match p_Mode p with ModeResilience => true | _ => p_Multipath p end.

Definition PreferenceForPayload (p : Policy) (payloadBytes : Z) : Preference :=
  match p_Mode p with
  | ModeStealth => PreferencePreferBLE
  | ModeResilience => if payloadBytes <=? 200 then PreferenceAny else PreferencePreferWiFi
  | _ => PreferenceAny
  end.

(** The options with another payload limit, cover interval, cover size and validator. *)
Definition with_options (o : Router.Options) (maxPayload every size : Z) (v : option (Message -> bool)) : Router.Options :=
  Router.mkOptions (Router.o_MaxFrameBytes o) (Router.o_MaxHop o) (Router.o_MinRebroadcastEvery o)
    (Router.o_ReassemblyStaleAfter o) (Router.o_CacheMaxItems o) (Router.o_ClockSkewAllowance o) maxPayload
    (Router.o_ReplayBucketDuration o) (Router.o_ReplayWindowDuration o) (Router.o_GlobalRateCapacity o)
    (Router.o_GlobalRate o) (Router.o_PerSenderCapacity o) (Router.o_PerSenderRate o) (Router.o_RoutingBaseProb o)
    (Router.o_RoutingMaxJitter o) (Router.o_RoutingMinTTLRemain o) (Router.o_InventoryEvery o)
    (Router.o_InventoryMax o) (Router.o_WantMax o) every size v.

Definition ApplyRouterDefaults (p : Policy) (o : Router.Options) : Router.Options :=
  let maxPayload := if 0 <? p_MaxPayloadBytes p then p_MaxPayloadBytes p else Router.o_MaxPayloadBytes o in
  let '(every, size) :=
    if p_CoverTraffic p then
      if Router.o_CoverTrafficEvery o =? 0 then
        match p_Mode p with
        | ModeStealth => (600 * Millisecond, 16)
        | ModeResilience => (350 * Millisecond, 24)
        | _ => (0, Router.o_CoverTrafficSize o)
        end
      else (Router.o_CoverTrafficEvery o, Router.o_CoverTrafficSize o)
    else (0, Router.o_CoverTrafficSize o) in
  with_options o maxPayload every size (Router.o_Validate o).

Section Mesh.
Context (blake2s : list Z -> list Z).
Context {I : Type} (currentIdentity : Z -> I -> Identity.Identity * I).
Context {F : Type} `{Replay.ReplayFilter F} (newReplay : Z -> Z -> F).
Context {T : Type} `{Transport T}.

(** The fused transport carries the frames of a handler, errors ignored. *)
Definition carry (es : list Router.effect) (f : FusedTransport (T:=T)) : FusedTransport (T:=T) :=
  fold_left (fun f e => match e with Router.Broadcast b => snd (Broadcast b f) | _ => f end) es f.

(** The handler a preference scope runs: the router's [Send] over the fused transport. *)
Definition send_over (now : Z) (payload : list Z) (ttlSec : Z) (r : Router.Router (I:=I) (F:=F))
    (f : FusedTransport (T:=T))
  : (res Router.RouterErr (list Z) * list Router.effect * Router.Router (I:=I) (F:=F)) * FusedTransport (T:=T) :=
  let '(answer, (es, r')) := Router.Send blake2s currentIdentity now payload ttlSec r in
  ((answer, es, r'), carry es f).

(** ** [multipath_router.Node] *)

Record HybridNode := mkHybrid {
  h_Fused : FusedTransport (T:=T);
  h_Router : Router.Router (I:=I) (F:=F);
}.

Inductive mesh_err :=
  | ErrIdentityManager
  | ErrTransports
  | ErrFused
  | ErrRouter (e : Router.RouterErr).

Definition NewNode (profile : Profile) (multipath : bool) (transports : list (option T)) (o : Router.Options)
    (now : Z) (i : I) : res mesh_err HybridNode :=
  match NewFused profile multipath transports with
  | Err _ => Err ErrFused
  | Ok fused =>
      match Router.NewRouter newReplay true true o now i with
      | Err e => Err (ErrRouter e)
      | Ok r => Ok (mkHybrid fused r)
      end
  end.

Definition Node_Send (now : Z) (payload : list Z) (ttlSec : Z) (pref : Preference) (n : HybridNode)
  : res Router.RouterErr (list Z) * HybridNode :=
  let '((answer, _, r), f) := WithPreference pref (send_over now payload ttlSec (h_Router n)) (h_Fused n) in
  (answer, mkHybrid f r).

(** ** [mesh_controller.Controller] *)

Record Controller := mkController {
  c_policy : Policy;
  c_fused : FusedTransport (T:=T);
  c_router : Router.Router (I:=I) (F:=F);
  c_ttlSec : Z;
  c_routerDefaults : Router.Options;
}.

Definition NewController (hasIdentity : bool) (transports : list (option T)) (policy : Policy) (ttl : Z)
    (validate : option (Message -> bool)) (o : Router.Options) (now : Z) (i : I) : res mesh_err Controller :=
  if negb hasIdentity then Err ErrIdentityManager
  else if negb (nonempty transports) then Err ErrTransports
  else
    let ttl := if ttl =? 0 then 8 else ttl in
    match NewFused (TransportProfile policy) (MultipathEnabled policy) transports with
    | Err _ => Err ErrFused
    | Ok fused =>
        let ro := ApplyRouterDefaults policy o in
        let ro := match validate with
                  | Some v => with_options ro (Router.o_MaxPayloadBytes ro) (Router.o_CoverTrafficEvery ro)
                                (Router.o_CoverTrafficSize ro) (Some v)
                  | None => ro
                  end in
        match Router.NewRouter newReplay true true ro now i with
        | Err e => Err (ErrRouter e)
        | Ok r => Ok (mkController policy fused r ttl ro)
        end
    end.

Definition SetPolicy (p : Policy) (now : Z) (c : Controller) : Controller :=
  let f := SetMultipath (MultipathEnabled p) (SetProfile (TransportProfile p) (c_fused c)) in
  let ro := ApplyRouterDefaults p (c_routerDefaults c) in
  let r := snd (Router.SetCoverTraffic (Router.o_CoverTrafficEvery ro) (Router.o_CoverTrafficSize ro) now (c_router c)) in
  mkController p f r (c_ttlSec c) (c_routerDefaults c).

Definition Controller_Send (now : Z) (payload : list Z) (ttlSec : Z) (pref : Preference) (c : Controller)
  : res Router.RouterErr (list Z) * Controller :=
  let ttlSec := if ttlSec =? 0 then c_ttlSec c else ttlSec in
  let pref := match pref with PreferenceOther 0 => PreferenceForPayload (c_policy c) (blen payload) | _ => pref end in
  let '((answer, _, r), f) := WithPreference pref (send_over now payload ttlSec (c_router c)) (c_fused c) in
  (answer, mkController (c_policy c) f r (c_ttlSec c) (c_routerDefaults c)).

(** ** Lemmas *)

(** Frames sent under the BLE preference while BLE is reachable touch no other transport. *)
Lemma carry_prefers_ble es f :
  ft_preference f = PreferencePreferBLE ->
  reachable (toCandidates (ft_transports f)) "ble" ->
  forall i t, ft_transports f !! i = Some (Some t) -> t_Name t <> "ble" ->
  ft_transports (carry es f) !! i = Some (Some t).
Proof.
  unfold carry. revert f. induction es as [|e es IH]; intros f Hp Hr i t Hi Ht; [done|]. simpl.
  destruct e as [b|m|d m]; try (by apply IH).
  apply IH; [by rewrite Broadcast_spec|by rewrite toCandidates_Broadcast| |done].
  rewrite Broadcast_spec. simpl.
  match goal with |- List.map ?g ?l !! i = _ => change (List.map g l) with (g <$> l) end.
  rewrite list_lookup_fmap, Hi. simpl. rewrite (uses_other _ t "ble"); [done| |done].
  pose proof (Decide_sound (ft_profile f) (toCandidates (ft_transports f)) (ft_preference f) (blen b) (ft_multipath f))
    as (_ & _ & _ & Hb & _). apply Hb; [done|]. by apply named_reachable.
Qed.

Lemma carry_settings es f :
  ft_preference (carry es f) = ft_preference f /\ ft_profile (carry es f) = ft_profile f
  /\ ft_multipath (carry es f) = ft_multipath f.
Proof.
  unfold carry. revert f. induction es as [|e es IH]; intros f; [done|]. simpl.
  destruct e; try apply IH. destruct (IH (snd (Broadcast frame f))) as (-> & -> & ->). by rewrite Broadcast_spec.
Qed.

Lemma Controller_Send_fused now payload ttl pref c :
  exists es, c_fused (snd (Controller_Send now payload ttl pref c))
    = with_preference (ft_preference (c_fused c))
        (carry es (with_preference (match pref with PreferenceOther 0 => PreferenceForPayload (c_policy c) (blen payload) | _ => pref end) (c_fused c)))
    /\ c_policy (snd (Controller_Send now payload ttl pref c)) = c_policy c.
Proof.
  unfold Controller_Send, WithPreference, send_over.
  destruct (Router.Send _ _ _ _ _ _) as [answer [es r]]. by exists es.
Qed.
End Mesh.

(** In stealth mode [Send] without a preference of its own stays off the air of every
    other medium while BLE is reachable: transports that are not BLE are left exactly as
    they were, and the fused transport's preference, profile and multipath setting are those
    of before the call. *)
Theorem stealth_send_uses_ble_only blake2s {I F T} `{Replay.ReplayFilter F} `{Transport T}
    (currentIdentity : Z -> I -> Identity.Identity * I) now payload ttl (c : Controller (I:=I) (F:=F) (T:=T)) :
  p_Mode (c_policy c) = ModeStealth ->
  reachable (toCandidates (ft_transports (c_fused c))) "ble" ->
  let c' := snd (Controller_Send blake2s currentIdentity now payload ttl (PreferenceOther 0) c) in
  (forall i t, ft_transports (c_fused c) !! i = Some (Some t) -> t_Name t <> "ble" ->
    ft_transports (c_fused c') !! i = Some (Some t))
  /\ ft_preference (c_fused c') = ft_preference (c_fused c)
  /\ ft_profile (c_fused c') = ft_profile (c_fused c)
  /\ ft_multipath (c_fused c') = ft_multipath (c_fused c).
Proof.
  intros Hm Hr c'. destruct (Controller_Send_fused blake2s currentIdentity now payload ttl (PreferenceOther 0) c)
    as (es & Hf & _). fold c' in Hf. rewrite Hf. unfold PreferenceForPayload. rewrite Hm.
  destruct (carry_settings es (with_preference PreferencePreferBLE (c_fused c))) as (H1 & H2 & H3).
  split; [|by split_and!]. intros i t Hi Ht. simpl. by apply carry_prefers_ble.
Qed.

(** A policy without cover traffic turns it off: after [SetPolicy] the cover interval
    is zero, and the transport profile and multipath setting are the policy's. *)
Theorem SetPolicy_without_cover {I F T} `{Replay.ReplayFilter F} `{Transport T} p now
    (c : Controller (I:=I) (F:=F) (T:=T)) :
  p_CoverTraffic p = false ->
  let c' := SetPolicy p now c in
  Router.coverEvery (c_router c') = 0 /\ c_policy c' = p
  /\ ft_profile (c_fused c') = TransportProfile p /\ ft_multipath (c_fused c') = MultipathEnabled p
  /\ ft_transports (c_fused c') = ft_transports (c_fused c).
Proof. intros Hp c'. subst c'. unfold SetPolicy, ApplyRouterDefaults. by rewrite Hp. Qed.

(** The cover interval of the first policy sticks: a controller made with the stealth
    policy and cover traffic keeps the 600 ms interval and 16-byte frames when it is
    switched to the resilience policy, whose own defaults are 350 ms and 24 bytes, because
    the stored defaults already carry the stealth interval. *)
Theorem policy_switch_keeps_interval {I F T} `{Replay.ReplayFilter F} `{Transport T} newReplay
    (ts : list (option T)) ttl v o t0 now (i : I) multipath mx mx'
    (c : Controller (I:=I) (F:=F) (T:=T)) :
  Router.o_CoverTrafficEvery o = 0 ->
  NewController newReplay true ts (mkPolicy ModeStealth multipath true mx) ttl v o t0 i = Ok c ->
  let c' := SetPolicy (mkPolicy ModeResilience true true mx') now c in
  (Router.coverEvery (c_router c'), Router.coverSize (c_router c')) = (600 * Millisecond, 16)
  /\ let fresh := ApplyRouterDefaults (mkPolicy ModeResilience true true mx') o in
     (Router.o_CoverTrafficEvery fresh, Router.o_CoverTrafficSize fresh) = (350 * Millisecond, 24).
Proof.
  intros Ho HN. unfold NewController in HN. destruct ts as [|t ts]; [done|]. simpl in HN.
  unfold ApplyRouterDefaults in *. simpl in *. rewrite Ho in *. simpl in *.
  destruct v; injection HN as <-; done.
Qed.

(** ** Witnesses *)

Definition wit_controller : Controller (I:=Z) (F:=Replay.Protector) (T:=Radio) :=
  mkController (mkPolicy ModeStealth true true 0)
    (mkFused ProfileStealth true [Some (mkRadio "ble" true []); None; Some (mkRadio "wifi_direct" true []); Some (mkRadio "lora" true [])] PreferenceAny)
    Router.wit_router 8 Router.wit_options.

#[local] Existing Instance Replay.protector_replay_filter.

Lemma stealth_send_uses_ble_only_witness :
  let c' := snd (Controller_Send Reassembly.toy_hash Router.wit_identity Router.wit_t [1; 2; 3; 4] 0 (PreferenceOther 0) wit_controller) in
  ft_transports (c_fused c') !! 2%nat = Some (Some (mkRadio "wifi_direct" true []))
  /\ (exists l, ft_transports (c_fused c') !! 0%nat = Some (Some (mkRadio "ble" true l)) /\ length l = 2%nat).
Proof.
  split; [|vm_compute; eexists; split; reflexivity].
  destruct (stealth_send_uses_ble_only Reassembly.toy_hash Router.wit_identity Router.wit_t [1; 2; 3; 4] 0 wit_controller)
    as [Hk _]; [reflexivity| |].
  - unfold reachable. vm_compute. by left.
  - apply (Hk 2%nat (mkRadio "wifi_direct" true [])); [reflexivity|discriminate].
Defined.

Lemma SetPolicy_without_cover_witness :
  Router.coverEvery (c_router (SetPolicy (mkPolicy ModeBalanced false false 0) Router.wit_t wit_controller)) = 0.
Proof. apply (SetPolicy_without_cover (mkPolicy ModeBalanced false false 0)). reflexivity. Defined.

Definition wit_made : res mesh_err (Controller (I:=Z) (F:=Replay.Protector) (T:=Radio)) :=
  NewController Replay.New true [Some (mkRadio "ble" true [])] (mkPolicy ModeStealth false true 0) 0 None
    Router.wit_options Router.wit_t 0.

Lemma policy_switch_keeps_interval_witness :
  match wit_made with
  | Ok c => Router.coverEvery (c_router (SetPolicy (mkPolicy ModeResilience true true 0) Router.wit_t c)) = 600 * Millisecond
  | Err _ => False
  end.
Proof.
  destruct wit_made as [c|e] eqn:E; [|discriminate E].
  destruct (policy_switch_keeps_interval Replay.New [Some (mkRadio "ble" true [])] 0 None Router.wit_options
    Router.wit_t Router.wit_t 0 false 0 0 c eq_refl E) as [Hc _]. by injection Hc.
Defined.
