(* ===== verification/SimNet.v ===== *)
(** * Simulated media and the low-bandwidth queue
    ([core/transport/bridge_node_logic], [experimental/lora/lora_transport],
     [experimental/lora/low_bandwidth_queue])

    The in-memory networks the transports run on: links between nodes, a bounded channel per
    node, endpoints that broadcast to their neighbours; and the byte-bounded FIFO queue in
    front of a slow link.  A Go channel is its buffer: the packets in it and its capacity. *)

From S2P Require Import Prelude Float64.
#[local] Open Scope Z_scope.
#[local] Set Warnings "-inexact-float,-clear-no-such-hyp".

Record packet := mkPacket {
  pk_from : list Z;
  pk_raw : list Z;
}.

Record chan := mkChan {
  ch_cap : nat;
  ch_buf : list packet;
}.

(** [select { case ch <- p: default: }]: dropped when the buffer is full. *)
Definition offer (p : packet) (c : chan) : chan :=
  if decide (length (ch_buf c) < ch_cap c)%nat then mkChan (ch_cap c) (ch_buf c ++ [p]) else c.

(** One medium: who is linked to whom, and the inboxes. *)
Abbreviation Links := (gmap (list Z) (gset (list Z))) (only parsing).
Abbreviation Inboxes := (gmap (list Z) chan) (only parsing).

Definition neighbours (l : Links) (a : list Z) : gset (list Z) := default ∅ (l !! a).

(** [if links[a] == nil { links[a] = make(...) }] *)
Definition ensure_node (a : list Z) (l : Links) : Links :=
  match l !! a with Some _ => l | None => <[a := ∅]> l end.

Definition connect (a b : list Z) (l : Links) : Links :=
  let l := ensure_node b (ensure_node a l) in
  let l := <[a := {[b]} ∪ neighbours l a]> l in
  <[b := {[a]} ∪ neighbours l b]> l.

(** [if links[a] != nil { delete(links[a], b) }] *)
Definition cut (a b : list Z) (l : Links) : Links := alter (fun s => s ∖ {[b]}) a l.

Definition disconnect (a b : list Z) (l : Links) : Links := cut b a (cut a b l).

Definition ensure_inbox (a : list Z) (buf : Z) (i : Inboxes) : Inboxes :=
  match i !! a with Some _ => i | None => <[a := mkChan (Z.to_nat buf) []]> i end.

(** The broadcast loop over the neighbours: each one that has an inbox is offered the packet.
    The channels are distinct, so the random order of Go's map iteration does not matter. *)
Definition offer_all (p : packet) (peers : gset (list Z)) (i : Inboxes) : Inboxes :=
  map_imap (fun peer c => Some (if decide (peer ∈ peers) then offer p c else c)) i.

(** ** [bridge_node_logic.SimNet] *)

Definition Medium : Type := string.
Definition MediumBLE : Medium := "ble"%string.
Definition MediumWiFi : Medium := "wifi_direct"%string.

Record SimNet := mkSimNet {
  sn_links : gmap string (gmap (list Z) (gset (list Z)));
  sn_inboxes : gmap string (gmap (list Z) chan);
}.

Definition NewSimNet : SimNet := mkSimNet ∅ ∅.

Definition links_of (n : SimNet) (m : Medium) : Links := default ∅ (sn_links n !! m).
Definition inboxes_of (n : SimNet) (m : Medium) : Inboxes := default ∅ (sn_inboxes n !! m).

Record Endpoint := mkEndpoint {
  ep_medium : Medium;
  ep_node : list Z;
  ep_available : bool;
  ep_txCount : Z;
}.

Definition Register (m : Medium) (node : list Z) (buf : Z) (n : SimNet) : Endpoint * SimNet :=
  let buf := if buf <=? 0 then 2048 else buf in
  (mkEndpoint m node false 0,
   mkSimNet (<[m := ensure_node node (links_of n m)]> (sn_links n))
     (<[m := ensure_inbox node buf (inboxes_of n m)]> (sn_inboxes n))).

Definition Connect (m : Medium) (a b : list Z) (n : SimNet) : SimNet :=
  mkSimNet (<[m := connect a b (links_of n m)]> (sn_links n)) (sn_inboxes n).

Definition Disconnect (m : Medium) (a b : list Z) (n : SimNet) : SimNet :=
  match sn_links n !! m with
  | None => n
  | Some l => mkSimNet (<[m := disconnect a b l]> (sn_links n)) (sn_inboxes n)
  end.

Definition Name (e : Endpoint) : string := ep_medium e.
Definition Available (e : Endpoint) : bool := ep_available e.
Definition SetAvailable (v : bool) (e : Endpoint) : Endpoint := mkEndpoint (ep_medium e) (ep_node e) v (ep_txCount e).

Inductive net_err := ErrUnavailable | ErrFrameTooLarge.

(** [Broadcast]; a receiver whose channel stays full for the two milliseconds is skipped. *)
Definition Broadcast (data : list Z) (e : Endpoint) (n : SimNet) : res net_err unit * (Endpoint * SimNet) :=
  if negb (ep_available e) then (Err ErrUnavailable, (e, n))
  else
    let peers := neighbours (links_of n (ep_medium e)) (ep_node e) in
    (Ok tt,
     (mkEndpoint (ep_medium e) (ep_node e) (ep_available e) (i64 (ep_txCount e + 1)),
      mkSimNet (sn_links n)
        (<[ep_medium e := offer_all (mkPacket (ep_node e) data) peers (inboxes_of n (ep_medium e))]> (sn_inboxes n)))).

(** [ReceiveFrom] when a packet is there ([None]: it blocks). *)
Definition ReceiveFrom (e : Endpoint) (n : SimNet) : option (packet * SimNet) :=
  match inboxes_of n (ep_medium e) !! ep_node e with
  | Some (mkChan cap (p :: ps)) =>
      Some (p, mkSimNet (sn_links n) (<[ep_medium e := <[ep_node e := mkChan cap ps]> (inboxes_of n (ep_medium e))]> (sn_inboxes n)))
  | _ => None
  end.

Definition LinkScore (e : Endpoint) : float :=
  if negb (ep_available e) then 0%float
  else if String.eqb (ep_medium e) MediumWiFi then 0.9%float else 0.5%float.

(** ** Links are symmetric *)

Definition symmetric (l : Links) : Prop := forall a b, b ∈ neighbours l a <-> a ∈ neighbours l b.

Lemma neighbours_ensure a x l : neighbours (ensure_node a l) x = neighbours l x.
Proof.
  unfold ensure_node, neighbours. destruct (l !! a) eqn:E; [done|].
  destruct (decide (a = x)) as [->|Hn]; [by rewrite lookup_insert_eq, E|by rewrite lookup_insert_ne].
Qed.

Lemma neighbours_insert a s x l : neighbours (<[a := s]> l) x = if decide (a = x) then s else neighbours l x.
Proof.
  unfold neighbours. case_decide as E; [subst; by rewrite lookup_insert_eq|by rewrite lookup_insert_ne].
Qed.

Lemma connect_neighbours a b l x y :
  y ∈ neighbours (connect a b l) x <-> y ∈ neighbours l x \/ x = a /\ y = b \/ x = b /\ y = a.
Proof.
  unfold connect. rewrite !neighbours_insert, !neighbours_ensure.
  destruct (decide (b = x)) as [->|], (decide (a = x)) as [->|]; try case_decide; subst; set_solver.
Qed.

Lemma cut_neighbours a b l x y : y ∈ neighbours (cut a b l) x <-> y ∈ neighbours l x /\ ~ (x = a /\ y = b).
Proof.
  unfold cut, neighbours. destruct (decide (a = x)) as [->|Hn].
  - rewrite lookup_alter_eq. destruct (l !! x); simpl; set_solver.
  - rewrite lookup_alter_ne by done. split; [intros Hy; split; [done|by intros [-> _]]|by intros [Hy _]].
Qed.

Lemma connect_symmetric a b l : symmetric l -> symmetric (connect a b l).
Proof. intros Hs x y. rewrite !connect_neighbours, (Hs x y). tauto. Qed.
Lemma disconnect_symmetric a b l : symmetric l -> symmetric (disconnect a b l).
Proof. intros Hs x y. unfold disconnect. rewrite !cut_neighbours, (Hs x y). tauto. Qed.

Lemma offer_all_lookup p peers i a :
  offer_all p peers i !! a = (fun c => if decide (a ∈ peers) then offer p c else c) <$> i !! a.
Proof. unfold offer_all. rewrite map_lookup_imap. by destruct (i !! a). Qed.

(** The operations on a network. *)
Inductive net_op :=
  | OpRegister (m : Medium) (a : list Z) (buf : Z)
  | OpConnect (m : Medium) (a b : list Z)
  | OpDisconnect (m : Medium) (a b : list Z)
  | OpBroadcast (e : Endpoint) (data : list Z)
  | OpReceive (e : Endpoint).

Definition net_step (n : SimNet) (o : net_op) : SimNet :=
  match o with
  | OpRegister m a buf => snd (Register m a buf n)
  | OpConnect m a b => Connect m a b n
  | OpDisconnect m a b => Disconnect m a b n
  | OpBroadcast e data => snd (snd (Broadcast data e n))
  | OpReceive e => match ReceiveFrom e n with Some (_, n') => n' | None => n end
  end.

Definition net_ok (n : SimNet) : Prop := forall m, symmetric (links_of n m).

Lemma links_insert n m l i m' :
  links_of (mkSimNet (<[m := l]> (sn_links n)) i) m' = if decide (m = m') then l else links_of n m'.
Proof.
  unfold links_of. simpl. case_decide as E; [subst; by rewrite lookup_insert_eq|by rewrite lookup_insert_ne].
Qed.

Lemma net_step_ok n o : net_ok n -> net_ok (net_step n o).
Proof.
  intros Hn m'. destruct o as [m a buf|m a b|m a b|e data|e]; simpl.
  - rewrite links_insert. case_decide; [|done]. intros x y. rewrite !neighbours_ensure. apply Hn.
  - unfold Connect. rewrite links_insert. case_decide; [|done]. by apply connect_symmetric.
  - unfold Disconnect. destruct (sn_links n !! m) as [l|] eqn:E; [|done]. rewrite links_insert.
    case_decide; [|done]. apply disconnect_symmetric. specialize (Hn m). unfold links_of in Hn. by rewrite E in Hn.
  - unfold Broadcast. destruct (negb _); [done|]. apply Hn.
  - unfold ReceiveFrom. destruct (inboxes_of _ _ !! _) as [[cap [|p ps]]|]; [done| |done]. apply Hn.
Qed.

Lemma net_run_ok ops n : net_ok n -> net_ok (foldl net_step n ops).
Proof. revert n. induction ops as [|o ops IH]; intros n Hn; [done|]. by apply IH, net_step_ok. Qed.

(** In a network reached by any operations, links go both ways; and a broadcast by an
    available endpoint puts its frame at the end of exactly the inboxes with room of the
    nodes linked to it on its medium, leaving every other inbox of every medium as it was,
    while an unavailable endpoint changes nothing. *)
Theorem simnet_delivers_to_links ops e data m b :
  let n := foldl net_step NewSimNet ops in
  let '(answer, (e', n')) := Broadcast data e n in
  (forall a, b ∈ neighbours (links_of n m) a <-> a ∈ neighbours (links_of n m) b)
  /\ (ep_available e = false -> answer = Err ErrUnavailable /\ e' = e /\ n' = n)
  /\ (ep_available e = true -> answer = Ok tt /\
      inboxes_of n' m !! b =
        (fun c => if decide (m = ep_medium e /\ b ∈ neighbours (links_of n m) (ep_node e))
                  then offer (mkPacket (ep_node e) data) c else c) <$> inboxes_of n m !! b).
Proof.
  cbv zeta. set (n := foldl _ _ _). assert (net_ok n) as Hn.
  { apply net_run_ok. intros m' x y. unfold links_of, neighbours. simpl. by rewrite lookup_empty. }
  unfold Broadcast. destruct (ep_available e) eqn:E; simpl; (split; [intros a; apply Hn|]); [|done].
  split; [done|]. intros _. split; [done|]. unfold inboxes_of. simpl.
  destruct (decide (ep_medium e = m)) as [<-|Hne].
  - rewrite lookup_insert_eq. simpl. rewrite offer_all_lookup. unfold inboxes_of.
    destruct (default ∅ (sn_inboxes n !! ep_medium e) !! b); simpl; [|done]. do 2 case_decide; try done; tauto.
  - rewrite lookup_insert_ne by done. destruct (default ∅ (sn_inboxes n !! m) !! b); simpl; [|done].
    rewrite decide_False; [done|]. by intros [-> _].
Qed.

(** ** [lora_transport]: a slow medium with frame limit and airtime *)

Record LoRaNet := mkLoRaNet {
  ln_links : gmap (list Z) (gset (list Z));
  ln_inbox : gmap (list Z) chan;
}.

Record LoRaEndpoint := mkLoRaEndpoint {
  le_id : list Z;
  le_available : bool;
  le_txCount : Z;
  le_maxFrameBytes : Z;
  le_bytesPerSec : Z;
}.

Definition LoRa_Register (node : list Z) (buf : Z) (n : LoRaNet) : LoRaEndpoint * LoRaNet :=
  let buf := if buf <=? 0 then 512 else buf in
  (mkLoRaEndpoint node false 0 0 0, mkLoRaNet (ensure_node node (ln_links n)) (ensure_inbox node buf (ln_inbox n))).

Definition LoRa_Connect (a b : list Z) (n : LoRaNet) : LoRaNet := mkLoRaNet (connect a b (ln_links n)) (ln_inbox n).
Definition LoRa_Disconnect (a b : list Z) (n : LoRaNet) : LoRaNet := mkLoRaNet (disconnect a b (ln_links n)) (ln_inbox n).

Definition Configure (maxFrameBytes bytesPerSec : Z) (e : LoRaEndpoint) : LoRaEndpoint :=
  mkLoRaEndpoint (le_id e) (le_available e) (le_txCount e)
    (if maxFrameBytes <=? 0 then 96 else maxFrameBytes) (if bytesPerSec <=? 0 then 32 else bytesPerSec).

(** [time.Duration(float64(len) / float64(bytesPerSec) * float64(time.Second)) + 15ms] *)
Definition airtime (e : LoRaEndpoint) (len : Z) : Z :=
  if 0 <? le_bytesPerSec e
  then i64 (trunc_i64 (of_Z len / of_Z (le_bytesPerSec e) * of_Z Second)%float + 15 * Millisecond)
  else 0.

(** The deliveries [Broadcast] starts: the delay and the receiver of each goroutine. *)
Definition LoRa_Broadcast (data : list Z) (e : LoRaEndpoint) (n : LoRaNet)
  : res net_err (list (Z * list Z * packet)) * LoRaEndpoint :=
  if negb (le_available e) then (Err ErrUnavailable, e)
  else if (0 <? le_maxFrameBytes e) && (le_maxFrameBytes e <? blen data) then (Err ErrFrameTooLarge, e)
  else
    let peers := filter (fun p => is_Some (ln_inbox n !! p)) (elements (neighbours (ln_links n) (le_id e))) in
    (Ok ((fun p => (airtime e (blen data), p, mkPacket (le_id e) data)) <$> peers),
     mkLoRaEndpoint (le_id e) (le_available e) (i64 (le_txCount e + 1)) (le_maxFrameBytes e) (le_bytesPerSec e)).

(** A delivery whose delay has passed. *)
Definition LoRa_deliver (d : Z * list Z * packet) (n : LoRaNet) : LoRaNet :=
  mkLoRaNet (ln_links n) (alter (offer d.2) d.1.2 (ln_inbox n)).

Definition LoRa_ReceiveFrom (e : LoRaEndpoint) (n : LoRaNet) : option (packet * LoRaNet) :=
  match ln_inbox n !! le_id e with
  | Some (mkChan cap (p :: ps)) => Some (p, mkLoRaNet (ln_links n) (<[le_id e := mkChan cap ps]> (ln_inbox n)))
  | _ => None
  end.

Definition LoRa_LinkScore (e : LoRaEndpoint) : float := if negb (le_available e) then 0%float else 0.2%float.

(** A configured LoRa endpoint never puts a frame larger than its limit on the air; an
    accepted frame starts one delivery to each registered neighbour, none to anybody else,
    and each delivery adds at most that frame at the end of that neighbour's inbox. *)
Theorem lora_respects_frame_limit maxFrame bps data e n :
  let e := Configure maxFrame bps e in
  match fst (LoRa_Broadcast data e n) with
  | Err ErrUnavailable => le_available e = false
  | Err ErrFrameTooLarge => (if maxFrame <=? 0 then 96 else maxFrame) < blen data
  | Ok ds =>
      blen data <= (if maxFrame <=? 0 then 96 else maxFrame)
      /\ NoDup ((fun d => d.1.2) <$> ds)
      /\ (forall b, b ∈ (fun d => d.1.2) <$> ds <-> b ∈ neighbours (ln_links n) (le_id e) /\ is_Some (ln_inbox n !! b))
      /\ (forall d b, d ∈ ds -> ln_inbox (LoRa_deliver d n) !! b =
           (fun c => if decide (b = d.1.2) then offer (mkPacket (le_id e) data) c else c) <$> ln_inbox n !! b)
  end.
Proof.
  set (e' := Configure maxFrame bps e). cbv zeta. unfold LoRa_Broadcast.
  change (le_maxFrameBytes e') with (if maxFrame <=? 0 then 96 else maxFrame).
  destruct (le_available e') eqn:Ea; simpl; [|done].
  set (lim := if maxFrame <=? 0 then 96 else maxFrame).
  assert (0 < lim) by (subst lim; destruct (Z.leb_spec maxFrame 0); lia).
  destruct (Z.ltb_spec 0 lim), (Z.ltb_spec lim (blen data)); simpl; try lia.
  split; [lia|].
  set (peers := filter _ _).
  assert (forall A (f : list Z -> A), (fun d => d.1.2) <$> ((fun p => (airtime e' (blen data), p, mkPacket (le_id e) data)) <$> peers) = peers) as Hp.
  { intros _ _. rewrite <- list_fmap_compose. apply list_fmap_id. }
  rewrite (Hp _ id). split_and!.
  - apply NoDup_filter, NoDup_elements.
  - intros b. subst peers. rewrite list_elem_of_filter, elem_of_elements. tauto.
  - intros d b Hd. apply list_elem_of_fmap in Hd as (p & -> & _).
    unfold LoRa_deliver. cbn [ln_inbox fst snd].
    destruct (decide (b = p)) as [->|Hne].
    + rewrite lookup_alter_eq. by destruct (ln_inbox n !! p).
    + rewrite lookup_alter_ne by done. by destruct (ln_inbox n !! b).
Qed.

(** ** [low_bandwidth_queue] *)

Record Item := mkItem {
  qi_Payload : list Z;
  qi_Inserted : Z;
  qi_ExpiresAt : Z;
}.

Record Queue := mkQueue {
  q_maxBytes : Z;
  q_bytes : Z;
  q_items : list Item;
}.

Inductive queue_err := ErrEmptyPayload | ErrTooLarge.

Definition NewQueue (maxBytes : Z) : Queue := mkQueue (if maxBytes <=? 0 then 8 * 1024 else maxBytes) 0 [].

Fixpoint sweep_items (now : Z) (items : list Item) (bytes : Z) : list Item * Z :=
  match items with
  | [] => ([], bytes)
  | it :: items' =>
      if Before now (qi_ExpiresAt it)
      then let (k, b) := sweep_items now items' bytes in (it :: k, b)
      else sweep_items now items' (bytes - blen (qi_Payload it))
  end.

Definition sweepLocked (now : Z) (q : Queue) : Queue :=
  let (items, bytes) := sweep_items now (q_items q) (q_bytes q) in mkQueue (q_maxBytes q) bytes items.

(** [for q.bytes+len(payload) > q.maxBytes && len(q.items) > 0 { ... }] *)
Fixpoint make_room (len maxBytes : Z) (items : list Item) (bytes : Z) : list Item * Z :=
  match items with
  | [] => ([], bytes)
  | it :: items' =>
      if maxBytes <? bytes + len then make_room len maxBytes items' (bytes - blen (qi_Payload it))
      else (items, bytes)
  end.

Definition Enqueue (payload : list Z) (now ttl : Z) (q : Queue) : res queue_err unit * Queue :=
  if blen payload =? 0 then (Err ErrEmptyPayload, q)
  else
    let q := sweepLocked now q in
    if q_maxBytes q <? blen payload then (Err ErrTooLarge, q)
    else
      let (items, bytes) := make_room (blen payload) (q_maxBytes q) (q_items q) (q_bytes q) in
      (Ok tt, mkQueue (q_maxBytes q) (bytes + blen payload) (items ++ [mkItem payload now (TimeAdd now ttl)])).

Definition Dequeue (now : Z) (q : Queue) : option Item * Queue :=
  let q := sweepLocked now q in
  match q_items q with
  | [] => (None, q)
  | it :: items => (Some it, mkQueue (q_maxBytes q) (q_bytes q - blen (qi_Payload it)) items)
  end.

Definition Len (now : Z) (q : Queue) : Z * Queue :=
  let q := sweepLocked now q in (Z.of_nat (length (q_items q)), q).

(** ** The queue refines a bounded list of live items *)

(** The bytes counted are the bytes queued, and within the limit. *)
Record queue_ok (q : Queue) : Prop := {
  qk_bytes : q_bytes q = sum_len (qi_Payload <$> q_items q);
  qk_bound : q_bytes q <= q_maxBytes q;
  qk_max : 0 < q_maxBytes q;
}.

Definition live (now : Z) (it : Item) : Prop := now < qi_ExpiresAt it.
#[export] Instance live_dec now it : Decision (live now it).
Proof. unfold live. apply _. Defined.

Lemma sweep_items_spec now items bytes :
  sweep_items now items bytes
  = (filter (live now) items, bytes - sum_len (qi_Payload <$> items) + sum_len (qi_Payload <$> filter (live now) items)).
Proof.
  revert bytes. induction items as [|it items IH]; intros bytes; cbn [sweep_items]; [simpl; f_equal; lia|].
  rewrite filter_cons, fmap_cons, sum_len_cons. unfold Before.
  destruct (Z.ltb_spec now (qi_ExpiresAt it)) as [Hl|Hl]; rewrite IH.
  - rewrite (decide_True (P := live now it)) by done. rewrite fmap_cons, sum_len_cons. f_equal. lia.
  - rewrite (decide_False (P := live now it)) by (unfold live; lia). f_equal. lia.
Qed.

Lemma sum_len_filter now items : sum_len (qi_Payload <$> filter (live now) items) <= sum_len (qi_Payload <$> items).
Proof.
  induction items as [|it items IH]; [done|]. rewrite filter_cons, fmap_cons, sum_len_cons.
  pose proof (blen_nonneg (qi_Payload it)). case_decide; rewrite ?fmap_cons, ?sum_len_cons; lia.
Qed.

Lemma sweepLocked_spec now q :
  queue_ok q ->
  queue_ok (sweepLocked now q) /\ q_items (sweepLocked now q) = filter (live now) (q_items q)
  /\ q_maxBytes (sweepLocked now q) = q_maxBytes q.
Proof.
  intros [Hb Hm Hp]. unfold sweepLocked. rewrite sweep_items_spec. simpl. split; [|done].
  pose proof (sum_len_filter now (q_items q)). split; simpl; lia.
Qed.

(** The items dropped are the fewest oldest ones that make room. *)
Lemma make_room_spec len maxBytes items bytes :
  bytes = sum_len (qi_Payload <$> items) -> 0 <= len <= maxBytes ->
  let '(items', bytes') := make_room len maxBytes items bytes in
  bytes' = sum_len (qi_Payload <$> items') /\ bytes' + len <= maxBytes
  /\ exists dropped, items = dropped ++ items'
     /\ (forall d, last dropped = Some d -> maxBytes < blen (qi_Payload d) + bytes' + len).
Proof.
  revert bytes. induction items as [|it items IH]; intros bytes Hb Hl; simpl.
  { simpl in Hb. split_and!; [done|lia|]. by exists []. }
  rewrite fmap_cons, sum_len_cons in Hb. destruct (Z.ltb_spec maxBytes (bytes + len)) as [Hover|Hfits].
  - specialize (IH (bytes - blen (qi_Payload it)) ltac:(lia) Hl).
    destruct (make_room len maxBytes items (bytes - blen (qi_Payload it))) as [items' bytes'] eqn:E.
    destruct IH as (H1 & H2 & dropped & H3 & H4). split_and!; [done|done|].
    exists (it :: dropped). split; [by rewrite H3|]. intros d Hd.
    destruct dropped as [|x dropped]; [|by apply H4].
    injection Hd as <-. simpl in H3. subst items'. lia.
  - split_and!; [by rewrite fmap_cons, sum_len_cons|lia|]. by exists [].
Qed.

(** ** The operations, as on a list *)

Inductive queue_op :=
  | QEnqueue (payload : list Z) (now ttl : Z)
  | QDequeue (now : Z)
  | QLen (now : Z).

Definition queue_step (q : Queue) (o : queue_op) : Queue :=
  match o with
  | QEnqueue p now ttl => snd (Enqueue p now ttl q)
  | QDequeue now => snd (Dequeue now q)
  | QLen now => snd (Len now q)
  end.

Lemma queue_step_ok q o : queue_ok q -> queue_ok (queue_step q o).
Proof.
  intros Hq. destruct o as [p now ttl|now|now]; simpl.
  - unfold Enqueue. destruct (_ =? 0); [done|]. destruct (sweepLocked_spec now q Hq) as (Hs & _ & _).
    set (s := sweepLocked now q) in *. destruct (Z.ltb_spec (q_maxBytes s) (blen p)); [done|].
    destruct Hs as [Hb Hm Hp]. pose proof (blen_nonneg p).
    pose proof (make_room_spec (blen p) (q_maxBytes s) (q_items s) (q_bytes s) Hb ltac:(lia)) as Hr.
    destruct (make_room _ _ _ _) as [items bytes]. destruct Hr as (H1 & H2 & _).
    split; simpl; [|lia|done]. rewrite fmap_app, sum_len_app. simpl. lia.
  - unfold Dequeue. destruct (sweepLocked_spec now q Hq) as (Hs & _ & _).
    set (s := sweepLocked now q) in *. destruct (q_items s) as [|it items] eqn:E; [done|].
    destruct Hs as [Hb Hm Hp]. rewrite E, fmap_cons, sum_len_cons in Hb.
    pose proof (sum_len_nonneg (qi_Payload <$> items)). pose proof (blen_nonneg (qi_Payload it)).
    split; simpl; lia.
  - by apply sweepLocked_spec.
Qed.

Lemma queue_run_ok ops q : queue_ok q -> queue_ok (foldl queue_step q ops).
Proof. revert q. induction ops as [|o ops IH]; intros q Hq; [done|]. by apply IH, queue_step_ok. Qed.

Lemma NewQueue_ok maxBytes : queue_ok (NewQueue maxBytes).
Proof. unfold NewQueue. destruct (Z.leb_spec maxBytes 0); split; simpl; lia. Qed.

(** After any operations the queue's byte count is that of its items and within its
    limit.  [Enqueue] rejects only empty payloads and those larger than the limit; otherwise
    the queue afterwards is what was live, less the fewest oldest items that make room,
    with the payload at the end.  [Dequeue] takes the oldest live item. *)
Theorem queue_is_bounded_fifo maxBytes ops now :
  let q := foldl queue_step (NewQueue maxBytes) ops in
  let alive := filter (live now) (q_items q) in
  q_bytes q = sum_len (qi_Payload <$> q_items q) /\ q_bytes q <= q_maxBytes q
  /\ (let (o, q') := Dequeue now q in o = head alive /\ q_items q' = tail alive)
  /\ forall payload ttl,
     match Enqueue payload now ttl q with
     | (Err ErrEmptyPayload, _) => payload = []
     | (Err ErrTooLarge, _) => q_maxBytes q < blen payload
     | (Ok _, q') => exists dropped kept, alive = dropped ++ kept
         /\ q_items q' = kept ++ [mkItem payload now (now + ttl)]
         /\ (forall d, last dropped = Some d ->
              q_maxBytes q < blen (qi_Payload d) + sum_len (qi_Payload <$> kept) + blen payload)
     end.
Proof.
  intros q alive. assert (queue_ok q) as Hq by apply queue_run_ok, NewQueue_ok.
  destruct (sweepLocked_spec now q Hq) as (Hs & Hi & Hm). fold alive in Hi.
  split; [apply Hq|]. split; [apply Hq|]. split.
  - unfold Dequeue. rewrite Hi. destruct alive; [by rewrite Hi|done].
  - intros payload ttl. unfold Enqueue.
    destruct (Z.eqb_spec (blen payload) 0) as [He|He]; [by apply blen_zero|].
    rewrite Hm. destruct (Z.ltb_spec (q_maxBytes q) (blen payload)) as [Hl|Hl]; [done|].
    pose proof (blen_nonneg payload).
    pose proof (make_room_spec (blen payload) (q_maxBytes q) (q_items (sweepLocked now q)) (q_bytes (sweepLocked now q))
      (qk_bytes _ Hs) ltac:(lia)) as Hr.
    destruct (make_room _ _ _ _) as [items bytes]. destruct Hr as (H1 & H2 & dropped & H3 & H4).
    exists dropped, items. rewrite <- Hi. split; [done|]. split; [done|]. intros d Hd. specialize (H4 d Hd). lia.
Qed.
