(* ===== verification/Failover.v ===== *)
(** * Proxy core failover ([pkg/proxycore])

    [Engine.Switch] tries proxy cores one after the other behind a kill switch.  What the
    cores, the kill switch, the clock and the context do is the [World] interface: its
    operations answer as they like; its laws say what engaging and releasing the switch do
    and that nothing else opens it. *)

From S2P Require Import Prelude.
#[local] Open Scope string_scope.
#[local] Open Scope Z_scope.

Inductive RuntimeState :=
  | StateIdle | StateIsolated | StateValidating | StateStarting
  | StateRunning | StateDegraded | StateBeacon | StateFailed.

Record CoreConfig := mkCoreConfig {
  cc_ID : string;
  cc_Protocol : string;
  cc_ConfigPath : string;
  cc_ConfigBytes : list Z;
  cc_ProbeProxyURL : string;
  cc_ProbeTargetURL : string;
}.

Record HealthSample := mkHealth {
  hs_Status : string;
  hs_Reason : string;
  hs_LatencyMS : Z;
  hs_ConsecutiveFailures : Z;
  hs_TCPResetCount : Z;
  hs_TLSTimeoutCount : Z;
  hs_PacketDropPercent : Z;
  hs_ObservedAt : Z;
  hs_Passive : bool;
  hs_Error : string;
}.

Definition zeroHealth : HealthSample := mkHealth "" "" 0 0 0 0 0 zeroTime false "".

Record FailoverPolicy := mkPolicy {
  fp_ValidationTimeout : Z;
  fp_HealthTimeout : Z;
  fp_BackoffBase : Z;
  fp_BackoffMax : Z;
  fp_MaxConsecutiveFailures : Z;
  fp_MaxTCPResets : Z;
  fp_MaxTLSTimeouts : Z;
  fp_MaxPacketDropPercent : Z;
}.

Definition DefaultFailoverPolicy : FailoverPolicy :=
  mkPolicy (5 * Second) (10 * Second) (500 * Millisecond) (8 * Second) 2 3 2 40.

(** [Core] is the core's name, [None] for a nil core. *)
Record Candidate := mkCandidate {
  cd_Config : CoreConfig;
  cd_Core : option string;
  cd_Priority : Z;
  cd_BeaconMode : bool;
}.

Record Attempt := mkAttempt {
  at_ID : string;
  at_Protocol : string;
  at_Core : string;
  at_State : RuntimeState;
  at_Health : HealthSample;
  at_Error : string;
}.

Inductive switch_err :=
  | ErrNoCandidate
  | ErrAllCandidatesFailed (last : option string)
  | ErrOther (e : string).

Record SwitchResult := mkResult {
  sr_Selected : option Candidate;
  sr_State : RuntimeState;
  sr_Attempts : list Attempt;
  sr_Err : option switch_err;
}.

Record Engine := mkEngine {
  en_policy : FailoverPolicy;
  en_state : RuntimeState;
  en_activeID : string;
  en_failures : gmap string Z;
}.

Definition NewEngine (policy : FailoverPolicy) : Engine :=
  mkEngine (if fp_ValidationTimeout policy =? 0 then DefaultFailoverPolicy else policy) StateIdle "" ∅.

(** [e2e.ReasonOK] *)
Definition ReasonOK : string := "OK".

Definition over (limit count : Z) : bool := (0 <? limit) && (limit <=? count).

Definition IsDegraded (s : HealthSample) (p : FailoverPolicy) : bool :=
  if negb (String.eqb (hs_Status s) "") && negb (String.eqb (hs_Status s) "ok") then true
  else if negb (String.eqb (hs_Reason s) "") && negb (String.eqb (hs_Reason s) ReasonOK) then true
  else if over (fp_MaxConsecutiveFailures p) (hs_ConsecutiveFailures s) then true
  else if over (fp_MaxTCPResets p) (hs_TCPResetCount s) then true
  else if over (fp_MaxTLSTimeouts p) (hs_TLSTimeoutCount s) then true
  else if over (fp_MaxPacketDropPercent p) (hs_PacketDropPercent s) then true
  else false.

Definition failures_of (id : string) (e : Engine) : Z := default 0 (en_failures e !! id).

Definition backoffFor (id : string) (e : Engine) : Z :=
  let n := failures_of id e in
  let p := en_policy e in
  if (n <=? 0) || (fp_BackoffBase p <=? 0) then 0
  else
    let delay := i64 (Z.shiftl (fp_BackoffBase p) (Z.min (n - 1) 6)) in
    if (0 <? fp_BackoffMax p) && (fp_BackoffMax p <? delay) then fp_BackoffMax p else delay.

Definition recordFailure (id : string) (e : Engine) : Engine :=
  mkEngine (en_policy e) (en_state e) (en_activeID e) (<[id := i64 (failures_of id e + 1)]> (en_failures e)).
Definition clearFailure (id : string) (e : Engine) : Engine :=
  mkEngine (en_policy e) (en_state e) (en_activeID e) (delete id (en_failures e)).
Definition setState (s : RuntimeState) (e : Engine) : Engine :=
  mkEngine (en_policy e) s (en_activeID e) (en_failures e).
Definition setActive (id : string) (s : RuntimeState) (e : Engine) : Engine :=
  mkEngine (en_policy e) s id (en_failures e).

(** ** The world behind the engine *)

(** [option string] is a Go [error]: [None] is nil. *)
Class World (W : Type) := {
  w_validate : Z -> Candidate -> W -> option string * W;  (** under the timeout *)
  w_hotReload : Candidate -> W -> option string * W;
  w_stop : Candidate -> W -> option string * W;
  w_checkHealth : Z -> Candidate -> W -> (HealthSample * option string) * W;
  w_engage : string -> W -> option string * W;
  w_release : W -> option string * W;
  w_sleep : Z -> W -> option string * W;
  w_emit : string -> Candidate -> W -> W;
  w_engaged : W -> bool;                     (** the kill switch blocks traffic *)
  w_good : W -> Prop;                        (** what has happened so far was allowed *)
  w_engage_ok r w : fst (w_engage r w) = None -> w_engaged (snd (w_engage r w)) = true;
  w_engage_err r w : fst (w_engage r w) <> None -> w_engaged (snd (w_engage r w)) = w_engaged w;
  w_release_ok w : fst (w_release w) = None -> w_engaged (snd (w_release w)) = false;
  w_release_err w : fst (w_release w) <> None -> w_engaged (snd (w_release w)) = w_engaged w;
  w_others t d c ev w :
    w_engaged (snd (w_validate t c w)) = w_engaged w /\ w_engaged (snd (w_hotReload c w)) = w_engaged w
    /\ w_engaged (snd (w_stop c w)) = w_engaged w /\ w_engaged (snd (w_checkHealth t c w)) = w_engaged w
    /\ w_engaged (snd (w_sleep d w)) = w_engaged w /\ w_engaged (w_emit ev c w) = w_engaged w;
  w_good_steps t d c ev r w : w_good w ->
    w_good (snd (w_validate t c w)) /\ w_good (snd (w_stop c w)) /\ w_good (snd (w_checkHealth t c w))
    /\ w_good (snd (w_engage r w)) /\ w_good (snd (w_release w)) /\ w_good (snd (w_sleep d w)) /\ w_good (w_emit ev c w);
  (** a core may be reloaded only behind the engaged switch *)
  w_good_reload c w : w_good w -> w_engaged w = true -> w_good (snd (w_hotReload c w));
}.

Section Switch.
Context {W : Type} `{World W}.

Definition timeout_or (t d : Z) : Z := if t <=? 0 then d else t.

Definition validateCandidate (c : Candidate) (e : Engine) (w : W) : option string * W :=
  w_validate (timeout_or (fp_ValidationTimeout (en_policy e)) (5 * Second)) c w.

Definition checkHealth (c : Candidate) (e : Engine) (w : W) : (HealthSample * option string) * W :=
  w_checkHealth (timeout_or (fp_HealthTimeout (en_policy e)) (10 * Second)) c w.

Definition attempt (c : Candidate) (st : RuntimeState) (h : HealthSample) (err : string) : Attempt :=
  mkAttempt (cc_ID (cd_Config c)) (cc_Protocol (cd_Config c)) (default "" (cd_Core c)) st h err.

(** What one candidate comes to: the switch returns, or goes on with the next one. *)
Inductive outcome :=
  | Return (r : SwitchResult)
  | Next (attempts : list Attempt) (lastErr : option string).

(** From the engaged kill switch to the running core: reload, health check, release. *)
Definition start_core (c : Candidate) (attempts : list Attempt) (e : Engine) (w : W) : outcome * (Engine * W) :=
  let id := cc_ID (cd_Config c) in
  let e := setState StateStarting e in
  let w := w_emit "CORE_SWITCH_START" c w in
  let (rerr, w) := w_hotReload c w in
  match rerr with
  | Some err =>
      let (_, w) := w_stop c w in
      (Next (attempts ++ [attempt c StateFailed zeroHealth err]) (Some err),
       (recordFailure id e, w_emit "CORE_SWITCH_FAIL" c w))
  | None =>
      let '((health, herr), w) := checkHealth c e w in
      if match herr with Some _ => true | None => false end || IsDegraded health (en_policy e) then
        let (_, w) := w_stop c w in
        let err := default "degraded link" herr in
        (Next (attempts ++ [attempt c StateDegraded health err]) (Some err),
         (recordFailure id e, w_emit "CORE_HEALTH_DEGRADED" c w))
      else
        let (oerr, w) := w_release w in
        match oerr with
        | Some err =>
            let (_, w) := w_stop c w in
            (Return (mkResult None StateIsolated attempts (Some (ErrOther err))), (e, w))
        | None =>
            let e := setActive id StateRunning (clearFailure id e) in
            (Return (mkResult (Some c) StateRunning (attempts ++ [attempt c StateRunning health ""]) None),
             (e, w_emit "CORE_SWITCH_OK" c w))
        end
  end.

(** One turn of [Switch]'s loop. *)
Definition try_candidate (c : Candidate) (attempts : list Attempt) (lastErr : option string) (e : Engine) (w : W)
  : outcome * (Engine * W) :=
  let id := cc_ID (cd_Config c) in
  match cd_Core c with
  | None => (Next (attempts ++ [attempt c StateFailed zeroHealth "missing proxy core"]) lastErr, (e, w))
  | Some _ =>
      let delay := backoffFor id e in
      let (slept, w) := if 0 <? delay then w_sleep delay w else (None, w) in
      match slept with
      | Some err => (Return (mkResult None (en_state e) attempts (Some (ErrOther err))), (e, w))
      | None =>
          let e := setState StateValidating e in
          let w := w_emit "CORE_VALIDATE_START" c w in
          let (verr, w) := validateCandidate c e w in
          match verr with
          | Some err =>
              (Next (attempts ++ [attempt c StateFailed zeroHealth err]) (Some err),
               (recordFailure id e, w_emit "CORE_VALIDATE_FAIL" c w))
          | None =>
              let w := w_emit "CORE_VALIDATE_OK" c w in
              let e := setState StateIsolated e in
              let (kerr, w) := w_engage "core transition" w in
              match kerr with
              | Some err => (Return (mkResult None StateIsolated attempts (Some (ErrOther err))), (e, w))
              | None => start_core c attempts e w
              end
          end
      end
  end.

Fixpoint switch_loop (cs : list Candidate) (attempts : list Attempt) (lastErr : option string) (e : Engine) (w : W)
  : SwitchResult * (Engine * W) :=
  match cs with
  | [] =>
      let (_, w) := w_engage "all proxy cores failed" w in
      (mkResult None StateBeacon attempts (Some (ErrAllCandidatesFailed lastErr)), (setState StateBeacon e, w))
  | c :: cs' =>
      match try_candidate c attempts lastErr e w with
      | (Return r, (e, w)) => (r, (e, w))
      | (Next attempts lastErr, (e, w)) => switch_loop cs' attempts lastErr e w
      end
  end.

Definition Switch (cs : list Candidate) (e : Engine) (w : W) : SwitchResult * (Engine * W) :=
  match cs with
  | [] => (mkResult None StateFailed [] (Some ErrNoCandidate), (e, w))
  | _ => switch_loop cs [] None e w
  end.

(** ** One candidate *)

(** What a step may do to the kill switch without a success: engage it, never open it. *)
Definition kept_shut (w w' : W) : Prop := w_engaged w' = true \/ w_engaged w' = w_engaged w.

Definition succeeded (c : Candidate) (r : SwitchResult) (e : Engine) (w : W) : Prop :=
  sr_Selected r = Some c /\ sr_Err r = None /\ sr_State r = StateRunning /\ w_engaged w = false
  /\ en_state e = StateRunning /\ en_activeID e = cc_ID (cd_Config c) /\ failures_of (cc_ID (cd_Config c)) e = 0
  /\ exists h, last (sr_Attempts r) = Some (attempt c StateRunning h "") /\ IsDegraded h (en_policy e) = false.

Definition step_ok (c : Candidate) (attempts : list Attempt) (w : W) (o : outcome) (e' : Engine) (w' : W) : Prop :=
  match o with
  | Return r => succeeded c r e' w' \/ sr_Selected r = None /\ (exists x, sr_Err r = Some (ErrOther x)) /\ kept_shut w w'
  | Next attempts' _ => kept_shut w w'
      /\ exists st h err, attempts' = (attempts ++ [attempt c st h err])%list /\ (st = StateFailed \/ st = StateDegraded)
  end.

Lemma failures_clear id e : failures_of id (clearFailure id e) = 0.
Proof. unfold failures_of. simpl. by rewrite lookup_delete_eq. Qed.

(** The world's laws, one call at a time. *)
Lemma validate_law t c w : w_engaged (snd (w_validate t c w)) = w_engaged w /\ (w_good w -> w_good (snd (w_validate t c w))).
Proof. split; [apply (w_others t 0 c "" w)|intros; by apply (w_good_steps t 0 c "" "" w)]. Qed.
Lemma stop_law c w : w_engaged (snd (w_stop c w)) = w_engaged w /\ (w_good w -> w_good (snd (w_stop c w))).
Proof. split; [apply (w_others 0 0 c "" w)|intros; by apply (w_good_steps 0 0 c "" "" w)]. Qed.
Lemma health_law t c w : w_engaged (snd (w_checkHealth t c w)) = w_engaged w /\ (w_good w -> w_good (snd (w_checkHealth t c w))).
Proof. split; [apply (w_others t 0 c "" w)|intros; by apply (w_good_steps t 0 c "" "" w)]. Qed.
Lemma emit_law ev c w : w_engaged (w_emit ev c w) = w_engaged w /\ (w_good w -> w_good (w_emit ev c w)).
Proof. split; [apply (w_others 0 0 c ev w)|intros; by apply (w_good_steps 0 0 c ev "" w)]. Qed.
Lemma sleep_law d (c : Candidate) w : w_engaged (snd (w_sleep d w)) = w_engaged w /\ (w_good w -> w_good (snd (w_sleep d w))).
Proof. split; [apply (w_others 0 d c "" w)|intros; by apply (w_good_steps 0 d c "" "" w)]. Qed.
Lemma engage_law r (c : Candidate) w : w_good w -> w_good (snd (w_engage r w)).
Proof. intros; by apply (w_good_steps 0 0 c "" r w). Qed.
Lemma release_law (c : Candidate) w : w_good w -> w_good (snd (w_release w)).
Proof. intros; by apply (w_good_steps 0 0 c "" "" w). Qed.
Lemma reload_law c w : w_engaged (snd (w_hotReload c w)) = w_engaged w.
Proof. apply (w_others 0 0 c "" w). Qed.

Lemma start_core_ok c attempts e w :
  w_good w -> w_engaged w = true ->
  let '(o, (e', w')) := start_core c attempts e w in
  w_good w' /\ en_policy e' = en_policy e
  /\ match o with
     | Return r => succeeded c r e' w' \/ sr_Selected r = None /\ (exists x, sr_Err r = Some (ErrOther x)) /\ w_engaged w' = true
     | Next attempts' _ => w_engaged w' = true
         /\ exists st h err, attempts' = (attempts ++ [attempt c st h err])%list /\ (st = StateFailed \/ st = StateDegraded)
     end.
Proof.
  intros Hg He. unfold start_core.
  destruct (emit_law "CORE_SWITCH_START" c w) as [E1 G1]. set (w1 := w_emit _ c w) in *.
  rewrite He in E1. pose proof (w_good_reload c w1 (G1 Hg) E1) as G2. pose proof (reload_law c w1) as E2.
  destruct (w_hotReload c w1) as [rerr w2]. simpl in G2, E2. rewrite E1 in E2.
  destruct rerr as [err|].
  { destruct (stop_law c w2) as [E3 G3]. destruct (w_stop c w2) as [x w3]. simpl in *.
    destruct (emit_law "CORE_SWITCH_FAIL" c w3) as [E4 G4]. rewrite E4, E3, E2.
    split; [auto|]. split; [done|]. split; [done|]. do 3 eexists. by split; [|left]. }
  unfold checkHealth. set (t := timeout_or _ _).
  destruct (health_law t c w2) as [E3 G3]. destruct (w_checkHealth t c w2) as [[health herr] w3]. simpl in E3, G3.
  destruct (_ || _) eqn:Ed.
  { destruct (stop_law c w3) as [E4 G4]. destruct (w_stop c w3) as [x w4]. simpl in *.
    destruct (emit_law "CORE_HEALTH_DEGRADED" c w4) as [E5 G5]. rewrite E5, E4, E3, E2.
    split; [auto|]. split; [done|]. split; [done|]. do 3 eexists. by split; [|right]. }
  apply orb_false_iff in Ed as [_ Ed].
  pose proof (release_law c w3) as G4. pose proof (w_release_ok w3) as R1. pose proof (w_release_err w3) as R2.
  destruct (w_release w3) as [oerr w4]. simpl in G4, R1, R2. destruct oerr as [err|].
  { destruct (stop_law c w4) as [E5 G5]. destruct (w_stop c w4) as [x w5]. simpl in *.
    split; [auto|]. split; [done|]. right. split; [done|]. split; [by exists err|]. by rewrite E5, R2, E3, E2. }
  destruct (emit_law "CORE_SWITCH_OK" c w4) as [E5 G5]. split; [auto|]. split; [done|].
  left. unfold succeeded. rewrite E5. simpl. split_and!; try done; [by apply R1|apply failures_clear|].
  exists health. by rewrite last_snoc.
Qed.

Lemma try_candidate_ok c attempts lastErr e w :
  w_good w ->
  let '(o, (e', w')) := try_candidate c attempts lastErr e w in
  w_good w' /\ en_policy e' = en_policy e /\ step_ok c attempts w o e' w'.
Proof.
  intros Hg. unfold try_candidate. destruct (cd_Core c) as [core|] eqn:Ec.
  2: { split_and!; [done|done|]. split; [by right|]. do 3 eexists. by split; [|left]. }
  set (dl := backoffFor _ e). set (sl := if 0 <? dl then w_sleep dl w else (None, w)).
  assert (w_engaged (snd sl) = w_engaged w /\ w_good (snd sl)) as [E1 G1].
  { subst sl. destruct (0 <? dl); [|done]. destruct (sleep_law dl c w). auto. }
  destruct sl as [slept w1]. simpl in E1, G1.
  destruct slept as [err|].
  { split; [done|]. split; [done|]. right. split; [done|]. split; [by exists err|by right]. }
  destruct (emit_law "CORE_VALIDATE_START" c w1) as [E2 G2]. set (w2 := w_emit _ c w1) in *.
  unfold validateCandidate. set (t := timeout_or _ _).
  destruct (validate_law t c w2) as [E3 G3]. destruct (w_validate t c w2) as [verr w3]. simpl in E3, G3.
  destruct verr as [err|].
  { destruct (emit_law "CORE_VALIDATE_FAIL" c w3) as [E4 G4]. split; [auto|]. split; [done|].
    split; [right; congruence|]. do 3 eexists. by split; [|left]. }
  destruct (emit_law "CORE_VALIDATE_OK" c w3) as [E4 G4]. set (w4 := w_emit _ c w3) in *.
  pose proof (engage_law "core transition" c w4) as G5.
  pose proof (w_engage_ok "core transition" w4) as R1. pose proof (w_engage_err "core transition" w4) as R2.
  destruct (w_engage "core transition" w4) as [kerr w5]. simpl in G5, R1, R2. destruct kerr as [err|].
  { split; [auto|]. split; [done|]. right. split; [done|]. split; [by exists err|]. right. rewrite R2 by done. congruence. }
  pose proof (start_core_ok c attempts (setState StateIsolated (setState StateValidating e)) w5) as Hs.
  destruct (start_core _ _ _ w5) as [o [e' w']]. destruct Hs as (H1 & H2 & H3); [auto|by apply R1|].
  split; [done|]. split; [done|]. destruct o as [r|attempts' le]; simpl.
  - destruct H3 as [H3|(H3 & H4 & H5)]; [by left|right]. by split_and!; [| |left].
  - destruct H3 as [H3 H4]. by split; [left|].
Qed.

Lemma kept_shut_trans w1 w2 w3 : kept_shut w1 w2 -> kept_shut w2 w3 -> kept_shut w1 w3.
Proof. unfold kept_shut. intros [H1|H1] [H2|H2]; [by left|left; congruence|by left|right; congruence]. Qed.

Definition attempted (cs : list Candidate) (l : list Attempt) : Prop :=
  (fun a => at_ID a) <$> l = (fun c => cc_ID (cd_Config c)) <$> cs.

Lemma switch_loop_ok (cs : list Candidate) : forall (attempts : list Attempt) lastErr e w,
  w_good w ->
  let '(r, (e', w')) := switch_loop cs attempts lastErr e w in
  w_good w' /\ en_policy e' = en_policy e
  /\ ((exists c, c ∈ cs /\ succeeded c r e' w')
     \/ sr_Selected r = None /\ kept_shut w w'
        /\ ((exists x, sr_Err r = Some (ErrOther x))
           \/ sr_State r = StateBeacon /\ en_state e' = StateBeacon
              /\ (exists le, sr_Err r = Some (ErrAllCandidatesFailed le))
              /\ exists l, sr_Attempts r = (attempts ++ l)%list /\ attempted cs l)).
Proof.
  induction cs as [|c cs IH]; intros attempts lastErr e w Hg; simpl.
  - pose proof (engage_law "all proxy cores failed" (mkCandidate (mkCoreConfig "" "" "" [] "" "") None 0 false) w Hg) as G.
    pose proof (w_engage_ok "all proxy cores failed" w) as R1. pose proof (w_engage_err "all proxy cores failed" w) as R2.
    destruct (w_engage "all proxy cores failed" w) as [err w']. simpl in *. split; [done|]. split; [done|].
    right. split; [done|]. split; [destruct err as [x|]; [right; by apply R2|left; by apply R1]|].
    right. split_and!; [done|done|by eexists|]. exists []. by rewrite app_nil_r.
  - pose proof (try_candidate_ok c attempts lastErr e w Hg) as Ht.
    destruct (try_candidate c attempts lastErr e w) as [o [e1 w1]]. destruct Ht as (H1 & H2 & H3).
    destruct o as [r|attempts' le]; simpl in H3.
    + split; [done|]. split; [done|]. destruct H3 as [H3|(H3 & H4 & H5)]; [left; exists c; split; [by left|done]|].
      right. split; [done|]. split; [done|by left].
    + destruct H3 as (H3 & st & h & err & -> & _).
      specialize (IH (attempts ++ [attempt c st h err])%list le e1 w1 H1).
      destruct (switch_loop cs _ le e1 w1) as [r [e' w']]. destruct IH as (I1 & I2 & I3).
      split; [done|]. split; [congruence|]. destruct I3 as [(c' & Hc & Hs)|(I3 & I4 & I5)].
      { left. exists c'. split; [by right|done]. }
      right. split; [done|]. split; [by eapply kept_shut_trans|].
      destruct I5 as [I5|(I5 & I6 & I7 & l & I8 & I9)]; [by left|right]. split_and!; [done|done|done|].
      exists (attempt c st h err :: l). split; [by rewrite I8, <- app_assoc|].
      unfold attempted in *. by rewrite !fmap_cons, I9.
Qed.
End Switch.

(** ** The default kill switch *)

(** [NoopKillSwitch]: [ctxErr] is the context's error, if it is done. *)
Definition Noop_Engage (ctxErr : option string) (engaged : bool) : option string * bool :=
  match ctxErr with Some err => (Some err, engaged) | None => (None, true) end.
Definition Noop_Release (ctxErr : option string) (engaged : bool) : option string * bool :=
  match ctxErr with Some err => (Some err, engaged) | None => (None, false) end.
Definition Noop_IsEngaged (k : option bool) : bool := default false k.

(** It keeps the laws of [World]'s switch. *)
Lemma noop_laws ctxErr k :
  (fst (Noop_Engage ctxErr k) = None -> snd (Noop_Engage ctxErr k) = true)
  /\ (fst (Noop_Engage ctxErr k) <> None -> snd (Noop_Engage ctxErr k) = k)
  /\ (fst (Noop_Release ctxErr k) = None -> snd (Noop_Release ctxErr k) = false)
  /\ (fst (Noop_Release ctxErr k) <> None -> snd (Noop_Release ctxErr k) = k).
Proof. by destruct ctxErr. Qed.

(** ** [NetworkHealthMonitor]: bounded channels, full ones drop *)

Record Monitor := mkMonitor {
  mo_policy : FailoverPolicy;
  mo_buffer : nat;
  mo_in : list HealthSample;
  mo_out : list HealthSample;
}.

Definition NewNetworkHealthMonitor (policy : FailoverPolicy) (buffer : Z) : Monitor :=
  mkMonitor (if fp_ValidationTimeout policy =? 0 then DefaultFailoverPolicy else policy)
    (Z.to_nat (if buffer <=? 0 then 16 else buffer)) [] [].

Definition push_bounded (cap : nat) (s : HealthSample) (l : list HealthSample) : list HealthSample :=
  if decide (length l < cap)%nat then (l ++ [s])%list else l.

Definition RecordSample (s : HealthSample) (now : Z) (m : Monitor) : Monitor :=
  let s := if IsZero (hs_ObservedAt s)
    then mkHealth (hs_Status s) (hs_Reason s) (hs_LatencyMS s) (hs_ConsecutiveFailures s) (hs_TCPResetCount s)
           (hs_TLSTimeoutCount s) (hs_PacketDropPercent s) now (hs_Passive s) (hs_Error s)
    else s in
  mkMonitor (mo_policy m) (mo_buffer m) (push_bounded (mo_buffer m) s (mo_in m)) (mo_out m).

(** One turn of [Run]'s loop on a waiting sample. *)
Definition run_turn (m : Monitor) : Monitor :=
  match mo_in m with
  | [] => m
  | s :: rest =>
      mkMonitor (mo_policy m) (mo_buffer m) rest
        (if IsDegraded s (mo_policy m) then push_bounded (mo_buffer m) s (mo_out m) else mo_out m)
  end.

(** Only degraded samples come out, and no more than the buffer holds. *)
Lemma run_turn_degraded m :
  Forall (fun s => IsDegraded s (mo_policy m) = true) (mo_out m) -> (length (mo_out m) <= mo_buffer m)%nat ->
  Forall (fun s => IsDegraded s (mo_policy (run_turn m)) = true) (mo_out (run_turn m))
  /\ (length (mo_out (run_turn m)) <= mo_buffer (run_turn m))%nat.
Proof.
  intros Ho Hl. unfold run_turn. destruct (mo_in m) as [|s rest]; [done|]. simpl.
  destruct (IsDegraded s (mo_policy m)) eqn:E; [|done]. unfold push_bounded. case_decide; [|done].
  rewrite length_app. simpl. split; [|lia]. apply Forall_app. split; [done|]. by constructor.
Qed.

(** C21: The kill switch is safe for every behaviour of cores, switch, clock and context.
    A core is reloaded only behind the engaged switch.  If [Switch] selects a core, that is
    one of the candidates, its last health sample was not degraded, the switch was released,
    and the engine is running with that core active and its failures cleared.  If it selects
    none, the switch has been engaged or is as it was, never opened; and if all candidates
    failed, the engine is in beacon state and every candidate was attempted once, in order. *)
Theorem switch_is_fail_closed {W} `{World W} cs e (w : W) :
  w_good w ->
  let '(r, (e', w')) := Switch cs e w in
  w_good w'
  /\ ((exists c, c ∈ cs /\ succeeded c r e' w')
     \/ sr_Selected r = None /\ sr_Err r <> None /\ kept_shut w w'
        /\ (forall le, sr_Err r = Some (ErrAllCandidatesFailed le) ->
             sr_State r = StateBeacon /\ en_state e' = StateBeacon /\ attempted cs (sr_Attempts r))).
Proof.
  intros Hg. destruct cs as [|c cs].
  { simpl. split; [done|]. right. by split_and!; [| |right|]. }
  unfold Switch. pose proof (switch_loop_ok (c :: cs) [] None e w Hg) as Hl.
  destruct (switch_loop (c :: cs) [] None e w) as [r [e' w']]. destruct Hl as (H1 & _ & H3).
  split; [done|]. destruct H3 as [H3|(H3 & H4 & [(x & H5)|(H5 & H6 & (le & H7) & l & H8 & H9)])]; [by left| |];
    right; rewrite ?H5, ?H7; split_and!; try done.
  intros le' _. split_and!; try done. by rewrite H8.
Qed.

(** ** Backoff *)

(** The delay before a candidate's next attempt is nothing without failures, otherwise
    the base doubled per further failure, six times at most, and never above the maximum. *)
Theorem backoff_bounded id e :
  let p := en_policy e in
  let n := failures_of id e in
  0 < fp_BackoffBase p -> 64 * fp_BackoffBase p <= max_i64 -> 0 < fp_BackoffMax p ->
  (n <= 0 -> backoffFor id e = 0)
  /\ (0 < n -> backoffFor id e = Z.min (fp_BackoffMax p) (fp_BackoffBase p * 2 ^ Z.min (n - 1) 6))
  /\ 0 <= backoffFor id e <= fp_BackoffMax p.
Proof.
  intros p n Hb Ho Hm. unfold backoffFor. fold p n.
  destruct (Z.leb_spec n 0) as [Hn|Hn]; [simpl; lia|].
  destruct (Z.leb_spec (fp_BackoffBase p) 0); [lia|]. simpl.
  rewrite Z.shiftl_mul_pow2 by lia.
  assert (1 <= 2 ^ Z.min (n - 1) 6 <= 64) as Hp.
  { split; [apply (Z.pow_le_mono_r 2 0); lia|]. change 64 with (2 ^ 6). apply Z.pow_le_mono_r; lia. }
  set (k := 2 ^ Z.min (n - 1) 6) in *. rewrite i64_id by (unfold_ints; nia).
  assert (0 < fp_BackoffBase p * k) by nia.
  destruct (Z.ltb_spec 0 (fp_BackoffMax p)), (Z.ltb_spec (fp_BackoffMax p) (fp_BackoffBase p * k)); simpl; lia.
Qed.

Lemma backoff_bounded_witness :
  let e := recordFailure "a" (recordFailure "a" (recordFailure "a" (NewEngine DefaultFailoverPolicy))) in
  (failures_of "a" e <= 0 -> backoffFor "a" e = 0)
  /\ (0 < failures_of "a" e -> backoffFor "a" e
       = Z.min (fp_BackoffMax (en_policy e)) (fp_BackoffBase (en_policy e) * 2 ^ Z.min (failures_of "a" e - 1) 6))
  /\ 0 <= backoffFor "a" e <= fp_BackoffMax (en_policy e).
Proof. apply backoff_bounded; vm_compute; congruence. Defined.

(** ** A world for the witness: cores whose names say how they fail *)

Record Lab := mkLab {
  lab_engaged : bool;
  lab_open_reloads : Z;
  lab_log : list string;
}.

Definition lab_note (s : string) (w : Lab) : Lab := mkLab (lab_engaged w) (lab_open_reloads w) (lab_log w ++ [s]).

Definition lab_reload (c : Candidate) (w : Lab) : option string * Lab :=
  (if bool_decide (cd_Core c = Some "crash") then Some "crashed" else None,
   mkLab (lab_engaged w) (lab_open_reloads w + if lab_engaged w then 0 else 1) (lab_log w ++ ["reload"])).

#[export] Program Instance lab_world : World Lab := {
  w_validate _ c w := (if bool_decide (cd_Core c = Some "invalid") then Some "invalid" else None, lab_note "validate" w);
  w_hotReload := lab_reload;
  w_stop _ w := (None, lab_note "stop" w);
  w_checkHealth _ c w := ((mkHealth (if bool_decide (cd_Core c = Some "sick") then "degraded" else "ok") "" 0 0 0 0 0 0 false "", None), w);
  w_engage _ w := (None, mkLab true (lab_open_reloads w) (lab_log w));
  w_release w := (None, mkLab false (lab_open_reloads w) (lab_log w));
  w_sleep _ w := (None, w);
  w_emit s _ w := lab_note s w;
  w_engaged := lab_engaged;
  w_good w := lab_open_reloads w = 0;
}.
Solve Obligations with try done.
Next Obligation. intros c w H E. simpl in *. rewrite E. lia. Qed.

Definition lab_candidate (id core : string) : Candidate := mkCandidate (mkCoreConfig id "p" "" [] "" "") (Some core) 0 false.

Lemma switch_is_fail_closed_witness :
  let out := Switch [lab_candidate "a" "invalid"; lab_candidate "b" "crash"; lab_candidate "c" "sick"; lab_candidate "d" "fine"]
    (NewEngine DefaultFailoverPolicy) (mkLab false 0 []) in
  lab_open_reloads (snd (snd out)) = 0 /\ sr_Selected (fst out) = Some (lab_candidate "d" "fine").
Proof.
  split; [|vm_compute; reflexivity].
  pose proof (switch_is_fail_closed [lab_candidate "a" "invalid"; lab_candidate "b" "crash"; lab_candidate "c" "sick"; lab_candidate "d" "fine"]
    (NewEngine DefaultFailoverPolicy) (mkLab false 0 []) eq_refl) as Hs.
  destruct (Switch _ _ _) as [r [e' w']]. exact (proj1 Hs).
Defined.
