(* ===== verification/Sha256.v ===== *)
(** * SHA-256 and Ed25519 ([crypto/sha256], [crypto/ed25519])

    The digest over bytes as integers: FIPS 180-4 with 32-bit words as integers below 2^32.
    Signatures are a parameter. *)

From S2P Require Import Prelude.

Definition K256 : list Z :=
  [ 1116352408; 1899447441; 3049323471; 3921009573; 961987163; 1508970993; 2453635748; 2870763221;
    3624381080; 310598401; 607225278; 1426881987; 1925078388; 2162078206; 2614888103; 3248222580;
    3835390401; 4022224774; 264347078; 604807628; 770255983; 1249150122; 1555081692; 1996064986;
    2554220882; 2821834349; 2952996808; 3210313671; 3336571891; 3584528711; 113926993; 338241895;
    666307205; 773529912; 1294757372; 1396182291; 1695183700; 1986661051; 2177026350; 2456956037;
    2730485921; 2820302411; 3259730800; 3345764771; 3516065817; 3600352804; 4094571909; 275423344;
    430227734; 506948616; 659060556; 883997877; 958139571; 1322822218; 1537002063; 1747873779;
    1955562222; 2024104815; 2227730452; 2361852424; 2428436474; 2756734187; 3204031479; 3329325298 ].

Definition H256 : list Z :=
  [ 1779033703; 3144134277; 1013904242; 2773480762; 1359893119; 2600822924; 528734635; 1541459225 ].

Definition add32 (x y : Z) : Z := u32 (x + y).
Definition rotr (n x : Z) : Z := Z.lor (Z.shiftr x n) (u32 (Z.shiftl x (32 - n))).
Definition xor3 (x y z : Z) : Z := Z.lxor (Z.lxor x y) z.
Definition Sigma0 (x : Z) : Z := xor3 (rotr 2 x) (rotr 13 x) (rotr 22 x).
Definition Sigma1 (x : Z) : Z := xor3 (rotr 6 x) (rotr 11 x) (rotr 25 x).
Definition sigma0 (x : Z) : Z := xor3 (rotr 7 x) (rotr 18 x) (Z.shiftr x 3).
Definition sigma1 (x : Z) : Z := xor3 (rotr 17 x) (rotr 19 x) (Z.shiftr x 10).
Definition Ch (x y z : Z) : Z := Z.lxor (Z.land x y) (Z.land (2 ^ 32 - 1 - x) z).
Definition Maj (x y z : Z) : Z := xor3 (Z.land x y) (Z.land x z) (Z.land y z).

(** The message schedule: [window] holds the last 16 words, oldest first. *)
Fixpoint schedule (n : nat) (window : list Z) : list Z :=
  match n with
  | O => []
  | S n' =>
      match window with
      | w :: rest =>
          let next := add32 (add32 (sigma1 (nth 14 window 0)) (nth 9 window 0)) (add32 (sigma0 (nth 1 window 0)) w) in
          w :: schedule n' (rest ++ [next])
      | [] => []
      end
  end.

Definition round (st : list Z) (kw : Z) : list Z :=
  match st with
  | [a; b; c; d; e; f; g; h] =>
      let t1 := add32 (add32 h (Sigma1 e)) (add32 (Ch e f g) kw) in
      let t2 := add32 (Sigma0 a) (Maj a b c) in
      [add32 t1 t2; a; b; c; add32 d t1; e; f; g]
  | _ => st
  end.

Definition compress (st block : list Z) : list Z :=
  let ws := schedule 64 block in
  zip_with add32 st (fold_left round (zip_with add32 K256 ws) st).

(** Cutting into pieces of [n]. *)
Fixpoint pieces (fuel n : nat) (l : list Z) : list (list Z) :=
  match fuel with
  | O => []
  | S fuel' => match l with [] => [] | _ => take n l :: pieces fuel' n (drop n l) end
  end.

(** The message, a one bit, zeros up to 56 modulo 64, and the length in bits. *)
Definition padded (m : list Z) : list Z :=
  let len := blen m in
  m ++ [128] ++ replicate (Z.to_nat ((55 - len) mod 64)) 0 ++ be_put 8 (u64 (8 * len)).

Definition words (block : list Z) : list Z := be_get <$> pieces 16 4 block.

Definition Sum256 (m : list Z) : list Z :=
  let p := padded m in
  let blocks := words <$> pieces (length p) 64 p in
  concat (be_put 4 <$> fold_left compress blocks H256).

(** ** The interface of [crypto/ed25519] *)

Definition PublicKeySize : Z := 32.
Definition PrivateKeySize : Z := 64.
Definition SignatureSize : Z := 64.

(** Ed25519 on byte strings: [ed_verify pub msg sig], [ed_sign priv msg]. *)
Class Ed25519 := {
  ed_verify : list Z -> list Z -> list Z -> bool;
  ed_sign : list Z -> list Z -> list Z;
}.

Lemma round_length st kw : length (round st kw) = length st.
Proof. unfold round. by destruct st as [|? [|? [|? [|? [|? [|? [|? [|? [|? ?]]]]]]]]]. Qed.

Lemma rounds_length kws st : length (fold_left round kws st) = length st.
Proof. revert st. induction kws as [|kw kws IH]; intros st; [done|]. simpl. by rewrite IH, round_length. Qed.

Lemma compress_length st block : length (compress st block) = length st.
Proof. unfold compress. rewrite length_zip_with, rounds_length. lia. Qed.

Lemma concat_words_length (l : list Z) : length (concat (be_put 4 <$> l)) = (4 * length l)%nat.
Proof. induction l as [|x l IH]; [done|]. rewrite fmap_cons. cbn [concat length]. rewrite length_app, be_put_length, IH. lia. Qed.

(** A digest is 32 bytes. *)
Lemma Sum256_length m : length (Sum256 m) = 32%nat.
Proof.
  unfold Sum256. rewrite concat_words_length.
  assert (forall bs st, length (fold_left compress bs st) = length st) as ->; [|done].
  intros bs. induction bs as [|b bs IH]; intros st; [done|]. simpl. by rewrite IH, compress_length.
Qed.

Lemma concat_words_ok (l : list Z) : bytes_ok (concat (be_put 4 <$> l)).
Proof. induction l as [|x l IH]; [constructor|]. rewrite fmap_cons. cbn [concat]. apply Forall_app. split; [apply be_put_ok|done]. Qed.

Lemma Sum256_ok m : bytes_ok (Sum256 m).
Proof. apply concat_words_ok. Qed.

(** The published digests of the empty message and of the three bytes of abc. *)
Example Sum256_empty : firstn 4 (Sum256 []) = [227; 176; 196; 66].
Proof. vm_compute. reflexivity. Qed.
Example Sum256_abc : firstn 4 (Sum256 [97; 98; 99]) = [186; 120; 22; 191].
Proof. vm_compute. reflexivity. Qed.
Example Sum256_two_blocks : Sum256 (replicate 100 97) = [40; 22; 89; 120; 136; 228; 160; 211; 163; 107; 130; 184; 51; 22; 171; 50; 104; 14; 184; 240; 15; 140; 211; 185; 4; 214; 129; 36; 109; 40; 90; 14].
Proof. vm_compute. reflexivity. Qed.
