(* ===== verification/GF256.v ===== *)
(** * Arithmetic in GF(256) ([pkg/bundle/chunk_engine.go], gfAdd to gfInv)

    The code's carry-less multiplication, powers and inverse on bytes, and the proof that
    they are a field: addition is xor, and a product is determined by the products of
    powers of two, so the laws reduce to finitely many evaluations. *)

From S2P Require Import Prelude.

Definition gfAdd (a b : Z) : Z := Z.lxor a b.

(** The doubling step of the loop: [hi := a & 0x80; a <<= 1; if hi != 0 { a ^= 0x1d }]. *)
Definition gfDouble (a : Z) : Z :=
  let a' := u8 (Z.shiftl a 1) in if Z.land a 128 =? 0 then a' else Z.lxor a' 29.

(** [for b != 0 { ... }]: a byte is shifted to zero within eight turns. *)
Fixpoint gfMul_loop (fuel : nat) (a b p : Z) : Z :=
  match fuel with
  | O => p
  | S fuel' =>
      if b =? 0 then p
      else gfMul_loop fuel' (gfDouble a) (Z.shiftr b 1) (if Z.land b 1 =? 0 then p else gfAdd p a)
  end.

Definition gfMul (a b : Z) : Z := gfMul_loop 8 a b 0.

(** [for n > 0 { ... n >>= 1 }], for exponents below 2^8. *)
Fixpoint gfPow_loop (fuel : nat) (a n out : Z) : Z :=
  match fuel with
  | O => out
  | S fuel' =>
      if 0 <? n then
        gfPow_loop fuel' (gfMul a a) (Z.shiftr n 1) (if Z.land n 1 =? 1 then gfMul out a else out)
      else out
  end.

Definition gfPow (a n : Z) : Z := gfPow_loop 8 a n 1.

Definition gfInv (a : Z) : Z := if a =? 0 then 0 else gfPow a 254.

(** The loop ends: eight turns leave nothing of a byte to multiply with. *)
Lemma gfMul_loop_enough a b p fuel : is_u8 b -> gfMul_loop (8 + fuel) a b p = gfMul_loop 8 a b p.
Proof.
  intros Hb. assert (forall n a b p, 0 <= b < 2 ^ Z.of_nat n -> gfMul_loop (n + fuel) a b p = gfMul_loop n a b p) as H.
  { clear. induction n as [|n IH]; intros a b p Hb; simpl.
    - assert (b = 0) as -> by (simpl in Hb; lia). by destruct fuel.
    - destruct (b =? 0); [done|]. apply IH. rewrite Z.shiftr_div_pow2 by lia.
      rewrite Nat2Z.inj_succ, Z.pow_succ_r in Hb by lia.
      split; [apply Z.div_pos; lia|apply Z.div_lt_upper_bound; lia]. }
  by apply (H 8%nat).
Qed.

(** ** Additive functions on bytes *)

Definition additive (f : Z -> Z) : Prop := forall x y, is_u8 x -> is_u8 y -> f (Z.lxor x y) = Z.lxor (f x) (f y).

(** The exclusive or of the powers of two in a byte. *)
Definition basis_sum (f : Z -> Z) (x : Z) : Z :=
  fold_right (fun i acc => if Z.testbit x i then Z.lxor (f (2 ^ i)) acc else acc) 0 [0; 1; 2; 3; 4; 5; 6; 7].

Lemma lxor_u8 x y : is_u8 x -> is_u8 y -> is_u8 (Z.lxor x y).
Proof.
  unfold_ints. intros Hx Hy. change 256 with (2 ^ 8) in *. split; [apply Z.lxor_nonneg; lia|].
  destruct (Z.eq_dec (Z.lxor x y) 0) as [->|Hn]; [lia|].
  assert (0 < Z.lxor x y) by (pose proof (proj2 (Z.lxor_nonneg x y)); lia).
  apply Z.log2_lt_pow2; [lia|]. pose proof (Z.log2_lxor x y ltac:(lia) ltac:(lia)).
  assert (forall z, 0 <= z < 2 ^ 8 -> Z.log2 z < 8) as Hlog.
  { intros z Hz. destruct (Z.eq_dec z 0) as [->|]; [by cbn|]. apply Z.log2_lt_pow2; lia. }
  pose proof (Hlog x Hx). pose proof (Hlog y Hy). lia.
Qed.

Lemma basis_sum_id x : is_u8 x -> basis_sum (fun z => z) x = x.
Proof.
  intros Hx. apply Z.eqb_eq. revert x Hx. apply (all_below (fun x => basis_sum (fun z => z) x =? x) 256). vm_compute. reflexivity.
Qed.

Lemma additive_zero f : additive f -> f 0 = 0.
Proof. intros Hf. specialize (Hf 0 0). rewrite Z.lxor_nilpotent, Z.lxor_nilpotent in Hf. apply Hf; unfold_ints; lia. Qed.

Lemma additive_basis f x : additive f -> is_u8 x -> f x = basis_sum f x.
Proof.
  intros Hf Hx. rewrite <- (basis_sum_id x Hx) at 1. unfold basis_sum.
  assert (forall l, Forall (fun i => 0 <= i < 8) l ->
    let s := fold_right (fun i acc => if Z.testbit x i then Z.lxor (2 ^ i) acc else acc) 0 l in
    is_u8 s /\ f s = fold_right (fun i acc => if Z.testbit x i then Z.lxor (f (2 ^ i)) acc else acc) 0 l) as H.
  { induction 1 as [|i l Hi _ [IH1 IH2]]; simpl; [split; [unfold_ints; lia|by apply additive_zero]|].
    destruct (Z.testbit x i); [|done].
    assert (is_u8 (2 ^ i)).
    { unfold_ints. split; [apply Z.pow_nonneg; lia|]. apply Z.pow_lt_mono_r; lia. }
    split; [by apply lxor_u8|]. by rewrite Hf, IH2. }
  apply H. repeat constructor; lia.
Qed.

(** Two additive functions that agree on the powers of two agree on all bytes. *)
Lemma additive_ext f g :
  additive f -> additive g -> (forall i, 0 <= i < 8 -> f (2 ^ i) = g (2 ^ i)) -> forall x, is_u8 x -> f x = g x.
Proof.
  intros Hf Hg He x Hx. rewrite (additive_basis f x), (additive_basis g x) by done.
  unfold basis_sum. simpl. by rewrite !He by lia.
Qed.

(** ** The product is additive in both arguments *)

Lemma all_pairs (P : Z -> Z -> bool) :
  forallb (fun i => forallb (fun j => P (Z.of_nat i) (Z.of_nat j)) (seq 0 256)) (seq 0 256) = true ->
  forall x y, is_u8 x -> is_u8 y -> P x y = true.
Proof.
  intros H x y Hx Hy. apply (all_below (fun y => P x y) 256); [|done].
  revert x Hx. exact (all_below (fun x => forallb (fun j => P x (Z.of_nat j)) (seq 0 256)) 256 H).
Qed.

Lemma gfDouble_u8 a : is_u8 a -> is_u8 (gfDouble a).
Proof.
  intros Ha. unfold gfDouble. destruct (_ =? 0); [apply u8_range|]. apply lxor_u8; [apply u8_range|unfold_ints; lia].
Qed.

Lemma gfDouble_additive : additive gfDouble.
Proof.
  intros x y Hx Hy. apply Z.eqb_eq. revert x y Hx Hy.
  apply (all_pairs (fun x y => gfDouble (Z.lxor x y) =? Z.lxor (gfDouble x) (gfDouble y))). vm_compute. reflexivity.
Qed.

(** The product without its accumulator. *)
Fixpoint gf_sum (n : nat) (a b : Z) : Z :=
  match n with
  | O => 0
  | S n' => Z.lxor (if Z.odd b then a else 0) (gf_sum n' (gfDouble a) (Z.div2 b))
  end.

Lemma land_one b : (Z.land b 1 =? 0) = negb (Z.odd b).
Proof.
  change 1 with (Z.ones 1). rewrite Z.land_ones by lia. change (2 ^ 1) with 2.
  rewrite Zmod_odd. by destruct (Z.odd b).
Qed.

Lemma gf_sum_zero n a : gf_sum n a 0 = 0.
Proof. revert a. induction n as [|n IH]; intros a; [done|]. simpl. by rewrite IH. Qed.

Lemma gfMul_loop_sum n a b p : gfMul_loop n a b p = Z.lxor p (gf_sum n a b).
Proof.
  revert a b p. induction n as [|n IH]; intros a b p; [by rewrite Z.lxor_0_r|]. cbn [gfMul_loop].
  destruct (Z.eqb_spec b 0) as [->|Hb]; [by rewrite gf_sum_zero, Z.lxor_0_r|].
  rewrite IH, land_one. cbn [gf_sum]. rewrite <- Z.div2_spec. unfold gfAdd.
  destruct (Z.odd b); simpl; by rewrite ?Z.lxor_0_l, ?Z.lxor_assoc.
Qed.

Lemma gfMul_sum a b : gfMul a b = gf_sum 8 a b.
Proof. unfold gfMul. by rewrite gfMul_loop_sum, Z.lxor_0_l. Qed.

Lemma lxor_swap a b c d : Z.lxor (Z.lxor a b) (Z.lxor c d) = Z.lxor (Z.lxor a c) (Z.lxor b d).
Proof. rewrite !Z.lxor_assoc. f_equal. rewrite <- !Z.lxor_assoc. f_equal. apply Z.lxor_comm. Qed.

Lemma gfMul_additive_l b : additive (fun a => gfMul a b).
Proof.
  intros x y Hx Hy. rewrite !gfMul_sum. generalize 8%nat. intros n. revert x y b Hx Hy.
  induction n as [|n IH]; intros x y b Hx Hy; [done|]. cbn [gf_sum].
  rewrite gfDouble_additive, IH by auto using gfDouble_u8. rewrite lxor_swap. f_equal.
  by destruct (Z.odd b).
Qed.

Lemma gfMul_additive_r a : additive (gfMul a).
Proof.
  intros x y _ _. rewrite !gfMul_sum. generalize 8%nat. intros n. revert a x y.
  induction n as [|n IH]; intros a x y; [done|]. cbn [gf_sum].
  rewrite !Z.div2_spec, Z.shiftr_lxor, <- !Z.div2_spec, IH, lxor_swap. f_equal.
  rewrite <- !Z.bit0_odd, Z.lxor_spec. by destruct (Z.testbit x 0), (Z.testbit y 0); simpl;
    rewrite ?Z.lxor_nilpotent, ?Z.lxor_0_r, ?Z.lxor_0_l.
Qed.

Lemma gfMul_u8 a b : is_u8 a -> is_u8 (gfMul a b).
Proof.
  rewrite gfMul_sum. generalize 8%nat. intros n. revert a b. induction n as [|n IH]; intros a b Ha; cbn [gf_sum]; [unfold_ints; lia|].
  apply lxor_u8; [destruct (Z.odd b); [done|unfold_ints; lia]|]. by apply IH, gfDouble_u8.
Qed.

(** ** The field laws *)

Lemma pow2_u8 i : 0 <= i < 8 -> is_u8 (2 ^ i).
Proof. intros. unfold_ints. split; [apply Z.pow_nonneg; lia|apply Z.pow_lt_mono_r; lia]. Qed.

Lemma additive_compose f g : additive f -> (forall x, is_u8 x -> is_u8 (g x)) -> additive g -> additive (fun x => f (g x)).
Proof. intros Hf Hu Hg x y Hx Hy. rewrite Hg, Hf by auto. done. Qed.

#[local] Hint Resolve gfMul_additive_l gfMul_additive_r gfMul_u8 pow2_u8 : core.

Lemma gfMul_comm_basis i j : 0 <= i < 8 -> 0 <= j < 8 -> gfMul (2 ^ i) (2 ^ j) = gfMul (2 ^ j) (2 ^ i).
Proof.
  intros Hi Hj. apply Z.eqb_eq.
  apply (all_below (fun j => gfMul (2 ^ i) (2 ^ j) =? gfMul (2 ^ j) (2 ^ i)) 8); [|done].
  apply (all_below (fun i => forallb (fun j => gfMul (2 ^ i) (2 ^ Z.of_nat j)
     =? gfMul (2 ^ Z.of_nat j) (2 ^ i)) (seq 0 8)) 8); [|done].
  vm_compute. reflexivity.
Qed.

Lemma gfMul_comm a b : is_u8 a -> is_u8 b -> gfMul a b = gfMul b a.
Proof.
  intros Ha Hb. revert a Ha. apply (additive_ext (fun a => gfMul a b) (gfMul b)); auto.
  intros i Hi. revert b Hb. apply (additive_ext (gfMul (2 ^ i)) (fun b => gfMul b (2 ^ i))); auto.
  intros j Hj. by apply gfMul_comm_basis.
Qed.

Lemma gfMul_assoc_basis i j k : 0 <= i < 8 -> 0 <= j < 8 -> 0 <= k < 8 ->
  gfMul (gfMul (2 ^ i) (2 ^ j)) (2 ^ k) = gfMul (2 ^ i) (gfMul (2 ^ j) (2 ^ k)).
Proof.
  intros Hi Hj Hk. apply Z.eqb_eq.
  apply (all_below (fun k => gfMul (gfMul (2 ^ i) (2 ^ j)) (2 ^ k) =? gfMul (2 ^ i) (gfMul (2 ^ j) (2 ^ k))) 8); [|done].
  apply (all_below (fun j => forallb (fun k => gfMul (gfMul (2 ^ i) (2 ^ j)) (2 ^ Z.of_nat k)
     =? gfMul (2 ^ i) (gfMul (2 ^ j) (2 ^ Z.of_nat k))) (seq 0 8)) 8); [|done].
  apply (all_below (fun i => forallb (fun j => forallb (fun k =>
     gfMul (gfMul (2 ^ i) (2 ^ Z.of_nat j)) (2 ^ Z.of_nat k)
     =? gfMul (2 ^ i) (gfMul (2 ^ Z.of_nat j) (2 ^ Z.of_nat k))) (seq 0 8)) (seq 0 8)) 8); [|done].
  vm_compute. reflexivity.
Qed.

Lemma gfMul_assoc a b c : is_u8 a -> is_u8 b -> is_u8 c -> gfMul (gfMul a b) c = gfMul a (gfMul b c).
Proof.
  intros Ha Hb Hc. revert a Ha. apply (additive_ext (fun a => gfMul (gfMul a b) c) (fun a => gfMul a (gfMul b c))); auto.
  { apply (additive_compose (fun x => gfMul x c) (fun a => gfMul a b)); auto. }
  intros i Hi. revert b Hb.
  apply (additive_ext (fun b => gfMul (gfMul (2 ^ i) b) c) (fun b => gfMul (2 ^ i) (gfMul b c))).
  { apply (additive_compose (fun y => gfMul y c) (gfMul (2 ^ i))); auto. }
  { apply (additive_compose (gfMul (2 ^ i)) (fun b => gfMul b c)); auto. }
  intros j Hj. revert c Hc.
  apply (additive_ext (gfMul (gfMul (2 ^ i) (2 ^ j))) (fun c => gfMul (2 ^ i) (gfMul (2 ^ j) c))); auto.
  { apply (additive_compose (gfMul (2 ^ i)) (gfMul (2 ^ j))); auto. }
  intros k Hk. by apply gfMul_assoc_basis.
Qed.

Lemma gfMul_1_l a : is_u8 a -> gfMul 1 a = a.
Proof.
  intros Ha. apply Z.eqb_eq. revert a Ha. apply (all_below (fun a => gfMul 1 a =? a) 256). vm_compute. reflexivity.
Qed.

Lemma gfMul_0_l a : gfMul 0 a = 0.
Proof. rewrite gfMul_sum. generalize 8%nat. intros n. revert a. induction n as [|n IH]; intros a; [done|]. cbn [gf_sum]. change (gfDouble 0) with 0. rewrite IH. by destruct (Z.odd a). Qed.

Lemma gfMul_0_r a : gfMul a 0 = 0.
Proof. rewrite gfMul_sum. apply gf_sum_zero. Qed.

Lemma gfInv_u8 a : is_u8 a -> is_u8 (gfInv a).
Proof.
  intros Ha. apply (bool_decide_eq_true_1 (is_u8 (gfInv a))). revert a Ha.
  apply (all_below (fun a => bool_decide (is_u8 (gfInv a))) 256). vm_compute. reflexivity.
Qed.

Lemma gfInv_l a : is_u8 a -> a <> 0 -> gfMul (gfInv a) a = 1.
Proof.
  intros Ha Hn. assert ((a =? 0) || (gfMul (gfInv a) a =? 1) = true) as H.
  { revert a Ha Hn. intros a Ha _. revert a Ha.
    apply (all_below (fun a => (a =? 0) || (gfMul (gfInv a) a =? 1)) 256). vm_compute. reflexivity. }
  apply orb_true_iff in H as [H|H]; lia.
Qed.

Lemma gf_distr a b c : is_u8 b -> is_u8 c -> gfMul a (gfAdd b c) = gfAdd (gfMul a b) (gfMul a c).
Proof. apply gfMul_additive_r. Qed.

(** The code's byte arithmetic is the field with 256 elements: addition is
    associative, commutative and its own inverse, multiplication is associative,
    commutative, distributes over addition and has the unit 1, and [gfInv] of a byte other
    than zero is its inverse. *)
Theorem gf256_is_a_field a b c :
  is_u8 a -> is_u8 b -> is_u8 c ->
  is_u8 (gfAdd a b) /\ is_u8 (gfMul a b) /\ is_u8 (gfInv a)
  /\ gfAdd (gfAdd a b) c = gfAdd a (gfAdd b c) /\ gfAdd a b = gfAdd b a /\ gfAdd a 0 = a /\ gfAdd a a = 0
  /\ gfMul (gfMul a b) c = gfMul a (gfMul b c) /\ gfMul a b = gfMul b a /\ gfMul 1 a = a
  /\ gfMul a (gfAdd b c) = gfAdd (gfMul a b) (gfMul a c)
  /\ (a <> 0 -> gfMul (gfInv a) a = 1).
Proof.
  intros Ha Hb Hc. unfold gfAdd at 1 2 3 4 5 6 7 8. split_and!; auto using lxor_u8, gfInv_u8, gfMul_assoc,
    gfMul_comm, gfMul_1_l, gf_distr, gfInv_l, Z.lxor_assoc, Z.lxor_comm, Z.lxor_0_r, Z.lxor_nilpotent.
Qed.

Lemma gf256_is_a_field_witness : gfMul (gfInv 83) 83 = 1 /\ gfMul (gfMul 83 202) 7 = gfMul 83 (gfMul 202 7).
Proof.
  destruct (gf256_is_a_field 83 202 7) as (_ & _ & _ & _ & _ & _ & _ & H1 & _ & _ & _ & H2); [decided..|].
  split; [by apply H2|exact H1].
Defined.
