(* ===== verification/Matrix.v ===== *)
(** * Matrix inversion over GF(256) ([pkg/bundle/chunk_engine.go], invertMatrix)

    Gauss-Jordan elimination on the matrix augmented with the identity, as the code does it:
    each pass touches only the columns from the pivot on.  The result is a left inverse, and
    the code gives up exactly on matrices with a non-trivial kernel. *)

From S2P Require Import Prelude GF256.

Inductive matrix_err := ErrEmptyMatrix | ErrNonSquare | ErrSingular.

(** [row[j]] *)
Definition entry (r : list Z) (j : nat) : Z := nth j r 0.

(** [x ^= f(x, y)] for the columns from [col] on. *)
Definition from_col (col : nat) (f : Z -> Z -> Z) (r s : list Z) : list Z :=
  imap (fun j xy => if (j <? col)%nat then xy.1 else f xy.1 xy.2) (zip r s).

Definition unit_row (n i : nat) : list Z := <[i := 1]> (replicate n 0).

(** [aug[i] = in[i] ++ e_i] *)
Definition augment (m : list (list Z)) : list (list Z) := imap (fun i r => r ++ unit_row (length m) i) m.

(** The first row at or below [i] whose entry in [col] is not zero. *)
Fixpoint find_pivot (rows : list (list Z)) (col i : nat) : option nat :=
  match rows with
  | [] => None
  | r :: rows' => if entry r col =? 0 then find_pivot rows' col (S i) else Some i
  end.

Definition row_at (aug : list (list Z)) (i : nat) : list Z := nth i aug [].

Definition swap_rows (aug : list (list Z)) (i j : nat) : list (list Z) :=
  <[j := row_at aug i]> (<[i := row_at aug j]> aug).

(** [aug[col][j] = gfMul(aug[col][j], invPivot)] for j from col. *)
Definition scale_row (col : nat) (invPivot : Z) (r : list Z) : list Z :=
  from_col col (fun x _ => gfMul x invPivot) r r.

(** [aug[row][j] ^= gfMul(factor, aug[col][j])] for j from col. *)
Definition clear_row (col : nat) (pivot : list Z) (row : nat) (r : list Z) : list Z :=
  if (row =? col)%nat || (entry r col =? 0) then r
  else from_col col (fun x y => Z.lxor x (gfMul (entry r col) y)) r pivot.

(** One pass of the outer loop. *)
Definition eliminate (col : nat) (aug : list (list Z)) : option (list (list Z)) :=
  match find_pivot (drop col aug) col col with
  | None => None
  | Some pivot =>
      let aug := if (pivot =? col)%nat then aug else swap_rows aug pivot col in
      let prow := scale_row col (gfInv (entry (row_at aug col) col)) (row_at aug col) in
      Some (imap (clear_row col prow) (<[col := prow]> aug))
  end.

Fixpoint eliminate_all (n col : nat) (aug : list (list Z)) : option (list (list Z)) :=
  match n with
  | O => Some aug
  | S n' => match eliminate col aug with Some aug' => eliminate_all n' (S col) aug' | None => None end
  end.

Definition invertMatrix (m : list (list Z)) : res matrix_err (list (list Z)) :=
  let n := length m in
  if (n =? 0)%nat then Err ErrEmptyMatrix
  else if negb (forallb (fun r => (length r =? n)%nat) m) then Err ErrNonSquare
  else
    match eliminate_all n 0 (augment m) with
    | None => Err ErrSingular
    | Some aug => Ok (drop n <$> aug)
    end.

(** ** Products *)

(** The product of a row with a column. *)
Fixpoint dot (r x : list Z) : Z :=
  match r, x with
  | a :: r', b :: x' => Z.lxor (gfMul a b) (dot r' x')
  | _, _ => 0
  end.

Definition mulvec (m : list (list Z)) (x : list Z) : list Z := (fun r => dot r x) <$> m.

Definition add_row (r s : list Z) : list Z := zip_with Z.lxor r s.
Definition mul_row (c : Z) (r : list Z) : list Z := gfMul c <$> r.

Lemma dot_u8 r x : bytes_ok r -> bytes_ok x -> is_u8 (dot r x).
Proof.
  intros Hr. revert x. induction Hr as [|a r Ha _ IH]; intros x Hx; simpl; [unfold_ints; lia|].
  destruct Hx as [|b x Hb Hx]; [unfold_ints; lia|]. apply lxor_u8; [by apply gfMul_u8|by apply IH].
Qed.

Lemma mulvec_bytes m x : Forall bytes_ok m -> bytes_ok x -> bytes_ok (mulvec m x).
Proof. intros Hm Hx. apply Forall_fmap. eapply Forall_impl; [exact Hm|]. intros r Hr. by apply dot_u8. Qed.

Lemma dot_add r s x : bytes_ok r -> bytes_ok s -> length r = length s ->
  dot (add_row r s) x = Z.lxor (dot r x) (dot s x).
Proof.
  intros Hr. revert s x. induction Hr as [|a r Ha _ IH]; intros s x Hs Hl; destruct Hs as [|b s Hb Hs]; try done.
  destruct x as [|y x]; [done|]. simpl in *. rewrite IH by (done || lia).
  rewrite (gfMul_additive_l y a b) by done. apply lxor_swap.
Qed.

Lemma dot_mul c r x : is_u8 c -> bytes_ok r -> bytes_ok x -> dot (mul_row c r) x = gfMul c (dot r x).
Proof.
  intros Hc Hr. revert x. induction Hr as [|a r Ha Hr IH]; intros x Hx; [by rewrite gfMul_0_r|].
  destruct Hx as [|b x Hb Hx]; simpl; [by rewrite gfMul_0_r|].
  rewrite IH, gfMul_assoc, gfMul_additive_r by auto using gfMul_u8, dot_u8. done.
Qed.

Lemma dot_zero n x : dot (replicate n 0) x = 0.
Proof. revert x. induction n as [|n IH]; intros [|b x]; simpl; try done. by rewrite gfMul_0_l, IH. Qed.

Lemma dot_unit n i x : (i < n)%nat -> length x = n -> bytes_ok x -> dot (unit_row n i) x = nth i x 0.
Proof.
  unfold unit_row. revert i x. induction n as [|n IH]; intros i x Hi Hl Hx; [lia|].
  destruct Hx as [|b x Hb Hx]; [done|]. simpl in Hl. destruct i as [|i]; simpl.
  - by rewrite gfMul_1_l, dot_zero, Z.lxor_0_r.
  - rewrite gfMul_0_l, IH by (done || lia). done.
Qed.

Lemma add_row_length r s : length r = length s -> length (add_row r s) = length r.
Proof. intros H. unfold add_row. rewrite length_zip_with. lia. Qed.

Lemma add_row_bytes r s : bytes_ok r -> bytes_ok s -> bytes_ok (add_row r s).
Proof.
  intros Hr. revert s. induction Hr as [|a r Ha _ IH]; intros s Hs; [constructor|].
  destruct Hs as [|b s Hb Hs]; [constructor|]. constructor; [by apply lxor_u8|by apply IH].
Qed.

Lemma mul_row_bytes c r : is_u8 c -> bytes_ok (mul_row c r).
Proof. intros Hc. apply Forall_fmap, Forall_forall. intros x _. by apply gfMul_u8. Qed.

Lemma unit_row_bytes n i : bytes_ok (unit_row n i).
Proof. unfold unit_row. apply Forall_insert; [apply Forall_replicate|]; unfold_ints; lia. Qed.

Lemma unit_row_length n i : length (unit_row n i) = n.
Proof. unfold unit_row. by rewrite length_insert, length_replicate. Qed.

(** ** The partial passes are whole-row operations

    because the columns before the pivot are zero in the pivot row. *)

Definition zero_before (col : nat) (r : list Z) : Prop := forall j, (j < col)%nat -> entry r j = 0.

Lemma entry_lookup r j x : r !! j = Some x -> entry r j = x.
Proof. intros H. unfold entry. by apply nth_lookup_Some. Qed.

Lemma from_col_full col f r s :
  length r = length s -> (forall j x y, (j < col)%nat -> r !! j = Some x -> s !! j = Some y -> f x y = x) ->
  from_col col f r s = zip_with f r s.
Proof.
  intros Hl Hf. apply list_eq. intros j. unfold from_col. rewrite list_lookup_imap, !lookup_zip_with.
  destruct (r !! j) as [x|] eqn:Ex, (s !! j) as [y|] eqn:Ey; simpl; try done.
  destruct (Nat.ltb_spec j col); [|done]. by rewrite (Hf j x y).
Qed.

Lemma scale_row_full col c r : is_u8 c -> bytes_ok r -> zero_before col r -> scale_row col c r = mul_row c r.
Proof.
  intros Hc Hr Hz. unfold scale_row. rewrite from_col_full; [|done|].
  - apply list_eq. intros j. unfold mul_row. rewrite lookup_zip_with, list_lookup_fmap.
    destruct (r !! j) eqn:E; simpl; [|done]. f_equal. apply gfMul_comm; [|done]. by eapply Forall_lookup_1.
  - intros j x y Hj Hx _. apply entry_lookup in Hx. rewrite Hz in Hx by done. subst x. apply gfMul_0_l.
Qed.

Lemma clear_row_full col p i r :
  zero_before col p -> length r = length p -> i <> col -> clear_row col p i r = add_row r (mul_row (entry r col) p).
Proof.
  intros Hz Hl Hi. unfold clear_row. rewrite (proj2 (Nat.eqb_neq i col) Hi). simpl.
  assert (zip_with (fun x y => Z.lxor x (gfMul (entry r col) y)) r p = add_row r (mul_row (entry r col) p)) as Hfull.
  { apply list_eq. intros j. unfold add_row, mul_row. rewrite !lookup_zip_with, list_lookup_fmap.
    by destruct (r !! j), (p !! j). }
  destruct (Z.eqb_spec (entry r col) 0) as [He|He].
  - rewrite <- Hfull, He. apply list_eq. intros j. rewrite lookup_zip_with.
    destruct (r !! j) as [x|] eqn:Ex, (p !! j) as [y|] eqn:Ey; simpl; try done.
    + by rewrite gfMul_0_l, Z.lxor_0_r.
    + apply lookup_lt_Some in Ex. apply lookup_ge_None in Ey. lia.
  - rewrite from_col_full; [done|done|]. intros j x y Hj _ Hy. apply entry_lookup in Hy.
    rewrite Hz in Hy by done. subst y. by rewrite gfMul_0_r, Z.lxor_0_r.
Qed.

(** ** One pass of the elimination *)

(** The augmented matrix is [n] rows of [2n] bytes. *)
Definition wf (n : nat) (aug : list (list Z)) : Prop :=
  length aug = n /\ Forall (fun r => length r = (2 * n)%nat /\ bytes_ok r) aug.

(** The columns before [col] are those of the identity. *)
Definition reduced (col : nat) (aug : list (list Z)) : Prop :=
  forall i k r, (k < col)%nat -> aug !! i = Some r -> entry r k = if (i =? k)%nat then 1 else 0.

(** [v] is orthogonal to every row. *)
Definition ker (aug : list (list Z)) (v : list Z) : Prop := Forall (fun r => dot r v = 0) aug.

Lemma find_pivot_Some rows col i p : find_pivot rows col i = Some p ->
  (i <= p)%nat /\ exists r, rows !! (p - i)%nat = Some r /\ entry r col <> 0.
Proof.
  revert i. induction rows as [|r rows IH]; intros i; simpl; [done|].
  destruct (Z.eqb_spec (entry r col) 0) as [He|He]; intros H.
  - apply IH in H as [Hi (r' & Hr' & Hn)]. split; [lia|]. exists r'. split; [|done].
    by replace (p - i)%nat with (S (p - S i)) by lia.
  - simplify_eq. split; [done|]. exists r. by rewrite Nat.sub_diag.
Qed.

Lemma find_pivot_None rows col i : find_pivot rows col i = None -> Forall (fun r => entry r col = 0) rows.
Proof.
  revert i. induction rows as [|r rows IH]; intros i; simpl; [by constructor|].
  destruct (Z.eqb_spec (entry r col) 0) as [He|He]; intros H; [|done]. constructor; eauto.
Qed.

Lemma swap_rows_lookup aug i j k ri rj : aug !! i = Some ri -> aug !! j = Some rj ->
  swap_rows aug i j !! k = if (k =? j)%nat then Some ri else if (k =? i)%nat then Some rj else aug !! k.
Proof.
  intros Hi Hj. unfold swap_rows, row_at. rewrite (nth_lookup_Some _ _ _ _ Hi), (nth_lookup_Some _ _ _ _ Hj).
  pose proof (lookup_lt_Some _ _ _ Hi). pose proof (lookup_lt_Some _ _ _ Hj).
  destruct (Nat.eqb_spec k j) as [->|Hkj]; [rewrite list_lookup_insert_eq; [done|by rewrite length_insert]|].
  rewrite list_lookup_insert_ne by done.
  destruct (Nat.eqb_spec k i) as [->|Hki]; [by rewrite list_lookup_insert_eq|by rewrite list_lookup_insert_ne].
Qed.

Lemma swap_rows_perm aug i j ri rj : aug !! i = Some ri -> aug !! j = Some rj -> swap_rows aug i j ≡ₚ aug.
Proof.
  intros Hi Hj. destruct (decide (i = j)) as [->|Hij].
  - unfold swap_rows, row_at. simplify_eq. rewrite (nth_lookup_Some _ _ _ _ Hi). by rewrite !list_insert_id; rewrite ?list_insert_id.
  - apply Permutation_inj. split; [unfold swap_rows; by rewrite !length_insert|].
    exists (fun k => if (k =? j)%nat then i else if (k =? i)%nat then j else k).
    split.
    + intros a b. repeat case_match; rewrite ?Nat.eqb_eq, ?Nat.eqb_neq in *; lia.
    + intros k. rewrite (swap_rows_lookup aug i j k ri rj) by done. by repeat case_match.
Qed.

Lemma entry_u8 r j : bytes_ok r -> is_u8 (entry r j).
Proof.
  intros Hr. unfold entry. destruct (nth_lookup_or_length r j 0) as [E|E]; [by eapply Forall_lookup_1|].
  rewrite nth_overflow by done. unfold_ints. lia.
Qed.

(** What a pass leaves: the pivot row scaled to 1, a multiple of it added to the others. *)
Definition swept (col : nat) (prow : list Z) (aug : list (list Z)) : list (list Z) :=
  imap (fun i r => if (i =? col)%nat then prow else add_row r (mul_row (entry r col) prow)) aug.

Lemma swept_wf n col prow aug : length prow = (2 * n)%nat -> bytes_ok prow -> wf n aug -> wf n (swept col prow aug).
Proof.
  intros Hl Hb [Hn Ha]. split; [unfold swept; by rewrite length_imap|]. apply Forall_lookup. intros i r.
  unfold swept. rewrite list_lookup_imap. intros (r0 & Hr0 & ->)%fmap_Some. destruct (i =? col)%nat; [done|].
  destruct (Forall_lookup_1 _ _ _ _ Ha Hr0) as [Hl0 Hb0]. split.
  - rewrite add_row_length; [done|]. unfold mul_row. rewrite length_map. lia.
  - apply add_row_bytes; [done|]. apply Forall_fmap. eapply Forall_impl; [exact Hb|].
    intros x Hx. by apply gfMul_u8, entry_u8.
Qed.

Lemma entry_add r s j : length r = length s -> entry (add_row r s) j = Z.lxor (entry r j) (entry s j).
Proof.
  intros Hl. destruct (decide (j < length r)%nat) as [Hj|Hj].
  - destruct (lookup_lt_is_Some_2 r j Hj) as [x Hx]. destruct (lookup_lt_is_Some_2 s j ltac:(lia)) as [y Hy].
    rewrite (entry_lookup r j x), (entry_lookup s j y) by done. apply entry_lookup.
    unfold add_row. by rewrite lookup_zip_with, Hx, Hy.
  - unfold entry. rewrite !nth_overflow; rewrite ?add_row_length by done; try done; lia.
Qed.

Lemma entry_mul c r j : entry (mul_row c r) j = gfMul c (entry r j).
Proof.
  unfold mul_row, entry. rewrite <- (gfMul_0_r c) at 1. change (gfMul c <$> r) with (map (gfMul c) r). by rewrite map_nth.
Qed.

Lemma mul_row_length c r : length (mul_row c r) = length r.
Proof. apply length_map. Qed.

Lemma gfMul_u8_r a b : is_u8 a -> is_u8 b -> gfMul a b = 0 -> b <> 0 -> a = 0.
Proof.
  intros Ha Hb H Hn. rewrite <- (gfMul_1_l a), <- (gfInv_l b), gfMul_assoc, (gfMul_comm b a), H by auto using gfInv_u8.
  apply gfMul_0_r.
Qed.

(** The pass keeps the kernel, both ways. *)
Lemma swept_ker n col p c aug v :
  wf n aug -> aug !! col = Some p -> is_u8 c -> c <> 0 -> bytes_ok v ->
  ker aug v <-> ker (swept col (mul_row c p) aug) v.
Proof.
  intros [_ Hwf] Hp Hc Hc0 Hv. destruct (Forall_lookup_1 _ _ _ _ Hwf Hp) as [Hlp Hbp].
  assert (dot (mul_row c p) v = 0 <-> dot p v = 0) as Hpiv.
  { rewrite dot_mul by done. split; intros H; [|rewrite H; apply gfMul_0_r].
    rewrite gfMul_comm in H by auto using dot_u8. by apply gfMul_u8_r in H; auto using dot_u8. }
  assert (forall r, r ∈ aug -> dot p v = 0 ->
     dot (add_row r (mul_row (entry r col) (mul_row c p))) v = dot r v) as Hrow.
  { intros r Hr H0. rewrite Forall_forall in Hwf. destruct (Hwf r Hr) as [Hl Hb].
    rewrite dot_add, (dot_mul (entry r col)) by (auto using mul_row_bytes, entry_u8 || rewrite ?mul_row_length; lia).
    by rewrite (proj2 Hpiv H0), gfMul_0_r, Z.lxor_0_r. }
  unfold ker. rewrite !Forall_lookup. unfold swept. split; intros H i r.
  - rewrite list_lookup_imap. intros (r0 & Hr0 & ->)%fmap_Some. pose proof (H _ _ Hp) as H0.
    destruct (i =? col)%nat; [by apply Hpiv|]. rewrite Hrow by (done || by eapply list_elem_of_lookup_2). by eapply H.
  - intros Hr. assert (dot p v = 0) as H0.
    { apply Hpiv, (H col). by rewrite list_lookup_imap, Hp, Nat.eqb_refl. }
    destruct (Nat.eqb_spec i col) as [->|Hi]; [by simplify_eq|].
    rewrite <- (Hrow r) by (done || by eapply list_elem_of_lookup_2).
    apply (H i). rewrite list_lookup_imap, Hr. simpl. by rewrite (proj2 (Nat.eqb_neq i col)).
Qed.

Lemma ker_perm aug1 aug2 v : aug1 ≡ₚ aug2 -> ker aug1 v <-> ker aug2 v.
Proof. intros H. unfold ker. by rewrite H. Qed.

Lemma swap_reduced col p aug rp rc :
  (col <= p)%nat -> aug !! p = Some rp -> aug !! col = Some rc -> reduced col aug -> reduced col (swap_rows aug p col).
Proof.
  intros Hle Hp Hc Hr i k r Hk. rewrite (swap_rows_lookup aug p col i rp rc) by done.
  destruct (Nat.eqb_spec i col) as [->|Hi]; [|destruct (Nat.eqb_spec i p) as [->|Hi2]]; intros; simplify_eq.
  - rewrite (Hr p k) by done. by repeat case_match; rewrite ?Nat.eqb_eq, ?Nat.eqb_neq in *; try lia.
  - rewrite (Hr col k) by done. by repeat case_match; rewrite ?Nat.eqb_eq, ?Nat.eqb_neq in *; try lia.
  - by eapply Hr.
Qed.

Lemma reduced_zero col aug p : reduced col aug -> aug !! col = Some p -> zero_before col p.
Proof. intros Hr Hp j Hj. rewrite (Hr col j p) by done. by rewrite (proj2 (Nat.eqb_neq col j)) by lia. Qed.

Lemma swept_reduced n col p aug :
  wf n aug -> aug !! col = Some p -> entry p col <> 0 -> reduced col aug ->
  reduced (S col) (swept col (mul_row (gfInv (entry p col)) p) aug).
Proof.
  intros [_ Hwf] Hp Hn Hr i k r Hk. destruct (Forall_lookup_1 _ _ _ _ Hwf Hp) as [Hlp Hbp].
  set (c := gfInv (entry p col)).
  assert (entry (mul_row c p) col = 1) as H1 by (rewrite entry_mul; apply gfInv_l; auto using entry_u8).
  assert (forall j, (j < col)%nat -> entry (mul_row c p) j = 0) as H0.
  { intros j Hj. rewrite entry_mul, (reduced_zero col aug p Hr Hp j Hj). apply gfMul_0_r. }
  unfold swept. rewrite list_lookup_imap. intros (r0 & Hr0 & ->)%fmap_Some.
  destruct (Nat.eqb_spec i col) as [->|Hi].
  - destruct (Nat.eqb_spec col k) as [->|Hck]; [done|]. apply H0. lia.
  - destruct (Forall_lookup_1 _ _ _ _ Hwf Hr0) as [Hl0 Hb0].
    rewrite entry_add, (entry_mul (entry r0 col)) by (rewrite !mul_row_length; lia).
    destruct (decide (k = col)) as [->|Hkc].
    + rewrite H1, gfMul_comm, gfMul_1_l, Z.lxor_nilpotent by (auto using entry_u8 || (unfold_ints; lia)).
      by rewrite (proj2 (Nat.eqb_neq i col)).
    + rewrite H0, gfMul_0_r, Z.lxor_0_r by lia. apply (Hr i k r0); [lia|done].
Qed.

Lemma clear_rows_swept n col p prow aug :
  wf n aug -> aug !! col = Some p -> length prow = (2 * n)%nat -> zero_before col prow ->
  imap (clear_row col prow) (<[col := prow]> aug) = swept col prow aug.
Proof.
  intros [_ Hwf] Hp Hl Hz. apply list_eq. intros i. unfold swept. rewrite !list_lookup_imap.
  destruct (Nat.eqb_spec i col) as [->|Hi].
  - rewrite list_lookup_insert_eq, Hp by (by eapply lookup_lt_Some). simpl. unfold clear_row. by rewrite Nat.eqb_refl.
  - rewrite list_lookup_insert_ne by done. destruct (aug !! i) as [r|] eqn:Er; [|done]. simpl. f_equal.
    destruct (Forall_lookup_1 _ _ _ _ Hwf Er) as [Hlr _]. apply clear_row_full; [done|lia|done].
Qed.

(** A pass that finds a pivot adds a column of the identity and keeps the kernel. *)
Lemma eliminate_Some n col aug aug' :
  wf n aug -> reduced col aug -> (col < n)%nat -> eliminate col aug = Some aug' ->
  wf n aug' /\ reduced (S col) aug' /\ forall v, bytes_ok v -> ker aug v <-> ker aug' v.
Proof.
  intros Hwf Hr Hcol. unfold eliminate. destruct (find_pivot _ _ _) as [p|] eqn:Ep; [|done]. intros He.
  apply find_pivot_Some in Ep as [Hle (rp & Hrp & Hn)]. rewrite lookup_drop, Nat.add_sub_assoc, Nat.add_comm, Nat.add_sub in Hrp by done.
  destruct (lookup_lt_is_Some_2 aug col ltac:(destruct Hwf; lia)) as [rc Hrc].
  set (aug1 := if (p =? col)%nat then aug else swap_rows aug p col) in He.
  assert (aug1 ≡ₚ aug /\ reduced col aug1 /\ aug1 !! col = Some rp) as (Hperm & Hr1 & H1).
  { unfold aug1. destruct (Nat.eqb_spec p col) as [->|Hpc]; [done|].
    split_and!; [by eapply swap_rows_perm|by eapply swap_reduced|].
    by rewrite (swap_rows_lookup aug p col col rp rc), Nat.eqb_refl by done. }
  assert (wf n aug1) as Hwf1 by (destruct Hwf; split; by rewrite Hperm).
  clearbody aug1. unfold row_at in He. rewrite (nth_lookup_Some _ _ _ _ H1) in He.
  destruct (Forall_lookup_1 _ _ _ _ (proj2 Hwf1) H1) as [Hlp Hbp].
  pose proof (reduced_zero col aug1 rp Hr1 H1) as Hz.
  assert (is_u8 (gfInv (entry rp col))) as Hc by auto using gfInv_u8, entry_u8.
  rewrite scale_row_full in He by done.
  rewrite (clear_rows_swept n col rp) in He; [|done|done|by rewrite mul_row_length|].
  2:{ intros j Hj. rewrite entry_mul, (Hz j Hj). apply gfMul_0_r. }
  simplify_eq. split_and!.
  - apply swept_wf; [by rewrite mul_row_length|by apply mul_row_bytes|done].
  - by eapply swept_reduced.
  - intros v Hv. rewrite <- (ker_perm _ _ v Hperm). apply (swept_ker n); try done.
    intros H0. pose proof (gfInv_l (entry rp col) ltac:(auto using entry_u8) Hn) as H. by rewrite H0, gfMul_0_l in H.
Qed.

Lemma dot_app r1 r2 x1 x2 : length r1 = length x1 -> dot (r1 ++ r2) (x1 ++ x2) = Z.lxor (dot r1 x1) (dot r2 x2).
Proof.
  revert x1. induction r1 as [|a r1 IH]; intros [|b x1] Hl; try done. simpl in *.
  by rewrite IH, Z.lxor_assoc by lia.
Qed.

Lemma dot_comm r x : bytes_ok r -> bytes_ok x -> dot r x = dot x r.
Proof.
  intros Hr. revert x. induction Hr as [|a r Ha _ IH]; intros x Hx; destruct Hx as [|b x Hb Hx]; try done.
  simpl. by rewrite IH, gfMul_comm.
Qed.

Lemma zeros_bytes n : bytes_ok (replicate n 0).
Proof. apply Forall_replicate. unfold_ints. lia. Qed.

Lemma dot_zeros r n : bytes_ok r -> dot r (replicate n 0) = 0.
Proof. intros Hr. rewrite dot_comm by auto using zeros_bytes. apply dot_zero. Qed.

Lemma dot_sparse r x k c : length r = length x -> bytes_ok r -> bytes_ok x ->
  (forall j, j <> k -> entry r j = 0 \/ entry x j = 0) -> c = gfMul (entry r k) (entry x k) -> dot r x = c.
Proof.
  intros Hl Hr Hx Hz ->. revert x k Hl Hx Hz. induction Hr as [|a r Ha Hr IH]; intros x k Hl Hx Hz.
  - destruct k; by rewrite gfMul_0_l.
  - destruct Hx as [|b x Hb Hx]; [done|]. simpl in Hl. cbn [dot]. destruct k as [|k].
    + assert (dot r x = gfMul (entry r (length r)) (entry x (length r))) as ->.
      { apply (IH x (length r)); [lia|done|]. intros j _. exact (Hz (S j) ltac:(lia)). }
      unfold entry at 1. rewrite nth_overflow, gfMul_0_l, Z.lxor_0_r by done. done.
    + assert (gfMul a b = 0) as ->.
      { destruct (Hz 0%nat ltac:(lia)) as [H|H]; unfold entry in H; simpl in H;
          rewrite H; [apply gfMul_0_l|apply gfMul_0_r]. }
      rewrite Z.lxor_0_l. apply (IH x k); [lia|done|]. intros j Hj. exact (Hz (S j) ltac:(lia)).
Qed.

(** Without a pivot in [col], that column is a combination of the columns before it. *)
Definition column_before (n col : nat) (aug : list (list Z)) : list Z :=
  map (fun j => if (j <? col)%nat then entry (row_at aug j) col else 0) (seq 0 n).

Definition kernel_vector (n col : nat) (aug : list (list Z)) : list Z :=
  add_row (column_before n col aug) (unit_row n col).

Lemma column_before_entry n col aug j : (j < n)%nat ->
  entry (column_before n col aug) j = if (j <? col)%nat then entry (row_at aug j) col else 0.
Proof.
  intros Hj. apply entry_lookup. unfold column_before.
  change (map ?f (seq 0 n)) with (f <$> seq 0 n). by rewrite list_lookup_fmap, lookup_seq_lt.
Qed.

Lemma column_before_length n col aug : length (column_before n col aug) = n.
Proof. unfold column_before. by rewrite length_map, length_seq. Qed.

Lemma column_before_bytes n col aug : Forall bytes_ok aug -> bytes_ok (column_before n col aug).
Proof.
  intros Ha. unfold column_before, bytes_ok. apply Forall_map, Forall_forall. intros j _. simpl. destruct (j <? col)%nat; [|unfold_ints; lia].
  apply entry_u8. unfold row_at. destruct (nth_lookup_or_length aug j []) as [E|E]; [by eapply (Forall_lookup_1 bytes_ok)|].
  rewrite nth_overflow by done. constructor.
Qed.

Lemma kernel_vector_bytes n col aug : Forall bytes_ok aug -> bytes_ok (kernel_vector n col aug).
Proof. intros Ha. apply add_row_bytes; auto using column_before_bytes, unit_row_bytes. Qed.

Lemma kernel_vector_length n col aug : length (kernel_vector n col aug) = n.
Proof. unfold kernel_vector. by rewrite add_row_length; rewrite !column_before_length, ?unit_row_length. Qed.

Lemma unit_row_entry n i j : (j < n)%nat -> entry (unit_row n i) j = if (i =? j)%nat then 1 else 0.
Proof.
  intros Hj. apply entry_lookup. unfold unit_row. destruct (Nat.eqb_spec i j) as [->|Hij].
  - by rewrite list_lookup_insert_eq by (by rewrite length_replicate).
  - by rewrite list_lookup_insert_ne, lookup_replicate_2.
Qed.

Lemma kernel_vector_nonzero n col aug : (col < n)%nat -> entry (kernel_vector n col aug) col = 1.
Proof.
  intros Hc. unfold kernel_vector. rewrite entry_add by (by rewrite column_before_length, unit_row_length).
  rewrite column_before_entry, unit_row_entry, Nat.ltb_irrefl, Nat.eqb_refl by done. done.
Qed.

Lemma take_entry n r j : (j < n)%nat -> entry (take n r) j = entry r j.
Proof. intros Hj. unfold entry. rewrite !nth_lookup, lookup_take_lt by done. done. Qed.

Lemma kernel_vector_ker n col aug i r :
  wf n aug -> reduced col aug -> (col < n)%nat -> Forall (fun r => entry r col = 0) (drop col aug) ->
  aug !! i = Some r -> dot (take n r) (kernel_vector n col aug) = 0.
Proof.
  intros [Hn Hwf] Hr Hcol Hz Hi. destruct (Forall_lookup_1 _ _ _ _ Hwf Hi) as [Hl Hb].
  assert (bytes_ok (take n r)) as Hbt by (by apply Forall_take).
  assert (length (take n r) = n) as Hlt by (rewrite length_take; lia).
  assert (bytes_ok (column_before n col aug)) as Hcb.
  { apply column_before_bytes. eapply Forall_impl; [exact Hwf|]. by intros ? []. }
  pose proof (lookup_lt_Some _ _ _ Hi) as Hlen.
  assert (bytes_ok (kernel_vector n col aug)) as Hkb.
  { apply kernel_vector_bytes. eapply Forall_impl; [exact Hwf|]. by intros ? []. }
  rewrite dot_comm by done.
  unfold kernel_vector. rewrite dot_add by (rewrite ?column_before_length, ?unit_row_length; auto using unit_row_bytes).
  rewrite dot_unit by done. change (nth col (take n r) 0) with (entry (take n r) col). rewrite take_entry by done.
  apply Z.lxor_eq_0_iff. rewrite dot_comm by done.
  apply (dot_sparse _ _ i); [by rewrite column_before_length|done|done| |].
  - intros j Hji. destruct (decide (j < n)%nat) as [Hj|Hj].
    + rewrite take_entry, column_before_entry by done. destruct (Nat.ltb_spec j col); [|by right].
      left. rewrite (Hr i j r) by done. by rewrite (proj2 (Nat.eqb_neq i j)).
    + left. unfold entry. apply nth_overflow. lia.
  - rewrite take_entry, column_before_entry by lia. destruct (Nat.ltb_spec i col) as [Hic|Hic].
    + rewrite (Hr i i r), Nat.eqb_refl by done. unfold row_at. rewrite (nth_lookup_Some _ _ _ _ Hi).
      by rewrite gfMul_1_l by (by apply entry_u8).
    + rewrite gfMul_0_r. apply (Forall_lookup_1 _ _ (i - col) r Hz). rewrite lookup_drop.
      by replace (col + (i - col))%nat with i by lia.
Qed.

(** ** All passes *)

Definition nonzero (x : list Z) : Prop := exists j, entry x j <> 0.

Lemma eliminate_None n col aug :
  wf n aug -> reduced col aug -> (col < n)%nat -> eliminate col aug = None ->
  exists x, length x = n /\ bytes_ok x /\ nonzero x /\ ker aug (x ++ replicate n 0).
Proof.
  intros Hwf Hr Hcol. unfold eliminate. destruct (find_pivot _ _ _) eqn:Ep; [done|]. intros _.
  apply find_pivot_None in Ep. exists (kernel_vector n col aug).
  assert (Forall bytes_ok aug) as Hb by (eapply Forall_impl; [exact (proj2 Hwf)|]; by intros ? []).
  split_and!; auto using kernel_vector_bytes, kernel_vector_length.
  - exists col. by rewrite kernel_vector_nonzero.
  - apply Forall_lookup. intros i r Hi. destruct (Forall_lookup_1 _ _ _ _ (proj2 Hwf) Hi) as [Hl Hbr].
    rewrite <- (take_drop n r), dot_app by (rewrite kernel_vector_length, length_take; lia).
    rewrite (kernel_vector_ker n col aug i r), dot_zeros by (done || by apply Forall_drop). done.
Qed.

Lemma eliminate_all_spec n k col aug :
  wf n aug -> reduced col aug -> (col + k = n)%nat ->
  match eliminate_all k col aug with
  | Some aug' => wf n aug' /\ reduced n aug' /\ forall v, bytes_ok v -> ker aug v -> ker aug' v
  | None => exists x, length x = n /\ bytes_ok x /\ nonzero x /\ ker aug (x ++ replicate n 0)
  end.
Proof.
  revert col aug. induction k as [|k IH]; intros col aug Hwf Hr Hn; simpl.
  - replace col with n in Hr by lia. auto.
  - destruct (eliminate col aug) as [aug'|] eqn:E; [|apply (eliminate_None n col); auto; lia].
    destruct (eliminate_Some n col aug aug' Hwf Hr ltac:(lia) E) as (Hwf' & Hr' & Hk).
    specialize (IH (S col) aug' Hwf' Hr' ltac:(lia)). destruct (eliminate_all k (S col) aug') as [aug2|].
    + destruct IH as (? & ? & Hker). split_and!; try done. intros v Hv Hkv. apply Hker, Hk; done.
    + destruct IH as (x & ? & ? & ? & Hker). exists x. split_and!; try done. apply Hk; [|done].
      apply Forall_app. split; [done|apply zeros_bytes].
Qed.

Definition square (m : list (list Z)) : Prop := Forall (fun r => length r = length m /\ bytes_ok r) m.

#[export] Instance square_dec m : Decision (square m).
Proof. unfold square. apply _. Defined.

Lemma augment_wf m : square m -> wf (length m) (augment m).
Proof.
  intros Hm. split; [unfold augment; by rewrite length_imap|]. apply Forall_lookup. intros i r. unfold augment.
  rewrite list_lookup_imap. intros (r0 & H0 & ->)%fmap_Some. destruct (Forall_lookup_1 _ _ _ _ Hm H0) as [Hl Hb].
  rewrite length_app, unit_row_length. split; [lia|]. apply Forall_app. split; [done|apply unit_row_bytes].
Qed.

Lemma mulvec_lookup m x i : mulvec m x !! i = (fun r => dot r x) <$> m !! i.
Proof. unfold mulvec. apply list_lookup_fmap. Qed.

Lemma augment_ker m x s : square m -> length x = length m -> length s = length m -> bytes_ok s ->
  ker (augment m) (x ++ s) <-> mulvec m x = s.
Proof.
  intros Hm Hx Hs Hb. unfold ker, augment. rewrite Forall_lookup.
  assert (forall i r, m !! i = Some r -> dot (r ++ unit_row (length m) i) (x ++ s) = Z.lxor (dot r x) (nth i s 0)) as Hdot.
  { intros i r Hi. pose proof (lookup_lt_Some _ _ _ Hi). destruct (Forall_lookup_1 _ _ _ _ Hm Hi) as [Hl _].
    rewrite dot_app, dot_unit by (done || lia). done. }
  split.
  - intros H. apply list_eq. intros i. rewrite mulvec_lookup. destruct (m !! i) as [r|] eqn:Hi; simpl.
    + pose proof (lookup_lt_Some _ _ _ Hi). destruct (lookup_lt_is_Some_2 s i ltac:(lia)) as [y Hy]. rewrite Hy. f_equal.
      specialize (H i (r ++ unit_row (length m) i)). rewrite list_lookup_imap, Hi in H. specialize (H eq_refl).
      rewrite Hdot, (nth_lookup_Some _ _ _ _ Hy) in H by done. by apply Z.lxor_eq.
    + symmetry. apply lookup_ge_None in Hi. apply lookup_ge_None. lia.
  - intros <- i r. rewrite list_lookup_imap. intros (r0 & H0 & ->)%fmap_Some. rewrite Hdot by done.
    rewrite (nth_lookup_Some _ i 0 (dot r0 x)) by (by rewrite mulvec_lookup, H0). apply Z.lxor_nilpotent.
Qed.

Lemma reduced_left n i r : length r = (2 * n)%nat -> (i < n)%nat ->
  (forall k, (k < n)%nat -> entry r k = if (i =? k)%nat then 1 else 0) -> take n r = unit_row n i.
Proof.
  intros Hl Hi Hr. apply list_eq. intros k. destruct (decide (k < n)%nat) as [Hk|Hk].
  - destruct (lookup_lt_is_Some_2 r k ltac:(lia)) as [x Hx].
    destruct (lookup_lt_is_Some_2 (unit_row n i) k ltac:(by rewrite unit_row_length)) as [y Hy].
    rewrite lookup_take_lt, Hx, Hy by done. f_equal.
    by rewrite <- (entry_lookup _ _ _ Hx), <- (entry_lookup _ _ _ Hy), unit_row_entry, Hr.
  - rewrite !(proj2 (lookup_ge_None _ _)); [done|rewrite unit_row_length; lia|rewrite length_take; lia].
Qed.

Definition is_left_inverse (inv m : list (list Z)) : Prop :=
  length inv = length m /\ Forall (fun r => length r = length m /\ bytes_ok r) inv
  /\ forall x, length x = length m -> bytes_ok x -> mulvec inv (mulvec m x) = x.

Lemma invertMatrix_spec m :
  m <> [] -> square m ->
  match invertMatrix m with
  | Ok inv => is_left_inverse inv m
  | Err e => e = ErrSingular /\ exists x, length x = length m /\ bytes_ok x /\ nonzero x
             /\ mulvec m x = replicate (length m) 0
  end.
Proof.
  intros Hne Hm. unfold invertMatrix. rewrite (proj2 (Nat.eqb_neq _ _)) by (by destruct m).
  assert (forallb (fun r => (length r =? length m)%nat) m = true) as ->.
  { apply forallb_forall. intros r Hr. apply Nat.eqb_eq. apply list_elem_of_In in Hr.
    by apply (proj1 (Forall_forall _ _) Hm). }
  simpl. pose proof (eliminate_all_spec (length m) (length m) 0 (augment m) (augment_wf m Hm)) as H.
  specialize (H ltac:(intros i k r Hk; lia) eq_refl).
  destruct (eliminate_all _ _ _) as [aug|].
  - destruct H as ([Hn Hwf] & Hr & Hk). split_and!.
    + by rewrite length_fmap.
    + apply Forall_fmap. eapply Forall_impl; [exact Hwf|]. intros r [Hl Hb]. simpl.
      rewrite length_drop. split; [lia|by apply Forall_drop].
    + intros x Hx Hb. set (s := mulvec m x).
      assert (bytes_ok s) as Hs.
      { apply mulvec_bytes; [|done]. eapply Forall_impl; [exact Hm|]. by intros ? []. }
      assert (length s = length m) as Hls by apply length_fmap.
      specialize (Hk (x ++ s) ltac:(by apply Forall_app) (proj2 (augment_ker m x s Hm Hx Hls Hs) eq_refl)).
      apply list_eq. intros i. rewrite mulvec_lookup, list_lookup_fmap.
      destruct (aug !! i) as [r|] eqn:Hi; simpl.
      * pose proof (lookup_lt_Some _ _ _ Hi) as Hlt. destruct (lookup_lt_is_Some_2 x i ltac:(lia)) as [y Hy].
        rewrite Hy. f_equal. destruct (Forall_lookup_1 _ _ _ _ Hwf Hi) as [Hl Hbr].
        pose proof (Forall_lookup_1 _ _ _ _ Hk Hi) as H0. simpl in H0.
        rewrite <- (take_drop (length m) r), dot_app in H0 by (rewrite length_take; lia).
        rewrite (reduced_left _ i r), dot_unit, (nth_lookup_Some _ _ _ _ Hy) in H0 by (done || lia || eauto).
        symmetry. by apply Z.lxor_eq.
      * symmetry. apply lookup_ge_None in Hi. apply lookup_ge_None. lia.
  - split; [done|]. destruct H as (x & Hx & Hb & Hnz & Hk). exists x. split_and!; try done.
    apply augment_ker; auto using zeros_bytes, length_replicate.
Qed.

(** [invertMatrix] on a square byte matrix that is not empty either returns a
    left inverse, so that multiplying by it recovers any vector from its product with the
    matrix, or reports a singular matrix, and then two different vectors have the same
    product: some vector other than zero is mapped to zero. *)
Theorem invertMatrix_correct m :
  m <> [] -> square m ->
  match invertMatrix m with
  | Ok inv => is_left_inverse inv m
  | Err e => e = ErrSingular /\ exists x, length x = length m /\ bytes_ok x /\ nonzero x
             /\ mulvec m x = replicate (length m) 0
  end.
Proof. apply invertMatrix_spec. Qed.

Lemma invertMatrix_correct_witness :
  (exists inv, invertMatrix [[1; 0; 0]; [2; 3; 7]; [5; 0; 9]] = Ok inv
     /\ is_left_inverse inv [[1; 0; 0]; [2; 3; 7]; [5; 0; 9]])
  /\ invertMatrix [[1; 2]; [1; 2]] = Err ErrSingular.
Proof.
  split; [|vm_compute; reflexivity].
  pose proof (invertMatrix_correct [[1; 0; 0]; [2; 3; 7]; [5; 0; 9]]) as H.
  specialize (H ltac:(done) ltac:(decided)).
  destruct (invertMatrix _) as [inv|e] eqn:E; [exists inv; exact (conj eq_refl H)|]. vm_compute in E. discriminate E.
Defined.
