(* ===== verification/Cauchy.v ===== *)
(** * Cauchy matrices over GF(256)

    The code's byte arithmetic as a field structure, so that [field] applies, and the fact
    behind the parity rows of [pkg/bundle/chunk_engine.go]: a square matrix with the
    entries 1/(a_i - b_j), for distinct a_i and b_j, has a trivial kernel. *)

From S2P Require Import Prelude GF256 Matrix.
From Stdlib Require Import Field Eqdep_dec Bool.

Definition u8b (z : Z) : bool := (0 <=? z) && (z <? 256).

Record gf := mkGf { gval : Z; gok : u8b gval = true }.

Lemma u8b_spec z : u8b z = true <-> is_u8 z.
Proof. unfold u8b. unfold_ints. rewrite andb_true_iff, Z.leb_le, Z.ltb_lt. lia. Qed.

Lemma gf_eq a b : gval a = gval b -> a = b.
Proof.
  destruct a as [a Ha], b as [b Hb]. simpl. intros ->. f_equal. apply UIP_dec, bool_dec.
Qed.

Lemma gval_u8 a : is_u8 (gval a).
Proof. apply u8b_spec, gok. Qed.

Definition gf_of (z : Z) : gf := mkGf (u8 z) (proj2 (u8b_spec _) (u8_range z)).
Definition gadd (a b : gf) : gf := mkGf (gfAdd (gval a) (gval b)) (proj2 (u8b_spec _) (lxor_u8 _ _ (gval_u8 a) (gval_u8 b))).
(** Subtraction is addition; a name of its own lets [field] work without the characteristic. *)
Definition gsub (a b : gf) : gf := gadd a b.
Definition gmul (a b : gf) : gf := mkGf (gfMul (gval a) (gval b)) (proj2 (u8b_spec _) (gfMul_u8 _ (gval b) (gval_u8 a))).
Definition ginv (a : gf) : gf := mkGf (gfInv (gval a)) (proj2 (u8b_spec _) (gfInv_u8 _ (gval_u8 a))).
Definition gdiv (a b : gf) : gf := gmul a (ginv b).
Definition g0 : gf := mkGf 0 eq_refl.
Definition g1 : gf := mkGf 1 eq_refl.

Lemma gf_of_val z : is_u8 z -> gval (gf_of z) = z.
Proof. apply u8_id. Qed.

Lemma gf_of_gval a : gf_of (gval a) = a.
Proof. apply gf_eq, gf_of_val, gval_u8. Qed.

#[local] Hint Resolve gval_u8 : core.

Lemma gf_ring_theory : ring_theory g0 g1 gadd gmul gsub (fun a => a) eq.
Proof.
  constructor; intros; apply gf_eq; simpl; unfold gfAdd; rewrite ?Z.lxor_0_l, ?Z.lxor_nilpotent, ?Z.lxor_assoc; auto.
  - apply Z.lxor_comm.
  - by apply gfMul_1_l.
  - by apply gfMul_comm.
  - symmetry. by apply gfMul_assoc.
  - by apply (gfMul_additive_l (gval z)).
Qed.

Lemma gf_field_theory : field_theory g0 g1 gadd gmul gsub (fun a => a) gdiv ginv eq.
Proof.
  constructor; [exact gf_ring_theory|by intros [=]|done|].
  intros a Ha. apply gf_eq. simpl. apply gfInv_l; [done|]. intros H. apply Ha, gf_eq, H.
Qed.

Add Field gf_field : gf_field_theory.

Lemma gsub_eq_0 a b : gsub a b = g0 <-> a = b.
Proof.
  split; [|intros ->; apply gf_eq; apply Z.lxor_nilpotent]. intros H. apply gf_eq.
  apply (f_equal gval) in H. by apply Z.lxor_eq in H.
Qed.

Lemma gmul_eq_0 a b : gmul a b = g0 -> a <> g0 -> b = g0.
Proof.
  intros H Ha. assert (b = gmul (ginv a) (gmul a b)) as -> by (by field). rewrite H. by field.
Qed.

(** ** The kernel of a Cauchy matrix *)

(** The row of [a]: the sum of x_j / (a - b_j). *)
Fixpoint csum (a : gf) (xs bs : list gf) : gf :=
  match xs, bs with
  | x :: xs', b :: bs' => gadd (gdiv x (gsub a b)) (csum a xs' bs')
  | _, _ => g0
  end.

(** What is left of the unknowns when the pair [(a0, b0)] is eliminated. *)
Definition weaken (a0 b0 : gf) (xs bs : list gf) : list gf :=
  zip_with (fun x b => gdiv (gmul x (gsub b0 b)) (gsub a0 b)) xs bs.

Lemma weaken_csum a a0 b0 xs bs :
  a <> a0 -> a ∉ bs -> a0 ∉ bs ->
  gmul (gsub a a0) (csum a (weaken a0 b0 xs bs) bs)
  = gsub (gmul (gsub a b0) (csum a xs bs)) (gmul (gsub a0 b0) (csum a0 xs bs)).
Proof.
  intros Hn. revert xs. induction bs as [|b bs IH]; intros [|x xs] Ha Ha0; simpl; try by field.
  rewrite not_elem_of_cons in Ha, Ha0. destruct Ha as [Hab Ha], Ha0 as [Ha0b Ha0].
  assert (gsub a b <> g0) by (by rewrite gsub_eq_0). assert (gsub a0 b <> g0) by (by rewrite gsub_eq_0).
  transitivity (gadd (gmul (gsub a a0) (gdiv (gdiv (gmul x (gsub b0 b)) (gsub a0 b)) (gsub a b)))
                     (gmul (gsub a a0) (csum a (weaken a0 b0 xs bs) bs))); [by field|].
  rewrite IH by done. field. by split.
Qed.

Lemma weaken_length a0 b0 xs bs : length xs = length bs -> length (weaken a0 b0 xs bs) = length bs.
Proof. intros H. unfold weaken. rewrite length_zip_with. lia. Qed.

Lemma weaken_zero a0 b0 xs bs :
  length xs = length bs -> b0 ∉ bs -> a0 ∉ bs -> Forall (fun w => w = g0) (weaken a0 b0 xs bs) -> Forall (fun x => x = g0) xs.
Proof.
  revert xs. induction bs as [|b bs IH]; intros [|x xs] Hl Hb Ha Hz; try done.
  rewrite not_elem_of_cons in Hb, Ha. destruct Hb as [Hb0 Hb], Ha as [Ha0 Ha].
  apply Forall_cons in Hz as [Hz Hzs]. constructor; [|apply IH; auto].
  assert (gsub b0 b <> g0) by (by rewrite gsub_eq_0). assert (gsub a0 b <> g0) by (by rewrite gsub_eq_0).
  transitivity (gmul (gdiv (gmul x (gsub b0 b)) (gsub a0 b)) (gdiv (gsub a0 b) (gsub b0 b))); [by field|].
  rewrite Hz. by field.
Qed.

Lemma csum_zero a xs bs : Forall (fun x => x = g0) xs -> a ∉ bs -> csum a xs bs = g0.
Proof.
  intros Hz. revert bs. induction Hz as [|x xs -> _ IH]; intros [|b bs] Ha; simpl; try done.
  rewrite not_elem_of_cons in Ha. destruct Ha as [Hab Ha]. rewrite IH by done.
  assert (gsub a b <> g0) by (by rewrite gsub_eq_0). by field.
Qed.

(** As many rows as unknowns, all distinct: only zero solves the system. *)
Lemma cauchy_kernel aa bs xs :
  NoDup aa -> NoDup bs -> (forall a, a ∈ aa -> a ∉ bs) -> length aa = length bs -> length xs = length bs ->
  (forall a, a ∈ aa -> csum a xs bs = g0) -> Forall (fun x => x = g0) xs.
Proof.
  intros Ha. revert bs xs. induction Ha as [|a0 aa Ha0 Ha IH]; intros bs xs Hb Hd Hl Hlx Hz.
  { destruct bs, xs; try done. }
  destruct bs as [|b0 bs], xs as [|x xs]; try done. simpl in Hl, Hlx.
  apply NoDup_cons in Hb as [Hb0 Hb].
  assert (Hab : forall a, a ∈ a0 :: aa -> a <> b0 /\ a ∉ bs) by (intros a Hin; apply not_elem_of_cons; auto).
  destruct (Hab a0 ltac:(by left)) as [Hab0 Ha0b].
  assert (Forall (fun x => x = g0) xs) as Hxs.
  { apply (weaken_zero a0 b0 xs bs); [lia|done|done|]. apply (IH bs); [done| |lia|rewrite weaken_length; lia|].
    - intros a Hin. apply (Hab a). by right.
    - intros a Hin. assert (a <> a0) by (by intros ->). destruct (Hab a ltac:(by right)) as [Hne Hni].
      apply (gmul_eq_0 (gsub a a0)); [|by rewrite gsub_eq_0]. rewrite weaken_csum by done.
      pose proof (Hz a0 ltac:(by left)) as H0. pose proof (Hz a ltac:(by right)) as H1. simpl in H0, H1.
      assert (gsub a b0 <> g0) by (by rewrite gsub_eq_0). assert (gsub a0 b0 <> g0) by (by rewrite gsub_eq_0).
      transitivity (gsub (gmul (gsub a b0) (gadd (gdiv x (gsub a b0)) (csum a xs bs)))
                         (gmul (gsub a0 b0) (gadd (gdiv x (gsub a0 b0)) (csum a0 xs bs)))); [by field|].
      rewrite H0, H1. by field. }
  constructor; [|done]. pose proof (Hz a0 ltac:(by left)) as H0. simpl in H0. rewrite csum_zero in H0 by done.
  assert (gsub a0 b0 <> g0) by (by rewrite gsub_eq_0).
  transitivity (gmul (gsub a0 b0) (gadd (gdiv x (gsub a0 b0)) g0)); [by field|]. rewrite H0. by field.
Qed.

(** The sum in the code's arithmetic. *)
Lemma csum_dot a xs bs : bytes_ok xs -> bytes_ok bs -> is_u8 a ->
  gval (csum (gf_of a) (gf_of <$> xs) (gf_of <$> bs)) = dot (map (fun b => gfInv (Z.lxor a b)) bs) xs.
Proof.
  intros Hx Hb Ha. revert bs Hb. induction Hx as [|x xs Hx _ IH]; intros bs Hb; [by destruct bs|].
  destruct Hb as [|b bs Hb Hbs]; [done|]. rewrite !fmap_cons. cbn [csum map dot]. rewrite <- IH by done.
  unfold gadd at 1. cbn [gval]. unfold gfAdd. f_equal. unfold gdiv, gmul, ginv, gsub, gadd. cbn [gval].
  rewrite !gf_of_val by done. unfold gfAdd. apply gfMul_comm; auto using gfInv_u8, lxor_u8.
Qed.
