(* ===== verification/Chunk.v ===== *)
(** * Erasure-coded chunks ([pkg/bundle/chunk_engine.go])

    Encoding of a payload into data and parity shards, the chunk format, reconstruction
    from any sufficient subset, and the reassembler that collects chunks. *)

From S2P Require Import Prelude Sha256 GF256 Matrix Cauchy.

#[local] Set Warnings "-clear-no-such-hyp".

Definition ChunkMagic : list Z := [83; 78; 67; 69].
Definition ChunkVersion : Z := 1.
Definition ChunkHeaderSize : Z := 4 + 1 + 1 + 16 + 2 + 2 + 2 + 4 + 2 + 32 + 32.
Definition MaxChunkDataSize : Z := 64 * 1024.
Definition MaxShardCount : Z := 255.
Definition DefaultMaxCacheByte : Z := 2 * 2 ^ 20.
Definition MaxBundleBytes : Z := 2 * 2 ^ 20.

Inductive invalid_reason :=
  | EmptyPayload | PayloadTooLarge | ShardSizeTooLarge | InvalidDataShardCount | InvalidParityShardCount
  | ShortChunk | UnsupportedVersion | InvalidShardCounts | InvalidShardIndex | InvalidPayloadSize
  | InvalidShardSize | InvalidShardDataSize | ShardMatrixTooSmall | NoChunks | MixedChunkSet
  | HeaderMismatch | EmptyMatrix | NonSquareMatrix | InvalidTextEnvelope | InvalidBase64.

Inductive unrecoverable_reason :=
  | NeedChunks (need have : Z) | SingularMatrix | PayloadDigestMismatch | BundleIDMismatch.

Inductive chunk_err :=
  | ErrChunkInvalid (r : invalid_reason)
  | ErrChunkChecksum
  | ErrChunkCacheLimit
  | ErrChunkUnrecoverable (r : unrecoverable_reason)
  | PanicMakeSlice.  (** [make] with a length out of range: a run-time panic *)

Record EncodedChunk := mkChunk {
  BundleID : list Z;
  Index : Z;
  DataShards : Z;
  ParityShards : Z;
  PayloadSize : Z;
  ShardSize : Z;
  PayloadSHA256 : list Z;
  ChunkSHA256 : list Z;
  Data : list Z;
}.

Record ChunkOptions := mkOptions { o_DataShards : Z; o_ParityShards : Z; o_ShardSize : Z }.

(** [putU16Chunk], [putU32Chunk]: the conversion to uint16 or uint32 drops the high bits. *)
Definition putU16Chunk (v : Z) : list Z := be_put 2 (u16 v).
Definition putU32Chunk (v : Z) : list Z := be_put 4 (u32 v).

(** The header up to the payload digest, as the checksum and the encoding write it. *)
Definition chunk_prefix (c : EncodedChunk) : list Z :=
  ChunkMagic ++ [ChunkVersion; 0] ++ BundleID c ++ putU16Chunk (Index c) ++ putU16Chunk (DataShards c)
  ++ putU16Chunk (ParityShards c) ++ putU32Chunk (PayloadSize c) ++ putU16Chunk (ShardSize c) ++ PayloadSHA256 c.

Definition computeChecksum (c : EncodedChunk) : list Z := Sum256 (chunk_prefix c ++ Data c).

Definition Validate (c : EncodedChunk) : res chunk_err unit :=
  let total := i64 (DataShards c + ParityShards c) in
  if (DataShards c <=? 0) || (ParityShards c <=? 0) || (MaxShardCount <? total) then Err (ErrChunkInvalid InvalidShardCounts)
  else if (Index c <? 0) || (total <=? Index c) then Err (ErrChunkInvalid InvalidShardIndex)
  else if (PayloadSize c <=? 0) || (MaxBundleBytes <? PayloadSize c) then Err (ErrChunkInvalid InvalidPayloadSize)
  else if (ShardSize c <=? 0) || (MaxChunkDataSize <? ShardSize c) then Err (ErrChunkInvalid InvalidShardSize)
  else if negb (blen (Data c) =? ShardSize c) then Err (ErrChunkInvalid InvalidShardDataSize)
  else if DataShards c * ShardSize c <? PayloadSize c then Err (ErrChunkInvalid ShardMatrixTooSmall)
  else Ok tt.

Definition MarshalBinary (c : EncodedChunk) : res chunk_err (list Z) :=
  match Validate c with
  | Err e => Err e
  | Ok _ => Ok (chunk_prefix c ++ ChunkSHA256 c ++ Data c)
  end.

Definition ParseEncodedChunk (raw : list Z) : res chunk_err EncodedChunk :=
  if blen raw <? ChunkHeaderSize then Err (ErrChunkInvalid ShortChunk)
  else if negb (bool_decide (slice raw 0 4 = ChunkMagic)) || negb (byte_at raw 4 =? ChunkVersion)
  then Err (ErrChunkInvalid UnsupportedVersion)
  else
    let c := mkChunk (copy_into 16 (slice raw 6 22)) (be_get (slice raw 22 24)) (be_get (slice raw 24 26))
      (be_get (slice raw 26 28)) (be_get (slice raw 28 32)) (be_get (slice raw 32 34))
      (copy_into 32 (slice raw 34 66)) (copy_into 32 (slice raw 66 98)) (slice_from raw 98) in
    match Validate c with
    | Err e => Err e
    | Ok _ => if negb (bool_decide (computeChecksum c = ChunkSHA256 c)) then Err ErrChunkChecksum else Ok c
    end.

(** ** Encoding *)

(** A row of the coding matrix: the identity, then the rows 1/(x - y). *)
Definition codingRow (index n : Z) : list Z :=
  if index <? n then unit_row (Z.to_nat n) (Z.to_nat index)
  else
    let x := u8 (index - n + 1) in
    map (fun col => gfInv (Z.lxor x (u8 (128 + Z.of_nat col)))) (seq 0 (Z.to_nat n)).

(** [dst[b] ^= gfMul(coef, src[b])] for every b, unless coef is zero. *)
Definition add_shard (dst : list Z) (coef_src : Z * list Z) : list Z :=
  let '(coef, src) := coef_src in
  if coef =? 0 then dst else zip_with (fun d s => Z.lxor d (gfMul coef s)) dst src.

(** The loop over the columns of a coding row. *)
Definition combine_shards (size : Z) (row : list Z) (shards : list (list Z)) : list Z :=
  fold_left add_shard (zip row shards) (replicate (Z.to_nat size) 0).

(** [data[i]]: its part of the payload, with zeros after the end. *)
Definition data_shard (payload : list Z) (shardSize : Z) (i : nat) : list Z :=
  let start := Z.of_nat i * shardSize in
  if blen payload <=? start then replicate (Z.to_nat shardSize) 0
  else
    let end_ := start + shardSize in
    let end_ := if blen payload <? end_ then blen payload else end_ in
    copy_into (Z.to_nat shardSize) (slice payload start end_).

(** Sizes the options lead to: data shards, parity shards, shard size. *)
Definition chunk_plan (len : Z) (opt : ChunkOptions) : res chunk_err (Z * Z * Z) :=
  if len =? 0 then Err (ErrChunkInvalid EmptyPayload)
  else if MaxBundleBytes <? len then Err (ErrChunkInvalid PayloadTooLarge)
  else
    let optSize := if o_ShardSize opt <=? 0 then 768 else o_ShardSize opt in
    if MaxChunkDataSize <? optSize then Err (ErrChunkInvalid ShardSizeTooLarge)
    else
      let dataShards := if o_DataShards opt <=? 0 then (len + optSize - 1) / optSize else o_DataShards opt in
      if (dataShards <=? 0) || (MaxShardCount <? dataShards) then Err (ErrChunkInvalid InvalidDataShardCount)
      else
        let parityShards := if o_ParityShards opt <=? 0 then (dataShards + 2) / 3 else o_ParityShards opt in
        if (parityShards <=? 0) || (MaxShardCount <? i64 (dataShards + parityShards)) then Err (ErrChunkInvalid InvalidParityShardCount)
        else
          let minSize := (len + dataShards - 1) / dataShards in
          let shardSize := if optSize <? minSize then minSize else optSize in
          if MaxChunkDataSize <? shardSize then Err (ErrChunkInvalid ShardSizeTooLarge)
          else if MaxShardCount <? parityShards then Err PanicMakeSlice
          else Ok (dataShards, parityShards, shardSize).

Definition with_checksum (c : EncodedChunk) : EncodedChunk :=
  mkChunk (BundleID c) (Index c) (DataShards c) (ParityShards c) (PayloadSize c) (ShardSize c) (PayloadSHA256 c)
    (computeChecksum c) (Data c).

(** The chunk of one shard. *)
Definition encoded_chunk (payload : list Z) (dataShards parityShards shardSize : Z) (data : list (list Z)) (i : nat) : EncodedChunk :=
  let sum := Sum256 payload in
  let shard :=
    if Z.of_nat i <? dataShards then nth i data []
    else combine_shards shardSize (codingRow (Z.of_nat i) dataShards) data in
  with_checksum (mkChunk (copy_into 16 (slice sum 0 16)) (Z.of_nat i) dataShards parityShards (blen payload) shardSize sum
    (replicate 32 0) shard).

Definition EncodeErasureChunks (payload : list Z) (opt : ChunkOptions) : res chunk_err (list EncodedChunk) :=
  match chunk_plan (blen payload) opt with
  | Err e => Err e
  | Ok (dataShards, parityShards, shardSize) =>
      let data := map (data_shard payload shardSize) (seq 0 (Z.to_nat dataShards)) in
      let total := dataShards + parityShards in
      Ok (map (encoded_chunk payload dataShards parityShards shardSize data) (seq 0 (Z.to_nat total)))
  end.

(** ** Reconstruction *)

Definition same_set (c base : EncodedChunk) : bool :=
  bool_decide (BundleID c = BundleID base) && (DataShards c =? DataShards base) && (ParityShards c =? ParityShards base)
  && (PayloadSize c =? PayloadSize base) && (ShardSize c =? ShardSize base)
  && bool_decide (PayloadSHA256 c = PayloadSHA256 base).

Fixpoint collect (base : EncodedChunk) (chunks : list EncodedChunk) (byIndex : gmap Z EncodedChunk)
    : res chunk_err (gmap Z EncodedChunk) :=
  match chunks with
  | [] => Ok byIndex
  | c :: chunks' =>
      match Validate c with
      | Err e => Err e
      | Ok _ =>
          if negb (same_set c base) then Err (ErrChunkInvalid MixedChunkSet)
          else if negb (bool_decide (computeChecksum c = ChunkSHA256 c)) then Err ErrChunkChecksum
          else collect base chunks' (<[Index c := c]> byIndex)
      end
  end.

Definition sorted_keys (m : gmap Z EncodedChunk) : list Z := merge_sort Z.le (map_to_list m).*1.

Definition matrix_error (e : matrix_err) : chunk_err :=
  match e with
  | ErrEmptyMatrix => ErrChunkInvalid EmptyMatrix
  | ErrNonSquare => ErrChunkInvalid NonSquareMatrix
  | ErrSingular => ErrChunkUnrecoverable SingularMatrix
  end.

Definition shard_of (byIndex : gmap Z EncodedChunk) (idx : Z) : list Z :=
  match byIndex !! idx with Some c => Data c | None => [] end.

(** The data shards from the chosen shards. *)
Definition recover_data (base : EncodedChunk) (byIndex : gmap Z EncodedChunk) : res chunk_err (list (list Z)) :=
  let indices := take (Z.to_nat (DataShards base)) (sorted_keys byIndex) in
  let matrix := map (fun idx => codingRow idx (DataShards base)) indices in
  let shards := map (shard_of byIndex) indices in
  match invertMatrix matrix with
  | Err e => Err (matrix_error e)
  | Ok inv => Ok (map (fun row => combine_shards (ShardSize base) row shards) inv)
  end.

Definition ReconstructErasurePayload (chunks : list EncodedChunk) : res chunk_err (list Z) :=
  match chunks with
  | [] => Err (ErrChunkInvalid NoChunks)
  | base :: _ =>
      match Validate base with
      | Err e => Err e
      | Ok _ =>
          match collect base chunks ∅ with
          | Err e => Err e
          | Ok byIndex =>
              if Z.of_nat (size byIndex) <? DataShards base
              then Err (ErrChunkUnrecoverable (NeedChunks (DataShards base) (Z.of_nat (size byIndex))))
              else
                match recover_data base byIndex with
                | Err e => Err e
                | Ok data =>
                    let payload := take (Z.to_nat (PayloadSize base)) (concat data) in
                    let sum := Sum256 payload in
                    if negb (bool_decide (sum = PayloadSHA256 base)) then Err (ErrChunkUnrecoverable PayloadDigestMismatch)
                    else if negb (bool_decide (slice sum 0 16 = BundleID base)) then Err (ErrChunkUnrecoverable BundleIDMismatch)
                    else Ok payload
                end
          end
      end
  end.

(** ** The sizes *)

Definition is_chunk (c : EncodedChunk) : Prop :=
  0 < DataShards c /\ 0 < ParityShards c /\ DataShards c + ParityShards c <= 255
  /\ 0 <= Index c < DataShards c + ParityShards c /\ 0 < PayloadSize c <= MaxBundleBytes
  /\ 0 < ShardSize c <= MaxChunkDataSize /\ blen (Data c) = ShardSize c /\ PayloadSize c <= DataShards c * ShardSize c.

Definition int_fields (c : EncodedChunk) : Prop := is_i64 (DataShards c) /\ is_i64 (ParityShards c).

Lemma i64_wraps x : - 2 ^ 63 <= x < 2 ^ 64 -> i64 x = x \/ i64 x < 0.
Proof. intros H. unfold i64. destruct (Z_lt_le_dec x (2 ^ 63)); [left; rewrite Z.mod_small; lia|right].
  rewrite <- (Z.mod_add _ (-1)), Z.mod_small; lia. Qed.

Lemma Validate_spec c : int_fields c -> Validate c = Ok tt <-> is_chunk c.
Proof.
  intros [H1 H2]. unfold Validate, is_chunk, MaxShardCount, MaxBundleBytes, MaxChunkDataSize.
  split.
  - destruct (_ || _) eqn:E1; [done|]. apply orb_false_iff in E1 as [[?%Z.leb_gt ?%Z.leb_gt]%orb_false_iff ?%Z.ltb_ge].
    destruct (_ || _) eqn:E2; [done|]. apply orb_false_iff in E2 as [?%Z.ltb_ge ?%Z.leb_gt].
    destruct (_ || _) eqn:E3; [done|]. apply orb_false_iff in E3 as [?%Z.leb_gt ?%Z.ltb_ge].
    destruct (_ || _) eqn:E4; [done|]. apply orb_false_iff in E4 as [?%Z.leb_gt ?%Z.ltb_ge].
    destruct (Z.eqb_spec (blen (Data c)) (ShardSize c)); [|done]. simpl. destruct (Z.ltb_spec (DataShards c * ShardSize c) (PayloadSize c)); [done|].
    intros _. destruct (i64_wraps (DataShards c + ParityShards c)) as [E|]; [unfold_ints; lia| |lia].
    rewrite E in *. split_and!; lia.
  - intros (? & ? & ? & ? & ? & ? & E & ?). rewrite i64_id by (unfold_ints; lia). rewrite E, Z.eqb_refl. simpl.
    by repeat match goal with
      | |- context [?a <=? ?b] => rewrite (proj2 (Z.leb_gt a b)) by lia; simpl
      | |- context [?a <? ?b] => rewrite (proj2 (Z.ltb_ge a b)) by lia; simpl
      end.
Qed.

Lemma chunk_plan_spec len opt n p size :
  chunk_plan len opt = Ok (n, p, size) -> 0 <= len -> is_i64 (o_DataShards opt) -> is_i64 (o_ParityShards opt) ->
  0 < len <= MaxBundleBytes /\ 0 < n /\ 0 < p /\ n + p <= 255 /\ 0 < size <= MaxChunkDataSize /\ len <= n * size.
Proof.
  unfold chunk_plan, MaxShardCount. intros H H0 Hd Hp.
  destruct (Z.eqb_spec len 0); [done|]. destruct (Z.ltb_spec MaxBundleBytes len); [done|].
  set (os := if o_ShardSize opt <=? 0 then 768 else o_ShardSize opt) in *.
  assert (0 < os) by (unfold os; destruct (Z.leb_spec (o_ShardSize opt) 0); lia). clearbody os.
  destruct (Z.ltb_spec MaxChunkDataSize os); [done|].
  set (ds := if o_DataShards opt <=? 0 then _ else _) in *. clearbody ds.
  destruct (_ || _) eqn:E1; [done|]. apply orb_false_iff in E1 as [?%Z.leb_gt ?%Z.ltb_ge].
  set (ps := if o_ParityShards opt <=? 0 then _ else _) in *. clearbody ps.
  destruct (_ || _) eqn:E2; [done|]. apply orb_false_iff in E2 as [?%Z.leb_gt ?%Z.ltb_ge].
  set (ss := if os <? _ then _ else _) in *.
  assert ((len + ds - 1) / ds <= ss /\ 0 < ss) as [Hmin Hpos].
  { unfold ss. destruct (Z.ltb_spec os ((len + ds - 1) / ds)); lia. }
  clearbody ss. destruct (Z.ltb_spec MaxChunkDataSize ss); [done|]. destruct (Z.ltb_spec 255 ps); [done|].
  simplify_eq. rewrite i64_id in * by (unfold_ints; lia). split_and!; try lia.
  pose proof (Z.mod_pos_bound (len + n - 1) n ltac:(lia)). pose proof (Z.div_mod (len + n - 1) n ltac:(lia)). nia.
Qed.

(** ** Linear combinations of shards, byte by byte *)

Definition column (b : nat) (shards : list (list Z)) : list Z := (fun s => entry s b) <$> shards.

Definition shards_ok (size : nat) (shards : list (list Z)) : Prop := Forall (fun s => length s = size /\ bytes_ok s) shards.

Lemma column_bytes size b shards : shards_ok size shards -> bytes_ok (column b shards).
Proof. intros H. apply Forall_fmap. eapply Forall_impl; [exact H|]. intros s [_ Hs]. by apply entry_u8. Qed.

Lemma add_shard_length dst c s : length s = length dst -> length (add_shard dst (c, s)) = length dst.
Proof. intros H. unfold add_shard. destruct (c =? 0); [done|]. rewrite length_zip_with. lia. Qed.

Lemma add_shard_bytes dst c s : is_u8 c -> bytes_ok dst -> bytes_ok s -> bytes_ok (add_shard dst (c, s)).
Proof.
  intros Hc Hd. revert s. unfold add_shard. destruct (c =? 0); [done|].
  induction Hd as [|x dst Hx _ IH]; intros s Hs; [constructor|]. destruct Hs as [|y s Hy Hs]; [constructor|].
  constructor; [auto using lxor_u8, gfMul_u8|by apply IH].
Qed.

Lemma add_shard_entry dst c s b : length s = length dst ->
  entry (add_shard dst (c, s)) b = Z.lxor (entry dst b) (gfMul c (entry s b)).
Proof.
  intros Hl. unfold add_shard. destruct (Z.eqb_spec c 0) as [->|_]; [by rewrite gfMul_0_l, Z.lxor_0_r|].
  rewrite <- entry_mul, <- entry_add by (by rewrite mul_row_length). unfold add_row, mul_row. f_equal.
  apply list_eq. intros j. rewrite !lookup_zip_with, list_lookup_fmap. by destruct (dst !! j), (s !! j).
Qed.

Lemma combine_fold size row shards acc :
  shards_ok size shards -> bytes_ok row -> length acc = size -> bytes_ok acc ->
  let r := fold_left add_shard (zip row shards) acc in
  length r = size /\ bytes_ok r /\ forall b, entry r b = Z.lxor (entry acc b) (dot row (column b shards)).
Proof.
  intros Hs. revert row acc. induction Hs as [|s shards [Hl Hb] _ IH]; intros row acc Hr Ha Hba.
  - destruct row; simpl; split_and!; try done; intros b; by rewrite Z.lxor_0_r.
  - destruct Hr as [|c row Hc Hr]; [simpl; split_and!; try done; intros b; by rewrite Z.lxor_0_r|].
    cbn [zip fold_left]. destruct (IH row (add_shard acc (c, s))) as (H1 & H2 & H3);
      [done|rewrite add_shard_length; lia|by apply add_shard_bytes|]. split_and!; [done|done|].
    intros b. rewrite H3, add_shard_entry by lia. unfold column. rewrite fmap_cons. cbn [dot]. by rewrite Z.lxor_assoc.
Qed.

Lemma nth_replicate_zero m b : nth b (replicate m 0) 0 = 0.
Proof. revert b. by induction m; intros [|b]; simpl. Qed.

Lemma combine_spec size row shards :
  shards_ok (Z.to_nat size) shards -> bytes_ok row ->
  length (combine_shards size row shards) = Z.to_nat size /\ bytes_ok (combine_shards size row shards)
  /\ forall b, entry (combine_shards size row shards) b = dot row (column b shards).
Proof.
  intros Hs Hr. destruct (combine_fold (Z.to_nat size) row shards (replicate (Z.to_nat size) 0)) as (H1 & H2 & H3);
    auto using length_replicate, zeros_bytes. split_and!; [done|done|]. intros b. unfold combine_shards. rewrite H3.
  unfold entry at 1. by rewrite nth_replicate_zero, Z.lxor_0_l.
Qed.

Lemma codingRow_ok index n : 0 <= n -> length (codingRow index n) = Z.to_nat n /\ bytes_ok (codingRow index n).
Proof.
  intros Hn. unfold codingRow. destruct (index <? n); [split; [apply unit_row_length|apply unit_row_bytes]|].
  split; [by rewrite length_map, length_seq|]. apply Forall_map, Forall_forall. intros c _.
  apply gfInv_u8, lxor_u8; apply u8_range.
Qed.

Lemma list_eq_entries (l k : list Z) : length l = length k -> (forall j, (j < length l)%nat -> entry l j = entry k j) -> l = k.
Proof.
  intros Hl H. apply list_eq. intros j. destruct (decide (j < length l)%nat) as [Hj|Hj].
  - destruct (lookup_lt_is_Some_2 l j Hj) as [x Hx]. destruct (lookup_lt_is_Some_2 k j ltac:(lia)) as [y Hy].
    rewrite Hx, Hy. f_equal. by rewrite <- (entry_lookup l j x), <- (entry_lookup k j y), H.
  - rewrite !(proj2 (lookup_ge_None _ _)); [done|lia|lia].
Qed.

(** The shard a chunk of index [i] carries. *)
Definition code_shard (n size : Z) (data : list (list Z)) (i : Z) : list Z :=
  if i <? n then nth (Z.to_nat i) data [] else combine_shards size (codingRow i n) data.

Lemma code_shard_spec n size data i :
  shards_ok (Z.to_nat size) data -> length data = Z.to_nat n -> 0 <= i -> 0 < n ->
  length (code_shard n size data i) = Z.to_nat size /\ bytes_ok (code_shard n size data i)
  /\ forall b, entry (code_shard n size data i) b = dot (codingRow i n) (column b data).
Proof.
  intros Hd Hl Hi Hn. unfold code_shard. destruct (Z.ltb_spec i n) as [Hin|Hin].
  - destruct (lookup_lt_is_Some_2 data (Z.to_nat i) ltac:(lia)) as [d Hdi]. rewrite (nth_lookup_Some _ _ _ _ Hdi).
    destruct (Forall_lookup_1 _ _ _ _ Hd Hdi) as [Hld Hbd]. split_and!; [done|done|]. intros b.
    unfold codingRow. rewrite (proj2 (Z.ltb_lt i n)) by done.
    rewrite dot_unit; [|lia|by unfold column; rewrite length_fmap|by eapply column_bytes].
    symmetry. apply nth_lookup_Some. unfold column. by rewrite list_lookup_fmap, Hdi.
  - apply combine_spec; [done|]. apply codingRow_ok. lia.
Qed.

(** ** Recovery: a left inverse of the coding rows gives the data back *)

Lemma recover_rows n size data idxs inv :
  shards_ok (Z.to_nat size) data -> length data = Z.to_nat n -> 0 < n -> Forall (fun i => 0 <= i) idxs ->
  length idxs = Z.to_nat n -> is_left_inverse inv (map (fun i => codingRow i n) idxs) ->
  map (fun row => combine_shards size row (map (code_shard n size data) idxs)) inv = data.
Proof.
  intros Hd Hl Hn Hidx Hlen (Hli & Hinv & Hleft). rewrite length_map in Hli, Hleft, Hinv.
  assert (shards_ok (Z.to_nat size) (map (code_shard n size data) idxs)) as Hs.
  { apply Forall_map. eapply Forall_impl; [exact Hidx|]. intros i Hi. by destruct (code_shard_spec n size data i Hd Hl Hi Hn) as (? & ? & _). }
  assert (forall b, column b (map (code_shard n size data) idxs) = mulvec (map (fun i => codingRow i n) idxs) (column b data)) as Hcol.
  { intros b. unfold column at 1, mulvec. change (?f <$> ?l) with (map f l). rewrite !map_map. apply map_ext_in. intros i Hi.
    apply list_elem_of_In in Hi. rewrite Forall_forall in Hidx. by apply (code_shard_spec n size data i Hd Hl (Hidx i Hi) Hn). }
  apply list_eq. intros i. change (map ?f inv) with (f <$> inv). rewrite list_lookup_fmap.
  destruct (inv !! i) as [row|] eqn:Hrow; simpl.
  - pose proof (lookup_lt_Some _ _ _ Hrow). destruct (lookup_lt_is_Some_2 data i ltac:(lia)) as [d Hdi]. rewrite Hdi. f_equal.
    destruct (Forall_lookup_1 _ _ _ _ Hinv Hrow) as [_ Hbr]. destruct (Forall_lookup_1 _ _ _ _ Hd Hdi) as [Hld _].
    destruct (combine_spec size row _ Hs Hbr) as (H1 & _ & H2). apply list_eq_entries; [lia|]. intros b _.
    rewrite H2, Hcol. specialize (Hleft (column b data)). rewrite <- (nth_lookup_Some _ i 0 _ (eq_trans (mulvec_lookup inv _ i) (f_equal (fmap _) Hrow))).
    rewrite Hleft; [|unfold column; rewrite length_fmap; lia|by eapply column_bytes].
    apply nth_lookup_Some. unfold column. by rewrite list_lookup_fmap, Hdi.
  - symmetry. apply lookup_ge_None in Hrow. apply lookup_ge_None. lia.
Qed.

(** ** Any selection of coding rows is invertible

    as long as the parity points 1, 2, ... and the data points 128, 129, ..., taken modulo
    256, stay apart: up to 129 data shards and 127 parity shards. *)

Definition points_apart (n p : Z) : Prop := n <= 129 /\ p <= 127.

#[export] Instance points_apart_dec n p : Decision (points_apart n p).
Proof. unfold points_apart. apply _. Defined.

Definition parity_point (n i : Z) : Z := u8 (i - n + 1).
Definition data_point (c : nat) : Z := u8 (128 + Z.of_nat c).

Lemma dot_filter {A} (P : A -> Prop) `{forall a, Decision (P a)} (f g : A -> Z) l :
  (forall a, a ∈ l -> ~ P a -> g a = 0) -> dot (map f l) (map g l) = dot (map f (filter P l)) (map g (filter P l)).
Proof.
  induction l as [|a l IH]; intros Hz; [done|]. rewrite filter_cons. cbn [map dot].
  rewrite IH by (intros b Hb; apply Hz; by right). destruct (decide (P a)); [done|].
  by rewrite (Hz a), gfMul_0_r, Z.lxor_0_l by (done || by left).
Qed.

Lemma map_entries x n : length x = n -> map (entry x) (seq 0 n) = x.
Proof.
  intros Hl. apply list_eq. intros j. change (map ?f ?l) with (f <$> l). rewrite list_lookup_fmap.
  destruct (decide (j < n)%nat) as [Hj|Hj].
  - destruct (lookup_lt_is_Some_2 x j ltac:(lia)) as [y Hy]. rewrite lookup_seq_lt by done. simpl.
    by rewrite Hy, (entry_lookup _ _ _ Hy).
  - rewrite (proj2 (lookup_ge_None x j)) by lia. by rewrite lookup_seq_ge by lia.
Qed.

(** As many data columns are missing as parity rows are used. *)
Lemma missing_count n idxs :
  0 <= n -> NoDup idxs -> Forall (fun i => 0 <= i) idxs -> length idxs = Z.to_nat n ->
  length (filter (fun c => Z.of_nat c ∉ idxs) (seq 0 (Z.to_nat n))) = length (filter (fun i => n <= i) idxs).
Proof.
  intros Hn Hnd Hpos Hl. set (s := seq 0 (Z.to_nat n)).
  assert (forall {A} (P : A -> Prop) `{forall a, Decision (P a)} (l : list A),
    length l = length (filter P l) + length (filter (fun a => ~ P a) l))%nat as Hsplit.
  { intros A P HP l. induction l as [|a l IH]; [done|]. rewrite !filter_cons.
    destruct (decide (P a)), (decide (~ P a)); try done; simpl; lia. }
  pose proof (Hsplit nat (fun c => Z.of_nat c ∈ idxs) _ s) as H1. pose proof (Hsplit Z (fun i => n <= i) _ idxs) as H2.
  assert (length s = Z.to_nat n) as Hs by apply length_seq.
  assert (Z.of_nat <$> filter (fun c => Z.of_nat c ∈ idxs) s ≡ₚ filter (fun i => ~ n <= i) idxs) as Hperm.
  { apply list.NoDup_Permutation; [apply (NoDup_fmap_2 Z.of_nat), NoDup_filter, NoDup_seq|by apply NoDup_filter|].
    intros i. rewrite list_elem_of_fmap, list_elem_of_filter. split.
    - intros (c & -> & [Hc Hcs]%list_elem_of_filter). apply elem_of_seq in Hcs. split; [lia|done].
    - intros [Hi Hin]. rewrite Forall_forall in Hpos. specialize (Hpos i Hin). exists (Z.to_nat i).
      split; [lia|]. apply list_elem_of_filter. rewrite Z2Nat.id by lia. split; [done|]. apply elem_of_seq. lia. }
  apply Permutation_length in Hperm. rewrite length_fmap in Hperm. simpl in *. lia.
Qed.

Lemma codingRow_parity n i : n <= i -> codingRow i n = map (fun c => gfInv (Z.lxor (parity_point n i) (data_point c))) (seq 0 (Z.to_nat n)).
Proof. intros H. unfold codingRow. by rewrite (proj2 (Z.ltb_ge i n)). Qed.

Lemma NoDup_gf_of {A} (f : A -> Z) (l : list A) :
  NoDup l -> (forall a, is_u8 (f a)) -> (forall a b, a ∈ l -> b ∈ l -> f a = f b -> a = b) -> NoDup (gf_of <$> (map f l)).
Proof.
  intros Hl Hu Hinj. change (map f l) with (f <$> l). rewrite <- list_fmap_compose. apply NoDup_fmap_2_strong; [|done].
  intros a b Ha Hb H. apply Hinj; [done|done|]. apply (f_equal gval) in H. simpl in H. by rewrite !u8_id in H.
Qed.

Lemma points_injective n p : points_apart n p -> 0 < n ->
  (forall i j, n <= i < n + p -> n <= j < n + p -> parity_point n i = parity_point n j -> i = j)
  /\ (forall c d, Z.of_nat c < n -> Z.of_nat d < n -> data_point c = data_point d -> c = d)
  /\ (forall i c, n <= i < n + p -> Z.of_nat c < n -> parity_point n i <> data_point c).
Proof.
  intros [Hn Hp] Hpos.
  assert (forall i, n <= i < n + p -> parity_point n i = i - n + 1) as Hpar.
  { intros i Hi. apply u8_id. unfold_ints. lia. }
  assert (forall c, Z.of_nat c < n -> data_point c = if Z.of_nat c =? 128 then 0 else 128 + Z.of_nat c) as Hdat.
  { intros c Hc. unfold data_point. destruct (Z.eqb_spec (Z.of_nat c) 128) as [->|]; [done|]. apply u8_id. unfold_ints. lia. }
  split_and!.
  - intros i j Hi Hj. rewrite !Hpar by done. lia.
  - intros c d Hc Hd. rewrite !Hdat by done. destruct (Z.eqb_spec (Z.of_nat c) 128), (Z.eqb_spec (Z.of_nat d) 128); lia.
  - intros i c Hi Hc. rewrite Hpar, Hdat by done. destruct (Z.eqb_spec (Z.of_nat c) 128); lia.
Qed.

Lemma coding_kernel n p idxs x :
  points_apart n p -> 0 < n -> NoDup idxs -> Forall (fun i => 0 <= i < n + p) idxs -> length idxs = Z.to_nat n ->
  length x = Z.to_nat n -> bytes_ok x -> (forall i, i ∈ idxs -> dot (codingRow i n) x = 0) -> forall j, entry x j = 0.
Proof.
  intros Hap Hn Hnd Hidx Hl Hlx Hx Hz. destruct (points_injective n p Hap Hn) as (Hinjp & Hinjd & Hdisj).
  rewrite Forall_forall in Hidx.
  assert (forall c, (c < Z.to_nat n)%nat -> Z.of_nat c ∈ idxs -> entry x c = 0) as Hdata.
  { intros c Hc Hin. specialize (Hz _ Hin). unfold codingRow in Hz. rewrite (proj2 (Z.ltb_lt _ _)), Nat2Z.id in Hz by lia.
    by rewrite dot_unit in Hz. }
  set (U := filter (fun c => Z.of_nat c ∉ idxs) (seq 0 (Z.to_nat n))). set (P := filter (fun i => n <= i) idxs).
  assert (forall c, c ∈ U -> (c < Z.to_nat n)%nat) as HU.
  { intros c [_ Hc%elem_of_seq]%list_elem_of_filter. lia. }
  assert (forall i, i ∈ P -> n <= i < n + p) as HP.
  { intros i [Hni Hin]%list_elem_of_filter. specialize (Hidx i Hin). lia. }
  assert (forall c, is_u8 (data_point c)) as Hud by (intros; apply u8_range).
  assert (forall i, is_u8 (parity_point n i)) as Hup by (intros; apply u8_range).
  assert (length U = length P) as HUP by (apply missing_count; [lia|done| |done]; apply Forall_forall; intros i Hi; specialize (Hidx i Hi); lia).
  assert (Forall (fun z => z = g0) (gf_of <$> map (entry x) U)) as Hzero.
  { apply (cauchy_kernel (gf_of <$> map (parity_point n) P) (gf_of <$> map data_point U)).
    - apply NoDup_gf_of; [by apply NoDup_filter|done|]. intros i j Hi Hj. auto.
    - apply NoDup_gf_of; [apply NoDup_filter, NoDup_seq|done|]. intros c d Hc%HU Hd%HU. apply Hinjd; lia.
    - intros a (z & -> & Hz1)%list_elem_of_fmap (z' & E & Hz2)%list_elem_of_fmap. apply (f_equal gval) in E.
      apply list_elem_of_fmap in Hz1 as (i & -> & Hi%HP), Hz2 as (c & -> & Hc%HU). simpl in E. rewrite !u8_id in E by done.
      apply (Hdisj i c Hi ltac:(lia) E).
    - by rewrite !length_fmap, ?length_map.
    - by rewrite !length_fmap, ?length_map.
    - intros a (z & -> & (i & -> & Hi)%list_elem_of_fmap)%list_elem_of_fmap. apply gf_eq. rewrite csum_dot; [| | |done].
      + rewrite map_map. unfold U. rewrite <- (dot_filter (fun c => Z.of_nat c ∉ idxs) (fun c => gfInv (Z.lxor (parity_point n i) (data_point c))) (entry x)).
        * rewrite map_entries by done. rewrite <- codingRow_parity by (apply HP in Hi; lia). apply Hz. by apply list_elem_of_filter in Hi as [_ ?].
        * intros c Hc%elem_of_seq Hnc. apply Hdata; [lia|]. by apply dec_stable.
      + apply Forall_map, Forall_forall. intros c _. by apply entry_u8.
      + apply Forall_map, Forall_forall. intros c _. apply Hud. }
  intros j. destruct (decide (j < Z.to_nat n)%nat) as [Hj|Hj]; [|unfold entry; apply nth_overflow; lia].
  destruct (decide (Z.of_nat j ∈ idxs)) as [Hin|Hout]; [by apply Hdata|].
  rewrite Forall_forall in Hzero. specialize (Hzero (gf_of (entry x j))).
  assert (gf_of (entry x j) = g0) as H.
  { apply Hzero. apply list_elem_of_fmap_2, list_elem_of_fmap_2, list_elem_of_filter. split; [done|]. apply elem_of_seq. lia. }
  apply (f_equal gval) in H. by rewrite gf_of_val in H by (by apply entry_u8).
Qed.

(** ** The data shards side by side *)

Lemma data_shard_take payload size i pad :
  0 <= size -> (Z.of_nat i + 1) * size <= blen payload + Z.of_nat pad ->
  data_shard payload size i = take (Z.to_nat size) (drop (i * Z.to_nat size) (payload ++ replicate pad 0)).
Proof.
  intros Hs Hi. unfold data_shard, blen in *. set (sz := Z.to_nat size) in *.
  replace size with (Z.of_nat sz) in * by lia. clearbody sz. clear size Hs.
  replace (Z.of_nat i * Z.of_nat sz) with (Z.of_nat (i * sz)) by lia.
  assert (i * sz + sz <= length payload + pad)%nat as Hpad by lia. clear Hi. set (st := (i * sz)%nat) in *. clearbody st.
  destruct (Z.leb_spec (Z.of_nat (length payload)) (Z.of_nat st)).
  - rewrite drop_app_ge by lia. rewrite drop_replicate, take_replicate. f_equal. lia.
  - rewrite drop_app_le by lia. unfold slice. destruct (Z.ltb_spec (Z.of_nat (length payload)) (Z.of_nat st + Z.of_nat sz)) as [Hlt|Hge]; rewrite ?Nat2Z.id.
    + rewrite (take_ge (drop st payload)) by (rewrite length_drop; lia). unfold copy_into.
      rewrite take_ge by (rewrite length_drop; lia). rewrite take_app_ge by (rewrite length_drop; lia).
      rewrite take_replicate, length_drop. do 2 f_equal. lia.
    + replace (Z.to_nat (Z.of_nat st + Z.of_nat sz - Z.of_nat st)) with sz by lia.
      rewrite copy_into_exact by (rewrite length_take, length_drop; lia). by rewrite take_app_le by (rewrite length_drop; lia).
Qed.

Lemma concat_takes (L : list Z) sz n :
  concat (map (fun i => take sz (drop (i * sz) L)) (seq 0 n)) = take (n * sz) L.
Proof.
  induction n as [|n IH]; [done|]. rewrite seq_S, map_app, concat_app, IH. cbn [map concat]. rewrite app_nil_r, Nat.add_0_l.
  rewrite take_take_drop. f_equal. lia.
Qed.

Lemma data_shards_concat payload size n :
  0 <= size -> 0 <= n -> blen payload <= n * size ->
  take (length payload) (concat (map (data_shard payload size) (seq 0 (Z.to_nat n)))) = payload.
Proof.
  intros Hs Hn Hl. set (pad := Z.to_nat (n * size - blen payload)).
  assert (map (data_shard payload size) (seq 0 (Z.to_nat n))
    = map (fun i => take (Z.to_nat size) (drop (i * Z.to_nat size) (payload ++ replicate pad 0))) (seq 0 (Z.to_nat n))) as ->.
  { apply map_ext_in. intros i Hi%in_seq. apply data_shard_take; [done|]. unfold pad. nia. }
  rewrite concat_takes, take_take, Nat.min_l by (unfold blen in *; nia). apply take_app_length.
Qed.

Lemma data_shards_ok payload size n :
  0 <= size -> 0 <= n -> bytes_ok payload ->
  shards_ok (Z.to_nat size) (map (data_shard payload size) (seq 0 (Z.to_nat n))).
Proof.
  intros Hs Hn Hb. apply Forall_map, Forall_forall. intros i _.
  set (pad := (S i * Z.to_nat size)%nat). rewrite (data_shard_take payload size i pad); [|done|unfold pad, blen; nia].
  split.
  - rewrite length_take, length_drop, length_app, length_replicate. unfold pad. lia.
  - unfold bytes_ok. apply Forall_take, Forall_drop, Forall_app. split; [done|apply zeros_bytes].
Qed.

(** ** Collecting chunks *)

Definition acceptable (base c : EncodedChunk) : Prop :=
  Validate c = Ok tt /\ same_set c base = true /\ computeChecksum c = ChunkSHA256 c.

Definition index_chunks (chunks : list EncodedChunk) (m : gmap Z EncodedChunk) : gmap Z EncodedChunk :=
  fold_left (fun m c => <[Index c := c]> m) chunks m.

Lemma collect_acceptable base chunks m :
  Forall (acceptable base) chunks -> collect base chunks m = Ok (index_chunks chunks m).
Proof.
  intros H. revert m. induction H as [|c chunks (Hv & Hs & Hc) _ IH]; intros m; simpl; [done|].
  rewrite Hv, Hs, (bool_decide_eq_true_2 _ Hc). apply IH.
Qed.

Lemma index_chunks_lookup chunks m i c :
  index_chunks chunks m !! i = Some c -> (c ∈ chunks /\ Index c = i) \/ m !! i = Some c.
Proof.
  revert m. induction chunks as [|d chunks IH]; intros m H; [by right|]. apply IH in H as [[? ?]|H]; [left; split; [by right|done]|].
  destruct (decide (Index d = i)) as [<-|Hne].
  - rewrite lookup_insert_eq in H. simplify_eq. left. split; [by left|done].
  - rewrite lookup_insert_ne in H by done. by right.
Qed.

Lemma index_chunks_dom chunks m : dom (index_chunks chunks m) = list_to_set (Index <$> chunks) ∪ (dom m : gset Z).
Proof.
  revert m. induction chunks as [|d chunks IH]; intros m; [simpl; set_solver|].
  change (index_chunks (d :: chunks) m) with (index_chunks chunks (<[Index d := d]> m)). rewrite IH, dom_insert_L. set_solver.
Qed.

Lemma sorted_keys_spec m k : (k <= size m)%nat ->
  let idxs := take k (sorted_keys m) in
  NoDup idxs /\ length idxs = k /\ forall i, i ∈ idxs -> exists c, m !! i = Some c.
Proof.
  intros Hk. assert (sorted_keys m ≡ₚ (map_to_list m).*1) as Hp by apply merge_sort_Permutation.
  assert (NoDup (sorted_keys m)) as Hnd by (rewrite Hp; apply NoDup_fst_map_to_list). split_and!.
  - rewrite <- (take_drop k (sorted_keys m)) in Hnd. by apply NoDup_app in Hnd as [? _].
  - rewrite length_take, (Permutation_length Hp), length_fmap, length_map_to_list. lia.
  - intros i Hi. apply (subseteq_take k (sorted_keys m)) in Hi. rewrite Hp in Hi.
    apply list_elem_of_fmap in Hi as ([i' c] & -> & Hc%elem_of_map_to_list). by exists c.
Qed.

(** ** Any sufficient set of chunks gives the payload back *)

Definition distinct (chunks : list EncodedChunk) : Z := Z.of_nat (size (list_to_set (Index <$> chunks) : gset Z)).

Section encoded.
Context (payload : list Z) (n p sz : Z).
Hypothesis Hbytes : bytes_ok payload.
Hypothesis Hlen : 0 < blen payload <= MaxBundleBytes.
Hypothesis Hn : 0 < n.
Hypothesis Hp : 0 < p.
Hypothesis Hnp : n + p <= 255.
Hypothesis Hsz : 0 < sz <= MaxChunkDataSize.
Hypothesis Hfit : blen payload <= n * sz.

Definition the_data : list (list Z) := map (data_shard payload sz) (seq 0 (Z.to_nat n)).
Definition the_chunks : list EncodedChunk :=
  map (encoded_chunk payload n p sz the_data) (seq 0 (Z.to_nat (n + p))).

Lemma the_data_ok : shards_ok (Z.to_nat sz) the_data /\ length the_data = Z.to_nat n.
Proof.
  split; [apply data_shards_ok; [lia|lia|done]|]. unfold the_data. by rewrite length_map, length_seq.
Qed.

Lemma the_chunks_elem c : c ∈ the_chunks <-> exists i, (i < Z.to_nat (n + p))%nat /\ c = encoded_chunk payload n p sz the_data i.
Proof.
  unfold the_chunks. change (map ?f ?l) with (f <$> l). rewrite list_elem_of_fmap. setoid_rewrite elem_of_seq.
  split; intros (i & H1 & H2); exists i; split; (done || lia).
Qed.

Lemma encoded_chunk_acceptable base c : base ∈ the_chunks -> c ∈ the_chunks -> acceptable base c.
Proof.
  intros (j & Hj & ->)%the_chunks_elem (i & Hi & ->)%the_chunks_elem.
  destruct the_data_ok as [Hok Hl].
  destruct (code_shard_spec n sz the_data (Z.of_nat i) Hok Hl ltac:(lia) Hn) as (Hlc & _).
  split_and!; [|unfold same_set; simpl; by rewrite !bool_decide_eq_true_2, !Z.eqb_refl|reflexivity].
  apply Validate_spec; [split; simpl; unfold_ints; lia|].
  assert (blen (Data (encoded_chunk payload n p sz the_data i)) = sz) as Hd.
  { unfold encoded_chunk, code_shard, blen in *. simpl. rewrite Nat2Z.id in Hlc. rewrite Hlc. lia. }
  unfold is_chunk. rewrite Hd. simpl. split_and!; lia.
Qed.

Lemma the_chunk_data m idx c : (forall i d, m !! i = Some d -> d ∈ the_chunks /\ Index d = i) -> m !! idx = Some c ->
  shard_of m idx = code_shard n sz the_data idx /\ 0 <= idx < n + p.
Proof.
  intros Hm Hc. unfold shard_of. rewrite Hc. destruct (Hm idx c Hc) as [(i & Hi & ->)%the_chunks_elem <-].
  unfold encoded_chunk, code_shard. simpl. rewrite Nat2Z.id. split; [done|lia].
Qed.

Lemma recover_data_ok base m :
  points_apart n p -> DataShards base = n -> ShardSize base = sz ->
  (forall i d, m !! i = Some d -> d ∈ the_chunks /\ Index d = i) -> n <= Z.of_nat (size m) ->
  recover_data base m = Ok the_data.
Proof.
  intros Hap Hb Hbs Hm Hsize. unfold recover_data. rewrite Hb, Hbs.
  destruct (sorted_keys_spec m (Z.to_nat n) ltac:(lia)) as (Hnd & Hl & Hin).
  set (idxs := take (Z.to_nat n) (sorted_keys m)) in *. clearbody idxs.
  assert (Forall (fun i => shard_of m i = code_shard n sz the_data i /\ 0 <= i < n + p) idxs) as Hidx.
  { apply Forall_forall. intros i Hi. destruct (Hin i Hi) as [c Hc]. by apply (the_chunk_data m i c). }
  destruct the_data_ok as [Hok Hld].
  assert (map (shard_of m) idxs = map (code_shard n sz the_data) idxs) as ->.
  { apply map_ext_in. intros i Hi%list_elem_of_In. rewrite Forall_forall in Hidx. by apply Hidx. }
  set (matrix := map (fun idx => codingRow idx n) idxs).
  assert (length matrix = Z.to_nat n) as Hlm by (unfold matrix; by rewrite length_map).
  assert (square matrix) as Hsq.
  { unfold square. rewrite Hlm. apply Forall_map, Forall_forall. intros i _. apply codingRow_ok. lia. }
  pose proof (invertMatrix_spec matrix ltac:(destruct matrix; simpl in *; [lia|done]) Hsq) as Hinv.
  destruct (invertMatrix matrix) as [inv|e].
  - f_equal. apply (recover_rows n sz the_data idxs inv); try done. eapply Forall_impl; [exact Hidx|]. intros i [_ ?]. lia.
  - destruct Hinv as (_ & x & Hlx & Hbx & [j Hj] & Hz). destruct Hj.
    apply (coding_kernel n p idxs); try done; [|by rewrite <- Hlm|].
    + eapply Forall_impl; [exact Hidx|]. by intros i [_ ?].
    + intros i Hi. apply list_elem_of_lookup in Hi as [k Hk].
      assert (mulvec matrix x !! k = Some (dot (codingRow i n) x)) as E.
      { rewrite mulvec_lookup. unfold matrix. change (map ?f ?l) with (f <$> l). by rewrite list_lookup_fmap, Hk. }
      rewrite Hz in E. by apply lookup_replicate in E as [-> _].
Qed.

(** Chunks of the encoding pass every check up to the recovery. *)
Lemma reconstruct_checks chunks :
  chunks <> [] -> (forall c, c ∈ chunks -> c ∈ the_chunks) -> n <= distinct chunks ->
  exists base, Validate base = Ok tt /\ DataShards base = n /\ ShardSize base = sz
  /\ n <= Z.of_nat (size (index_chunks chunks ∅))
  /\ (forall i d, index_chunks chunks ∅ !! i = Some d -> d ∈ chunks /\ Index d = i)
  /\ ReconstructErasurePayload chunks
     = match recover_data base (index_chunks chunks ∅) with
       | Err e => Err e
       | Ok data =>
           let payload' := take (length payload) (concat data) in
           if negb (bool_decide (Sum256 payload' = Sum256 payload)) then Err (ErrChunkUnrecoverable PayloadDigestMismatch)
           else if negb (bool_decide (slice (Sum256 payload') 0 16 = slice (Sum256 payload) 0 16))
           then Err (ErrChunkUnrecoverable BundleIDMismatch) else Ok payload'
       end.
Proof.
  intros Hne Hsub Hd. unfold ReconstructErasurePayload. destruct chunks as [|base chunks]; [done|]. exists base.
  assert (base ∈ the_chunks) as Hbase by (apply Hsub; by left).
  assert (Forall (acceptable base) (base :: chunks)) as Hacc.
  { apply Forall_forall. intros c Hc. apply encoded_chunk_acceptable; auto. }
  rewrite collect_acceptable by done.
  assert (n <= Z.of_nat (size (index_chunks (base :: chunks) ∅))) as Hsize.
  { rewrite <- size_dom, index_chunks_dom, dom_empty_L, union_empty_r_L. done. }
  apply Forall_cons in Hacc as [(Hv & _) _].
  apply the_chunks_elem in Hbase as (i0 & Hi0 & E).
  assert (DataShards base = n /\ ShardSize base = sz /\ PayloadSize base = blen payload
    /\ PayloadSHA256 base = Sum256 payload /\ BundleID base = slice (Sum256 payload) 0 16)
    as (H1 & H2 & H3 & H4 & H5).
  { rewrite E. split_and!; try done. unfold encoded_chunk. simpl.
    apply copy_into_exact. rewrite slice_length; rewrite ?Sum256_length; lia. }
  rewrite Hv, H1, H3, H4, H5, (proj2 (Z.ltb_ge _ _)) by done.
  assert (Z.to_nat (blen payload) = length payload) as -> by apply Nat2Z.id. split_and!; try done.
  intros i d Hi. apply index_chunks_lookup in Hi as [?|Hi]; [done|]. by rewrite lookup_empty in Hi.
Qed.

Lemma reconstruct_encoded chunks :
  points_apart n p -> chunks <> [] -> (forall c, c ∈ chunks -> c ∈ the_chunks) -> n <= distinct chunks ->
  ReconstructErasurePayload chunks = Ok payload.
Proof.
  intros Hap Hne Hsub Hd. destruct (reconstruct_checks chunks Hne Hsub Hd) as (base & _ & Hb & Hbs & Hsize & Hm & ->).
  rewrite recover_data_ok by (done || intros i d Hi; destruct (Hm i d Hi); auto).
  unfold the_data. rewrite data_shards_concat by lia. by rewrite !bool_decide_eq_true_2.
Qed.

End encoded.

(** C7: Any sufficient subset of the chunks of a payload, in any order and with
    repetitions, reconstructs it: when [EncodeErasureChunks] accepted the payload with at
    most 129 data and 127 parity shards, [ReconstructErasurePayload] returns the payload
    from any of its chunks with at least as many distinct indices as there are data shards. *)
Theorem erasure_recovery payload opt cs chunks :
  bytes_ok payload -> is_i64 (o_DataShards opt) -> is_i64 (o_ParityShards opt) ->
  EncodeErasureChunks payload opt = Ok cs ->
  chunks <> [] -> (forall c, c ∈ chunks -> c ∈ cs) ->
  Forall (fun c => points_apart (DataShards c) (ParityShards c) /\ DataShards c <= distinct chunks) chunks ->
  ReconstructErasurePayload chunks = Ok payload.
Proof.
  intros Hb Hod Hop He Hne Hsub Hall. unfold EncodeErasureChunks in He.
  destruct (chunk_plan (blen payload) opt) as [[[n p] sz]|] eqn:Hplan; [|done]. simplify_eq.
  destruct (chunk_plan_spec _ _ _ _ _ Hplan (blen_nonneg payload) Hod Hop) as (Hlen & Hn & Hp & Hnp & Hsz & Hfit).
  destruct chunks as [|c chunks]; [done|]. apply Forall_cons in Hall as [[Hap Hd] _].
  pose proof (Hsub c ltac:(by left)) as Hc. apply (the_chunks_elem payload n p sz) in Hc as (i & _ & E).
  rewrite E in Hap, Hd at 1. simpl in Hap, Hd.
  by apply (reconstruct_encoded payload n p sz).
Qed.

Definition demo_payload : list Z := [10; 20; 30; 40; 50].
Definition demo_options : ChunkOptions := mkOptions 2 1 3.

Lemma erasure_recovery_witness :
  exists c0 c1 c2, EncodeErasureChunks demo_payload demo_options = Ok [c0; c1; c2]
  /\ Data c1 <> [] /\ ReconstructErasurePayload [c2; c0; c2] = Ok demo_payload.
Proof.
  do 3 eexists. split_and!; [vm_compute; reflexivity|done|].
  eapply (erasure_recovery demo_payload demo_options); [decided|unfold_ints; simpl; lia|unfold_ints; simpl; lia| | | |].
  - vm_compute. reflexivity.
  - discriminate.
  - intros c. rewrite !list_elem_of_In. simpl. tauto.
  - repeat apply Forall_cons_2; [..|apply Forall_nil_2]; split; decided.
Defined.

(** ** The blind spot *)

Lemma recover_singular base m x :
  0 < DataShards base <= Z.of_nat (size m) ->
  (forall i c, m !! i = Some c -> dot (codingRow i (DataShards base)) x = 0) ->
  length x = Z.to_nat (DataShards base) -> bytes_ok x -> nonzero x ->
  recover_data base m = Err (ErrChunkUnrecoverable SingularMatrix).
Proof.
  intros [Hn Hsize] Hz Hlx Hx [j Hj]. unfold recover_data. set (n := DataShards base) in *. clearbody n.
  destruct (sorted_keys_spec m (Z.to_nat n) ltac:(lia)) as (_ & Hl & Hin).
  set (idxs := take (Z.to_nat n) (sorted_keys m)) in *. clearbody idxs.
  set (matrix := map (fun idx => codingRow idx n) idxs).
  assert (length matrix = Z.to_nat n) as Hlm by (unfold matrix; by rewrite length_map).
  assert (square matrix) as Hsq.
  { unfold square. rewrite Hlm. apply Forall_map, Forall_forall. intros i _. apply codingRow_ok. lia. }
  pose proof (invertMatrix_spec matrix ltac:(destruct matrix; simpl in *; [lia|done]) Hsq) as Hinv.
  destruct (invertMatrix matrix) as [inv|e]; [|by destruct Hinv as [-> _]].
  destruct Hinv as (_ & _ & Hleft). rewrite Hlm in Hleft.
  assert (mulvec matrix x = mulvec matrix (replicate (Z.to_nat n) 0)) as E.
  { apply list_eq. intros k. rewrite !mulvec_lookup. unfold matrix. change (map ?f ?l) with (f <$> l).
    rewrite list_lookup_fmap. destruct (idxs !! k) as [i|] eqn:Hk; [|done]. simpl. f_equal.
    destruct (Hin i) as [c Hc]; [by eapply list_elem_of_lookup_2|]. rewrite (Hz i c Hc), dot_zeros; [done|].
    apply codingRow_ok. lia. }
  rewrite <- (Hleft x Hlx Hx), E, Hleft in Hj by (auto using zeros_bytes, length_replicate).
  unfold entry in Hj. by rewrite nth_replicate_zero in Hj.
Qed.

Lemma blind_row n i : 130 <= n <= 254 -> 0 <= i <= n -> i <> 129 -> dot (codingRow i n) (unit_row (Z.to_nat n) 129) = 0.
Proof.
  intros Hn Hi Hne. destruct (codingRow_ok i n ltac:(lia)) as [Hl Hb].
  rewrite dot_comm, dot_unit by (done || lia || apply unit_row_bytes). change (entry (codingRow i n) 129 = 0).
  unfold codingRow. destruct (Z.ltb_spec i n).
  - rewrite unit_row_entry by lia. destruct (Nat.eqb_spec (Z.to_nat i) 129); [lia|done].
  - apply entry_lookup. change (map ?f ?l) with (f <$> l). rewrite list_lookup_fmap, lookup_seq_lt by lia. simpl.
    replace (i - n + 1) with 1 by lia. reflexivity.
Qed.

(** The parity points are not distinct from the data points beyond 129 data shards:
    with 130 or more, the first parity chunk ignores data shard 129, so that shard's loss is
    not repaired by it.  Every set of chunks that has all the others and the first parity
    chunk, as many as there are data shards, is refused as a singular matrix. *)
Theorem erasure_blind_spot payload opt cs chunks :
  bytes_ok payload -> is_i64 (o_DataShards opt) -> is_i64 (o_ParityShards opt) ->
  EncodeErasureChunks payload opt = Ok cs ->
  chunks <> [] -> (forall c, c ∈ chunks -> c ∈ cs) ->
  Forall (fun c => 130 <= DataShards c /\ Index c <= DataShards c /\ Index c <> 129 /\ DataShards c <= distinct chunks) chunks ->
  ReconstructErasurePayload chunks = Err (ErrChunkUnrecoverable SingularMatrix).
Proof.
  intros Hb Hod Hop He Hne Hsub Hall. unfold EncodeErasureChunks in He.
  destruct (chunk_plan (blen payload) opt) as [[[n p] sz]|] eqn:Hplan; [|done]. simplify_eq.
  destruct (chunk_plan_spec _ _ _ _ _ Hplan (blen_nonneg payload) Hod Hop) as (Hlen & Hn & Hp & Hnp & Hsz & Hfit).
  assert (forall c, c ∈ chunks -> DataShards c = n /\ 0 <= Index c) as Hds.
  { intros c (i & _ & ->)%Hsub%(the_chunks_elem payload n p sz). split; [done|simpl; lia]. }
  rewrite Forall_forall in Hall.
  assert (130 <= n <= distinct chunks) as [Hn1 Hn2].
  { destruct chunks as [|c chunks]; [done|]. destruct (Hall c ltac:(by left)) as (? & _ & _ & ?).
    destruct (Hds c ltac:(by left)) as [<- _]. lia. }
  destruct (reconstruct_checks payload n p sz Hb Hlen Hn Hp Hnp Hsz Hfit chunks Hne Hsub Hn2)
    as (base & Hv & Hbn & _ & Hsize & Hm & ->).
  assert (recover_data base (index_chunks chunks ∅) = Err (ErrChunkUnrecoverable SingularMatrix)) as ->; [|done].
  apply (recover_singular base _ (unit_row (Z.to_nat n) 129)); rewrite ?Hbn.
  - split; [done|exact Hsize].
  - intros i c (Hc & <-)%Hm. destruct (Hall c Hc) as (? & Hi & ? & _). destruct (Hds c Hc) as [E ?]. rewrite E in Hi.
    apply blind_row; lia.
  - apply unit_row_length.
  - apply unit_row_bytes.
  - exists 129%nat. rewrite unit_row_entry by lia. done.
Qed.

Lemma encode_plan payload opt n p sz :
  chunk_plan (blen payload) opt = Ok (n, p, sz) -> EncodeErasureChunks payload opt = Ok (the_chunks payload n p sz).
Proof. intros H. unfold EncodeErasureChunks. by rewrite H. Qed.

Lemma distinct_encoded payload n p sz data l :
  distinct (map (encoded_chunk payload n p sz data) l) = Z.of_nat (size (list_to_set (Z.of_nat <$> l) : gset Z)).
Proof. unfold distinct. change (?f <$> map ?g l) with (map f (map g l)). by rewrite map_map. Qed.

Definition blind_payload : list Z := replicate 130 7.
Definition blind_options : ChunkOptions := mkOptions 130 1 1.
(** All chunks of the payload but number 129. *)
Definition blind_indices : list nat := filter (fun i => i <> 129%nat) (seq 0 131).
Definition blind_chunks : list EncodedChunk :=
  map (encoded_chunk blind_payload 130 1 1 (the_data blind_payload 130 1)) blind_indices.

Lemma erasure_blind_spot_witness :
  EncodeErasureChunks blind_payload blind_options = Ok (the_chunks blind_payload 130 1 1)
  /\ length blind_chunks = 130%nat
  /\ ReconstructErasurePayload blind_chunks = Err (ErrChunkUnrecoverable SingularMatrix).
Proof.
  assert (EncodeErasureChunks blind_payload blind_options = Ok (the_chunks blind_payload 130 1 1)) as He.
  { apply encode_plan. vm_compute. reflexivity. }
  split_and!; [exact He|unfold blind_chunks; rewrite length_map; vm_compute; reflexivity|].
  apply (erasure_blind_spot blind_payload blind_options (the_chunks blind_payload 130 1 1)); [decided|unfold_ints; simpl; lia..|exact He| | |].
  - unfold blind_chunks. intros H. apply (f_equal length) in H. rewrite length_map in H. vm_compute in H. discriminate.
  - intros c Hc. apply the_chunks_elem. unfold blind_chunks in Hc. apply list_elem_of_fmap in Hc as (i & -> & Hi).
    exists i. split; [|reflexivity]. apply list_elem_of_filter in Hi as [_ Hi%elem_of_seq]. simpl. lia.
  - unfold blind_chunks at 2. apply Forall_map. unfold blind_chunks. rewrite distinct_encoded.
    apply Forall_forall. intros i [Hne Hi%elem_of_seq]%list_elem_of_filter. simpl.
    split_and!; try lia. vm_compute. discriminate.
Defined.

(** ** The chunk format *)

(** The fields as the struct holds them: fixed arrays of bytes. *)
Definition chunk_fields_ok (c : EncodedChunk) : Prop :=
  length (BundleID c) = 16%nat /\ length (PayloadSHA256 c) = 32%nat /\ length (ChunkSHA256 c) = 32%nat /\ int_fields c.

#[export] Instance chunk_fields_ok_dec c : Decision (chunk_fields_ok c).
Proof. unfold chunk_fields_ok, int_fields, is_i64. apply _. Defined.

Definition with_ShardSize (c : EncodedChunk) (v : Z) : EncodedChunk :=
  mkChunk (BundleID c) (Index c) (DataShards c) (ParityShards c) (PayloadSize c) v (PayloadSHA256 c) (ChunkSHA256 c) (Data c).

(** A field of a concatenation, by its position among the fields. *)
Lemma concat_field (fields : list (list Z)) k m i j :
  fields !! k = Some m -> i = sum_len (take k fields) -> j = i + blen m -> slice (concat fields) i j = m.
Proof.
  intros Hk -> ->. rewrite <- (take_drop_middle fields k m Hk) at 1. rewrite concat_app, <- sum_len_concat. cbn [concat].
  apply slice_app; done.
Qed.

Definition chunk_fields (c : EncodedChunk) : list (list Z) :=
  [ChunkMagic; [ChunkVersion; 0]; BundleID c; putU16Chunk (Index c); putU16Chunk (DataShards c); putU16Chunk (ParityShards c);
   putU32Chunk (PayloadSize c); putU16Chunk (ShardSize c); PayloadSHA256 c; ChunkSHA256 c; Data c].

Lemma chunk_fields_concat c : chunk_prefix c ++ ChunkSHA256 c ++ Data c = concat (chunk_fields c).
Proof. unfold chunk_prefix, chunk_fields. cbn [concat]. by rewrite <- !app_assoc, app_nil_r. Qed.

Lemma chunk_field_at c k m i j :
  chunk_fields_ok c -> chunk_fields c !! k = Some m ->
  i = sum_len (take k [ChunkMagic; [ChunkVersion; 0]; replicate 16 0; [0; 0]; [0; 0]; [0; 0]; [0; 0; 0; 0]; [0; 0];
                       replicate 32 0; replicate 32 0]) ->
  j = i + blen m -> (k <= 10)%nat -> slice (concat (chunk_fields c)) i j = m.
Proof.
  intros (Hid & Hsha & Hck & _) Hk -> Hj Hle. apply (concat_field _ k); [done| |done]. unfold chunk_fields, putU16Chunk, putU32Chunk.
  do 11 (destruct k as [|k]; [cbn [take]; rewrite ?sum_len_cons; unfold blen; rewrite ?be_put_length, ?Hid, ?Hsha, ?Hck; reflexivity|]).
  lia.
Qed.

Lemma parse_fields c : chunk_fields_ok c -> is_chunk c ->
  ParseEncodedChunk (chunk_prefix c ++ ChunkSHA256 c ++ Data c) =
  let c' := with_ShardSize c (u16 (ShardSize c)) in
  match Validate c' with
  | Err e => Err e
  | Ok _ => if negb (bool_decide (computeChecksum c' = ChunkSHA256 c)) then Err ErrChunkChecksum else Ok c'
  end.
Proof.
  intros Hok (Hd & Hp & Ht & Hi & Hps & _). pose proof Hok as (Hid & Hsha & Hck & _). rewrite chunk_fields_concat.
  set (raw := concat (chunk_fields c)).
  assert (blen raw = 98 + blen (Data c)) as Hlen.
  { unfold raw. rewrite sum_len_concat. unfold chunk_fields, putU16Chunk, putU32Chunk. rewrite !sum_len_cons. unfold blen.
    rewrite !be_put_length, Hid, Hsha, Hck. change (sum_len []) with 0. simpl (length _). lia. }
  assert (slice_from raw 98 = Data c) as Hdata.
  { pose proof (chunk_field_at c 10 (Data c) 98 (98 + blen (Data c)) Hok eq_refl eq_refl eq_refl ltac:(lia)) as H.
    fold raw in H. unfold slice in H. rewrite take_ge in H; [done|]. rewrite length_drop. unfold blen in *. lia. }
  unfold ParseEncodedChunk. rewrite (proj2 (Z.ltb_ge _ _)) by (rewrite Hlen; unfold ChunkHeaderSize; pose proof (blen_nonneg (Data c)); lia).
  assert (slice raw 0 4 = ChunkMagic /\ byte_at raw 4 = 1) as [-> ->] by done.
  rewrite Hdata. simpl (negb _ || negb _). cbv iota. unfold raw.
  rewrite (chunk_field_at c 2 (BundleID c) 6 22) by (done || lia || (unfold blen; rewrite Hid; done)).
  rewrite (chunk_field_at c 3 (putU16Chunk (Index c)) 22 24) by (done || lia).
  rewrite (chunk_field_at c 4 (putU16Chunk (DataShards c)) 24 26) by (done || lia).
  rewrite (chunk_field_at c 5 (putU16Chunk (ParityShards c)) 26 28) by (done || lia).
  rewrite (chunk_field_at c 6 (putU32Chunk (PayloadSize c)) 28 32) by (done || lia).
  rewrite (chunk_field_at c 7 (putU16Chunk (ShardSize c)) 32 34) by (done || lia).
  rewrite (chunk_field_at c 8 (PayloadSHA256 c) 34 66) by (done || lia || (unfold blen; rewrite Hsha; done)).
  rewrite (chunk_field_at c 9 (ChunkSHA256 c) 66 98) by (done || lia || (unfold blen; rewrite Hck; done)).
  rewrite !copy_into_exact by done. unfold putU16Chunk, putU32Chunk, MaxBundleBytes in *.
  assert (u16 (Index c) = Index c /\ u16 (DataShards c) = DataShards c /\ u16 (ParityShards c) = ParityShards c
    /\ u32 (PayloadSize c) = PayloadSize c) as (-> & -> & -> & ->).
  { split_and!; (apply u16_id || apply u32_id); unfold_ints; lia. }
  rewrite !be_get_put; [reflexivity|apply u16_range|change (256 ^ Z.of_nat 4) with 4294967296; lia|change (256 ^ Z.of_nat 2) with 65536; lia..].
Qed.

Lemma Validate_ShardSize_zero c : is_chunk c -> Validate (with_ShardSize c 0) = Err (ErrChunkInvalid InvalidShardSize).
Proof.
  intros (? & ? & ? & ? & ? & _). unfold Validate, with_ShardSize, MaxShardCount, MaxBundleBytes in *. simpl.
  rewrite i64_id by (unfold_ints; lia).
  by repeat match goal with
    | |- context [?a <=? ?b] => rewrite (proj2 (Z.leb_gt a b)) by lia; simpl
    | |- context [?a <? ?b] => rewrite (proj2 (Z.ltb_ge a b)) by lia; simpl
    end.
Qed.

(** A marshalled chunk parses back to itself, except at the largest admissible shard
    size: 65536 does not fit the two bytes of its header field, and the chunk comes back as
    one of shard size zero, which is refused. *)
Theorem chunk_roundtrip c raw :
  chunk_fields_ok c -> computeChecksum c = ChunkSHA256 c -> MarshalBinary c = Ok raw ->
  ParseEncodedChunk raw = if ShardSize c =? MaxChunkDataSize then Err (ErrChunkInvalid InvalidShardSize) else Ok c.
Proof.
  intros Hok Hck Hm. unfold MarshalBinary in Hm. destruct (Validate c) as [[]|] eqn:Hv; [|done]. assert (raw = chunk_prefix c ++ ChunkSHA256 c ++ Data c) as -> by congruence.
  assert (is_chunk c) as Hc by (apply Validate_spec; [apply Hok|done]). rewrite parse_fields by done.
  destruct (Z.eqb_spec (ShardSize c) MaxChunkDataSize) as [E|E].
  - rewrite E. change (u16 MaxChunkDataSize) with 0. cbv zeta. by rewrite Validate_ShardSize_zero.
  - assert (u16 (ShardSize c) = ShardSize c) as ->.
    { destruct Hc as (_ & _ & _ & _ & _ & H & _). unfold MaxChunkDataSize in *. apply u16_id. unfold_ints. lia. }
    assert (with_ShardSize c (ShardSize c) = c) as -> by (by destruct c). cbv zeta. rewrite Hv.
    by rewrite bool_decide_eq_true_2.
Qed.

Lemma chunk_roundtrip_witness :
  let c := encoded_chunk demo_payload 2 1 3 (the_data demo_payload 2 3) 2 in
  exists raw, MarshalBinary c = Ok raw /\ length raw = 101%nat /\ ParseEncodedChunk raw = Ok c.
Proof.
  eexists. split_and!; [vm_compute; reflexivity|vm_compute; reflexivity|].
  apply (chunk_roundtrip (encoded_chunk demo_payload 2 1 3 (the_data demo_payload 2 3) 2)); [decided|vm_compute; reflexivity..].
Defined.
