(* ===== verification/GoStr.v ===== *)
(** * Go strings, as [strings], [encoding/base64], [encoding/json] and [strconv] treat them

    A Go string is a [string] of bytes.  [TrimSpace], the unpadded URL-safe base64, the JSON
    string escapes and decimal numbers are the standard library's algorithms on its bytes;
    the lemmas say that base64 decodes what it encodes and that JSON strings and numbers
    are self-delimiting. *)

From S2P Require Import Prelude.
From Stdlib Require Import Ascii.

Definition byte_of (a : ascii) : Z := Z.of_N (N_of_ascii a).
Definition char_of (b : Z) : ascii := ascii_of_N (Z.to_N b).

Fixpoint bytes_of (s : string) : list Z :=
  match s with
  | EmptyString => []
  | String a s' => byte_of a :: bytes_of s'
  end.

Fixpoint str_of (b : list Z) : string :=
  match b with
  | [] => EmptyString
  | x :: b' => String (char_of x) (str_of b')
  end.

Lemma byte_of_u8 a : is_u8 (byte_of a).
Proof. unfold byte_of. pose proof (N_ascii_bounded a). unfold_ints. lia. Qed.

Lemma bytes_of_ok s : bytes_ok (bytes_of s).
Proof. induction s as [|a s IH]; constructor; auto using byte_of_u8. Qed.

Lemma str_of_bytes_of s : str_of (bytes_of s) = s.
Proof.
  induction s as [|a s IH]; [done|]. simpl. rewrite IH. f_equal. unfold char_of, byte_of.
  by rewrite N2Z.id, ascii_N_embedding.
Qed.

Lemma bytes_of_str_of b : bytes_ok b -> bytes_of (str_of b) = b.
Proof.
  induction 1 as [|x b Hx _ IH]; [done|]. simpl. rewrite IH. f_equal. unfold byte_of, char_of.
  rewrite N_ascii_embedding; [|unfold_ints; lia]. unfold_ints. lia.
Qed.

Lemma bytes_of_inj s t : bytes_of s = bytes_of t -> s = t.
Proof. intros H. by rewrite <- (str_of_bytes_of s), H, str_of_bytes_of. Qed.

Lemma bytes_of_app s t : bytes_of (s ++ t)%string = bytes_of s ++ bytes_of t.
Proof. induction s as [|a s IH]; [done|]. simpl. by rewrite IH. Qed.

(** [len(s)] *)
Definition slen (s : string) : Z := blen (bytes_of s).

(** [s == ""] *)
Definition is_empty (s : string) : bool := match s with EmptyString => true | _ => false end.

Lemma is_empty_false s : is_empty s = false <-> s <> "".
Proof. by destruct s. Qed.

Lemma is_empty_spec s : is_empty s = true <-> s = ""%string.
Proof. by destruct s. Qed.

(** ** The order of strings, [sort.Strings] *)

Definition str_lt (s t : string) : bool := String.ltb s t.
Definition str_le (s t : string) : Prop := String.leb s t = true.

#[export] Instance str_le_dec : RelDecision str_le.
Proof. intros s t. unfold str_le. apply _. Defined.

Lemma compare_ascii a b : Ascii.compare a b = (byte_of a ?= byte_of b).
Proof. unfold Ascii.compare, byte_of. symmetry. apply N2Z.inj_compare. Qed.

Lemma byte_of_inj a b : byte_of a = byte_of b -> a = b.
Proof. unfold byte_of. intros H%N2Z.inj. by rewrite <- (ascii_N_embedding a), H, ascii_N_embedding. Qed.

Lemma str_le_cons a s b t : str_le (String a s) (String b t) <-> byte_of a < byte_of b \/ (a = b /\ str_le s t).
Proof.
  unfold str_le, String.leb. simpl. rewrite compare_ascii. destruct (Z.compare_spec (byte_of a) (byte_of b)) as [H|H|H].
  - apply byte_of_inj in H as ->. split; [auto|]. intros [?|[_ ?]]; [lia|done].
  - split; auto.
  - split; [done|]. intros [?|[-> _]]; lia.
Qed.

#[export] Instance str_le_total : Total str_le.
Proof.
  intros s. induction s as [|a s IH]; intros [|b t]; [by left|by left|by right|].
  rewrite !str_le_cons. destruct (Z.lt_trichotomy (byte_of a) (byte_of b)) as [H|[H%byte_of_inj|H]]; [auto| |auto].
  subst b. destruct (IH t); auto.
Qed.

#[export] Instance str_le_trans : Transitive str_le.
Proof.
  intros s. induction s as [|a s IH]; intros [|b t] [|c u]; try done. rewrite !str_le_cons.
  intros [H1|[-> H1]] [H2|[-> H2]]; [left; lia|by left|by left|right; eauto].
Qed.

#[export] Instance str_le_antisymm : AntiSymm (=) str_le.
Proof.
  intros s. induction s as [|a s IH]; intros [|b t]; try done. rewrite !str_le_cons.
  intros [H1|[-> H1]] [H2|[H2 H3]]; [lia|subst; lia|lia|]. f_equal. by apply IH.
Qed.

Definition sort_strings (l : list string) : list string := merge_sort str_le l.

Lemma sort_strings_perm l : sort_strings l ≡ₚ l.
Proof. apply merge_sort_Permutation. Qed.

(** Sorting forgets the order. *)
Lemma sort_strings_eq l k : l ≡ₚ k -> sort_strings l = sort_strings k.
Proof.
  intros H. unfold sort_strings.
  apply (StronglySorted_unique str_le); [apply (StronglySorted_merge_sort str_le)..|].
  by rewrite !merge_sort_Permutation.
Qed.

(** ** [strings.TrimSpace] *)

(** The UTF-8 encodings of the runes [unicode.IsSpace] accepts. *)
Definition space_seqs : list (list Z) :=
  [[9]; [10]; [11]; [12]; [13]; [32]; [194; 133]; [194; 160]; [225; 154; 128]]
  ++ map (fun x => [226; 128; x]) [128; 129; 130; 131; 132; 133; 134; 135; 136; 137; 138; 168; 169; 175]
  ++ [[226; 129; 159]; [227; 128; 128]].

Fixpoint strip_prefix (p b : list Z) : option (list Z) :=
  match p, b with
  | [], _ => Some b
  | x :: p', y :: b' => if x =? y then strip_prefix p' b' else None
  | _, [] => None
  end.

Fixpoint strip_any (ps : list (list Z)) (b : list Z) : option (list Z) :=
  match ps with
  | [] => None
  | p :: ps' => match strip_prefix p b with Some r => Some r | None => strip_any ps' b end
  end.

(** Every turn drops a byte at least. *)
Fixpoint trim_front (fuel : nat) (ps : list (list Z)) (b : list Z) : list Z :=
  match fuel with
  | O => b
  | S fuel' => match strip_any ps b with Some r => trim_front fuel' ps r | None => b end
  end.

Definition trim_bytes (b : list Z) : list Z :=
  let b := trim_front (length b) space_seqs b in
  reverse (trim_front (length b) (map reverse space_seqs) (reverse b)).

Definition TrimSpace (s : string) : string := str_of (trim_bytes (bytes_of s)).

(** [strings.TrimSpace(s) == ""] *)
Definition is_blank (s : string) : bool := is_empty (TrimSpace s).

(** [strings.HasPrefix], [strings.TrimPrefix], [strings.Join] *)
Definition HasPrefix (s p : string) : bool := String.prefix p s.
Definition TrimPrefix (s p : string) : string :=
  if HasPrefix s p then str_of (drop (length (bytes_of p)) (bytes_of s)) else s.
Definition Join (l : list string) (sep : string) : string := String.concat sep l.

(** ** [base64.RawURLEncoding] *)

Definition b64_char (v : Z) : Z :=
  if v <? 26 then 65 + v else if v <? 52 then 71 + v else if v <? 62 then v - 4 else if v =? 62 then 45 else 95.

Definition b64_val (c : Z) : option Z :=
  if (65 <=? c) && (c <=? 90) then Some (c - 65)
  else if (97 <=? c) && (c <=? 122) then Some (c - 71)
  else if (48 <=? c) && (c <=? 57) then Some (c + 4)
  else if c =? 45 then Some 62 else if c =? 95 then Some 63 else None.

Fixpoint b64_enc (b : list Z) : list Z :=
  match b with
  | x :: y :: z :: b' =>
      b64_char (x / 4) :: b64_char (x mod 4 * 16 + y / 16) :: b64_char (y mod 16 * 4 + z / 64) :: b64_char (z mod 64)
      :: b64_enc b'
  | [x; y] => [b64_char (x / 4); b64_char (x mod 4 * 16 + y / 16); b64_char (y mod 16 * 4)]
  | [x] => [b64_char (x / 4); b64_char (x mod 4 * 16)]
  | [] => []
  end.

(** The bits left over in a last group are not looked at. *)
Fixpoint b64_quads (c : list Z) : option (list Z) :=
  match c with
  | p :: q :: r :: s :: c' =>
      p ← b64_val p; q ← b64_val q; r ← b64_val r; s ← b64_val s; rest ← b64_quads c';
      Some (p * 4 + q / 16 :: q mod 16 * 16 + r / 4 :: r mod 4 * 64 + s :: rest)
  | [p; q; r] => p ← b64_val p; q ← b64_val q; r ← b64_val r; Some [p * 4 + q / 16; q mod 16 * 16 + r / 4]
  | [p; q] => p ← b64_val p; q ← b64_val q; Some [p * 4 + q / 16]
  | [_] => None
  | [] => Some []
  end.

(** Line breaks are skipped wherever they are. *)
Definition b64_dec (c : list Z) : option (list Z) := b64_quads (filter (fun x => x <> 10 /\ x <> 13) c).

Definition EncodeToString (b : list Z) : string := str_of (b64_enc b).
Definition DecodeString (s : string) : option (list Z) := b64_dec (bytes_of s).

(** Every value of six bits has a character, which reads back. *)
Lemma b64_val_char v : 0 <= v < 64 -> b64_val (b64_char v) = Some v /\ b64_char v <> 10 /\ b64_char v <> 13.
Proof.
  intros Hv. apply (bool_decide_eq_true_1 (b64_val (b64_char v) = Some v /\ b64_char v <> 10 /\ b64_char v <> 13)). revert v Hv.
  apply (all_below (fun v => bool_decide (b64_val (b64_char v) = Some v /\ b64_char v <> 10 /\ b64_char v <> 13)) 64).
  vm_compute. reflexivity.
Qed.

Lemma group_ind (P : list Z -> Prop) :
  P [] -> (forall x, P [x]) -> (forall x y, P [x; y]) -> (forall x y z b, P b -> P (x :: y :: z :: b)) -> forall b, P b.
Proof.
  intros H0 H1 H2 H3. fix IH 1. intros [|x [|y [|z b]]]; [exact H0|exact (H1 x)|exact (H2 x y)|exact (H3 x y z b (IH b))].
Qed.

Lemma b64_parts x y : is_u8 x -> is_u8 y ->
  0 <= x / 4 < 64 /\ 0 <= x mod 4 * 16 < 64 /\ 0 <= x mod 4 * 16 + y / 16 < 64 /\ 0 <= y mod 16 * 4 < 64
  /\ 0 <= y mod 16 * 4 + x / 64 < 64 /\ 0 <= x mod 64 < 64.
Proof. unfold_ints. intros Hx Hy. Z.div_mod_to_equations. lia. Qed.

Lemma b64_enc_dec b : bytes_ok b -> b64_quads (b64_enc b) = Some b /\ Forall (fun x => x <> 10 /\ x <> 13) (b64_enc b).
Proof.
  induction b as [|x|x y|x y z b IH] using group_ind; intros Hb.
  - split; [done|constructor].
  - apply Forall_cons in Hb as [Hx _]. destruct (b64_parts x x Hx Hx) as (P1 & P2 & _).
    destruct (b64_val_char _ P1) as [V1 N1], (b64_val_char _ P2) as [V2 N2]. simpl. rewrite V1, V2. simpl.
    split; [|repeat constructor; tauto]. do 2 f_equal. unfold_ints. Z.div_mod_to_equations. lia.
  - apply Forall_cons in Hb as [Hx Hb]. apply Forall_cons in Hb as [Hy _].
    destruct (b64_parts x y Hx Hy) as (P1 & _ & P2 & P3 & _).
    destruct (b64_val_char _ P1) as [V1 N1], (b64_val_char _ P2) as [V2 N2], (b64_val_char _ P3) as [V3 N3].
    simpl. rewrite V1, V2, V3. simpl. split; [|repeat constructor; tauto].
    do 2 f_equal; [|f_equal]; unfold_ints; Z.div_mod_to_equations; lia.
  - apply Forall_cons in Hb as [Hx Hb]. apply Forall_cons in Hb as [Hy Hb]. apply Forall_cons in Hb as [Hz Hb].
    destruct (IH Hb) as [IH1 IH2]. destruct (b64_parts x y Hx Hy) as (P1 & _ & P2 & _).
    destruct (b64_parts z y Hz Hy) as (_ & _ & _ & _ & P3 & P4).
    destruct (b64_val_char _ P1) as [V1 N1], (b64_val_char _ P2) as [V2 N2], (b64_val_char _ P3) as [V3 N3], (b64_val_char _ P4) as [V4 N4].
    simpl. rewrite V1, V2, V3, V4. simpl. rewrite IH1. simpl. split; [|repeat constructor; tauto].
    do 2 f_equal; [|f_equal; [|f_equal]]; unfold_ints; Z.div_mod_to_equations; lia.
Qed.

Lemma b64_enc_ok b : bytes_ok b -> bytes_ok (b64_enc b).
Proof.
  assert (forall v, 0 <= v < 64 -> is_u8 (b64_char v)) as Hc.
  { intros v Hv. apply (bool_decide_eq_true_1 (is_u8 (b64_char v))). revert v Hv.
    apply (all_below (fun v => bool_decide (is_u8 (b64_char v))) 64). vm_compute. reflexivity. }
  induction b as [|x|x y|x y z b IH] using group_ind; intros Hb; simpl; repeat (apply Forall_cons in Hb as [? Hb]);
    repeat (constructor; [apply Hc; unfold_ints; Z.div_mod_to_equations; lia|]); try constructor. by apply IH.
Qed.

Lemma DecodeString_EncodeToString b : bytes_ok b -> DecodeString (EncodeToString b) = Some b.
Proof.
  intros Hb. unfold DecodeString, EncodeToString, b64_dec. rewrite bytes_of_str_of by by apply b64_enc_ok.
  destruct (b64_enc_dec b Hb) as [H1 H2]. by rewrite list_filter_all.
Qed.

Lemma EncodeToString_inj a b : bytes_ok a -> bytes_ok b -> EncodeToString a = EncodeToString b -> a = b.
Proof. intros Ha Hb H. apply (f_equal DecodeString) in H. rewrite !DecodeString_EncodeToString in H by done. congruence. Qed.

Lemma quad_ind (P : list Z -> Prop) :
  P [] -> (forall p, P [p]) -> (forall p q, P [p; q]) -> (forall p q r, P [p; q; r]) ->
  (forall p q r s c, P c -> P (p :: q :: r :: s :: c)) -> forall c, P c.
Proof.
  intros H0 H1 H2 H3 H4. fix IH 1.
  intros [|p [|q [|r [|s c]]]]; [exact H0|exact (H1 p)|exact (H2 p q)|exact (H3 p q r)|exact (H4 p q r s c (IH c))].
Qed.

Lemma b64_val_nonzero x v : b64_val x = Some v -> x <> 0.
Proof. intros Hx ->. done. Qed.

Lemma b64_quads_nonzero c r : b64_quads c = Some r -> Forall (fun x => x <> 0) c.
Proof.
  revert r. induction c as [|p|p q|p q t|p q t s c IH] using quad_ind; intros r; cbn [b64_quads]; try done.
  all: repeat match goal with |- (?o ≫= _) = _ -> _ => destruct o eqn:?; cbn [mbind option_bind]; [|done] end;
    intros _; repeat (constructor; [by eapply b64_val_nonzero|]); eauto.
Qed.

(** What decodes holds no NUL. *)
Lemma DecodeString_nonzero s b : DecodeString s = Some b -> Forall (fun x => x <> 0) (bytes_of s).
Proof.
  intros Hd%b64_quads_nonzero. apply Forall_forall. intros x Hx E. rewrite Forall_forall in Hd.
  apply (Hd x); [|done]. apply list_elem_of_filter. split; [lia|done].
Qed.

(** ** [encoding/json] *)

(** Length of the UTF-8 sequence at the head, 0 where [utf8.DecodeRune] finds none. *)
Definition rune_len (l : list Z) : Z :=
  let cont x := (128 <=? x) && (x <=? 191) in
  match l with
  | [] => 0
  | b0 :: r =>
      if b0 <? 128 then 1
      else if b0 <? 194 then 0
      else if b0 <? 224 then match r with b1 :: _ => if cont b1 then 2 else 0 | _ => 0 end
      else if b0 <? 240 then
        match r with
        | b1 :: b2 :: _ =>
            let lo := if b0 =? 224 then 160 else 128 in
            let hi := if b0 =? 237 then 159 else 191 in
            if (lo <=? b1) && (b1 <=? hi) && cont b2 then 3 else 0
        | _ => 0
        end
      else if b0 <? 245 then
        match r with
        | b1 :: b2 :: b3 :: _ =>
            let lo := if b0 =? 240 then 144 else 128 in
            let hi := if b0 =? 244 then 143 else 191 in
            if (lo <=? b1) && (b1 <=? hi) && cont b2 && cont b3 then 4 else 0
        | _ => 0
        end
      else 0
  end.

Definition hex_digit (v : Z) : Z := if v <? 10 then 48 + v else 87 + v.

(** One byte below 128, with the escapes of HTML characters. *)
Definition json_ascii (b : Z) : list Z :=
  if (b =? 34) || (b =? 92) then [92; b]
  else if b =? 8 then [92; 98] else if b =? 12 then [92; 102] else if b =? 10 then [92; 110]
  else if b =? 13 then [92; 114] else if b =? 9 then [92; 116]
  else if (b <? 32) || (b =? 60) || (b =? 62) || (b =? 38)
  then [92; 117; 48; 48; hex_digit (b / 16); hex_digit (b mod 16)]
  else [b].

(** The line and paragraph separators are escaped. *)
Definition json_rune3 (b0 b1 b2 : Z) : list Z :=
  if (b0 =? 226) && (b1 =? 128) && ((b2 =? 168) || (b2 =? 169))
  then [92; 117; 50; 48; 50; hex_digit (b2 - 160)]
  else [b0; b1; b2].

(** The inside of a JSON string; an invalid byte becomes the escape of U+FFFD. *)
Fixpoint json_chars (l : list Z) : list Z :=
  match l with
  | [] => []
  | b0 :: l1 =>
      if rune_len l =? 1 then json_ascii b0 ++ json_chars l1
      else if rune_len l =? 2 then match l1 with b1 :: l2 => b0 :: b1 :: json_chars l2 | _ => [] end
      else if rune_len l =? 3 then match l1 with b1 :: b2 :: l3 => json_rune3 b0 b1 b2 ++ json_chars l3 | _ => [] end
      else if rune_len l =? 4 then
        match l1 with b1 :: b2 :: b3 :: l4 => b0 :: b1 :: b2 :: b3 :: json_chars l4 | _ => [] end
      else [92; 117; 102; 102; 102; 100] ++ json_chars l1
  end.

Definition json_string (s : string) : list Z := [34] ++ json_chars (bytes_of s) ++ [34].

(** [strconv.Itoa] of a number that is not negative, up to 40 digits. *)
Fixpoint dec_digits (fuel : nat) (x : Z) (acc : list Z) : list Z :=
  match fuel with
  | O => acc
  | S fuel' => if x <? 10 then 48 + x :: acc else dec_digits fuel' (x / 10) (48 + x mod 10 :: acc)
  end.

Definition json_int (x : Z) : list Z := if x <? 0 then 45 :: dec_digits 40 (- x) [] else dec_digits 40 x [].

Definition comma_separated (l : list (list Z)) : list Z :=
  match l with
  | [] => []
  | x :: l' => x ++ concat (map (fun y => 44 :: y) l')
  end.

(** A nil slice is null. *)
Definition json_strings (l : option (list string)) : list Z :=
  match l with
  | None => [110; 117; 108; 108]
  | Some l => [91] ++ comma_separated (map json_string l) ++ [93]
  end.

(** ** Valid UTF-8 strings are written without loss *)

Fixpoint valid_utf8 (fuel : nat) (l : list Z) : bool :=
  match fuel, l with
  | _, [] => true
  | O, _ => false
  | S fuel', _ => let n := rune_len l in if n =? 0 then false else valid_utf8 fuel' (drop (Z.to_nat n) l)
  end.

Definition valid_string (s : string) : Prop := valid_utf8 (length (bytes_of s)) (bytes_of s) = true.

#[export] Instance valid_string_dec s : Decision (valid_string s).
Proof. unfold valid_string. apply _. Defined.

Definition unhex (c : Z) : Z := if c <? 97 then c - 48 else c - 87.

(** Reads the inside of a JSON string up to its closing quote. *)
Fixpoint unjson (l : list Z) : option (list Z * list Z) :=
  match l with
  | [] => None
  | b :: r =>
      if b =? 34 then Some ([], r)
      else if b =? 92 then
        match r with
        | c :: r1 =>
            if c =? 117 then
              match r1 with
              | h3 :: h2 :: h1 :: h0 :: r2 =>
                  '(s, t) ← unjson r2;
                  if h3 =? 48 then Some (unhex h1 * 16 + unhex h0 :: s, t) else Some (226 :: 128 :: 160 + unhex h0 :: s, t)
              | _ => None
              end
            else
              '(s, t) ← unjson r1;
              Some ((if c =? 98 then 8 else if c =? 102 then 12 else if c =? 110 then 10 else if c =? 114 then 13
                     else if c =? 116 then 9 else c) :: s, t)
        | [] => None
        end
      else '(s, t) ← unjson r; Some (b :: s, t)
  end.

Definition pushes (bs code : list Z) : Prop :=
  forall t, unjson (code ++ t) = '(s, r) ← unjson t; Some (bs ++ s, r).

Lemma pushes_app bs cs c1 c2 : pushes bs c1 -> pushes cs c2 -> pushes (bs ++ cs) (c1 ++ c2).
Proof.
  intros H1 H2 t. rewrite <- app_assoc, H1, H2. destruct (unjson t) as [[s r]|]; [|done]. simpl. by rewrite app_assoc.
Qed.

Lemma pushes_raw b : b <> 34 -> b <> 92 -> pushes [b] [b].
Proof. intros H1 H2 t. simpl. by rewrite (proj2 (Z.eqb_neq b 34)), (proj2 (Z.eqb_neq b 92)). Qed.

Lemma pushes_raws l : Forall (fun b => b <> 34 /\ b <> 92) l -> pushes l l.
Proof.
  induction 1 as [|b l [H1 H2] _ IH]; [intros t; simpl; by destruct (unjson t) as [[]|]|].
  apply (pushes_app [b] l [b] l); [by apply pushes_raw|done].
Qed.

Lemma pushes_ascii b : 0 <= b < 128 -> pushes [b] (json_ascii b).
Proof.
  intros Hb. assert (Forall (fun b => pushes [b] (json_ascii b)) (map Z.of_nat (seq 0 128))) as H.
  { repeat (constructor; [intros t; reflexivity|]). constructor. }
  rewrite Forall_forall in H. apply H. change (map ?f ?l) with (f <$> l). apply list_elem_of_fmap.
  exists (Z.to_nat b). rewrite elem_of_seq. lia.
Qed.

Lemma pushes_rune3 b0 b1 b2 : 128 <= b0 -> 128 <= b1 -> 128 <= b2 -> pushes [b0; b1; b2] (json_rune3 b0 b1 b2).
Proof.
  intros H0 H1 H2. unfold json_rune3. destruct (_ && _) eqn:E; [|apply pushes_raws; repeat constructor; lia].
  apply andb_true_iff in E as [[E0%Z.eqb_eq E1%Z.eqb_eq]%andb_true_iff E2]. subst b0 b1.
  apply orb_true_iff in E2 as [->%Z.eqb_eq| ->%Z.eqb_eq]; intros t; reflexivity.
Qed.

(** What [rune_len] says of the bytes it covers. *)
Lemma rune_len_cases l : bytes_ok l ->
  (rune_len l = 0)
  \/ (exists b r, l = b :: r /\ 0 <= b < 128 /\ rune_len l = 1)
  \/ (exists b0 b1 r, l = b0 :: b1 :: r /\ 128 <= b0 /\ 128 <= b1 /\ rune_len l = 2)
  \/ (exists b0 b1 b2 r, l = b0 :: b1 :: b2 :: r /\ 128 <= b0 /\ 128 <= b1 /\ 128 <= b2 /\ rune_len l = 3)
  \/ (exists b0 b1 b2 b3 r, l = b0 :: b1 :: b2 :: b3 :: r /\ 128 <= b0 /\ 128 <= b1 /\ 128 <= b2 /\ 128 <= b3 /\ rune_len l = 4).
Proof.
  intros Hb. destruct l as [|b0 r]; [by left|]. apply Forall_cons in Hb as [Hb0 _]. unfold is_u8 in Hb0.
  unfold rune_len. destruct (Z.ltb_spec b0 128).
  { right; left. exists b0, r. split_and!; try done; lia. }
  destruct (b0 <? 194); [by left|]. destruct (b0 <? 224).
  { destruct r as [|b1 r]; [by left|]. destruct (_ && _) eqn:E; [|by left]. apply andb_true_iff in E as [E%Z.leb_le _].
    right; right; left. exists b0, b1, r. split_and!; try done; lia. }
  destruct (b0 <? 240).
  { destruct r as [|b1 [|b2 r]]; [by left..|]. destruct (_ && _ && _) eqn:E; [|by left].
    rewrite !andb_true_iff, !Z.leb_le in E. destruct E as [[E1 _] [E2 _]]. right; right; right; left. exists b0, b1, b2, r.
    split_and!; try done; try lia. destruct (b0 =? 224); lia. }
  destruct (b0 <? 245); [|by left].
  destruct r as [|b1 [|b2 [|b3 r]]]; [by left..|]. destruct (_ && _ && _ && _) eqn:E; [|by left].
  rewrite !andb_true_iff, !Z.leb_le in E. destruct E as [[[E1 _] [E2 _]] [E3 _]]. do 4 right. exists b0, b1, b2, b3, r.
  split_and!; try done; try lia. destruct (b0 =? 240); lia.
Qed.

Lemma json_chars_pushes fuel l : bytes_ok l -> valid_utf8 fuel l = true -> pushes l (json_chars l).
Proof.
  revert l. induction fuel as [|fuel IH]; intros l Hb Hv.
  { destruct l; [|done]. intros t. simpl. by destruct (unjson t) as [[]|]. }
  destruct l as [|b0 r]; [intros t; simpl; by destruct (unjson t) as [[]|]|].
  cbn [valid_utf8] in Hv.
  destruct (rune_len_cases _ Hb) as [E|[(b & r' & E & Hr & El)|[(x0 & x1 & r' & E & ? & ? & El)
    |[(x0 & x1 & x2 & r' & E & ? & ? & ? & El)|(x0 & x1 & x2 & x3 & r' & E & ? & ? & ? & ? & El)]]]].
  - by rewrite E in Hv.
  - rewrite El in Hv. injection E as -> ->. cbn [json_chars]. rewrite El. apply Forall_cons in Hb as [_ Hb].
    apply (pushes_app [b] r'); [by apply pushes_ascii|]. by apply IH.
  - rewrite El in Hv. injection E as -> ->. cbn [json_chars]. rewrite El. do 2 apply Forall_cons in Hb as [_ Hb].
    apply (pushes_app [x0; x1] r' [x0; x1]); [apply pushes_raws; repeat constructor; lia|]. by apply IH.
  - rewrite El in Hv. injection E as -> ->. cbn [json_chars]. rewrite El. do 3 apply Forall_cons in Hb as [_ Hb].
    apply (pushes_app [x0; x1; x2] r'); [by apply pushes_rune3|]. by apply IH.
  - rewrite El in Hv. injection E as -> ->. cbn [json_chars]. rewrite El. do 4 apply Forall_cons in Hb as [_ Hb].
    apply (pushes_app [x0; x1; x2; x3] r' [x0; x1; x2; x3]); [apply pushes_raws; repeat constructor; lia|]. by apply IH.
Qed.

(** A JSON string ends where it ends: what follows does not matter. *)
Lemma json_string_prefix s t r q :
  valid_string s -> valid_string t -> json_string s ++ r = json_string t ++ q -> s = t /\ r = q.
Proof.
  intros Hs Ht H. unfold json_string in H. rewrite <- !app_assoc in H. injection H as H.
  apply (f_equal unjson) in H. rewrite (json_chars_pushes _ _ (bytes_of_ok s) Hs), (json_chars_pushes _ _ (bytes_of_ok t) Ht) in H.
  simpl in H. rewrite !app_nil_r in H. injection H as H1 H2. split; [by apply bytes_of_inj|done].
Qed.

Fixpoint read_digits (v : Z) (l : list Z) : Z * list Z :=
  match l with
  | c :: r => if (48 <=? c) && (c <=? 57) then read_digits (v * 10 + (c - 48)) r else (v, l)
  | [] => (v, [])
  end.

Definition no_digit (l : list Z) : Prop := match l with c :: _ => c < 48 \/ 57 < c | [] => True end.

Lemma read_no_digit v l : no_digit l -> read_digits v l = (v, l).
Proof.
  destruct l as [|c l]; [done|]. simpl. intros H. destruct (Z.leb_spec 48 c), (Z.leb_spec c 57); simpl; try done; lia.
Qed.

Lemma dec_digits_read fuel x acc v : 0 <= x < 10 ^ Z.of_nat fuel ->
  exists k, 0 <= k /\ x < 10 ^ k /\ read_digits v (dec_digits fuel x acc) = read_digits (v * 10 ^ k + x) acc.
Proof.
  revert x acc v. induction fuel as [|fuel IH]; intros x acc v Hx.
  { exists 0. change (10 ^ Z.of_nat 0) with 1 in Hx. change (10 ^ 0) with 1. split_and!; [lia|lia|].
    cbn [dec_digits]. f_equal. lia. }
  cbn [dec_digits]. destruct (Z.ltb_spec x 10).
  - exists 1. split_and!; [lia|lia|]. cbn [read_digits].
    rewrite (proj2 (Z.leb_le 48 (48 + x))), (proj2 (Z.leb_le (48 + x) 57)) by lia. simpl. f_equal. lia.
  - rewrite Nat2Z.inj_succ, Z.pow_succ_r in Hx by lia.
    destruct (IH (x / 10) (48 + x mod 10 :: acc) v) as (k & Hk & Hlt & ->).
    { split; [apply Z.div_pos; lia|apply Z.div_lt_upper_bound; lia]. }
    pose proof (Z.mod_pos_bound x 10 ltac:(lia)). pose proof (Z.div_mod x 10 ltac:(lia)).
    exists (k + 1). rewrite Z.pow_add_r, Z.pow_1_r by lia. split_and!; [lia|lia|]. cbn [read_digits].
    rewrite (proj2 (Z.leb_le 48 (48 + x mod 10))), (proj2 (Z.leb_le (48 + x mod 10) 57)) by lia. simpl. f_equal. lia.
Qed.

Lemma dec_digits_app fuel x acc r : dec_digits fuel x acc ++ r = dec_digits fuel x (acc ++ r).
Proof. revert x acc. induction fuel as [|fuel IH]; intros x acc; [done|]. simpl. destruct (x <? 10); [done|]. by rewrite IH. Qed.

Lemma dec_digits_head fuel x acc : 0 <= x -> (fuel > 0)%nat -> exists c r, dec_digits fuel x acc = c :: r /\ 48 <= c <= 57.
Proof.
  revert x acc. induction fuel as [|fuel IH]; intros x acc Hx Hf; [lia|]. simpl. destruct (Z.ltb_spec x 10).
  - exists (48 + x), acc. split; [done|lia].
  - pose proof (Z.mod_pos_bound x 10 ltac:(lia)). destruct fuel as [|fuel]; [simpl; eexists _, _; split; [done|lia]|].
    apply IH; [apply Z.div_pos; lia|lia].
Qed.

#[local] Opaque dec_digits.

Definition json_range (x : Z) : Prop := - 10 ^ 40 < x < 10 ^ 40.

Lemma json_nat_prefix x y r q : 0 <= x < 10 ^ 40 -> 0 <= y < 10 ^ 40 -> no_digit r -> no_digit q ->
  dec_digits 40 x [] ++ r = dec_digits 40 y [] ++ q -> x = y /\ r = q.
Proof.
  intros Hx Hy Hr Hq H. rewrite !dec_digits_app, !app_nil_l in H. apply (f_equal (read_digits 0)) in H.
  destruct (dec_digits_read 40 x r 0 Hx) as (k1 & _ & _ & E1), (dec_digits_read 40 y q 0 Hy) as (k2 & _ & _ & E2).
  rewrite E1, E2, !read_no_digit in H by done. injection H as H1 H2. split; [lia|done].
Qed.

(** A number ends where its digits end. *)
Lemma json_int_prefix x y r q : json_range x -> json_range y -> no_digit r -> no_digit q ->
  json_int x ++ r = json_int y ++ q -> x = y /\ r = q.
Proof.
  unfold json_range, json_int. intros Hx Hy Hr Hq.
  destruct (Z.ltb_spec x 0), (Z.ltb_spec y 0); intros E.
  - cbn [app] in E. assert (dec_digits 40 (- x) [] ++ r = dec_digits 40 (- y) [] ++ q) as E' by congruence.
    apply json_nat_prefix in E'; [|lia..|done|done]. split; [lia|tauto].
  - destruct (dec_digits_head 40 y [] ltac:(lia) ltac:(lia)) as (c & t & Ec & Hc). rewrite Ec in E. cbn [app] in E. assert (45 = c) by congruence. lia.
  - destruct (dec_digits_head 40 x [] ltac:(lia) ltac:(lia)) as (c & t & Ec & Hc). rewrite Ec in E. cbn [app] in E. assert (c = 45) by congruence. lia.
  - apply json_nat_prefix in E; [done|lia..|done|done].
Qed.

Lemma cons_tail (x : Z) l k : x :: l = x :: k -> l = k.
Proof. by intros [=]. Qed.

Lemma comma_tail_prefix l k r q : Forall valid_string l -> Forall valid_string k ->
  concat (map (fun y => 44 :: y) (map json_string l)) ++ 93 :: r = concat (map (fun y => 44 :: y) (map json_string k)) ++ 93 :: q ->
  l = k /\ r = q.
Proof.
  intros Hl. revert k. induction Hl as [|s l Hs _ IH]; intros k Hk; destruct Hk as [|t k Ht Hk]; cbn [map concat].
  - intros [=]. done.
  - done.
  - done.
  - rewrite <- !app_assoc. cbn [app]. intros H. apply cons_tail, json_string_prefix in H as [-> H]; [|done..].
    apply IH in H as [-> ->]; done.
Qed.

Lemma json_strings_prefix l k r q :
  Forall valid_string (default [] l) -> Forall valid_string (default [] k) -> json_strings l ++ r = json_strings k ++ q -> l = k /\ r = q.
Proof.
  destruct l as [l|], k as [k|]; simpl; intros Hl Hk H; try done.
  - rewrite <- !app_assoc in H. cbn [app] in H. apply cons_tail in H.
    destruct Hl as [|s l Hs Hl], Hk as [|t k Ht Hk]; cbn [map comma_separated] in H.
    + cbn [app] in H. apply cons_tail in H. by subst.
    + done.
    + done.
    + rewrite <- !app_assoc in H. apply json_string_prefix in H as [-> H]; [|done..].
      apply (comma_tail_prefix l k) in H as [-> ->]; done.
  - injection H as ->. by split.
Qed.

(** ** Objects and maps as JSON *)

Definition json_object (fields : list (string * list Z)) : list Z :=
  [123] ++ comma_separated (map (fun f => json_string f.1 ++ [58] ++ f.2) fields) ++ [125].

(** The keys of a map in the order [encoding/json] writes them. *)
Definition sorted_keys {A} (m : gmap string A) : list string := sort_strings (map fst (map_to_list m)).

Definition json_map {A} (enc : A -> list Z) (m : gmap string A) : list Z :=
  json_object (omap (fun k => (fun v => (k, enc v)) <$> m !! k) (sorted_keys m)).

(** A nil slice or map is null. *)
Definition json_null : list Z := [110; 117; 108; 108].
Definition json_list {A} (enc : A -> list Z) (l : list A) : list Z := [91] ++ comma_separated (map enc l) ++ [93].

(** A field with [omitempty]. *)
Definition omit_empty (name s : string) : list (string * list Z) := if is_empty s then [] else [(name, json_string s)].
Definition omit_zero (name : string) (x : Z) : list (string * list Z) := if x =? 0 then [] else [(name, json_int x)].

(** ** Reading an object field by field *)

Lemma field_prefix (name : string) (v w r q : list Z) :
  (json_string name ++ [58] ++ v) ++ r = (json_string name ++ [58] ++ w) ++ q -> v ++ r = w ++ q.
Proof. rewrite <- !app_assoc. intros H%app_inv_head. cbn [app] in H. by apply cons_tail in H. Qed.

Lemma comma_cons x y l r : comma_separated (x :: y :: l) ++ r = x ++ 44 :: (comma_separated (y :: l) ++ r).
Proof. unfold comma_separated. cbn [map concat]. by rewrite <- !app_assoc. Qed.

(** The next field, past its comma. *)
Ltac next_field H prefix :=
  apply field_prefix in H; apply prefix in H as [? H];
    [|first [done | unfold json_range; unfold_ints; lia | simpl; lia]..]; apply cons_tail in H; try rewrite !comma_cons in H.

(** ** Strings without spaces are not trimmed *)

Definition printable (x : Z) : Prop := 33 <= x <= 127.

#[export] Instance printable_dec x : Decision (printable x).
Proof. unfold printable. apply _. Defined.

(** A sequence whose first byte is not printable. *)
Definition no_print (p : list Z) : bool := match p with [] => false | x :: _ => (x <? 33) || (127 <? x) end.

Lemma trim_front_printable fuel ps b : forallb no_print ps = true -> Forall printable b -> trim_front fuel ps b = b.
Proof.
  intros Hps Hb. destruct fuel as [|fuel]; [done|]. cbn [trim_front]. assert (strip_any ps b = None) as ->; [|done].
  induction ps as [|p ps IH]; [done|]. cbn [forallb] in Hps. apply andb_true_iff in Hps as [Hp Hps].
  cbn [strip_any]. rewrite IH by done. destruct p as [|x p]; [done|].
  destruct Hb as [|y b Hy Hb]; [done|]. cbn [strip_prefix]. destruct (Z.eqb_spec x y) as [->|]; [|done].
  unfold printable in Hy. cbn [no_print] in Hp. lia.
Qed.

Lemma TrimSpace_printable s : Forall printable (bytes_of s) -> TrimSpace s = s.
Proof.
  intros Hs. unfold TrimSpace, trim_bytes. rewrite (trim_front_printable _ space_seqs) by (done || by vm_compute).
  rewrite trim_front_printable, reverse_involutive, str_of_bytes_of; [done|by vm_compute|by apply Forall_reverse].
Qed.

Lemma b64_enc_printable b : bytes_ok b -> Forall printable (b64_enc b).
Proof.
  assert (forall v, 0 <= v < 64 -> printable (b64_char v)) as Hc.
  { intros v Hv. apply (bool_decide_eq_true_1 (33 <= b64_char v <= 127)). revert v Hv.
    apply (all_below (fun v => bool_decide (33 <= b64_char v <= 127)) 64). vm_compute. reflexivity. }
  induction b as [|x|x y|x y z b IH] using group_ind; intros Hb; simpl; repeat (apply Forall_cons in Hb as [? Hb]);
    repeat (constructor; [apply Hc; unfold_ints; Z.div_mod_to_equations; lia|]); try constructor. by apply IH.
Qed.

Lemma EncodeToString_printable b : bytes_ok b -> Forall printable (bytes_of (EncodeToString b)).
Proof. intros Hb. unfold EncodeToString. rewrite bytes_of_str_of by by apply b64_enc_ok. by apply b64_enc_printable. Qed.

(** ** Trimming twice is trimming once *)

Definition cons_seq (p : list Z) : bool := match p with [] => false | _ => true end.

Lemma strip_prefix_Some p b r : strip_prefix p b = Some r <-> b = p ++ r.
Proof.
  revert b. induction p as [|x p IH]; intros b; simpl; [split; congruence|].
  destruct b as [|y b]; [by split|]. destruct (Z.eqb_spec x y) as [->|Hn]; [rewrite IH; split; [by intros ->|by intros [= ->]]|].
  split; [done|congruence].
Qed.

Lemma strip_any_None ps b : strip_any ps b = None <-> forall p, p ∈ ps -> strip_prefix p b = None.
Proof.
  induction ps as [|p ps IH]; simpl; [split; [intros _ ? []%elem_of_nil|done]|].
  destruct (strip_prefix p b) eqn:E; [split; [done|intros Hp; by rewrite (Hp p) in E by left]|].
  rewrite IH. split; [intros Hp q [->|Hq]%elem_of_cons; [done|by apply Hp]|intros Hp q Hq; apply Hp; by right].
Qed.

Lemma strip_any_suffix ps b r : strip_any ps b = Some r -> exists p, p ∈ ps /\ b = p ++ r.
Proof.
  induction ps as [|p ps IH]; simpl; [done|]. destruct (strip_prefix p b) eqn:E.
  - intros [= <-]. exists p. split; [by left|]. by apply strip_prefix_Some.
  - intros (q & Hq & Hb)%IH. exists q. split; [by right|done].
Qed.

(** What is left is a suffix that starts with no sequence of the list. *)
Lemma trim_front_spec fuel ps b : forallb cons_seq ps = true -> (length b <= fuel)%nat ->
  exists t, b = t ++ trim_front fuel ps b /\ strip_any ps (trim_front fuel ps b) = None.
Proof.
  intros Hps. revert b. induction fuel as [|fuel IH]; intros b Hl; cbn [trim_front].
  { destruct b; [|simpl in Hl; lia]. exists []. split; [done|]. apply strip_any_None. intros p Hp.
    rewrite forallb_true, Forall_forall in Hps. specialize (Hps p Hp). by destruct p. }
  destruct (strip_any ps b) as [r|] eqn:E; [|by exists []].
  apply strip_any_suffix in E as (p & Hp & ->). rewrite forallb_true, Forall_forall in Hps. specialize (Hps p Hp).
  destruct p as [|x p]; [done|]. destruct (IH r) as (t & Hr & Hn); [rewrite length_app in Hl; simpl in Hl; lia|].
  exists ((x :: p) ++ t). split; [by rewrite <- app_assoc, <- Hr|done].
Qed.

Lemma trim_front_stop fuel ps b : strip_any ps b = None -> trim_front fuel ps b = b.
Proof. intros Hn. destruct fuel; [done|]. simpl. by rewrite Hn. Qed.

Lemma strip_any_app ps b t : strip_any ps (b ++ t) = None -> strip_any ps b = None.
Proof.
  rewrite !strip_any_None. intros Hn p Hp. specialize (Hn p Hp). destruct (strip_prefix p b) as [r|] eqn:E; [|done].
  apply strip_prefix_Some in E as ->. rewrite <- app_assoc in Hn. by rewrite (proj2 (strip_prefix_Some p _ (r ++ t))) in Hn.
Qed.

Lemma trim_bytes_spec b : exists s t, b = s ++ trim_bytes b ++ t /\ strip_any space_seqs (trim_bytes b) = None
  /\ strip_any (map reverse space_seqs) (reverse (trim_bytes b)) = None.
Proof.
  unfold trim_bytes. destruct (trim_front_spec (length b) space_seqs b) as (s & Hs & Hn); [by vm_compute|done|].
  set (c := trim_front (length b) space_seqs b) in *.
  destruct (trim_front_spec (length c) (map reverse space_seqs) (reverse c)) as (t & Ht & Hm); [by vm_compute|by rewrite length_reverse|].
  set (d := trim_front (length c) _ (reverse c)) in *. assert (c = reverse d ++ reverse t) as Hc by by rewrite <- reverse_app, <- Ht, reverse_involutive.
  exists s, (reverse t). split; [by rewrite <- Hc|]. rewrite reverse_involutive. split; [|done].
  rewrite Hc in Hn. by apply strip_any_app in Hn.
Qed.

Lemma trim_bytes_idemp b : trim_bytes (trim_bytes b) = trim_bytes b.
Proof.
  destruct (trim_bytes_spec b) as (_ & _ & _ & Hn & Hm). unfold trim_bytes at 1.
  rewrite (trim_front_stop _ space_seqs) by done. by rewrite trim_front_stop, reverse_involutive.
Qed.

Lemma trim_bytes_Forall (P : Z -> Prop) b : Forall P b -> Forall P (trim_bytes b).
Proof. destruct (trim_bytes_spec b) as (s & t & E & _). rewrite E at 1. rewrite !Forall_app. tauto. Qed.

Lemma bytes_of_TrimSpace s : bytes_of (TrimSpace s) = trim_bytes (bytes_of s).
Proof. apply bytes_of_str_of, trim_bytes_Forall, bytes_of_ok. Qed.

Lemma TrimSpace_idemp s : TrimSpace (TrimSpace s) = TrimSpace s.
Proof. unfold TrimSpace at 1. by rewrite bytes_of_TrimSpace, trim_bytes_idemp. Qed.

Lemma printable_valid s : Forall printable (bytes_of s) -> valid_string s.
Proof.
  unfold valid_string. induction 1 as [|c l Hc Hl IH]; [done|]. cbn [length valid_utf8]. unfold printable in Hc.
  assert (rune_len (c :: l) = 1) as -> by (unfold rune_len; destruct (Z.ltb_spec c 128); [done|lia]). exact IH.
Qed.

Lemma HasPrefix_app p s : HasPrefix (p ++ s)%string p = true.
Proof. unfold HasPrefix. induction p as [|c p IH]; [by destruct s|]. simpl. by destruct (ascii_dec c c). Qed.

Lemma TrimPrefix_app p s : TrimPrefix (p ++ s)%string p = s.
Proof. unfold TrimPrefix. by rewrite HasPrefix_app, bytes_of_app, drop_app_length, str_of_bytes_of. Qed.

Lemma strip_any_head ps x b : forallb no_print ps = true -> printable x -> strip_any ps (x :: b) = None.
Proof.
  intros Hps Hx. apply strip_any_None. intros p Hp. rewrite forallb_true, Forall_forall in Hps. specialize (Hps p Hp).
  destruct p as [|y p]; [done|]. cbn [strip_prefix]. destruct (Z.eqb_spec y x) as [->|]; [|done]. cbn [no_print] in Hps. unfold printable in Hx. lia.
Qed.

(** A text that starts and ends with printable characters is not trimmed. *)
Lemma TrimSpace_ends s x b y c : bytes_of s = x :: b -> bytes_of s = c ++ [y] -> printable x -> printable y -> TrimSpace s = s.
Proof.
  intros Hb Hc Hx Hy. unfold TrimSpace, trim_bytes.
  rewrite (trim_front_stop _ space_seqs) by (rewrite Hb; apply strip_any_head; [by vm_compute|done]).
  rewrite trim_front_stop, reverse_involutive, str_of_bytes_of; [done|]. rewrite Hc, reverse_app. cbn [reverse app].
  apply strip_any_head; [by vm_compute|done].
Qed.

(** ** A blank string decodes to nothing *)

Lemma trim_front_cut (P : Z -> Prop) fuel ps b : Forall (Forall P) ps -> exists t, b = t ++ trim_front fuel ps b /\ Forall P t.
Proof.
  intros Hps. revert b. induction fuel as [|fuel IH]; intros b; cbn [trim_front]; [by exists []|].
  destruct (strip_any ps b) as [r|] eqn:E; [|by exists []]. apply strip_any_suffix in E as (p & Hp & ->). destruct (IH r) as (t & Hr & Ht).
  exists (p ++ t). split; [by rewrite <- app_assoc, <- Hr|]. apply Forall_app. split; [|done]. rewrite Forall_forall in Hps. by apply Hps.
Qed.

Lemma trim_bytes_nil (P : Z -> Prop) b : Forall (Forall P) space_seqs -> trim_bytes b = [] -> Forall P b.
Proof.
  intros Hps. unfold trim_bytes. destruct (trim_front_cut P (length b) space_seqs b Hps) as (s & Hs & Hp).
  set (c := trim_front (length b) space_seqs b) in *.
  destruct (trim_front_cut P (length c) (map reverse space_seqs) (reverse c)) as (t & Ht & Hpt).
  { apply Forall_map. eapply Forall_impl; [exact Hps|]. intros p Hpp. by apply Forall_reverse. }
  intros E. apply (f_equal reverse) in E. rewrite reverse_involutive in E. rewrite E, app_nil_r in Ht.
  rewrite Hs. apply Forall_app. split; [done|]. rewrite <- (reverse_involutive c), Ht. by apply Forall_reverse.
Qed.

Lemma blank_decodes_empty s b : is_blank s = true -> DecodeString s = Some b -> b = [].
Proof.
  unfold is_blank. rewrite is_empty_spec. intros Hs. assert (trim_bytes (bytes_of s) = []) as Ht by (rewrite <- bytes_of_TrimSpace, Hs; done).
  apply (trim_bytes_nil (fun x => b64_val x = None)) in Ht; [|repeat constructor].
  unfold DecodeString, b64_dec. assert (Forall (fun x => b64_val x = None) (filter (fun x => x <> 10 /\ x <> 13) (bytes_of s))) as Hf.
  { apply Forall_forall. intros x [_ Hx]%list_elem_of_filter. rewrite Forall_forall in Ht. by apply Ht. }
  destruct (filter _ _) as [|p [|q [|r [|t c]]]]; cbn [b64_quads]; [by intros [= <-]|done|..]; apply Forall_cons in Hf as [-> _]; done.
Qed.

(** ** JSON text consists of bytes *)

Lemma json_ascii_ok b : is_u8 b -> bytes_ok (json_ascii b).
Proof.
  intros Hb. unfold json_ascii, hex_digit, bytes_ok. unfold_ints.
  repeat match goal with |- context [if ?c then _ else _] => destruct c end; repeat (apply Forall_cons_2; [Z.div_mod_to_equations; lia|]); constructor.
Qed.

Lemma json_chars_ok n l : (length l <= n)%nat -> bytes_ok l -> bytes_ok (json_chars l).
Proof.
  revert l. induction n as [|n IH]; intros l Hl Hb; [destruct l; [constructor|simpl in Hl; lia]|].
  destruct l as [|b0 l]; [constructor|]. cbn [length] in Hl. apply Forall_cons in Hb as [H0 Hb].
  assert (bytes_ok (json_chars l)) as Hrest by (apply IH; [lia|done]).
  cbn [json_chars]. destruct (rune_len (b0 :: l) =? 1); [apply Forall_app; split; [by apply json_ascii_ok|done]|].
  destruct l as [|b1 l]; [repeat match goal with |- context [if ?c then _ else _] => destruct c end; decided|]. cbn [length] in Hl. apply Forall_cons in Hb as [H1 Hb].
  destruct (rune_len _ =? 2); [apply Forall_cons; split; [done|]; apply Forall_cons; split; [done|apply IH; [lia|done]]|].
  destruct l as [|b2 l]; [repeat match goal with |- context [if ?c then _ else _] => destruct c end; try apply Forall_app; try split; first [decided|exact Hrest]|].
  cbn [length] in Hl. apply Forall_cons in Hb as [H2 Hb].
  destruct (rune_len _ =? 3).
  { apply Forall_app. split; [|apply IH; [lia|done]]. unfold json_rune3, hex_digit. unfold_ints.
    repeat match goal with |- context [if ?c then _ else _] => destruct c eqn:? end; repeat (apply Forall_cons_2; [unfold_ints; lia|]); constructor. }
  destruct l as [|b3 l]; [repeat match goal with |- context [if ?c then _ else _] => destruct c end; try apply Forall_app; try split; first [decided|exact Hrest]|].
  cbn [length] in Hl. apply Forall_cons in Hb as [H3 Hb].
  destruct (rune_len _ =? 4).
  { do 4 (apply Forall_cons; split; [done|]). apply IH; [lia|done]. }
  apply Forall_app. split; [decided|exact Hrest].
Qed.

Lemma json_string_ok s : bytes_ok (json_string s).
Proof.
  unfold json_string. apply Forall_app. split; [decided|]. apply Forall_app. split; [|decided]. apply (json_chars_ok (length (bytes_of s))); [done|apply bytes_of_ok].
Qed.

Lemma dec_digits_ok fuel x acc : 0 <= x -> bytes_ok acc -> bytes_ok (dec_digits fuel x acc).
Proof.
  revert x acc. induction fuel as [|fuel IH]; intros x acc Hx Ha; cbn [dec_digits]; [done|]. destruct (Z.ltb_spec x 10).
  - constructor; [unfold_ints; lia|done].
  - apply IH; [apply Z.div_pos; lia|]. constructor; [pose proof (Z.mod_pos_bound x 10); unfold_ints; lia|done].
Qed.

Lemma json_int_ok x : bytes_ok (json_int x).
Proof. unfold json_int. destruct (Z.ltb_spec x 0); [constructor; [by decided|]|]; apply dec_digits_ok; (lia || constructor). Qed.

Lemma comma_separated_ok l : Forall bytes_ok l -> bytes_ok (comma_separated l).
Proof.
  intros Hl. destruct Hl as [|x l Hx Hl]; [constructor|]. cbn [comma_separated]. apply Forall_app. split; [done|].
  induction Hl as [|y l Hy Hl IH]; cbn [map concat]; [constructor|]. apply Forall_app. split; [|done]. by constructor; [decided|].
Qed.

Lemma json_object_ok fields : Forall (fun f => bytes_ok f.2) fields -> bytes_ok (json_object fields).
Proof.
  intros Hf. unfold json_object. apply Forall_app. split; [decided|]. apply Forall_app. split; [|decided]. apply comma_separated_ok.
  apply Forall_map. eapply Forall_impl; [exact Hf|]. intros [n v] Hv. cbn [fst snd] in *. apply Forall_app. split; [apply json_string_ok|]. constructor; [decided|done].
Qed.
#[export] Hint Resolve json_string_ok json_int_ok json_object_ok : sl.
