(* ===== verification/ChunkReasm.v ===== *)
(** * The chunk reassembler ([pkg/bundle/chunk_engine.go], ChunkReassembler)

    Collects the chunks of several bundles under a byte limit, hands a bundle to
    [ReconstructErasurePayload] as soon as enough distinct chunks are there, and forgets
    stale ones.  The invariant of what it holds, and the delivery of a payload; chunks as
    lines of text. *)

From S2P Require Import Prelude Sha256 Chunk.

Record chunkPartial := mkPartial {
  meta : EncodedChunk;
  chunks : gmap Z EncodedChunk;
  p_bytes : Z;
  updatedAt : Z;
}.

Record ChunkReassembler := mkReassembler {
  partials : gmap (list Z) chunkPartial;
  maxBytes : Z;
  staleAfter : Z;
}.

Definition NewChunkReassembler (maxBytes staleAfter : Z) : ChunkReassembler :=
  mkReassembler ∅ (if maxBytes <=? 0 then DefaultMaxCacheByte else maxBytes)
    (if staleAfter <=? 0 then 10 * Minute else staleAfter).

Definition with_partials (r : ChunkReassembler) (m : gmap (list Z) chunkPartial) : ChunkReassembler :=
  mkReassembler m (maxBytes r) (staleAfter r).

Section reassembler.
(** The order in which a range over a map of chunks visits them. *)
Context (range : gmap Z EncodedChunk -> list EncodedChunk).
(** What [time.Now] reads. *)
Context (clock : Z).

(** [None] is the result with neither payload nor error. *)
Definition AddChunk (r : ChunkReassembler) (c : EncodedChunk) (now : Z)
    : ChunkReassembler * res chunk_err (option (list Z)) :=
  let now := if IsZero now then clock else now in
  let p := match partials r !! BundleID c with Some p => p | None => mkPartial c ∅ 0 now end in
  let drop_partial := with_partials r (delete (BundleID c) (partials r)) in
  if negb (same_set c (meta p)) then (drop_partial, Err (ErrChunkInvalid HeaderMismatch))
  else
    let size := blen (Data c) + ChunkHeaderSize in
    let dup := bool_decide (is_Some (chunks p !! Index c)) in
    if negb dup && (maxBytes r <? p_bytes p + size) then (drop_partial, Err ErrChunkCacheLimit)
    else
      let p := if dup then mkPartial (meta p) (chunks p) (p_bytes p) now
               else mkPartial (meta p) (<[Index c := c]> (chunks p)) (p_bytes p + size) now in
      if Z.of_nat (base.size (chunks p)) <? DataShards (meta p)
      then (with_partials r (<[BundleID c := p]> (partials r)), Ok None)
      else
        match ReconstructErasurePayload (range (chunks p)) with
        | Err e => (drop_partial, Err e)
        | Ok payload => (drop_partial, Ok (Some payload))
        end.

Definition Add (r : ChunkReassembler) (raw : list Z) (now : Z) : ChunkReassembler * res chunk_err (option (list Z)) :=
  match ParseEncodedChunk raw with
  | Err e => (r, Err e)
  | Ok c => AddChunk r c now
  end.

Definition Sweep (r : ChunkReassembler) (now : Z) : ChunkReassembler * Z :=
  let now := if IsZero now then clock else now in
  let kept := filter (fun kp => TimeSub now (updatedAt kp.2) < staleAfter r) (partials r) in
  (with_partials r kept, Z.of_nat (size (partials r)) - Z.of_nat (size kept)).

End reassembler.

(** ** What the reassembler keeps *)

Definition chunk_cost (c : EncodedChunk) : Z := blen (Data c) + ChunkHeaderSize.

Definition map_cost (m : gmap Z EncodedChunk) : Z := map_fold (fun _ c acc => chunk_cost c + acc) 0 m.

Lemma map_cost_insert m i c : m !! i = None -> map_cost (<[i := c]> m) = chunk_cost c + map_cost m.
Proof. intros H. unfold map_cost. 
  rewrite (map_fold_insert_L (fun (_ : Z) c acc => chunk_cost c + acc) 0 i c m); [done|intros; lia|done].
Qed.

Definition partial_ok (r : ChunkReassembler) (id : list Z) (p : chunkPartial) : Prop :=
  BundleID (meta p) = id /\ p_bytes p = map_cost (chunks p) /\ p_bytes p <= maxBytes r
  /\ Z.of_nat (size (chunks p)) < DataShards (meta p)
  /\ (forall i c, chunks p !! i = Some c -> Index c = i /\ same_set c (meta p) = true).

Definition reassembler_ok (r : ChunkReassembler) : Prop := map_Forall (partial_ok r) (partials r).

Lemma same_set_spec c b : same_set c b = true <->
  BundleID c = BundleID b /\ DataShards c = DataShards b /\ ParityShards c = ParityShards b
  /\ PayloadSize c = PayloadSize b /\ ShardSize c = ShardSize b /\ PayloadSHA256 c = PayloadSHA256 b.
Proof. unfold same_set. rewrite !andb_true_iff, !bool_decide_eq_true, !Z.eqb_eq. tauto. Qed.

Lemma drop_partial_ok r id : reassembler_ok r -> reassembler_ok (with_partials r (delete id (partials r))).
Proof. intros H. unfold reassembler_ok. apply map_Forall_delete. exact H. Qed.

Lemma AddChunk_ok range clock r c now : 0 < maxBytes r -> reassembler_ok r -> reassembler_ok (AddChunk range clock r c now).1.
Proof.
  intros Hmax Hr. unfold AddChunk. set (t := if IsZero now then clock else now). clearbody t.
  set (p := match partials r !! BundleID c with Some p => p | None => _ end).
  assert (BundleID (meta p) = BundleID c /\ p_bytes p = map_cost (chunks p) /\ p_bytes p <= maxBytes r
    /\ (forall i d, chunks p !! i = Some d -> Index d = i /\ same_set d (meta p) = true)) as (Hid & Hb & Hle & Hc).
  { unfold p. destruct (partials r !! BundleID c) as [q|] eqn:E.
    - destruct (Hr _ _ E) as (? & ? & ? & _ & ?). done.
    - simpl. split_and!; [done|done|lia|]. intros i d H. by rewrite lookup_empty in H. }
  clearbody p. destruct (same_set c (meta p)) eqn:Hs; simpl; [|by apply drop_partial_ok].
  fold (chunk_cost c). destruct (decide (is_Some (chunks p !! Index c))) as [Hdup|Hdup].
  - rewrite bool_decide_eq_true_2 by done. simpl. destruct (Z.ltb_spec (Z.of_nat (size (chunks p))) (DataShards (meta p))).
    + apply map_Forall_insert_2; [|exact Hr]. split_and!; try done.
    + destruct (ReconstructErasurePayload _); by apply drop_partial_ok.
  - rewrite bool_decide_eq_false_2 by done. simpl. destruct (Z.ltb_spec (maxBytes r) (p_bytes p + chunk_cost c)); [by apply drop_partial_ok|].
    destruct (Z.ltb_spec (Z.of_nat (size (<[Index c := c]> (chunks p)))) (DataShards (meta p))).
    + apply map_Forall_insert_2; [|exact Hr]. apply eq_None_not_Some in Hdup. split_and!; try done; simpl.
      * rewrite map_cost_insert by done. lia.
      * intros i d [[<- <-]|[_ Hd]]%lookup_insert_Some; [done|]. by apply Hc.
    + destruct (ReconstructErasurePayload _); by apply drop_partial_ok.
Qed.

Lemma AddChunk_limits range clock r c now :
  maxBytes (AddChunk range clock r c now).1 = maxBytes r /\ staleAfter (AddChunk range clock r c now).1 = staleAfter r.
Proof. unfold AddChunk. repeat (case_match; simpl; try done). Qed.

(** The operations in any order, from a new reassembler. *)
Inductive reassembler_op :=
  | OpAdd (raw : list Z) (now : Z)
  | OpAddChunk (c : EncodedChunk) (now : Z)
  | OpSweep (now : Z).

Section operations.
Context (range : gmap Z EncodedChunk -> list EncodedChunk) (clock : Z).

Definition run_op (r : ChunkReassembler) (o : reassembler_op) : ChunkReassembler :=
  match o with
  | OpAdd raw now => (Add range clock r raw now).1
  | OpAddChunk c now => (AddChunk range clock r c now).1
  | OpSweep now => (Sweep clock r now).1
  end.

Lemma run_op_ok r o : 0 < maxBytes r -> reassembler_ok r ->
  reassembler_ok (run_op r o) /\ maxBytes (run_op r o) = maxBytes r /\ staleAfter (run_op r o) = staleAfter r.
Proof.
  intros Hm Hr. destruct o as [raw now|c now|now]; simpl.
  - unfold Add. destruct (ParseEncodedChunk raw); [|done]. split; [by apply AddChunk_ok|apply AddChunk_limits].
  - split; [by apply AddChunk_ok|apply AddChunk_limits].
  - split; [|done]. intros i q [Hq _]%map_lookup_filter_Some. by apply Hr.
Qed.

Lemma run_ops_ok r ops : 0 < maxBytes r -> reassembler_ok r ->
  reassembler_ok (fold_left run_op ops r) /\ maxBytes (fold_left run_op ops r) = maxBytes r.
Proof.
  revert r. induction ops as [|o ops IH]; intros r Hm Hr; [done|]. simpl.
  destruct (run_op_ok r o Hm Hr) as (H1 & H2 & _). rewrite <- H2. apply IH; [by rewrite H2|done].
Qed.

(** Whatever chunks arrive and whenever it is swept, every bundle the reassembler is
    still collecting is charged exactly for the distinct chunks it holds, stays within the
    byte limit and holds fewer chunks than the bundle needs, all of one bundle and filed
    under their index.  (The limit is per bundle: nothing bounds the number of bundles.) *)
Theorem collected_chunks_bounded max stale ops id p :
  let r := fold_left run_op ops (NewChunkReassembler max stale) in
  partials r !! id = Some p ->
  p_bytes p = map_cost (chunks p) /\ p_bytes p <= (if max <=? 0 then DefaultMaxCacheByte else max)
  /\ Z.of_nat (size (chunks p)) < DataShards (meta p)
  /\ (forall i c, chunks p !! i = Some c -> Index c = i /\ BundleID c = id /\ PayloadSHA256 c = PayloadSHA256 (meta p)).
Proof.
  assert (0 < maxBytes (NewChunkReassembler max stale)) as Hpos.
  { simpl. unfold DefaultMaxCacheByte. destruct (Z.leb_spec max 0); lia. }
  destruct (run_ops_ok (NewChunkReassembler max stale) ops Hpos) as [Hok Hmax]; [apply map_Forall_empty|].
  intros r Hp. fold r in Hok, Hmax. destruct (Hok id p Hp) as (Hid & Hb & Hle & Hsz & Hc). rewrite Hmax in Hle.
  split_and!; try done. intros i c Hi. destruct (Hc i c Hi) as [? (? & _ & _ & _ & _ & ?)%same_set_spec]. by rewrite <- Hid.
Qed.

End operations.

(** A concrete run: two chunks of three, of a bundle that needs two. *)
Definition demo_chunk (i : nat) : EncodedChunk := encoded_chunk demo_payload 2 1 3 (the_data demo_payload 2 3) i.
Definition visit (m : gmap Z EncodedChunk) : list EncodedChunk := (map_to_list m).*2.

Lemma collected_chunks_bounded_witness :
  exists p, partials (fold_left (run_op visit 0) [OpAddChunk (demo_chunk 2) 5] (NewChunkReassembler 300 0)) !! BundleID (demo_chunk 2) = Some p
  /\ p_bytes p = 101 /\ p_bytes p <= 300.
Proof.
  eexists. split_and!; [vm_compute; reflexivity|vm_compute; reflexivity|].
  destruct (collected_chunks_bounded visit 0 300 0 [OpAddChunk (demo_chunk 2) 5] (BundleID (demo_chunk 2)) _ ltac:(vm_compute; reflexivity)) as (_ & H & _).
  exact H.
Defined.

(** ** Delivery *)

Section delivery.
Context (range : gmap Z EncodedChunk -> list EncodedChunk) (clock : Z).
Hypothesis Hrange : forall m, range m ≡ₚ (map_to_list m).*2.
Context (payload : list Z) (n p sz : Z).
Hypothesis Hbytes : bytes_ok payload.
Hypothesis Hlen : 0 < blen payload <= MaxBundleBytes.
Hypothesis Hn : 0 < n.
Hypothesis Hp : 0 < p.
Hypothesis Hnp : n + p <= 255.
Hypothesis Hsz : 0 < sz <= MaxChunkDataSize.
Hypothesis Hfit : blen payload <= n * sz.
Hypothesis Hap : points_apart n p.

Abbreviation chunks_here := (the_chunks payload n p sz).

(** The bundle's identifier. *)
Definition bundle_id : list Z := slice (Sum256 payload) 0 16.

Lemma here_fields c : c ∈ chunks_here ->
  BundleID c = bundle_id /\ DataShards c = n /\ ShardSize c = sz /\ chunk_cost c = sz + ChunkHeaderSize.
Proof.
  intros Hc. pose proof (encoded_chunk_acceptable payload n p sz Hbytes Hlen Hn Hp Hnp Hsz Hfit c c Hc Hc) as (Hv & _ & _).
  apply (the_chunks_elem payload n p sz) in Hc as (i & Hi & ->).
  apply Validate_spec in Hv; [|split; simpl; unfold_ints; lia]. destruct Hv as (_ & _ & _ & _ & _ & _ & Hl & _).
  unfold chunk_cost. rewrite Hl. split_and!; try done.
  change (copy_into 16 (slice (Sum256 payload) 0 16) = bundle_id). apply copy_into_exact. unfold bundle_id.
  rewrite slice_length; rewrite ?Sum256_length; lia.
Qed.

Lemma here_same c d : c ∈ chunks_here -> d ∈ chunks_here -> same_set c d = true.
Proof. intros Hc Hd. by apply (encoded_chunk_acceptable payload n p sz Hbytes Hlen Hn Hp Hnp Hsz Hfit d c Hd Hc). Qed.

Lemma here_index c d : c ∈ chunks_here -> d ∈ chunks_here -> Index c = Index d -> c = d.
Proof.
  intros (i & _ & ->)%(the_chunks_elem payload n p sz) (j & _ & ->)%(the_chunks_elem payload n p sz). simpl. intros H. f_equal. lia.
Qed.

(** The chunks of the bundle that have arrived, if any. *)
Definition holds (r : ChunkReassembler) (l : list EncodedChunk) : Prop :=
  match partials r !! bundle_id with
  | None => l = []
  | Some q => l <> [] /\ meta q ∈ chunks_here /\ chunks q = index_chunks l ∅
              /\ p_bytes q = distinct l * (sz + ChunkHeaderSize)
  end.

Lemma distinct_size l : Z.of_nat (size (index_chunks l ∅)) = distinct l.
Proof. rewrite <- size_dom, index_chunks_dom, dom_empty_L, union_empty_r_L. done. Qed.

Lemma index_chunks_snoc l c m : index_chunks (l ++ [c]) m = <[Index c := c]> (index_chunks l m).
Proof. unfold index_chunks. by rewrite fold_left_app. Qed.

Lemma index_here l i d : (forall c, c ∈ l -> c ∈ chunks_here) -> index_chunks l ∅ !! i = Some d -> d ∈ l /\ d ∈ chunks_here /\ Index d = i.
Proof.
  intros Hl H. apply index_chunks_lookup in H as [[Hd Hi]|H]; [auto|]. by rewrite lookup_empty in H.
Qed.

Lemma distinct_range l : (forall c, c ∈ l -> c ∈ chunks_here) -> distinct (range (index_chunks l ∅)) = distinct l.
Proof.
  intros Hl. rewrite <- (distinct_size l), <- size_dom. unfold distinct. do 2 f_equal. apply set_eq. intros i.
  rewrite elem_of_list_to_set, list_elem_of_fmap, elem_of_dom. setoid_rewrite Hrange. setoid_rewrite list_elem_of_fmap. split.
  - intros (d & -> & ([j d'] & -> & Hd%elem_of_map_to_list)). exists d'. simpl. by destruct (index_here l j d' Hl Hd) as (_ & _ & ->).
  - intros [d Hd]. exists d. split; [by destruct (index_here l i d Hl Hd) as (_ & _ & ->)|]. exists (i, d).
    split; [done|]. by apply elem_of_map_to_list.
Qed.

(** Enough chunks of the bundle in the map: it is rebuilt. *)
Lemma enough_rebuild l : (forall c, c ∈ l -> c ∈ chunks_here) -> n <= distinct l ->
  ReconstructErasurePayload (range (index_chunks l ∅)) = Ok payload.
Proof.
  intros Hl Hge. apply (reconstruct_encoded payload n p sz); try done.
  - intros E. pose proof (distinct_range l Hl) as H. rewrite E in H. change (distinct []) with 0 in H. lia.
  - intros d Hdr. rewrite Hrange in Hdr. apply list_elem_of_fmap in Hdr as ([i d'] & -> & Hi%elem_of_map_to_list).
    by apply (index_here l i d').
  - by rewrite distinct_range.
Qed.

Lemma distinct_snoc l c : distinct (l ++ [c]) = if bool_decide (is_Some (index_chunks l ∅ !! Index c)) then distinct l else distinct l + 1.
Proof.
  rewrite <- !distinct_size, index_chunks_snoc, map_size_insert. destruct (index_chunks l ∅ !! Index c).
  - by rewrite bool_decide_eq_true_2.
  - rewrite bool_decide_eq_false_2 by (by intros [? ?]). lia.
Qed.

(** The map after one more chunk, whether its index is new or not. *)
Lemma insert_here l c : (forall d, d ∈ l ++ [c] -> d ∈ chunks_here) ->
  (if bool_decide (is_Some (index_chunks l ∅ !! Index c)) then index_chunks l ∅ else <[Index c := c]> (index_chunks l ∅))
  = index_chunks (l ++ [c]) ∅.
Proof.
  intros Hl. rewrite index_chunks_snoc. destruct (index_chunks l ∅ !! Index c) as [d|] eqn:E; [|done].
  rewrite bool_decide_eq_true_2 by done. symmetry. apply insert_id. rewrite E. f_equal.
  assert (forall d, d ∈ l -> d ∈ chunks_here) as Hl0 by (intros d' Hd; apply Hl, elem_of_app; by left).
  destruct (index_here l _ d Hl0 E) as (_ & Hd & Hi). apply here_index; [done| |done]. apply Hl, elem_of_app. right. by left.
Qed.

(** One more chunk of the bundle. *)
Lemma AddChunk_here r l c now :
  holds r l -> (forall d, d ∈ l ++ [c] -> d ∈ chunks_here) -> distinct l < n -> n * (sz + ChunkHeaderSize) <= maxBytes r ->
  let r' := AddChunk range clock r c now in
  if distinct (l ++ [c]) <? n then r'.2 = Ok None /\ holds r'.1 (l ++ [c])
  else r'.2 = Ok (Some payload) /\ partials r'.1 = delete bundle_id (partials r).
Proof.
  intros Hh Hl Hd Hmax. assert (c ∈ chunks_here) as Hc by (apply Hl, elem_of_app; right; by left).
  destruct (here_fields c Hc) as (Hid & Hds & _ & Hcost). unfold AddChunk. rewrite Hid. fold (chunk_cost c). rewrite Hcost.
  set (t := if IsZero now then clock else now). clearbody t.
  set (q := match partials r !! bundle_id with Some q => q | None => _ end).
  assert (meta q ∈ chunks_here /\ chunks q = index_chunks l ∅ /\ p_bytes q = distinct l * (sz + ChunkHeaderSize)) as (Hm & Hch & Hb).
  { unfold q, holds in *. destruct (partials r !! bundle_id); [by destruct Hh as (_ & ? & ? & ?)|]. by rewrite Hh. }
  clearbody q. rewrite (here_same c (meta q)) by done. simpl negb. cbv iota. rewrite Hch.
  destruct (here_fields _ Hm) as (_ & Hmn & _).
  pose proof (distinct_snoc l c) as Hdist. pose proof (insert_here l c Hl) as Hins.
  set (dup := bool_decide (is_Some (index_chunks l ∅ !! Index c))) in *.
  assert (negb dup && (maxBytes r <? p_bytes q + (sz + ChunkHeaderSize)) = false) as ->.
  { destruct dup; [done|]. simpl. apply Z.ltb_ge. unfold ChunkHeaderSize in *. nia. }
  set (q' := if dup then _ else _).
  assert (chunks q' = index_chunks (l ++ [c]) ∅ /\ meta q' = meta q /\ p_bytes q' = distinct (l ++ [c]) * (sz + ChunkHeaderSize))
    as (Hch' & Hm' & Hb').
  { rewrite <- Hins, Hdist. unfold q'. destruct dup; simpl; split_and!; try done; rewrite Hb; lia. }
  clearbody q'. rewrite Hch', Hm', Hmn. change (base.size ?m) with (size m). rewrite distinct_size.
  destruct (Z.ltb_spec (distinct (l ++ [c])) n).
  - split; [done|]. unfold holds. simpl. rewrite lookup_insert_eq. split_and!; [|by rewrite Hm'|done|done].
    intros E. by apply app_eq_nil in E as [_ E].
  - by rewrite enough_rebuild.
Qed.

(** A chunk of another bundle changes nothing here. *)
Lemma AddChunk_other r l c now : BundleID c <> bundle_id -> holds r l -> holds (AddChunk range clock r c now).1 l.
Proof.
  intros Hne. unfold holds. assert (partials (AddChunk range clock r c now).1 !! bundle_id = partials r !! bundle_id) as ->; [|done].
  unfold AddChunk. repeat (case_match; simpl; rewrite ?lookup_delete_ne, ?lookup_insert_ne by done; try done).
Qed.

(** The chunks of this bundle among the arrivals. *)
Definition ours (arrivals : list (EncodedChunk * Z)) : list EncodedChunk :=
  filter (fun c => BundleID c = bundle_id) arrivals.*1.

Definition arrive (r : ChunkReassembler) (a : EncodedChunk * Z) : ChunkReassembler := (AddChunk range clock r a.1 a.2).1.

Lemma distinct_prefix l k : distinct l <= distinct (l ++ k).
Proof.
  unfold distinct. rewrite fmap_app, list_to_set_app_L. apply inj_le, subseteq_size, union_subseteq_l.
Qed.

Lemma arrivals_hold r arrivals l :
  holds r l -> n * (sz + ChunkHeaderSize) <= maxBytes r ->
  (forall c, c ∈ l ++ ours arrivals -> c ∈ chunks_here) -> distinct (l ++ ours arrivals) < n ->
  holds (fold_left arrive arrivals r) (l ++ ours arrivals) /\ maxBytes (fold_left arrive arrivals r) = maxBytes r.
Proof.
  revert r l. induction arrivals as [|[c now] arrivals IH]; intros r l Hh Hmax Hl Hd; [by rewrite app_nil_r|].
  simpl. unfold arrive at 2 4. simpl. pose proof (AddChunk_limits range clock r c now) as [Hlim _].
  rewrite <- Hlim. unfold ours in *. rewrite fmap_cons, filter_cons in *. simpl in *. destruct (decide (BundleID c = bundle_id)) as [Hid|Hid].
  - rewrite cons_middle, app_assoc in *. pose proof (distinct_prefix (l ++ [c]) (filter (fun c => BundleID c = bundle_id) arrivals.*1)) as Hle.
    pose proof (AddChunk_here r l c now Hh) as H. rewrite (proj2 (Z.ltb_lt _ _)) in H by lia.
    pose proof (distinct_prefix l [c]). apply IH; [apply H; [|lia|done]|by rewrite Hlim|done|done].
    intros d Hdl. apply Hl, elem_of_app. by left.
  - apply IH; [by apply AddChunk_other|by rewrite Hlim|done|done].
Qed.

End delivery.

(** C31: A bundle is delivered as soon as enough of its distinct chunks have arrived, in
    whatever order, with repetitions and between chunks of other bundles.  With at most 129
    data and 127 parity shards, from a reassembler that holds nothing of the bundle and
    whose limit admits as many chunks as there are data shards, every earlier chunk of the
    bundle is kept without an error, and the one that completes it returns the payload and
    empties the entry. *)
Theorem bundle_delivered range clock payload opt cs r arrivals c now :
  (forall m, range m ≡ₚ (map_to_list m).*2) ->
  bytes_ok payload -> is_i64 (o_DataShards opt) -> is_i64 (o_ParityShards opt) ->
  EncodeErasureChunks payload opt = Ok cs -> c ∈ cs ->
  points_apart (DataShards c) (ParityShards c) ->
  partials r !! BundleID c = None -> DataShards c * chunk_cost c <= maxBytes r ->
  let own := filter (fun d => BundleID d = BundleID c) arrivals.*1 in
  (forall d, d ∈ own -> d ∈ cs) -> distinct own < DataShards c <= distinct (own ++ [c]) ->
  let step := arrive range clock in
  (forall before d t after, arrivals = before ++ (d, t) :: after -> BundleID d = BundleID c ->
     (AddChunk range clock (fold_left step before r) d t).2 = Ok None)
  /\ (AddChunk range clock (fold_left step arrivals r) c now).2 = Ok (Some payload)
  /\ partials (AddChunk range clock (fold_left step arrivals r) c now).1 !! BundleID c = None.
Proof.
  intros Hrange Hb Hod Hop He Hc Hap Hnone Hmax own Hown Hdist step. unfold EncodeErasureChunks in He.
  destruct (chunk_plan (blen payload) opt) as [[[n p] sz]|] eqn:Hplan; [|done].
  destruct (chunk_plan_spec _ _ _ _ _ Hplan (blen_nonneg payload) Hod Hop) as (Hlen & Hn & Hp & Hnp & Hsz & Hfit).
  assert (cs = the_chunks payload n p sz) as -> by (unfold the_chunks, the_data; congruence). clear He.
  destruct (here_fields payload n p sz Hb Hlen Hn Hp Hnp Hsz Hfit c Hc) as (Hid & Hds & _ & Hcost).
  assert (ParityShards c = p) as Hps by (apply (the_chunks_elem payload n p sz) in Hc as (i & _ & ->); done).
  assert (own = ours payload arrivals) as Eown by (unfold own, ours; by rewrite Hid). rewrite Eown in *. clear own Eown.
  rewrite Hds in *. rewrite Hps in Hap. rewrite Hcost in Hmax. rewrite Hid in *.
  assert (holds payload n p sz r []) as H0 by (unfold holds; by rewrite Hnone).
  split.
  - intros before d t after -> Hdid. unfold step.
    assert (ours payload (before ++ (d, t) :: after) = (ours payload before ++ [d]) ++ ours payload after) as E.
    { unfold ours. rewrite fmap_app, filter_app, fmap_cons, filter_cons_True by done. by rewrite <- app_assoc. }
    rewrite E in Hown, Hdist. pose proof (distinct_prefix (ours payload before ++ [d]) (ours payload after)).
    pose proof (distinct_prefix (ours payload before) [d]).
    destruct (arrivals_hold range clock Hrange payload n p sz Hb Hlen Hn Hp Hnp Hsz Hfit Hap r before [] H0 Hmax) as [Hh Hm].
    { intros e Hel. apply Hown. rewrite !elem_of_app. by left; left. } { simpl. lia. }
    rewrite <- Hm in Hmax.
    pose proof (AddChunk_here range clock Hrange payload n p sz Hb Hlen Hn Hp Hnp Hsz Hfit Hap _ _ d t Hh) as Hs.
    simpl in Hs. rewrite (proj2 (Z.ltb_lt _ _)) in Hs by lia. apply Hs; [|lia|done].
    intros e Hel. apply Hown, elem_of_app. by left.
  - destruct (arrivals_hold range clock Hrange payload n p sz Hb Hlen Hn Hp Hnp Hsz Hfit Hap r arrivals [] H0 Hmax) as [Hh Hm].
    { done. } { simpl. lia. }
    unfold step. rewrite <- Hm in Hmax.
    pose proof (AddChunk_here range clock Hrange payload n p sz Hb Hlen Hn Hp Hnp Hsz Hfit Hap _ _ c now Hh) as Hs.
    simpl in Hs. rewrite (proj2 (Z.ltb_ge _ _)) in Hs by lia.
    destruct Hs as [H1 H2]; [|lia|done|split; [done|rewrite H2; apply lookup_delete_eq]].
    intros e Hel. apply elem_of_app in Hel as [Hel|Hel]; [by apply Hown|]. by apply list_elem_of_singleton in Hel as ->.
Qed.

Lemma bundle_delivered_witness :
  (AddChunk visit 0 (fold_left (arrive visit 0) [(demo_chunk 2, 5); (demo_chunk 2, 6)] (NewChunkReassembler 300 0)) (demo_chunk 0) 7).2
  = Ok (Some demo_payload).
Proof.
  eapply (bundle_delivered visit 0 demo_payload demo_options (the_chunks demo_payload 2 1 3)
            (NewChunkReassembler 300 0) [(demo_chunk 2, 5); (demo_chunk 2, 6)] (demo_chunk 0) 7).
  - intros m. reflexivity.
  - decided.
  - unfold_ints. simpl. lia.
  - unfold_ints. simpl. lia.
  - apply encode_plan. vm_compute. reflexivity.
  - apply the_chunks_elem. exists 0%nat. split; [simpl; lia|reflexivity].
  - decided.
  - reflexivity.
  - vm_compute. discriminate.
  - intros d Hd. apply list_elem_of_filter in Hd as [_ Hd]. apply the_chunks_elem. exists 2%nat. split; [simpl; lia|].
    simpl in Hd. rewrite !elem_of_cons, elem_of_nil in Hd. by destruct Hd as [->|[->|[]]].
  - decided.
Defined.

(** * Chunks as lines of text ([pkg/bundle/chunk_engine.go], EncodeText) *)

From S2P Require Import Prelude Sha256 GoStr Chunk.

#[local] Open Scope string_scope.
#[local] Open Scope Z_scope.

Definition chunk_text_prefix : string := "SNBEC/1 ".

Definition EncodeText (c : EncodedChunk) : res chunk_err string :=
  match MarshalBinary c with
  | Err e => Err e
  | Ok raw => Ok (chunk_text_prefix ++ EncodeToString raw)%string
  end.

Definition ParseEncodedChunkText (line : string) : res chunk_err EncodedChunk :=
  if (slen line <=? slen chunk_text_prefix) || negb (HasPrefix line chunk_text_prefix) then Err (ErrChunkInvalid InvalidTextEnvelope)
  else match DecodeString (TrimPrefix line chunk_text_prefix) with
       | None => Err (ErrChunkInvalid InvalidBase64)
       | Some raw => ParseEncodedChunk raw
       end.

(** The bytes of a marshalled chunk. *)
Lemma MarshalBinary_bytes c raw : MarshalBinary c = Ok raw -> bytes_ok (BundleID c) -> bytes_ok (PayloadSHA256 c) -> bytes_ok (ChunkSHA256 c) ->
  bytes_ok (Data c) -> bytes_ok raw /\ raw <> [].
Proof.
  unfold MarshalBinary. destruct (Validate c); [|done]. intros Hm H1 H2 H3 H4.
  assert (raw = chunk_prefix c ++ ChunkSHA256 c ++ Data c)%list as -> by congruence. split; [|done].
  unfold chunk_prefix, putU16Chunk, putU32Chunk, bytes_ok in *.
  rewrite !Forall_app. repeat split; first [done | apply be_put_ok | decided].
Qed.

(** The line of a chunk is read back, and is not trimmed. *)
Lemma EncodeText_roundtrip c line : chunk_fields_ok c -> computeChecksum c = ChunkSHA256 c -> ShardSize c <> MaxChunkDataSize ->
  bytes_ok (BundleID c) -> bytes_ok (PayloadSHA256 c) -> bytes_ok (Data c) -> EncodeText c = Ok line ->
  ParseEncodedChunkText line = Ok c /\ TrimSpace line = line /\ line <> "".
Proof.
  intros Hok Hck Hsz H1 H2 H4. unfold EncodeText. destruct (MarshalBinary c) as [raw|] eqn:Hm; [|done]. intros [= <-].
  destruct (MarshalBinary_bytes _ _ Hm) as [Hraw Hne]; [done..|rewrite <- Hck; apply Sum256_ok|done|].
  destruct (b64_enc raw) as [|x b] eqn:Eb; [by destruct raw as [|? [|? [|? ?]]]|].
  assert (Forall printable (b64_enc raw)) as Hp by by apply b64_enc_printable.
  assert (bytes_of (EncodeToString raw) = b64_enc raw) as Hb by by apply bytes_of_str_of, b64_enc_ok.
  destruct (exists_last (l := b64_enc raw)) as (c0 & y & Ey); [by rewrite Eb|].
  split; [|split; [|done]].
  - unfold ParseEncodedChunkText. rewrite HasPrefix_app, TrimPrefix_app, DecodeString_EncodeToString by done.
    unfold slen. rewrite bytes_of_app, Hb, blen_app, Eb, blen_cons. pose proof (blen_nonneg b).
    rewrite (proj2 (Z.leb_gt _ _)) by lia. cbn [orb negb]. rewrite (chunk_roundtrip c raw) by done. by rewrite (proj2 (Z.eqb_neq _ _)).
  - apply (TrimSpace_ends _ 83 (bytes_of "NBEC/1 " ++ b64_enc raw)%list y (bytes_of chunk_text_prefix ++ c0)%list); [|by rewrite bytes_of_app, Hb, Ey, app_assoc|done|].
    + by rewrite bytes_of_app, Hb.
    + rewrite Ey in Hp. apply Forall_app in Hp as [_ Hp]. by apply Forall_cons in Hp as [Hp _].
Qed.
