(* ===== verification/LedgerEvent.v ===== *)
(** * Ledger events ([pkg/ledger/types.go], [pkg/ledger/canonical.go])

    The event record, its canonical encoding and identifier, validation with and without
    the signature, construction of signed events and inline payloads.  Ed25519 is a
    parameter; SHA-256, base64 and the JSON encoding are computed. *)

From S2P Require Import Prelude Sha256 GoStr.

Definition SchemaV1 : Z := 1.
Definition MaxParents : Z := 32.
Definition MaxKindLen : Z := 64.
Definition MaxRefLen : Z := 8192.
Definition InlinePayloadPrefix : string := "inline:".
Definition MaxInlinePayloadBytes : Z := 4096.

(** A nil slice of parents is [None]; the canonical encoding tells it from an empty one. *)
Record Event := mkEvent {
  SchemaVersion : Z;
  ID : string;
  CreatedAt : Z;
  Author : string;
  AuthorKeyB64 : string;
  Seq : Z;
  Prev : string;
  Parents : option (list string);
  Kind : string;
  PayloadHashB64 : string;
  PayloadRef : string;
  SigB64 : string;
}.

#[export] Instance Event_eq_dec : EqDecision Event.
Proof. solve_decision. Defined.

Definition parents (e : Event) : list string := default [] (Parents e).

(** The values of an event's fields, as their Go types allow. *)
Definition event_ok (e : Event) : Prop := is_i64 (SchemaVersion e) /\ is_i64 (CreatedAt e) /\ is_u64 (Seq e).

Record EquivocationEvidence := mkEvidence {
  eq_OffenderAuthor : string;
  eq_OffenderKeyB64 : string;
  eq_Seq : Z;
  eq_EventA : string;
  eq_EventB : string;
}.

(** The errors: the sentinels the code compares with, the equivocation error, and the
    others by their message. *)
Inductive ledger_err :=
  | ErrEventTimestampFuture
  | ErrEventTooOld
  | ErrUnknownEventKind
  | ErrDuplicateEvent
  | EquivocationError (e : EquivocationEvidence)
  | Failure (message : string).

Declare Scope ledger_scope.
Delimit Scope ledger_scope with ledger.
Notation "'fail!' b 'with' m ; k" := (if b then Err (Failure m) else k)
  (at level 100, b at next level, m at next level, right associativity) : ledger_scope.
#[local] Open Scope ledger_scope.

(** ** The canonical encoding *)

Definition canonical_fields (e : Event) : list (string * list Z) :=
  [("v", json_int (SchemaVersion e)); ("created_at", json_int (CreatedAt e)); ("author", json_string (Author e));
   ("author_key_b64url", json_string (AuthorKeyB64 e)); ("seq", json_int (Seq e)); ("prev", json_string (Prev e));
   ("parents", json_strings (Parents e)); ("kind", json_string (Kind e));
   ("payload_hash_b64url", json_string (PayloadHashB64 e)); ("payload_ref", json_string (PayloadRef e))]%string.

Definition MarshalCanonicalEventUnsigned (e : Event) : list Z :=
  [123] ++ comma_separated (map (fun f => json_string f.1 ++ [58] ++ f.2) (canonical_fields e)) ++ [125].

Definition unsignedHash (e : Event) : list Z := Sum256 (MarshalCanonicalEventUnsigned e).

(** ** Validation *)

Definition AuthorPublicKey (e : Event) : res ledger_err (list Z) :=
  match DecodeString (AuthorKeyB64 e) with
  | None => Err (Failure "decode author_key_b64url")
  | Some raw => if negb (blen raw =? PublicKeySize) then Err (Failure "invalid author key size") else Ok raw
  end.

Definition ValidateNoCrypto (e : Event) : res ledger_err unit :=
  fail! negb (SchemaVersion e =? SchemaV1) with "unsupported schema version";
  fail! is_blank (ID e) with "id required";
  fail! CreatedAt e <=? 0 with "created_at required";
  fail! is_blank (Author e) with "author required";
  fail! is_blank (AuthorKeyB64 e) with "author_key_b64url required";
  fail! Seq e =? 0 with "seq must be >= 1";
  fail! (Seq e =? 1) && negb (is_blank (Prev e)) with "prev must be empty for seq=1";
  fail! (1 <? Seq e) && is_blank (Prev e) with "prev required for seq>1";
  fail! MaxParents <? Z.of_nat (length (parents e)) with "too many parents";
  fail! is_blank (Kind e) with "kind required";
  fail! MaxKindLen <? slen (Kind e) with "kind too long";
  fail! MaxRefLen <? slen (PayloadRef e) with "payload_ref too long";
  fail! is_blank (SigB64 e) with "sig_b64url required";
  match AuthorPublicKey e with
  | Err err => Err err
  | Ok _ => match DecodeString (SigB64 e) with None => Err (Failure "decode sig_b64url") | Some _ => Ok tt end
  end.

Section signatures.
Context `{Ed25519}.

Definition Verify (e : Event) : res ledger_err unit :=
  let hash := unsignedHash e in
  fail! negb (bool_decide (ID e = EncodeToString hash)) with "id mismatch";
  match AuthorPublicKey e with
  | Err err => Err err
  | Ok pub =>
      match DecodeString (SigB64 e) with
      | None => Err (Failure "decode sig_b64url")
      | Some sig =>
          fail! negb (blen sig =? SignatureSize) with "invalid signature size";
          fail! negb (ed_verify pub hash sig) with "signature verification failed";
          Ok tt
      end
  end.

(** The same checks as [ValidateNoCrypto], then [Verify]. *)
Definition Validate (e : Event) : res ledger_err unit :=
  match ValidateNoCrypto e with Err err => Err err | Ok _ => Verify e end.

(** ** New events *)

Fixpoint collect_ids (ids seen : list string) : list string :=
  match ids with
  | [] => []
  | id :: ids' =>
      let id := TrimSpace id in
      if is_empty id then collect_ids ids' seen
      else if bool_decide (id ∈ seen) then collect_ids ids' seen
      else id :: collect_ids ids' (id :: seen)
  end.

Definition normalizeIDSet (ids : list string) : option (list string) :=
  match sort_strings (collect_ids ids []) with [] => None | out => Some out end.

(** [t.Truncate(d)]: down to a multiple of d since the zero time. *)
Definition Truncate (t d : Z) : Z := if d <=? 0 then t else t - (t - zeroTime) mod d.

(** [draw] is what reading eight random bytes gave, as an unsigned integer. *)
Definition obfuscateTime (t jitterMax bucket : Z) (draw : option Z) : Z :=
  let t :=
    if 0 <? jitterMax then
      match draw with
      | Some rn => let width := u64 (jitterMax * 2 + 1) in TimeAdd t (i64 (i64 (rn mod width) - jitterMax))
      | None => t
      end
    else t in
  if 0 <? bucket then Truncate t bucket else t.

Record SignedEventInput := mkInput {
  in_Author : string;
  in_AuthorPub : list Z;
  in_AuthorPriv : list Z;
  in_Seq : Z;
  in_Prev : string;
  in_Parents : list string;
  in_Kind : string;
  in_Payload : list Z;
  in_PayloadRef : string;
  in_CreatedAt : Z;
  in_CreatedAtJitterMax : Z;
  in_CreatedAtBucket : Z;
}.

Definition with_id_sig (e : Event) (id sig : string) : Event :=
  mkEvent (SchemaVersion e) id (CreatedAt e) (Author e) (AuthorKeyB64 e) (Seq e) (Prev e) (Parents e) (Kind e)
    (PayloadHashB64 e) (PayloadRef e) sig.

(** [clock] is what [time.Now] reads. *)
Definition NewSignedEvent (inp : SignedEventInput) (clock : Z) (draw : option Z) : res ledger_err Event :=
  let author := TrimSpace (in_Author inp) in
  fail! is_empty author with "author required";
  fail! negb (blen (in_AuthorPub inp) =? PublicKeySize) with "invalid author public key size";
  fail! negb (blen (in_AuthorPriv inp) =? PrivateKeySize) with "invalid author private key size";
  let kind := TrimSpace (in_Kind inp) in
  fail! is_empty kind with "kind required";
  fail! MaxKindLen <? slen kind with "kind too long";
  fail! MaxParents <? Z.of_nat (length (in_Parents inp)) with "too many parents";
  fail! MaxRefLen <? slen (in_PayloadRef inp) with "payload_ref too long";
  let createdAt := if IsZero (in_CreatedAt inp) then clock else in_CreatedAt inp in
  let createdAt :=
    if (0 <? in_CreatedAtJitterMax inp) || (0 <? in_CreatedAtBucket inp)
    then obfuscateTime createdAt (in_CreatedAtJitterMax inp) (in_CreatedAtBucket inp) draw else createdAt in
  let payloadHashB64 := match in_Payload inp with [] => "" | p => EncodeToString (Sum256 p) end in
  let ev := mkEvent SchemaV1 "" (Unix createdAt) author (EncodeToString (in_AuthorPub inp)) (in_Seq inp)
    (TrimSpace (in_Prev inp)) (normalizeIDSet (in_Parents inp)) kind payloadHashB64 (TrimSpace (in_PayloadRef inp)) "" in
  let hash := unsignedHash ev in
  let ev := with_id_sig ev (EncodeToString hash) (EncodeToString (ed_sign (in_AuthorPriv inp) hash)) in
  match Validate ev with Err err => Err err | Ok _ => Ok ev end.

End signatures.

(** ** Inline payloads *)

Definition InlinePayloadRef (payload : list Z) : res ledger_err (string * string) :=
  fail! blen payload =? 0 with "payload required";
  fail! MaxInlinePayloadBytes <? blen payload with "inline payload too large";
  Ok (EncodeToString (Sum256 payload), (InlinePayloadPrefix ++ EncodeToString payload)%string).

(** [Ok None] is the result without an inline payload. *)
Definition DecodeInlinePayloadRef (ref : string) (maxBytes : Z) : res ledger_err (option (list Z)) :=
  let ref := TrimSpace ref in
  if negb (HasPrefix ref InlinePayloadPrefix) then Ok None
  else
    match DecodeString (TrimPrefix ref InlinePayloadPrefix) with
    | None => Err (Failure "decode inline payload")
    | Some raw => fail! (0 <? maxBytes) && (maxBytes <? blen raw) with "inline payload too large"; Ok (Some raw)
    end.

Definition VerifyPayloadHash (ev : Event) (payload : list Z) : res ledger_err unit :=
  match payload with
  | [] => fail! negb (is_blank (PayloadHashB64 ev)) with "payload hash present but payload empty"; Ok tt
  | _ => fail! negb (bool_decide (PayloadHashB64 ev = EncodeToString (Sum256 payload))) with "payload_hash mismatch"; Ok tt
  end.

(** ** The identifier determines the signed fields *)

Definition event_text_ok (e : Event) : Prop :=
  event_ok e /\ valid_string (Author e) /\ valid_string (AuthorKeyB64 e) /\ valid_string (Prev e)
  /\ Forall valid_string (parents e) /\ valid_string (Kind e) /\ valid_string (PayloadHashB64 e) /\ valid_string (PayloadRef e).

(** Two events with the same canonical encoding agree on all fields but identifier and
    signature. *)
Lemma canonical_injective e f : event_text_ok e -> event_text_ok f ->
  MarshalCanonicalEventUnsigned e = MarshalCanonicalEventUnsigned f ->
  with_id_sig e "" "" = with_id_sig f "" "".
Proof.
  intros ((He1 & He2 & He3) & E1 & E2 & E3 & E4 & E5 & E6 & E7) ((Hf1 & Hf2 & Hf3) & F1 & F2 & F3 & F4 & F5 & F6 & F7) H.
  unfold MarshalCanonicalEventUnsigned, canonical_fields in H. cbn [app] in H. apply cons_tail in H.
  cbn [map fst snd] in H. rewrite !comma_cons in H.
  do 2 next_field H json_int_prefix. do 2 next_field H json_string_prefix. next_field H json_int_prefix.
  next_field H json_string_prefix. next_field H json_strings_prefix. do 2 next_field H json_string_prefix.
  unfold comma_separated in H. cbn [map concat] in H. rewrite !app_nil_r in H.
  apply field_prefix in H. apply json_string_prefix in H as [? _]; [|done..]. unfold with_id_sig. congruence.
Qed.
