(* ===== verification/LedgerKinds.v ===== *)
(** * Event kinds, their payloads and the policy ([pkg/ledger/kinds.go], [pkg/ledger/policy.go])

    The kinds with their payload records, the validators of payloads, the trust policy and
    the validation of an event against a policy.  How JSON bytes read as a payload record
    is a parameter. *)

From S2P Require Import Prelude Sha256 GoStr LedgerEvent.

#[local] Open Scope ledger_scope.

Definition KindLedgerEvent : string := "ledger.event".
Definition KindChatMessage : string := "chat.message".
Definition KindGroupCreate : string := "group.create".
Definition KindGroupJoin : string := "group.join".
Definition KindWitnessAttest : string := "witness.attest".
Definition KindWitnessCheckpoint : string := "witness.checkpoint".
Definition KindIdentityIntroduce : string := "identity.introduce".
Definition KindIdentityRotate : string := "identity.rotate".
Definition KindIdentityRevoke : string := "identity.revoke".
Definition KindMisbehaviorEquivoc : string := "misbehavior.equivocation".
Definition KindMisbehaviorReplay : string := "misbehavior.replay".
Definition KindMisbehaviorSybil : string := "misbehavior.sybil".
Definition KindGroupMembership : string := "group.membership".
Definition KindAgentAction : string := "agent.action".
Definition KindSyncSummary : string := "sync.summary".
Definition MaxContextLen : Z := 96.
Definition MaxCheckpointHeadsInline : Z := 64.
Definition MaxGroupIDLen : Z := 96.
Definition MaxAgentIDLen : Z := 96.
Definition MaxActionLen : Z := 96.
Definition MaxSubjectLen : Z := 128.
Definition MaxReasonLen : Z := 256.

Record AttestationPayload := mkAttestation { at_EventID : string; at_Context : string; at_Level : string }.

Record CheckpointPayload := mkCheckpoint {
  cp_Context : string;
  cp_WindowStart : Z;
  cp_WindowEnd : Z;
  cp_Heads : list string;
  cp_HeadsHash : string;
  cp_HeadsCount : Z;
}.

Record IdentityIntroducePayload := mkIntroduce {
  ii_Context : string;
  ii_SubjectKeyB64 : string;
  ii_SubjectAuthor : string;
  ii_Reason : string;
}.

Record IdentityRotatePayload := mkRotate {
  ir_PersonaID : string;
  ir_PrevKeyB64 : string;
  ir_NewKeyB64 : string;
  ir_EffectiveAt : Z;
}.

Record IdentityRevokePayload := mkRevoke {
  iv_PersonaID : string;
  iv_KeyB64 : string;
  iv_Reason : string;
  iv_EffectiveAt : Z;
}.

Record MisbehaviorEquivocationPayload := mkEquivocation {
  me_OffenderAuthor : string;
  me_OffenderKeyB64 : string;
  me_Seq : Z;
  me_EventA : string;
  me_EventB : string;
  me_Context : string;
}.

Record MisbehaviorReplayPayload := mkReplay {
  mr_OffenderAuthor : string;
  mr_OffenderKeyB64 : string;
  mr_EventID : string;
  mr_Context : string;
}.

Record MisbehaviorSybilPayload := mkSybil { ms_Context : string; ms_SuspectsKeyB64 : list string; ms_Reason : string }.

Record GroupMembershipPayload := mkMembership {
  gm_GroupID : string;
  gm_Action : string;
  gm_Subject : string;
  gm_Role : string;
  gm_GroupVer : Z;
}.

Record AgentActionPayload := mkAgent {
  aa_AgentID : string;
  aa_Action : string;
  aa_Scope : string;
  aa_Target : string;
  aa_Ref : string;
}.

Record SyncSummaryPayload := mkSummary { ss_Context : string; ss_HeadsHash : string; ss_HeadCount : Z }.

(** [json.Unmarshal] and [json.Marshal] at the payload types: reading may fail. *)
Class PayloadJSON := {
  read_attestation : list Z -> option AttestationPayload;
  read_checkpoint : list Z -> option CheckpointPayload;
  read_introduce : list Z -> option IdentityIntroducePayload;
  read_rotate : list Z -> option IdentityRotatePayload;
  read_revoke : list Z -> option IdentityRevokePayload;
  read_equivocation : list Z -> option MisbehaviorEquivocationPayload;
  read_replay : list Z -> option MisbehaviorReplayPayload;
  read_sybil : list Z -> option MisbehaviorSybilPayload;
  read_membership : list Z -> option GroupMembershipPayload;
  read_agent : list Z -> option AgentActionPayload;
  read_summary : list Z -> option SyncSummaryPayload;
  write_attestation : AttestationPayload -> list Z;
  write_checkpoint : CheckpointPayload -> list Z;
  write_equivocation : MisbehaviorEquivocationPayload -> list Z;
  write_replay : MisbehaviorReplayPayload -> list Z;
  write_sybil : MisbehaviorSybilPayload -> list Z;
  write_summary : SyncSummaryPayload -> list Z;
}.

(** ** Policy *)

Inductive Status := StatusAccepted | StatusConfirmed | StatusCheckpointed.

(** A nil map reads as an empty one. *)
Record TrustPolicy := mkTrust {
  Witnesses : gmap string (gmap string Z);
  Thresholds : gmap string Z;
  DefaultThreshold : Z;
}.

Definition Weight (t : TrustPolicy) (context authorKeyB64 : string) : Z :=
  match Witnesses t !! context with
  | None => 0
  | Some m => default 0 (m !! authorKeyB64)
  end.

Definition Threshold (t : TrustPolicy) (context : string) : Z :=
  let default_ := if 0 <? DefaultThreshold t then DefaultThreshold t else 0 in
  match Thresholds t !! context with
  | Some v => if 0 <? v then v else default_
  | None => default_
  end.

Record Policy := mkPolicy {
  AllowUnknownKinds : bool;
  MaxClockSkew : Z;
  MaxEventAge : Z;
  RequireKnownPrev : bool;
  RetentionByKind : gmap string Z;
  Trust : TrustPolicy;
}.

Definition DefaultPolicy : Policy := mkPolicy true (10 * Minute) 0 false ∅ (mkTrust ∅ ∅ 0).

Definition Day : Z := 24 * Hour.

Definition ProductionPolicy : Policy :=
  mkPolicy true (10 * Minute) 0 true
    (list_to_map [(KindWitnessAttest, 30 * Day); (KindWitnessCheckpoint, 90 * Day); (KindMisbehaviorEquivoc, 180 * Day);
                  (KindMisbehaviorReplay, 30 * Day); (KindSyncSummary, 7 * Day)])
    (mkTrust ∅ ∅ 0).

Record Observer := mkObserver { ob_Author : string; ob_AuthorPub : list Z; ob_AuthorPriv : list Z }.

Definition Observer_Valid (o : Observer) : res ledger_err unit :=
  fail! is_empty (ob_Author o) with "observer author required";
  fail! negb (blen (ob_AuthorPub o) =? PublicKeySize) with "observer public key invalid";
  fail! negb (blen (ob_AuthorPriv o) =? PrivateKeySize) with "observer keys required";
  Ok tt.

(** ** Kinds *)

Definition affectsHeads (kind : string) : bool :=
  negb (bool_decide (kind ∈ [KindWitnessAttest; KindWitnessCheckpoint; KindIdentityIntroduce; KindMisbehaviorEquivoc;
                             KindMisbehaviorReplay; KindMisbehaviorSybil; KindSyncSummary])).

Definition isCriticalKind (kind : string) : bool :=
  bool_decide (kind ∈ [KindIdentityIntroduce; KindIdentityRotate; KindIdentityRevoke; KindMisbehaviorEquivoc;
                       KindMisbehaviorReplay; KindMisbehaviorSybil; KindWitnessAttest; KindWitnessCheckpoint; KindGroupCreate;
                       KindGroupJoin; KindGroupMembership]).

Definition syncPriorityWeight (kind : string) : Z :=
  if bool_decide (kind ∈ [KindIdentityIntroduce; KindIdentityRotate; KindIdentityRevoke; KindMisbehaviorEquivoc;
                          KindMisbehaviorReplay; KindMisbehaviorSybil; KindWitnessAttest; KindWitnessCheckpoint;
                          KindGroupMembership; KindAgentAction; KindSyncSummary; KindLedgerEvent])
  then 3
  else if bool_decide (kind ∈ [KindChatMessage; KindGroupCreate; KindGroupJoin]) then 2
  else 1.

Definition isKnownKind (kind : string) : bool :=
  bool_decide (kind ∈ [KindLedgerEvent; KindChatMessage; KindGroupCreate; KindGroupJoin; KindWitnessAttest;
                       KindWitnessCheckpoint; KindIdentityIntroduce; KindIdentityRotate; KindIdentityRevoke;
                       KindMisbehaviorEquivoc; KindMisbehaviorReplay; KindMisbehaviorSybil; KindGroupMembership;
                       KindAgentAction; KindSyncSummary]).

(** ** Digests of heads *)

Definition newline : string := String (char_of 10) "".

Definition ComputeHeadsHash (heads : list string) : string * Z :=
  let cp := sort_strings heads in
  (EncodeToString (Sum256 (bytes_of (Join cp newline))), Z.of_nat (length cp)).

Definition ComputeHeadsDigest (existingHash : string) (existingCount : Z) (heads : list string) : res ledger_err (string * Z) :=
  if negb (is_empty existingHash) then
    match DecodeString existingHash with
    | None => Err (Failure "decode heads_hash_b64url")
    | Some _ => fail! existingCount <? 0 with "heads_count invalid"; Ok (existingHash, existingCount)
    end
  else fail! Z.of_nat (length heads) =? 0 with "heads required to compute digest"; Ok (ComputeHeadsHash heads).

(** ** Payload validators *)

Definition validateAttestation (p : AttestationPayload) : res ledger_err unit :=
  fail! is_blank (at_EventID p) with "attest event_id required";
  let ctx := TrimSpace (at_Context p) in
  fail! is_empty ctx with "attest ctx required";
  fail! MaxContextLen <? slen ctx with "attest ctx too long";
  Ok tt.

Definition validateCheckpoint (p : CheckpointPayload) : res ledger_err unit :=
  let ctx := TrimSpace (cp_Context p) in
  fail! is_empty ctx with "checkpoint ctx required";
  fail! MaxContextLen <? slen ctx with "checkpoint ctx too long";
  fail! negb (cp_WindowStart p =? 0) && negb (cp_WindowEnd p =? 0) && (cp_WindowEnd p <? cp_WindowStart p)
    with "checkpoint invalid window";
  let heads := default [] (normalizeIDSet (cp_Heads p)) in
  let heads := if MaxCheckpointHeadsInline <? Z.of_nat (length heads) then [] else heads in
  let '(h, cnt) := ComputeHeadsHash heads in
  let inline := 0 <? Z.of_nat (length heads) in
  fail! inline && negb (is_empty (cp_HeadsHash p)) && negb (bool_decide (cp_HeadsHash p = h)) with "checkpoint heads_hash mismatch";
  fail! inline && negb (cp_HeadsCount p =? 0) && negb (cp_HeadsCount p =? cnt) with "checkpoint heads_count mismatch";
  fail! is_blank (cp_HeadsHash p) with "checkpoint heads_hash_b64url required";
  fail! cp_HeadsCount p <=? 0 with "checkpoint heads_count required";
  Ok tt.

Definition validateIdentityIntroduce (p : IdentityIntroducePayload) : res ledger_err unit :=
  let ctx := TrimSpace (ii_Context p) in
  fail! is_empty ctx with "identity.introduce ctx required";
  fail! MaxContextLen <? slen ctx with "identity.introduce ctx too long";
  fail! is_blank (ii_SubjectKeyB64 p) with "identity.introduce subject_key_b64url required";
  fail! MaxReasonLen <? slen (ii_Reason p) with "identity.introduce reason too long";
  fail! MaxSubjectLen <? slen (ii_SubjectAuthor p) with "identity.introduce subject_author too long";
  Ok tt.

Definition validateIdentityRotate (p : IdentityRotatePayload) : res ledger_err unit :=
  fail! is_blank (ir_PersonaID p) with "identity.rotate persona_id required";
  fail! is_blank (ir_PrevKeyB64 p) with "identity.rotate prev_key_b64url required";
  fail! is_blank (ir_NewKeyB64 p) with "identity.rotate new_key_b64url required";
  fail! ir_EffectiveAt p <? 0 with "identity.rotate effective_at invalid";
  Ok tt.

Definition validateIdentityRevoke (p : IdentityRevokePayload) : res ledger_err unit :=
  fail! is_blank (iv_PersonaID p) with "identity.revoke persona_id required";
  fail! is_blank (iv_KeyB64 p) with "identity.revoke key_b64url required";
  fail! MaxReasonLen <? slen (iv_Reason p) with "identity.revoke reason too long";
  fail! iv_EffectiveAt p <? 0 with "identity.revoke effective_at invalid";
  Ok tt.

Definition validateMisbehaviorEquivocation (p : MisbehaviorEquivocationPayload) : res ledger_err unit :=
  fail! is_blank (me_OffenderAuthor p) with "misbehavior offender_author required";
  fail! is_blank (me_OffenderKeyB64 p) with "misbehavior offender_key_b64url required";
  fail! me_Seq p =? 0 with "misbehavior seq required";
  fail! is_blank (me_EventA p) || is_blank (me_EventB p) with "misbehavior event ids required";
  fail! bool_decide (me_EventA p = me_EventB p) with "misbehavior event ids must differ";
  fail! MaxContextLen <? slen (me_Context p) with "misbehavior ctx too long";
  Ok tt.

Definition validateMisbehaviorReplay (p : MisbehaviorReplayPayload) : res ledger_err unit :=
  fail! is_blank (mr_OffenderAuthor p) with "misbehavior offender_author required";
  fail! is_blank (mr_OffenderKeyB64 p) with "misbehavior offender_key_b64url required";
  fail! is_blank (mr_EventID p) with "misbehavior event_id required";
  fail! MaxContextLen <? slen (mr_Context p) with "misbehavior ctx too long";
  Ok tt.

Definition validateMisbehaviorSybil (p : MisbehaviorSybilPayload) : res ledger_err unit :=
  fail! MaxContextLen <? slen (ms_Context p) with "misbehavior.sybil ctx too long";
  let sus := default [] (normalizeIDSet (ms_SuspectsKeyB64 p)) in
  fail! Z.of_nat (length sus) =? 0 with "misbehavior.sybil suspects required";
  fail! 64 <? Z.of_nat (length sus) with "misbehavior.sybil too many suspects";
  fail! MaxReasonLen <? slen (ms_Reason p) with "misbehavior.sybil reason too long";
  Ok tt.

Definition validateGroupMembership (p : GroupMembershipPayload) : res ledger_err unit :=
  fail! is_blank (gm_GroupID p) with "group_id required";
  fail! MaxGroupIDLen <? slen (gm_GroupID p) with "group_id too long";
  let act := TrimSpace (gm_Action p) in
  fail! is_empty act with "action required";
  fail! MaxActionLen <? slen act with "action too long";
  let sub := TrimSpace (gm_Subject p) in
  fail! is_empty sub with "subject required";
  fail! MaxSubjectLen <? slen sub with "subject too long";
  Ok tt.

Definition validateAgentAction (p : AgentActionPayload) : res ledger_err unit :=
  fail! is_blank (aa_AgentID p) with "agent_id required";
  fail! MaxAgentIDLen <? slen (aa_AgentID p) with "agent_id too long";
  let act := TrimSpace (aa_Action p) in
  fail! is_empty act with "action required";
  fail! MaxActionLen <? slen act with "action too long";
  Ok tt.

Definition validateSyncSummary (p : SyncSummaryPayload) : res ledger_err unit :=
  let ctx := TrimSpace (ss_Context p) in
  fail! is_empty ctx with "sync.summary ctx required";
  fail! MaxContextLen <? slen ctx with "sync.summary ctx too long";
  fail! is_blank (ss_HeadsHash p) with "sync.summary heads_hash_b64url required";
  fail! ss_HeadCount p <=? 0 with "sync.summary head_count required";
  Ok tt.

(** ** Validation against a policy *)

(** The inline payload of an event, checked against its digest and read as a record. *)
Definition requireInlinePayload {T} (read : list Z -> option T) (ev : Event) : res ledger_err T :=
  match DecodeInlinePayloadRef (PayloadRef ev) MaxInlinePayloadBytes with
  | Err e => Err e
  | Ok None => Err (Failure "inline payload required")
  | Ok (Some raw) =>
      match VerifyPayloadHash ev raw with
      | Err e => Err e
      | Ok _ => match read raw with None => Err (Failure "json") | Some pl => Ok pl end
      end
  end.

Definition with_payload {T} (read : list Z -> option T) (ev : Event) (check : T -> res ledger_err unit) : res ledger_err unit :=
  match requireInlinePayload read ev with Err e => Err e | Ok pl => check pl end.

Section policy.
Context `{Ed25519} `{PayloadJSON}.

Definition validateKindPayload (ev : Event) (p : Policy) : res ledger_err unit :=
  let kind := Kind ev in
  let untrusted ctx := Weight (Trust p) ctx (AuthorKeyB64 ev) <=? 0 in
  if String.eqb kind KindWitnessAttest then
    with_payload read_attestation ev (fun pl =>
      fail! untrusted (at_Context pl) with "witness.attest author not in witness set"; validateAttestation pl)
  else if String.eqb kind KindWitnessCheckpoint then
    with_payload read_checkpoint ev (fun pl =>
      fail! untrusted (cp_Context pl) with "witness.checkpoint author not in witness set"; validateCheckpoint pl)
  else if String.eqb kind KindIdentityIntroduce then
    with_payload read_introduce ev (fun pl =>
      fail! untrusted (ii_Context pl) with "identity.introduce author not trusted"; validateIdentityIntroduce pl)
  else if String.eqb kind KindIdentityRotate then with_payload read_rotate ev validateIdentityRotate
  else if String.eqb kind KindIdentityRevoke then with_payload read_revoke ev validateIdentityRevoke
  else if String.eqb kind KindMisbehaviorEquivoc then with_payload read_equivocation ev validateMisbehaviorEquivocation
  else if String.eqb kind KindMisbehaviorReplay then with_payload read_replay ev validateMisbehaviorReplay
  else if String.eqb kind KindMisbehaviorSybil then with_payload read_sybil ev validateMisbehaviorSybil
  else if String.eqb kind KindGroupMembership then with_payload read_membership ev validateGroupMembership
  else if String.eqb kind KindAgentAction then with_payload read_agent ev validateAgentAction
  else if String.eqb kind KindSyncSummary then with_payload read_summary ev validateSyncSummary
  else Ok tt.

(** The clock and kind checks that both forms of validation share. *)
Definition policyChecks (ev : Event) (p : Policy) (now : Z) : res ledger_err unit :=
  if (0 <? MaxClockSkew p) && (Unix (TimeAdd now (MaxClockSkew p)) <? CreatedAt ev) then Err ErrEventTimestampFuture
  else if (0 <? MaxEventAge p) && (CreatedAt ev <? Unix (TimeAdd now (- MaxEventAge p))) then Err ErrEventTooOld
  else if negb (AllowUnknownKinds p) && negb (isKnownKind (Kind ev)) then Err ErrUnknownEventKind
  else validateKindPayload ev p.

Definition validateWithPolicy (ev : Event) (p : Policy) (now : Z) : res ledger_err unit :=
  match Validate ev with Err e => Err e | Ok _ => policyChecks ev p now end.

Definition validateWithPolicyNoCrypto (ev : Event) (p : Policy) (now : Z) : res ledger_err (list Z) :=
  match ValidateNoCrypto ev with
  | Err e => Err e
  | Ok _ => match policyChecks ev p now with Err e => Err e | Ok _ => Ok (unsignedHash ev) end
  end.

(** With the signature checked apart, both validations admit the same events. *)
Lemma validate_split ev p now :
  validateWithPolicy ev p now = Ok tt <-> validateWithPolicyNoCrypto ev p now = Ok (unsignedHash ev) /\ Verify ev = Ok tt.
Proof.
  unfold validateWithPolicy, validateWithPolicyNoCrypto, Validate.
  destruct (ValidateNoCrypto ev) as [[]|]; [|split; [done|intros [? _]; done]].
  destruct (Verify ev) as [[]|], (policyChecks ev p now) as [[]|]; split; intros; try tauto; try done; destruct_and?; done.
Qed.

End policy.
