(* ===== verification/Ledger.v ===== *)
(** * The ledger ([pkg/ledger/ledger.go], [pkg/ledger/mvp_api.go])

    The event store with its heads, author sequences, missing references, compromised keys
    and witness indexes; adding and applying events, the witness events the ledger signs by
    itself, confirmation, pruning, retention with anchors, and snapshots.  The properties
    are in the files LedgerInv, LedgerReach, LedgerPrune, LedgerTrust and LedgerSnap. *)

From S2P Require Import Prelude Sha256 GoStr LedgerEvent LedgerKinds.

#[local] Open Scope ledger_scope.

Record SnapshotAnchor := mkAnchor {
  an_SchemaVersion : Z;
  an_CreatedAt : Z;
  an_PrunedCount : Z;
  an_FirstCreatedAt : Z;
  an_LastCreatedAt : Z;
  an_RootHashB64 : string;
  an_PrevAnchorHashB : string;
  an_AnchorHashB64 : string;
}.

Record Snapshot := mkSnapshot {
  sn_SchemaVersion : Z;
  sn_UpdatedAt : Z;
  sn_Events : list Event;
  sn_Heads : list string;
  sn_Anchors : list SnapshotAnchor;
}.

(** A map from two keys to a set of keys: the indexes of witnesses. *)
Abbreviation index := (gmap string (gmap string (gset string))) (only parsing).

(** A nil map reads as an empty one. *)
Record Ledger := mkLedger {
  events : gmap string Event;
  heads : gset string;
  authorSeq : gmap string (gmap Z string);
  missingRefs : gmap string Z;
  missingRefWeight : gmap string Z;
  compromised : gset string;
  attestations : index;
  checkpoints : index;
  introductions : index;
  anchors : list SnapshotAnchor;
}.

Definition New : Ledger := mkLedger ∅ ∅ ∅ ∅ ∅ ∅ ∅ ∅ ∅ [].

Definition with_events (x : gmap string Event) (l : Ledger) : Ledger :=
  mkLedger x (heads l) (authorSeq l) (missingRefs l) (missingRefWeight l) (compromised l) (attestations l) (checkpoints l) (introductions l) (anchors l).
Definition with_heads (x : gset string) (l : Ledger) : Ledger :=
  mkLedger (events l) x (authorSeq l) (missingRefs l) (missingRefWeight l) (compromised l) (attestations l) (checkpoints l) (introductions l) (anchors l).
Definition with_authorSeq (x : gmap string (gmap Z string)) (l : Ledger) : Ledger :=
  mkLedger (events l) (heads l) x (missingRefs l) (missingRefWeight l) (compromised l) (attestations l) (checkpoints l) (introductions l) (anchors l).
Definition with_missing (x y : gmap string Z) (l : Ledger) : Ledger :=
  mkLedger (events l) (heads l) (authorSeq l) x y (compromised l) (attestations l) (checkpoints l) (introductions l) (anchors l).
Definition with_compromised (x : gset string) (l : Ledger) : Ledger :=
  mkLedger (events l) (heads l) (authorSeq l) (missingRefs l) (missingRefWeight l) x (attestations l) (checkpoints l) (introductions l) (anchors l).
Definition with_indexes (x y z : index) (l : Ledger) : Ledger :=
  mkLedger (events l) (heads l) (authorSeq l) (missingRefs l) (missingRefWeight l) (compromised l) x y z (anchors l).
Definition with_anchors (x : list SnapshotAnchor) (l : Ledger) : Ledger :=
  mkLedger (events l) (heads l) (authorSeq l) (missingRefs l) (missingRefWeight l) (compromised l) (attestations l) (checkpoints l) (introductions l) x.

(** [m[a][b]], and [m[a][b][k] = struct{}{}] for all k of a set. *)
Definition index_get (m : index) (a b : string) : gset string := default ∅ (m !! a ≫= fun i => i !! b).
Definition index_add (m : index) (a b : string) (ks : gset string) : index :=
  <[a := <[b := index_get m a b ∪ ks]> (default ∅ (m !! a))]> m.

Definition has_event (l : Ledger) (id : string) : bool := bool_decide (is_Some (events l !! id)).

Definition seqs_of (l : Ledger) (author : string) : gmap Z string := default ∅ (authorSeq l !! author).

(** ** Adding an event *)

Section ledger.
Context `{Ed25519} `{PayloadJSON}.

(** [missingRefs[k]++; missingRefWeight[k] += w] unless the event is there. *)
Definition note_missing (k : string) (w : Z) (l : Ledger) : Ledger :=
  if has_event l k then l
  else with_missing (<[k := default 0 (missingRefs l !! k) + 1]> (missingRefs l))
         (<[k := default 0 (missingRefWeight l !! k) + w]> (missingRefWeight l)) l.

Definition trackMissingRefsLocked (ev : Event) (requireKnownPrev : bool) (l : Ledger) : Ledger :=
  let w := syncPriorityWeight (Kind ev) in
  let l :=
    if (1 <? Seq ev) && negb (is_empty (Prev ev)) && negb requireKnownPrev then note_missing (Prev ev) w l else l in
  let l := fold_left (fun l p => note_missing p w l) (parents ev) l in
  if String.eqb (Kind ev) KindWitnessAttest then
    match requireInlinePayload read_attestation ev with
    | Err _ => l
    | Ok pl =>
        let id := TrimSpace (at_EventID pl) in
        if is_empty id then l else note_missing id w l
    end
  else l.

Definition indexLocked (ev : Event) (l : Ledger) : Ledger :=
  let key := AuthorKeyB64 ev in
  if String.eqb (Kind ev) KindWitnessAttest then
    match requireInlinePayload read_attestation ev with
    | Err _ => l
    | Ok pl => with_indexes (index_add (attestations l) (at_EventID pl) (at_Context pl) {[key]}) (checkpoints l) (introductions l) l
    end
  else if String.eqb (Kind ev) KindWitnessCheckpoint then
    match requireInlinePayload read_checkpoint ev with
    | Err _ => l
    | Ok pl =>
        if is_empty (cp_Context pl) || is_empty (cp_HeadsHash pl) then l
        else with_indexes (attestations l) (index_add (checkpoints l) (cp_Context pl) (cp_HeadsHash pl) {[key]}) (introductions l) l
    end
  else if String.eqb (Kind ev) KindIdentityIntroduce then
    match requireInlinePayload read_introduce ev with
    | Err _ => l
    | Ok pl =>
        let ctx := TrimSpace (ii_Context pl) in
        let subject := TrimSpace (ii_SubjectKeyB64 pl) in
        if is_empty ctx || is_empty subject then l
        else with_indexes (attestations l) (checkpoints l) (index_add (introductions l) ctx subject {[key]}) l
    end
  else l.

(** The event replaces its predecessors among the heads. *)
Definition update_heads (ev : Event) (l : Ledger) : Ledger :=
  if affectsHeads (Kind ev) then
    let hs := if is_empty (Prev ev) then heads l else heads l ∖ {[Prev ev]} in
    let hs := fold_left (fun hs p => hs ∖ {[p]}) (parents ev) hs in
    with_heads (hs ∪ {[ID ev]}) l
  else l.

(** An event whose predecessor is stored must continue it. *)
Definition check_prev (ev : Event) (l : Ledger) : res ledger_err unit :=
  if 1 <? Seq ev then
    match events l !! Prev ev with
    | Some prev =>
        fail! negb (String.eqb (Author prev) (Author ev)) with "prev author mismatch";
        fail! negb (u64 (Seq prev + 1) =? Seq ev) with "prev seq mismatch";
        Ok tt
    | None => Ok tt
    end
  else Ok tt.

(** [l.authorSeq[ev.Author]], made if it is not there. *)
Definition touch_author (ev : Event) (l : Ledger) : Ledger :=
  with_authorSeq (<[Author ev := seqs_of l (Author ev)]> (authorSeq l)) l.

Definition store_event (ev : Event) (l : Ledger) : Ledger :=
  with_authorSeq (<[Author ev := <[Seq ev := ID ev]> (seqs_of l (Author ev))]> (authorSeq l))
    (with_events (<[ID ev := ev]> (events l)) l).

Definition seq_conflict (ev : Event) (l : Ledger) : bool :=
  match seqs_of l (Author ev) !! Seq ev with
  | Some existing => negb (String.eqb existing (ID ev))
  | None => false
  end.

Definition Add (ev : Event) (l : Ledger) : res ledger_err unit * Ledger :=
  match Validate ev with
  | Err e => (Err e, l)
  | Ok _ =>
      if has_event l (ID ev) then (Ok tt, l)
      else
        let l := touch_author ev l in
        if seq_conflict ev l then (Err (Failure "author seq conflict"), l)
        else
          match check_prev ev l with
          | Err e => (Err e, l)
          | Ok _ =>
              let l := store_event ev l in
              let l := with_missing (delete (ID ev) (missingRefs l)) (missingRefWeight l) l in
              (Ok tt, update_heads ev (trackMissingRefsLocked ev false (indexLocked ev l)))
          end
  end.

Definition addLocked (ev : Event) (requireKnownPrev : bool) (l : Ledger) : res ledger_err unit * Ledger :=
  if has_event l (ID ev) then (Ok tt, l)
  else if (1 <? Seq ev) && requireKnownPrev && negb (has_event l (Prev ev)) then (Err (Failure "prev not found"), l)
  else
    let l := touch_author ev l in
    if seq_conflict ev l then (Err (Failure "author seq conflict"), l)
    else
      let l := store_event ev l in
      let l := with_missing (delete (ID ev) (missingRefs l)) (delete (ID ev) (missingRefWeight l)) l in
      (Ok tt, update_heads ev (trackMissingRefsLocked ev requireKnownPrev (indexLocked ev l))).

(** ** Events the ledger signs for its observer *)

(** The largest sequence number of an author and its event. *)
Definition max_seq (m : gmap Z string) : Z * string :=
  map_fold (fun s id acc => if acc.1 <? s then (s, id) else acc) (0, ""%string) m.

Definition sorted_heads (l : Ledger) : list string := sort_strings (elements (heads l)).

Definition nextSeqLocked (author : string) (l : Ledger) : Z * string * list string :=
  let '(max, maxID) := max_seq (seqs_of l author) in
  let '(seq, prev) := if 0 <? max then (u64 (max + 1), maxID) else (1, ""%string) in
  (seq, prev, take (Z.to_nat MaxParents) (sorted_heads l)).

(** The common end of the builders: an inline payload, signed by the observer. *)
Definition signed_as (o : Observer) (kind : string) (raw : list Z) (next : Z * string * list string) (clock : Z)
    : res ledger_err Event :=
  match InlinePayloadRef raw with
  | Err e => Err e
  | Ok (_, ref) =>
      let '(seq, prev, ps) := next in
      NewSignedEvent (mkInput (ob_Author o) (ob_AuthorPub o) (ob_AuthorPriv o) seq prev ps kind raw ref clock 0 0) clock None
  end.

Definition buildEquivocationMisbehavior (eq : EquivocationEvidence) (o : Observer) next clock : res ledger_err Event :=
  signed_as o KindMisbehaviorEquivoc
    (write_equivocation (mkEquivocation (eq_OffenderAuthor eq) (eq_OffenderKeyB64 eq) (eq_Seq eq) (eq_EventA eq) (eq_EventB eq) ""))
    next clock.

Definition buildReplayMisbehavior (offender : Event) (context : string) (o : Observer) next clock : res ledger_err Event :=
  signed_as o KindMisbehaviorReplay
    (write_replay (mkReplay (Author offender) (AuthorKeyB64 offender) (ID offender) (TrimSpace context))) next clock.

Definition buildSybilMisbehavior (context : string) (suspects : list string) (reason : string) (o : Observer) next clock
    : res ledger_err Event :=
  signed_as o KindMisbehaviorSybil (write_sybil (mkSybil (TrimSpace context) suspects (TrimSpace reason))) next clock.

Definition buildWitnessAttestation (context eventID : string) (o : Observer) next clock : res ledger_err Event :=
  signed_as o KindWitnessAttest (write_attestation (mkAttestation (TrimSpace eventID) (TrimSpace context) "")) next clock.

Definition buildWitnessCheckpoint (context headsHash : string) (headsCount : Z) (o : Observer) next clock : res ledger_err Event :=
  signed_as o KindWitnessCheckpoint
    (write_checkpoint (mkCheckpoint (TrimSpace context) 0 0 [] (TrimSpace headsHash) headsCount)) next clock.

Definition buildSyncSummary (context headsHash : string) (headCount : Z) (o : Observer) next clock : res ledger_err Event :=
  signed_as o KindSyncSummary (write_summary (mkSummary (TrimSpace context) (TrimSpace headsHash) headCount)) next clock.

(** [if err == nil && validateWithPolicy(mev, p) == nil { _ = l.addLocked(mev, false) }] *)
Definition add_own (built : res ledger_err Event) (p : Policy) (clock : Z) (l : Ledger) : Ledger :=
  match built with
  | Err _ => l
  | Ok mev =>
      match validateWithPolicy mev p clock with
      | Err _ => l
      | Ok _ => (addLocked mev false l).2
      end
  end.

(** ** Applying an event under a policy *)

Definition order_ids (a b : string) : string * string := if str_lt b a then (b, a) else (a, b).

(** Another event of the author under this number: both keys are compromised. *)
Definition equivocate (ev : Event) (existing : string) (l : Ledger) : EquivocationEvidence * Ledger :=
  let other := events l !! existing in
  let otherKey := match other with Some e => AuthorKeyB64 e | None => "" end in
  let otherID := match other with Some e => ID e | None => "" end in
  let '(a, b) := order_ids otherID (ID ev) in
  (mkEvidence (Author ev) (AuthorKeyB64 ev) (Seq ev) a b,
   with_compromised (compromised l ∪ {[otherKey; AuthorKeyB64 ev]}) l).

(** What a valid observer signs when it is there. *)
Definition observe (observer : option Observer) (build : Observer -> Z * string * list string -> res ledger_err Event)
    (p : Policy) (clock : Z) (l : Ledger) : Ledger :=
  match observer with
  | Some o =>
      match Observer_Valid o with
      | Err _ => l
      | Ok _ => add_own (build o (nextSeqLocked (ob_Author o) l)) p clock l
      end
  | None => l
  end.

Definition autoWitnessAfterApplyLocked (ev : Event) (context : string) (p : Policy) (observer : option Observer) (clock : Z)
    (l : Ledger) : Ledger :=
  match observer with
  | None => l
  | Some o =>
      let ctx := TrimSpace context in
      let observerKey := EncodeToString (ob_AuthorPub o) in
      if negb (is_ok (Observer_Valid o)) || is_empty ctx || (Weight (Trust p) ctx observerKey <=? 0)
         || bool_decide (observerKey ∈ compromised l)
         || bool_decide (Kind ev ∈ [KindWitnessAttest; KindWitnessCheckpoint; KindSyncSummary])
      then l
      else
        let l :=
          if isCriticalKind (Kind ev) then
            let l := with_indexes (index_add (attestations l) (ID ev) ctx ∅) (checkpoints l) (introductions l) l in
            if bool_decide (observerKey ∈ index_get (attestations l) (ID ev) ctx) then l
            else add_own (buildWitnessAttestation ctx (ID ev) o (nextSeqLocked (ob_Author o) l) clock) p clock l
          else l in
        if negb (affectsHeads (Kind ev)) || negb (isCriticalKind (Kind ev)) || bool_decide (heads l = ∅) then l
        else
          let '(headsHash, headCount) := ComputeHeadsHash (elements (heads l)) in
          let l := with_indexes (attestations l) (index_add (checkpoints l) ctx headsHash ∅) (introductions l) l in
          if bool_decide (observerKey ∈ index_get (checkpoints l) ctx headsHash) then l
          else add_own (buildWitnessCheckpoint ctx headsHash headCount o (nextSeqLocked (ob_Author o) l) clock) p clock l
  end.

(** The event is new under its number. *)
Definition apply_new (ev : Event) (context : string) (p : Policy) (observer : option Observer) (clock : Z) (l : Ledger)
    : res ledger_err Status * Ledger :=
  if (1 <? Seq ev) && RequireKnownPrev p && negb (has_event l (Prev ev)) then (Err (Failure "prev not found"), l)
  else
    match check_prev ev l with
    | Err e => (Err e, l)
    | Ok _ =>
        match addLocked ev (RequireKnownPrev p) l with
        | (Err e, l) => (Err e, l)
        | (Ok _, l) => (Ok StatusAccepted, autoWitnessAfterApplyLocked ev context p observer clock l)
        end
    end.

(** The part under the lock that both forms of application share. *)
Definition applyLocked (ev : Event) (context : string) (p : Policy) (observer : option Observer) (clock : Z) (l : Ledger)
    : res ledger_err Status * Ledger :=
  if has_event l (ID ev) then (Ok StatusAccepted, l)
  else
    let l := touch_author ev l in
    match seqs_of l (Author ev) !! Seq ev with
    | Some existing =>
        if negb (String.eqb existing (ID ev)) then
          let '(eq, l) := equivocate ev existing l in
          (Err (EquivocationError eq),
           observe observer (fun o next => buildEquivocationMisbehavior eq o next clock) p clock l)
        else apply_new ev context p observer clock l
    | None => apply_new ev context p observer clock l
    end.

(** An event outside the age limit is answered by evidence of a replay. *)
Definition reject_event (e : ledger_err) (ev : Event) (context : string) (p : Policy) (observer : option Observer) (clock : Z)
    (l : Ledger) : res ledger_err Status * Ledger :=
  match e with
  | ErrEventTooOld =>
      if is_blank context then (Err e, l)
      else (Err e, observe observer (fun o next => buildReplayMisbehavior ev context o next clock) p clock l)
  | _ => (Err e, l)
  end.

Definition ApplyWithContext (ev : Event) (context : string) (pol : option Policy) (observer : option Observer) (clock : Z)
    (l : Ledger) : res ledger_err Status * Ledger :=
  let p := default DefaultPolicy pol in
  match validateWithPolicy ev p clock with
  | Err e => reject_event e ev context p observer clock l
  | Ok _ => applyLocked ev context p observer clock l
  end.

(** The caller has checked the signature. *)
Definition ApplyVerifiedWithContext (ev : Event) (context : string) (pol : option Policy) (observer : option Observer) (clock : Z)
    (l : Ledger) : res ledger_err Status * Ledger :=
  let p := default DefaultPolicy pol in
  match validateWithPolicyNoCrypto ev p clock with
  | Err e => reject_event e ev context p observer clock l
  | Ok hash =>
      if negb (bool_decide (ID ev = EncodeToString hash)) then (Err (Failure "id mismatch"), l)
      else applyLocked ev context p observer clock l
  end.

Definition Apply (ev : Event) (pol : option Policy) (observer : option Observer) (clock : Z) (l : Ledger) : res ledger_err Status * Ledger :=
  ApplyWithContext ev "" pol observer clock l.

Definition ApplyVerified (ev : Event) (pol : option Policy) (observer : option Observer) (clock : Z) (l : Ledger) : res ledger_err Status * Ledger :=
  ApplyVerifiedWithContext ev "" pol observer clock l.

(** ** Emitting events on request *)

(** The end of the Emit operations: the event must be valid and stored. *)
Definition emit_own (built : res ledger_err Event) (p : Policy) (clock : Z) (l : Ledger) : res ledger_err Event * Ledger :=
  match built with
  | Err e => (Err e, l)
  | Ok ev =>
      match validateWithPolicy ev p clock with
      | Err e => (Err e, l)
      | Ok _ => match addLocked ev false l with (Err e, l) => (Err e, l) | (Ok _, l) => (Ok ev, l) end
      end
  end.

Definition refused (message : string) (l : Ledger) : res ledger_err Event * Ledger := (Err (Failure message), l).

Definition EmitWitnessAttest (context eventID : string) (pol : option Policy) (observer : option Observer) (clock : Z) (l : Ledger)
    : res ledger_err Event * Ledger :=
  match observer with
  | None => refused "observer is nil" l
  | Some o =>
      match Observer_Valid o with
      | Err e => (Err e, l)
      | Ok _ =>
          let ctx := TrimSpace context in
          let id := TrimSpace eventID in
          let p := default DefaultPolicy pol in
          if is_empty ctx then refused "context required" l
          else if is_empty id then refused "event_id required" l
          else if Weight (Trust p) ctx (EncodeToString (ob_AuthorPub o)) <=? 0 then refused "observer is not a witness" l
          else if negb (has_event l id) then refused "attest event not found" l
          else emit_own (buildWitnessAttestation ctx id o (nextSeqLocked (ob_Author o) l) clock) p clock l
      end
  end.

Definition EmitWitnessCheckpoint (context : string) (pol : option Policy) (observer : option Observer) (clock : Z) (l : Ledger)
    : res ledger_err Event * Ledger :=
  match observer with
  | None => refused "observer is nil" l
  | Some o =>
      match Observer_Valid o with
      | Err e => (Err e, l)
      | Ok _ =>
          let ctx := TrimSpace context in
          let p := default DefaultPolicy pol in
          if is_empty ctx then refused "context required" l
          else if Weight (Trust p) ctx (EncodeToString (ob_AuthorPub o)) <=? 0 then refused "observer is not a witness" l
          else if bool_decide (heads l = ∅) then refused "heads required" l
          else
            let '(headsHash, headCount) := ComputeHeadsHash (elements (heads l)) in
            emit_own (buildWitnessCheckpoint ctx headsHash headCount o (nextSeqLocked (ob_Author o) l) clock) p clock l
      end
  end.

Definition EmitSyncSummary (context : string) (pol : option Policy) (observer : option Observer) (clock : Z) (l : Ledger)
    : res ledger_err Event * Ledger :=
  match observer with
  | None => refused "observer is nil" l
  | Some o =>
      match Observer_Valid o with
      | Err e => (Err e, l)
      | Ok _ =>
          let ctx := TrimSpace context in
          let p := default DefaultPolicy pol in
          if is_empty ctx then refused "context required" l
          else if bool_decide (heads l = ∅) then refused "heads required" l
          else
            let '(headsHash, headCount) := ComputeHeadsHash (elements (heads l)) in
            emit_own (buildSyncSummary ctx headsHash headCount o (nextSeqLocked (ob_Author o) l) clock) p clock l
      end
  end.

Definition EmitSybilMisbehavior (context : string) (suspects : list string) (reason : string) (pol : option Policy)
    (observer : option Observer) (clock : Z) (l : Ledger) : res ledger_err Event * Ledger :=
  match observer with
  | None => refused "observer is nil" l
  | Some o =>
      match Observer_Valid o with
      | Err e => (Err e, l)
      | Ok _ =>
          let p := default DefaultPolicy pol in
          emit_own (buildSybilMisbehavior context suspects reason o (nextSeqLocked (ob_Author o) l) clock) p clock l
      end
  end.

(** ** Confirmation *)

(** The loop over a set of keys, in the order [keys] in which a range visits it. *)
Fixpoint score_loop (t : TrustPolicy) (context : string) (bad : gset string) (thr : Z) (keys : list string) (score : Z) : Z * bool :=
  match keys with
  | [] => (score, false)
  | key :: keys' =>
      if bool_decide (key ∈ bad) then score_loop t context bad thr keys' score
      else
        let w := Weight t context key in
        if w <=? 0 then score_loop t context bad thr keys' score
        else
          let score := i64 (score + w) in
          if thr <=? score then (score, true) else score_loop t context bad thr keys' score
  end.

(** [range] lists a set in the order a range visits it. *)
Definition weigh (range : gset string -> list string) (t : TrustPolicy) (context : string) (ks : gset string) (l : Ledger) : Z * bool :=
  score_loop t context (compromised l) (Threshold t context) (range ks) 0.

Definition Confirmed (range : gset string -> list string) (eventID context : string) (pol : option Policy) (l : Ledger) : Z * bool :=
  let t := Trust (default DefaultPolicy pol) in
  if Threshold t context <=? 0 then (0, false)
  else if negb (has_event l eventID) then (0, false)
  else weigh range t context (index_get (attestations l) eventID context) l.

Definition Introduced (range : gset string -> list string) (subjectKeyB64 context : string) (pol : option Policy) (l : Ledger) : Z * bool :=
  let t := Trust (default DefaultPolicy pol) in
  if Threshold t context <=? 0 then (0, false)
  else
    let subject := TrimSpace subjectKeyB64 in
    if is_empty subject then (0, false)
    else weigh range t context (index_get (introductions l) context subject) l.

Definition Checkpointed (range : gset string -> list string) (context headsHash : string) (pol : option Policy) (l : Ledger) : Z * bool :=
  let t := Trust (default DefaultPolicy pol) in
  if Threshold t context <=? 0 then (0, false)
  else
    let h := TrimSpace headsHash in
    if is_empty h then (0, false)
    else weigh range t context (index_get (checkpoints l) context h) l.

(** [None] is the empty status. *)
Definition EventStatus (range : gset string -> list string) (eventID context : string) (pol : option Policy) (l : Ledger) : option Status :=
  let id := TrimSpace eventID in
  if is_empty id then None
  else if negb (has_event l id) then None
  else if (Confirmed range id context pol l).2 then Some StatusConfirmed else Some StatusAccepted.

(** ** Pruning *)

(** What some event names as its predecessor or parent. *)
Definition referenced (evs : gmap string Event) : gset string :=
  map_fold (fun _ ev acc => (if is_empty (Prev ev) then ∅ else {[Prev ev]}) ∪ list_to_set (parents ev) ∪ acc) ∅ evs.

Definition recomputeHeadsLocked (l : Ledger) : Ledger :=
  let affecting := filter (fun kv => affectsHeads (Kind kv.2) = true) (events l) in
  with_heads (dom affecting ∖ referenced affecting) l.

(** Every index is cleared, then every event is added again; [evs] is the order in which
    the range visits the events, which are still in the map. *)
Definition rebuildLocked (evs : list Event) (l : Ledger) : Ledger :=
  let l := mkLedger (events l) ∅ ∅ ∅ ∅ (compromised l) ∅ ∅ ∅ (anchors l) in
  recomputeHeadsLocked (fold_left (fun l ev => (addLocked ev false l).2) evs l).

(** [time.Time.Add(-d).Unix()] *)
Definition cutoff (now d : Z) : Z := Unix (TimeAdd now (- d)).

Definition prunable (p : Policy) (now : Z) (l : Ledger) (refs : gset string) (id : string) (ev : Event) : bool :=
  let ret := default 0 (RetentionByKind p !! Kind ev) in
  (0 <? ret) && (CreatedAt ev <? cutoff now ret) && negb (bool_decide (id ∈ heads l)) && negb (bool_decide (id ∈ refs)).

Definition Prune (now : Z) (pol : option Policy) (l : Ledger) : Z * Ledger :=
  let p := default DefaultPolicy pol in
  if bool_decide (RetentionByKind p = ∅) then (0, l)
  else
    let refs := referenced (events l) in
    let kept := filter (fun kv => prunable p now l refs kv.1 kv.2 = false) (events l) in
    let pruned := Z.of_nat (size (events l)) - Z.of_nat (size kept) in
    let l := with_events kept l in
    (pruned, if 0 <? pruned then rebuildLocked (map_to_list kept).*2 l else l).

(** ** Retention *)

Record RetentionPolicy := mkRetention { MaxEvents : Z; MaxAge : Z; CriticalOnly : bool }.

(** The order of creation, then of identifiers. *)
Definition event_le (a b : Event) : Prop := CreatedAt a < CreatedAt b \/ (CreatedAt a = CreatedAt b /\ str_le (ID a) (ID b)).

#[export] Instance event_le_dec : RelDecision event_le.
Proof. intros a b. unfold event_le. apply _. Defined.

Definition sort_events (evs : list Event) : list Event := merge_sort event_le evs.

Definition rootHashIDs (evs : list Event) : string :=
  match evs with
  | [] => ""
  | _ => EncodeToString (Sum256 (concat (map (fun ev => bytes_of (ID ev) ++ [10]) (sort_events evs))))
  end.

Definition anchorHash (prev root : string) (prunedCount first last createdAt : Z) : string :=
  EncodeToString (Sum256 (bytes_of prev ++ [10] ++ bytes_of root ++ [10]
    ++ json_int prunedCount ++ [124] ++ json_int first ++ [124] ++ json_int last ++ [124] ++ json_int createdAt)).

Definition protected (pol : RetentionPolicy) (hs refs : gset string) (ev : Event) : bool :=
  bool_decide (ID ev ∈ hs) || bool_decide (ID ev ∈ refs) || (CriticalOnly pol && isCriticalKind (Kind ev)).

(** Oldest first, until at most [target] events are left. *)
Fixpoint shrink (pol : RetentionPolicy) (hs refs : gset string) (target : Z) (all : list Event) (evs : gmap string Event)
    (pruned : list Event) : gmap string Event * list Event :=
  match all with
  | [] => (evs, pruned)
  | ev :: all' =>
      if Z.of_nat (size evs) <=? target then (evs, pruned)
      else if protected pol hs refs ev then shrink pol hs refs target all' evs pruned
      else shrink pol hs refs target all' (delete (ID ev) evs) (pruned ++ [ev])
  end.

Definition make_anchor (now : Z) (prunedEvents : list Event) (chain : list SnapshotAnchor) : SnapshotAnchor :=
  let times := CreatedAt <$> prunedEvents in
  let first := foldr Z.min (hd 0 times) times in
  let last := foldr Z.max (hd 0 times) times in
  let root := rootHashIDs prunedEvents in
  let prev := match list.last chain with Some a => an_AnchorHashB64 a | None => "" end in
  let count := Z.of_nat (length prunedEvents) in
  mkAnchor SchemaV1 (Unix now) count first last root prev (anchorHash prev root count first last (Unix now)).

(** The first pass of [ApplyRetention] removes these. *)
Definition too_old (now : Z) (pol : RetentionPolicy) (hs refs : gset string) (ev : Event) : bool :=
  (0 <? MaxAge pol) && (CreatedAt ev <? cutoff now (MaxAge pol)) && negb (protected pol hs refs ev).

(** Both passes: the events left and the events removed. *)
Definition retain (now : Z) (pol : RetentionPolicy) (hs : gset string) (all : gmap string Event) : gmap string Event * list Event :=
  let refs := referenced all in
  let aged := (map_to_list (filter (fun kv => too_old now pol hs refs kv.2 = true) all)).*2 in
  let evs := filter (fun kv => too_old now pol hs refs kv.2 = false) all in
  if (0 <? MaxEvents pol) && (MaxEvents pol <? Z.of_nat (size evs))
  then shrink pol hs refs (MaxEvents pol) (sort_events (map_to_list evs).*2) evs aged
  else (evs, aged).

Definition ApplyRetention (now : Z) (pol : RetentionPolicy) (clock : Z) (l : Ledger) : Z * Ledger :=
  let now := if IsZero now then clock else now in
  if (MaxEvents pol <=? 0) && (MaxAge pol <=? 0) then (0, l)
  else
    let pol := mkRetention (Z.max 0 (MaxEvents pol)) (Z.max 0 (MaxAge pol)) (CriticalOnly pol) in
    let '(evs, prunedEvents) := retain now pol (heads l) (events l) in
    let l := with_events evs l in
    match prunedEvents with
    | [] => (0, l)
    | _ =>
        let l := with_anchors (anchors l ++ [make_anchor now prunedEvents (anchors l)]) l in
        (Z.of_nat (length prunedEvents), rebuildLocked (map_to_list evs).*2 l)
    end.

(** ** Queries *)

Definition Have (id : string) (l : Ledger) : bool := has_event l id.
Definition Get (id : string) (l : Ledger) : option Event := events l !! id.
Definition MissingRefs (l : Ledger) : gmap string Z := missingRefs l.
Definition CompromisedKeys (l : Ledger) : list string := sort_strings (elements (compromised l)).
Definition Heads (l : Ledger) : list string := sorted_heads l.
Definition Anchors (l : Ledger) : list SnapshotAnchor := anchors l.

Definition AuthorMaxSeq (author : string) (l : Ledger) : Z :=
  let author := TrimSpace author in
  if is_empty author then 0 else map_fold (fun s _ acc => Z.max s acc) 0 (seqs_of l author).

(** [for s := fromSeq; s <= toSeq; s++] on uint64, with fuel; [None] when it runs out. *)
Fixpoint between_loop (fuel : nat) (s toSeq : Z) (m : gmap Z string) (out : list string) : option (list string) :=
  match fuel with
  | O => None
  | S fuel' =>
      if s <=? toSeq then
        between_loop fuel' (u64 (s + 1)) toSeq m
          (match m !! s with Some id => if is_empty id then out else out ++ [id] | None => out end)
      else Some out
  end.

(** The most strings, of 16 bytes each, that [make] takes for a capacity on a 64-bit machine: the
    memory of a slice is limited to 2^48 bytes. *)
Definition max_capacity : Z := 2 ^ 44.

(** [make] with the capacity [int(toSeq-fromSeq)+1] panics when that is negative or too large:
    the inner [None]. *)
Definition AuthorEventIDsBetween (fuel : nat) (author : string) (fromSeq toSeq : Z) (l : Ledger) : option (option (list string)) :=
  let author := TrimSpace author in
  if is_empty author || (fromSeq =? 0) || (toSeq =? 0) || (toSeq <? fromSeq) then Some (Some [])
  else if bool_decide (seqs_of l author = ∅) then Some (Some [])
  else if (i64 (i64 (toSeq - fromSeq) + 1) <? 0) || (max_capacity <? i64 (i64 (toSeq - fromSeq) + 1)) then Some None
  else Some <$> between_loop fuel fromSeq toSeq (seqs_of l author) [].

(** ** Snapshots *)

Definition CreateSnapshot (clock : Z) (l : Ledger) : Snapshot :=
  mkSnapshot SchemaV1 (Unix clock) (sort_events (map_to_list (events l)).*2) (sorted_heads l) (anchors l).

Fixpoint add_all (evs : list Event) (l : Ledger) : res ledger_err Ledger :=
  match evs with
  | [] => Ok l
  | ev :: evs' => match Add ev l with (Err e, _) => Err e | (Ok _, l) => add_all evs' l end
  end.

Definition NewFromSnapshot (s : Snapshot) : res ledger_err Ledger :=
  if negb (sn_SchemaVersion s =? 0) && negb (sn_SchemaVersion s =? SchemaV1) then Err (Failure "unsupported snapshot schema")
  else
    match add_all (sn_Events s) New with
    | Err e => Err e
    | Ok l =>
        let l :=
          match sn_Heads s with
          | [] => l
          | hs =>
              let known := filter (fun h => is_empty h = false /\ has_event l h = true) hs in
              let l' := with_heads (list_to_set known) l in
              if bool_decide (heads l' = ∅) then recomputeHeadsLocked l' else l'
          end in
        Ok (match sn_Anchors s with [] => l | a => with_anchors a l end)
    end.

Definition LoadFromSnapshot (s : Snapshot) : res ledger_err Ledger := NewFromSnapshot s.

(** ** The append-only interface ([mvp_api.go]) *)

Definition AddEvent (e : Event) (l : Ledger) : res ledger_err unit * Ledger :=
  if (1 <? Seq e) && is_blank (Prev e) then (Err (Failure "prev required for seq>1"), l)
  else if (1 <? Seq e) && negb (Have (Prev e) l) then (Err (Failure "prev not found"), l)
  else if Have (ID e) l then (Err ErrDuplicateEvent, l)
  else Add e l.

Definition normalizeEventIDInput (id : list Z) : option string :=
  match id with
  | [] => None
  | _ =>
      let asString := TrimSpace (str_of id) in
      match (if is_empty asString then None else DecodeString asString) with
      | Some raw => if String.eqb (EncodeToString raw) asString then Some asString else Some (EncodeToString id)
      | None => Some (EncodeToString id)
      end
  end.

Definition GetEvent (id : list Z) (l : Ledger) : option Event := normalizeEventIDInput id ≫= fun evID => Get evID l.

Definition GetHeads (l : Ledger) : list (list Z) :=
  map (fun id => default (bytes_of id) (DecodeString id)) (Heads l).

End ledger.
