(* ===== verification/LedgerInv.v ===== *)
(** * Invariants of the ledger

    The well-formedness of a ledger and its preservation by every operation: adding,
    applying, emitting witness events, pruning and retention.  LedgerReach closes it under
    sequences of operations. *)

From S2P Require Import Prelude Sha256 GoStr LedgerEvent LedgerKinds Ledger.

#[local] Set Warnings "-clear-no-such-hyp".

(** Projections of the setters and of the steps that leave them alone. *)
Lemma index_get_add m a b ks a' b' :
  index_get (index_add m a b ks) a' b' = if decide (a = a' /\ b = b') then index_get m a b ∪ ks else index_get m a' b'.
Proof.
  unfold index_get at 1, index_add. destruct (decide (a = a')) as [<-|Ha].
  - rewrite lookup_insert_eq. simpl. destruct (decide (b = b')) as [<-|Hb].
    + rewrite lookup_insert_eq. simpl. by rewrite decide_True.
    + rewrite lookup_insert_ne by done. rewrite decide_False by tauto. unfold index_get. by destruct (m !! a); simpl; rewrite ?lookup_empty.
  - rewrite lookup_insert_ne by done. rewrite decide_False by tauto. done.
Qed.

Section inv.
Context `{Ed25519} `{PayloadJSON}.

(** ** What the parts of a step touch *)

(** Two ledgers that differ at most in the missing references. *)
Definition same_core (l l' : Ledger) : Prop :=
  events l' = events l /\ heads l' = heads l /\ authorSeq l' = authorSeq l /\ compromised l' = compromised l
  /\ attestations l' = attestations l /\ checkpoints l' = checkpoints l /\ introductions l' = introductions l /\ anchors l' = anchors l.

Lemma same_core_refl l : same_core l l.
Proof. done. Qed.

Lemma same_core_trans l1 l2 l3 : same_core l1 l2 -> same_core l2 l3 -> same_core l1 l3.
Proof. intros (? & ? & ? & ? & ? & ? & ? & ?) (? & ? & ? & ? & ? & ? & ? & ?). unfold same_core. split_and!; congruence. Qed.

Lemma note_missing_core k w l : same_core l (note_missing k w l).
Proof. unfold note_missing. by destruct (has_event l k). Qed.

Lemma note_missing_all_core ps w l : same_core l (fold_left (fun l p => note_missing p w l) ps l).
Proof.
  revert l. induction ps as [|p ps IH]; intros l; [done|]. simpl. eapply same_core_trans; [apply note_missing_core|apply IH].
Qed.

Lemma track_core ev req l : same_core l (trackMissingRefsLocked ev req l).
Proof.
  unfold trackMissingRefsLocked. set (w := syncPriorityWeight (Kind ev)). set (l1 := if (1 <? Seq ev) && negb (is_empty (Prev ev)) && negb req then note_missing (Prev ev) w l else l).
  assert (same_core l l1) as H1 by (unfold l1; case_match; [apply note_missing_core|done]).
  pose proof (same_core_trans _ _ _ H1 (note_missing_all_core (parents ev) w l1)) as H2.
  set (l2 := fold_left (fun l p => note_missing p w l) (parents ev) l1) in *. clearbody l2. clear H1 l1.
  destruct (String.eqb _ _); [|done]. destruct (requireInlinePayload _ _) as [pl|]; [|done].
  destruct (is_empty _); [done|]. eapply same_core_trans; [exact H2|apply note_missing_core].
Qed.

(** The steps of [addLocked] once the event is admitted. *)
Definition insert_event (ev : Event) (req : bool) (wt : gmap string Z) (l : Ledger) : Ledger :=
  update_heads ev (trackMissingRefsLocked ev req (indexLocked ev (with_missing (delete (ID ev) (missingRefs l)) wt (store_event ev l)))).

Lemma events_index ev l : events (indexLocked ev l) = events l /\ heads (indexLocked ev l) = heads l
  /\ authorSeq (indexLocked ev l) = authorSeq l /\ compromised (indexLocked ev l) = compromised l
  /\ anchors (indexLocked ev l) = anchors l /\ missingRefs (indexLocked ev l) = missingRefs l.
Proof. unfold indexLocked. repeat case_match; done. Qed.

Lemma events_update_heads ev l : events (update_heads ev l) = events l /\ authorSeq (update_heads ev l) = authorSeq l
  /\ missingRefs (update_heads ev l) = missingRefs l /\ compromised (update_heads ev l) = compromised l
  /\ attestations (update_heads ev l) = attestations l /\ checkpoints (update_heads ev l) = checkpoints l
  /\ introductions (update_heads ev l) = introductions l /\ anchors (update_heads ev l) = anchors l.
Proof. unfold update_heads. by destruct (affectsHeads _). Qed.

Lemma insert_event_events ev req wt l : events (insert_event ev req wt l) = <[ID ev := ev]> (events l).
Proof.
  unfold insert_event. rewrite (proj1 (events_update_heads _ _)).
  destruct (track_core ev req (indexLocked ev (with_missing (delete (ID ev) (missingRefs l)) wt (store_event ev l)))) as (-> & _).
  by rewrite (proj1 (events_index _ _)).
Qed.

Lemma insert_event_seqs ev req wt l : authorSeq (insert_event ev req wt l) = <[Author ev := <[Seq ev := ID ev]> (seqs_of l (Author ev))]> (authorSeq l).
Proof.
  unfold insert_event. destruct (events_update_heads ev (trackMissingRefsLocked ev req (indexLocked ev (with_missing (delete (ID ev) (missingRefs l)) wt (store_event ev l))))) as (_ & -> & _).
  destruct (track_core ev req (indexLocked ev (with_missing (delete (ID ev) (missingRefs l)) wt (store_event ev l)))) as (_ & _ & -> & _).
  by destruct (events_index ev (with_missing (delete (ID ev) (missingRefs l)) wt (store_event ev l))) as (_ & _ & -> & _).
Qed.

Lemma compromised_insert ev req wt l : compromised (insert_event ev req wt l) = compromised l.
Proof.
  unfold insert_event. set (l0 := with_missing _ _ _).
  destruct (events_update_heads ev (trackMissingRefsLocked ev req (indexLocked ev l0))) as (_ & _ & _ & -> & _).
  destruct (track_core ev req (indexLocked ev l0)) as (_ & _ & _ & -> & _).
  by destruct (events_index ev l0) as (_ & _ & _ & -> & _).
Qed.

Lemma anchors_insert ev req wt l : anchors (insert_event ev req wt l) = anchors l.
Proof.
  unfold insert_event. set (l0 := with_missing _ _ _).
  destruct (events_update_heads ev (trackMissingRefsLocked ev req (indexLocked ev l0))) as (_ & _ & _ & _ & _ & _ & _ & ->).
  destruct (track_core ev req (indexLocked ev l0)) as (_ & _ & _ & _ & _ & _ & _ & ->).
  by destruct (events_index ev l0) as (_ & _ & _ & _ & -> & _).
Qed.

(** ** Heads *)

(** The event names [h] as its predecessor or parent. *)
Definition refers (ev : Event) (h : string) : Prop := (Prev ev <> ""%string /\ h = Prev ev) \/ h ∈ parents ev.

Lemma remove_all_spec (ps : list string) (hs : gset string) h :
  h ∈ fold_left (fun (hs : gset string) p => hs ∖ {[p]}) ps hs <-> h ∈ hs /\ h ∉ ps.
Proof.
  revert hs. induction ps as [|p ps IH]; intros hs; simpl; [set_solver|]. rewrite IH, not_elem_of_cons. set_solver.
Qed.

Lemma update_heads_spec ev l h :
  h ∈ heads (update_heads ev l)
  <-> if affectsHeads (Kind ev) then h = ID ev \/ (h ∈ heads l /\ ~ refers ev h) else h ∈ heads l.
Proof.
  unfold update_heads. destruct (affectsHeads (Kind ev)); [|done]. simpl.
  rewrite elem_of_union, elem_of_singleton, remove_all_spec. unfold refers.
  destruct (is_empty (Prev ev)) eqn:E.
  - apply is_empty_spec in E. rewrite E. split; [intros [[? ?]|?]|intros [?|[? ?]]]; try tauto.
  - assert (Prev ev <> ""%string) by (intros Hp; by rewrite Hp in E).
    rewrite elem_of_difference, elem_of_singleton. destruct (decide (h ∈ parents ev)), (decide (h = Prev ev)); tauto.
Qed.

Lemma insert_event_heads ev req wt l h :
  h ∈ heads (insert_event ev req wt l)
  <-> if affectsHeads (Kind ev) then h = ID ev \/ (h ∈ heads l /\ ~ refers ev h) else h ∈ heads l.
Proof.
  unfold insert_event. rewrite update_heads_spec.
  destruct (track_core ev req (indexLocked ev (with_missing (delete (ID ev) (missingRefs l)) wt (store_event ev l)))) as (_ & -> & _).
  by destruct (events_index ev (with_missing (delete (ID ev) (missingRefs l)) wt (store_event ev l))) as (_ & -> & _).
Qed.

(** ** Missing references *)

Definition missing_ok (l : Ledger) : Prop := forall k n, missingRefs l !! k = Some n -> events l !! k = None /\ 0 < n.

Lemma note_missing_ok k w l : missing_ok l -> missing_ok (note_missing k w l).
Proof.
  intros Hl. unfold note_missing, has_event. case_bool_decide as Hk; [done|].
  intros k' n. simpl. intros [[<- <-]|[_ Hn]]%lookup_insert_Some; [|by apply Hl].
  split; [by apply eq_None_not_Some|]. destruct (missingRefs l !! k) as [m|] eqn:E; simpl; [apply Hl in E as [_ ?]|]; lia.
Qed.

Lemma track_missing_ok ev req l : missing_ok l -> missing_ok (trackMissingRefsLocked ev req l).
Proof.
  intros Hl. unfold trackMissingRefsLocked. set (w := syncPriorityWeight (Kind ev)).
  set (l1 := if (1 <? Seq ev) && negb (is_empty (Prev ev)) && negb req then note_missing (Prev ev) w l else l).
  assert (missing_ok l1) as H1 by (unfold l1; case_match; auto using note_missing_ok).
  assert (missing_ok (fold_left (fun l p => note_missing p w l) (parents ev) l1)) as H2.
  { clearbody l1. clear Hl l. revert l1 H1. induction (parents ev) as [|p ps IH]; intros l1 H1; [done|]. simpl. auto using note_missing_ok. }
  repeat case_match; auto using note_missing_ok.
Qed.

Lemma insert_event_missing ev req wt l : missing_ok l -> missing_ok (insert_event ev req wt l).
Proof.
  intros Hl. unfold insert_event. set (l0 := with_missing (delete (ID ev) (missingRefs l)) wt (store_event ev l)).
  destruct (events_index ev l0) as (E1 & _ & _ & _ & _ & E2).
  assert (missing_ok (trackMissingRefsLocked ev req (indexLocked ev l0))) as Ht.
  { apply track_missing_ok. intros k n. rewrite E2, E1. simpl. intros [Hne Hk]%lookup_delete_Some.
    rewrite lookup_insert_ne by done. by apply Hl. }
  destruct (events_update_heads ev (trackMissingRefsLocked ev req (indexLocked ev l0))) as (E3 & _ & E4 & _).
  intros k n. rewrite E4, E3. apply Ht.
Qed.

(** ** Indexes *)

Definition attests (ev : Event) (id ctx : string) : Prop :=
  Kind ev = KindWitnessAttest /\ exists pl, requireInlinePayload read_attestation ev = Ok pl /\ at_EventID pl = id /\ at_Context pl = ctx.

Definition checkpoints_at (ev : Event) (ctx h : string) : Prop :=
  Kind ev = KindWitnessCheckpoint /\ exists pl, requireInlinePayload read_checkpoint ev = Ok pl /\ cp_Context pl = ctx /\ cp_HeadsHash pl = h.

Definition introduces (ev : Event) (ctx subject : string) : Prop :=
  Kind ev = KindIdentityIntroduce /\ exists pl, requireInlinePayload read_introduce ev = Ok pl
  /\ TrimSpace (ii_Context pl) = ctx /\ TrimSpace (ii_SubjectKeyB64 pl) = subject.

(** Every key of an index signed a stored event that says so. *)
Definition backed (says : Event -> string -> string -> Prop) (evs : gmap string Event) (m : index) : Prop :=
  forall a b k, k ∈ index_get m a b -> exists i ev, evs !! i = Some ev /\ AuthorKeyB64 ev = k /\ says ev a b.

Definition indexes_backed (l : Ledger) : Prop :=
  backed attests (events l) (attestations l) /\ backed checkpoints_at (events l) (checkpoints l)
  /\ backed introduces (events l) (introductions l).

Lemma backed_add says evs m i ev a b : evs !! i = Some ev -> says ev a b -> backed says evs m ->
  backed says evs (index_add m a b {[AuthorKeyB64 ev]}).
Proof.
  intros Hi Hs Hm a' b' k. rewrite index_get_add. destruct (decide _) as [[<- <-]|]; [|apply Hm].
  rewrite elem_of_union, elem_of_singleton. intros [Hk| ->]; [by apply Hm|eauto].
Qed.

Lemma backed_touch says evs m a b : backed says evs m -> backed says evs (index_add m a b ∅).
Proof.
  intros Hm a' b' k. rewrite index_get_add. destruct (decide _) as [[<- <-]|]; [|apply Hm].
  rewrite elem_of_union. intros [Hk|Hk%elem_of_empty]; [by apply Hm|done].
Qed.

Lemma backed_insert says evs m i ev : evs !! i = None -> backed says evs m -> backed says (<[i := ev]> evs) m.
Proof.
  intros Hi Hm a b k Hk. destruct (Hm a b k Hk) as (j & e & Hj & ?). exists j, e. split; [|done].
  rewrite lookup_insert_ne; [done|]. congruence.
Qed.

Lemma index_locked_backed ev i l : events l !! i = Some ev -> indexes_backed l -> indexes_backed (indexLocked ev l).
Proof.
  intros Hi (H1 & H2 & H3). unfold indexLocked, indexes_backed.
  destruct (String.eqb_spec (Kind ev) KindWitnessAttest) as [Ek|_].
  { destruct (requireInlinePayload read_attestation ev) as [pl|] eqn:Ep; [|done]. split_and!; try done. simpl.
    apply (backed_add _ _ _ i); [done| |done]. split; [done|eauto]. }
  destruct (String.eqb_spec (Kind ev) KindWitnessCheckpoint) as [Ek|_].
  { destruct (requireInlinePayload read_checkpoint ev) as [pl|] eqn:Ep; [|done]. destruct (_ || _); [done|]. split_and!; try done. simpl.
    apply (backed_add _ _ _ i); [done| |done]. split; [done|eauto]. }
  destruct (String.eqb_spec (Kind ev) KindIdentityIntroduce) as [Ek|_]; [|done].
  destruct (requireInlinePayload read_introduce ev) as [pl|] eqn:Ep; [|done]. destruct (_ || _); [done|]. split_and!; try done. simpl.
  apply (backed_add _ _ _ i); [done| |done]. split; [done|eauto].
Qed.

Lemma insert_event_indexes ev req wt l : events l !! ID ev = None -> indexes_backed l -> indexes_backed (insert_event ev req wt l).
Proof.
  intros Hn (H1 & H2 & H3). unfold insert_event. set (l0 := with_missing (delete (ID ev) (missingRefs l)) wt (store_event ev l)).
  assert (indexes_backed (indexLocked ev l0)) as Hi.
  { apply (index_locked_backed _ (ID ev)); [apply lookup_insert_eq|].
    unfold indexes_backed. simpl. auto using backed_insert. }
  destruct (track_core ev req (indexLocked ev l0)) as (E1 & _ & _ & _ & E2 & E3 & E4 & _).
  destruct (events_update_heads ev (trackMissingRefsLocked ev req (indexLocked ev l0))) as (F1 & _ & _ & _ & F2 & F3 & F4 & _).
  unfold indexes_backed. by rewrite F1, F2, F3, F4, E1, E2, E3, E4.
Qed.

(** ** The invariant *)

(** The event is stored and can be a head. *)
Definition head_ok (l : Ledger) (h : string) : Prop := exists ev, events l !! h = Some ev /\ affectsHeads (Kind ev) = true.

Record ledger_ok (l : Ledger) : Prop := {
  ok_keys : forall id ev, events l !! id = Some ev -> ID ev = id;
  ok_heads : forall h, h ∈ heads l -> head_ok l h;
  ok_maximal : forall id ev, events l !! id = Some ev -> affectsHeads (Kind ev) = true ->
    (forall id' ev', events l !! id' = Some ev' -> affectsHeads (Kind ev') = true -> ~ refers ev' id) -> id ∈ heads l;
  ok_missing : missing_ok l;
  ok_indexes : indexes_backed l;
}.

Lemma New_ok : ledger_ok New.
Proof.
  by split.
Qed.

Lemma insert_event_ok ev req wt l : events l !! ID ev = None -> ledger_ok l -> ledger_ok (insert_event ev req wt l).
Proof.
  intros Hn [H1 H2 H3 H4 H5]. split.
  - intros id e. rewrite insert_event_events. intros [[<- <-]|[_ Hid]]%lookup_insert_Some; [done|by apply H1].
  - intros h Hh. unfold head_ok. rewrite insert_event_events. apply insert_event_heads in Hh.
    assert (h ∈ heads l -> exists e, <[ID ev := ev]> (events l) !! h = Some e /\ affectsHeads (Kind e) = true) as Hold.
    { intros [e [He Ha]]%H2. exists e. split; [|done]. rewrite lookup_insert_ne; [done|]. congruence. }
    destruct (affectsHeads (Kind ev)) eqn:Ea; [|auto]. destruct Hh as [->|[Hh _]]; [|auto].
    exists ev. split; [apply lookup_insert_eq|done].
  - intros id e. rewrite insert_event_events. intros Hid Ha Hmax. rewrite insert_event_heads.
    apply lookup_insert_Some in Hid as [[<- <-]|[Hne Hid]]; [rewrite Ha; by left|].
    assert (id ∈ heads l) as Hh.
    { apply (H3 id e Hid Ha). intros id' e' He' Ha'. apply (Hmax id' e'); [|done]. rewrite lookup_insert_ne; [done|].
      congruence. }
    destruct (affectsHeads (Kind ev)) eqn:Ea; [|done]. right. split; [done|]. apply (Hmax (ID ev) ev); [apply lookup_insert_eq|done].
  - by apply insert_event_missing.
  - by apply insert_event_indexes.
Qed.

Lemma events_touch ev l : same_core (touch_author ev l) (touch_author ev l) /\ events (touch_author ev l) = events l.
Proof. done. Qed.

Lemma seqs_touch ev l a : seqs_of (touch_author ev l) a = seqs_of l a.
Proof.
  unfold seqs_of at 1, touch_author. simpl. destruct (decide (Author ev = a)) as [<-|Hne].
  - by rewrite lookup_insert_eq.
  - by rewrite lookup_insert_ne.
Qed.

(** Only the authors' sequence maps and the compromised keys differ: the invariant does not
    mention them. *)
Lemma ledger_ok_ext l l' :
  events l' = events l -> heads l' = heads l -> missingRefs l' = missingRefs l -> indexes_backed l' -> ledger_ok l -> ledger_ok l'.
Proof.
  intros E1 E2 E3 Hi [H1 H2 H3 H4 H5]. split; rewrite ?E1, ?E2; try done.
  - intros h Hh. destruct (H2 h Hh) as [e He]. exists e. by rewrite E1.
  - intros k n. rewrite E3, E1. apply H4.
Qed.

(** ** Closure under the steps that build all operations *)

(** Whatever the operations do between two states is made of these moves; [admits] says
    which events are added. *)
Record closed (admits : Event -> Prop) (P : Ledger -> Prop) : Prop := {
  closed_insert : forall ev req l wt, admits ev -> events l !! ID ev = None -> seq_conflict ev l = false ->
    P l -> P (insert_event ev req wt l);
  closed_touch : forall ev l, P l -> P (touch_author ev l);
  closed_compromised : forall ks l, P l -> P (with_compromised (compromised l ∪ ks) l);
  closed_attestations : forall a b l, P l -> P (with_indexes (index_add (attestations l) a b ∅) (checkpoints l) (introductions l) l);
  closed_checkpoints : forall a b l, P l -> P (with_indexes (attestations l) (index_add (checkpoints l) a b ∅) (introductions l) l);
}.

Lemma has_event_false l id : has_event l id = false -> events l !! id = None.
Proof. unfold has_event. intros Hh%bool_decide_eq_false. by apply eq_None_not_Some. Qed.

Section closure.
Context (admits : Event -> Prop) (P : Ledger -> Prop) (HP : closed admits P).

Lemma addLocked_closed ev req l : admits ev -> P l -> P (addLocked ev req l).2.
Proof.
  intros Ha Hl. unfold addLocked. destruct (has_event l (ID ev)) eqn:Eh; [done|]. case_match; [done|].
  destruct (seq_conflict ev (touch_author ev l)) eqn:Es; [by apply (closed_touch _ _ HP)|].
  apply (closed_insert _ _ HP ev req (touch_author ev l)); [done|by apply has_event_false in Eh|done|by apply (closed_touch _ _ HP)].
Qed.

Lemma Add_closed ev l : (Validate ev = Ok tt -> admits ev) -> P l -> P (Add ev l).2.
Proof.
  intros Ha Hl. unfold Add. destruct (Validate ev) as [[]|]; [|done]. specialize (Ha eq_refl). destruct (has_event l (ID ev)) eqn:Eh; [done|].
  destruct (seq_conflict ev (touch_author ev l)) eqn:Es; [by apply (closed_touch _ _ HP)|].
  destruct (check_prev _ _); [|by apply (closed_touch _ _ HP)].
  apply (closed_insert _ _ HP ev false (touch_author ev l)); [done|by apply has_event_false in Eh|done|by apply (closed_touch _ _ HP)].
Qed.

Context (clock : Z) (p : Policy).
Hypothesis Hown : forall ev, validateWithPolicy ev p clock = Ok tt -> admits ev.

Lemma add_own_closed built l : P l -> P (add_own built p clock l).
Proof.
  intros Hl. unfold add_own. destruct built as [ev|]; [|done]. destruct (validateWithPolicy ev p clock) as [[]|] eqn:E; [|done].
  apply addLocked_closed; auto.
Qed.

Lemma observe_closed observer build l : P l -> P (observe observer build p clock l).
Proof.
  intros Hl. unfold observe. destruct observer as [o|]; [|done]. destruct (Observer_Valid o); [|done]. by apply add_own_closed.
Qed.

Lemma auto_witness_closed ev context observer l : P l -> P (autoWitnessAfterApplyLocked ev context p observer clock l).
Proof.
  intros Hl. unfold autoWitnessAfterApplyLocked. destruct observer as [o|]; [|done]. case_match; [done|].
  match goal with |- P (if _ then ?x else _) => set (l1 := x) end.
  assert (P l1) as Hl1.
  { unfold l1. case_match; [|done]. case_match; [by apply (closed_attestations _ _ HP)|].
    apply add_own_closed. by apply (closed_attestations _ _ HP). }
  clearbody l1. case_match; [done|]. destruct (ComputeHeadsHash _) as [hh hc].
  case_match; [by apply (closed_checkpoints _ _ HP)|]. apply add_own_closed. by apply (closed_checkpoints _ _ HP).
Qed.

Lemma applyLocked_closed ev context observer l : admits ev -> P l -> P (applyLocked ev context p observer clock l).2.
Proof.
  intros Ha Hl. unfold applyLocked. case_match; [done|].
  assert (P (touch_author ev l)) as Ht by (by apply (closed_touch _ _ HP)).
  assert (P (apply_new ev context p observer clock (touch_author ev l)).2) as Hnew.
  { unfold apply_new. case_match; [done|]. case_match; [|done].
    pose proof (addLocked_closed ev (RequireKnownPrev p) _ Ha Ht) as Hadd.
    destruct (addLocked _ _ _) as [[?|?] l1]; [|done]. by apply auto_witness_closed. }
  destruct (seqs_of _ _ !! _); [|done]. case_match; [|done]. unfold equivocate. destruct (order_ids _ _).
  apply observe_closed. by apply (closed_compromised _ _ HP).
Qed.

Lemma reject_closed e ev context observer l : P l -> P (reject_event e ev context p observer clock l).2.
Proof. intros Hl. unfold reject_event. repeat case_match; try done. by apply observe_closed. Qed.

Lemma emit_own_closed built l : P l -> P (emit_own built p clock l).2.
Proof.
  intros Hl. unfold emit_own. destruct built as [ev|]; [|done]. destruct (validateWithPolicy ev p clock) as [[]|] eqn:E; [|done].
  pose proof (addLocked_closed ev false l (Hown ev E) Hl) as Hadd. by destruct (addLocked ev false l) as [[?|?] l1].
Qed.

End closure.

(** ** Rebuilding *)

Lemma referenced_spec evs h : h ∈ referenced evs <-> exists id ev, evs !! id = Some ev /\ refers ev h.
Proof.
  unfold referenced. revert h. apply (map_fold_weak_ind (fun s evs => forall h, h ∈ s <-> exists id ev, evs !! id = Some ev /\ refers ev h)).
  - intros h. split; [intros Hh; by apply elem_of_empty in Hh|intros (id & ev & Hid & _); by rewrite lookup_empty in Hid].
  - intros i ev m s Hi IH h. rewrite elem_of_union, IH, elem_of_union, elem_of_list_to_set.
    assert (h ∈ (if is_empty (Prev ev) then ∅ else {[Prev ev]} : gset string) <-> Prev ev <> ""%string /\ h = Prev ev) as Hprev.
    { destruct (is_empty (Prev ev)) eqn:E.
      - apply is_empty_spec in E. rewrite E. split; [intros Hh; by apply elem_of_empty in Hh|tauto].
      - rewrite elem_of_singleton. split; [|tauto]. intros ->. split; [|done]. intros Hp. by rewrite Hp in E. }
    rewrite Hprev. fold (refers ev h). split.
    + intros [Hr|(id & e & Hid & Hr)]; [exists i, ev|exists id, e]; (split; [|done]).
      * apply lookup_insert_eq.
      * rewrite lookup_insert_ne; [done|]. congruence.
    + intros (id & e & [[<- <-]|[Hne Hid]]%lookup_insert_Some & Hr); [by left|right; eauto].
Qed.

Lemma rebuild_noop evs l : Forall (fun ev => is_Some (events l !! ID ev)) evs -> fold_left (fun l ev => (addLocked ev false l).2) evs l = l.
Proof.
  intros Hevs. induction Hevs as [|ev evs Hev _ IH]; [done|]. cbn [fold_left]. unfold addLocked at 2.
  assert (has_event l (ID ev) = true) as -> by (by apply bool_decide_eq_true_2). exact IH.
Qed.

(** The ledger as a rebuild leaves it: the events it keeps find themselves stored already, so
    no index is filled again. *)
Definition cleared (l : Ledger) : Ledger := mkLedger (events l) ∅ ∅ ∅ ∅ (compromised l) ∅ ∅ ∅ (anchors l).

Lemma rebuild_clears evs l : Forall (fun ev => is_Some (events l !! ID ev)) evs -> rebuildLocked evs l = recomputeHeadsLocked (cleared l).
Proof. intros Hevs. unfold rebuildLocked. fold (cleared l). by rewrite rebuild_noop. Qed.

Lemma all_stored l (m : gmap string Event) : (forall id ev, m !! id = Some ev -> ID ev = id) -> events l = m ->
  Forall (fun ev => is_Some (events l !! ID ev)) (map_to_list m).*2.
Proof.
  intros Hk ->. apply Forall_fmap, Forall_forall. intros [id ev] Hin%elem_of_map_to_list. simpl. rewrite (Hk id ev Hin). by exists ev.
Qed.

(** The recomputed heads are the events that can be heads and that no such event refers to. *)
Lemma recompute_spec l h : h ∈ heads (recomputeHeadsLocked l)
  <-> head_ok l h /\ forall id ev, events l !! id = Some ev -> affectsHeads (Kind ev) = true -> ~ refers ev h.
Proof.
  unfold recomputeHeadsLocked. simpl. rewrite elem_of_difference, elem_of_dom, referenced_spec. unfold head_ok, is_Some.
  setoid_rewrite map_lookup_filter_Some. simpl. split.
  - intros [(ev & Hev & Ha) Hn]. split; [by exists ev|]. intros id e He Ha' Hr. apply Hn. by exists id, e.
  - intros [(ev & Hev & Ha) Hn]. split; [by exists ev|]. intros (id & e & [He Ha'] & Hr). by apply (Hn id e).
Qed.

Lemma rebuilt_ok l : (forall id ev, events l !! id = Some ev -> ID ev = id) -> ledger_ok (recomputeHeadsLocked (cleared l)).
Proof.
  intros Hk. split; try done.
  - intros h [Hh _]%recompute_spec. exact Hh.
  - intros id ev Hid Ha Hmax. apply recompute_spec. split; [by exists ev|]. intros id' ev' He' Ha'. by apply (Hmax id' ev').
Qed.


Definition keyed (evs : gmap string Event) : Prop := forall id ev, evs !! id = Some ev -> ID ev = id.

Lemma keyed_subseteq m1 m2 : m1 ⊆ m2 -> keyed m2 -> keyed m1.
Proof. intros Hs Hk id ev Hid. apply Hk. by eapply lookup_weaken. Qed.

Lemma with_events_id l : with_events (events l) l = l.
Proof. by destruct l. Qed.

(** What pruning leaves of the ledger: nothing but the events kept, their heads, the
    compromised keys and the anchors. *)
Definition pruned_to (m : gmap string Event) (l : Ledger) : Ledger := recomputeHeadsLocked (cleared (with_events m l)).

Lemma rebuild_pruned l m : keyed m -> events l = m -> rebuildLocked (map_to_list m).*2 l = recomputeHeadsLocked (cleared l).
Proof. intros Hk He. apply rebuild_clears. by apply all_stored. Qed.

Definition prune_kept (now : Z) (p : Policy) (l : Ledger) : gmap string Event :=
  filter (fun kv => prunable p now l (referenced (events l)) kv.1 kv.2 = false) (events l).

Lemma Prune_cases now pol l : keyed (events l) ->
  Prune now pol l = (0, l)
  \/ (let m := prune_kept now (default DefaultPolicy pol) l in
      (size m < size (events l))%nat /\ Prune now pol l = (Z.of_nat (size (events l)) - Z.of_nat (size m), pruned_to m l)).
Proof.
  intros Hk. unfold Prune. case_bool_decide; [by left|].
  fold (prune_kept now (default DefaultPolicy pol) l). set (m := prune_kept now (default DefaultPolicy pol) l).
  assert (m ⊆ events l) as Hs by apply map_filter_subseteq. pose proof (map_subseteq_size _ _ Hs).
  destruct (Z.ltb_spec 0 (Z.of_nat (size (events l)) - Z.of_nat (size m))).
  - right. split; [lia|]. f_equal. by rewrite (rebuild_pruned _ m) by (done || by eapply keyed_subseteq).
  - left. assert (m = events l) as -> by (apply map_subseteq_size_eq; [done|lia]). by rewrite with_events_id, Z.sub_diag.
Qed.

Lemma pruned_to_ok m l : keyed m -> ledger_ok (pruned_to m l).
Proof. intros Hk. by apply rebuilt_ok. Qed.

Lemma Prune_ok now pol l : ledger_ok l -> ledger_ok (Prune now pol l).2.
Proof.
  intros Hl. destruct (Prune_cases now pol l (ok_keys _ Hl)) as [->|[_ ->]]; [done|]. apply pruned_to_ok.
  apply (keyed_subseteq _ (events l)); [apply map_filter_subseteq|exact (ok_keys _ Hl)].
Qed.

(** ** Retention *)

Lemma shrink_keeps pol hs refs target all evs pruned ev : ev ∈ pruned -> ev ∈ (shrink pol hs refs target all evs pruned).2.
Proof.
  revert evs pruned. induction all as [|e all IH]; intros evs pruned Hin; [done|]. simpl.
  repeat case_match; try done; apply IH; set_solver.
Qed.

(** Oldest first, only unprotected events go, until the target is met or all that are left
    are protected. *)
Lemma shrink_spec pol hs refs target all evs pruned evs' pruned' :
  keyed evs -> Forall (fun ev => evs !! ID ev = Some ev) all -> NoDup (ID <$> all) ->
  shrink pol hs refs target all evs pruned = (evs', pruned') ->
  evs' ⊆ evs
  /\ (length pruned' + size evs' = length pruned + size evs)%nat
  /\ (forall id ev, evs !! id = Some ev -> evs' !! id = None -> protected pol hs refs ev = false /\ ev ∈ pruned')
  /\ (Z.of_nat (size evs') <= target \/ forall ev, ev ∈ all -> evs' !! ID ev = Some ev -> protected pol hs refs ev = true)
  /\ (forall ev, ev ∈ pruned' -> ev ∈ pruned \/ evs !! ID ev = Some ev).
Proof.
  revert evs pruned. induction all as [|ev all IH]; intros evs pruned Hk Hall Hnd Hs; simpl in Hs.
  { simplify_eq. split_and!; try done; [congruence|right; intros ev Hev; by apply elem_of_nil in Hev|by left]. }
  apply Forall_cons in Hall as [Hev Hall]. rewrite fmap_cons in Hnd. apply NoDup_cons in Hnd as [Hnew Hnd].
  destruct (Z.leb_spec (Z.of_nat (size evs)) target).
  { simplify_eq. split_and!; try done; [congruence|by left|by left]. }
  destruct (protected pol hs refs ev) eqn:Ep.
  - destruct (IH evs pruned Hk Hall Hnd Hs) as (K1 & K2 & K3 & K4 & K5). split_and!; try done.
    destruct K4 as [K4|K4]; [by left|right]. intros e [->|He]%elem_of_cons; [done|by apply K4].
  - destruct (IH (delete (ID ev) evs) (pruned ++ [ev])) as (K1 & K2 & K3 & K4 & K5); [| |done|done|].
    { eapply keyed_subseteq; [apply delete_subseteq|done]. }
    { rewrite Forall_forall in Hall. apply Forall_forall. intros e He. rewrite lookup_delete_ne; [by apply Hall|]. intros E. apply Hnew. rewrite E. by apply list_elem_of_fmap_2. }
    assert (evs' !! ID ev = None) as Hgone.
    { destruct (evs' !! ID ev) eqn:E; [|done]. eapply lookup_weaken in E; [|exact K1]. by rewrite lookup_delete_eq in E. }
    split_and!.
    + etrans; [exact K1|apply delete_subseteq].
    + rewrite length_app in K2. simpl in K2. rewrite (map_size_delete_Some _ _ (mk_is_Some _ _ Hev)) in K2.
      assert (size evs <> 0%nat) by (intros E0%map_size_empty_inv; rewrite E0, lookup_empty in Hev; done). lia.
    + intros id e Hid Hout. destruct (decide (id = ID ev)) as [->|Hne].
      * assert (e = ev) as -> by congruence. split; [done|].
        pose proof (shrink_keeps pol hs refs target all (delete (ID ev) evs) (pruned ++ [ev]) ev) as Hkeep.
        rewrite Hs in Hkeep. apply Hkeep, elem_of_app. right. by left.
      * apply (K3 id e); [by rewrite lookup_delete_ne|done].
    + destruct K4 as [K4|K4]; [by left|right]. intros e [->|He]%elem_of_cons He'; [congruence|by apply K4].
    + intros e He. destruct (K5 e He) as [[Hin| ->%list_elem_of_singleton]%elem_of_app|[_ Hd]%lookup_delete_Some]; auto.
Qed.

Lemma sorted_all evs : keyed evs ->
  Forall (fun ev => evs !! ID ev = Some ev) (sort_events (map_to_list evs).*2) /\ NoDup (ID <$> sort_events (map_to_list evs).*2).
Proof.
  intros Hk. assert (sort_events (map_to_list evs).*2 ≡ₚ (map_to_list evs).*2) as Hp by apply merge_sort_Permutation.
  rewrite Hp. split.
  - apply Forall_fmap, Forall_forall. intros [i ev] Hin%elem_of_map_to_list. simpl. by rewrite (Hk _ _ Hin).
  - assert (ID <$> (map_to_list evs).*2 = (map_to_list evs).*1) as ->; [|apply NoDup_fst_map_to_list].
    rewrite <- list_fmap_compose. apply list_fmap_ext. intros n [i ev] Hin. simpl.
    apply list_elem_of_lookup_2 in Hin. apply elem_of_map_to_list in Hin. by apply Hk.
Qed.

Lemma filter_sizes (f : Event -> bool) (m : gmap string Event) :
  (size (filter (fun kv => f kv.2 = true) m) + size (filter (fun kv => f kv.2 = false) m) = size m)%nat.
Proof.
  rewrite <- (map_filter_union_complement (fun kv => f kv.2 = true) m) at 3.
  rewrite map_size_disj_union by apply map_disjoint_filter_complement. f_equal. f_equal. apply map_filter_ext.
  intros i x _. simpl. by destruct (f x).
Qed.

(** What the two passes remove is unprotected; when the bound on the number of events is not
    met, all that is left is protected. *)
Definition retained (pol : RetentionPolicy) (hs : gset string) (all m : gmap string Event) (gone : list Event) : Prop :=
  m ⊆ all /\ (length gone + size m = size all)%nat
  /\ (forall id ev, all !! id = Some ev -> m !! id = None -> protected pol hs (referenced all) ev = false /\ ev ∈ gone)
  /\ (0 < MaxEvents pol -> Z.of_nat (size m) <= MaxEvents pol
      \/ forall id ev, m !! id = Some ev -> protected pol hs (referenced all) ev = true).

Lemma retain_spec now pol hs all : keyed all -> retained pol hs all (retain now pol hs all).1 (retain now pol hs all).2.
Proof.
  intros Hk. unfold retain. set (refs := referenced all). set (old := too_old now pol hs refs).
  set (aged := (map_to_list (filter (fun kv => old kv.2 = true) all)).*2). set (evs := filter (fun kv => old kv.2 = false) all).
  assert (evs ⊆ all) as Hsub by apply map_filter_subseteq.
  assert (length aged + size evs = size all)%nat as Hlen.
  { unfold aged. rewrite length_fmap, length_map_to_list. apply filter_sizes. }
  assert (forall id ev, all !! id = Some ev -> evs !! id = None -> protected pol hs refs ev = false /\ ev ∈ aged) as Haged.
  { intros id ev Hid Hout. destruct (old ev) eqn:Ho.
    - split; [by apply andb_true_iff in Ho as [_ Ho%negb_true_iff]|]. apply list_elem_of_fmap. exists (id, ev).
      split; [done|]. apply elem_of_map_to_list. by apply map_lookup_filter_Some.
    - assert (evs !! id = Some ev) as E by (by apply map_lookup_filter_Some). by rewrite E in Hout. }
  clearbody aged evs. clear old. destruct (_ && _) eqn:Eb.
  - assert (keyed evs) as Hke by (by eapply keyed_subseteq). destruct (sorted_all evs Hke) as [Hall Hnd].
    destruct (shrink _ _ _ _ _ _ _) as [m gone] eqn:Es. simpl.
    destruct (shrink_spec _ _ _ _ _ _ _ _ _ Hke Hall Hnd Es) as (K1 & K2 & K3 & K4 & K5).
    split_and!; [by etrans|lia| |].
    + intros id ev Hid Hout. destruct (evs !! id) as [e|] eqn:Ee.
      * assert (e = ev) as -> by (apply (lookup_weaken _ _ _ _ Ee) in Hsub; congruence). by apply (K3 id).
      * destruct (Haged id ev Hid Ee) as [Hp Hin]. split; [done|].
        pose proof (shrink_keeps pol hs refs (MaxEvents pol) (sort_events (map_to_list evs).*2) evs aged ev Hin) as Hg.
        by rewrite Es in Hg.
    + intros Hpos. destruct K4 as [K4|K4]; [by left|right]. intros id ev Hid.
      pose proof (lookup_weaken _ _ _ _ Hid K1) as He.
      apply K4; [|by rewrite (Hke id ev He)]. unfold sort_events. rewrite merge_sort_Permutation.
      apply list_elem_of_fmap. exists (id, ev). split; [done|]. by apply elem_of_map_to_list.
  - split_and!; [done|done|done|]. intros Hpos. left. apply andb_false_iff in Eb as [Eb|Eb]; simpl; lia.
Qed.

Definition clamped (pol : RetentionPolicy) : RetentionPolicy :=
  mkRetention (Z.max 0 (MaxEvents pol)) (Z.max 0 (MaxAge pol)) (CriticalOnly pol).

Lemma ApplyRetention_cases now pol clock l : keyed (events l) ->
  ((MaxEvents pol <=? 0) && (MaxAge pol <=? 0) = true /\ ApplyRetention now pol clock l = (0, l))
  \/ (retained (clamped pol) (heads l) (events l) (events l) [] /\ ApplyRetention now pol clock l = (0, l))
  \/ exists m gone, retained (clamped pol) (heads l) (events l) m gone /\ gone <> []
       /\ ApplyRetention now pol clock l
          = (Z.of_nat (length gone),
             pruned_to m (with_anchors (anchors l ++ [make_anchor (if IsZero now then clock else now) gone (anchors l)]) l)).
Proof.
  intros Hk. unfold ApplyRetention. destruct (_ && _) eqn:E0; [by left|]. right. fold (clamped pol).
  pose proof (retain_spec (if IsZero now then clock else now) (clamped pol) (heads l) (events l) Hk) as Hr.
  destruct (retain _ _ _ _) as [m gone]. simpl in Hr. destruct gone as [|g gone].
  - left. assert (m = events l) as ->.
    { apply map_subseteq_size_eq; [apply Hr|]. destruct Hr as (_ & Hsz & _). simpl in Hsz. lia. }
    split; [exact Hr|]. by rewrite with_events_id.
  - right. exists m, (g :: gone). split; [done|]. split; [done|]. f_equal.
    rewrite (rebuild_pruned _ m); [done| |done]. eapply keyed_subseteq; [apply Hr|exact Hk].
Qed.

Lemma ApplyRetention_ok now pol clock l : ledger_ok l -> ledger_ok (ApplyRetention now pol clock l).2.
Proof.
  intros Hl. destruct (ApplyRetention_cases now pol clock l (ok_keys _ Hl)) as [[_ ->]|[[_ ->]|(m & gone & Hr & _ & ->)]]; [done|done|].
  apply pruned_to_ok. eapply keyed_subseteq; [apply Hr|exact (ok_keys _ Hl)].
Qed.

End inv.
