(* ===== verification/LedgerReach.v ===== *)
(** * Reachable ledgers

    The operations of a ledger as steps, and what holds after any sequence of them: the
    well-formedness of LedgerInv, the authenticity of the stored events, one event per
    author and number as long as nothing is pruned, the heads as the maximal events, the
    chain of anchors. *)

From S2P Require Import Prelude Sha256 GoStr LedgerEvent LedgerKinds Ledger LedgerInv.

Section reach.
Context `{Ed25519} `{PayloadJSON}.

Inductive op :=
  | OpAdd (ev : Event)
  | OpAddEvent (ev : Event)
  | OpApply (ev : Event) (context : string) (pol : option Policy) (observer : option Observer) (clock : Z)
  | OpApplyVerified (ev : Event) (context : string) (pol : option Policy) (observer : option Observer) (clock : Z)
  | OpAttest (context eventID : string) (pol : option Policy) (observer : option Observer) (clock : Z)
  | OpCheckpoint (context : string) (pol : option Policy) (observer : option Observer) (clock : Z)
  | OpSummary (context : string) (pol : option Policy) (observer : option Observer) (clock : Z)
  | OpSybil (context : string) (suspects : list string) (reason : string) (pol : option Policy) (observer : option Observer) (clock : Z)
  | OpPrune (now : Z) (pol : option Policy)
  | OpRetain (now : Z) (pol : RetentionPolicy) (clock : Z).

Definition step (o : op) (l : Ledger) : Ledger :=
  match o with
  | OpAdd ev => (Add ev l).2
  | OpAddEvent ev => (AddEvent ev l).2
  | OpApply ev context pol observer clock => (ApplyWithContext ev context pol observer clock l).2
  | OpApplyVerified ev context pol observer clock => (ApplyVerifiedWithContext ev context pol observer clock l).2
  | OpAttest context eventID pol observer clock => (EmitWitnessAttest context eventID pol observer clock l).2
  | OpCheckpoint context pol observer clock => (EmitWitnessCheckpoint context pol observer clock l).2
  | OpSummary context pol observer clock => (EmitSyncSummary context pol observer clock l).2
  | OpSybil context suspects reason pol observer clock => (EmitSybilMisbehavior context suspects reason pol observer clock l).2
  | OpPrune now pol => (Prune now pol l).2
  | OpRetain now pol clock => (ApplyRetention now pol clock l).2
  end.

Definition run (ops : list op) (l : Ledger) : Ledger := fold_left (fun l o => step o l) ops l.

Lemma run_cons o ops l : run (o :: ops) l = run ops (step o l).
Proof. reflexivity. Qed.

Definition prunes (o : op) : bool := match o with OpPrune _ _ | OpRetain _ _ _ => true | _ => false end.
Definition trusts_caller (o : op) : bool := match o with OpApplyVerified _ _ _ _ _ => true | _ => false end.

(** The identifier is the digest of the other fields. *)
Definition bound (ev : Event) : Prop := ID ev = EncodeToString (unsignedHash ev).

Lemma Verify_bound ev : Verify ev = Ok tt -> bound ev.
Proof. unfold Verify, bound. destruct (bool_decide_reflect (ID ev = EncodeToString (unsignedHash ev))); done. Qed.

Lemma Validate_Verify ev : Validate ev = Ok tt -> Verify ev = Ok tt.
Proof. unfold Validate. by destruct (ValidateNoCrypto ev). Qed.

Lemma policy_Validate ev p clock : validateWithPolicy ev p clock = Ok tt -> Validate ev = Ok tt.
Proof. unfold validateWithPolicy. by destruct (Validate ev) as [[]|]. Qed.

(** What an operation guarantees of the events it stores. *)
Definition gate (o : op) (ev : Event) : Prop := if trusts_caller o then bound ev else Validate ev = Ok tt.

Lemma Validate_gate o ev : Validate ev = Ok tt -> gate o ev.
Proof. unfold gate. intros Hv. destruct (trusts_caller o); [|done]. by apply Verify_bound, Validate_Verify. Qed.

(** An invariant that pruning keeps: pruning needs the keys of the events. *)
Record prune_closed (P : Ledger -> Prop) : Prop := {
  closed_keys : forall l, P l -> keyed (events l);
  closed_prune : forall m l, m ⊆ events l -> P l -> P (pruned_to m l);
  closed_anchor : forall now gone l, gone <> [] -> P l -> P (with_anchors (anchors l ++ [make_anchor now gone (anchors l)]) l);
}.

Lemma Prune_closed P now pol l : prune_closed P -> P l -> P (Prune now pol l).2.
Proof.
  intros [Hk Hp _] Hl. destruct (Prune_cases now pol l (Hk l Hl)) as [->|[_ ->]]; [done|]. apply Hp; [apply map_filter_subseteq|done].
Qed.

Lemma ApplyRetention_closed P now pol clock l : prune_closed P -> P l -> P (ApplyRetention now pol clock l).2.
Proof.
  intros [Hk Hp Ha] Hl.
  destruct (ApplyRetention_cases now pol clock l (Hk l Hl)) as [[_ ->]|[[_ ->]|(m & gone & Hr & Hg & ->)]]; [done|done|].
  apply (Hp m (with_anchors _ l)); [apply Hr|]. by apply Ha.
Qed.

Lemma step_closed admits P o l :
  closed admits P -> (forall ev, gate o ev -> admits ev) -> (prunes o = true -> prune_closed P) -> P l -> P (step o l).
Proof.
  intros HP Hg Hpr Hl.
  assert (forall p clock ev, validateWithPolicy ev p clock = Ok tt -> admits ev) as Hown.
  { intros p clock ev Hv. apply Hg, Validate_gate. by eapply policy_Validate. }
  destruct o as [ev|ev|ev ctx pol ob clock|ev ctx pol ob clock|ctx id pol ob clock|ctx pol ob clock|ctx pol ob clock
                |ctx ss r pol ob clock|now pol|now pol clock]; cbn [step].
  - apply (Add_closed admits P HP); auto.
  - unfold AddEvent. repeat (case_match; [done|]). apply (Add_closed admits P HP); auto.
  - unfold ApplyWithContext. destruct (validateWithPolicy ev _ clock) as [[]|e] eqn:Ev.
    + apply (applyLocked_closed admits P HP); eauto.
    + apply (reject_closed admits P HP); eauto.
  - unfold ApplyVerifiedWithContext. destruct (validateWithPolicyNoCrypto ev _ clock) as [h|e] eqn:Ev.
    + destruct (bool_decide_reflect (ID ev = EncodeToString h)) as [Hid|]; [|done]. apply (applyLocked_closed admits P HP); eauto.
      apply Hg. unfold gate. cbn. unfold bound. rewrite Hid. f_equal. unfold validateWithPolicyNoCrypto in Ev.
      repeat (case_match; [|done]). congruence.
    + apply (reject_closed admits P HP); eauto.
  - unfold EmitWitnessAttest, refused. repeat (case_match; try done). eapply (emit_own_closed admits P HP); eauto.
  - unfold EmitWitnessCheckpoint, refused. repeat (case_match; try done). eapply (emit_own_closed admits P HP); eauto.
  - unfold EmitSyncSummary, refused. repeat (case_match; try done). eapply (emit_own_closed admits P HP); eauto.
  - unfold EmitSybilMisbehavior, refused. repeat (case_match; try done). eapply (emit_own_closed admits P HP); eauto.
  - by apply Prune_closed; [apply Hpr|].
  - by apply ApplyRetention_closed; [apply Hpr|].
Qed.

Lemma run_closed admits P ops l :
  closed admits P -> Forall (fun o => (forall ev, gate o ev -> admits ev) /\ (prunes o = true -> prune_closed P)) ops -> P l -> P (run ops l).
Proof.
  intros HP Hops. revert l. induction Hops as [|o ops [Hg Hpr] _ IH]; intros l Hl; [done|].
  apply IH. by apply (step_closed admits).
Qed.

(** ** Well-formedness *)

Lemma ledger_ok_closed : closed (fun _ => True) ledger_ok.
Proof.
  split.
  - intros ev req l wt _ Hn _ Hl. by apply insert_event_ok.
  - intros ev l Hl. by apply (ledger_ok_ext l); [..|apply (ok_indexes _ Hl)|].
  - intros ks l Hl. by apply (ledger_ok_ext l); [..|apply (ok_indexes _ Hl)|].
  - intros a b l Hl. apply (ledger_ok_ext l); try done. destruct (ok_indexes _ Hl) as (K1 & K2 & K3).
    split_and!; [by apply backed_touch|done|done].
  - intros a b l Hl. apply (ledger_ok_ext l); try done. destruct (ok_indexes _ Hl) as (K1 & K2 & K3).
    split_and!; [done|by apply backed_touch|done].
Qed.

Lemma ledger_ok_prune : prune_closed ledger_ok.
Proof.
  split.
  - intros l Hl. exact (ok_keys _ Hl).
  - intros m l Hm Hl. apply pruned_to_ok. eapply keyed_subseteq; [done|exact (ok_keys _ Hl)].
  - intros now gone l _ Hl. by apply (ledger_ok_ext l); [..|apply (ok_indexes _ Hl)|].
Qed.

Lemma run_ok ops l : ledger_ok l -> ledger_ok (run ops l).
Proof.
  apply (run_closed (fun _ => True)); [apply ledger_ok_closed|]. apply Forall_forall. intros o _. split; [done|].
  intros _. apply ledger_ok_prune.
Qed.


(** ** Authenticity *)

Definition sat (Q : Event -> Prop) (l : Ledger) : Prop := forall id ev, events l !! id = Some ev -> ID ev = id /\ Q ev.

Lemma sat_closed Q : closed Q (sat Q).
Proof.
  split; try done. intros ev req l wt Hev _ _ Hl id e. rewrite insert_event_events.
  intros [[<- <-]|[_ Hid]]%lookup_insert_Some; [done|by apply Hl].
Qed.

Lemma sat_prune Q : prune_closed (sat Q).
Proof.
  split; [|intros m l Hm Hl id ev Hid; apply Hl; by eapply lookup_weaken|done].
  intros l Hl id ev Hid. by apply Hl in Hid as [? _].
Qed.

Lemma gate_bound o ev : gate o ev -> bound ev.
Proof. unfold gate. destruct (trusts_caller o); [done|]. intros. by apply Verify_bound, Validate_Verify. Qed.

(** Every event of a reachable ledger is stored under its identifier, which is the digest
    of its signed fields; when no event came in by the entry for events whose signature the
    caller has checked, each of them is valid and its signature verifies. *)
Theorem stored_events_authentic ops id ev : events (run ops New) !! id = Some ev ->
  ID ev = id /\ id = EncodeToString (unsignedHash ev)
  /\ (Forall (fun o => trusts_caller o = false) ops -> Validate ev = Ok tt).
Proof.
  intros Hid.
  assert (forall Q : Event -> Prop, Forall (fun o => forall e, gate o e -> Q e) ops -> sat Q (run ops New)) as Hrun.
  { intros Q HQ. apply (run_closed Q); [apply sat_closed| |done]. eapply Forall_impl; [exact HQ|].
    intros o Ho. split; [done|]. intros _. apply sat_prune. }
  destruct (Hrun bound ltac:(apply Forall_forall; intros o _; apply gate_bound) id ev Hid) as [He Hb].
  split; [done|]. split; [by rewrite <- He|]. intros Hops.
  refine (proj2 (Hrun (fun e => Validate e = Ok tt) _ id ev Hid)).
  eapply Forall_impl; [exact Hops|]. intros o Ho e He'. unfold gate in He'. by rewrite Ho in He'.
Qed.

(** ** Author sequences *)

(** The index of authors and numbers is exact. *)
Definition seqs_ok (l : Ledger) : Prop :=
  forall a s id, seqs_of l a !! s = Some id <-> exists ev, events l !! id = Some ev /\ ID ev = id /\ Author ev = a /\ Seq ev = s.

Lemma seqs_of_insert ev req wt l a :
  seqs_of (insert_event ev req wt l) a = if decide (Author ev = a) then <[Seq ev := ID ev]> (seqs_of l a) else seqs_of l a.
Proof.
  unfold seqs_of at 1. rewrite insert_event_seqs. destruct (decide (Author ev = a)) as [<-|Hne].
  - by rewrite lookup_insert_eq.
  - by rewrite lookup_insert_ne.
Qed.

Lemma insert_event_seqs_ok ev req wt l :
  events l !! ID ev = None -> seq_conflict ev l = false -> seqs_ok l -> seqs_ok (insert_event ev req wt l).
Proof.
  intros Hn Hc Hl.
  assert (seqs_of l (Author ev) !! Seq ev = None) as Hfree.
  { unfold seq_conflict in Hc. destruct (seqs_of l (Author ev) !! Seq ev) as [ex|] eqn:E; [|done].
    apply negb_false_iff, String.eqb_eq in Hc as ->. apply Hl in E as (e & He & _). congruence. }
  intros a s id. rewrite seqs_of_insert, insert_event_events. split.
  - intros Hs. assert ((a = Author ev /\ s = Seq ev /\ id = ID ev) \/ seqs_of l a !! s = Some id) as [(-> & -> & ->)|Ho].
    { destruct (decide (Author ev = a)) as [<-|]; [|by right]. apply lookup_insert_Some in Hs as [[<- <-]|[_ Hs]]; auto. }
    + exists ev. by rewrite lookup_insert_eq.
    + apply Hl in Ho as (e & He & ?). exists e. split; [|done]. rewrite lookup_insert_ne; [done|]. congruence.
  - intros (e & [[<- <-]|[Hne He]]%lookup_insert_Some & Hid & Ha & Hs).
    + subst. rewrite decide_True by done. by rewrite lookup_insert_eq.
    + assert (seqs_of l a !! s = Some id) as Ho by (apply Hl; eauto).
      destruct (decide (Author ev = a)) as [<-|]; [|done]. rewrite lookup_insert_ne; [done|]. intros <-. congruence.
Qed.

Lemma seqs_ok_closed : closed (fun _ => True) seqs_ok.
Proof.
  split; [|intros ev l Hl a s id; rewrite seqs_touch; apply Hl|done..].
  intros ev req l wt _ Hn Hc Hl. by apply insert_event_seqs_ok.
Qed.

Lemma run_seqs_ok ops l : Forall (fun o => prunes o = false) ops -> seqs_ok l -> seqs_ok (run ops l).
Proof.
  intros Hops. apply (run_closed (fun _ => True)); [apply seqs_ok_closed|].
  eapply Forall_impl; [exact Hops|]. intros o Ho. split; [done|]. by rewrite Ho.
Qed.

Lemma New_seqs_ok : seqs_ok New.
Proof.
  intros a s id. split; [done|]. intros (e & He & _). done.
Qed.

(** C2: As long as nothing is pruned, the ledger never holds two events of the same author with
    the same sequence number, however they came in: equivocation is never stored. *)
Theorem no_equivocation_stored ops id1 id2 e1 e2 : Forall (fun o => prunes o = false) ops ->
  events (run ops New) !! id1 = Some e1 -> events (run ops New) !! id2 = Some e2 ->
  Author e1 = Author e2 -> Seq e1 = Seq e2 -> e1 = e2.
Proof.
  intros Hops E1 E2 Ha Hs. pose proof (run_seqs_ok ops New Hops New_seqs_ok) as Hok.
  pose proof (ok_keys _ (run_ok ops New New_ok)) as Hk.
  assert (seqs_of (run ops New) (Author e1) !! Seq e1 = Some id1) as K1 by (apply Hok; exists e1; auto).
  assert (seqs_of (run ops New) (Author e1) !! Seq e1 = Some id2) as K2 by (apply Hok; exists e2; auto).
  congruence.
Qed.

(** ** Heads *)

(** The heads are exactly the maximal events. *)
Definition heads_exact (l : Ledger) : Prop := heads l = heads (recomputeHeadsLocked l).

Lemma heads_exact_spec l : heads_exact l <-> forall h, h ∈ heads l <->
  head_ok l h /\ forall id ev, events l !! id = Some ev -> affectsHeads (Kind ev) = true -> ~ refers ev h.
Proof.
  unfold heads_exact. split.
  - intros -> h. apply recompute_spec.
  - intros Hh. apply set_eq. intros h. by rewrite Hh, recompute_spec.
Qed.

Lemma insert_event_heads_exact ev req wt l : keyed (events l) -> events l !! ID ev = None -> ~ refers ev (ID ev) ->
  (forall id e, events l !! id = Some e -> affectsHeads (Kind e) = true -> ~ refers e (ID ev)) ->
  heads_exact l -> heads_exact (insert_event ev req wt l).
Proof.
  intros Hk Hn Hself Hnew Hl. pose proof (proj1 (heads_exact_spec l) Hl) as Hm. clear Hl. rename Hm into Hl. apply heads_exact_spec. intros h. rewrite insert_event_heads. unfold head_ok.
  rewrite insert_event_events. destruct (affectsHeads (Kind ev)) eqn:Ea.
  - rewrite Hl. unfold head_ok. split.
    + intros [->|[[(e & He & Hae) Hmax] Hr]].
      * split; [exists ev; by rewrite lookup_insert_eq|].
        intros id e [[<- <-]|[_ He]]%lookup_insert_Some Hae; [done|by eapply Hnew].
      * split; [exists e; split; [rewrite lookup_insert_ne; [done|congruence]|done]|].
        intros id e' [[<- <-]|[_ He']]%lookup_insert_Some Hae'; [done|by eapply Hmax].
    + intros [(e & [[<- <-]|[Hne He]]%lookup_insert_Some & Hae) Hmax]; [by left|right].
      split; [|by apply (Hmax (ID ev)); [rewrite lookup_insert_eq|]].
      split; [by exists e|]. intros id e' He' Hae'. apply (Hmax id); [|done]. rewrite lookup_insert_ne; [done|congruence].
  - rewrite Hl. unfold head_ok. split.
    + intros [(e & He & Hae) Hmax]. split; [exists e; split; [rewrite lookup_insert_ne; [done|congruence]|done]|].
      intros id e' [[<- <-]|[_ He']]%lookup_insert_Some Hae'; [congruence|by eapply Hmax].
    + intros [(e & [[<- <-]|[Hne He]]%lookup_insert_Some & Hae) Hmax]; [congruence|]. split; [by exists e|].
      intros id e' He' Hae'. apply (Hmax id); [|done]. rewrite lookup_insert_ne; [done|congruence].
Qed.

(** An accepted addition inserts the event. *)
Lemma Add_inserts ev l l' : Add ev l = (Ok tt, l') ->
  Validate ev = Ok tt
  /\ (l' = l /\ is_Some (events l !! ID ev)
      \/ events l !! ID ev = None /\ seq_conflict ev l = false /\ check_prev ev l = Ok tt
         /\ l' = insert_event ev false (missingRefWeight l) (touch_author ev l)).
Proof.
  unfold Add. destruct (Validate ev) as [[]|] eqn:Ev; [|done]. destruct (has_event l (ID ev)) eqn:Eh.
  - intros [= <-]. split; [done|]. left. split; [done|]. by apply bool_decide_eq_true in Eh.
  - assert (seq_conflict ev (touch_author ev l) = seq_conflict ev l) as -> by (unfold seq_conflict; by rewrite seqs_touch).
    destruct (seq_conflict ev l) eqn:Es; [done|]. change (check_prev ev (touch_author ev l)) with (check_prev ev l).
    destruct (check_prev ev l) as [[]|] eqn:Ep; [|done]. intros [= <-]. split; [done|]. right. apply has_event_false in Eh. done.
Qed.

(** When an event arrives after everything that refers to it has not, that is, before any
    event that names it, the heads stay exactly the maximal events: the incremental update
    and [recomputeHeadsLocked] agree. *)
Theorem Add_keeps_heads_exact ev l l' : ledger_ok l -> heads_exact l -> Add ev l = (Ok tt, l') ->
  ~ refers ev (ID ev) ->
  (forall id e, events l !! id = Some e -> affectsHeads (Kind e) = true -> ~ refers e (ID ev)) ->
  heads l' = heads (recomputeHeadsLocked l').
Proof.
  intros Hok Hl Hadd Hself Hnew. apply Add_inserts in Hadd as [_ [[-> _]|(Hn & _ & _ & ->)]]; [exact Hl|].
  by apply insert_event_heads_exact; [exact (ok_keys _ Hok)|..].
Qed.

(** ** The chain of anchors *)

Fixpoint chain_ok (prev : string) (chain : list SnapshotAnchor) : Prop :=
  match chain with
  | [] => True
  | a :: chain' =>
      an_PrevAnchorHashB a = prev
      /\ an_AnchorHashB64 a = anchorHash prev (an_RootHashB64 a) (an_PrunedCount a) (an_FirstCreatedAt a) (an_LastCreatedAt a) (an_CreatedAt a)
      /\ 0 < an_PrunedCount a /\ an_FirstCreatedAt a <= an_LastCreatedAt a
      /\ chain_ok (an_AnchorHashB64 a) chain'
  end.

Lemma chain_ok_app prev chain a :
  chain_ok prev (chain ++ [a]) <-> chain_ok prev chain /\ chain_ok (match list.last chain with Some b => an_AnchorHashB64 b | None => prev end) [a].
Proof.
  revert prev. induction chain as [|b chain IH]; intros prev; [simpl; tauto|].
  cbn [app]. cbn [chain_ok]. rewrite IH. cbn [chain_ok]. destruct chain as [|c chain]; [simpl; tauto|].
  change (list.last (b :: c :: chain)) with (list.last (c :: chain)).
  destruct (list.last (c :: chain)) eqn:E; [tauto|]. by apply last_None in E.
Qed.

Lemma min_le_max (x : Z) (times : list Z) : foldr Z.min x times <= foldr Z.max x times.
Proof. induction times; simpl; lia. Qed.

Definition anchors_ok (l : Ledger) : Prop := keyed (events l) /\ chain_ok "" (anchors l).

Lemma anchors_closed : closed (fun _ => True) anchors_ok.
Proof.
  split; try done. intros ev req l wt _ Hn _ [Hk Hc]. split; [|by rewrite anchors_insert].
  intros id e. rewrite insert_event_events. intros [[<- <-]|[_ Hid]]%lookup_insert_Some; [done|by apply Hk].
Qed.

Lemma anchors_prune : prune_closed anchors_ok.
Proof.
  split; [by intros l []| |].
  - intros m l Hm [Hk Hc]. split; [by eapply keyed_subseteq|done].
  - intros now gone l Hg [Hk Hc]. split; [done|]. cbn [with_anchors anchors]. apply chain_ok_app. split; [done|].
    destruct gone as [|g gone]; [done|]. unfold make_anchor. cbn -[Z.of_nat rootHashIDs anchorHash foldr].
    split_and!; try done. apply min_le_max.
Qed.

(** The anchors a ledger keeps of what retention removed form a hash chain: each carries the
    hash of the one before it and the digest of its own fields, counts at least one event
    and spans an interval of time. *)
Theorem anchors_form_a_chain ops : chain_ok "" (anchors (run ops New)).
Proof.
  refine (proj2 (run_closed (fun _ => True) anchors_ok ops New anchors_closed _ _)); [|done].
  apply Forall_forall. intros o _. split; [done|]. intros _. apply anchors_prune.
Qed.

End reach.
