(* ===== verification/LedgerPrune.v ===== *)
(** * What pruning and retention keep, and what they forget *)

From S2P Require Import Prelude Sha256 GoStr LedgerEvent LedgerKinds Ledger LedgerInv LedgerReach.

Section prune.
Context `{Ed25519} `{PayloadJSON}.

(** An event that can be a head is a head or some event refers to it. *)
Lemma affecting_kept l id ev : ledger_ok l -> events l !! id = Some ev -> affectsHeads (Kind ev) = true ->
  id ∈ heads l \/ id ∈ referenced (events l).
Proof.
  intros Hl Hid Ha. destruct (decide (id ∈ referenced (events l))) as [|Hr]; [by right|left].
  apply (ok_maximal _ Hl id ev Hid Ha). intros id' ev' He' _ Href. apply Hr, referenced_spec. eauto.
Qed.

Lemma affecting_protected l pol id ev : ledger_ok l -> events l !! id = Some ev -> affectsHeads (Kind ev) = true ->
  protected pol (heads l) (referenced (events l)) ev = true.
Proof.
  intros Hl Hid Ha. unfold protected. rewrite (ok_keys _ Hl id ev Hid).
  destruct (affecting_kept l id ev Hl Hid Ha) as [Hh|Hh]; rewrite (bool_decide_eq_true_2 _ Hh); simpl; [done|by rewrite orb_true_r].
Qed.

Lemma affecting_not_prunable l p now id ev : ledger_ok l -> events l !! id = Some ev -> affectsHeads (Kind ev) = true ->
  prunable p now l (referenced (events l)) id ev = false.
Proof.
  intros Hl Hid Ha. unfold prunable.
  destruct (affecting_kept l id ev Hl Hid Ha) as [Hh|Hh]; rewrite (bool_decide_eq_true_2 _ Hh); simpl; by rewrite ?andb_false_r.
Qed.

Lemma events_pruned_to m l : events (pruned_to m l) = m.
Proof. done. Qed.

(** Pruning and retention never remove an event that can be a head, whatever its age, its
    kind's retention or the bound on the number of events: such an event is a head or is
    referred to.  Only witness, misbehaviour, introduction and summary events go. *)
Theorem pruning_keeps_history ops o id ev : prunes o = true ->
  events (run ops New) !! id = Some ev -> affectsHeads (Kind ev) = true -> events (step o (run ops New)) !! id = Some ev.
Proof.
  intros Ho Hid Ha. pose proof (run_ok ops New New_ok) as Hl. set (l := run ops New) in *. clearbody l.
  destruct o as [| | | | | | | |now pol|now pol clock]; try done; cbn [step].
  - destruct (Prune_cases now pol l (ok_keys _ Hl)) as [->|[_ ->]]; [done|]. cbn [snd]. rewrite events_pruned_to.
    apply map_lookup_filter_Some. split; [done|]. by apply affecting_not_prunable.
  - destruct (ApplyRetention_cases now pol clock l (ok_keys _ Hl)) as [[_ ->]|[[_ ->]|(m & gone & Hr & _ & ->)]]; [done|done|].
    cbn [snd]. rewrite events_pruned_to. destruct (m !! id) as [e|] eqn:Em.
    + destruct Hr as (Hs & _). pose proof (lookup_weaken _ _ _ _ Em Hs). congruence.
    + destruct Hr as (_ & _ & Hg & _). destruct (Hg id ev Hid Em) as [Hp _]. by rewrite affecting_protected with (id := id) in Hp.
Qed.

(** Retention reports how many events it removed; those it removes are neither heads nor
    referred to nor, under [CriticalOnly], critical; a bound on the number of events is met
    unless all that are left are protected; and what it removed is recorded in one anchor
    that carries their number. *)
Theorem ApplyRetention_spec now pol clock l n l' : ledger_ok l -> ApplyRetention now pol clock l = (n, l') ->
  events l' ⊆ events l
  /\ n = Z.of_nat (size (events l)) - Z.of_nat (size (events l'))
  /\ (forall id ev, events l !! id = Some ev -> events l' !! id = None ->
        (id ∉ heads l) /\ (id ∉ referenced (events l)) /\ (CriticalOnly pol = true -> isCriticalKind (Kind ev) = false))
  /\ (0 < MaxEvents pol -> (Z.of_nat (size (events l')) <= MaxEvents pol)
      \/ (forall id ev, events l' !! id = Some ev -> protected pol (heads l) (referenced (events l)) ev = true))
  /\ ((n = 0 /\ l' = l) \/ (exists a, anchors l' = anchors l ++ [a] /\ an_PrunedCount a = n)).
Proof.
  intros Hl Hret. pose proof (ok_keys _ Hl) as Hk.
  assert (forall m gone, retained (clamped pol) (heads l) (events l) m gone ->
    m ⊆ events l /\ Z.of_nat (length gone) = Z.of_nat (size (events l)) - Z.of_nat (size m)
    /\ (forall id ev, events l !! id = Some ev -> m !! id = None ->
          (id ∉ heads l) /\ (id ∉ referenced (events l)) /\ (CriticalOnly pol = true -> isCriticalKind (Kind ev) = false))
    /\ (0 < MaxEvents pol -> Z.of_nat (size m) <= MaxEvents pol
        \/ (forall id ev, m !! id = Some ev -> protected pol (heads l) (referenced (events l)) ev = true))) as Hr.
  { intros m gone (K1 & K2 & K3 & K4). split; [done|]. split; [lia|]. split.
    - intros id ev Hid Hout. destruct (K3 id ev Hid Hout) as [Hp _]. unfold protected in Hp. rewrite (Hk id ev Hid) in Hp.
      apply orb_false_iff in Hp as [[H1%bool_decide_eq_false H2%bool_decide_eq_false]%orb_false_iff Hp].
      split; [done|]. split; [done|]. intros Hc. cbn in Hp. by rewrite Hc in Hp.
    - intros Hpos. destruct K4 as [K4|K4]; [cbn; lia|left; cbn in K4; lia|right; exact K4]. }
  destruct (ApplyRetention_cases now pol clock l Hk) as [[E0 E]|[[Hret0 E]|(m & gone & Hret0 & Hg & E)]]; rewrite E in Hret; injection Hret as <- <-.
  - split; [done|]. split; [lia|]. split; [intros id ev Hid Hout; congruence|]. split; [|by left].
    intros Hpos. apply andb_true_iff in E0 as [E0 _]. lia.
  - destruct (Hr _ _ Hret0) as (K1 & K2 & K3 & K4). do 4 (split; [done || lia|]). by left.
  - destruct (Hr _ _ Hret0) as (K1 & K2 & K3 & K4). rewrite events_pruned_to. do 4 (split; [done|]).
    right. eexists. split; reflexivity.
Qed.

(** What the indexes hold after something was pruned. *)
Lemma Prune_clears now pol l : ledger_ok l -> 0 < (Prune now pol l).1 ->
  exists m, m ⊆ events l /\ (Prune now pol l).2 = pruned_to m l.
Proof.
  intros Hl Hpos. destruct (Prune_cases now pol l (ok_keys _ Hl)) as [E|[_ E]]; rewrite E in Hpos |- *; [done|].
  eexists (prune_kept now _ l). split; [apply map_filter_subseteq|reflexivity].
Qed.

(** After a pruning that removed something, the ledger has forgotten the sequence numbers of
    every author, the missing references and all witnesses: rebuilding adds the events back
    while they are still stored, which does nothing.  The next event of any author is
    numbered 1, and nothing is confirmed. *)
Theorem pruning_forgets_indexes now pol l author range id context p : ledger_ok l -> 0 < (Prune now pol l).1 ->
  range ∅ = [] ->
  let l' := (Prune now pol l).2 in
  authorSeq l' = ∅ /\ missingRefs l' = ∅ /\ attestations l' = ∅ /\ checkpoints l' = ∅ /\ introductions l' = ∅
  /\ (nextSeqLocked author l').1 = (1, ""%string) /\ AuthorMaxSeq author l' = 0
  /\ Confirmed range id context p l' = (0, false).
Proof.
  intros Hl Hpos Hrange. destruct (Prune_clears now pol l Hl Hpos) as (m & _ & ->). cbv zeta. split_and!; try done.
  - unfold AuthorMaxSeq. by destruct (is_empty _).
  - unfold Confirmed, weigh. repeat case_match; try done. change (index_get (attestations (pruned_to m l)) id context) with (∅ : gset string).
    by rewrite Hrange.
Qed.

(** So a pruned ledger stores an equivocation: a second first event of an author whose first
    event it holds is accepted by [Add], and both are stored. *)
Theorem pruned_ledger_stores_equivocation now pol l e e' : ledger_ok l -> 0 < (Prune now pol l).1 ->
  let l' := (Prune now pol l).2 in
  events l' !! ID e = Some e -> Author e' = Author e -> Seq e' = Seq e -> Seq e = 1 ->
  Validate e' = Ok tt -> events l' !! ID e' = None ->
  (Add e' l').1 = Ok tt /\ events (Add e' l').2 !! ID e = Some e /\ events (Add e' l').2 !! ID e' = Some e'.
Proof.
  intros Hl Hpos. destruct (Prune_clears now pol l Hl Hpos) as (m & _ & ->). cbv zeta.
  intros He Ha Hs H1 Hv Hn. assert (ID e <> ID e') as Hne by congruence.
  assert (Add e' (pruned_to m l) = (Ok tt, insert_event e' false (missingRefWeight (pruned_to m l)) (touch_author e' (pruned_to m l)))) as ->.
  { unfold Add. rewrite Hv. assert (has_event (pruned_to m l) (ID e') = false) as ->.
    { apply bool_decide_eq_false. rewrite Hn. by intros [? ?]. }
    assert (seq_conflict e' (touch_author e' (pruned_to m l)) = false) as ->.
    { unfold seq_conflict. rewrite seqs_touch. done. }
    assert (check_prev e' (touch_author e' (pruned_to m l)) = Ok tt) as -> by (unfold check_prev; by rewrite Hs, H1).
    done. }
  cbn [fst snd]. rewrite insert_event_events. split; [done|]. split; [|apply lookup_insert_eq]. by rewrite lookup_insert_ne.
Qed.

End prune.
