(* ===== verification/LedgerTrust.v ===== *)
(** * Witnesses, confirmation and equivocation

    Confirmation counts the weight of the witnesses that are not compromised, in whatever
    order a range visits them; each was counted for a stored attestation.  An equivocation
    is reported, not stored, and compromises both keys for good. *)

From S2P Require Import Prelude Sha256 GoStr LedgerEvent LedgerKinds Ledger LedgerInv LedgerReach.

#[local] Set Warnings "-clear-no-such-hyp".

Section trust.
Context `{Ed25519} `{PayloadJSON}.

(** ** Confirmation *)

(** What a key adds to the score. *)
Definition counted (t : TrustPolicy) (context : string) (bad : gset string) (key : string) : Z :=
  if bool_decide (key ∈ bad) then 0 else Z.max 0 (Weight t context key).

Definition total (t : TrustPolicy) (context : string) (bad : gset string) (keys : list string) : Z :=
  foldr (fun k acc => counted t context bad k + acc) 0 keys.

Lemma counted_nonneg t context bad key : 0 <= counted t context bad key.
Proof. unfold counted. case_bool_decide; lia. Qed.

Lemma total_nonneg t context bad keys : 0 <= total t context bad keys.
Proof. induction keys as [|k keys IH]; simpl; [lia|]. pose proof (counted_nonneg t context bad k). lia. Qed.

Lemma total_perm t context bad : Proper ((≡ₚ) ==> (=)) (total t context bad).
Proof. intros ks1 ks2 Hp. induction Hp; simpl; lia. Qed.

Lemma score_loop_spec t context bad thr keys score :
  0 <= score < thr -> score + total t context bad keys <= max_i64 ->
  (score_loop t context bad thr keys score).2 = bool_decide (thr <= score + total t context bad keys).
Proof.
  revert score. induction keys as [|k keys IH]; intros score Hs Hmax; simpl in *.
  - symmetry. apply bool_decide_eq_false. lia.
  - pose proof (total_nonneg t context bad keys) as Hrest. unfold counted in *. case_bool_decide as Hk.
    { rewrite IH by lia. by rewrite Z.add_0_l. }
    destruct (Z.leb_spec (Weight t context k) 0).
    { rewrite Z.max_l in * by lia. rewrite IH by lia. by rewrite Z.add_0_l. }
    rewrite Z.max_r in * by lia. rewrite i64_id by (unfold_ints; lia).
    destruct (Z.leb_spec thr (score + Weight t context k)); simpl.
    + symmetry. apply bool_decide_eq_true. lia.
    + rewrite IH by lia. by rewrite Z.add_assoc.
Qed.

(** A range visits the elements of a set once each, in some order. *)
Definition visits (range : gset string -> list string) : Prop := forall s, range s ≡ₚ elements s.

Lemma weigh_spec range t context ks l : visits range -> 0 < Threshold t context ->
  total t context (compromised l) (elements ks) <= max_i64 ->
  (weigh range t context ks l).2 = bool_decide (Threshold t context <= total t context (compromised l) (elements ks)).
Proof.
  intros Hr Ht Hmax. unfold weigh. rewrite <- (total_perm _ _ _ _ _ (Hr ks)) in Hmax |- *. rewrite score_loop_spec; [|lia..].
  by rewrite Z.add_0_l.
Qed.

(** The order in which the map is ranged over does not matter. *)
Lemma Confirmed_spec range id context pol l :
  let t := Trust (default DefaultPolicy pol) in
  let ks := index_get (attestations l) id context in
  visits range -> total t context (compromised l) (elements ks) <= max_i64 ->
  (Confirmed range id context pol l).2 = true
  <-> 0 < Threshold t context /\ is_Some (events l !! id) /\ Threshold t context <= total t context (compromised l) (elements ks).
Proof.
  intros t ks Hr Hmax. unfold Confirmed. fold t. fold ks.
  destruct (Z.leb_spec (Threshold t context) 0); [split; [done|simpl; lia]|].
  unfold has_event. case_bool_decide as Hid; simpl.
  - rewrite weigh_spec by done. rewrite bool_decide_eq_true. tauto.
  - split; [done|tauto].
Qed.

(** The status of an event in a context: none when its identifier is blank or it is not
    stored; confirmed exactly when the context has a threshold and the positive weights of
    the keys that attested it and are not compromised add up to it, in whatever order the
    map is ranged over; otherwise accepted. *)
Theorem EventStatus_exact range eventID context pol l :
  let t := Trust (default DefaultPolicy pol) in
  let id := TrimSpace eventID in
  let weight := total t context (compromised l) (elements (index_get (attestations l) id context)) in
  visits range -> weight <= max_i64 ->
  EventStatus range eventID context pol l =
    if is_empty id || negb (has_event l id) then None
    else if bool_decide (0 < Threshold t context <= weight) then Some StatusConfirmed else Some StatusAccepted.
Proof.
  intros t id weight Hr Hmax. unfold EventStatus. fold id. destruct (is_empty id); [done|]. cbn [orb].
  destruct (has_event l id) eqn:Eh; cbn [negb]; [|done]. apply bool_decide_eq_true in Eh.
  pose proof (Confirmed_spec range id context pol l Hr Hmax) as Hc. fold t in Hc. fold weight in Hc.
  case_bool_decide as Hb.
  - by rewrite (proj2 Hc) by tauto.
  - destruct (Confirmed _ _ _ _ _).2; [|done]. exfalso. apply Hb. tauto.
Qed.

Lemma total_filter t context bad keys : total t context bad keys
  = foldr (fun k acc => Weight t context k + acc) 0 (filter (fun k => (k ∉ bad) /\ 0 < Weight t context k) keys).
Proof.
  induction keys as [|k keys IH]; [done|]. cbn [total foldr]. fold (total t context bad keys). rewrite IH. unfold counted.
  destruct (decide ((k ∉ bad) /\ 0 < Weight t context k)) as [Hk|Hk].
  - rewrite filter_cons_True by done. simpl. rewrite bool_decide_eq_false_2 by tauto. lia.
  - rewrite filter_cons_False by done. case_bool_decide; [lia|]. assert (Weight t context k <= 0) by (destruct (decide (0 < Weight t context k)); [tauto|lia]). lia.
Qed.

(** The key of an event signed it. *)
Definition signed_by_key (ev : Event) : Prop := exists pub sig, DecodeString (AuthorKeyB64 ev) = Some pub /\ blen pub = PublicKeySize
  /\ DecodeString (SigB64 ev) = Some sig /\ ed_verify pub (unsignedHash ev) sig = true.

Lemma Verify_signed ev : Verify ev = Ok tt -> signed_by_key ev.
Proof.
  unfold Verify, AuthorPublicKey, signed_by_key. intros Hv. case_match; [done|]. destruct (DecodeString (AuthorKeyB64 ev)) as [pub|]; [|done].
  destruct (Z.eqb_spec (blen pub) PublicKeySize) as [Hl|]; [|done]. cbn [negb] in Hv. destruct (DecodeString (SigB64 ev)) as [sig|]; [|done].
  case_match; [done|]. destruct (ed_verify pub (unsignedHash ev) sig) eqn:E; [|done]. by exists pub, sig.
Qed.

(** C16: When a reachable ledger reports an event as confirmed, there are distinct keys, none
    compromised, each of positive weight, whose weights add up to the threshold, and each of
    them is the key of a stored attestation of this event in this context. Unless events came in
    whose signature the caller was trusted to have checked, each of these attestations is valid
    and its key signed it. The weights of all witnesses together are to fit 64 bits. *)
Theorem confirmed_events_are_attested ops range id context pol :
  let l := run ops New in
  let t := Trust (default DefaultPolicy pol) in
  visits range -> total t context (compromised l) (elements (index_get (attestations l) id context)) <= max_i64 ->
  (Confirmed range id context pol l).2 = true ->
  exists keys, NoDup keys /\ Threshold t context <= foldr (fun k acc => Weight t context k + acc) 0 keys
    /\ Forall (fun k => (k ∉ compromised l) /\ 0 < Weight t context k
         /\ exists i ev, events l !! i = Some ev /\ AuthorKeyB64 ev = k /\ attests ev id context
              /\ (Forall (fun o => trusts_caller o = false) ops -> Validate ev = Ok tt /\ signed_by_key ev)) keys.
Proof.
  intros l t Hr Hmax Hc. apply Confirmed_spec in Hc as (Ht & Hid & Hc); [|done..]. fold t in Ht, Hc. rewrite total_filter in Hc.
  eexists. split; [|split; [exact Hc|]]; [apply NoDup_filter, NoDup_elements|].
  apply Forall_forall. intros k [[Hk Hw] Hin%elem_of_elements]%list_elem_of_filter. split; [done|]. split; [done|].
  destruct (ok_indexes _ (run_ok ops New New_ok)) as [Hb _]. destruct (Hb id context k Hin) as (i & ev & He & Ek & Ha).
  exists i, ev. split_and!; [done..|]. intros Ho. destruct (stored_events_authentic ops i ev He) as (_ & _ & Hv). specialize (Hv Ho).
  split; [done|]. by apply Verify_signed, Validate_Verify.
Qed.

(** ** Equivocation *)

(** Both keys stay compromised whatever happens next. *)
Definition knows_bad (ks : gset string) (l : Ledger) : Prop := keyed (events l) /\ ks ⊆ compromised l.

Lemma knows_bad_closed ks : closed (fun _ => True) (knows_bad ks).
Proof.
  split; try done.
  - intros ev req l wt _ Hn _ [Hk Hc]. split; [|by rewrite compromised_insert].
    intros id e. rewrite insert_event_events. intros [[<- <-]|[_ Hid]]%lookup_insert_Some; [done|by apply Hk].
  - intros ks' l [Hk Hc]. split; [done|]. cbn. set_solver.
Qed.

Lemma knows_bad_prune ks : prune_closed (knows_bad ks).
Proof. split; [by intros l []| |done]. intros m l Hm [Hk Hc]. split; [by eapply keyed_subseteq|done]. Qed.

(** A key found to have equivocated stays compromised through every later operation,
    pruning and retention included. *)
Theorem compromised_keys_stay ops l : ledger_ok l -> compromised l ⊆ compromised (run ops l).
Proof.
  intros Hl. refine (proj2 (run_closed (fun _ => True) (knows_bad (compromised l)) ops l (knows_bad_closed _) _ _)).
  - apply Forall_forall. intros o _. split; [done|]. intros _. apply knows_bad_prune.
  - split; [exact (ok_keys _ Hl)|done].
Qed.

Lemma order_ids_sorted a b : str_le (order_ids a b).1 (order_ids a b).2 /\ (order_ids a b = (a, b) \/ order_ids a b = (b, a)).
Proof.
  unfold order_ids, str_lt, String.ltb. destruct (String.compare b a) eqn:E; (split; [|auto]); unfold str_le, String.leb; cbn [fst snd].
  - by rewrite String.compare_antisym, E.
  - by rewrite E.
  - by rewrite String.compare_antisym, E.
Qed.

Lemma observe_knows ks observer build p clock l : knows_bad ks l -> knows_bad ks (observe observer build p clock l).
Proof. apply (observe_closed (fun _ => True) _ (knows_bad_closed ks)). done. Qed.

Lemma equivocation_step ev other context pol observer clock l : ledger_ok l ->
  validateWithPolicy ev (default DefaultPolicy pol) clock = Ok tt -> events l !! ID ev = None ->
  events l !! ID other = Some other -> seqs_of l (Author ev) !! Seq ev = Some (ID other) ->
  let r := ApplyWithContext ev context pol observer clock l in
  exists a b,
    r.1 = Err (EquivocationError (mkEvidence (Author ev) (AuthorKeyB64 ev) (Seq ev) a b))
    /\ str_le a b /\ ((a, b) = (ID other, ID ev) \/ (a, b) = (ID ev, ID other))
    /\ {[AuthorKeyB64 ev; AuthorKeyB64 other]} ⊆ compromised r.2
    /\ (observer = None -> events r.2 = events l /\ heads r.2 = heads l /\ attestations r.2 = attestations l
                           /\ compromised r.2 = compromised l ∪ {[AuthorKeyB64 ev; AuthorKeyB64 other]}).
Proof.
  intros Hl Hv Hn Ho Hs r. subst r. unfold ApplyWithContext. cbv zeta. rewrite Hv. unfold applyLocked.
  assert (has_event l (ID ev) = false) as -> by (apply bool_decide_eq_false; rewrite Hn; by intros [? ?]).
  cbv zeta. rewrite seqs_touch, Hs. destruct (String.eqb_spec (ID other) (ID ev)) as [E|_]; [congruence|]. cbn [negb].
  unfold equivocate. change (events (touch_author ev l)) with (events l). rewrite Ho.
  pose proof (order_ids_sorted (ID other) (ID ev)) as [Hle Hor]. destruct (order_ids (ID other) (ID ev)) as [a b].
  exists a, b. split; [done|]. split; [done|]. split; [exact Hor|]. split.
  - cbn [snd]. refine (proj2 (observe_knows _ _ _ _ _ _ _)). split; [exact (ok_keys _ Hl)|]. cbn. set_solver.
  - intros ->. cbn. do 3 (split; [done|]). set_solver.
Qed.

(** A valid event under a number of its author that another stored event already has is
    refused with the evidence of the equivocation, both identifiers in order, and both keys
    become compromised; without an observer nothing else changes. *)
Theorem equivocation_is_reported ev other context pol observer clock l : ledger_ok l ->
  validateWithPolicy ev (default DefaultPolicy pol) clock = Ok tt -> events l !! ID ev = None ->
  events l !! ID other = Some other -> seqs_of l (Author ev) !! Seq ev = Some (ID other) ->
  let r := ApplyWithContext ev context pol observer clock l in
  exists a b,
    r.1 = Err (EquivocationError (mkEvidence (Author ev) (AuthorKeyB64 ev) (Seq ev) a b))
    /\ str_le a b /\ ((a, b) = (ID other, ID ev) \/ (a, b) = (ID ev, ID other))
    /\ {[AuthorKeyB64 ev; AuthorKeyB64 other]} ⊆ compromised r.2
    /\ (observer = None -> events r.2 = events l /\ heads r.2 = heads l /\ attestations r.2 = attestations l
                           /\ compromised r.2 = compromised l ∪ {[AuthorKeyB64 ev; AuthorKeyB64 other]}).
Proof. apply equivocation_step. Qed.

(** The ledger keeps numbers by the author's name, which no signature binds to a key: an
    event that a stranger signs with his own key under an author's name and number
    compromises the author's key, and what only that key attested is confirmed no more. *)
Theorem stranger_compromises_author ev other context pol clock l range id ctx pol' : ledger_ok l ->
  validateWithPolicy ev (default DefaultPolicy pol) clock = Ok tt -> events l !! ID ev = None ->
  events l !! ID other = Some other -> seqs_of l (Author ev) !! Seq ev = Some (ID other) ->
  AuthorKeyB64 ev <> AuthorKeyB64 other -> visits range -> index_get (attestations l) id ctx = {[AuthorKeyB64 other]} ->
  let l' := (ApplyWithContext ev context pol None clock l).2 in
  AuthorKeyB64 other ∈ compromised l' /\ (Confirmed range id ctx pol' l').2 = false.
Proof.
  intros Hl Hv Hn Ho Hs Hne Hr Hat.
  destruct (equivocation_step ev other context pol None clock l Hl Hv Hn Ho Hs) as (a & b & _ & _ & _ & Hc & Hsame).
  destruct (Hsame eq_refl) as (_ & _ & Ha & _). cbv zeta in *. set (l' := (ApplyWithContext ev context pol None clock l).2) in *.
  assert (AuthorKeyB64 other ∈ compromised l') as Hin by (apply Hc; set_solver). split; [done|].
  unfold Confirmed, weigh. destruct (_ <=? 0); [done|]. destruct (negb _); [done|]. rewrite Ha, Hat.
  pose proof (Hr {[AuthorKeyB64 other]}) as Hk. rewrite elements_singleton in Hk. apply Permutation_singleton_r in Hk as ->.
  cbn [score_loop]. by rewrite (bool_decide_eq_true_2 _ Hin).
Qed.

(** ** The two forms of application *)

(** For an event whose signature verifies, the entry for verified events does what
    application with full validation does: same result, same ledger, same observer events. *)
Theorem verified_application_agrees ev context pol observer clock l : Verify ev = Ok tt ->
  ApplyVerifiedWithContext ev context pol observer clock l = ApplyWithContext ev context pol observer clock l.
Proof.
  intros Hv. pose proof (Verify_bound ev Hv) as Hb. unfold bound in Hb.
  unfold ApplyVerifiedWithContext, ApplyWithContext, validateWithPolicyNoCrypto, validateWithPolicy, Validate.
  destruct (ValidateNoCrypto ev) as [[]|]; [|done]. rewrite Hv. destruct (policyChecks ev _ clock) as [[]|]; [|done].
  by rewrite bool_decide_eq_true_2.
Qed.

(** ** The numbers of the ledger's own events *)

Lemma max_seq_spec (m : gmap Z string) :
  let '(s, id) := max_seq m in
  ((s = 0 /\ id = ""%string /\ (forall s' id', m !! s' = Some id' -> s' <= 0)) \/ (0 < s /\ m !! s = Some id /\ forall s' id', m !! s' = Some id' -> s' <= s)).
Proof.
  unfold max_seq.
  apply (map_fold_weak_ind (fun acc m => let '(s, id) := acc in
    ((s = 0 /\ id = ""%string /\ (forall s' id', m !! s' = Some id' -> s' <= 0))
     \/ (0 < s /\ m !! s = Some id /\ forall s' id', m !! s' = Some id' -> s' <= s)))).
  - left. split; [done|]. split; [done|]. intros s' id'. by rewrite lookup_empty.
  - intros i x m' [s id] Hi IH. cbn [fst]. destruct (Z.ltb_spec s i) as [Hlt|Hge].
    + right. split; [destruct IH as [(-> & _)|(? & _)]; lia|]. split; [by rewrite lookup_insert_eq|].
      intros s' id' [[<- <-]|[_ Hs']]%lookup_insert_Some; [lia|].
      destruct IH as [(-> & _ & IH)|(_ & _ & IH)]; apply IH in Hs'; lia.
    + destruct IH as [(-> & -> & IH)|(Hs & Hid & IH)]; [left|right].
      * split; [done|]. split; [done|]. intros s' id' [[<- <-]|[_ Hs']]%lookup_insert_Some; [lia|eauto].
      * split; [done|]. split; [rewrite lookup_insert_ne; [done|congruence]|].
        intros s' id' [[<- <-]|[_ Hs']]%lookup_insert_Some; [lia|eauto].
Qed.

(** The number and predecessor given to the observer's next event: 1 and none for an author
    without events, otherwise one more than the author's largest number and the event that
    has it; so the number is free, short of the last one. *)
Theorem nextSeq_continues author l seq prev ps : seqs_ok l ->
  (forall s id, seqs_of l author !! s = Some id -> 0 < s < 2 ^ 64 - 1) ->
  nextSeqLocked author l = (seq, prev, ps) ->
  seqs_of l author !! seq = None
  /\ ((seq = 1 /\ prev = ""%string /\ seqs_of l author = ∅)
      \/ exists ev, events l !! prev = Some ev /\ Author ev = author /\ Seq ev = seq - 1
         /\ forall s id, seqs_of l author !! s = Some id -> s <= Seq ev).
Proof.
  intros Hl Hr. unfold nextSeqLocked. pose proof (max_seq_spec (seqs_of l author)) as Hm.
  destruct (max_seq (seqs_of l author)) as [m id]. destruct Hm as [(-> & -> & Hm)|(Hpos & Hid & Hm)].
  - intros [= <- <- _]. assert (seqs_of l author = ∅) as E.
    { apply map_empty. intros s. apply eq_None_not_Some. intros [x Hx]. pose proof (Hr _ _ Hx). pose proof (Hm _ _ Hx). lia. }
    rewrite E. split; [done|]. by left.
  - assert ((0 <? m) = true) as -> by (by apply Z.ltb_lt). intros [= <- <- _]. pose proof (Hr _ _ Hid) as Hlt.
    assert (u64 (m + 1) = m + 1) as -> by (apply u64_id; unfold_ints; lia).
    split. { destruct (seqs_of l author !! (m + 1)) as [x|] eqn:E; [|done]. apply Hm in E. lia. }
    right. apply Hl in Hid as (ev & He & _ & Ha & Hs). exists ev. split; [done|]. split; [done|]. split; [lia|].
    intros s x Hx. rewrite Hs. by eapply Hm.
Qed.

End trust.
