(* ===== verification/LedgerSnap.v ===== *)
(** * Snapshots, ranges of author events, and identifiers *)

From stdpp Require Import list_numbers.
From S2P Require Import Prelude Sha256 GoStr LedgerEvent LedgerKinds Ledger LedgerInv LedgerReach.

Section snap.
Context `{Ed25519} `{PayloadJSON}.

(** ** Loading what was saved *)

(** Each stored event continues its predecessor when that is stored too. *)
Definition prevs_ok (l : Ledger) : Prop := forall id ev prev,
  events l !! id = Some ev -> 1 < Seq ev -> events l !! Prev ev = Some prev -> Author prev = Author ev /\ u64 (Seq prev + 1) = Seq ev.

(** What a snapshot must satisfy to load. *)
Record loadable (l : Ledger) : Prop := {
  load_valid : sat (fun ev => Validate ev = Ok tt) l;
  load_prevs : prevs_ok l;
  load_seqs : forall i j e f, events l !! i = Some e -> events l !! j = Some f -> Author e = Author f -> Seq e = Seq f -> e = f;
}.

Lemma check_prev_within l l0 ev : events l0 ⊆ events l -> prevs_ok l -> events l !! ID ev = Some ev -> check_prev ev l0 = Ok tt.
Proof.
  intros Hs Hp He. unfold check_prev. destruct (Z.ltb_spec 1 (Seq ev)) as [Hgt|]; [|done].
  destruct (events l0 !! Prev ev) as [prev|] eqn:E; [|done].
  destruct (Hp (ID ev) ev prev He Hgt (lookup_weaken _ _ _ _ E Hs)) as [-> ->]. by rewrite String.eqb_refl, Z.eqb_refl.
Qed.

Lemma no_conflict_within l l0 ev : events l0 ⊆ events l -> loadable l -> seqs_ok l0 -> events l !! ID ev = Some ev -> seq_conflict ev l0 = false.
Proof.
  intros Hs Hl Hq He. unfold seq_conflict. destruct (seqs_of l0 (Author ev) !! Seq ev) as [i|] eqn:E; [|done].
  apply Hq in E as (e & Hi & Hid & Ha & Hsq). assert (e = ev) as -> by (eapply (load_seqs _ Hl); eauto using lookup_weaken).
  by rewrite Hid, String.eqb_refl.
Qed.

(** Adding events of a loadable ledger succeeds, in any order. *)
Lemma add_all_loads l evs l0 : loadable l -> ledger_ok l0 -> seqs_ok l0 -> events l0 ⊆ events l -> compromised l0 = ∅ ->
  Forall (fun ev => events l !! ID ev = Some ev) evs ->
  exists l1, add_all evs l0 = Ok l1 /\ seqs_ok l1 /\ ledger_ok l1 /\ compromised l1 = ∅ /\ anchors l1 = anchors l0 /\ events l0 ⊆ events l1 /\ events l1 ⊆ events l
    /\ Forall (fun ev => events l1 !! ID ev = Some ev) evs.
Proof.
  intros Hl. revert l0. induction evs as [|ev evs IH]; intros l0 Hok Hq Hs Hc Hevs; cbn [add_all]; [by exists l0|].
  apply Forall_cons in Hevs as [He Hevs]. destruct (load_valid _ Hl _ _ He) as [_ Hv].
  assert (exists l0', Add ev l0 = (Ok tt, l0') /\ ledger_ok l0' /\ seqs_ok l0' /\ compromised l0' = ∅ /\ anchors l0' = anchors l0
    /\ events l0 ⊆ events l0' /\ events l0' ⊆ events l /\ events l0' !! ID ev = Some ev) as (l0' & -> & Hok' & Hq' & Hc' & Ha' & Hs1 & Hs2 & Hin).
  { unfold Add. rewrite Hv. destruct (has_event l0 (ID ev)) eqn:Eh.
    - apply bool_decide_eq_true in Eh as [e Ee]. exists l0. split_and!; try done. rewrite Ee.
      pose proof (lookup_weaken _ _ _ _ Ee Hs). congruence.
    - apply has_event_false in Eh. rewrite (no_conflict_within l) by (try done; by intros ? ? ?; rewrite seqs_touch; apply Hq).
      rewrite (check_prev_within l); [|done|apply (load_prevs _ Hl)|done].
      exists (insert_event ev false (missingRefWeight l0) (touch_author ev l0)).
      assert (seqs_ok (touch_author ev l0)) as Ht by (by apply (closed_touch _ _ seqs_ok_closed)).
      assert (ledger_ok (touch_author ev l0)) as Hot by (by apply (closed_touch _ _ ledger_ok_closed)).
      split; [done|]. split; [by apply insert_event_ok|]. split.
      { apply (closed_insert _ _ seqs_ok_closed); try done. apply (no_conflict_within l); try done. }
      rewrite insert_event_events. split_and!.
      + by rewrite compromised_insert.
      + by rewrite anchors_insert.
      + by apply insert_subseteq.
      + apply insert_subseteq_l; [done|exact Hs].
      + apply lookup_insert_eq. }
  destruct (IH l0' Hok' Hq' Hs2 Hc' Hevs) as (l1 & Hadd & K1 & K2 & K3 & Ka & K4 & K5 & K6).
  exists l1. split_and!; try done; [congruence|by etrans|]. constructor; [|done]. by eapply lookup_weaken.
Qed.

Lemma blank_empty : is_blank "" = true.
Proof. reflexivity. Qed.

Lemma Validate_id ev : Validate ev = Ok tt -> is_empty (ID ev) = false.
Proof.
  unfold Validate, ValidateNoCrypto. destruct (negb (SchemaVersion ev =? SchemaV1)); [done|].
  destruct (is_empty (ID ev)) eqn:E; [|done]. apply is_empty_spec in E. by rewrite E, blank_empty.
Qed.

(** C30: A well-formed ledger that has heads and whose events are all valid, no two of one author
    under one number, and each the next of the predecessor it names where that is stored,
    survives saving and loading: the snapshot loads, with the same events, heads and anchors and
    exact author sequences; but no key is compromised any more. *)
Theorem snapshot_roundtrip clock l : ledger_ok l -> loadable l -> heads l <> ∅ ->
  exists l', NewFromSnapshot (CreateSnapshot clock l) = Ok l'
    /\ events l' = events l /\ heads l' = heads l /\ anchors l' = anchors l /\ seqs_ok l' /\ compromised l' = ∅.
Proof.
  intros Hok Hl Hne. destruct (sorted_all (events l) (ok_keys _ Hok)) as [Hall _].
  destruct (add_all_loads l (sort_events (map_to_list (events l)).*2) New Hl New_ok New_seqs_ok) as
    (l1 & Hadd & Hq & Hok1 & Hc & Ha & _ & Hsub & Hin); [apply map_empty_subseteq|done|done|].
  assert (events l1 = events l) as He.
  { apply (anti_symm (⊆)); [done|]. apply map_subseteq_spec. intros id ev Hid.
    rewrite <- (ok_keys _ Hok id ev Hid) at 1. rewrite Forall_forall in Hin. apply Hin. unfold sort_events.
    rewrite merge_sort_Permutation. apply list_elem_of_fmap. exists (id, ev). split; [done|]. by apply elem_of_map_to_list. }
  unfold NewFromSnapshot, CreateSnapshot. cbn [sn_SchemaVersion sn_Events sn_Heads sn_Anchors]. cbn [negb andb Z.eqb SchemaV1].
  rewrite Hadd. set (hs := sorted_heads l).
  assert (list_to_set (filter (fun h => is_empty h = false /\ has_event l1 h = true) hs) = heads l) as Hheads.
  { apply set_eq. intros h. rewrite elem_of_list_to_set, list_elem_of_filter. unfold hs, sorted_heads.
    rewrite sort_strings_perm, elem_of_elements. split; [tauto|]. intros Hh. split; [|done].
    destruct (ok_heads _ Hok h Hh) as (ev & Hev & _). destruct (load_valid _ Hl h ev Hev) as [<- Hv].
    split; [by apply Validate_id|]. unfold has_event. rewrite He. apply bool_decide_eq_true. by exists ev. }
  destruct hs as [|h0 hs'] eqn:Ehs.
  { exfalso. apply Hne. unfold hs, sorted_heads in Ehs. apply leibniz_equiv, elements_empty_iff.
    apply Permutation_nil. by rewrite <- Ehs, sort_strings_perm. }
  rewrite Hheads. rewrite bool_decide_eq_false_2 by done.
  destruct (anchors l) as [|a as_] eqn:Ea; eexists; (split; [reflexivity|]); cbn; split_and!; try done.
Qed.

(** Adding an event that nothing contradicts. *)
Lemma Add_fresh ev l : Validate ev = Ok tt -> events l !! ID ev = None -> seqs_of l (Author ev) !! Seq ev = None ->
  Add ev l = match check_prev ev l with
             | Err e => (Err e, touch_author ev l)
             | Ok _ => (Ok tt, insert_event ev false (missingRefWeight l) (touch_author ev l))
             end.
Proof.
  intros Hv Hn Hs. unfold Add. rewrite Hv.
  assert (has_event l (ID ev) = false) as -> by (apply bool_decide_eq_false; rewrite Hn; by intros [? ?]).
  unfold seq_conflict. rewrite seqs_touch, Hs. change (check_prev ev (touch_author ev l)) with (check_prev ev l).
  by destruct (check_prev ev l).
Qed.

Lemma sort_two p c : CreatedAt p < CreatedAt c -> ID p <> ID c ->
  sort_events (map_to_list (<[ID p := p]> {[ID c := c]} : gmap string Event)).*2 = [p; c].
Proof.
  intros Ht Hne.
  assert ((map_to_list (<[ID p := p]> {[ID c := c]} : gmap string Event)).*2 ≡ₚ [p; c]) as Hp.
  { rewrite map_to_list_insert by (by apply lookup_singleton_ne). by rewrite map_to_list_singleton. }
  symmetry in Hp. apply Permutation_length_2_inv in Hp.
  assert (event_le p c) as H1 by (by left). assert (~ event_le c p) as H2 by (intros [?|[? _]]; lia).
  destruct Hp as [->| ->]; unfold sort_events, merge_sort; simpl; [by rewrite decide_True by done|by rewrite decide_False by done].
Qed.

(** A child that arrives before its predecessor is stored without a check, and the predecessor
    after it.  When the predecessor turns out to be another author's, the ledger holds two
    events whose snapshot no longer loads. *)
Theorem out_of_order_child_unloadable p c clock :
  Validate p = Ok tt -> Validate c = Ok tt -> ID p <> ID c -> Author p <> Author c -> Seq p = 1 -> 1 < Seq c -> Prev c = ID p ->
  CreatedAt p < CreatedAt c ->
  let l := run [OpAdd c; OpAdd p] New in
  events l = <[ID p := p]> {[ID c := c]}
  /\ NewFromSnapshot (CreateSnapshot clock l) = Err (Failure "prev author mismatch").
Proof.
  intros Vp Vc Hne Ha Sp Sc Hprev Ht. cbv zeta.
  assert (forall l, check_prev p l = Ok tt) as Cp by (intros l; unfold check_prev; by rewrite Sp).
  assert (events (run [OpAdd c; OpAdd p] New) = <[ID p := p]> {[ID c := c]}) as He.
  { cbn [run fold_left step]. rewrite (Add_fresh c New) by done.
    assert (check_prev c New = Ok tt) as -> by (unfold check_prev; by case_match). cbn [snd].
    rewrite (Add_fresh p), Cp; [cbn [snd]| done | |].
    - rewrite insert_event_events. f_equal. change (events (touch_author p ?l)) with (events l). by rewrite insert_event_events.
    - rewrite insert_event_events. rewrite lookup_insert_ne by congruence. done.
    - rewrite seqs_of_insert, decide_False by congruence. by rewrite seqs_touch. }
  split; [exact He|]. unfold NewFromSnapshot, CreateSnapshot. cbn [sn_SchemaVersion sn_Events]. cbn [negb andb Z.eqb SchemaV1].
  rewrite He, sort_two by done. cbn [add_all]. rewrite (Add_fresh p New) by done. rewrite Cp.
  rewrite (Add_fresh c); [|done| |].
  - unfold check_prev. rewrite Hprev, insert_event_events, lookup_insert_eq. rewrite (proj2 (Z.ltb_lt 1 (Seq c))) by done.
    by rewrite (proj2 (String.eqb_neq (Author p) (Author c))).
  - rewrite insert_event_events, lookup_insert_ne by done. done.
  - rewrite seqs_of_insert, decide_False by done. by rewrite seqs_touch.
Qed.

(** ** The range of an author's events *)

(** The identifiers under the numbers from [s] on, [n] of them. *)
Definition ids_from (m : gmap Z string) (s n : Z) : list string :=
  omap (fun k => match m !! k with Some id => if is_empty id then None else Some id | None => None end) (seqZ s n).

Lemma between_loop_spec n fuel s toSeq m out : 0 <= s -> toSeq < 2 ^ 64 - 1 -> Z.of_nat n = toSeq + 1 - s -> (n < fuel)%nat ->
  between_loop fuel s toSeq m out = Some (out ++ ids_from m s (Z.of_nat n)).
Proof.
  revert s fuel out. induction n as [|n IH]; intros s [|fuel] out Hs Ht Hn Hf; try lia; cbn [between_loop].
  - destruct (Z.leb_spec s toSeq); [lia|]. unfold ids_from. rewrite seqZ_nil by lia. by rewrite app_nil_r.
  - destruct (Z.leb_spec s toSeq); [|lia]. rewrite u64_id by (unfold_ints; lia).
    rewrite IH by lia. unfold ids_from. rewrite (seqZ_cons s) by lia. replace (Z.succ s) with (s + 1) by lia.
    replace (Z.pred (Z.of_nat (S n))) with (Z.of_nat n) by lia. cbn [omap list_omap].
    destruct (m !! s) as [id|]; [|done]. destruct (is_empty id); [done|]. by rewrite <- app_assoc.
Qed.

Lemma between_loop_diverges fuel s m out : is_u64 s -> between_loop fuel s (2 ^ 64 - 1) m out = None.
Proof.
  revert s out. induction fuel as [|fuel IH]; intros s out Hs; [done|]. cbn [between_loop].
  destruct (Z.leb_spec s (2 ^ 64 - 1)); [|unfold_ints; lia]. apply IH. apply u64_range.
Qed.

(** The query for an author's events between two numbers ends, after as many rounds as the
    range has numbers and one more, with the identifiers of the stored ones in order,
    whenever the range is below the largest 64-bit number and short enough for a slice. *)
Theorem AuthorEventIDsBetween_terminates fuel author fromSeq toSeq l :
  0 < fromSeq <= toSeq -> toSeq < 2 ^ 64 - 1 -> toSeq - fromSeq < max_capacity -> (Z.to_nat (toSeq - fromSeq) + 2 <= fuel)%nat ->
  is_empty (TrimSpace author) = false ->
  AuthorEventIDsBetween fuel author fromSeq toSeq l
  = Some (Some (ids_from (seqs_of l (TrimSpace author)) fromSeq (toSeq - fromSeq + 1))).
Proof.
  intros Hft Ht Hlen Hfuel Ha. unfold AuthorEventIDsBetween. rewrite Ha.
  rewrite (proj2 (Z.eqb_neq fromSeq 0)), (proj2 (Z.eqb_neq toSeq 0)), (proj2 (Z.ltb_ge toSeq fromSeq)) by lia. cbn [orb].
  case_bool_decide as He.
  - rewrite He. f_equal. f_equal. unfold ids_from. generalize (seqZ fromSeq (toSeq - fromSeq + 1)). intros ks.
    induction ks as [|k ks IH]; [done|]. cbn [omap list_omap]. by rewrite lookup_empty.
  - unfold max_capacity in *. rewrite (i64_id (toSeq - fromSeq)), i64_id by (unfold_ints; lia). rewrite (proj2 (Z.ltb_ge _ 0)), (proj2 (Z.ltb_ge _ _)) by lia. cbn [orb].
    rewrite (between_loop_spec (Z.to_nat (toSeq - fromSeq + 1))) by lia. cbn. do 3 f_equal. lia.
Qed.

(** Up to the largest 64-bit number it never ends: the counter wraps to 0, which is in the
    range again (with a longer range the slice for the result is refused before the loop). *)
Theorem AuthorEventIDsBetween_diverges author fromSeq l : 2 ^ 64 - max_capacity <= fromSeq < 2 ^ 64 ->
  is_empty (TrimSpace author) = false -> seqs_of l (TrimSpace author) <> ∅ ->
  forall fuel, AuthorEventIDsBetween fuel author fromSeq (2 ^ 64 - 1) l = None.
Proof.
  intros Hf Ha Hm fuel. unfold max_capacity in Hf. unfold AuthorEventIDsBetween. rewrite Ha.
  rewrite (proj2 (Z.eqb_neq fromSeq 0)), (proj2 (Z.ltb_ge _ fromSeq)) by lia. cbn [orb Z.eqb Z.sub Z.pow].
  rewrite bool_decide_eq_false_2 by done. rewrite (i64_id (2 ^ 64 - 1 - fromSeq)), i64_id by (unfold_ints; lia).
  rewrite (proj2 (Z.ltb_ge _ 0)), (proj2 (Z.ltb_ge max_capacity _)) by (unfold max_capacity; lia). cbn [orb]. rewrite between_loop_diverges; [done|]. unfold_ints. lia.
Qed.

(** ** Identifiers *)

Lemma bound_fields e f : event_text_ok e -> event_text_ok f -> bound e -> bound f -> ID e = ID f ->
  with_id_sig e "" "" = with_id_sig f "" ""
  \/ (MarshalCanonicalEventUnsigned e <> MarshalCanonicalEventUnsigned f /\ unsignedHash e = unsignedHash f).
Proof.
  intros He Hf Be Bf Hid.
  destruct (decide (MarshalCanonicalEventUnsigned e = MarshalCanonicalEventUnsigned f)) as [E|E]; [left; by apply canonical_injective|].
  right. split; [done|]. apply EncodeToString_inj; [apply Sum256_ok..|]. unfold bound in *. congruence.
Qed.

(** The identifier determines the event: two ledgers that hold an event under the same
    identifier hold the same signed fields, or exhibit a collision of SHA-256. *)
Theorem identifiers_bind ops1 ops2 id e f :
  events (run ops1 New) !! id = Some e -> events (run ops2 New) !! id = Some f -> event_text_ok e -> event_text_ok f ->
  with_id_sig e "" "" = with_id_sig f "" ""
  \/ (MarshalCanonicalEventUnsigned e <> MarshalCanonicalEventUnsigned f /\ unsignedHash e = unsignedHash f).
Proof.
  intros E1 E2 He Hf.
  assert (forall ops e, events (run ops New) !! id = Some e -> ID e = id /\ bound e) as Hb.
  { intros ops g Hg. apply (run_closed bound (sat bound) ops New (sat_closed _)); [|done|done].
    apply Forall_forall. intros o _. split; [apply gate_bound|]. intros _. apply sat_prune. }
  destruct (Hb _ _ E1) as [I1 B1], (Hb _ _ E2) as [I2 B2]. apply bound_fields; congruence.
Qed.

(** What is read back of an event that was written as JSON: the [omitempty] field of the
    parents is left out when it is empty, and read as nil. *)
Definition reloaded (e : Event) : Event :=
  mkEvent (SchemaVersion e) (ID e) (CreatedAt e) (Author e) (AuthorKeyB64 e) (Seq e) (Prev e)
    (match Parents e with Some [] => None | ps => ps end) (Kind e) (PayloadHashB64 e) (PayloadRef e) (SigB64 e).

(** An event signed with an empty, non-nil list of parents is verified on arrival but no
    longer after it was stored or relayed as JSON: for both to verify, SHA-256 must collide. *)
Theorem empty_parents_do_not_survive e : event_text_ok e -> Parents e = Some [] -> Verify e = Ok tt -> Verify (reloaded e) = Ok tt ->
  MarshalCanonicalEventUnsigned e <> MarshalCanonicalEventUnsigned (reloaded e) /\ unsignedHash e = unsignedHash (reloaded e).
Proof.
  intros He Hp Ve Vr.
  assert (event_text_ok (reloaded e)) as Hr.
  { destruct He as (? & ? & ? & ? & _ & ?). unfold event_text_ok, event_ok, parents in *. unfold reloaded. rewrite Hp. cbn.
    split_and!; try tauto. constructor. }
  destruct (bound_fields e (reloaded e) He Hr (Verify_bound _ Ve) (Verify_bound _ Vr) eq_refl) as [E|E]; [|done].
  exfalso. apply (f_equal Parents) in E. cbn in E. by rewrite Hp in E.
Qed.

(** ** Parents of new events *)

Lemma collect_ids_spec ids seen x :
  x ∈ collect_ids ids seen <-> (x ∉ seen) /\ is_empty x = false /\ exists y, y ∈ ids /\ x = TrimSpace y.
Proof.
  revert seen. induction ids as [|id ids IH]; intros seen; cbn [collect_ids].
  - split; [by intros ?%elem_of_nil|]. intros (_ & _ & y & Hy%elem_of_nil & _). done.
  - assert ((exists y, y ∈ id :: ids /\ x = TrimSpace y) <-> x = TrimSpace id \/ exists y, y ∈ ids /\ x = TrimSpace y) as ->.
    { setoid_rewrite elem_of_cons. split; [intros (y & [->|Hy] & ->); eauto|intros [->|(y & Hy & ->)]; eauto]. }
    destruct (is_empty (TrimSpace id)) eqn:E; [|case_bool_decide as Hs]; rewrite ?elem_of_cons, IH, ?not_elem_of_cons.
    + split; [tauto|]. intros (? & ? & [->|?]); [congruence|tauto].
    + split; [tauto|]. intros (? & ? & [->|?]); [done|tauto].
    + destruct (decide (x = TrimSpace id)) as [->|]; tauto.
Qed.

Lemma collect_ids_NoDup ids seen : NoDup (collect_ids ids seen).
Proof.
  revert seen. induction ids as [|id ids IH]; intros seen; cbn [collect_ids]; [constructor|].
  destruct (is_empty (TrimSpace id)); [done|]. case_bool_decide; [done|]. constructor; [|done].
  rewrite collect_ids_spec, not_elem_of_cons. tauto.
Qed.

Lemma normalizeIDSet_perm ids ids' : ids ≡ₚ ids' -> normalizeIDSet ids = normalizeIDSet ids'.
Proof.
  intros Hp. unfold normalizeIDSet. rewrite (sort_strings_eq (collect_ids ids []) (collect_ids ids' [])); [done|].
  apply list.NoDup_Permutation; [apply collect_ids_NoDup..|]. intros x. rewrite !collect_ids_spec.
  by setoid_rewrite (elem_of_Permutation_proper _ _ _ Hp).
Qed.

Definition with_parents (ps : list string) (inp : SignedEventInput) : SignedEventInput :=
  mkInput (in_Author inp) (in_AuthorPub inp) (in_AuthorPriv inp) (in_Seq inp) (in_Prev inp) ps (in_Kind inp) (in_Payload inp)
    (in_PayloadRef inp) (in_CreatedAt inp) (in_CreatedAtJitterMax inp) (in_CreatedAtBucket inp).

(** A new event is valid as built; its parents are sorted, without blanks and duplicates, and
    the order they were given in does not change the event, nor its identifier. *)
Theorem NewSignedEvent_canonical inp ps clock draw ev : ps ≡ₚ in_Parents inp ->
  NewSignedEvent inp clock draw = Ok ev ->
  Validate ev = Ok tt /\ NoDup (parents ev) /\ StronglySorted str_le (parents ev)
  /\ (forall x, x ∈ parents ev <-> is_empty x = false /\ exists y, y ∈ in_Parents inp /\ x = TrimSpace y)
  /\ NewSignedEvent (with_parents ps inp) clock draw = Ok ev.
Proof.
  intros Hp Hev. assert (NewSignedEvent (with_parents ps inp) clock draw = Ok ev) as Hev'.
  { unfold NewSignedEvent in Hev |- *. cbn [with_parents in_Author in_AuthorPub in_AuthorPriv in_Seq in_Prev in_Parents in_Kind
      in_Payload in_PayloadRef in_CreatedAt in_CreatedAtJitterMax in_CreatedAtBucket].
    by rewrite (Permutation_length Hp), (normalizeIDSet_perm _ _ Hp). }
  assert (Validate ev = Ok tt /\ Parents ev = normalizeIDSet (in_Parents inp)) as [Hv Hps].
  { unfold NewSignedEvent in Hev. repeat (case_match; [done|]). cbv zeta in Hev.
    match type of Hev with context [Validate ?e] => destruct (Validate e) as [[]|] eqn:E; [|done] end.
    injection Hev as <-. done. }
  assert (parents ev = sort_strings (collect_ids (in_Parents inp) [])) as Hpe.
  { unfold parents. rewrite Hps. unfold normalizeIDSet. by destruct (sort_strings _). }
  rewrite Hpe. split; [done|]. split; [rewrite sort_strings_perm; apply collect_ids_NoDup|].
  split; [apply (StronglySorted_merge_sort str_le)|]. split; [|done].
  intros x. rewrite sort_strings_perm, collect_ids_spec. split; [tauto|]. intros [? ?]. split; [apply not_elem_of_nil|done].
Qed.

End snap.
