(* ===== verification/LedgerSync.v ===== *)
(** * Exchanging ledgers ([pkg/ledger/sync.go])

    Heads, inventories and plans of what to ask a peer for; messages of events within
    limits of number and bytes; their application one by one, and the optimised form that
    checks all signatures first, with a cache of events verified before.

    [range] lists the keys of a map in the order a range visits them; [finish] is the order
    in which the workers finish the signatures; [clock] is what [time.Now] reads while one
    message is processed. *)

From S2P Require Import Prelude Sha256 GoStr LedgerEvent LedgerKinds Ledger.

#[local] Open Scope ledger_scope.

Definition SyncSchemaV1 : Z := 1.

Record HeadsMessage := mkHeads { hm_SchemaVersion : Z; hm_Heads : list string }.
Record InventoryMessage := mkInventory { iv_SchemaVersion : Z; iv_Heads : list string; iv_Have : list string }.
Record SyncPlan := mkPlan { pl_Want : list string }.
Record WantMessage := mkWant { wm_SchemaVersion : Z; wm_Want : list string }.
Record EventsMessage := mkEvents { em_SchemaVersion : Z; em_Events : list Event }.

(** [if max <= 0 { max = fallback }] *)
Definition or_default (max fallback : Z) : Z := if max <=? 0 then fallback else max.

(** ** Inventories and plans *)

Definition BuildHeadsMessage (l : Ledger) : HeadsMessage := mkHeads SyncSchemaV1 (Heads l).

Definition BuildInventoryMessage (range : gset string -> list string) (maxHave : Z) (l : Ledger) : InventoryMessage :=
  let maxHave := if maxHave <? 0 then 256 else maxHave in
  let have := if 0 <? maxHave then sort_strings (take (Z.to_nat maxHave) (range (dom (events l)))) else [] in
  mkInventory SyncSchemaV1 (sorted_heads l) have.

Definition PlanSyncFromInventory (range : gset string -> list string) (peer : InventoryMessage) (maxWant : Z) (l : Ledger) : SyncPlan :=
  let maxWant := or_default maxWant 256 in
  let missing := filter (fun id => (id = ""%string) \/ (id ∉ iv_Have peer)) (range (dom (events l))) in
  mkPlan (sort_strings (take (Z.to_nat maxWant) missing)).

Definition PlanSyncToPeer := PlanSyncFromInventory.

(** Heavier missing references first, then those missed more often, then by identifier. *)
Definition want_le (l : Ledger) (a b : string) : Prop :=
  let wa := default 0 (missingRefWeight l !! a) in
  let wb := default 0 (missingRefWeight l !! b) in
  let ca := default 0 (missingRefs l !! a) in
  let cb := default 0 (missingRefs l !! b) in
  wb < wa \/ (wa = wb /\ (cb < ca \/ (ca = cb /\ str_le a b))).

#[export] Instance want_le_dec l : RelDecision (want_le l).
Proof. intros a b. unfold want_le. apply _. Defined.

(** The identifiers of a list that are not blank, trimmed. *)
Definition trimmed (ids : list string) : list string := filter (fun id => is_empty id = false) (TrimSpace <$> ids).

(** [addWant] for each identifier until [maxWant] are wanted. *)
Fixpoint add_wants (maxWant : Z) (l : Ledger) (peerHas : list string) (ids want : list string) : list string :=
  match ids with
  | [] => want
  | id :: ids' =>
      if maxWant <=? Z.of_nat (length want) then want
      else
        add_wants maxWant l peerHas ids'
          (if is_empty id || has_event l id || negb (bool_decide (id ∈ peerHas)) || bool_decide (id ∈ want) then want
           else want ++ [id])
  end.

Definition PlanSyncFromPeer (peer : InventoryMessage) (maxWant : Z) (l : Ledger) : SyncPlan :=
  let maxWant := or_default maxWant 256 in
  let peerHas := trimmed (iv_Have peer) ++ trimmed (iv_Heads peer) in
  let missing := merge_sort (want_le l) (trimmed (elements (dom (missingRefs l)))) in
  let want := add_wants maxWant l peerHas missing [] in
  let hs := merge_sort (want_le l) (TrimSpace <$> iv_Heads peer) in
  mkPlan (add_wants maxWant l peerHas hs want).

Definition plan_WantMessage (p : SyncPlan) : WantMessage := mkWant SyncSchemaV1 (pl_Want p).

(** ** Messages of events *)

Fixpoint select_events (maxEvents : Z) (l : Ledger) (want : list string) (out : list Event) : list Event :=
  match want with
  | [] => out
  | id :: want' =>
      let id := TrimSpace id in
      if is_empty id then select_events maxEvents l want' out
      else
        match events l !! id with
        | None => select_events maxEvents l want' out
        | Some ev =>
            let out := out ++ [ev] in
            if maxEvents <=? Z.of_nat (length out) then out else select_events maxEvents l want' out
        end
  end.

Definition BuildEventsMessage (want : list string) (maxEvents : Z) (l : Ledger) : EventsMessage :=
  mkEvents SyncSchemaV1 (select_events (or_default maxEvents 256) l want []).

(** The fields that [json.Marshal] writes of an event; those marked [omitempty] are left out
    when empty. *)
Definition event_fields (e : Event) : list (string * list Z) :=
  ([("v", json_int (SchemaVersion e)); ("id", json_string (ID e)); ("created_at", json_int (CreatedAt e));
    ("author", json_string (Author e)); ("author_key_b64url", json_string (AuthorKeyB64 e)); ("seq", json_int (Seq e))]
   ++ (if is_empty (Prev e) then [] else [("prev", json_string (Prev e))])
   ++ (match parents e with [] => [] | _ => [("parents", json_strings (Parents e))] end)
   ++ [("kind", json_string (Kind e))]
   ++ (if is_empty (PayloadHashB64 e) then [] else [("payload_hash_b64url", json_string (PayloadHashB64 e))])
   ++ (if is_empty (PayloadRef e) then [] else [("payload_ref", json_string (PayloadRef e))])
   ++ [("sig_b64url", json_string (SigB64 e))])%list%string.

Definition marshal_event (e : Event) : list Z :=
  [123] ++ comma_separated (map (fun f => json_string f.1 ++ [58] ++ f.2) (event_fields e)) ++ [125].

Record limits := mkLimits { maxEvents : Z; maxEventBytes : Z; maxMessageBytes : Z }.

Definition norm_limits (m : limits) : limits :=
  mkLimits (or_default (maxEvents m) 256) (or_default (maxEventBytes m) (256 * 1024)) (or_default (maxMessageBytes m) (1024 * 1024)).

Fixpoint select_bounded (m : limits) (l : Ledger) (want seen : list string) (used : Z) (out : list Event) : list Event :=
  match want with
  | [] => out
  | id :: want' =>
      let id := TrimSpace id in
      if is_empty id || bool_decide (id ∈ seen) then select_bounded m l want' seen used out
      else
        let seen := id :: seen in
        match events l !! id with
        | None => select_bounded m l want' seen used out
        | Some ev =>
            let n := blen (marshal_event ev) in
            if maxEventBytes m <? n then select_bounded m l want' seen used out
            else if maxMessageBytes m <? used + n then out
            else
              let out := out ++ [ev] in
              if maxEvents m <=? Z.of_nat (length out) then out else select_bounded m l want' seen (used + n) out
        end
  end.

Definition BuildEventsMessageBounded (want : list string) (m : limits) (l : Ledger) : EventsMessage :=
  mkEvents SyncSchemaV1 (select_bounded (norm_limits m) l want [] 0 []).

(** ** The order of application *)

Definition kindPriority (kind : string) : Z :=
  let kind := TrimSpace kind in
  let among ks := bool_decide (kind ∈ ks) in
  if among [KindIdentityRevoke; KindIdentityRotate; KindIdentityIntroduce] then 0
  else if among [KindMisbehaviorEquivoc; KindMisbehaviorReplay; KindMisbehaviorSybil] then 1
  else if among [KindWitnessCheckpoint; KindWitnessAttest] then 2
  else if among [KindGroupMembership; KindGroupCreate; KindGroupJoin] then 3
  else if among [KindAgentAction] then 4
  else if among [KindChatMessage] then 5
  else if among [KindSyncSummary; KindLedgerEvent] then 7
  else 10.

(** The references of an event to events of the batch. *)
Definition batch_refs (inBatch : list string) (ev : Event) : list string :=
  filter (fun id => id ∈ inBatch) ((if is_blank (Prev ev) then [] else [Prev ev]) ++ trimmed (parents ev)).

Definition refCount (batch : list Event) (id : string) : Z :=
  let inBatch := trimmed (ID <$> batch) in
  Z.of_nat (length (filter (fun r => r = id) (concat (map (batch_refs inBatch) batch)))).

(** The comparison of [orderEvents]. *)
Definition event_less (batch : list Event) (a b : Event) : bool :=
  let pa := kindPriority (Kind a) in
  let pb := kindPriority (Kind b) in
  if negb (pa =? pb) then pa <? pb
  else
    let ra := refCount batch (ID a) in
    let rb := refCount batch (ID b) in
    if negb (ra =? rb) then rb <? ra
    else if negb (CreatedAt a =? CreatedAt b) then CreatedAt a <? CreatedAt b
    else str_lt (ID a) (ID b).

(** [sort.SliceStable]: an element goes before the first one that is not less. *)
Fixpoint stable_insert {A} (less : A -> A -> bool) (x : A) (l : list A) : list A :=
  match l with
  | [] => [x]
  | y :: l' => if less y x then y :: stable_insert less x l' else x :: l
  end.

Definition SliceStable {A} (less : A -> A -> bool) (l : list A) : list A := foldr (stable_insert less) [] l.

Definition orderEvents (batch : list Event) : list Event :=
  match batch with
  | [] | [_] => batch
  | _ => SliceStable (event_less batch) batch
  end.

(** ** Verified events *)

(** The entries of the cache, the most recently used first; the map of the code indexes
    them by key. *)
Record VerifiedEventCache := mkCache { vc_max : Z; vc_ttl : Z; vc_ll : list (string * Z) }.

Definition NewVerifiedEventCache (max ttl : Z) : VerifiedEventCache :=
  mkCache (or_default max 4096) (if ttl <=? 0 then 10 * Minute else ttl) [].

Definition nul : string := String (char_of 0) "".

Definition cache_key (id authorKeyB64 sigB64 : string) : string := (id ++ nul ++ authorKeyB64 ++ nul ++ sigB64)%string.

Definition find_entry (key : string) (es : list (string * Z)) : option Z :=
  snd <$> head (filter (fun e => e.1 = key) es).

Definition drop_entry (key : string) (es : list (string * Z)) : list (string * Z) := filter (fun e => e.1 <> key) es.

Definition cache_match (c : VerifiedEventCache) (id authorKeyB64 sigB64 : string) (now : Z) : bool * VerifiedEventCache :=
  if (vc_max c <=? 0) || (vc_ttl c <=? 0) then (false, c)
  else
    let key := cache_key id authorKeyB64 sigB64 in
    match find_entry key (vc_ll c) with
    | None => (false, c)
    | Some exp =>
        if negb (now <? exp) then (false, mkCache (vc_max c) (vc_ttl c) (drop_entry key (vc_ll c)))
        else (true, mkCache (vc_max c) (vc_ttl c) ((key, exp) :: drop_entry key (vc_ll c)))
    end.

Definition cache_put (c : VerifiedEventCache) (id authorKeyB64 sigB64 : string) (now : Z) : VerifiedEventCache :=
  if (vc_max c <=? 0) || (vc_ttl c <=? 0) then c
  else
    let key := cache_key id authorKeyB64 sigB64 in
    let entry := (key, TimeAdd now (vc_ttl c)) in
    match find_entry key (vc_ll c) with
    | Some _ => mkCache (vc_max c) (vc_ttl c) (entry :: drop_entry key (vc_ll c))
    | None => mkCache (vc_max c) (vc_ttl c) (take (Z.to_nat (vc_max c)) (entry :: vc_ll c))
    end.

(** A nil cache matches nothing and takes nothing. *)
Definition match_opt (c : option VerifiedEventCache) (ev : Event) (now : Z) : bool * option VerifiedEventCache :=
  match c with
  | None => (false, None)
  | Some c => let '(b, c) := cache_match c (ID ev) (AuthorKeyB64 ev) (SigB64 ev) now in (b, Some c)
  end.

Definition put_opt (now : Z) (c : option VerifiedEventCache) (ev : Event) : option VerifiedEventCache :=
  match c with
  | None => None
  | Some c => Some (cache_put c (ID ev) (AuthorKeyB64 ev) (SigB64 ev) now)
  end.

(** ** Application *)

Record ApplyReport := mkReport { Applied : Z; Dupe : Z; Rejected : Z }.

Definition no_report : ApplyReport := mkReport 0 0 0.
Definition count_applied (r : ApplyReport) : ApplyReport := mkReport (Applied r + 1) (Dupe r) (Rejected r).
Definition count_dupe (r : ApplyReport) : ApplyReport := mkReport (Applied r) (Dupe r + 1) (Rejected r).
Definition count_rejected (r : ApplyReport) : ApplyReport := mkReport (Applied r) (Dupe r) (Rejected r + 1).

Section apply.
Context `{Ed25519} `{PayloadJSON}.

(** The counters after one application. *)
Definition tally (r : res ledger_err Status) (rep : ApplyReport) : ApplyReport :=
  match r with Err _ => count_rejected rep | Ok _ => count_applied rep end.

Definition apply_one (context : string) (pol : option Policy) (observer : option Observer) (clock : Z) (ev : Event)
    (s : ApplyReport * Ledger) : ApplyReport * Ledger :=
  let '(rep, l) := s in
  if Have (ID ev) l then (count_dupe rep, l)
  else let '(r, l) := ApplyWithContext ev context pol observer clock l in (tally r rep, l).

Definition ApplyEventsMessage (msg : EventsMessage) (context : string) (pol : option Policy) (observer : option Observer) (clock : Z)
    (l : Ledger) : res ledger_err unit * (ApplyReport * Ledger) :=
  if negb (em_SchemaVersion msg =? SyncSchemaV1) then (Err (Failure "unsupported sync schema"), (no_report, l))
  else (Ok tt, fold_left (fun s ev => apply_one context pol observer clock ev s) (orderEvents (em_Events msg)) (no_report, l)).

Fixpoint apply_bounded (m : limits) (context : string) (pol : option Policy) (observer : option Observer) (clock : Z)
    (evs : list Event) (used : Z) (s : ApplyReport * Ledger) : res ledger_err unit * (ApplyReport * Ledger) :=
  match evs with
  | [] => (Ok tt, s)
  | ev :: evs' =>
      let n := blen (marshal_event ev) in
      if maxEventBytes m <? n then apply_bounded m context pol observer clock evs' used (count_rejected s.1, s.2)
      else if maxMessageBytes m <? used + n then (Err (Failure "events message too large"), s)
      else apply_bounded m context pol observer clock evs' (used + n) (apply_one context pol observer clock ev s)
  end.

Definition ApplyEventsMessageBounded (msg : EventsMessage) (context : string) (pol : option Policy) (observer : option Observer)
    (m : limits) (clock : Z) (l : Ledger) : res ledger_err unit * (ApplyReport * Ledger) :=
  if negb (em_SchemaVersion msg =? SyncSchemaV1) then (Err (Failure "unsupported sync schema"), (no_report, l))
  else
    let m := norm_limits m in
    if maxEvents m <? Z.of_nat (length (em_Events msg)) then (Err (Failure "events message too large"), (no_report, l))
    else apply_bounded m context pol observer clock (orderEvents (em_Events msg)) 0 (no_report, l).

(** The work of one worker on one event. *)
Definition verify_task (ev : Event) (hash : list Z) : bool :=
  match AuthorPublicKey ev, DecodeString (SigB64 ev) with
  | Ok pub, Some sig => ed_verify pub hash sig
  | _, _ => false
  end.

(** What the first pass says of an event: no candidate, found in the cache, or to verify. *)
Inductive mark := Dropped | Cached | Pending (hash : list Z).

(** The checks of the first pass on one event whose bytes fit: its mark, the counters and the
    cache. *)
Definition precheck_one (p : Policy) (clock : Z) (l : Ledger) (ev : Event) (rep : ApplyReport) (c : option VerifiedEventCache)
    : mark * ApplyReport * option VerifiedEventCache :=
  if Have (ID ev) l then (Dropped, count_dupe rep, c)
  else
    match validateWithPolicyNoCrypto ev p clock with
    | Err _ => (Dropped, count_rejected rep, c)
    | Ok hash =>
        if negb (bool_decide (ID ev = EncodeToString hash)) then (Dropped, count_rejected rep, c)
        else let '(hit, c) := match_opt c ev clock in (if hit then Cached else Pending hash, rep, c)
    end.

Fixpoint precheck (m : limits) (p : Policy) (clock : Z) (l : Ledger) (evs : list Event) (used : Z) (seen : list string)
    (rep : ApplyReport) (c : option VerifiedEventCache) : res ledger_err (list mark) * ApplyReport * option VerifiedEventCache :=
  match evs with
  | [] => (Ok [], rep, c)
  | ev :: evs' =>
      let n := blen (marshal_event ev) in
      let goes_on used seen k rep c :=
        match precheck m p clock l evs' used seen rep c with
        | (Ok ks, rep, c) => (Ok (k :: ks), rep, c)
        | failed => failed
        end in
      if maxEventBytes m <? n then goes_on used seen Dropped (count_rejected rep) c
      else if maxMessageBytes m <? used + n then (Err (Failure "events message too large"), rep, c)
      else
        let id := TrimSpace (ID ev) in
        if is_empty id then goes_on (used + n) seen Dropped (count_rejected rep) c
        else if bool_decide (id ∈ seen) then goes_on (used + n) seen Dropped (count_dupe rep) c
        else let '(k, rep, c) := precheck_one p clock l ev rep c in goes_on (used + n) (id :: seen) k rep c
  end.

(** The pending events whose signature verifies, as the workers put them in the cache. *)
Definition verified_tasks (evs : list Event) (marks : list mark) : list Event :=
  omap (fun em => match em.2 with Pending hash => if verify_task em.1 hash then Some em.1 else None | _ => None end) (zip evs marks).

Definition apply_marked (context : string) (pol : option Policy) (observer : option Observer) (clock : Z) (em : Event * mark)
    (s : ApplyReport * Ledger) : ApplyReport * Ledger :=
  let apply_it := let '(r, l) := ApplyVerifiedWithContext em.1 context pol observer clock s.2 in (tally r s.1, l) in
  match em.2 with
  | Dropped => s
  | Cached => apply_it
  | Pending hash => if verify_task em.1 hash then apply_it else (count_rejected s.1, s.2)
  end.

Definition ApplyEventsMessageBoundedOptimized (finish : list Event -> list Event) (msg : EventsMessage) (context : string)
    (pol : option Policy) (observer : option Observer) (m : limits) (c : option VerifiedEventCache) (clock : Z) (l : Ledger)
    : res ledger_err unit * (ApplyReport * Ledger) * option VerifiedEventCache :=
  if negb (em_SchemaVersion msg =? SyncSchemaV1) then (Err (Failure "unsupported sync schema"), (no_report, l), c)
  else
    let m := norm_limits m in
    if maxEvents m <? Z.of_nat (length (em_Events msg)) then (Err (Failure "events message too large"), (no_report, l), c)
    else
      let evs := orderEvents (em_Events msg) in
      match precheck m (default DefaultPolicy pol) clock l evs 0 [] no_report c with
      | (Err e, rep, c) => (Err e, (rep, l), c)
      | (Ok marks, rep, c) =>
          let c := fold_left (put_opt clock) (finish (verified_tasks evs marks)) c in
          (Ok tt, fold_left (fun s em => apply_marked context pol observer clock em s) (zip evs marks) (rep, l), c)
      end.

(** ** Batch verification *)

Record BatchReport := mkBatch {
  br_Total : Z; br_Unique : Z; br_Precheck : Z; br_Cached : Z; br_Verified : Z; br_Rejected : Z; br_BadSig : Z; br_BadDecode : Z }.

(** The verdict of a worker on an event. *)
Inductive verdict := Good | BadSignature | BadEncoding.

Definition verify_verdict (ev : Event) (hash : list Z) : verdict :=
  match AuthorPublicKey ev with
  | Err _ => BadEncoding
  | Ok pub =>
      match DecodeString (SigB64 ev) with
      | None => BadEncoding
      | Some sig => if ed_verify pub hash sig then Good else BadSignature
      end
  end.

(** The first event of a batch under each identifier, in the order of [ids]. *)
Definition first_with (evs : list Event) (id : string) : option Event := head (filter (fun ev => TrimSpace (ID ev) = id) evs).

(** The first pass over the identifiers: their marks, how many passed the checks, the cache. *)
Fixpoint batch_marks (p : Policy) (clock : Z) (evs : list Event) (ids : list string) (c : option VerifiedEventCache)
    : list (string * Event * bool * mark) * option VerifiedEventCache :=
  match ids with
  | [] => ([], c)
  | id :: ids' =>
      match first_with evs id with
      | None => batch_marks p clock evs ids' c
      | Some ev =>
          let '(k, c) :=
            match validateWithPolicyNoCrypto ev p clock with
            | Err _ => ((false, Dropped), c)
            | Ok hash =>
                if negb (bool_decide (id = EncodeToString hash)) then ((false, Dropped), c)
                else
                  match c with
                  | None => ((true, Pending hash), c)
                  | Some c =>
                      let '(hit, c) := cache_match c id (AuthorKeyB64 ev) (SigB64 ev) clock in
                      ((true, if hit then Cached else Pending hash), Some c)
                  end
            end in
          let '(rest, c) := batch_marks p clock evs ids' c in
          ((id, ev, k.1, k.2) :: rest, c)
      end
  end.

Definition mark_ok (ev : Event) (k : mark) : bool :=
  match k with Dropped => false | Cached => true | Pending hash => match verify_verdict ev hash with Good => true | _ => false end end.

Definition pending_with (v : verdict) (ev : Event) (k : mark) : bool :=
  match k with
  | Pending hash => match verify_verdict ev hash, v with Good, Good | BadSignature, BadSignature | BadEncoding, BadEncoding => true | _, _ => false end
  | _ => false
  end.

Definition VerifyBatch (range : gset string -> list string) (finish : list Event -> list Event) (evs : list Event)
    (pol : option Policy) (c : option VerifiedEventCache) (clock : Z) : BatchReport * list bool * option VerifiedEventCache :=
  let ids := list_to_set (trimmed (ID <$> evs)) : gset string in
  let '(marks, c) := batch_marks (default DefaultPolicy pol) clock evs (range ids) c in
  let count f := Z.of_nat (length (filter (fun q => f q = true) marks)) in
  let good q := mark_ok q.1.1.2 q.2 in
  let ok_ids := map (fun q => q.1.1.1) (filter (fun q => good q = true) marks) in
  let out := map (fun ev => bool_decide (TrimSpace (ID ev) ∈ ok_ids)) evs in
  let tasks := map (fun q => q.1.1.2) (filter (fun q => pending_with Good q.1.1.2 q.2 = true) marks) in
  (mkBatch (Z.of_nat (length evs)) (Z.of_nat (size ids)) (count (fun q => q.1.2))
     (count (fun q => match q.2 with Cached => true | _ => false end)) (count good)
     (Z.of_nat (length (filter (fun b => b = false) out)))
     (count (fun q => pending_with BadSignature q.1.1.2 q.2)) (count (fun q => pending_with BadEncoding q.1.1.2 q.2)),
   out, fold_left (put_opt clock) (finish tasks) c).

End apply.
