(* ===== verification/LedgerSyncSpec.v ===== *)
(** * Properties of the exchange of ledgers

    Plans and messages keep to their limits; application goes by the priority of kinds; the
    cache of verified events stays sound.  LedgerAgree compares the two forms of
    application. *)

From S2P Require Import Prelude Sha256 GoStr LedgerEvent LedgerKinds Ledger LedgerInv LedgerReach LedgerTrust LedgerSync.

#[local] Set Warnings "-clear-no-such-hyp".

(** ** Plans *)

Lemma trimmed_spec ids x : x ∈ trimmed ids <-> is_empty x = false /\ exists y, y ∈ ids /\ x = TrimSpace y.
Proof.
  unfold trimmed. rewrite list_elem_of_filter, list_elem_of_fmap. split; [intros [? (y & -> & ?)]; eauto|].
  intros [? (y & ? & ->)]. eauto.
Qed.

(** What may be asked for. *)
Definition wanted (l : Ledger) (peerHas : list string) (id : string) : Prop :=
  is_empty id = false /\ has_event l id = false /\ id ∈ peerHas.

Lemma add_wants_spec maxWant l peerHas ids want :
  NoDup want -> Z.of_nat (length want) <= maxWant ->
  let r := add_wants maxWant l peerHas ids want in
  NoDup r /\ Z.of_nat (length r) <= maxWant /\ want ⊆ r
  /\ (forall x, x ∈ r -> x ∈ want \/ (x ∈ ids /\ wanted l peerHas x))
  /\ (Z.of_nat (length r) < maxWant -> forall x, x ∈ ids -> wanted l peerHas x -> x ∈ r).
Proof.
  revert want. induction ids as [|id ids IH]; intros want Hnd Hlen; cbn [add_wants].
  { split_and!; try done; [by left|]. intros _ x Hx%elem_of_nil. done. }
  destruct (Z.leb_spec maxWant (Z.of_nat (length want))).
  { split_and!; try done; [by left|]. lia. }
  destruct (is_empty id || has_event l id || negb (bool_decide (id ∈ peerHas)) || bool_decide (id ∈ want)) eqn:Eb.
  - destruct (IH want Hnd Hlen) as (K1 & K2 & K3 & K4 & K5). split_and!; try done.
    + intros x [Hx|[Hx Hw]]%K4; [by left|right]. split; [by right|done].
    + intros Hlt x [->|Hx]%elem_of_cons Hw; [|by apply K5]. destruct Hw as (W1 & W2 & W3).
      rewrite W1, W2, (bool_decide_eq_true_2 _ W3) in Eb. cbn in Eb. apply bool_decide_eq_true in Eb. by apply K3.
  - apply orb_false_iff in Eb as [[[W1 W2]%orb_false_iff W3%negb_false_iff%bool_decide_eq_true]%orb_false_iff W4%bool_decide_eq_false].
    destruct (IH (want ++ [id])) as (K1 & K2 & K3 & K4 & K5).
    { apply NoDup_app. split; [done|]. split; [|apply NoDup_singleton]. intros x Hx ->%list_elem_of_singleton. done. }
    { rewrite length_app. simpl. lia. }
    split_and!; try done.
    + intros x Hx. apply K3, elem_of_app. by left.
    + intros x [[Hx| ->%list_elem_of_singleton]%elem_of_app|[Hx Hw]]%K4; [by left| |].
      * right. split; [by left|done].
      * right. split; [by right|done].
    + intros Hlt x [->|Hx]%elem_of_cons Hw; [apply K3, elem_of_app; right; by left|by apply K5].
Qed.

Lemma or_default_pos x d : 0 < d -> 0 < or_default x d.
Proof. unfold or_default. intros Hd. destruct (Z.leb_spec x 0); lia. Qed.

(** A plan asks the peer for events that the peer says it has and the ledger has not, each
    once and at most as many as allowed; when fewer are asked for, every head of the peer
    and every reference the ledger misses that the peer has and the ledger has not is in it. *)
Theorem PlanSyncFromPeer_spec peer maxWant l :
  let peerHas := trimmed (iv_Have peer) ++ trimmed (iv_Heads peer) in
  let want := pl_Want (PlanSyncFromPeer peer maxWant l) in
  NoDup want /\ Z.of_nat (length want) <= or_default maxWant 256
  /\ Forall (wanted l peerHas) want
  /\ (Z.of_nat (length want) < or_default maxWant 256 ->
      (forall id, id ∈ trimmed (iv_Heads peer) -> has_event l id = false -> id ∈ want)
      /\ (forall id, is_Some (missingRefs l !! id) -> wanted l peerHas (TrimSpace id) -> TrimSpace id ∈ want)).
Proof.
  intros peerHas want. subst want. unfold PlanSyncFromPeer. fold peerHas. cbn [pl_Want].
  pose proof (or_default_pos maxWant 256 ltac:(lia)) as Hmax. set (mx := or_default maxWant 256) in *.
  set (missing := merge_sort (want_le l) (trimmed (elements (dom (missingRefs l))))).
  set (hs := merge_sort (want_le l) (TrimSpace <$> iv_Heads peer)).
  destruct (add_wants_spec mx l peerHas missing []) as (K1 & K2 & K3 & K4 & K5); [constructor|simpl; lia|].
  set (w := add_wants mx l peerHas missing []) in *.
  destruct (add_wants_spec mx l peerHas hs w K1 K2) as (M1 & M2 & M3 & M4 & M5).
  split; [done|]. split; [done|]. split.
  - apply Forall_forall. intros x [Hx|[_ Hx]]%M4; [|done]. apply K4 in Hx as [Hx%elem_of_nil|[_ Hx]]; done.
  - intros Hlt. split.
    + intros id Hid Hn. apply M5; [done| |].
      * unfold hs. rewrite merge_sort_Permutation, list_elem_of_fmap. apply trimmed_spec in Hid as (_ & y & Hy & ->). eauto.
      * split; [by apply trimmed_spec in Hid as [? _]|]. split; [done|]. apply elem_of_app. by right.
    + intros id Hid Hw. apply M3. apply K5; [|unfold missing|done].
      * assert (length w <= length (add_wants mx l peerHas hs w))%nat; [|lia]. apply submseteq_length, NoDup_submseteq; done.
      * rewrite merge_sort_Permutation, trimmed_spec. split; [apply Hw|]. exists id. split; [|done].
        by apply elem_of_elements, elem_of_dom.
Qed.

(** ** Messages *)

Definition bytes_total (evs : list Event) : Z := foldr (fun ev acc => blen (marshal_event ev) + acc) 0 evs.

Lemma bytes_total_app a b : bytes_total (a ++ b) = bytes_total a + bytes_total b.
Proof. induction a as [|x a IH]; simpl; [done|]. rewrite IH. lia. Qed.

Definition fits (m : limits) (l : Ledger) (out : list Event) : Prop :=
  Z.of_nat (length out) <= maxEvents m /\ bytes_total out <= maxMessageBytes m
  /\ Forall (fun ev => events l !! ID ev = Some ev /\ blen (marshal_event ev) <= maxEventBytes m) out.

Lemma select_bounded_spec m l want seen used out : keyed (events l) -> 0 < maxEvents m ->
  fits m l out -> used = bytes_total out -> Z.of_nat (length out) < maxEvents m ->
  NoDup (ID <$> out) -> (forall ev, ev ∈ out -> ID ev ∈ seen) ->
  let r := select_bounded m l want seen used out in
  fits m l r /\ NoDup (ID <$> r) /\ (forall ev, ev ∈ r -> ev ∈ out \/ ID ev ∈ trimmed want).
Proof.
  intros Hk Hpos. revert seen used out. induction want as [|id want IH]; intros seen used out Hf Hu Hlt Hnd Hseen; cbn [select_bounded].
  { split_and!; try done. by left. }
  assert (forall r : list Event, (forall ev, ev ∈ r -> ev ∈ out \/ ID ev ∈ trimmed want) -> forall ev, ev ∈ r -> ev ∈ out \/ ID ev ∈ trimmed (id :: want)) as Hmono.
  { intros r Hr ev [Hev|Hev]%Hr; [by left|right]. apply trimmed_spec in Hev as (? & y & ? & ?). apply trimmed_spec.
    split; [done|]. exists y. split; [by right|done]. }
  assert (forall seen', (forall ev, ev ∈ out -> ID ev ∈ seen') -> let r := select_bounded m l want seen' used out in
    fits m l r /\ NoDup (ID <$> r) /\ (forall ev, ev ∈ r -> ev ∈ out \/ ID ev ∈ trimmed (id :: want))) as Hskip.
  { intros seen' Hs'. destruct (IH seen' used out Hf Hu Hlt Hnd Hs') as (? & ? & ?). split; [done|]. split; [done|]. by apply Hmono. }
  destruct (is_empty (TrimSpace id)) eqn:Ee; cbn [orb].
  { by apply Hskip. }
  case_bool_decide as Hs.
  { by apply Hskip. }
  assert (forall ev, ev ∈ out -> ID ev ∈ TrimSpace id :: seen) as Hseen' by (intros ev Hev; right; by apply Hseen).
  destruct (events l !! TrimSpace id) as [ev|] eqn:Ev; [|by apply Hskip].
  destruct (Z.ltb_spec (maxEventBytes m) (blen (marshal_event ev)));
    [destruct (IH _ used out Hf Hu Hlt Hnd Hseen') as (? & ? & ?); auto|].
  destruct (Z.ltb_spec (maxMessageBytes m) (used + blen (marshal_event ev))).
  { split_and!; try done. by left. }
  pose proof (Hk _ _ Ev) as Hid. destruct Hf as (F1 & F2 & F3).
  assert (fits m l (out ++ [ev])) as Hf'.
  { split; [rewrite length_app; simpl; lia|]. split; [rewrite bytes_total_app; simpl; lia|].
    apply Forall_app. split; [done|]. constructor; [|done]. rewrite Hid. done. }
  assert (NoDup (ID <$> out ++ [ev])) as Hnd'.
  { rewrite fmap_app. apply NoDup_app. split; [done|]. split; [|apply NoDup_singleton].
    intros x (e & -> & He)%list_elem_of_fmap Hx. change (ID <$> [ev]) with [ID ev] in Hx. apply list_elem_of_singleton in Hx.
    apply Hs. rewrite <- Hid, <- Hx. by apply Hseen. }
  assert (forall e, e ∈ out ++ [ev] -> e ∈ out \/ ID e ∈ trimmed (id :: want)) as Hout.
  { intros e [He| ->%list_elem_of_singleton]%elem_of_app; [by left|right]. rewrite Hid. apply trimmed_spec. split; [done|].
    exists id. split; [by left|done]. }
  destruct (Z.leb_spec (maxEvents m) (Z.of_nat (length (out ++ [ev])))); [done|].
  destruct (IH (TrimSpace id :: seen) (used + blen (marshal_event ev)) (out ++ [ev])) as (K1 & K2 & K3); try done.
  { rewrite bytes_total_app. simpl. lia. }
  { intros e [He| ->%list_elem_of_singleton]%elem_of_app; [by apply Hseen'|]. rewrite Hid. by left. }
  split; [done|]. split; [done|]. intros e [He|He]%K3; [by apply Hout|]. by apply (Hmono [e]); [intros ? ->%list_elem_of_singleton; right|left].
Qed.

(** A message built within limits holds stored events that were asked for, each once, at most
    the allowed number, none longer than allowed, and together at most the allowed bytes. *)
Theorem BuildEventsMessageBounded_fits want m l : keyed (events l) ->
  let evs := em_Events (BuildEventsMessageBounded want m l) in
  fits (norm_limits m) l evs /\ NoDup (ID <$> evs) /\ (forall ev, ev ∈ evs -> ID ev ∈ trimmed want).
Proof.
  intros Hk evs. pose proof (or_default_pos (maxEvents m) 256 ltac:(lia)) as Hpos.
  pose proof (or_default_pos (maxMessageBytes m) (1024 * 1024) ltac:(lia)) as Hpos'.
  destruct (select_bounded_spec (norm_limits m) l want [] 0 []) as (K1 & K2 & K3); try done.
  - split; [simpl; lia|]. split; [simpl; lia|constructor].
  - constructor.
  - intros ev Hev%elem_of_nil. done.
  - split; [done|]. split; [done|]. intros ev [Hev%elem_of_nil|Hev]%K3; done.
Qed.

(** ** The order of application *)

Section stable.
Context {A} (less : A -> A -> bool).

Lemma stable_insert_perm x l : stable_insert less x l ≡ₚ x :: l.
Proof. induction l as [|y l IH]; [done|]. cbn. destruct (less y x); [|done]. rewrite IH. by apply perm_swap. Qed.

Lemma SliceStable_perm l : SliceStable less l ≡ₚ l.
Proof. induction l as [|x l IH]; [done|]. cbn. by rewrite stable_insert_perm, IH. Qed.

Lemma stable_insert_sorted x l : (forall a b, less a b = true -> less b a = false) ->
  Sorted (fun a b => less b a = false) l -> Sorted (fun a b => less b a = false) (stable_insert less x l).
Proof.
  intros Has. induction l as [|y l IH]; intros Hl; cbn; [by repeat constructor|].
  apply Sorted_inv in Hl as [Hl Hy]. destruct (less y x) eqn:E.
  - constructor; [by apply IH|]. destruct l as [|z l]; cbn; [by constructor; apply Has|].
    apply HdRel_inv in Hy. destruct (less z x); constructor; [done|by apply Has].
  - constructor; [by constructor|by constructor].
Qed.

Lemma SliceStable_sorted l : (forall a b, less a b = true -> less b a = false) -> Sorted (fun a b => less b a = false) (SliceStable less l).
Proof. intros Has. induction l as [|x l IH]; cbn; [constructor|]. by apply stable_insert_sorted. Qed.

End stable.

Lemma str_lt_asym a b : str_lt a b = true -> str_lt b a = false.
Proof.
  unfold str_lt, String.ltb. rewrite (String.compare_antisym b a). by destruct (String.compare a b).
Qed.

Lemma event_less_asym batch a b : event_less batch a b = true -> event_less batch b a = false.
Proof.
  unfold event_less. rewrite (Z.eqb_sym (kindPriority (Kind b))), (Z.eqb_sym (refCount batch (ID b))), (Z.eqb_sym (CreatedAt b)).
  destruct (Z.eqb_spec (kindPriority (Kind a)) (kindPriority (Kind b))); cbn [negb]; [|lia].
  destruct (Z.eqb_spec (refCount batch (ID a)) (refCount batch (ID b))); cbn [negb]; [|lia].
  destruct (Z.eqb_spec (CreatedAt a) (CreatedAt b)); cbn [negb]; [apply str_lt_asym|lia].
Qed.

Lemma orderEvents_perm batch : orderEvents batch ≡ₚ batch.
Proof. destruct batch as [|a [|b batch]]; [done|done|]. apply SliceStable_perm. Qed.

(** Application goes through all events of a message, identity and misbehaviour events
    before witnesses, groups, agents and chat: in the order of the kinds' priority. *)
Theorem orderEvents_by_priority batch :
  orderEvents batch ≡ₚ batch /\ StronglySorted (fun a b => kindPriority (Kind a) <= kindPriority (Kind b)) (orderEvents batch).
Proof.
  split; [apply orderEvents_perm|]. apply Sorted_StronglySorted; [intros a b c; apply Z.le_trans|].
  assert (Sorted (fun a b => event_less batch b a = false) (orderEvents batch)) as Hs.
  { destruct batch as [|a [|b batch]]; [constructor|by repeat constructor|]. apply SliceStable_sorted, event_less_asym. }
  assert (forall a b, event_less batch b a = false -> kindPriority (Kind a) <= kindPriority (Kind b)) as Hle.
  { intros a b Hab. unfold event_less in Hab.
    destruct (Z.eqb_spec (kindPriority (Kind b)) (kindPriority (Kind a))); cbn [negb] in Hab; lia. }
  induction Hs as [|a l _ IH Hhd]; constructor; [done|]. destruct Hhd; constructor. by apply Hle.
Qed.

(** ** The cache of verified events *)

Definition no_nul (s : string) : Prop := Forall (fun b => b <> 0) (bytes_of s).

Lemma nul_split a b x y : no_nul a -> no_nul b -> (a ++ nul ++ x)%string = (b ++ nul ++ y)%string -> a = b /\ x = y.
Proof.
  unfold no_nul. revert b. induction a as [|c a IH]; intros [|d b] Ha Hb; simpl; intros E.
  - injection E as E. done.
  - injection E as <- _. apply Forall_cons in Hb as [Hb _]. done.
  - injection E as -> _. apply Forall_cons in Ha as [Ha _]. done.
  - injection E as -> E. apply Forall_cons in Ha as [_ Ha], Hb as [_ Hb]. destruct (IH b Ha Hb E) as [-> ->]. done.
Qed.

Lemma cache_key_inj i k s i' k' s' : no_nul i -> no_nul i' -> no_nul k -> no_nul k' ->
  cache_key i k s = cache_key i' k' s' -> i = i' /\ k = k' /\ s = s'.
Proof. intros Hi Hi' Hk Hk' E. unfold cache_key in E. apply nul_split in E as [? E]; [|done..]. by apply nul_split in E as [? ?]. Qed.

Section cache.
Context `{Ed25519} `{PayloadJSON}.

(** An event whose identifier is its digest and whose signature verifies. *)
Definition checked (ev : Event) : Prop := bound ev /\ verify_task ev (unsignedHash ev) = true.

(** Every entry stands for an event that was verified. *)
Definition cache_ok (c : option VerifiedEventCache) : Prop :=
  match c with
  | None => True
  | Some c => Forall (fun e => exists ev, e.1 = cache_key (ID ev) (AuthorKeyB64 ev) (SigB64 ev) /\ checked ev) (vc_ll c)
  end.

Lemma drop_entry_sub key es : drop_entry key es ⊆ es.
Proof. intros e He. by apply list_elem_of_filter in He as [_ He]. Qed.

Lemma cache_ok_sub c es : es ⊆ vc_ll c -> cache_ok (Some c) -> cache_ok (Some (mkCache (vc_max c) (vc_ttl c) es)).
Proof. cbn. rewrite !Forall_forall. auto. Qed.

Lemma find_entry_in key es exp : find_entry key es = Some exp -> (key, exp) ∈ es.
Proof.
  unfold find_entry. destruct (filter _ es) as [|[k x] r] eqn:E; cbn; [done|]. intros [= <-].
  assert ((k, x) ∈ filter (fun e : string * Z => e.1 = key) es) as [<- Hin]%list_elem_of_filter by (rewrite E; left). done.
Qed.

Lemma match_opt_ok c ev now : cache_ok c -> cache_ok (match_opt c ev now).2.
Proof.
  intros Hc. destruct c as [c|]; [|done]. cbn [match_opt]. unfold cache_match. destruct (_ || _); [done|].
  destruct (find_entry _ _) as [exp|] eqn:Ef; [|done]. apply find_entry_in in Ef. destruct (negb _).
  - apply cache_ok_sub; [apply drop_entry_sub|done].
  - apply cache_ok_sub; [|done]. intros e [->|He]%elem_of_cons; [done|by apply drop_entry_sub in He].
Qed.

Lemma put_opt_ok c ev now : checked ev -> cache_ok c -> cache_ok (put_opt now c ev).
Proof.
  intros Hev Hc. destruct c as [c|]; [|done]. cbn [put_opt]. unfold cache_put. destruct (_ || _); [done|].
  cbn in Hc. rewrite Forall_forall in Hc. destruct (find_entry _ _); cbn; apply Forall_forall; intros e.
  - intros [->|He%drop_entry_sub]%elem_of_cons; [by exists ev|by apply Hc].
  - intros He. apply subseteq_take in He. apply elem_of_cons in He as [->|He]; [by exists ev|by apply Hc].
Qed.

Lemma checked_text ev : checked ev -> no_nul (ID ev) /\ no_nul (AuthorKeyB64 ev).
Proof.
  intros [Hb Hv]. split.
  - unfold no_nul. rewrite Hb. eapply DecodeString_nonzero, DecodeString_EncodeToString, Sum256_ok.
  - unfold verify_task, AuthorPublicKey in Hv. unfold no_nul. destruct (DecodeString (AuthorKeyB64 ev)) eqn:E; [|done].
    by eapply DecodeString_nonzero.
Qed.

(** A hit means that the event verifies. *)
Lemma match_opt_sound c ev now : cache_ok c -> bound ev -> is_ok (AuthorPublicKey ev) = true -> (match_opt c ev now).1 = true ->
  verify_task ev (unsignedHash ev) = true.
Proof.
  intros Hc Hb Hk. destruct c as [c|]; [|done]. cbn [match_opt]. unfold cache_match. destruct (_ || _); [done|].
  destruct (find_entry _ _) as [exp|] eqn:Ef; [|done]. destruct (negb _); [done|]. intros _. apply find_entry_in in Ef.
  cbn in Hc. rewrite Forall_forall in Hc. destruct (Hc _ Ef) as (ev' & E & Hev'). cbn in E.
  destruct (checked_text ev' Hev') as [N1 N2]. destruct Hev' as [Hb' Hv'].
  assert (no_nul (ID ev)) as N3 by (unfold no_nul; rewrite Hb; eapply DecodeString_nonzero, DecodeString_EncodeToString, Sum256_ok).
  assert (no_nul (AuthorKeyB64 ev)) as N4.
  { unfold AuthorPublicKey in Hk. unfold no_nul. destruct (DecodeString (AuthorKeyB64 ev)) eqn:Ed; [|done]. by eapply DecodeString_nonzero. }
  apply cache_key_inj in E as (E1 & E2 & E3); [|done..].
  assert (unsignedHash ev = unsignedHash ev') as Eh.
  { apply EncodeToString_inj; [apply Sum256_ok..|]. unfold bound in *. congruence. }
  unfold verify_task, AuthorPublicKey in *. by rewrite Eh, E2, E3.
Qed.

End cache.
