(* ===== verification/LedgerAgree.v ===== *)
(** * The optimised application of a message agrees with the plain one

    And where it does not: when two events of a message share an identifier. *)

From S2P Require Import Prelude Sha256 GoStr LedgerEvent LedgerKinds Ledger LedgerInv LedgerReach LedgerTrust LedgerSync LedgerSyncSpec.

#[local] Set Warnings "-clear-no-such-hyp".

Section agree.
Context `{Ed25519} `{PayloadJSON}.

(** Go's [ed25519.Verify] refuses signatures of any other length. *)
Definition verify_checks_length : Prop := forall pub msg sig, ed_verify pub msg sig = true -> blen sig = SignatureSize.

Lemma verify_task_spec ev : verify_checks_length -> bound ev -> verify_task ev (unsignedHash ev) = true <-> Verify ev = Ok tt.
Proof.
  intros Hlen Hb. unfold verify_task, Verify. cbv zeta. rewrite (bool_decide_eq_true_2 (ID ev = _)) by exact Hb. cbn [negb].
  destruct (AuthorPublicKey ev); [|done]. destruct (DecodeString (SigB64 ev)) as [sig|]; [|done].
  destruct (ed_verify _ _ sig) eqn:Ev; cbn [negb].
  - by rewrite (Hlen _ _ _ Ev).
  - by destruct (negb _).
Qed.

(** ** What one application does without an observer *)

Lemma reject_no_observer e ev context p clock l :
  exists e', reject_event e ev context p None clock l = (Err e', l).
Proof. unfold reject_event. destruct e; eauto. destruct (is_blank context); eauto. Qed.

Lemma invalid_rejected ev context pol clock l : validateWithPolicy ev (default DefaultPolicy pol) clock <> Ok tt ->
  exists e, ApplyWithContext ev context pol None clock l = (Err e, l).
Proof.
  intros Hv. unfold ApplyWithContext. destruct (validateWithPolicy ev _ clock) as [[]|e]; [done|]. apply reject_no_observer.
Qed.

(** The events are the same, or the event was stored. *)
Definition at_most_stores (ev : Event) (l l' : Ledger) : Prop := events l' = events l \/ events l' = <[ID ev := ev]> (events l).

Lemma apply_new_events ev context p clock l : at_most_stores ev l (apply_new ev context p None clock l).2.
Proof.
  unfold apply_new, at_most_stores. destruct (_ && _); [by left|]. destruct (check_prev ev l); [|by left]. unfold addLocked.
  destruct (has_event l (ID ev)); [by left|]. destruct (_ && _); [by left|]. destruct (seq_conflict _ _); [by left|]. right.
  exact (insert_event_events ev (RequireKnownPrev p) (delete (ID ev) (missingRefWeight (touch_author ev l))) (touch_author ev l)).
Qed.

Lemma applied_events ev context pol clock l : at_most_stores ev l (ApplyWithContext ev context pol None clock l).2.
Proof.
  unfold ApplyWithContext. cbv zeta. destruct (validateWithPolicy ev _ clock) as [[]|e].
  2: { destruct (reject_no_observer e ev context (default DefaultPolicy pol) clock l) as [e' ->]. by left. }
  unfold applyLocked. destruct (has_event l (ID ev)); [by left|].
  pose proof (apply_new_events ev context (default DefaultPolicy pol) clock (touch_author ev l)) as Hnew. cbv zeta.
  destruct (seqs_of _ (Author ev) !! Seq ev) as [ex|]; [|done]. destruct (negb _); [|done].
  unfold equivocate. destruct (order_ids _ _). by left.
Qed.

Lemma blank_id_invalid ev p clock : is_blank (ID ev) = true -> validateWithPolicy ev p clock <> Ok tt.
Proof.
  intros Hb. unfold validateWithPolicy, Validate, ValidateNoCrypto. destruct (negb (SchemaVersion ev =? SchemaV1)); [done|]. by rewrite Hb.
Qed.

(** ** Counters *)

Definition plus (a b : ApplyReport) : ApplyReport := mkReport (Applied a + Applied b) (Dupe a + Dupe b) (Rejected a + Rejected b).

Lemma plus_counts a b : count_applied (plus a b) = plus a (count_applied b) /\ count_dupe (plus a b) = plus (count_dupe a) b
  /\ count_rejected (plus a b) = plus (count_rejected a) b /\ count_rejected (plus a b) = plus a (count_rejected b).
Proof. unfold plus, count_applied, count_dupe, count_rejected. cbn. split_and!; f_equal; lia. Qed.

Lemma plus_none a : plus a no_report = a.
Proof. destruct a. unfold plus. cbn. f_equal; lia. Qed.

Lemma tally_plus r a b : tally r (plus a b) = plus a (tally r b).
Proof. destruct r; cbn [tally]; apply plus_counts. Qed.

(** ** One event *)

Lemma precheck_one_agrees context pol clock l l0 ev rep rep' c : verify_checks_length -> cache_ok c ->
  Have (ID ev) l = Have (ID ev) l0 ->
  let '(k, rep1, c1) := precheck_one (default DefaultPolicy pol) clock l0 ev rep c in
  cache_ok c1 /\ (forall hash, k = Pending hash -> bound ev /\ hash = unsignedHash ev)
  /\ exists rep2, let l' := (apply_one context pol None clock ev (plus rep rep', l)).2 in
     apply_marked context pol None clock (ev, k) (rep', l) = (rep2, l')
     /\ (apply_one context pol None clock ev (plus rep rep', l)).1 = plus rep1 rep2.
Proof.
  intros Hlen Hc Hh. unfold precheck_one, apply_one. rewrite Hh. destruct (Have (ID ev) l0).
  { split; [done|]. split; [done|]. exists rep'. cbn. split; [done|]. apply plus_counts. }
  assert (forall rep1, rep1 = count_rejected rep -> validateWithPolicy ev (default DefaultPolicy pol) clock <> Ok tt ->
    exists rep2, let '(r, l1) := ApplyWithContext ev context pol None clock l in
      (rep', l) = (rep2, l1) /\ tally r (plus rep rep') = plus rep1 rep2) as Hrej.
  { intros rep1 -> Hv. destruct (invalid_rejected ev context pol clock l Hv) as [e ->]. exists rep'. split; [done|]. apply plus_counts. }
  pose proof (validate_split ev (default DefaultPolicy pol) clock) as Hsplit.
  destruct (validateWithPolicyNoCrypto ev _ clock) as [hash|e] eqn:En.
  2: { split; [done|]. split; [done|]. destruct (Hrej _ eq_refl) as [rep2 Hr]; [intros [? _]%Hsplit; done|].
       exists rep2. destruct (ApplyWithContext _ _ _ _ _ _). exact Hr. }
  assert (hash = unsignedHash ev /\ is_ok (AuthorPublicKey ev) = true) as [-> Hk].
  { unfold validateWithPolicyNoCrypto in En. destruct (ValidateNoCrypto ev) eqn:Ev; [|done]. destruct (policyChecks _ _ _); [|done].
    injection En as <-. split; [done|]. unfold ValidateNoCrypto in Ev. repeat (case_match; [done|]). by destruct (AuthorPublicKey ev). }
  destruct (bool_decide_reflect (ID ev = EncodeToString (unsignedHash ev))) as [Hb|Hb]; cbn [negb].
  2: { split; [done|]. split; [done|]. destruct (Hrej _ eq_refl) as [rep2 Hr]; [intros [_ Hv]%Hsplit; by apply Hb, Verify_bound|].
       exists rep2. destruct (ApplyWithContext _ _ _ _ _ _). exact Hr. }
  pose proof (match_opt_ok c ev clock Hc) as Hc'. pose proof (match_opt_sound c ev clock Hc Hb Hk) as Hhit.
  destruct (match_opt c ev clock) as [hit c1]. cbn [fst snd] in Hc', Hhit. split; [done|].
  assert (verify_task ev (unsignedHash ev) = true -> exists rep2,
    let '(r, l1) := ApplyWithContext ev context pol None clock l in
    (let '(r, l) := ApplyVerifiedWithContext ev context pol None clock l in (tally r rep', l)) = (rep2, l1)
    /\ tally r (plus rep rep') = plus rep rep2) as Hok.
  { intros Hv. rewrite verified_application_agrees by (by apply verify_task_spec).
    destruct (ApplyWithContext ev context pol None clock l) as [r l1]. exists (tally r rep'). split; [done|]. apply tally_plus. }
  destruct hit; cbn [apply_marked fst snd].
  - split; [done|]. destruct (Hok (Hhit eq_refl)) as [rep2 Hr]. exists rep2. by destruct (ApplyWithContext _ _ _ _ _ _).
  - split; [intros h [= <-]; done|]. cbn [apply_marked fst snd]. destruct (verify_task ev (unsignedHash ev)) eqn:Ev.
    + destruct (Hok eq_refl) as [rep2 Hr]. exists rep2. by destruct (ApplyWithContext _ _ _ _ _ _).
    + destruct (Hrej _ eq_refl) as [rep2 Hr].
      { intros [_ Hv]%Hsplit. apply verify_task_spec in Hv; [congruence|done..]. }
      exists (count_rejected rep'). destruct (ApplyWithContext _ _ _ _ _ _) as [r l1]. destruct Hr as [[= <- <-] Hr].
      split; [done|]. cbn [fst snd]. rewrite Hr. destruct (plus_counts rep rep') as (_ & _ & E1 & E2). congruence.
Qed.

(** ** A whole message *)

Lemma apply_one_events context pol clock ev s : at_most_stores ev s.2 (apply_one context pol None clock ev s).2.
Proof.
  destruct s as [rep l]. unfold apply_one. destruct (Have (ID ev) l); [by left|].
  pose proof (applied_events ev context pol clock l) as Ha. by destruct (ApplyWithContext ev context pol None clock l).
Qed.

Lemma have_after ev id l l' : at_most_stores ev l l' -> ID ev <> id -> Have id l' = Have id l.
Proof.
  intros [E|E] Hne; unfold Have, has_event; rewrite E; [done|]. by rewrite lookup_insert_ne.
Qed.

Lemma blank_rejected context pol clock ev s : is_empty (TrimSpace (ID ev)) = true -> Have (ID ev) s.2 = false ->
  apply_one context pol None clock ev s = (count_rejected s.1, s.2).
Proof.
  intros Hb Hh. destruct s as [rep l]. unfold apply_one. cbn [snd] in Hh. rewrite Hh.
  destruct (invalid_rejected ev context pol clock l) as [e ->]; [by apply blank_id_invalid|done].
Qed.

Lemma messages_agree m context pol clock l0 evs : verify_checks_length ->
  (forall id, is_blank id = true -> Have id l0 = false) ->
  forall used seen rep rep' c l s,
  NoDup (TrimSpace ∘ ID <$> evs) -> (forall ev, ev ∈ evs -> TrimSpace (ID ev) ∉ seen) -> cache_ok c ->
  (forall ev, ev ∈ evs -> Have (ID ev) l = Have (ID ev) l0) ->
  apply_bounded m context pol None clock evs used (plus rep rep', l) = (Ok tt, s) ->
  exists ks rep1 c1, precheck m (default DefaultPolicy pol) clock l0 evs used seen rep c = (Ok ks, rep1, c1) /\ cache_ok c1
    /\ Forall (fun em => forall hash, em.2 = Pending hash -> bound em.1 /\ hash = unsignedHash em.1) (zip evs ks)
    /\ exists rep2, fold_left (fun s em => apply_marked context pol None clock em s) (zip evs ks) (rep', l) = (rep2, s.2) /\ s.1 = plus rep1 rep2.
Proof.
  intros Hlen Hblank. induction evs as [|ev evs IH]; intros used seen rep rep' c l s Hnd Hseen Hc Hh Hs; cbn [apply_bounded precheck] in *.
  { injection Hs as <-. exists [], rep, c. split; [done|]. split; [done|]. split; [constructor|]. exists rep'. done. }
  apply NoDup_cons in Hnd as [Hnew Hnd].
  assert (forall ev', ev' ∈ evs -> TrimSpace (ID ev') <> TrimSpace (ID ev)) as Hdiff.
  { intros ev' Hin E. apply Hnew. apply list_elem_of_fmap. exists ev'. split; [by cbn; rewrite E|done]. }
  assert (forall ev', ev' ∈ evs -> TrimSpace (ID ev') ∉ seen) as Hseen1 by (intros; apply Hseen; by right).
  assert (forall ev', ev' ∈ evs -> Have (ID ev') l = Have (ID ev') l0) as Hh1 by (intros; apply Hh; by right).
  destruct (plus_counts rep rep') as (_ & _ & Erej & _).
  destruct (maxEventBytes m <? blen (marshal_event ev)).
  { cbn [fst snd] in Hs. rewrite Erej in Hs. destruct (IH used seen (count_rejected rep) rep' c l s Hnd Hseen1 Hc Hh1 Hs)
      as (ks & rep1 & c1 & -> & Hc1 & Hp & Hf). exists (Dropped :: ks), rep1, c1. split; [done|]. split; [done|].
    split; [by constructor|exact Hf]. }
  destruct (maxMessageBytes m <? used + blen (marshal_event ev)); [done|].
  assert (TrimSpace (ID ev) ∉ seen) as Hfresh by (apply Hseen; by left).
  destruct (is_empty (TrimSpace (ID ev))) eqn:Eb.
  { rewrite blank_rejected in Hs; [|done|cbn [snd]; rewrite Hh by left; by apply Hblank]. cbn [fst snd] in Hs. rewrite Erej in Hs.
    destruct (IH _ seen (count_rejected rep) rep' c l s Hnd Hseen1 Hc Hh1 Hs) as (ks & rep1 & c1 & -> & Hc1 & Hp & Hf).
    exists (Dropped :: ks), rep1, c1. split; [done|]. split; [done|]. split; [by constructor|exact Hf]. }
  rewrite bool_decide_eq_false_2 by done.
  pose proof (precheck_one_agrees context pol clock l l0 ev rep rep' c Hlen Hc (Hh ev (list_elem_of_here _ _))) as Hone.
  destruct (precheck_one _ clock l0 ev rep c) as [[k rep1] c1]. destruct Hone as (Hc1 & Hk & rep2 & Hm & Hr).
  pose proof (apply_one_events context pol clock ev (plus rep rep', l)) as Hev.
  destruct (apply_one context pol None clock ev (plus rep rep', l)) as [ra l1]. cbn [fst snd] in Hm, Hr, Hev. subst ra.
  destruct (IH (used + blen (marshal_event ev)) (TrimSpace (ID ev) :: seen) rep1 rep2 c1 l1 s) as (ks & rep3 & c3 & -> & Hc3 & Hp & Hf); try done.
  { intros ev' Hin. apply not_elem_of_cons. split; [by apply Hdiff|by apply Hseen1]. }
  { intros ev' Hin. rewrite (have_after ev _ l l1 Hev); [by apply Hh1|]. intros E. apply (Hdiff ev' Hin). by rewrite E. }
  exists (k :: ks), rep3, c3. split; [done|]. split; [done|]. split; [by constructor|]. cbn [zip_with fold_left]. by rewrite Hm.
Qed.

(** The counters a pass starts from are added to. *)
Lemma marks_plus context pol observer clock zs a b l :
  let run x := fold_left (fun s em => apply_marked context pol observer clock em s) zs (x, l) in
  run (plus a b) = (plus a (run b).1, (run b).2).
Proof.
  revert b l. induction zs as [|em zs IH]; intros b l; [done|]. cbn [fold_left]. cbv zeta in IH.
  assert (apply_marked context pol observer clock em (plus a b, l)
          = (plus a (apply_marked context pol observer clock em (b, l)).1, (apply_marked context pol observer clock em (b, l)).2)) as ->.
  { unfold apply_marked. cbn [fst snd]. destruct (ApplyVerifiedWithContext _ _ _ _ _ _) as [r l1]. cbn [fst snd].
    destruct (em.2) as [| |hash]; cbn [fst snd]; [done|by rewrite tally_plus|]. destruct (verify_task _ _); cbn [fst snd]; [by rewrite tally_plus|].
    f_equal. apply plus_counts. }
  destruct (apply_marked context pol observer clock em (b, l)) as [b1 l1]. apply IH.
Qed.

Lemma verified_checked evs ks ev :
  Forall (fun em => forall hash, em.2 = Pending hash -> bound em.1 /\ hash = unsignedHash em.1) (zip evs ks) ->
  ev ∈ verified_tasks evs ks -> checked ev.
Proof.
  intros Hp Hin. unfold verified_tasks in Hin. apply list_elem_of_omap in Hin as ([e k] & Hin & Hv). cbn [fst snd] in Hv.
  rewrite Forall_forall in Hp. specialize (Hp _ Hin). cbn [fst snd] in Hp. destruct k as [| |hash]; try done.
  destruct (verify_task e hash) eqn:Ev; [|done]. injection Hv as <-. destruct (Hp hash eq_refl) as [Hb ->]. done.
Qed.

Lemma puts_ok clock evs c : (forall ev, ev ∈ evs -> checked ev) -> cache_ok c -> cache_ok (fold_left (put_opt clock) evs c).
Proof.
  revert c. induction evs as [|ev evs IH]; intros c Hevs Hc; [done|]. apply IH; [intros; apply Hevs; by right|].
  apply put_opt_ok; [apply Hevs; by left|done].
Qed.

(** Whether a message is cut short depends on the sizes of its events alone. *)
Lemma same_verdict m p context pol observer clock clock' l evs used seen rep c s :
  (precheck m p clock' l evs used seen rep c).1.1 = Err (Failure "events message too large") /\ (apply_bounded m context pol observer clock evs used s).1 = Err (Failure "events message too large")
  \/ (exists ks, (precheck m p clock' l evs used seen rep c).1.1 = Ok ks) /\ (apply_bounded m context pol observer clock evs used s).1 = Ok tt.
Proof.
  revert used seen rep c s. induction evs as [|ev evs IH]; intros used seen rep c s; cbn [precheck apply_bounded]; [right; split; [by exists []|done]|].
  assert (forall k used seen rep c s,
    (match precheck m p clock' l evs used seen rep c with (Ok ks, rep, c) => (Ok (k :: ks), rep, c) | failed => failed end).1.1 = Err (Failure "events message too large")
      /\ (apply_bounded m context pol observer clock evs used s).1 = Err (Failure "events message too large")
    \/ (exists ks, (match precheck m p clock' l evs used seen rep c with (Ok ks, rep, c) => (Ok (k :: ks), rep, c) | failed => failed end).1.1 = Ok ks)
      /\ (apply_bounded m context pol observer clock evs used s).1 = Ok tt) as Hon.
  { intros k used' seen' rep' c' s'. destruct (IH used' seen' rep' c' s') as [[E1 ->]|[[ks E1] ->]]; destruct (precheck _ _ _ _ _ _ _ _ _) as [[[ks'|e] rep1] c1]; cbn [fst] in E1; try discriminate E1.
    - left. by injection E1 as ->.
    - right. split; [by eexists|done]. }
  destruct (maxEventBytes m <? _); [apply Hon|]. destruct (maxMessageBytes m <? _); [by left|]. destruct (is_empty _); [apply Hon|]. case_bool_decide; [apply Hon|].
  destruct (precheck_one p clock' l ev rep c) as [[k rep'] c']. apply Hon.
Qed.

Lemma precheck_cache_ok m p clock l evs used seen rep c : cache_ok c -> cache_ok (precheck m p clock l evs used seen rep c).2.
Proof.
  revert used seen rep c. induction evs as [|ev evs IH]; intros used seen rep c Hc; cbn [precheck]; [done|].
  assert (forall k used seen rep c, cache_ok c -> cache_ok (match precheck m p clock l evs used seen rep c with (Ok ks, rep, c) => (Ok (k :: ks), rep, c) | failed => failed end).2) as Hon.
  { intros k used' seen' rep' c' Hc'. pose proof (IH used' seen' rep' c' Hc') as Hih. by destruct (precheck _ _ _ _ _ _ _ _ _) as [[[ks'|e] rep1] c1]. }
  destruct (maxEventBytes m <? _); [by apply Hon|]. destruct (maxMessageBytes m <? _); [done|]. destruct (is_empty _); [by apply Hon|]. case_bool_decide; [by apply Hon|].
  assert (cache_ok (precheck_one p clock l ev rep c).2) as Hone; [|destruct (precheck_one p clock l ev rep c) as [[k rep'] c']; by apply Hon].
  unfold precheck_one. destruct (Have _ _); [done|]. destruct (validateWithPolicyNoCrypto _ _ _); [|done]. case_bool_decide; [|done]. cbn [negb].
  pose proof (match_opt_ok c ev clock Hc) as Hm. by destruct (match_opt c ev clock).
Qed.

(** C4: When no two events of a message share an identifier, no blank identifier is held and no
    observer signs along, checking all signatures first, in whatever order, on whatever workers
    and with a cache of events verified before, gives what applying one event after the other
    gives: the same error or none; without an error the same counts and the same ledger; and the
    cache stays sound. A message that is turned down leaves the ledger as it was, where the plain
    application may have applied the events before the one that passed the limit. *)
Theorem optimized_application_agrees finish msg context pol m c clock l : verify_checks_length ->
  (forall evs, finish evs ⊆ evs) -> (forall id, is_blank id = true -> Have id l = false) ->
  NoDup (TrimSpace ∘ ID <$> em_Events msg) -> cache_ok c ->
  let plain := ApplyEventsMessageBounded msg context pol None m clock l in
  let optimized := ApplyEventsMessageBoundedOptimized finish msg context pol None m c clock l in
  optimized.1.1 = plain.1 /\ cache_ok optimized.2
  /\ (plain.1 = Ok tt -> optimized.1.2 = plain.2) /\ (plain.1 <> Ok tt -> optimized.1.2.2 = l).
Proof.
  intros Hlen Hfin Hblank Hnd Hc. cbv zeta. unfold ApplyEventsMessageBounded, ApplyEventsMessageBoundedOptimized.
  destruct (negb _); [done|]. destruct (maxEvents _ <? _); [done|].
  rewrite <- (orderEvents_perm (em_Events msg)) in Hnd. set (evs := orderEvents (em_Events msg)) in *. clearbody evs. set (nm := norm_limits m).
  pose proof (precheck_cache_ok nm (default DefaultPolicy pol) clock l evs 0 [] no_report c Hc) as Hok.
  destruct (same_verdict nm (default DefaultPolicy pol) context pol None clock clock l evs 0 [] no_report c (no_report, l)) as [[E1 ->]|[[ks E1] E2]].
  - destruct (precheck _ _ _ _ _ _ _ _ _) as [[[ks|e] rep] c1]; cbn [fst snd] in *; [done|]. by injection E1 as ->.
  - destruct (apply_bounded _ _ _ _ _ _ _ _) as [r s] eqn:Es. cbn [fst] in E2. subst r.
    destruct (messages_agree nm context pol clock l evs Hlen Hblank 0 [] no_report no_report c l s)
      as (ks' & rep1 & c1 & E & Hc1 & Hp & rep2 & Hf & Hr); try done.
    { intros ev _ Hin%elem_of_nil. done. }
    rewrite E. cbn [fst snd]. split_and!; [done| |intros _|done].
    + apply puts_ok; [|done]. intros ev Hin%Hfin. by eapply verified_checked.
    + pose proof (marks_plus context pol None clock (zip evs ks') rep1 no_report l) as Hadd. cbv zeta in Hadd.
      rewrite plus_none in Hadd. rewrite Hadd, Hf. cbn [fst snd]. rewrite <- Hr. by destruct s.
Qed.

(** ** Where they differ *)

(** An event that only carries the identifier of a good one, and comes before it in a
    message, keeps the optimised application from storing the good one, which the plain
    application stores. *)
Theorem optimized_application_shadows finish bad good context pol m c clock l :
  TrimSpace (ID bad) = ID good -> TrimSpace (ID good) = ID good -> is_empty (ID good) = false -> orderEvents [bad; good] = [bad; good] ->
  validateWithPolicy good (default DefaultPolicy pol) clock = Ok tt ->
  validateWithPolicyNoCrypto bad (default DefaultPolicy pol) clock <> Ok (unsignedHash bad) ->
  events l !! ID good = None -> events l !! ID bad = None ->
  2 <= maxEvents (norm_limits m) -> blen (marshal_event bad) <= maxEventBytes (norm_limits m) ->
  blen (marshal_event good) <= maxEventBytes (norm_limits m) ->
  blen (marshal_event bad) + blen (marshal_event good) <= maxMessageBytes (norm_limits m) ->
  let msg := mkEvents SyncSchemaV1 [bad; good] in
  ApplyEventsMessageBounded msg context pol None m clock l
    = (Ok tt, (let '(r, l') := ApplyWithContext good context pol None clock l in (tally r (mkReport 0 0 1), l')))
  /\ ApplyEventsMessageBoundedOptimized finish msg context pol None m c clock l
    = (Ok tt, (mkReport 0 1 1, l), fold_left (put_opt clock) (finish []) c).
Proof.
  intros Hid Htrim Hne Hord Hgood Hbad Hng Hnb Hm1 Hb1 Hb2 Hsum msg.
  assert (Have (ID good) l = false /\ Have (ID bad) l = false) as [Hg Hb].
  { unfold Have, has_event. rewrite Hng, Hnb. split; apply bool_decide_eq_false; by intros [? ?]. }
  unfold ApplyEventsMessageBounded, ApplyEventsMessageBoundedOptimized, msg. cbn [em_SchemaVersion em_Events]. cbn [negb Z.eqb SyncSchemaV1].
  rewrite Hord. change (Z.of_nat (length [bad; good])) with 2. set (nm := norm_limits m) in *.
  rewrite (proj2 (Z.ltb_ge (maxEvents nm) 2)) by done. cbn [apply_bounded precheck].
  pose proof (blen_nonneg (marshal_event bad)). pose proof (blen_nonneg (marshal_event good)).
  rewrite (proj2 (Z.ltb_ge (maxEventBytes nm) (blen (marshal_event bad)))), (proj2 (Z.ltb_ge (maxEventBytes nm) (blen (marshal_event good)))) by done.
  rewrite !Z.add_0_l, (proj2 (Z.ltb_ge (maxMessageBytes nm) (blen (marshal_event bad)))),
    (proj2 (Z.ltb_ge (maxMessageBytes nm) (blen (marshal_event bad) + blen (marshal_event good)))) by lia.
  assert (validateWithPolicy bad (default DefaultPolicy pol) clock <> Ok tt) as Hbad'.
  { intros [Hv _]%validate_split. done. }
  split.
  - unfold apply_one at 2. rewrite Hb. destruct (invalid_rejected bad context pol clock l Hbad') as [e ->].
    unfold apply_one. rewrite Hg. by destruct (ApplyWithContext good context pol None clock l).
  - rewrite Hid, Htrim, Hne. rewrite bool_decide_eq_false_2 by apply not_elem_of_nil. unfold precheck_one. rewrite Hb.
    destruct (validateWithPolicyNoCrypto bad _ clock) as [h|e] eqn:En.
    { exfalso. apply Hbad. unfold validateWithPolicyNoCrypto in En. repeat (case_match; [|done]). done. }
    rewrite (bool_decide_eq_true_2 (ID good ∈ [ID good])) by by left. done.
Qed.

(** ** Batch verification *)

(** The judgement on the first event of an identifier, without a cache. *)
Definition judge (p : Policy) (clock : Z) (id : string) (ev : Event) : bool * mark :=
  match validateWithPolicyNoCrypto ev p clock with
  | Err _ => (false, Dropped)
  | Ok hash => if bool_decide (id = EncodeToString hash) then (true, Pending hash) else (false, Dropped)
  end.

Lemma batch_marks_none p clock evs ids :
  batch_marks p clock evs ids None
  = (omap (fun id => match first_with evs id with Some ev => Some (id, ev, (judge p clock id ev).1, (judge p clock id ev).2) | None => None end) ids,
     None).
Proof.
  induction ids as [|id ids IH]; [done|]. cbn [batch_marks omap list_omap]. destruct (first_with evs id) as [ev|]; [|exact IH].
  unfold judge. destruct (validateWithPolicyNoCrypto ev p clock) as [hash|]; [|by rewrite IH].
  destruct (bool_decide_reflect (id = EncodeToString hash)); cbn [negb]; by rewrite IH.
Qed.

(** The first event of the batch with this identifier passes the checks and verifies. *)
Definition first_verifies (p : Policy) (clock : Z) (evs : list Event) (id : string) : Prop :=
  exists ev hash, first_with evs id = Some ev /\ validateWithPolicyNoCrypto ev p clock = Ok hash /\ id = EncodeToString hash
    /\ verify_task ev hash = true.

Lemma mark_ok_judge p clock id ev : mark_ok ev (judge p clock id ev).2 = true
  <-> exists hash, validateWithPolicyNoCrypto ev p clock = Ok hash /\ id = EncodeToString hash /\ verify_task ev hash = true.
Proof.
  assert (forall hash, match verify_verdict ev hash with Good => true | _ => false end = verify_task ev hash) as Hv.
  { intros hash. unfold verify_verdict, verify_task. destruct (AuthorPublicKey ev); [|done]. destruct (DecodeString _); [|done]. by destruct (ed_verify _ _ _). }
  unfold judge. destruct (validateWithPolicyNoCrypto ev p clock) as [hash|]; [|split; [done|intros (h & ? & _); done]].
  destruct (bool_decide_reflect (id = EncodeToString hash)) as [E|E]; cbn [snd mark_ok].
  - rewrite Hv. split; [intros Ht; by exists hash|]. by intros (h & [= <-] & _ & ?).
  - split; [done|]. by intros (h & [= <-] & ? & _).
Qed.

(** Without a cache, a batch passes an event exactly when its identifier is not blank and the
    first event of the batch with the same identifier passes the checks and verifies: the
    copies that follow share the verdict of the first, their own signatures are not looked at. *)
Theorem VerifyBatch_verdicts range finish evs pol clock i ev b : visits range ->
  let '(_, out, _) := VerifyBatch range finish evs pol None clock in
  evs !! i = Some ev -> out !! i = Some b ->
  b = true <-> is_empty (TrimSpace (ID ev)) = false /\ first_verifies (default DefaultPolicy pol) clock evs (TrimSpace (ID ev)).
Proof.
  intros Hr. unfold VerifyBatch. rewrite batch_marks_none. intros Hev. change (map ?f evs) with (f <$> evs). rewrite list_lookup_fmap, Hev.
  intros [= <-]. rewrite bool_decide_eq_true. change (map ?f ?l) with (f <$> l). set (id := TrimSpace (ID ev)). rewrite list_elem_of_fmap.
  split.
  - intros ([[[id' e] b] k] & -> & [Hk Hin]%list_elem_of_filter). cbn [fst snd] in *. apply list_elem_of_omap in Hin as (x & Hx & Hm).
    rewrite (Hr _), elem_of_elements, elem_of_list_to_set, trimmed_spec in Hx. destruct (first_with evs x) as [e'|] eqn:Ef; [|done].
    injection Hm as -> <- _ <-. apply mark_ok_judge in Hk as (hash & ? & ? & ?). split; [apply Hx|]. exists e', hash. done.
  - intros [Hne (e & hash & Hf & Hv & Hid & Ht)]. exists (id, e, (judge (default DefaultPolicy pol) clock id e).1, (judge (default DefaultPolicy pol) clock id e).2).
    split; [done|]. apply list_elem_of_filter. cbn [fst snd]. split; [apply mark_ok_judge; by exists hash|].
    apply list_elem_of_omap. exists id. rewrite Hf. split; [|done]. rewrite (Hr _), elem_of_elements, elem_of_list_to_set, trimmed_spec.
    split; [done|]. exists (ID ev). split; [|done]. apply list_elem_of_fmap. exists ev. split; [done|]. by eapply list_elem_of_lookup_2.
Qed.

End agree.
