(* ===== verification/LedgerExamples.v ===== *)
(** * Concrete ledgers

    Ed25519 and the JSON payloads as simple functions, a few events of two authors, and the
    theorems about ledgers applied to them. *)

From S2P Require Import Prelude Sha256 GoStr LedgerEvent LedgerKinds Ledger LedgerInv LedgerReach LedgerPrune LedgerTrust LedgerSnap.
From S2P Require Import LedgerSync LedgerSyncSpec LedgerAgree.

#[local] Open Scope string_scope.

(** Signatures are 64 bytes that repeat the first byte of the private key; the public key is
    32 times that byte. *)
#[local] Instance toy_ed25519 : Ed25519 := {|
  ed_verify pub msg sig := bool_decide (sig = replicate 64 (hd 0 pub));
  ed_sign priv msg := replicate 64 (hd 0 priv);
|}.

(** The payload of an attestation is the identifier it attests, in one context. *)
#[local] Instance toy_json : PayloadJSON := {|
  read_attestation b := Some (mkAttestation (str_of b) "ctx" "");
  read_checkpoint b := None;
  read_introduce b := None;
  read_rotate b := None;
  read_revoke b := None;
  read_equivocation b := None;
  read_replay b := None;
  read_sybil b := None;
  read_membership b := None;
  read_agent b := None;
  read_summary b := None;
  write_attestation p := bytes_of (at_EventID p);
  write_checkpoint p := [1];
  write_equivocation p := [1];
  write_replay p := [1];
  write_sybil p := [1];
  write_summary p := [1];
|}.

Definition now_ns : Z := UnixTime 1700000100.

(** An event signed by the key that repeats the byte [k]. *)
Definition signed_event (author : string) (k seq : Z) (prev : string) (ps : list string) (kind : string) (payload : list Z) (created : Z) : Event :=
  let ref := match payload with [] => "" | _ => match InlinePayloadRef payload with Ok (_, r) => r | Err _ => "" end end in
  match NewSignedEvent (mkInput author (replicate 32 k) (replicate 64 k) seq prev ps kind payload ref (UnixTime created) 0 0) now_ns None with
  | Ok ev => ev
  | Err _ => mkEvent 0 "" 0 "" "" 0 "" None "" "" "" ""
  end.

(** The first event of alice, her second, another first one, and one of bob. *)
Definition alice1 : Event := Eval vm_compute in signed_event "alice" 1 1 "" [] KindChatMessage [] 1700000000.
Definition alice2 : Event := Eval vm_compute in signed_event "alice" 1 2 (ID alice1) [ID alice1] KindChatMessage [] 1700000001.
Definition alice1' : Event := Eval vm_compute in signed_event "alice" 1 1 "" [] KindChatMessage [] 1700000002.
Definition bob_attest : Event := Eval vm_compute in signed_event "bob" 2 1 "" [] KindWitnessAttest (bytes_of (ID alice1)) 1700000003.
(** Bob continues an event that is not his. *)
Definition bob_child : Event := Eval vm_compute in signed_event "bob" 2 2 (ID alice1) [] KindChatMessage [] 1700000004.

Definition bob_key : string := Eval vm_compute in EncodeToString (replicate 32 2).

(** Bob is a witness; attestations are kept a second. *)
Definition trusting : Policy :=
  mkPolicy true (10 * Minute) 0 false {[KindWitnessAttest := Second]} (mkTrust {["ctx" := {[bob_key := 1]}]} ∅ 1).

(** The events are valid; everything else is computed without their digests. *)
Lemma alice1_valid : Validate alice1 = Ok tt.
Proof. vm_compute. reflexivity. Qed.

Lemma alice2_valid : Validate alice2 = Ok tt.
Proof. vm_compute. reflexivity. Qed.

Lemma alice1'_valid : Validate alice1' = Ok tt.
Proof. vm_compute. reflexivity. Qed.

Lemma bob_attest_valid : Validate bob_attest = Ok tt.
Proof. vm_compute. reflexivity. Qed.

Lemma bob_child_valid : Validate bob_child = Ok tt.
Proof. vm_compute. reflexivity. Qed.

Lemma valid_in_policy ev p clock : Validate ev = Ok tt -> policyChecks ev p clock = Ok tt -> validateWithPolicy ev p clock = Ok tt.
Proof. intros Hv Hp. unfold validateWithPolicy. by rewrite Hv. Qed.

(** Evaluates [Add] of an event known to be valid. *)
#[local] Ltac add_valid valid := unfold Add; rewrite valid; vm_compute; reflexivity.

(** Alice's event with bob's attestation of it. *)
Abbreviation attested := (run [OpAdd alice1; OpAdd bob_attest] New) (only parsing).

Definition alone : Ledger := Eval vm_compute in insert_event alice1 false ∅ (touch_author alice1 New).
Definition attested_state : Ledger := Eval vm_compute in insert_event bob_attest false ∅ (touch_author bob_attest alone).

Lemma alone_eq : step (OpAdd alice1) New = alone.
Proof. cbn [step]. assert (Add alice1 New = (Ok tt, alone)) as -> by add_valid alice1_valid. reflexivity. Qed.

Lemma attested_eq : attested = attested_state.
Proof.
  rewrite run_cons, alone_eq, run_cons. cbn [step].
  assert (Add bob_attest alone = (Ok tt, attested_state)) as -> by add_valid bob_attest_valid. reflexivity.
Qed.

Lemma run_alone : run [OpAdd alice1] New = alone.
Proof. rewrite run_cons, alone_eq. reflexivity. Qed.

Lemma attested_ok : ledger_ok attested.
Proof. apply run_ok, New_ok. Qed.

Lemma alice1_stored : events attested !! ID alice1 = Some alice1.
Proof. rewrite attested_eq. vm_compute. reflexivity. Qed.

(** A range that visits the elements in the order of the set. *)
Lemma visits_elements : visits elements.
Proof. intros s. reflexivity. Qed.

(** ** Reachable ledgers *)

Lemma stored_events_authentic_witness : Validate alice1 = Ok tt.
Proof.
  refine (proj2 (proj2 (stored_events_authentic [OpAdd alice1; OpAdd bob_attest] (ID alice1) alice1 _)) _).
  - exact alice1_stored.
  - by repeat constructor.
Defined.

Lemma no_equivocation_stored_witness : (Add alice1' attested).1 = Err (Failure "author seq conflict") /\ alice1 = alice1.
Proof.
  split; [rewrite attested_eq; add_valid alice1'_valid|].
  apply (no_equivocation_stored [OpAdd alice1; OpAdd bob_attest] (ID alice1) (ID alice1));
    [by repeat constructor|exact alice1_stored|exact alice1_stored|reflexivity|reflexivity].
Defined.

Definition continued : Ledger := Eval vm_compute in insert_event alice2 false ∅ (touch_author alice2 alone).

Lemma Add_keeps_heads_exact_witness : heads continued = heads (recomputeHeadsLocked continued).
Proof.
  apply (Add_keeps_heads_exact alice2 (run [OpAdd alice1] New)).
  - apply run_ok, New_ok.
  - rewrite run_alone. reflexivity.
  - rewrite run_alone. add_valid alice2_valid.
  - intros [[_ E]|E]; vm_compute in E; [discriminate E|]. apply elem_of_cons in E as [E|E%elem_of_nil]; [discriminate E|done].
  - intros id e He _. assert (events (run [OpAdd alice1] New) = {[ID alice1 := alice1]}) as Hs by (rewrite run_alone; reflexivity).
    rewrite Hs in He. apply lookup_singleton_Some in He as [_ <-].
    intros [[Hp _]|Hp]; [by apply Hp|]. by apply elem_of_nil in Hp.
Defined.

(** ** Pruning *)

Definition one_event : RetentionPolicy := mkRetention 1 0 false.

Lemma pruning_keeps_history_witness :
  size (events (step (OpRetain now_ns one_event now_ns) attested)) = 1%nat
  /\ events (step (OpRetain now_ns one_event now_ns) attested) !! ID alice1 = Some alice1.
Proof.
  split; [rewrite attested_eq; vm_compute; reflexivity|].
  apply (pruning_keeps_history [OpAdd alice1; OpAdd bob_attest] (OpRetain now_ns one_event now_ns));
    [reflexivity|exact alice1_stored|reflexivity].
Defined.

Lemma ApplyRetention_spec_witness :
  (ApplyRetention now_ns one_event now_ns attested).1 = 1
  /\ events (ApplyRetention now_ns one_event now_ns attested).2 ⊆ events attested.
Proof.
  split; [rewrite attested_eq; vm_compute; reflexivity|].
  apply (ApplyRetention_spec now_ns one_event now_ns attested (ApplyRetention now_ns one_event now_ns attested).1
           (ApplyRetention now_ns one_event now_ns attested).2); [exact attested_ok|].
  by destruct (ApplyRetention now_ns one_event now_ns attested).
Defined.

Definition pruned_state : Ledger := Eval vm_compute in (Prune now_ns (Some trusting) attested_state).2.

Lemma pruned_eq : Prune now_ns (Some trusting) attested = (1, pruned_state).
Proof. rewrite attested_eq. vm_compute. reflexivity. Qed.

Lemma pruned_ledger_stores_equivocation_witness :
  let l' := (Prune now_ns (Some trusting) attested).2 in
  (Add alice1' l').1 = Ok tt /\ events (Add alice1' l').2 !! ID alice1 = Some alice1
  /\ events (Add alice1' l').2 !! ID alice1' = Some alice1'.
Proof.
  apply (pruned_ledger_stores_equivocation now_ns (Some trusting) attested alice1 alice1');
    [exact attested_ok|by rewrite pruned_eq|by rewrite pruned_eq|reflexivity|reflexivity|reflexivity|exact alice1'_valid|by rewrite pruned_eq].
Defined.

(** ** Trust *)

Lemma weight_bounded :
  total (Trust (default DefaultPolicy (Some trusting))) "ctx" (compromised attested)
    (elements (index_get (attestations attested) (ID alice1) "ctx")) <= max_i64.
Proof. rewrite attested_eq. vm_compute. discriminate. Qed.

Lemma TrimSpace_alice1 : TrimSpace (ID alice1) = ID alice1.
Proof. reflexivity. Qed.

Lemma EventStatus_exact_witness : EventStatus elements (ID alice1) "ctx" (Some trusting) attested = Some StatusConfirmed.
Proof.
  rewrite (EventStatus_exact elements (ID alice1) "ctx" (Some trusting) attested);
    [rewrite attested_eq; vm_compute; reflexivity|exact visits_elements|rewrite TrimSpace_alice1; exact weight_bounded].
Defined.

Lemma confirmed_events_are_attested_witness : exists keys : list string, NoDup keys /\
  Threshold (Trust trusting) "ctx" <= foldr (fun k acc => Weight (Trust trusting) "ctx" k + acc) 0 keys
  /\ Forall (fun k => exists ev, AuthorKeyB64 ev = k /\ attests ev (ID alice1) "ctx" /\ signed_by_key ev) keys.
Proof.
  destruct (confirmed_events_are_attested [OpAdd alice1; OpAdd bob_attest] elements (ID alice1) "ctx" (Some trusting)) as (keys & K1 & K2 & K3).
  - exact visits_elements.
  - exact weight_bounded.
  - rewrite attested_eq. vm_compute. reflexivity.
  - exists keys. split; [exact K1|]. split; [exact K2|]. eapply Forall_impl; [exact K3|]. intros k (_ & _ & i & ev & _ & Ek & Ha & Hv).
    exists ev. split; [exact Ek|]. split; [exact Ha|]. apply Hv. repeat constructor.
Defined.

Lemma equivocation_is_reported_witness :
  exists a b, (ApplyWithContext alice1' "ctx" None None now_ns attested).1
              = Err (EquivocationError (mkEvidence "alice" (AuthorKeyB64 alice1') 1 a b)) /\ str_le a b.
Proof.
  destruct (equivocation_is_reported alice1' alice1 "ctx" None None now_ns attested) as (a & b & K1 & K2 & _);
    [exact attested_ok|apply valid_in_policy; [exact alice1'_valid|reflexivity]|rewrite attested_eq; reflexivity..|].
  exists a, b. split; [exact K1|exact K2].
Defined.

(** Mallory signs an event as bob's first. *)
Definition mallory_as_bob : Event := Eval vm_compute in signed_event "bob" 9 1 "" [] KindChatMessage [] 1700000005.

Lemma mallory_as_bob_valid : Validate mallory_as_bob = Ok tt.
Proof. vm_compute. reflexivity. Qed.

Lemma stranger_compromises_author_witness :
  (Confirmed elements (ID alice1) "ctx" (Some trusting) attested).2 = true
  /\ let l' := (ApplyWithContext mallory_as_bob "ctx" None None now_ns attested).2 in
     AuthorKeyB64 bob_attest ∈ compromised l' /\ (Confirmed elements (ID alice1) "ctx" (Some trusting) l').2 = false.
Proof.
  split; [rewrite attested_eq; vm_compute; reflexivity|].
  apply (stranger_compromises_author mallory_as_bob bob_attest "ctx" None now_ns attested elements (ID alice1) "ctx" (Some trusting));
    [exact attested_ok|apply valid_in_policy; [exact mallory_as_bob_valid|reflexivity]|rewrite attested_eq; reflexivity..
    |intros E; vm_compute in E; discriminate E|exact visits_elements|rewrite attested_eq; reflexivity].
Defined.

(** ** Snapshots *)

Lemma events_attested : events attested = <[ID alice1 := alice1]> {[ID bob_attest := bob_attest]}.
Proof. rewrite attested_eq. reflexivity. Qed.

Lemma attested_cases i e : events attested !! i = Some e -> (i = ID alice1 /\ e = alice1) \/ (i = ID bob_attest /\ e = bob_attest).
Proof.
  rewrite events_attested. intros [[<- <-]|[_ [<- <-]%lookup_singleton_Some]]%lookup_insert_Some; auto.
Qed.

Lemma attested_loadable : loadable attested.
Proof.
  split.
  - intros i e [[-> ->]|[-> ->]]%attested_cases; (split; [reflexivity|]); [exact alice1_valid|exact bob_attest_valid].
  - intros i e p [[-> ->]|[-> ->]]%attested_cases Hs; vm_compute in Hs; discriminate Hs.
  - intros i j e f [[-> ->]|[-> ->]]%attested_cases [[-> ->]|[-> ->]]%attested_cases Ha _; (reflexivity || (vm_compute in Ha; discriminate Ha)).
Qed.

Lemma snapshot_roundtrip_witness : exists l', NewFromSnapshot (CreateSnapshot now_ns attested) = Ok l' /\ events l' = events attested.
Proof.
  destruct (snapshot_roundtrip now_ns attested) as (l' & K1 & K2 & _).
  - exact attested_ok.
  - exact attested_loadable.
  - rewrite attested_eq. intros E. apply (f_equal elements) in E. vm_compute in E. discriminate E.
  - exists l'. split; [exact K1|exact K2].
Defined.

Lemma out_of_order_child_unloadable_witness :
  NewFromSnapshot (CreateSnapshot now_ns (run [OpAdd bob_child; OpAdd alice1] New)) = Err (Failure "prev author mismatch").
Proof.
  apply (out_of_order_child_unloadable alice1 bob_child now_ns); [exact alice1_valid|exact bob_child_valid|..].
  all: first [reflexivity | intros E; vm_compute in E; discriminate E].
Defined.

Lemma AuthorEventIDsBetween_terminates_witness : AuthorEventIDsBetween 4 "alice" 1 3 attested = Some (Some [ID alice1]).
Proof.
  rewrite (AuthorEventIDsBetween_terminates 4 "alice" 1 3 attested); [|lia|lia|unfold max_capacity; lia|simpl; lia|reflexivity].
  rewrite attested_eq. reflexivity.
Defined.

Lemma AuthorEventIDsBetween_diverges_witness : AuthorEventIDsBetween 1000 "alice" (2 ^ 64 - 1) (2 ^ 64 - 1) attested = None.
Proof.
  apply (AuthorEventIDsBetween_diverges "alice" (2 ^ 64 - 1) attested); [unfold max_capacity; lia|reflexivity|].
  rewrite attested_eq. intros E. apply (f_equal (fun m => m !! 1)) in E. vm_compute in E. discriminate E.
Defined.

Lemma alice1_text_ok : event_text_ok alice1.
Proof.
  unfold event_text_ok, event_ok. unfold_ints. split_and!; try reflexivity; try (vm_compute; discriminate). by apply Forall_nil.
Qed.

Lemma identifiers_bind_witness : with_id_sig alice1 "" "" = with_id_sig alice1 "" ""
  \/ (MarshalCanonicalEventUnsigned alice1 <> MarshalCanonicalEventUnsigned alice1 /\ unsignedHash alice1 = unsignedHash alice1).
Proof.
  apply (identifiers_bind [OpAdd alice1; OpAdd bob_attest] [OpAdd alice1] (ID alice1) alice1 alice1);
    [exact alice1_stored|rewrite run_alone; reflexivity|exact alice1_text_ok|exact alice1_text_ok].
Defined.

(** ** Synchronisation *)

Definition small : limits := mkLimits 4 1000 4000.

Lemma BuildEventsMessageBounded_fits_witness :
  (ID <$> em_Events (BuildEventsMessageBounded [ID alice1; "unknown"; ID alice1] small attested)) = [ID alice1]
  /\ NoDup (ID <$> em_Events (BuildEventsMessageBounded [ID alice1; "unknown"; ID alice1] small attested)).
Proof.
  split; [rewrite attested_eq; reflexivity|].
  apply (BuildEventsMessageBounded_fits [ID alice1; "unknown"; ID alice1] small attested). exact (ok_keys _ attested_ok).
Defined.

Lemma toy_checks_length : verify_checks_length.
Proof. intros pub msg sig Hs. apply bool_decide_eq_true in Hs as ->. reflexivity. Qed.

Lemma alice1_applies context : ApplyWithContext alice1 context None None now_ns New = (Ok StatusAccepted, alone).
Proof. unfold ApplyWithContext. rewrite valid_in_policy; [reflexivity|exact alice1_valid|reflexivity]. Qed.

Lemma optimized_application_agrees_witness :
  let optimized := ApplyEventsMessageBoundedOptimized id (mkEvents SyncSchemaV1 [alice1]) "ctx" None None small (Some (NewVerifiedEventCache 8 Minute)) now_ns New in
  optimized.1 = (Ok tt, (mkReport 1 0 0, alone)).
Proof.
  destruct (optimized_application_agrees id (mkEvents SyncSchemaV1 [alice1]) "ctx" None small (Some (NewVerifiedEventCache 8 Minute)) now_ns New) as (K1 & _ & K2 & _).
  - exact toy_checks_length.
  - intros evs e He. exact He.
  - intros i _. reflexivity.
  - apply NoDup_singleton.
  - constructor.
  - assert (ApplyEventsMessageBounded (mkEvents SyncSchemaV1 [alice1]) "ctx" None None small now_ns New = (Ok tt, (mkReport 1 0 0, alone))) as E.
    { unfold ApplyEventsMessageBounded. cbn [em_SchemaVersion em_Events orderEvents]. cbn -[apply_bounded norm_limits marshal_event].
      cbn [apply_bounded]. unfold apply_one, Have. rewrite alice1_applies. reflexivity. }
    rewrite E in K1, K2. cbn [fst snd] in K1, K2. specialize (K2 eq_refl). cbv zeta. destruct (ApplyEventsMessageBoundedOptimized _ _ _ _ _ _ _ _ _) as [[r s] c]. cbn [fst snd] in *. congruence.
Defined.
