(* ===== verification/RelayTypes.v ===== *)
(** * Relay requests and proof of work ([pkg/relay/types.go], [pkg/relay/http_client.go])

    What a relay accepts as mailbox, message identifier, envelope and request, the deadline
    of a time to live, and the proof of work: its check on the server's side and the search
    for a nonce on the client's. *)

From S2P Require Import Prelude Sha256 GoStr.

(** The error messages. *)
Inductive relay_err :=
  | EMailboxRequired | EMailboxTooLarge | EMailboxChars
  | EMessageIDRequired | EMessageIDTooLarge | EMessageIDInvalid
  | EEnvelopeRequired | EEnvelopeTooLarge | EReceivedAt
  | ETTLNegative | ETTLTooLarge | EDelayNegative | EDelayTooLarge
  | EPoWNegative | EPoWTooLarge | ENonceRequired | ENonceInvalid | ENonceLength | EPoWInvalid | EPoWFailed
  | EWaitNegative | EWaitTooLarge | EIDsRequired | ETooManyIDs
  | ERand | ECanceled
  | EUnauthorized | EMissingIP | ERateLimited | EMailboxRateLimited
  | EMethod | EBadJSON | EAddrMissing | EAddrInvalid | ENotLocal
  | ENilShaper | EQueueFull | ENilRelay | ENilHandle | EStorageFull | EQuota | EIO.

#[export] Instance relay_err_eq_dec : EqDecision relay_err.
Proof. solve_decision. Defined.

Definition maxMailboxLen : Z := 128.
Definition maxEnvelopeLen : Z := 256 * 1024.
Definition maxMessageIDLen : Z := 128.
Definition maxAckIDs : Z := 2000.

Definition mailbox_char (c : Z) : bool :=
  ((97 <=? c) && (c <=? 122)) || ((65 <=? c) && (c <=? 90)) || ((48 <=? c) && (c <=? 57)) || (c =? 45) || (c =? 95).

Local Open Scope res_scope.

Definition validateMailboxID (m : string) : res relay_err unit :=
  require! negb (is_empty m) else EMailboxRequired;
  require! slen m <=? maxMailboxLen else EMailboxTooLarge;
  require! forallb mailbox_char (bytes_of m) else EMailboxChars;
  Ok tt.

Definition validateMessageID (id : string) : res relay_err unit :=
  require! negb (is_empty id) else EMessageIDRequired;
  require! slen id <=? maxMessageIDLen else EMessageIDTooLarge;
  match DecodeString id with
  | Some b => if blen b =? 16 then Ok tt else Err EMessageIDInvalid
  | None => Err EMessageIDInvalid
  end.

Definition validateEnvelope (e : string) : res relay_err unit :=
  require! negb (is_empty e) else EEnvelopeRequired;
  require! slen e <=? maxEnvelopeLen else EEnvelopeTooLarge;
  Ok tt.

Record Message := mkMessage {
  m_ID : string;
  m_Mailbox : string;
  m_Envelope : string;
  m_ReceivedAt : Z;
}.

#[export] Instance Message_eq_dec : EqDecision Message.
Proof. solve_decision. Defined.

Definition Message_Validate (m : Message) : res relay_err unit :=
  _ <-! validateMessageID (m_ID m);
  _ <-! validateMailboxID (m_Mailbox m);
  _ <-! validateEnvelope (m_Envelope m);
  require! negb (m_ReceivedAt m <=? 0) else EReceivedAt;
  Ok tt.

Record PushRequest := mkPush {
  pu_Mailbox : string;
  pu_Envelope : string;
  pu_TTLSec : Z;
  pu_DelaySec : Z;
  pu_PoWBits : Z;
  pu_PoWNonceB64URL : string;
}.

(** The nonce a request carries, when it decodes to an admitted length. *)
Definition pow_nonce (nonceB64URL : string) : res relay_err (list Z) :=
  require! negb (is_empty nonceB64URL) else ENonceRequired;
  match DecodeString nonceB64URL with
  | None => Err ENonceInvalid
  | Some nonce => if (blen nonce <? 8) || (32 <? blen nonce) then Err ENonceLength else Ok nonce
  end.

Definition PushRequest_Validate (r : PushRequest) : res relay_err unit :=
  _ <-! validateMailboxID (pu_Mailbox r);
  _ <-! validateEnvelope (pu_Envelope r);
  require! negb (pu_TTLSec r <? 0) else ETTLNegative;
  require! negb (pu_DelaySec r <? 0) else EDelayNegative;
  require! negb (3600 <? pu_DelaySec r) else EDelayTooLarge;
  require! negb (pu_PoWBits r <? 0) else EPoWNegative;
  require! negb (28 <? pu_PoWBits r) else EPoWTooLarge;
  if 0 <? pu_PoWBits r then (_ <-! pow_nonce (pu_PoWNonceB64URL r); Ok tt) else Ok tt.

Record PullRequest := mkPull {
  pl_Mailbox : string;
  pl_Limit : Z;
  pl_WaitSec : Z;
}.

Definition PullRequest_Validate (r : PullRequest) : res relay_err unit :=
  _ <-! validateMailboxID (pl_Mailbox r);
  require! negb (pl_WaitSec r <? 0) else EWaitNegative;
  require! negb (30 <? pl_WaitSec r) else EWaitTooLarge;
  Ok tt.

Definition PullRequest_Normalize (r : PullRequest) : PullRequest :=
  let limit := if pl_Limit r <=? 0 then 50 else pl_Limit r in
  let limit := if 200 <? limit then 200 else limit in
  mkPull (pl_Mailbox r) limit (if 30 <? pl_WaitSec r then 30 else pl_WaitSec r).

Record AckRequest := mkAck {
  ak_Mailbox : string;
  ak_IDs : list string;
}.

(** The loop over the identifiers, which stops at the first bad one. *)
Fixpoint validateIDs (ids : list string) : res relay_err unit :=
  match ids with
  | [] => Ok tt
  | id :: ids' => _ <-! validateMessageID id; validateIDs ids'
  end.

Definition AckRequest_Validate (r : AckRequest) : res relay_err unit :=
  _ <-! validateMailboxID (ak_Mailbox r);
  require! negb (Z.of_nat (length (ak_IDs r)) =? 0) else EIDsRequired;
  require! Z.of_nat (length (ak_IDs r)) <=? maxAckIDs else ETooManyIDs;
  validateIDs (ak_IDs r).

Definition TTLDeadline (now ttlSec : Z) : res relay_err Z :=
  require! negb (ttlSec <? 0) else ETTLNegative;
  if ttlSec =? 0 then Ok zeroTime
  else require! negb (7 * 24 * 3600 <? ttlSec) else ETTLTooLarge;
       Ok (TimeAdd now (ttlSec * Second)).

(** A fresh identifier, as [newMessageID] and [newRandomMessageID] draw it. *)
Definition newMessageID (rand : option (list Z)) : res relay_err string :=
  match rand with None => Err ERand | Some b => Ok (EncodeToString b) end.

(** ** Proof of work *)

(** [byte(0xFF) << (8 - remBits)] *)
Definition rem_mask (remBits : Z) : Z := u8 (Z.shiftl 255 (8 - remBits)).

Definition hashHasLeadingZeroBits (sum : list Z) (bits : Z) : bool :=
  let fullBytes := bits / 8 in
  let remBits := bits mod 8 in
  forallb (fun i => byte_at sum (Z.of_nat i) =? 0) (seq 0 (Z.to_nat fullBytes))
  && ((remBits =? 0) || (Z.land (byte_at sum fullBytes) (rem_mask remBits) =? 0)).

(** What is hashed: mailbox, envelope and nonce, the first two ended by a zero byte. *)
Definition pow_input (mailbox envelope : string) (nonce : list Z) : list Z :=
  bytes_of mailbox ++ [0] ++ bytes_of envelope ++ [0] ++ nonce.

Definition VerifyPoW (mailbox envelope nonceB64URL : string) (bits : Z) : res relay_err unit :=
  if bits <=? 0 then Ok tt
  else
    require! negb (28 <? bits) else EPoWTooLarge;
    _ <-! validateMailboxID mailbox;
    _ <-! validateEnvelope envelope;
    nonce <-! pow_nonce nonceB64URL;
    require! hashHasLeadingZeroBits (Sum256 (pow_input mailbox envelope nonce)) bits else EPoWInvalid;
    Ok tt.

(** The nonce of one round: 8 random bytes and the round's number, little endian. *)
Definition round_nonce (salt : list Z) (i : Z) : list Z := salt ++ le_put 8 (u64 i).

Fixpoint pow_search (mailbox envelope : string) (salt : list Z) (bits i : Z) (rounds : nat) : res relay_err string :=
  match rounds with
  | O => Err EPoWFailed
  | S rounds' =>
      if hashHasLeadingZeroBits (Sum256 (pow_input mailbox envelope (round_nonce salt i))) bits
      then Ok (EncodeToString (round_nonce salt i))
      else pow_search mailbox envelope salt bits (i + 1) rounds'
  end.

(** [salt] is what [rand.Read] gives. *)
Definition findPoWNonce (mailbox envelope : string) (bits maxIter : Z) (salt : option (list Z)) : res relay_err string :=
  if bits <=? 0 then Ok EmptyString
  else
    let maxIter := if maxIter <=? 0 then 1 else maxIter in
    match salt with
    | None => Err ERand
    | Some salt => pow_search mailbox envelope salt bits 0 (Z.to_nat maxIter)
    end.

(** What [HTTPClient.Push] sends, before the request goes out. *)
Definition client_push_request (req : PushRequest) (salt : option (list Z)) : res relay_err PushRequest :=
  req' <-! (if (0 <? pu_PoWBits req) && is_blank (pu_PoWNonceB64URL req) then
              nonce <-! findPoWNonce (pu_Mailbox req) (pu_Envelope req) (pu_PoWBits req) 250000 salt;
              Ok (mkPush (pu_Mailbox req) (pu_Envelope req) (pu_TTLSec req) (pu_DelaySec req) (pu_PoWBits req) nonce)
            else Ok req);
  _ <-! PushRequest_Validate req';
  Ok req'.

(** The work a nonce does: the digest, as a number, is below 2^(256 - bits). *)
Definition pow_work (mailbox envelope : string) (nonce : list Z) (bits : Z) : Prop :=
  be_get (Sum256 (pow_input mailbox envelope nonce)) < 2 ^ (256 - bits).

(** ** Validation, characterised *)

Lemma validateMailboxID_ok m : validateMailboxID m = Ok tt <->
  m <> EmptyString /\ slen m <= maxMailboxLen /\ Forall (fun c => mailbox_char c = true) (bytes_of m).
Proof.
  unfold validateMailboxID. rewrite <- forallb_true. destruct m as [|a m]; [by split; [|intros [? _]]|].
  cbn [is_empty negb]. destruct (Z.leb_spec (slen (String a m)) maxMailboxLen) as [H|H]; cbn [rbind].
  - destruct (forallb _ _); split; intros; by destruct_and?.
  - split; [done|]. intros (_ & ? & _). lia.
Qed.

Lemma validateEnvelope_ok e : validateEnvelope e = Ok tt <-> e <> EmptyString /\ slen e <= maxEnvelopeLen.
Proof.
  unfold validateEnvelope. destruct e as [|a e]; [by split; [|intros [? _]]|].
  cbn [is_empty negb]. destruct (Z.leb_spec (slen (String a e)) maxEnvelopeLen); split; intros; try done; lia.
Qed.

Lemma validateIDs_ok ids : validateIDs ids = Ok tt <-> Forall (fun id => validateMessageID id = Ok tt) ids.
Proof.
  induction ids as [|id ids IH]; cbn [validateIDs]; [by split|]. rewrite Forall_cons, <- IH.
  destruct (validateMessageID id) as [[]|]; cbn [rbind]; intuition congruence.
Qed.

Lemma AckRequest_ok r : AckRequest_Validate r = Ok tt <->
  validateMailboxID (ak_Mailbox r) = Ok tt /\ ak_IDs r <> [] /\ Z.of_nat (length (ak_IDs r)) <= maxAckIDs
  /\ Forall (fun id => validateMessageID id = Ok tt) (ak_IDs r).
Proof.
  unfold AckRequest_Validate. rewrite <- validateIDs_ok.
  destruct (validateMailboxID _) as [[]|]; cbn [rbind]; [|by split; [|intros [? _]]].
  destruct (ak_IDs r) as [|id ids] eqn:E; [by split; [|intros (_ & ? & _)]|].
  destruct (Z.eqb_spec (Z.of_nat (length (id :: ids))) 0); [simpl in *; lia|]. cbn [negb].
  destruct (Z.leb_spec (Z.of_nat (length (id :: ids))) maxAckIDs).
  - split; [by intros|tauto].
  - split; [done|]. intros (_ & _ & ? & _). lia.
Qed.

Lemma b64_enc_length b : Z.of_nat (length (b64_enc b)) = (4 * blen b + 2) / 3.
Proof.
  induction b as [|x|x y|x y z b IH] using group_ind; [done..|]. unfold blen in *. cbn [b64_enc length].
  rewrite !Nat2Z.inj_succ, IH. Z.div_mod_to_equations. lia.
Qed.

Lemma EncodeToString_valid_id b : bytes_ok b -> blen b = 16 -> validateMessageID (EncodeToString b) = Ok tt.
Proof.
  intros Hb Hl. unfold validateMessageID. rewrite DecodeString_EncodeToString, Hl by done.
  assert (slen (EncodeToString b) = 22) as E.
  { unfold slen, EncodeToString. rewrite bytes_of_str_of by by apply b64_enc_ok. unfold blen at 1. by rewrite b64_enc_length, Hl. }
  destruct (is_empty (EncodeToString b)) eqn:Ee.
  - apply is_empty_spec in Ee. by rewrite Ee in E.
  - by rewrite E.
Qed.

(** ** The leading zero bits of a digest *)

Lemma be_get_cons x l : be_get (x :: l) = x * 256 ^ Z.of_nat (length l) + be_get l.
Proof.
  unfold be_get. rewrite reverse_cons. rewrite <- (length_reverse l).
  generalize (reverse l) as k. intros k. induction k as [|y k IH]; simpl app; cbn [le_get length]; [simpl; lia|].
  rewrite IH, Nat2Z.inj_succ, Z.pow_succ_r by lia. lia.
Qed.

Lemma rem_mask_spec r x : 0 <= r < 8 -> is_u8 x -> (Z.land x (rem_mask r) =? 0) = (x <? 2 ^ (8 - r)).
Proof.
  intros Hr Hx. apply Bool.eqb_prop. revert x Hx. unfold is_u8. change (2 ^ 8) with (Z.of_nat 256).
  apply all_below.
  assert (r = 0 \/ r = 1 \/ r = 2 \/ r = 3 \/ r = 4 \/ r = 5 \/ r = 6 \/ r = 7) as H by lia.
  repeat destruct H as [->|H]; subst; vm_compute; reflexivity.
Qed.

Lemma leading_cons x l bits : 8 <= bits ->
  hashHasLeadingZeroBits (x :: l) bits = (x =? 0) && hashHasLeadingZeroBits l (bits - 8).
Proof.
  intros Hb. unfold hashHasLeadingZeroBits.
  replace ((bits - 8) / 8) with (bits / 8 - 1) by (Z.div_mod_to_equations; lia).
  replace ((bits - 8) mod 8) with (bits mod 8) by (Z.div_mod_to_equations; lia).
  assert (1 <= bits / 8) by (Z.div_mod_to_equations; lia).
  replace (Z.to_nat (bits / 8)) with (S (Z.to_nat (bits / 8 - 1))) by lia.
  cbn [seq forallb]. unfold byte_at at 1. cbn [Z.to_nat Z.of_nat lookup list_lookup default].
  rewrite <- andb_assoc. f_equal. f_equal.
  - rewrite <- seq_shift. generalize (seq 0 (Z.to_nat (bits / 8 - 1))) as ks. intros ks.
    induction ks as [|i ks IH]; [done|]. cbn [map forallb]. rewrite IH. f_equal. unfold byte_at. by rewrite !Nat2Z.id.
  - unfold byte_at. replace (Z.to_nat (bits / 8)) with (S (Z.to_nat (bits / 8 - 1))) by lia. done.
Qed.

(** [hashHasLeadingZeroBits] is the comparison of the digest, as one number, with a power of
    two. *)
Lemma hashHasLeadingZeroBits_spec sum bits : bytes_ok sum -> 0 <= bits <= 8 * blen sum ->
  hashHasLeadingZeroBits sum bits = (be_get sum <? 2 ^ (8 * blen sum - bits)).
Proof.
  intros Hs. revert bits. induction Hs as [|x l Hx Hl IH]; intros bits Hb.
  { rewrite blen_nil in *. replace bits with 0 by lia. done. }
  pose proof (be_get_range l Hl) as Hr. rewrite be_get_cons. rewrite blen_cons in *.
  pose proof (blen_nonneg l) as Hn. unfold blen in *. set (n := Z.of_nat (length l)) in *.
  replace (256 ^ n) with (2 ^ (8 * n)) in * by (by rewrite Z.pow_mul_r by lia).
  unfold is_u8 in Hx. destruct (Z.lt_ge_cases bits 8) as [H8|H8].
  - unfold hashHasLeadingZeroBits. rewrite Z.div_small, Z.mod_small by lia. cbn [seq forallb Z.to_nat andb].
    change (byte_at (x :: l) 0) with x. rewrite rem_mask_spec by (unfold_ints; lia).
    replace (8 * (1 + n) - bits) with (8 - bits + 8 * n) by lia. rewrite Z.pow_add_r by lia.
    destruct (Z.eqb_spec bits 0) as [->|H0]; cbn [orb].
    + symmetry. apply Z.ltb_lt. change (2 ^ (8 - 0)) with 256. nia.
    + destruct (Z.ltb_spec x (2 ^ (8 - bits))); symmetry; [apply Z.ltb_lt|apply Z.ltb_ge]; nia.
  - rewrite leading_cons, IH by lia. replace (8 * (1 + n) - bits) with (8 * n - (bits - 8)) by lia.
    assert (2 ^ (8 * n - (bits - 8)) <= 2 ^ (8 * n)) by (apply Z.pow_le_mono_r; lia).
    destruct (Z.eqb_spec x 0) as [->|H0]; cbn [andb]; [done|]. symmetry. apply Z.ltb_ge. nia.
Qed.

Lemma pow_nonce_ok s nonce : pow_nonce s = Ok nonce <->
  s <> EmptyString /\ DecodeString s = Some nonce /\ 8 <= blen nonce <= 32.
Proof.
  unfold pow_nonce. destruct s as [|a s]; [by split; [|intros [? _]]|]. cbn [is_empty negb].
  destruct (DecodeString (String a s)) as [b|]; [|by split; [|intros (_ & ? & _)]].
  destruct (Z.ltb_spec (blen b) 8), (Z.ltb_spec 32 (blen b)); cbn [orb]; split; try done; intros H1;
    try (destruct H1 as (_ & [= ->] & ?); lia || done); by injection H1 as ->.
Qed.

Lemma leading_pow_work mb env nonce bits : 0 <= bits <= 256 ->
  hashHasLeadingZeroBits (Sum256 (pow_input mb env nonce)) bits = true <-> pow_work mb env nonce bits.
Proof.
  intros Hb. assert (blen (Sum256 (pow_input mb env nonce)) = 32) as E by (unfold blen; by rewrite Sum256_length).
  rewrite hashHasLeadingZeroBits_spec, E by (try apply Sum256_ok; lia). unfold pow_work. apply Z.ltb_lt.
Qed.

(** [VerifyPoW] accepts exactly a decodable nonce of 8 to 32 bytes whose digest has the
    leading zero bits, for admitted mailboxes and envelopes. *)
Lemma VerifyPoW_ok mb env s bits : 0 < bits -> VerifyPoW mb env s bits = Ok tt <->
  bits <= 28 /\ validateMailboxID mb = Ok tt /\ validateEnvelope env = Ok tt
  /\ exists nonce, pow_nonce s = Ok nonce /\ pow_work mb env nonce bits.
Proof.
  intros Hp. unfold VerifyPoW. destruct (Z.leb_spec bits 0); [lia|].
  destruct (Z.ltb_spec 28 bits); cbn [negb].
  { split; [done|]. intros [? _]. lia. }
  destruct (validateMailboxID mb) as [[]|]; cbn [rbind]; [|by split; [|intros (_ & ? & _)]].
  destruct (validateEnvelope env) as [[]|]; cbn [rbind]; [|by split; [|intros (_ & _ & ? & _)]].
  destruct (pow_nonce s) as [nonce|]; cbn [rbind]; [|by split; [|intros (_ & _ & _ & ? & ? & _)]].
  pose proof (leading_pow_work mb env nonce bits) as HW. destruct (hashHasLeadingZeroBits _ _); split; try done.
  - intros _. repeat split; [lia|]. exists nonce. split; [done|]. apply HW; [lia|done].
  - intros (_ & _ & _ & nonce' & [= <-] & Hw). apply HW in Hw; [done|lia].
Qed.

Lemma pow_search_ok mb env salt bits i rounds s : bytes_ok salt -> blen salt = 8 ->
  pow_search mb env salt bits i rounds = Ok s ->
  exists nonce, pow_nonce s = Ok nonce /\ hashHasLeadingZeroBits (Sum256 (pow_input mb env nonce)) bits = true.
Proof.
  intros Hs Hl. revert i. induction rounds as [|rounds IH]; intros i; [done|]. cbn [pow_search].
  destruct (hashHasLeadingZeroBits _ _) eqn:E; [|apply IH]. intros [= <-]. exists (round_nonce salt i). split; [|done].
  assert (bytes_ok (round_nonce salt i)) as Hb by (apply Forall_app; split; [done|apply le_put_ok]).
  assert (blen (round_nonce salt i) = 16) as H16.
  { unfold round_nonce. rewrite blen_app, Hl. unfold blen. by rewrite le_put_length. }
  apply pow_nonce_ok. rewrite DecodeString_EncodeToString by done. repeat split; [|lia..].
  intros Hn. apply (f_equal DecodeString) in Hn. rewrite DecodeString_EncodeToString in Hn by done.
  injection Hn as Hn. by rewrite Hn in H16.
Qed.

(** The nonce the client finds passes the server's check. *)
Theorem found_nonce_verifies mb env bits maxIter salt s :
  validateMailboxID mb = Ok tt -> validateEnvelope env = Ok tt -> bits <= 28 ->
  bytes_ok salt -> blen salt = 8 ->
  findPoWNonce mb env bits maxIter (Some salt) = Ok s -> VerifyPoW mb env s bits = Ok tt.
Proof.
  intros Hm He Hb Hs Hl. unfold findPoWNonce. destruct (Z.leb_spec bits 0) as [H0|H0].
  { intros _. unfold VerifyPoW. by destruct (Z.leb_spec bits 0); [|lia]. }
  intros (nonce & Hn & Hh)%pow_search_ok; [|done..]. apply VerifyPoW_ok; [done|]. repeat split; [done..|].
  exists nonce. split; [done|]. apply leading_pow_work; [lia|done].
Qed.
