(* ===== verification/RelayMailbox.v ===== *)
(** * The relay's mailboxes ([pkg/relay/memory.go])

    Messages wait in a mailbox until they are acknowledged or expire.  The file states which
    messages of a history of operations are pending, shows that the mailboxes hold exactly
    those, what a pull hands out, and that a long poll ends. *)

From S2P Require Import Prelude GoStr RelayTypes.

Record stored := mkStored {
  s_msg : Message;
  s_deadline : Z;
  s_availAt : Z;
}.

#[export] Instance stored_eq_dec : EqDecision stored.
Proof. solve_decision. Defined.

Definition s_received (s : stored) : Z := m_ReceivedAt (s_msg s).

Abbreviation MemoryRelay := (gmap string (list stored)).

Definition NewMemoryRelay : MemoryRelay := ∅.

(** A message whose deadline has passed; the zero deadline never does. *)
Definition expired (now : Z) (s : stored) : bool := negb (IsZero (s_deadline s)) && After now (s_deadline s).

Definition unexpired (now : Z) (q : list stored) : list stored := filter (fun s => expired now s = false) q.

Definition pruneLocked (now : Z) (r : MemoryRelay) : MemoryRelay :=
  omap (fun q => match unexpired now q with [] => None | kept => Some kept end) r.

Local Open Scope res_scope.

(** [Push] up to the lock: what it will store. [rand] is what [rand.Read] gives. *)
Definition new_stored (now : Z) (rand : option (list Z)) (req : PushRequest) : res relay_err stored :=
  _ <-! PushRequest_Validate req;
  deadline <-! TTLDeadline now (pu_TTLSec req);
  let availAt := if 0 <? pu_DelaySec req then TimeAdd now (pu_DelaySec req * Second) else now in
  id <-! newMessageID rand;
  let msg := mkMessage id (pu_Mailbox req) (pu_Envelope req) (Unix now) in
  _ <-! Message_Validate msg;
  Ok (mkStored msg deadline availAt).

Definition Push (now : Z) (rand : option (list Z)) (req : PushRequest) (r : MemoryRelay) : res relay_err string * MemoryRelay :=
  match new_stored now rand req with
  | Err e => (Err e, r)
  | Ok s =>
      let r := pruneLocked now r in
      (Ok (m_ID (s_msg s)), <[pu_Mailbox req := default [] (r !! pu_Mailbox req) ++ [s]]> r)
  end.

Definition Ack (now : Z) (req : AckRequest) (r : MemoryRelay) : res relay_err unit * MemoryRelay :=
  match AckRequest_Validate req with
  | Err e => (Err e, r)
  | Ok _ =>
      let r := pruneLocked now r in
      match default [] (r !! ak_Mailbox req) with
      | [] => (Ok tt, r)
      | q => (Ok tt, <[ak_Mailbox req := filter (fun s => m_ID (s_msg s) ∉ ak_IDs req) q]> r)
      end
  end.

(** A message whose delay is over. *)
Definition available (now : Z) (s : stored) : bool := negb (negb (IsZero (s_availAt s)) && Before now (s_availAt s)).

Section Pull.
Context `{SS : !SortSlice (le_by s_received)}.

Definition pullAvailableLocked (mailbox : string) (now limit : Z) (r : MemoryRelay) : list Message :=
  let q := filter (fun s => available now s = true) (default [] (r !! mailbox)) in
  s_msg <$> take (Z.to_nat limit) (sort_slice q).

(** One turn of the loop of [Pull], up to the unlock. *)
Definition pull_try (mailbox : string) (now limit : Z) (r : MemoryRelay) : list Message * MemoryRelay :=
  let r := pruneLocked now r in (pullAvailableLocked mailbox now limit r, r).
End Pull.

(** ** Histories

    The locked sections in the order the mutex grants them: a push, one attempt of a pull,
    an acknowledgement, each with its reading of the clock. *)

Inductive op :=
  | OpPush (now : Z) (rand : option (list Z)) (req : PushRequest)
  | OpPull (now : Z)
  | OpAck (now : Z) (req : AckRequest).

Definition apply_op (r : MemoryRelay) (o : op) : MemoryRelay :=
  match o with
  | OpPush now rand req => snd (Push now rand req r)
  | OpPull now => pruneLocked now r
  | OpAck now req => snd (Ack now req r)
  end.

Definition run_ops (h : list op) (r : MemoryRelay) : MemoryRelay := fold_left apply_op h r.

(** [Pull]: it reads the clock once to fix the end of the wait, then tries, and between two
    tries sleeps.  A [tick] is one turn: the clock at the try and when it computes how long
    to sleep, whether the context ended in the sleep, and what others did meanwhile. *)
Record tick := mkTick {
  tk_now : Z;
  tk_mid : Z;
  tk_done : bool;
  tk_others : list op;
}.

Definition sleepFor (waitUntil mid : Z) : Z := Z.min (50 * Millisecond) (TimeSub waitUntil mid).

Section PullLoop.
Context `{SS : !SortSlice (le_by s_received)}.

(** No result: the loop goes on. *)
Definition pull_turn (req : PullRequest) (waitUntil : Z) (t : tick) (r : MemoryRelay) : option (res relay_err (list Message)) * MemoryRelay :=
  let '(out, r) := pull_try (pl_Mailbox req) (tk_now t) (pl_Limit req) r in
  if (0 <? Z.of_nat (length out)) || (pl_WaitSec req <=? 0) || (negb (IsZero waitUntil) && After (tk_now t) waitUntil)
  then (Some (Ok out), r)
  else if negb (IsZero waitUntil) && (TimeSub waitUntil (tk_mid t) <=? 0) then (Some (Ok []), r)
  else if tk_done t then (Some (Err ECanceled), r)
  else (None, run_ops (tk_others t) r).

Fixpoint pull_loop (req : PullRequest) (waitUntil : Z) (ts : list tick) (r : MemoryRelay) : option (res relay_err (list Message)) * MemoryRelay :=
  match ts with
  | [] => (None, r)
  | t :: ts' =>
      match pull_turn req waitUntil t r with
      | (Some res, r) => (Some res, r)
      | (None, r) => pull_loop req waitUntil ts' r
      end
  end.

Definition Pull (start : Z) (req : PullRequest) (ts : list tick) (r : MemoryRelay) : option (res relay_err (list Message)) * MemoryRelay :=
  match PullRequest_Validate req with
  | Err e => (Some (Err e), r)
  | Ok _ =>
      let req := PullRequest_Normalize req in
      let waitUntil := if 0 <? pl_WaitSec req then TimeAdd start (pl_WaitSec req * Second) else zeroTime in
      pull_loop req waitUntil ts r
  end.
End PullLoop.

(** ** The specification: what is pending after a history *)

(** What an operation adds. *)
Definition pushed (o : op) : option stored :=
  match o with
  | OpPush now rand req => match new_stored now rand req with Ok s => Some s | Err _ => None end
  | _ => None
  end.

(** Whether a message survives a later operation: it is not expired when the operation
    prunes, and not acknowledged in its mailbox. *)
Definition survives (o : op) (s : stored) : bool :=
  match o with
  | OpPush now rand req => if is_ok (new_stored now rand req) then negb (expired now s) else true
  | OpPull now => negb (expired now s)
  | OpAck now req =>
      if is_ok (AckRequest_Validate req) then
        negb (expired now s)
        && negb (bool_decide (m_Mailbox (s_msg s) = ak_Mailbox req) && bool_decide (m_ID (s_msg s) ∈ ak_IDs req))
      else true
  end.

(** The messages pushed that survive all that follows, in the order they were pushed. *)
Fixpoint pending (h : list op) : list stored :=
  match h with
  | [] => []
  | o :: h' =>
      match pushed o with
      | Some s => if forallb (fun o' => survives o' s) h' then s :: pending h' else pending h'
      | None => pending h'
      end
  end.

Definition in_mailbox (mb : string) (q : list stored) : list stored := filter (fun s => m_Mailbox (s_msg s) = mb) q.

(** ** The mailboxes hold what is pending *)

Definition refines (r : MemoryRelay) (l : list stored) : Prop := forall mb, default [] (r !! mb) = in_mailbox mb l.

Lemma lookup_prune now r mb : default [] (pruneLocked now r !! mb) = unexpired now (default [] (r !! mb)).
Proof.
  unfold pruneLocked. rewrite lookup_omap. destruct (r !! mb) as [q|]; simpl; [|done]. by destruct (unexpired now q).
Qed.

Lemma filter_comm {A} (P Q : A -> Prop) `{!forall x, Decision (P x), !forall x, Decision (Q x)} (l : list A) :
  filter P (filter Q l) = filter Q (filter P l).
Proof. rewrite !list_filter_filter. apply list_filter_iff. tauto. Qed.

Lemma refines_prune now r l : refines r l -> refines (pruneLocked now r) (unexpired now l).
Proof. intros H mb. rewrite lookup_prune, H. apply filter_comm. Qed.

Lemma new_stored_ok now rand req s : new_stored now rand req = Ok s ->
  PushRequest_Validate req = Ok tt /\ m_Mailbox (s_msg s) = pu_Mailbox req /\ m_Envelope (s_msg s) = pu_Envelope req
  /\ m_ReceivedAt (s_msg s) = Unix now /\ TTLDeadline now (pu_TTLSec req) = Ok (s_deadline s)
  /\ newMessageID rand = Ok (m_ID (s_msg s)) /\ Message_Validate (s_msg s) = Ok tt
  /\ s_availAt s = if 0 <? pu_DelaySec req then TimeAdd now (pu_DelaySec req * Second) else now.
Proof.
  unfold new_stored. destruct (PushRequest_Validate req) as [[]|]; cbn [rbind]; [|done].
  destruct (TTLDeadline _ _) as [d|]; cbn [rbind]; [|done].
  destruct (newMessageID rand) as [id|]; cbn [rbind]; [|done].
  destruct (Message_Validate _) as [[]|] eqn:E; cbn [rbind]; [|done]. intros [= <-]. by repeat split.
Qed.

Lemma refines_op r l o : refines r l ->
  refines (apply_op r o) (filter (fun s => survives o s = true) l ++ option_list (pushed o)).
Proof.
  intros H. destruct o as [now rand req|now|now req]; cbn [apply_op pushed survives].
  - unfold Push. destruct (new_stored now rand req) as [s|] eqn:E; cbn [fst snd is_ok option_list option_rect].
    + apply new_stored_ok in E as (_ & Hm & _). pose proof (refines_prune now r l H) as Hp. intros mb.
      assert (filter (fun s0 => negb (expired now s0) = true) l = unexpired now l) as ->.
      { apply list_filter_iff. intros x. by destruct (expired now x). }
      unfold in_mailbox. rewrite filter_app. destruct (decide (pu_Mailbox req = mb)) as [<-|Hne].
      * rewrite lookup_insert_eq. cbn [default]. rewrite Hp. unfold in_mailbox.
        by rewrite (filter_cons_True _ s) by done.
      * rewrite lookup_insert_ne, Hp by done. rewrite (filter_cons_False _ s) by congruence. by rewrite filter_nil, app_nil_r.
    + intros mb. rewrite app_nil_r, H. f_equal. symmetry. by apply list_filter_all, Forall_forall.
  - rewrite app_nil_r. assert (filter (fun s => negb (expired now s) = true) l = unexpired now l) as ->.
    { apply list_filter_iff. intros x. by destruct (expired now x). }
    by apply refines_prune.
  - rewrite app_nil_r. unfold Ack. destruct (AckRequest_Validate req) as [u|]; cbn [fst snd is_ok].
    + pose proof (refines_prune now r l H) as Hp. intros mb. unfold in_mailbox.
      assert (filter (fun s => m_Mailbox (s_msg s) = mb) (filter (fun s => negb (expired now s) && negb (bool_decide (m_Mailbox (s_msg s) = ak_Mailbox req) && bool_decide (m_ID (s_msg s) ∈ ak_IDs req)) = true) l)
        = filter (fun s => ~ (mb = ak_Mailbox req /\ m_ID (s_msg s) ∈ ak_IDs req)) (default [] (pruneLocked now r !! mb))) as ->.
      { rewrite Hp. unfold in_mailbox, unexpired. rewrite !list_filter_filter. apply list_filter_iff. intros x.
        rewrite andb_true_iff, negb_true_iff, negb_true_iff, andb_false_iff, !bool_decide_eq_false.
        destruct (decide (m_Mailbox (s_msg x) = mb)) as [<-|]; [|tauto].
        destruct (decide (m_ID (s_msg x) ∈ ak_IDs req)), (decide (m_Mailbox (s_msg x) = ak_Mailbox req)); tauto. }
      destruct (default [] (pruneLocked now r !! ak_Mailbox req)) as [|s q] eqn:E; cbn [fst snd].
      * destruct (decide (mb = ak_Mailbox req)) as [->|Hne]; [by rewrite E|].
        symmetry. apply list_filter_all, Forall_forall. tauto.
      * destruct (decide (mb = ak_Mailbox req)) as [->|Hne].
        -- rewrite lookup_insert_eq, E. cbn [default]. apply list_filter_iff. tauto.
        -- rewrite lookup_insert_ne by done. symmetry. apply list_filter_all, Forall_forall. tauto.
    + intros mb. rewrite H. f_equal. symmetry. by apply list_filter_all, Forall_forall.
Qed.

Lemma pending_app h1 h2 :
  pending (h1 ++ h2) = filter (fun s => forallb (fun o => survives o s) h2 = true) (pending h1) ++ pending h2.
Proof.
  induction h1 as [|o h1 IH]; [done|]. cbn [app pending]. rewrite IH. destruct (pushed o) as [s|]; [|done].
  rewrite forallb_app. destruct (forallb (fun o1 => survives o1 s) h1); cbn [andb]; [|done].
  rewrite filter_cons. by destruct (forallb _ h2).
Qed.

Lemma pending_snoc h o : pending (h ++ [o]) = filter (fun s => survives o s = true) (pending h) ++ option_list (pushed o).
Proof.
  rewrite pending_app. replace (pending [o]) with (option_list (pushed o)) by (simpl; by destruct (pushed o)). f_equal.
  apply list_filter_iff. intros s. cbn [forallb]. by rewrite andb_true_r.
Qed.

(** After any history every mailbox holds exactly its pending messages, in the order they
    came. *)
Lemma run_ops_refines h : refines (run_ops h NewMemoryRelay) (pending h).
Proof.
  induction h as [|o h IH] using rev_ind; [done|].
  unfold run_ops. rewrite fold_left_app, pending_snoc. cbn [fold_left]. by apply refines_op.
Qed.

Lemma elem_of_pending s h : s ∈ pending h <->
  exists h1 o h2, h = h1 ++ o :: h2 /\ pushed o = Some s /\ Forall (fun o' => survives o' s = true) h2.
Proof.
  induction h as [|o h IH]; cbn [pending].
  { split; [by intros ?%elem_of_nil|]. intros ([|] & ? & ? & [=] & _). }
  split.
  - assert (s ∈ pending h -> exists h1 o' h2, o :: h = h1 ++ o' :: h2 /\ pushed o' = Some s /\ Forall (fun o1 => survives o1 s = true) h2) as Hrec.
    { intros (h1 & o' & h2 & -> & Hp & Hs)%IH. by exists (o :: h1), o', h2. }
    destruct (pushed o) as [s'|] eqn:Ho; [|done]. destruct (forallb _ h) eqn:Hf; [|done].
    intros [->|?]%elem_of_cons; [|by apply Hrec]. apply forallb_true in Hf. by exists [], o, h.
  - intros ([|o1 h1] & o' & h2 & Heq & Hp & Hs); injection Heq as <- ->.
    + rewrite Hp. apply forallb_true in Hs. rewrite Hs. apply elem_of_cons. by left.
    + assert (s ∈ pending (h1 ++ o' :: h2)) as Hin by (apply IH; by exists h1, o', h2).
      destruct (pushed o) as [s'|]; [|done]. destruct (forallb _ _); [apply elem_of_cons; by right|done].
Qed.

(** What a history leaves for a mailbox at a time: pushed to it, not acknowledged or expired
    since, and its delay over. *)
Definition deliverable (h : list op) (mb : string) (now : Z) (s : stored) : Prop :=
  s ∈ pending h /\ m_Mailbox (s_msg s) = mb /\ expired now s = false /\ available now s = true.

Section Pulling.
Context `{SS : !SortSlice (le_by s_received)}.

(** What [pullAvailableLocked] sorts. *)
Lemma pull_try_out h mb now limit : exists q,
  fst (pull_try mb now limit (run_ops h NewMemoryRelay)) = s_msg <$> take (Z.to_nat limit) q
  /\ StronglySorted (fun x y => s_received x <= s_received y) q /\ forall s, s ∈ q <-> deliverable h mb now s.
Proof.
  unfold pull_try, pullAvailableLocked. cbn [fst]. rewrite lookup_prune, (run_ops_refines h mb).
  eexists. split; [done|]. split; [apply sort_slice_sorted|]. intros s. rewrite sort_slice_perm. unfold unexpired, in_mailbox.
  rewrite !list_elem_of_filter. unfold deliverable. tauto.
Qed.

Lemma StronglySorted_take {A} (R : A -> A -> Prop) n l x y :
  StronglySorted R l -> x ∈ take n l -> y ∈ drop n l -> R x y.
Proof.
  revert l. induction n as [|n IH]; intros l Hs Hx Hy; [by apply elem_of_nil in Hx|].
  destruct Hs as [|z l Hs Hz]; [by apply elem_of_nil in Hx|]. cbn [take drop] in *.
  apply elem_of_cons in Hx as [->|Hx]; [|by eapply IH]. rewrite Forall_forall in Hz. apply Hz. by eapply subseteq_drop.
Qed.

Lemma StronglySorted_firstn {A} (R : A -> A -> Prop) n l : StronglySorted R l -> StronglySorted R (take n l).
Proof.
  intros Hs. revert n. induction Hs as [|x l Hs IH Hx]; intros [|n]; cbn [take]; constructor; [apply IH|by apply Forall_take].
Qed.

Lemma StronglySorted_fmap {A B} (f : A -> B) (R : B -> B -> Prop) (l : list A) :
  StronglySorted (fun x y => R (f x) (f y)) l -> StronglySorted R (f <$> l).
Proof. induction 1 as [|x l Hs IH Hx]; rewrite ?fmap_nil, ?fmap_cons; constructor; [done|]. by apply Forall_fmap. Qed.

(** C33: One attempt of a pull, after any history of operations: it hands out, oldest first and
    at most the limit, messages pushed to this mailbox that no later operation acknowledged
    or found expired, that are not expired now and whose delay is over; and a message of
    that kind is handed out unless the limit is exhausted by messages not younger. *)
Theorem pull_hands_out_pending h mb now limit : 0 <= limit ->
  let out := fst (pull_try mb now limit (run_ops h NewMemoryRelay)) in
  Z.of_nat (length out) <= limit
  /\ StronglySorted (fun m m' => m_ReceivedAt m <= m_ReceivedAt m') out
  /\ (forall m, m ∈ out -> exists s, s_msg s = m /\ deliverable h mb now s)
  /\ (forall s, deliverable h mb now s ->
      s_msg s ∈ out \/ (Z.of_nat (length out) = limit /\ forall m, m ∈ out -> m_ReceivedAt m <= s_received s)).
Proof.
  intros Hlim out. destruct (pull_try_out h mb now limit) as (q & Hout & Hs & Hq). unfold out. rewrite Hout.
  rewrite length_fmap, length_take. split; [lia|]. split; [|split].
  - by apply (StronglySorted_fmap s_msg), StronglySorted_firstn.
  - intros m (s & -> & Hin)%list_elem_of_fmap. exists s. split; [done|]. apply Hq. by eapply subseteq_take.
  - intros s Hd%Hq. rewrite <- (take_drop (Z.to_nat limit) q) in Hd. apply elem_of_app in Hd as [Hd|Hd].
    + left. by apply list_elem_of_fmap_2.
    + right. split.
      * apply list_elem_of_lookup_1 in Hd as [i Hi]. apply lookup_lt_Some in Hi. rewrite length_drop in Hi. lia.
      * intros m (s' & -> & Hin)%list_elem_of_fmap. by apply (StronglySorted_take _ _ _ _ _ Hs Hin Hd).
Qed.
End Pulling.

(** A message acknowledged in its mailbox is not handed out again, whatever follows: what a
    later pull returns under an acknowledged identifier was pushed after the
    acknowledgement. *)
Theorem acknowledged_is_gone `{!SortSlice (le_by s_received)} h1 t req h2 now limit m : AckRequest_Validate req = Ok tt ->
  m ∈ fst (pull_try (ak_Mailbox req) now limit (run_ops (h1 ++ OpAck t req :: h2) NewMemoryRelay)) ->
  m_ID m ∈ ak_IDs req ->
  exists o s, o ∈ h2 /\ pushed o = Some s /\ s_msg s = m.
Proof.
  intros Hv. destruct (pull_try_out (h1 ++ OpAck t req :: h2) (ak_Mailbox req) now limit) as (q & -> & _ & Hq).
  intros (s & -> & Hin%subseteq_take)%list_elem_of_fmap Hid. apply Hq in Hin as (Hp & Hm & _).
  rewrite pending_app in Hp. apply elem_of_app in Hp as [Hp|Hp].
  - apply list_elem_of_filter in Hp as [Hp _]. cbn [forallb survives] in Hp. rewrite Hv, Hm in Hp. cbn [is_ok] in Hp.
    rewrite (bool_decide_eq_true_2 _ eq_refl), (bool_decide_eq_true_2 _ Hid) in Hp. cbn [andb negb] in Hp.
    by rewrite andb_false_r in Hp.
  - cbn [pending pushed] in Hp. apply elem_of_pending in Hp as (a & o & b & -> & Ho & _).
    exists o, s. split; [apply elem_of_app; right; by left|done].
Qed.

(** ** The long poll *)

(** The turns of a poll and what happens between them, as a history. *)
Definition turns (ts : list tick) : list op := concat ((fun t => OpPull (tk_now t) :: tk_others t) <$> ts).

(** A clock that does not run backwards, and sleeps that last. *)
Fixpoint clock_ok (earliest waitUntil : Z) (ts : list tick) : Prop :=
  match ts with
  | [] => True
  | t :: ts' => earliest <= tk_now t <= tk_mid t /\ clock_ok (tk_mid t + sleepFor waitUntil (tk_mid t)) waitUntil ts'
  end.

(** When the wait of a request that started at a time is over. *)
Definition wait_deadline (start : Z) (req : PullRequest) : Z :=
  if 0 <? pl_WaitSec req then TimeAdd start (pl_WaitSec req * Second) else zeroTime.

Section LongPoll.
Context `{SS : !SortSlice (le_by s_received)}.

(** What the turn after the given ones finds. *)
Definition found (req : PullRequest) (r : MemoryRelay) (before : list tick) (t : tick) : list Message :=
  fst (pull_try (pl_Mailbox req) (tk_now t) (pl_Limit req) (run_ops (turns before) r)).

(** How a poll ends at a turn. *)
Definition ends_at (req : PullRequest) (waitUntil : Z) (r : MemoryRelay) (before : list tick) (t : tick) (res : Prelude.res relay_err (list Message)) : Prop :=
  let out := found req r before t in
  (res = Ok out /\ (out <> [] \/ pl_WaitSec req = 0 \/ waitUntil < tk_now t))
  \/ (res = Ok [] /\ out = [] /\ waitUntil <= tk_mid t)
  \/ (res = Err ECanceled /\ out = [] /\ tk_done t = true).

Lemma pull_turn_spec req waitUntil t r : 0 <= pl_WaitSec req -> (pl_WaitSec req = 0 \/ waitUntil <> zeroTime) ->
  match fst (pull_turn req waitUntil t r) with
  | Some res => ends_at req waitUntil r [] t res
  | None => found req r [] t = [] /\ snd (pull_turn req waitUntil t r) = run_ops (turns [t]) r /\ tk_mid t < waitUntil
  end.
Proof.
  intros Hw Hz. unfold pull_turn, ends_at. change (found req r [] t) with (fst (pull_try (pl_Mailbox req) (tk_now t) (pl_Limit req) r)).
  destruct (pull_try _ _ _ _) as [out r'] eqn:E. cbn [fst snd].
  assert (r' = pruneLocked (tk_now t) r) as Hr by (unfold pull_try in E; congruence).
  destruct (Z.ltb_spec 0 (Z.of_nat (length out))) as [Hl|Hl]; cbn [orb fst].
  { left. split; [done|]. left. by intros ->. }
  assert (out = []) as -> by (destruct out; simpl in Hl; [done|lia]).
  destruct (Z.leb_spec (pl_WaitSec req) 0); cbn [orb fst]; [left; split; [done|]; right; left; lia|].
  destruct Hz as [|Hz]; [lia|]. unfold IsZero. destruct (Z.eqb_spec waitUntil zeroTime); [done|]. cbn [negb andb]. unfold After.
  destruct (Z.ltb_spec waitUntil (tk_now t)); cbn [fst]; [left; split; [done|]; auto|].
  unfold TimeSub. destruct (Z.leb_spec (Z.max min_i64 (Z.min max_i64 (waitUntil - tk_mid t))) 0); cbn [fst].
  { right. left. repeat split. unfold_ints. lia. }
  destruct (tk_done t) eqn:Hd; cbn [fst snd]; [by right; right|]. split; [done|]. split; [|unfold_ints; lia].
  subst r'. unfold turns, run_ops. simpl. by rewrite app_nil_r.
Qed.

Lemma run_turns_cons t ts r : run_ops (turns (t :: ts)) r = run_ops (turns ts) (run_ops (turns [t]) r).
Proof. unfold run_ops, turns. rewrite !fmap_cons. cbn [concat fmap list_fmap]. by rewrite app_nil_r, fold_left_app. Qed.

Lemma pull_loop_ends req waitUntil ts earliest n r :
  0 <= pl_WaitSec req -> (pl_WaitSec req = 0 \/ waitUntil <> zeroTime) ->
  clock_ok earliest waitUntil ts -> waitUntil <= earliest + 50 * Millisecond * Z.of_nat n -> (n < length ts)%nat ->
  exists k t res, ts !! k = Some t /\ fst (pull_loop req waitUntil ts r) = Some res
    /\ (forall j t', (j < k)%nat -> ts !! j = Some t' -> found req r (take j ts) t' = [])
    /\ ends_at req waitUntil r (take k ts) t res.
Proof.
  intros Hw Hz. revert earliest n r. induction ts as [|t ts IH]; intros earliest n r Hc Hn Hl; [simpl in Hl; lia|].
  cbn [clock_ok pull_loop] in *. destruct Hc as [Ht Hc]. pose proof (pull_turn_spec req waitUntil t r Hw Hz) as Hturn.
  destruct (pull_turn req waitUntil t r) as [[res|] r'] eqn:E; cbn [fst snd] in Hturn.
  { exists 0%nat, t, res. split; [done|]. split; [done|]. split; [lia|done]. }
  destruct Hturn as (Hf & -> & Hm). unfold sleepFor, TimeSub in Hc.
  destruct n as [|n]; [lia|]. destruct (IH _ n (run_ops (turns [t]) r) Hc) as (k & t' & res & Hk & Hres & Hbefore & Hend).
  { unfold_ints. unfold Millisecond in *. lia. }
  { simpl in Hl. lia. }
  exists (S k), t', res. split; [done|]. split; [done|]. cbn [take]. unfold found, ends_at in *. split.
  - intros [|j] t'' Hj Ht''; [injection Ht'' as ->; exact Hf|]. cbn [take]. rewrite run_turns_cons. apply (Hbefore j); [lia|done].
  - unfold found. by rewrite run_turns_cons.
Qed.

(** A long poll ends: with a clock that does not run backwards and sleeps that last as long
    as asked, at most 20 turns per second of waiting and one more are needed.  It ends with
    the first turn that finds messages, or with none once the wait is over, or because its
    context was cancelled; every turn before found nothing. *)
Theorem long_poll_ends start req ts r :
  PullRequest_Validate req = Ok tt -> 0 <= start ->
  let req' := PullRequest_Normalize req in
  let waitUntil := wait_deadline start req' in
  clock_ok start waitUntil ts -> 20 * pl_WaitSec req < Z.of_nat (length ts) ->
  exists k t res, ts !! k = Some t /\ fst (Pull start req ts r) = Some res
    /\ (forall j t', (j < k)%nat -> ts !! j = Some t' -> found req' r (take j ts) t' = [])
    /\ ends_at req' waitUntil r (take k ts) t res.
Proof.
  intros Hv Hs req' waitUntil Hc Hl. unfold Pull. rewrite Hv. fold req'. fold (wait_deadline start req'). fold waitUntil.
  assert (0 <= pl_WaitSec req <= 30) as Hw.
  { unfold PullRequest_Validate in Hv. destruct (validateMailboxID _); [|done]. cbn [rbind] in Hv.
    destruct (Z.ltb_spec (pl_WaitSec req) 0), (Z.ltb_spec 30 (pl_WaitSec req)); try done; lia. }
  assert (pl_WaitSec req' = pl_WaitSec req) as Hw'.
  { unfold req', PullRequest_Normalize. cbn [pl_WaitSec]. destruct (Z.ltb_spec 30 (pl_WaitSec req)); lia. }
  apply (pull_loop_ends _ _ _ start (Z.to_nat (20 * pl_WaitSec req))); [lia| |done| |lia];
    unfold waitUntil, wait_deadline; rewrite Hw'; destruct (Z.ltb_spec 0 (pl_WaitSec req));
    unfold TimeAdd, zeroTime, Second, Millisecond; [right; lia|left; lia|lia..].
Qed.
End LongPoll.
