(* ===== verification/RelayServer.v ===== *)
(** * The relay's HTTP server ([pkg/relay/http_server.go])

    Authorization, rate limits on float64 buckets, the proof of work a push must carry, and
    the handlers over the [Relay] interface.  How a body reads as a request is an argument
    ([net/http] and [encoding/json]), as is the host of the remote address. *)

From S2P Require Import Prelude Float64 Sha256 GoStr RelayTypes RelayMailbox.

(** The interface [Relay] (relay.go) on a state [M]; [E] is what a call reads from its
    surroundings: clock, random source, cancellation. *)
Class Relay (M E : Type) := {
  relay_push : E -> PushRequest -> M -> res relay_err string * M;
  relay_pull : E -> PullRequest -> M -> res relay_err (list Message) * M;
  relay_ack : E -> AckRequest -> M -> res relay_err unit * M;
}.

Record ServerOptions := mkServerOptions {
  so_AllowNonLocal : bool;
  so_MinPoWBits : Z;
  so_IPRateLimitPerMin : Z;
  so_MailboxRateLimitPerMin : Z;
  so_AuthToken : string;
}.

(** A missing limit is the default, a large one is cut. *)
Definition rate_limit (x d max : Z) : Z :=
  let x := if x <? 0 then 0 else x in
  let x := if x =? 0 then d else x in
  if max <? x then max else x.

Definition ServerOptions_normalize (o : ServerOptions) : ServerOptions :=
  let bits := if so_MinPoWBits o <? 0 then 0 else so_MinPoWBits o in
  let bits := if 28 <? bits then 28 else bits in
  mkServerOptions (so_AllowNonLocal o) bits (rate_limit (so_IPRateLimitPerMin o) 1200 12000)
    (rate_limit (so_MailboxRateLimitPerMin o) 240 6000) (TrimSpace (so_AuthToken o)).

(** The checks of [NewServer]; [split] is the host [net.SplitHostPort] finds. *)
Definition NewServer (addr : string) (split : option string) (o : ServerOptions) : res relay_err ServerOptions :=
  if is_blank addr then Err EAddrMissing
  else match split with
       | None => Err EAddrInvalid
       | Some host =>
           let host := TrimSpace host in
           if negb (so_AllowNonLocal o) && negb (bool_decide (host = "127.0.0.1"%string) || bool_decide (host = "localhost"%string))
           then Err ENotLocal else Ok (ServerOptions_normalize o)
       end.

(** ** The limiter *)

Record limiterBucket := mkLimiterBucket {
  lb_tokens : float;
  lb_last : Z;
}.

Abbreviation tokenLimiter := (gmap string limiterBucket).

Definition limiter_refill (ratePerSec burst : float) (now : Z) (b : limiterBucket) : limiterBucket :=
  let elapsed := Seconds (TimeSub now (lb_last b)) in
  if fgt elapsed 0 then
    let tokens := (lb_tokens b + elapsed * ratePerSec)%float in
    mkLimiterBucket (if fgt tokens burst then burst else tokens) now
  else b.

Definition Allow (key : string) (ratePerSec burst : float) (now : Z) (l : tokenLimiter) : bool * tokenLimiter :=
  if (ratePerSec <=? 0)%float then (true, l)
  else
    let burst := if (burst <? 1)%float then 1%float else burst in
    let b := limiter_refill ratePerSec burst now (default (mkLimiterBucket burst now) (l !! key)) in
    if (lb_tokens b <? 1)%float then (false, <[key := b]> l)
    else (true, <[key := mkLimiterBucket (lb_tokens b - 1)%float (lb_last b)]> l).

(** ** The handlers *)

(** [requireAuth] *)
Definition requireAuth (o : ServerOptions) (authorization : string) : bool :=
  if is_empty (so_AuthToken o) then true
  else
    let authz := TrimSpace authorization in
    if HasPrefix authz "Bearer "
    then bool_decide (TrimSpace (TrimPrefix authz "Bearer ") = so_AuthToken o)
    else false.

(** [allowRequest]: the address is charged before the mailbox. *)
Definition allowRequest (o : ServerOptions) (ip mailbox : string) (now : Z) (l : tokenLimiter) : res relay_err unit * tokenLimiter :=
  if is_empty ip then (Err EMissingIP, l)
  else
    let '(ok, l) :=
      if 0 <? so_IPRateLimitPerMin o
      then Allow ("ip:" ++ ip)%string (of_Z (so_IPRateLimitPerMin o) / 60) (of_Z (so_IPRateLimitPerMin o) / 10 + 5) now l
      else (true, l) in
    if negb ok then (Err ERateLimited, l)
    else
      let '(ok, l) :=
        if (0 <? so_MailboxRateLimitPerMin o) && negb (is_empty mailbox)
        then Allow ("mb:" ++ mailbox)%string (of_Z (so_MailboxRateLimitPerMin o) / 60) (of_Z (so_MailboxRateLimitPerMin o) / 10 + 2) now l
        else (true, l) in
      if negb ok then (Err EMailboxRateLimited, l) else (Ok tt, l).

(** A request as the handlers see it: [h_now] is the limiter's reading of the clock, a body
    that does not read is [None]. *)
Inductive body :=
  | BPush (req : option PushRequest)
  | BPull (req : option PullRequest)
  | BAck (req : option AckRequest).

Record http_request := mkHTTP {
  h_method : string;
  h_authorization : string;
  h_ip : string;
  h_now : Z;
  h_body : body;
}.

Inductive response :=
  | RespError (status : Z) (e : relay_err)
  | RespID (id : string)
  | RespMessages (msgs : list Message)
  | RespOK.

Record Server (M : Type) := mkServer {
  sv_relay : M;
  sv_limiter : tokenLimiter;
}.
Arguments mkServer {M}.
Arguments sv_relay {M}.
Arguments sv_limiter {M}.

Section Handlers.
Context {M E : Type} `{R : !Relay M E}.

(** The bits a push must show. *)
Definition required_bits (o : ServerOptions) (req : PushRequest) : Z :=
  if pu_PoWBits req <? so_MinPoWBits o then so_MinPoWBits o else pu_PoWBits req.

Definition handle_push (o : ServerOptions) (e : E) (r : http_request) (req : PushRequest) (s : Server M) : response * Server M :=
  match allowRequest o (h_ip r) (pu_Mailbox req) (h_now r) (sv_limiter s) with
  | (Err err, l) => (RespError 429 err, mkServer (sv_relay s) l)
  | (Ok _, l) =>
      match VerifyPoW (pu_Mailbox req) (pu_Envelope req) (pu_PoWNonceB64URL req) (required_bits o req) with
      | Err err => (RespError 401 err, mkServer (sv_relay s) l)
      | Ok _ =>
          match relay_push e req (sv_relay s) with
          | (Err err, m) => (RespError 400 err, mkServer m l)
          | (Ok id, m) => (RespID id, mkServer m l)
          end
      end
  end.

Definition handle_pull (o : ServerOptions) (e : E) (r : http_request) (req : PullRequest) (s : Server M) : response * Server M :=
  match allowRequest o (h_ip r) (pl_Mailbox req) (h_now r) (sv_limiter s) with
  | (Err err, l) => (RespError 429 err, mkServer (sv_relay s) l)
  | (Ok _, l) =>
      match relay_pull e req (sv_relay s) with
      | (Err err, m) => (RespError 400 err, mkServer m l)
      | (Ok msgs, m) => (RespMessages msgs, mkServer m l)
      end
  end.

Definition handle_ack (o : ServerOptions) (e : E) (r : http_request) (req : AckRequest) (s : Server M) : response * Server M :=
  match allowRequest o (h_ip r) (ak_Mailbox req) (h_now r) (sv_limiter s) with
  | (Err err, l) => (RespError 429 err, mkServer (sv_relay s) l)
  | (Ok _, l) =>
      match relay_ack e req (sv_relay s) with
      | (Err err, m) => (RespError 400 err, mkServer m l)
      | (Ok _, m) => (RespOK, mkServer m l)
      end
  end.

(** One request, to whichever path. *)
Definition serve (o : ServerOptions) (e : E) (r : http_request) (s : Server M) : response * Server M :=
  if negb (bool_decide (h_method r = "POST"%string)) then (RespError 405 EMethod, s)
  else if negb (requireAuth o (h_authorization r)) then (RespError 401 EUnauthorized, s)
  else match h_body r with
       | BPush (Some req) => handle_push o e r req s
       | BPull (Some req) => handle_pull o e r req s
       | BAck (Some req) => handle_ack o e r req s
       | _ => (RespError 400 EBadJSON, s)
       end.

Definition serve_all (o : ServerOptions) (rs : list (E * http_request)) (s : Server M) : Server M :=
  fold_left (fun s r => snd (serve o r.1 r.2 s)) rs s.
End Handlers.

(** ** The relay in memory as a [Relay] *)

(** What a call to the memory relay reads: its clock, its random bytes, and the turns of a
    poll. *)
Record mem_env := mkMemEnv {
  me_now : Z;
  me_rand : option (list Z);
  me_ticks : list tick;
}.

(** A poll that has not ended is cut off with the server. *)
#[export] Instance memory_relay `{!SortSlice (le_by s_received)} : Relay (gmap string (list stored)) mem_env := {|
  relay_push e req r := Push (me_now e) (me_rand e) req r;
  relay_pull e req r := let '(out, r) := Pull (me_now e) req (me_ticks e) r in (default (Err ECanceled) out, r);
  relay_ack e req r := Ack (me_now e) req r;
|}.

(** ** What reaches the relay *)

(** A stored message that came in by one of the requests, with the server's token and the
    work. *)
Definition admitted (o : ServerOptions) (rs : list (mem_env * http_request)) (s : stored) : Prop :=
  exists (e : mem_env) (r : http_request) (req : PushRequest),
    (e, r) ∈ rs /\ h_method r = "POST"%string /\ requireAuth o (h_authorization r) = true /\ h_ip r <> EmptyString
    /\ h_body r = BPush (Some req)
    /\ VerifyPoW (pu_Mailbox req) (pu_Envelope req) (pu_PoWNonceB64URL req) (required_bits o req) = Ok tt
    /\ new_stored (me_now e) (me_rand e) req = Ok s.

(** What other requests do while one is being served. *)
Definition op_admitted o rs (p : op) : Prop := forall s, pushed p = Some s -> admitted o rs s.
Definition others_admitted o rs (e : mem_env) : Prop :=
  Forall (fun t => Forall (op_admitted o rs) (tk_others t)) (me_ticks e).

Definition all_stored (P : stored -> Prop) (m : gmap string (list stored)) : Prop :=
  forall mb, Forall P (default [] (m !! mb)).

Lemma all_stored_op P m p : all_stored P m -> (forall s, pushed p = Some s -> P s) -> all_stored P (apply_op m p).
Proof.
  intros Hm Hp. assert (forall now, all_stored P (pruneLocked now m)) as Hprune.
  { intros now mb. rewrite lookup_prune. apply Forall_forall. intros s [_ Hs]%list_elem_of_filter.
    specialize (Hm mb). rewrite Forall_forall in Hm. by apply Hm. }
  destruct p as [now rand req|now|now req]; cbn [apply_op pushed] in *; [| |].
  - unfold Push. destruct (new_stored now rand req) as [s|]; cbn [snd]; [|done]. intros mb.
    destruct (decide (pu_Mailbox req = mb)) as [<-|]; [|rewrite lookup_insert_ne by done; apply Hprune].
    rewrite lookup_insert_eq. cbn [default]. apply Forall_app. split; [apply Hprune|]. by apply Forall_singleton, Hp.
  - apply Hprune.
  - unfold Ack. destruct (AckRequest_Validate req); cbn [snd]; [|done].
    pose proof (Hprune now (ak_Mailbox req)) as Hq. destruct (default [] _) as [|s q]; cbn [snd]; [apply Hprune|]. intros mb.
    destruct (decide (ak_Mailbox req = mb)) as [<-|]; [|rewrite lookup_insert_ne by done; apply Hprune].
    rewrite lookup_insert_eq. cbn [default]. apply Forall_forall. intros x [_ Hx]%list_elem_of_filter.
    rewrite Forall_forall in Hq. by apply Hq.
Qed.

Lemma all_stored_run P h m : all_stored P m -> Forall (fun p => forall s, pushed p = Some s -> P s) h -> all_stored P (run_ops h m).
Proof.
  intros Hm Hh. revert m Hm. induction Hh as [|p h Hp Hh IH]; intros m Hm; [done|]. apply IH. by apply all_stored_op.
Qed.

Section Admission.
Context `{SS : !SortSlice (le_by s_received)}.

Lemma all_stored_pull P start req ts m : all_stored P m ->
  Forall (fun t => Forall (fun p => forall s, pushed p = Some s -> P s) (tk_others t)) ts -> all_stored P (snd (Pull start req ts m)).
Proof.
  intros Hm Hts. unfold Pull. destruct (PullRequest_Validate req); [|done]. generalize (PullRequest_Normalize req). intros req'.
  generalize (if 0 <? pl_WaitSec req' then TimeAdd start (pl_WaitSec req' * Second) else zeroTime). intros waitUntil.
  revert m Hm. induction Hts as [|t ts Ht Hts IH]; intros m Hm; [done|]. cbn [pull_loop].
  unfold pull_turn, pull_try. pose proof (all_stored_op P m (OpPull (tk_now t)) Hm ltac:(done)) as Hp. cbn [apply_op] in Hp.
  repeat case_match; simplify_eq; cbn [snd]; try done. apply IH. by apply all_stored_run.
Qed.

Lemma allowRequest_ip o ip mb now l l' : allowRequest o ip mb now l = (Ok tt, l') -> ip <> EmptyString.
Proof. intros H ->. done. Qed.

Lemma serve_admitted o rs e r (s : Server (gmap string (list stored))) : (e, r) ∈ rs ->
  all_stored (admitted o rs) (sv_relay s) -> others_admitted o rs e -> all_stored (admitted o rs) (sv_relay (snd (serve o e r s))).
Proof.
  intros Hin Hs He. unfold serve. destruct (bool_decide (h_method r = "POST"%string)) eqn:Hm; cbn [negb]; [|done].
  apply bool_decide_eq_true in Hm. destruct (requireAuth o (h_authorization r)) eqn:Ha; cbn [negb]; [|done].
  destruct (h_body r) as [[req|]|[req|]|[req|]] eqn:Hb; try done.
  - unfold handle_push. destruct (allowRequest _ _ _ _ _) as [[[]|] l] eqn:El; [|done]. apply allowRequest_ip in El.
    destruct (VerifyPoW _ _ _ _) as [[]|] eqn:Ew; [|done]. cbn [relay_push memory_relay].
    pose proof (all_stored_op (admitted o rs) (sv_relay s) (OpPush (me_now e) (me_rand e) req) Hs) as Hp. cbn [apply_op pushed] in Hp.
    destruct (Push _ _ _ _) as [[id|] m] eqn:Epush; cbn [snd sv_relay] in *; apply Hp; intros s' Hs';
      destruct (new_stored _ _ _) as [s''|] eqn:En; try done; injection Hs' as ->; by exists e, r, req.
  - unfold handle_pull. destruct (allowRequest _ _ _ _ _) as [[[]|] l]; [|done]. cbn [relay_pull memory_relay].
    pose proof (all_stored_pull (admitted o rs) (me_now e) req (me_ticks e) (sv_relay s) Hs He) as Hp.
    destruct (Pull _ _ _ _) as [[[out|]|] m]; done.
  - unfold handle_ack. destruct (allowRequest _ _ _ _ _) as [[[]|] l]; [|done]. cbn [relay_ack memory_relay].
    pose proof (all_stored_op (admitted o rs) (sv_relay s) (OpAck (me_now e) req) Hs ltac:(done)) as Hp. cbn [apply_op] in Hp.
    destruct (Ack _ _ _) as [[u|] m]; done.
Qed.

Lemma serve_all_admitted o all rs (s : Server (gmap string (list stored))) :
  Forall (fun r => r ∈ all /\ others_admitted o all r.1) rs -> all_stored (admitted o all) (sv_relay s) ->
  all_stored (admitted o all) (sv_relay (serve_all o rs s)).
Proof.
  intros Hrs. revert s. induction Hrs as [|[e r] rs [Hin Hr] Hrs IH]; intros s Hs; [done|]. apply IH. by apply serve_admitted.
Qed.

(** C37: Whatever requests a server over the memory relay is sent, every message it stores came
    in by one of them: a POST with the server's token, when one is set, that pushes this
    envelope to this mailbox and, when the server or the request asks for bits of work,
    carries a nonce of 8 to 32 bytes for which the digest of mailbox, envelope and nonce is
    below 2^(256 - bits).  (A long poll sees what the other requests do meanwhile.) *)
Theorem stored_messages_admitted o rs mb s :
  Forall (fun r => others_admitted o rs r.1) rs ->
  s ∈ default [] (sv_relay (serve_all o rs (mkServer NewMemoryRelay ∅)) !! mb) ->
  exists e r req, (e, r) ∈ rs /\ h_method r = "POST"%string /\ requireAuth o (h_authorization r) = true
    /\ h_body r = BPush (Some req) /\ pu_Mailbox req = m_Mailbox (s_msg s) /\ pu_Envelope req = m_Envelope (s_msg s)
    /\ let bits := Z.max (so_MinPoWBits o) (pu_PoWBits req) in
       (0 < bits -> exists nonce, DecodeString (pu_PoWNonceB64URL req) = Some nonce /\ 8 <= blen nonce <= 32
                                 /\ pow_work (m_Mailbox (s_msg s)) (m_Envelope (s_msg s)) nonce bits).
Proof.
  intros Hrs. assert (all_stored (admitted o rs) (sv_relay (serve_all o rs (mkServer NewMemoryRelay ∅)))) as Hall.
  { apply serve_all_admitted; [|intros mb'; constructor]. rewrite Forall_forall in *. auto. }
  specialize (Hall mb). rewrite Forall_forall in Hall. intros Hin.
  destruct (Hall s Hin) as (e & r & req & Hr & Hm & Ha & _ & Hb & Hw & Hn).
  apply new_stored_ok in Hn as (_ & -> & -> & _). exists e, r, req. repeat (split; [done|]). intros bits H0.
  assert (required_bits o req = bits) as Hreq.
  { unfold required_bits, bits. destruct (Z.ltb_spec (pu_PoWBits req) (so_MinPoWBits o)); lia. }
  rewrite Hreq in Hw. apply VerifyPoW_ok in Hw as (_ & _ & _ & nonce & (_ & Hd & Hl)%pow_nonce_ok & Hw); [|done]. by exists nonce.
Qed.
End Admission.

(** ** From the client's search to the mailbox *)

Lemma client_push_request_ok req salt req' : client_push_request req salt = Ok req' ->
  PushRequest_Validate req' = Ok tt /\ pu_Mailbox req' = pu_Mailbox req /\ pu_Envelope req' = pu_Envelope req
  /\ pu_TTLSec req' = pu_TTLSec req /\ pu_DelaySec req' = pu_DelaySec req /\ pu_PoWBits req' = pu_PoWBits req
  /\ (0 < pu_PoWBits req -> is_blank (pu_PoWNonceB64URL req) = true ->
      findPoWNonce (pu_Mailbox req) (pu_Envelope req) (pu_PoWBits req) 250000 salt = Ok (pu_PoWNonceB64URL req')).
Proof.
  unfold client_push_request. destruct (Z.ltb_spec 0 (pu_PoWBits req)), (is_blank _); cbn [andb rbind].
  1: destruct (findPoWNonce _ _ _ _ _) as [nonce|]; cbn [rbind]; [|done].
  all: destruct (PushRequest_Validate _) as [[]|] eqn:Hv; cbn [rbind]; [|done]; intros [= <-]; by repeat split; try lia.
Qed.

Lemma PushRequest_Validate_ok r : PushRequest_Validate r = Ok tt ->
  validateMailboxID (pu_Mailbox r) = Ok tt /\ validateEnvelope (pu_Envelope r) = Ok tt /\ 0 <= pu_TTLSec r
  /\ 0 <= pu_DelaySec r <= 3600 /\ 0 <= pu_PoWBits r <= 28.
Proof.
  unfold PushRequest_Validate. destruct (validateMailboxID _) as [[]|]; cbn [rbind]; [|done].
  destruct (validateEnvelope _) as [[]|]; cbn [rbind]; [|done].
  destruct (Z.ltb_spec (pu_TTLSec r) 0), (Z.ltb_spec (pu_DelaySec r) 0), (Z.ltb_spec 3600 (pu_DelaySec r)),
    (Z.ltb_spec (pu_PoWBits r) 0), (Z.ltb_spec 28 (pu_PoWBits r)); cbn [negb]; done.
Qed.

Lemma new_stored_valid now id req : PushRequest_Validate req = Ok tt -> pu_TTLSec req <= 7 * 24 * 3600 ->
  bytes_ok id -> blen id = 16 -> Second <= now ->
  exists s, new_stored now (Some id) req = Ok s.
Proof.
  intros Hv Httl Hid Hl Hnow. unfold new_stored. rewrite Hv. cbn [rbind].
  apply PushRequest_Validate_ok in Hv as (Hm & He & Ht & _ & _). unfold TTLDeadline, newMessageID, Message_Validate.
  cbn [rbind m_ID m_Mailbox m_Envelope m_ReceivedAt]. rewrite EncodeToString_valid_id, Hm, He by done.
  destruct (Z.ltb_spec (pu_TTLSec req) 0); [lia|]. cbn [negb].
  assert (1 <= Unix now) as Hu by (unfold Unix; apply Z.div_le_lower_bound; unfold Second in *; lia).
  destruct (Z.leb_spec (Unix now) 0); [lia|]. cbn [negb].
  destruct (pu_TTLSec req =? 0); cbn [rbind]; [by eexists|].
  destruct (Z.ltb_spec (7 * 24 * 3600) (pu_TTLSec req)); [lia|]. cbn [negb rbind]. by eexists.
Qed.

(** What the client makes of a request without a nonce, a server that asks for no more work
    than the request admits takes and stores: for an authorized POST within the rate
    limits, the answer is an identifier, and the message is in its mailbox behind what was
    there and has not expired. *)
Theorem found_work_is_accepted `{!SortSlice (le_by s_received)} o e r req req' salt (s : Server (gmap string (list stored))) l id :
  client_push_request req (Some salt) = Ok req' -> bytes_ok salt -> blen salt = 8 ->
  is_blank (pu_PoWNonceB64URL req) = true -> so_MinPoWBits o <= pu_PoWBits req -> pu_TTLSec req <= 7 * 24 * 3600 ->
  h_method r = "POST"%string -> requireAuth o (h_authorization r) = true -> h_body r = BPush (Some req') ->
  allowRequest o (h_ip r) (pu_Mailbox req) (h_now r) (sv_limiter s) = (Ok tt, l) ->
  me_rand e = Some id -> bytes_ok id -> blen id = 16 -> Second <= me_now e ->
  exists st, fst (serve o e r s) = RespID (EncodeToString id)
    /\ m_ID (s_msg st) = EncodeToString id /\ m_Envelope (s_msg st) = pu_Envelope req
    /\ default [] (sv_relay (snd (serve o e r s)) !! pu_Mailbox req)
       = unexpired (me_now e) (default [] (sv_relay s !! pu_Mailbox req)) ++ [st].
Proof.
  intros (Hv & Hmb & Henv & Httl & _ & Hbits & Hfind)%client_push_request_ok Hs Hsl Hblank Hmin Ht Hm Ha Hb Hal He Hid Hidl Hnow.
  pose proof (PushRequest_Validate_ok _ Hv) as (Hvm & Hve & _ & _ & Hvb). rewrite Hmb in Hvm. rewrite Henv in Hve.
  destruct (new_stored_valid (me_now e) id req' Hv) as [st Hst]; [lia|done..|]. exists st.
  unfold serve. rewrite Hm, bool_decide_eq_true_2, Ha, Hb by done. cbn [negb]. unfold handle_push. rewrite Hmb, Hal.
  assert (VerifyPoW (pu_Mailbox req) (pu_Envelope req') (pu_PoWNonceB64URL req') (required_bits o req') = Ok tt) as ->.
  { unfold required_bits. rewrite Hbits. destruct (Z.ltb_spec (pu_PoWBits req) (so_MinPoWBits o)); [lia|]. rewrite Henv.
    destruct (Z.lt_ge_cases 0 (pu_PoWBits req)) as [H0|H0].
    - eapply found_nonce_verifies; [done..|lia|exact Hs|exact Hsl|]. by apply Hfind.
    - unfold VerifyPoW. by destruct (Z.leb_spec (pu_PoWBits req) 0); [|lia]. }
  cbn [relay_push memory_relay]. unfold Push. rewrite He, Hst. cbn [fst snd sv_relay].
  apply new_stored_ok in Hst as (_ & _ & Henv' & _ & _ & Hid' & _). injection Hid' as Hid'. rewrite <- Hid'.
  repeat split; [congruence|]. rewrite Hmb, lookup_insert_eq. cbn [default]. by rewrite lookup_prune.
Qed.

(** ** The limiter *)

Definition limiter_ok (l : tokenLimiter) : Prop := map_Forall (fun _ b => fge0 (lb_tokens b)) l.

Lemma limiter_refill_ok rate burst now b : fpos rate -> fpos burst -> fge0 (lb_tokens b) -> fge0 (lb_tokens (limiter_refill rate burst now b)).
Proof.
  intros Hr Hb Ht. unfold limiter_refill. destruct (fgt _ 0) eqn:E; [|done]. cbn [lb_tokens]. case_match; [by apply fnn_fge0, fpos_fnn|].
  apply fadd_ge0; [done|]. by apply fmul_ge0; apply fnn_fge0, fpos_fnn.
Qed.

(** No bucket is overdrawn, and only the bucket of the key is touched. *)
Lemma Allow_limiter_ok key rate burst now l : fpos burst -> sf_nan (Prim2SF rate) = false -> limiter_ok l ->
  limiter_ok (snd (Allow key rate burst now l))
  /\ forall other, other <> key -> snd (Allow key rate burst now l) !! other = l !! other.
Proof.
  intros Hb Hn Hl. unfold Allow. destruct (rate <=? 0)%float eqn:Hr; [done|].
  assert (fpos rate) as Hrate.
  { unfold fpos. destruct (0 <? rate)%float eqn:E; [done|]. by rewrite (ltb_false_leb 0 rate) in Hr. }
  set (burst' := if (burst <? 1)%float then 1%float else burst).
  assert (fpos burst') as Hb' by (unfold burst'; by destruct (burst <? 1)%float).
  set (b := limiter_refill _ _ _ _). assert (fge0 (lb_tokens b)) as Hbt.
  { apply limiter_refill_ok; [done..|]. destruct (l !! key) as [b0|] eqn:E; [by apply (Hl key b0 E)|]. by apply fnn_fge0, fpos_fnn. }
  destruct (lb_tokens b <? 1)%float eqn:E; cbn [snd]; (split; [|intros other Hne; by rewrite lookup_insert_ne]);
    apply map_Forall_insert_2; try done. cbn [lb_tokens]. destruct (sf_nan (Prim2SF (lb_tokens b))) eqn:En.
  - apply fge0_spec. rewrite FloatAxioms.sub_spec. by destruct (Prim2SF (lb_tokens b)).
  - apply fsub_not_neg; [done|]. by apply ltb_false_leb.
Qed.
