(* ===== verification/RelayPoller.v ===== *)
(** * The relay's poller ([pkg/relay/relay.go])

    The options of a poller and one turn of its loop: the pull, the handler, the batching of
    acknowledgements, cover traffic and the pause.  What the relay, the handler, the clock
    and the random source answer in a turn is an argument; what the poller does is the list
    of its calls. *)

From S2P Require Import Prelude GoStr RelayTypes.

Local Open Scope res_scope.

(** The handler is a function value: here whether there is one. *)
Record PollOptions := mkPollOptions {
  po_Mailbox : string;
  po_Limit : Z;
  po_WaitSec : Z;
  po_CycleSec : Z;
  po_JitterMs : Z;
  po_BackoffBaseMs : Z;
  po_BackoffMaxMs : Z;
  po_Ack : bool;
  po_AckDelayMsMax : Z;
  po_AckBatchSec : Z;
  po_AckBatchMax : Z;
  po_CoverAckSec : Z;
  po_CoverAckCount : Z;
  po_CoverAckJitterMs : Z;
  po_DecoyMailboxes : list string;
  po_DecoyPullSec : Z;
  po_DecoyWaitSec : Z;
  po_DecoyLimit : Z;
  po_DecoyPullJitterMs : Z;
  po_Handle : bool;
}.

(** The decoys kept: not empty, not the mailbox itself, each once. *)
Fixpoint keep_decoys (mailbox : string) (seen : gset string) (l : list string) : list string :=
  match l with
  | [] => []
  | mb :: l' =>
      if is_empty mb || bool_decide (mb = mailbox) then keep_decoys mailbox seen l'
      else if bool_decide (mb ∈ seen) then keep_decoys mailbox seen l'
      else mb :: keep_decoys mailbox ({[mb]} ∪ seen) l'
  end.

Definition PollOptions_normalize (o : PollOptions) : res relay_err PollOptions :=
  require! negb (is_empty (po_Mailbox o)) else EMailboxRequired;
  let limit := at_most 200 (if_le0 50 (po_Limit o)) in
  let wait := at_most 30 (if_le0 15 (po_WaitSec o)) in
  let cycle := at_most 60 (if_le0 wait (po_CycleSec o)) in
  let jitter := at_most 5000 (not_neg (po_JitterMs o)) in
  let base := if_le0 250 (po_BackoffBaseMs o) in
  let bmax := if_le0 5000 (po_BackoffMaxMs o) in
  let bmax := at_most 60000 (if bmax <? base then base else bmax) in
  let ackDelay := at_most 5000 (if_zero (po_Ack o) 250 (not_neg (po_AckDelayMsMax o))) in
  let ackSec := at_most 300 (if_zero (po_Ack o) 5 (not_neg (po_AckBatchSec o))) in
  let ackMax := at_most 2000 (if_zero (po_Ack o) 50 (not_neg (po_AckBatchMax o))) in
  let coverSec := at_most 300 (not_neg (po_CoverAckSec o)) in
  let coverCount := at_most 25 (if_zero (0 <? coverSec) 2 (not_neg (po_CoverAckCount o))) in
  let coverJitter := at_most 5000 (if_zero (0 <? coverSec) 500 (not_neg (po_CoverAckJitterMs o))) in
  let decoys := match po_DecoyMailboxes o with [] => false | _ => true end in
  let o' := mkPollOptions (po_Mailbox o) limit wait cycle jitter base bmax (po_Ack o) ackDelay ackSec ackMax
              coverSec coverCount coverJitter
              (if decoys then keep_decoys (po_Mailbox o) ∅ (take 10 (po_DecoyMailboxes o)) else po_DecoyMailboxes o)
              (if decoys then at_most 300 (if_le0 5 (po_DecoyPullSec o)) else po_DecoyPullSec o)
              (if decoys then at_most 30 (if_le0 1 (po_DecoyWaitSec o)) else po_DecoyWaitSec o)
              (if decoys then at_most 10 (if_le0 1 (po_DecoyLimit o)) else po_DecoyLimit o)
              (if decoys then at_most 5000 (if_zero true 500 (not_neg (po_DecoyPullJitterMs o))) else po_DecoyPullJitterMs o)
              (po_Handle o) in
  require! po_Handle o else ENilHandle;
  Ok o'.

(** [base << (n - 1)] wraps around at 64 bits. *)
Definition expBackoff (base max n : Z) : Z :=
  let base := if base <=? 0 then 250 * Millisecond else base in
  let max := if max <=? 0 then 5 * Second else max in
  if n <=? 0 then base
  else
    let n := if 20 <? n then 20 else n in
    let m := i64 (Z.shiftl base (n - 1)) in
    if max <? m then max else m.

(** [randInt63n(max + 1)]: the draw, [None] when the source fails. *)
Definition jitterPositive (max : Z) (draw : option Z) : Z := if max <=? 0 then 0 else default 0 draw.

Definition jitterSigned (maxAbs : Z) (draw sign : option Z) : Z :=
  if maxAbs <=? 0 then 0
  else match draw with
       | None => 0
       | Some n => if n =? 0 then 0 else match sign with None => 0 | Some s => if s =? 0 then - n else n end
       end.

(** ** The loop *)

Inductive call :=
  | CallPull (req : PullRequest)
  | CallHandle (msgs : list Message) (ok : bool)
  | CallAck (req : AckRequest)
  | CallCoverAck (req : AckRequest)
  | CallDecoyPull (req : PullRequest)
  | CallSleep (d : Z).

Record Poller := mkPoller {
  p_consecutiveErr : Z;
  p_lastAckAt : Z;
  p_pending : list string;
  p_pendingSet : gset string;
  p_lastCoverAckAt : Z;
  p_lastDecoyPullAt : Z;
  p_decoyNext : nat;
}.

(** The answers of one turn: the pull's, whether the handler returned nil, the readings of
    the clock and the random draws in the order of their use, and whether the context ended
    before the turn or in its last sleep. *)
Record turn_env := mkTurn {
  te_done : bool;
  te_start : Z;
  te_pull : res relay_err (list Message);
  te_handled : bool;
  te_batch_jitter : option Z;
  te_batch_at : Z;
  te_since_ack : Z;
  te_timed_jitter : option Z;
  te_timed_at : Z;
  te_since_cover : Z;
  te_cover_ids : list (option (list Z));
  te_cover_jitter : option Z;
  te_cover_at : Z;
  te_since_decoy : Z;
  te_decoy_at : Z;
  te_decoy_jitter : option Z;
  te_end : Z;
  te_jitter : option Z;
  te_sign : option Z;
  te_sleep_done : bool;
}.

(** A list of calls and the state behind them. *)
Abbreviation step_t := (list call * Poller)%type.

(** [sleepCtx] of a positive duration. *)
Definition sleep_calls (d : Z) : list call := if d <=? 0 then [] else [CallSleep d].

(** [flushAcks]: what is pending is forgotten whatever the relay answers. *)
Definition flushAcks (o : PollOptions) (jitter : option Z) (at_ : Z) (p : Poller) : step_t :=
  if negb (po_Ack o) then ([], p)
  else match p_pending p with
       | [] => ([], p)
       | ids =>
           ((if 0 <? po_AckDelayMsMax o then sleep_calls (jitterPositive (po_AckDelayMsMax o * Millisecond) jitter) else [])
              ++ [CallAck (mkAck (po_Mailbox o) ids)],
            mkPoller (p_consecutiveErr p) at_ [] ∅ (p_lastCoverAckAt p) (p_lastDecoyPullAt p) (p_decoyNext p))
       end.

(** The identifiers drawn; a failed draw is left out. *)
Fixpoint cover_ids (draws : list (option (list Z))) : list string :=
  match draws with
  | [] => []
  | d :: draws' => match newMessageID d with Ok id => id :: cover_ids draws' | Err _ => cover_ids draws' end
  end.

Definition sendCoverAck (o : PollOptions) (e : turn_env) (p : Poller) : step_t :=
  if (po_CoverAckSec o * Second <=? 0) || (po_CoverAckCount o <=? 0) then ([], p)
  else match cover_ids (take (Z.to_nat (po_CoverAckCount o)) (te_cover_ids e)) with
       | [] => ([], p)
       | ids =>
           ((if 0 <? po_CoverAckJitterMs o then sleep_calls (jitterPositive (po_CoverAckJitterMs o * Millisecond) (te_cover_jitter e)) else [])
              ++ [CallCoverAck (mkAck (po_Mailbox o) ids)],
            mkPoller (p_consecutiveErr p) (p_lastAckAt p) (p_pending p) (p_pendingSet p) (te_cover_at e) (p_lastDecoyPullAt p) (p_decoyNext p))
       end.

Definition doDecoyPull (o : PollOptions) (e : turn_env) (p : Poller) : step_t :=
  let decoyPullDur := po_DecoyPullSec o * Second in
  if decoyPullDur <=? 0 then ([], p)
  else match po_DecoyMailboxes o with
       | [] => ([], p)
       | mbs =>
           if TimeSub (te_since_decoy e) (p_lastDecoyPullAt p) <? decoyPullDur then ([], p)
           else
             let mb := nth (p_decoyNext p mod length mbs) mbs EmptyString in
             ((if 0 <? po_DecoyPullJitterMs o then sleep_calls (jitterPositive (po_DecoyPullJitterMs o * Millisecond) (te_decoy_jitter e)) else [])
                ++ [CallDecoyPull (mkPull mb (po_DecoyLimit o) (po_DecoyWaitSec o))],
              mkPoller (p_consecutiveErr p) (p_lastAckAt p) (p_pending p) (p_pendingSet p) (p_lastCoverAckAt p) (te_decoy_at e) (S (p_decoyNext p)))
       end.

(** The loop that queues the identifiers of handled messages, each once. *)
Fixpoint queue_acks (msgs : list Message) (p : Poller) : Poller :=
  match msgs with
  | [] => p
  | m :: msgs' =>
      if bool_decide (m_ID m ∈ p_pendingSet p) then queue_acks msgs' p
      else queue_acks msgs' (mkPoller (p_consecutiveErr p) (p_lastAckAt p) (p_pending p ++ [m_ID m]) ({[m_ID m]} ∪ p_pendingSet p)
                               (p_lastCoverAckAt p) (p_lastDecoyPullAt p) (p_decoyNext p))
  end.

Definition set_errs (n : Z) (p : Poller) : Poller :=
  mkPoller n (p_lastAckAt p) (p_pending p) (p_pendingSet p) (p_lastCoverAckAt p) (p_lastDecoyPullAt p) (p_decoyNext p).

(** The messages of a turn: handler, queue, flush of a full batch. *)
Definition handle_msgs (o : PollOptions) (e : turn_env) (msgs : list Message) (p : Poller) : step_t :=
  match msgs with
  | [] => ([], p)
  | _ =>
      if te_handled e && po_Ack o then
        let p := queue_acks msgs p in
        let '(c, p) :=
          if (0 <? po_AckBatchMax o) && (po_AckBatchMax o <=? Z.of_nat (length (p_pending p)))
          then flushAcks o (te_batch_jitter e) (te_batch_at e) p else ([], p) in
        (CallHandle msgs true :: c, p)
      else ([CallHandle msgs (te_handled e)], p)
  end.

(** One turn: its calls, whether [Run] returns, the state. *)
Definition poll_turn (o : PollOptions) (e : turn_env) (p : Poller) : list call * bool * Poller :=
  if te_done e then ([], true, p)
  else
    let pull := CallPull (mkPull (po_Mailbox o) (po_Limit o) (po_WaitSec o)) in
    match te_pull e with
    | Err _ =>
        let p := set_errs (p_consecutiveErr p + 1) p in
        let d := expBackoff (i64 (po_BackoffBaseMs o * Millisecond)) (po_BackoffMaxMs o * Millisecond) (p_consecutiveErr p)
                 + jitterPositive (po_JitterMs o * Millisecond) (te_jitter e) in
        (pull :: sleep_calls d, (0 <? d) && te_sleep_done e, p)
    | Ok msgs =>
        let p := set_errs 0 p in
        let '(c1, p) := handle_msgs o e msgs p in
        let ackBatchDur := po_AckBatchSec o * Second in
        let '(c2, p) :=
          if po_Ack o && (0 <? Z.of_nat (length (p_pending p))) && (0 <? ackBatchDur) && (ackBatchDur <=? TimeSub (te_since_ack e) (p_lastAckAt p))
          then flushAcks o (te_timed_jitter e) (te_timed_at e) p else ([], p) in
        let coverAckDur := po_CoverAckSec o * Second in
        let '(c3, p) :=
          if (0 <? coverAckDur) && (coverAckDur <=? TimeSub (te_since_cover e) (p_lastCoverAckAt p))
          then sendCoverAck o e p else ([], p) in
        let '(c4, p) := doDecoyPull o e p in
        let d := po_CycleSec o * Second - TimeSub (te_end e) (te_start e) + jitterSigned (po_JitterMs o * Millisecond) (te_jitter e) (te_sign e) in
        let d := if d <? 0 then 0 else d in
        (pull :: c1 ++ c2 ++ c3 ++ c4 ++ sleep_calls d, (0 <? d) && te_sleep_done e, p)
    end.

(** [Run] over turns: the calls it makes, and whether it has returned. *)
Fixpoint poll_turns (o : PollOptions) (es : list turn_env) (p : Poller) : list call * bool * Poller :=
  match es with
  | [] => ([], false, p)
  | e :: es' =>
      match poll_turn o e p with
      | (c, true, p) => (c, true, p)
      | (c, false, p) => let '(c', b, p) := poll_turns o es' p in (c ++ c', b, p)
      end
  end.

(** The state [Run] begins with, the clock read at each. *)
Definition newPoller (ackAt coverAt decoyAt : Z) : Poller := mkPoller 0 ackAt [] ∅ coverAt decoyAt 0.

Definition Run (o : PollOptions) (at_ : Z * Z * Z) (es : list turn_env) : res relay_err (list call * bool * Poller) :=
  opts <-! PollOptions_normalize o;
  Ok (poll_turns opts es (newPoller at_.1.1 at_.1.2 at_.2)).

(** ** Options *)

Lemma at_most_range lo m x : lo <= x -> lo <= m -> lo <= at_most m x <= m.
Proof. unfold at_most. destruct (Z.ltb_spec m x); lia. Qed.
Lemma not_neg_ge x : 0 <= not_neg x.
Proof. unfold not_neg. destruct (Z.ltb_spec x 0); lia. Qed.
Lemma if_le0_pos d x : 0 < d -> 1 <= if_le0 d x.
Proof. unfold if_le0. destruct (Z.leb_spec x 0); lia. Qed.
Lemma if_zero_ge on d x : 0 <= d -> 0 <= x -> 0 <= if_zero on d x.
Proof. unfold if_zero. destruct (_ && _); lia. Qed.
Lemma if_zero_pos d x : 0 < d -> 0 <= x -> 1 <= if_zero true d x.
Proof. unfold if_zero. rewrite andb_true_r. destruct (Z.eqb_spec x 0); lia. Qed.

(** Normalised options are within the limits the source sets. *)
Lemma normalize_bounds o o' : PollOptions_normalize o = Ok o' ->
  po_Mailbox o' = po_Mailbox o /\ po_Mailbox o <> EmptyString /\ po_Ack o' = po_Ack o /\ 1 <= po_Limit o' <= 200
  /\ 1 <= po_WaitSec o' <= 30 /\ 1 <= po_CycleSec o' <= 60 /\ 0 <= po_JitterMs o' <= 5000
  /\ 1 <= po_BackoffBaseMs o' /\ 1 <= po_BackoffMaxMs o' <= 60000 /\ 0 <= po_AckDelayMsMax o' <= 5000
  /\ 0 <= po_AckBatchSec o' <= 300 /\ 0 <= po_AckBatchMax o' <= 2000
  /\ (po_Ack o = true -> 1 <= po_AckBatchSec o' /\ 1 <= po_AckBatchMax o').
Proof.
  unfold PollOptions_normalize. destruct (is_empty (po_Mailbox o)) eqn:E; cbn [negb]; [done|].
  destruct (po_Handle o); [|done]. intros [= <-]. cbn [po_Mailbox po_Ack po_Limit po_WaitSec po_CycleSec po_JitterMs po_BackoffBaseMs po_BackoffMaxMs po_AckDelayMsMax po_AckBatchSec po_AckBatchMax].
  pose proof (at_most_range 1 30 (if_le0 15 (po_WaitSec o)) ltac:(by apply if_le0_pos)).
  split; [done|]. split; [by intros H1; rewrite H1 in E|]. split; [done|].
  split; [apply at_most_range; [by apply if_le0_pos|lia]|]. split; [lia|].
  split; [apply at_most_range; [apply if_le0_pos; lia|lia]|]. split; [apply at_most_range; [apply not_neg_ge|lia]|].
  split; [by apply if_le0_pos|]. split.
  { apply at_most_range; [|lia]. pose proof (if_le0_pos 250 (po_BackoffBaseMs o)). pose proof (if_le0_pos 5000 (po_BackoffMaxMs o)).
    destruct (_ <? _); lia. }
  split; [apply at_most_range; [apply if_zero_ge; [lia|apply not_neg_ge]|lia]|].
  split; [apply at_most_range; [apply if_zero_ge; [lia|apply not_neg_ge]|lia]|].
  split; [apply at_most_range; [apply if_zero_ge; [lia|apply not_neg_ge]|lia]|].
  intros ->. split; (apply at_most_range; [apply if_zero_pos; [lia|apply not_neg_ge]|lia]).
Qed.

(** The pause after the n-th failure in a row: for a base of at most two hours it does not
    wrap around, grows with n, and lies between the base, or the limit when that is less,
    and the limit. *)
Lemma expBackoff_bounds base max n : 0 < base <= 2 * Hour -> 0 < max -> 1 <= n ->
  Z.min base max <= expBackoff base max n <= max /\ expBackoff base max n <= expBackoff base max (n + 1).
Proof.
  intros Hb Hm Hn.
  assert (forall k, 1 <= k -> expBackoff base max k = Z.min max (base * 2 ^ (Z.min k 20 - 1))) as E.
  { intros k Hk. unfold expBackoff. destruct (Z.leb_spec base 0), (Z.leb_spec max 0), (Z.leb_spec k 0); try lia.
    replace (if 20 <? k then 20 else k) with (Z.min k 20) by (destruct (Z.ltb_spec 20 k); lia).
    rewrite Z.shiftl_mul_pow2 by lia.
    assert (2 ^ (Z.min k 20 - 1) <= 2 ^ 19) by (apply Z.pow_le_mono_r; lia).
    assert (0 < 2 ^ (Z.min k 20 - 1)) by (apply Z.pow_pos_nonneg; lia).
    rewrite i64_id; [destruct (Z.ltb_spec max (base * 2 ^ (Z.min k 20 - 1))); lia|].
    unfold_ints. unfold Hour, Minute, Second in *. change (2 ^ 19) with 524288 in *. nia. }
  rewrite !E by lia.
  assert (1 <= 2 ^ (Z.min n 20 - 1)) by (apply Z.lt_pred_le, Z.pow_pos_nonneg; lia).
  assert (2 ^ (Z.min n 20 - 1) <= 2 ^ (Z.min (n + 1) 20 - 1)) by (apply Z.pow_le_mono_r; lia). nia.
Qed.

(** ** Acknowledgements follow handling *)

Definition ids_of (msgs : list Message) : list string := m_ID <$> msgs.

(** An identifier the handler was given and answered nil. *)
Definition handled (cs : list call) (id : string) : Prop := exists msgs, CallHandle msgs true ∈ cs /\ id ∈ ids_of msgs.

(** An identifier in an acknowledgement that is not cover traffic. *)
Definition acked (cs : list call) (id : string) : Prop := exists req, CallAck req ∈ cs /\ id ∈ ak_IDs req.

Record poll_ok (o : PollOptions) (cs : list call) (p : Poller) : Prop := {
  ok_nodup : NoDup (p_pending p);
  ok_set : p_pendingSet p = list_to_set (p_pending p);
  ok_handled : forall id, id ∈ p_pending p -> handled cs id;
  ok_acks : forall a req b, cs = a ++ CallAck req :: b ->
    ak_Mailbox req = po_Mailbox o /\ ak_IDs req <> [] /\ NoDup (ak_IDs req) /\ forall id, id ∈ ak_IDs req -> handled a id;
  ok_covered : po_Ack o = true -> forall a msgs b, cs = a ++ CallHandle msgs true :: b ->
    forall id, id ∈ ids_of msgs -> id ∈ p_pending p \/ acked b id;
}.

Lemma handled_app cs c id : handled cs id -> handled (cs ++ c) id.
Proof. intros (msgs & H & ?). exists msgs. split; [|done]. apply elem_of_app. by left. Qed.
Lemma acked_app cs c id : acked cs id -> acked (cs ++ c) id.
Proof. intros (req & H & ?). exists req. split; [|done]. apply elem_of_app. by left. Qed.

(** Where an element of a list that grew by one is. *)
Lemma snoc_split {A} (cs : list A) x a y b : cs ++ [x] = a ++ y :: b ->
  (b = [] /\ x = y /\ cs = a) \/ exists b', b = b' ++ [x] /\ cs = a ++ y :: b'.
Proof.
  intros H. destruct b as [|z b] using rev_ind; [left|right; exists b].
  - apply app_inj_tail in H as [-> ->]. done.
  - rewrite app_comm_cons, app_assoc in H. apply app_inj_tail in H as [-> ->]. done.
Qed.

(** A call that neither acknowledges nor hands messages over with success. *)
Definition neutral (c : call) : Prop := match c with CallAck _ | CallHandle _ true => False | _ => True end.

Lemma ok_neutral o cs c p p' : poll_ok o cs p -> neutral c ->
  p_pending p' = p_pending p -> p_pendingSet p' = p_pendingSet p -> poll_ok o (cs ++ [c]) p'.
Proof.
  intros [H1 H2 H3 H4 H5] Hn Hp Hs. split; rewrite ?Hp, ?Hs; try done.
  - intros id Hid. by apply handled_app, H3.
  - intros a req b [(-> & -> & ->)|(b' & -> & E)]%snoc_split; [done|]. by apply (H4 a req b').
  - intros Ha a msgs b [(-> & -> & ->)|(b' & -> & E)]%snoc_split id Hid; [done|].
    destruct (H5 Ha a msgs b' E id Hid); [by left|right; by apply acked_app].
Qed.

Lemma ok_neutrals o cs c p p' : poll_ok o cs p -> Forall neutral c ->
  p_pending p' = p_pending p -> p_pendingSet p' = p_pendingSet p -> poll_ok o (cs ++ c) p'.
Proof.
  intros H Hc Hp Hs. revert p' Hp Hs. induction c as [|x c IH] using rev_ind; intros p' Hp Hs.
  - rewrite app_nil_r. destruct H as [H1 H2 H3 H4 H5]. by split; rewrite ?Hp, ?Hs.
  - apply Forall_app in Hc as [Hc Hx]. rewrite app_assoc. apply (ok_neutral o _ x p); [by apply IH|by inversion Hx|done..].
Qed.

Lemma ok_flushed o cs p p' : poll_ok o cs p -> p_pending p <> [] -> p_pending p' = [] -> p_pendingSet p' = ∅ ->
  poll_ok o (cs ++ [CallAck (mkAck (po_Mailbox o) (p_pending p))]) p'.
Proof.
  intros [H1 H2 H3 H4 H5] Hne Hp Hs. split; rewrite ?Hp, ?Hs; [constructor|done|by intros id ?%elem_of_nil| |].
  - intros a req b [(-> & [= <-] & ->)|(b' & -> & E)]%snoc_split; [done|]. by apply (H4 a req b').
  - intros Ha a msgs b [(-> & ? & ->)|(b' & -> & E)]%snoc_split id Hid; [done|]. right.
    destruct (H5 Ha a msgs b' E id Hid); [|by apply acked_app]. eexists. split; [apply elem_of_app; right; by left|done].
Qed.

Lemma queue_acks_spec msgs p : NoDup (p_pending p) -> p_pendingSet p = list_to_set (p_pending p) ->
  exists new, p_pending (queue_acks msgs p) = p_pending p ++ new /\ (length new <= length msgs)%nat
    /\ NoDup (p_pending p ++ new) /\ p_pendingSet (queue_acks msgs p) = list_to_set (p_pending p ++ new)
    /\ (forall id, id ∈ new -> id ∈ ids_of msgs) /\ (forall id, id ∈ ids_of msgs -> id ∈ p_pending p ++ new).
Proof.
  revert p. induction msgs as [|m msgs IH]; intros p Hn Hs; cbn [queue_acks].
  { exists []. rewrite app_nil_r. repeat split; try done; by intros id ?%elem_of_nil. }
  change (ids_of (m :: msgs)) with (m_ID m :: ids_of msgs). case_bool_decide as Hm.
  - destruct (IH p Hn Hs) as (new & Hp & Hl & Hn' & Hs' & Hin & Hall). exists new.
    rewrite Hs, elem_of_list_to_set in Hm. repeat split; try done; [simpl; lia| |].
    + intros id Hid. apply elem_of_cons. right. by apply Hin.
    + intros id [->|Hid]%elem_of_cons; [apply elem_of_app; by left|by apply Hall].
  - rewrite Hs, elem_of_list_to_set in Hm.
    match goal with |- context [queue_acks msgs ?q] => destruct (IH q) as (new & Hp & Hl & Hn' & Hs' & Hin & Hall) end; cbn [p_pending p_pendingSet] in *.
    + apply NoDup_app. split; [done|]. split; [|apply NoDup_singleton]. by intros x Hx ->%list_elem_of_singleton.
    + rewrite Hs, list_to_set_app_L, list_to_set_singleton_L. apply (comm_L (∪)).
    + rewrite <- app_assoc in *. exists (m_ID m :: new). split; [done|]. split; [simpl; lia|]. split; [done|]. split; [done|]. split.
      * intros id [->|Hid]%elem_of_cons; apply elem_of_cons; [by left|right; by apply Hin].
      * intros id [->|Hid]%elem_of_cons; [apply elem_of_app; right; by left|by apply Hall].
Qed.

Lemma ok_queued o cs msgs p : poll_ok o cs p -> poll_ok o (cs ++ [CallHandle msgs true]) (queue_acks msgs p).
Proof.
  intros [H1 H2 H3 H4 H5]. destruct (queue_acks_spec msgs p H1 H2) as (new & Hp & _ & Hn & Hs & Hin & Hall).
  split; rewrite ?Hp, ?Hs; try done.
  - intros id [Hid|Hid]%elem_of_app; [by apply handled_app, H3|]. exists msgs. split; [apply elem_of_app; right; by left|by apply Hin].
  - intros a req b [(-> & ? & ->)|(b' & -> & E)]%snoc_split; [done|]. by apply (H4 a req b').
  - intros Ha a msgs' b [(-> & [= <-] & ->)|(b' & -> & E)]%snoc_split id Hid; [left; by apply Hall|].
    destruct (H5 Ha a msgs' b' E id Hid); [left; apply elem_of_app; by left|right; by apply acked_app].
Qed.

Lemma sleep_neutral (b : bool) d : Forall neutral (if b then sleep_calls d else []).
Proof. unfold sleep_calls. destruct b, (d <=? 0); repeat constructor. Qed.

Lemma ok_flushAcks o cs j t p : poll_ok o cs p ->
  poll_ok o (cs ++ fst (flushAcks o j t p)) (snd (flushAcks o j t p)).
Proof.
  intros H. unfold flushAcks. destruct (po_Ack o); cbn [negb fst snd]; [|by rewrite app_nil_r].
  destruct (p_pending p) as [|x q] eqn:E; cbn [fst snd]; [by rewrite app_nil_r|].
  rewrite app_assoc, <- E. apply ok_flushed; [|by rewrite E|done..]. apply (ok_neutrals _ _ _ p); [done|apply sleep_neutral|done..].
Qed.

(** A piece of a turn that runs under a condition. *)
Lemma ok_guarded o cs (b : bool) (s : step_t) p : poll_ok o cs p -> poll_ok o (cs ++ fst s) (snd s) ->
  poll_ok o (cs ++ fst (if b then s else ([], p))) (snd (if b then s else ([], p))).
Proof. intros H1 H2. destruct b; cbn [fst snd]; [done|by rewrite app_nil_r]. Qed.

Lemma ok_handle_msgs o cs e msgs p : poll_ok o cs p ->
  poll_ok o (cs ++ fst (handle_msgs o e msgs p)) (snd (handle_msgs o e msgs p)).
Proof.
  intros H. unfold handle_msgs. destruct msgs as [|m msgs]; cbn [fst snd]; [by rewrite app_nil_r|].
  set (ms := m :: msgs). destruct (te_handled e) eqn:Eh; cbn [andb].
  - destruct (po_Ack o) eqn:Ea.
    + pose proof (ok_queued o cs ms p H) as Hq.
      match goal with |- context [if ?b then ?f else ([], ?q)] => pose proof (ok_guarded o _ b f q Hq (ok_flushAcks _ _ _ _ _ Hq)) as Hf; revert Hf; destruct (if b then f else ([], q)) as [c p']; intros Hf end.
      cbn [fst snd] in *. rewrite <- app_assoc in Hf. exact Hf.
    + cbn [fst snd]. destruct H as [H1 H2 H3 H4 H5]. split; try done.
      * intros id Hid. by apply handled_app, H3.
      * intros a req b [(-> & ? & ->)|(b' & -> & E)]%snoc_split; [done|]. by apply (H4 a req b').
      * by rewrite Ea.
  - by apply (ok_neutral _ _ _ p).
Qed.

Lemma ok_sendCoverAck o cs e p : poll_ok o cs p ->
  poll_ok o (cs ++ fst (sendCoverAck o e p)) (snd (sendCoverAck o e p)).
Proof.
  intros H. unfold sendCoverAck. destruct (_ || _); cbn [fst snd]; [by rewrite app_nil_r|].
  destruct (cover_ids _); cbn [fst snd]; [by rewrite app_nil_r|].
  apply (ok_neutrals _ _ _ p); [done| |done..]. apply Forall_app. split; [apply sleep_neutral|by repeat constructor].
Qed.

Lemma ok_doDecoyPull o cs e p : poll_ok o cs p ->
  poll_ok o (cs ++ fst (doDecoyPull o e p)) (snd (doDecoyPull o e p)).
Proof.
  intros H. unfold doDecoyPull. destruct (_ <=? 0); cbn [fst snd]; [by rewrite app_nil_r|].
  destruct (po_DecoyMailboxes o); cbn [fst snd]; [by rewrite app_nil_r|].
  destruct (_ <? _); cbn [fst snd]; [by rewrite app_nil_r|].
  apply (ok_neutrals _ _ _ p); [done| |done..]. apply Forall_app. split; [apply sleep_neutral|by repeat constructor].
Qed.

Lemma ok_poll_turn o cs e p : poll_ok o cs p ->
  poll_ok o (cs ++ (poll_turn o e p).1.1) (poll_turn o e p).2.
Proof.
  intros H. unfold poll_turn. destruct (te_done e); cbn [fst snd]; [by rewrite app_nil_r|].
  set (pull := CallPull _). destruct (te_pull e) as [msgs|err]; cbn [fst snd].
  - pose proof (ok_neutral o cs pull p (set_errs 0 p) H I eq_refl eq_refl) as H0.
    pose proof (ok_handle_msgs o _ e msgs _ H0) as H1. revert H1. destruct (handle_msgs _ _ _ _) as [c1 p1]. intros H1. cbn [fst snd] in H1.
    match goal with |- context [if ?b then flushAcks o ?j ?t p1 else _] =>
      pose proof (ok_guarded o _ b _ _ H1 (ok_flushAcks o _ j t _ H1)) as H2; revert H2; destruct (if b then _ else _) as [c2 p2]; intros H2 end. cbn [fst snd] in H2.
    match goal with |- context [if ?b then sendCoverAck o e p2 else _] =>
      pose proof (ok_guarded o _ b _ _ H2 (ok_sendCoverAck o _ e _ H2)) as H3; revert H3; destruct (if b then _ else _) as [c3 p3]; intros H3 end. cbn [fst snd] in H3.
    pose proof (ok_doDecoyPull o _ e _ H3) as H4. revert H4. destruct (doDecoyPull _ _ _) as [c4 p4]. intros H4. cbn [fst snd] in H4 |- *.
    rewrite <- !app_assoc in H4. cbn [app] in H4.
    match goal with |- context [sleep_calls ?d] => pose proof (ok_neutrals o _ (sleep_calls d) p4 p4 H4 (sleep_neutral true d) eq_refl eq_refl) as H5 end.
    rewrite <- !app_assoc in H5. cbn [app] in H5. by rewrite <- !app_assoc in H5.
  - rewrite <- (app_nil_l (sleep_calls _)), app_comm_cons. apply (ok_neutrals _ _ _ p); [done| |done..].
    apply Forall_app. split; [by repeat constructor|apply (sleep_neutral true)].
Qed.

Lemma ok_poll_turns o cs es p : poll_ok o cs p -> poll_ok o (cs ++ (poll_turns o es p).1.1) (poll_turns o es p).2.
Proof.
  revert cs p. induction es as [|e es IH]; intros cs p H; cbn [poll_turns fst snd]; [by rewrite app_nil_r|].
  pose proof (ok_poll_turn o cs e p H) as Ht. revert Ht. destruct (poll_turn o e p) as [[c [|]] p'] eqn:E; intros Ht; cbn [fst snd] in *; [done|].
  specialize (IH _ _ Ht). revert IH. destruct (poll_turns o es p') as [[c' b] p'']. intros IH. cbn [fst snd] in *. by rewrite app_assoc.
Qed.

(** Acknowledgements follow handling, whatever the relay, the handler, the clock and the
    random source do: an identifier is acknowledged (cover traffic apart) only after the
    handler was given its message and returned nil, in the poller's own mailbox, at most
    once per request; and when acknowledging is on, every message handled is acknowledged
    later or still waits to be. *)
Theorem acks_follow_handling o ats es cs b p : Run o ats es = Ok (cs, b, p) ->
  (forall c1 req c2, cs = c1 ++ CallAck req :: c2 ->
    ak_Mailbox req = po_Mailbox o /\ ak_IDs req <> [] /\ NoDup (ak_IDs req) /\ forall id, id ∈ ak_IDs req -> handled c1 id)
  /\ (po_Ack o = true -> forall c1 msgs c2, cs = c1 ++ CallHandle msgs true :: c2 ->
       forall id, id ∈ ids_of msgs -> id ∈ p_pending p \/ acked c2 id).
Proof.
  unfold Run. destruct (PollOptions_normalize o) as [o'|] eqn:En; cbn [rbind]; [|done]. intros [= H].
  apply normalize_bounds in En as (Hm & _ & Ha & _).
  assert (poll_ok o' cs p) as [_ _ _ H4 H5].
  { pose proof (ok_poll_turns o' [] es (newPoller ats.1.1 ats.1.2 ats.2)) as Hok. rewrite H in Hok. apply Hok.
    split; try done; [constructor|by intros id ?%elem_of_nil|by intros [|] ? ? [=]|by intros _ [|] ? ? [=]]. }
  rewrite Hm in H4. rewrite Ha in H5. done.
Qed.

(** ** The size of the batches *)

(** Acknowledgements lost: with batches of more than 1801 identifiers a full pull can make a
    request of more than 2000, which every relay refuses; the poller forgets it all the
    same, and the messages are delivered and handled again. *)
Theorem oversized_acks_are_lost o e msgs p : po_Ack o = true -> 1801 < po_AckBatchMax o ->
  NoDup (p_pending p) -> p_pendingSet p = list_to_set (p_pending p) ->
  Z.of_nat (length (p_pending p)) = po_AckBatchMax o - 1 ->
  length msgs = 200%nat -> NoDup (ids_of msgs) -> (forall id, id ∈ ids_of msgs -> id ∉ p_pending p) ->
  te_handled e = true -> validateMailboxID (po_Mailbox o) = Ok tt ->
  exists req, CallAck req ∈ fst (handle_msgs o e msgs p) /\ AckRequest_Validate req = Err ETooManyIDs
    /\ p_pending (snd (handle_msgs o e msgs p)) = [].
Proof.
  intros Ha Hmax Hn Hs Hl Hlm Hnm Hfresh Hh Hv. unfold handle_msgs. destruct msgs as [|m msgs]; [done|].
  set (ms := m :: msgs) in *. rewrite Hh, Ha. cbn [andb].
  destruct (queue_acks_spec ms p Hn Hs) as (new & Hp & Hlen & Hnd & _ & Hin & Hall).
  assert (length new = 200%nat) as Hnew.
  { apply Nat.le_antisymm; [lia|]. rewrite <- Hlm. rewrite <- (length_fmap m_ID ms). apply submseteq_length, NoDup_submseteq; [done|].
    intros id Hid. destruct (proj1 (elem_of_app _ _ _) (Hall id Hid)) as [H|]; [|done]. by apply Hfresh in H. }
  assert (Z.of_nat (length (p_pending (queue_acks ms p))) = po_AckBatchMax o + 199) as Hlq by (rewrite Hp, length_app; lia).
  destruct (Z.ltb_spec 0 (po_AckBatchMax o)); [|lia]. destruct (Z.leb_spec (po_AckBatchMax o) (Z.of_nat (length (p_pending (queue_acks ms p))))); [|lia].
  cbn [andb]. unfold flushAcks. rewrite Ha. cbn [negb].
  destruct (p_pending (queue_acks ms p)) as [|x q] eqn:E; [simpl in Hlq; lia|]. cbn [fst snd p_pending].
  eexists. split; [apply elem_of_cons; right; apply elem_of_app; right; by left|]. split; [|done].
  unfold AckRequest_Validate. cbn [ak_Mailbox ak_IDs]. rewrite Hv. cbn [rbind].
  destruct (Z.eqb_spec (Z.of_nat (length (x :: q))) 0); [lia|]. cbn [negb].
  unfold maxAckIDs. destruct (Z.leb_spec (Z.of_nat (length (x :: q))) 2000); [lia|done].
Qed.
