(* ===== verification/RelaySender.v ===== *)
(** * The relay's push shaper ([pkg/relay/sender.go])

    Pushes wait in a bounded queue and leave in batches after a random delay.  A turn is one
    pass of the loop of [Run]; the clock, the random draw, the contexts of the items and the
    answers of the relay are arguments.  An item with a waiter is one of [EnqueueWait],
    which blocks until its answer comes. *)

From S2P Require Import Prelude GoStr RelayTypes RelayPoller.

Local Open Scope res_scope.

Record SendOptions := mkSendOptions {
  sd_MinDelayMs : Z;
  sd_MaxDelayMs : Z;
  sd_BatchMax : Z;
  sd_QueueMax : Z;
  sd_InterPushJitterMs : Z;
  sd_HandleResult : bool;
}.

Definition SendOptions_normalize (o : SendOptions) : SendOptions :=
  let min := not_neg (sd_MinDelayMs o) in
  let max := not_neg (sd_MaxDelayMs o) in
  let both := (min =? 0) && (max =? 0) in
  let '(min, max) := if both then (200, 5000) else (min, max) in
  let max := if max =? 0 then min else max in
  let max := if max <? min then min else max in
  let max := at_most 60000 max in
  mkSendOptions min max (at_most 200 (if_le0 8 (sd_BatchMax o))) (at_most 100000 (if_le0 1000 (sd_QueueMax o)))
    (at_most 5000 (not_neg (sd_InterPushJitterMs o))) (sd_HandleResult o).

Record pushItem := mkItem {
  it_req : PushRequest;
  it_waiter : option nat;
}.

(** A shaper: [ps_running] until its [Run] returns. *)
Record PushShaper := mkShaper {
  ps_queue : list pushItem;
  ps_nextFlushAt : Z;
  ps_running : bool;
}.

Definition NewPushShaper : PushShaper := mkShaper [] zeroTime true.

(** [Enqueue], and [EnqueueWait] up to the wait. *)
Definition Enqueue (o : SendOptions) (req : PushRequest) (waiter : option nat) (s : PushShaper) : res relay_err PushShaper :=
  _ <-! PushRequest_Validate req;
  require! Z.of_nat (length (ps_queue s)) <? sd_QueueMax (SendOptions_normalize o) else EQueueFull;
  Ok (mkShaper (ps_queue s ++ [mkItem req waiter]) (ps_nextFlushAt s) (ps_running s)).

(** [dequeue] *)
Definition dequeue (max : Z) (q : list pushItem) : list pushItem * list pushItem :=
  match q with
  | [] => ([], [])
  | _ =>
      let max := if (max <=? 0) || (Z.of_nat (length q) <? max) then Z.of_nat (length q) else max in
      (take (Z.to_nat max) q, drop (Z.to_nat max) q)
  end.

(** What became of an item: pushed to the relay with its answer, given up because its context
    had ended, or failed when [Run] returned. *)
Inductive fate :=
  | FPushed (r : res relay_err string)
  | FCanceled
  | FStopped.

(** An item with its fate; [an_told] says whether the callback [HandleResult] ran. *)
Record answer := mkAnswer {
  an_item : pushItem;
  an_fate : fate;
  an_told : bool;
}.

Record shaper_env := mkShaperEnv {
  se_done : bool;
  se_jitter : option Z;
  se_now : Z;
  se_after : Z;
  se_item : nat -> bool * res relay_err string;
}.

(** The loop over a batch: the context of an item is looked at before it is pushed. *)
Definition answer_item (o : SendOptions) (x : bool * res relay_err string) (it : pushItem) : answer :=
  mkAnswer it (if fst x then FCanceled else FPushed (snd x)) (sd_HandleResult o).

Definition flush (o : SendOptions) (e : shaper_env) (items : list pushItem) : list answer :=
  imap (fun i it => answer_item o (se_item e i) it) items.

(** [failPending]: waiters get an error, the others are dropped, and no callback runs. *)
Definition failPending (s : PushShaper) : list answer * PushShaper :=
  ((fun it => mkAnswer it FStopped false) <$> ps_queue s, mkShaper [] (ps_nextFlushAt s) false).

Definition next_flush (o : SendOptions) (e : shaper_env) : Z :=
  let d := sd_MinDelayMs o * Millisecond in
  let d := if sd_MinDelayMs o <? sd_MaxDelayMs o
           then d + jitterPositive ((sd_MaxDelayMs o - sd_MinDelayMs o) * Millisecond) (se_jitter e) else d in
  TimeAdd (se_now e) d.

(** One pass of [Run] under normalised options. *)
Definition run_turn (o : SendOptions) (e : shaper_env) (s : PushShaper) : list answer * PushShaper :=
  if se_done e then failPending s
  else match ps_queue s with
       | [] => ([], mkShaper [] zeroTime true)
       | q =>
           let next := if IsZero (ps_nextFlushAt s) then next_flush o e else ps_nextFlushAt s in
           if (sd_BatchMax o <=? Z.of_nat (length q)) || After (se_after e) next then
             let '(items, rest) := dequeue (sd_BatchMax o) q in
             (flush o e items, mkShaper rest zeroTime true)
           else ([], mkShaper q next true)
       end.

(** ** Histories *)

Inductive event :=
  | EvEnqueue (req : PushRequest) (waiter : option nat)
  | EvTurn (e : shaper_env).

(** The item an event adds. *)
Definition accepted_by (o : SendOptions) (s : PushShaper) (ev : event) : list pushItem :=
  match ev with
  | EvEnqueue req w => match Enqueue o req w s with Ok _ => [mkItem req w] | Err _ => [] end
  | EvTurn _ => []
  end.

Definition step (o : SendOptions) (ev : event) (s : PushShaper) : list answer * PushShaper :=
  match ev with
  | EvEnqueue req w => match Enqueue o req w s with Ok s' => ([], s') | Err _ => ([], s) end
  | EvTurn e => if ps_running s then run_turn (SendOptions_normalize o) e s else ([], s)
  end.

(** The items accepted, the answers given, the state. *)
Fixpoint steps (o : SendOptions) (evs : list event) (s : PushShaper) : list pushItem * list answer * PushShaper :=
  match evs with
  | [] => ([], [], s)
  | ev :: evs' =>
      let '(a, s') := step o ev s in
      let '(acc, as_, s'') := steps o evs' s' in
      (accepted_by o s ev ++ acc, a ++ as_, s'')
  end.

(** ** Answers come in order *)

Lemma send_normalize_bounds o : let o' := SendOptions_normalize o in
  0 <= sd_MinDelayMs o' /\ 0 <= sd_MaxDelayMs o' <= 60000 /\ 1 <= sd_BatchMax o' <= 200 /\ 1 <= sd_QueueMax o' <= 100000
  /\ (sd_MinDelayMs o <= 60000 -> sd_MinDelayMs o' <= sd_MaxDelayMs o').
Proof.
  unfold SendOptions_normalize. pose proof (not_neg_ge (sd_MinDelayMs o)). pose proof (not_neg_ge (sd_MaxDelayMs o)).
  assert (sd_MinDelayMs o <= 60000 -> not_neg (sd_MinDelayMs o) <= 60000) by (unfold not_neg; destruct (_ <? 0); lia).
  pose proof (at_most_range 1 200 (if_le0 8 (sd_BatchMax o)) ltac:(by apply if_le0_pos) ltac:(lia)).
  pose proof (at_most_range 1 100000 (if_le0 1000 (sd_QueueMax o)) ltac:(by apply if_le0_pos) ltac:(lia)).
  set (bm := at_most 200 _) in *. set (qm := at_most 100000 _) in *. clearbody bm qm.
  set (mn := not_neg (sd_MinDelayMs o)) in *. set (mx := not_neg (sd_MaxDelayMs o)) in *. clearbody mn mx.
  unfold at_most. destruct (Z.eqb_spec mn 0), (Z.eqb_spec mx 0);
    cbn -[Z.ltb Z.le Z.lt]; repeat match goal with |- context [?a <? ?b] => destruct (Z.ltb_spec a b) end; lia.
Qed.

Lemma dequeue_app max q : fst (dequeue max q) ++ snd (dequeue max q) = q.
Proof. destruct q as [|x q]; [done|]. unfold dequeue. cbn [fst snd]. apply take_drop. Qed.

Lemma flush_items o e items : an_item <$> flush o e items = items.
Proof.
  unfold flush. rewrite fmap_imap. etrans; [|apply list_fmap_id]. rewrite <- imap_const. by apply imap_ext.
Qed.

Lemma step_fifo o ev s : ps_queue s ++ accepted_by o s ev = (an_item <$> fst (step o ev s)) ++ ps_queue (snd (step o ev s)).
Proof.
  destruct ev as [req w|e]; unfold accepted_by, step.
  - unfold Enqueue. destruct (PushRequest_Validate req); cbn [rbind]; [|by rewrite app_nil_r].
    destruct (_ <? _); [done|by rewrite app_nil_r].
  - rewrite app_nil_r. destruct (ps_running s); [|done]. unfold run_turn. destruct (se_done e).
    + unfold failPending. cbn [fst snd ps_queue]. rewrite app_nil_r, <- list_fmap_compose. symmetry. apply list_fmap_id.
    + destruct (ps_queue s) as [|x q] eqn:E; [done|]. destruct (_ || _); [|done].
      pose proof (dequeue_app (sd_BatchMax (SendOptions_normalize o)) (x :: q)) as Hd. destruct (dequeue _ _) as [items rest].
      cbn [fst snd ps_queue] in *. by rewrite flush_items.
Qed.

Lemma step_bounded o ev s : Z.of_nat (length (ps_queue s)) <= sd_QueueMax (SendOptions_normalize o) ->
  Z.of_nat (length (ps_queue (snd (step o ev s)))) <= sd_QueueMax (SendOptions_normalize o).
Proof.
  intros H. destruct ev as [req w|e].
  - unfold step, Enqueue. destruct (PushRequest_Validate req); cbn [rbind]; [|done].
    destruct (Z.ltb_spec (Z.of_nat (length (ps_queue s))) (sd_QueueMax (SendOptions_normalize o))); [|done].
    cbn [snd ps_queue]. rewrite length_app. simpl. lia.
  - pose proof (step_fifo o (EvTurn e) s) as Hf. cbn [accepted_by] in Hf. rewrite app_nil_r in Hf.
    rewrite Hf, length_app in H. lia.
Qed.

(** The shaper neither loses, repeats nor reorders: for any sequence of calls and turns of
    [Run] from a new shaper, the items answered followed by those in the queue are the items
    accepted, in their order; and the queue holds no more than its limit. *)
Theorem shaper_is_fifo o evs acc ans s : steps o evs NewPushShaper = (acc, ans, s) ->
  acc = (an_item <$> ans) ++ ps_queue s /\ Z.of_nat (length (ps_queue s)) <= sd_QueueMax (SendOptions_normalize o).
Proof.
  assert (forall s0, Z.of_nat (length (ps_queue s0)) <= sd_QueueMax (SendOptions_normalize o) -> steps o evs s0 = (acc, ans, s) ->
    ps_queue s0 ++ acc = (an_item <$> ans) ++ ps_queue s /\ Z.of_nat (length (ps_queue s)) <= sd_QueueMax (SendOptions_normalize o)) as H.
  { revert acc ans s. induction evs as [|ev evs IH]; intros acc ans s s0 Hl; cbn [steps].
    - intros [= <- <- <-]. by rewrite app_nil_r.
    - pose proof (step_fifo o ev s0) as Hf. pose proof (step_bounded o ev s0 Hl) as Hb. revert Hf Hb.
      destruct (step o ev s0) as [a s1]. cbn [fst snd]. intros Hf Hb. destruct (steps o evs s1) as [[acc' ans'] s2] eqn:E.
      intros [= <- <- <-]. destruct (IH _ _ _ _ Hb E) as [H1 H2]. split; [|done].
      by rewrite app_assoc, Hf, fmap_app, <- !app_assoc, H1. }
  intros Hs. apply (H NewPushShaper) in Hs; [done|]. destruct (send_normalize_bounds o) as (_ & _ & _ & ? & _).
  change (Z.of_nat (length (ps_queue NewPushShaper))) with 0. lia.
Qed.

(** After [Run] has returned, as [ShapedRelay.Close] makes it, requests are still accepted
    as long as the queue has room, and never answered: whatever is called afterwards, no item
    gets an answer, so that an [EnqueueWait] whose context does not end waits for ever. *)
Theorem closed_shaper_never_answers o evs s acc ans s' : ps_running s = false -> steps o evs s = (acc, ans, s') ->
  ans = [] /\ ps_queue s' = ps_queue s ++ acc /\ ps_running s' = false.
Proof.
  revert s acc ans s'. induction evs as [|ev evs IH]; intros s acc ans s' Hr; cbn [steps].
  { intros [= <- <- <-]. by rewrite app_nil_r. }
  pose proof (step_fifo o ev s) as Hf. assert (fst (step o ev s) = [] /\ ps_running (snd (step o ev s)) = false) as [Hn Hr'].
  { destruct ev as [req w|e]; unfold step; [|by rewrite Hr]. unfold Enqueue. destruct (PushRequest_Validate req); cbn [rbind]; [|done].
    by destruct (_ <? _). }
  destruct (step o ev s) as [a s1]. cbn [fst snd] in *. subst a. destruct (steps o evs s1) as [[acc' ans'] s2] eqn:E.
  intros [= <- <- <-]. destruct (IH _ _ _ _ Hr' E) as (-> & -> & ->). repeat split. by rewrite app_assoc, Hf.
Qed.

(** A batch is flushed as soon as it is full or the clock has passed the flush time, which is
    set at most [MaxDelayMs] (or [MinDelayMs], when that is more) after the first look. *)
Lemma flush_is_due o e s x q : let o' := SendOptions_normalize o in
  ps_queue s = x :: q -> ps_running s = true -> se_done e = false ->
  (forall n, se_jitter e = Some n -> 0 <= n <= (sd_MaxDelayMs o' - sd_MinDelayMs o') * Millisecond) ->
  (ps_nextFlushAt s = zeroTime -> se_now e + Z.max (sd_MinDelayMs o') (sd_MaxDelayMs o') * Millisecond < se_after e) ->
  (ps_nextFlushAt s <> zeroTime -> ps_nextFlushAt s < se_after e) ->
  an_item <$> fst (step o (EvTurn e) s) = take (Z.to_nat (sd_BatchMax o')) (x :: q).
Proof.
  intros o' Hq Hr Hd Hj Hz Hnz. unfold step. rewrite Hr. unfold run_turn. rewrite Hd, Hq. fold o'.
  set (next := if IsZero (ps_nextFlushAt s) then _ else _). assert (After (se_after e) next = true) as ->.
  { unfold After, next, IsZero. apply Z.ltb_lt. destruct (Z.eqb_spec (ps_nextFlushAt s) zeroTime) as [E|E]; [|by apply Hnz].
    eapply Z.le_lt_trans; [|by apply Hz]. unfold next_flush, TimeAdd, jitterPositive. cbv zeta.
    destruct (Z.ltb_spec (sd_MinDelayMs o') (sd_MaxDelayMs o')) as [Hlt|Hge]; [|unfold Millisecond; lia].
    destruct (Z.leb_spec ((sd_MaxDelayMs o' - sd_MinDelayMs o') * Millisecond) 0); [unfold Millisecond in *; lia|].
    destruct (se_jitter e) as [n|]; cbn [from_option id]; [specialize (Hj n eq_refl)|]; unfold Millisecond in *; lia. }
  rewrite orb_true_r. unfold dequeue. destruct (send_normalize_bounds o) as (_ & _ & Hb & _). fold o' in Hb.
  destruct (Z.leb_spec (sd_BatchMax o') 0); [lia|]. cbn [orb].
  destruct (Z.ltb_spec (Z.of_nat (length (x :: q))) (sd_BatchMax o')); cbn [fst snd]; rewrite flush_items; [|done].
  rewrite !take_ge; [done|lia..].
Qed.
