(* ===== verification/RelayExamples.v ===== *)
(** * Concrete relays

    The theorems about mailboxes, server, poller and shaper applied to concrete requests. *)

From S2P Require Import Prelude Float64 Sha256 GoStr RelayTypes RelayMailbox RelayServer RelayPoller RelaySender.

#[local] Open Scope string_scope.
#[local] Open Scope list_scope.
#[local] Open Scope Z_scope.

#[local] Existing Instance merge_sort_slice.

Definition id_bytes (k : Z) : list Z := repeat 0 15 ++ [k].
Definition id_of (k : Z) : string := EncodeToString (id_bytes k).
Definition push_to (mb env : string) (ttl delay : Z) : PushRequest := mkPush mb env ttl delay 0 "".

(** Two messages for bob, of which the second expires, and one for carol. *)
Definition mail : list op :=
  [OpPush (10 * Second) (Some (id_bytes 1)) (push_to "bob" "hello" 0 0);
   OpPush (12 * Second) (Some (id_bytes 2)) (push_to "bob" "soon gone" 5 0);
   OpPush (13 * Second) (Some (id_bytes 3)) (push_to "carol" "hi" 0 0);
   OpPush (14 * Second) (Some (id_bytes 4)) (push_to "bob" "later" 0 60)].

Definition bob_acks : AckRequest := mkAck "bob" [id_of 1].

Definition bob_msg (k : Z) (env : string) (at_ : Z) : Message := mkMessage (id_of k) "bob" env at_.

Example mail_pulls :
  fst (pull_try "bob" (15 * Second) 50 (run_ops mail NewMemoryRelay)) = [bob_msg 1 "hello" 10; bob_msg 2 "soon gone" 12]
  /\ fst (pull_try "bob" (18 * Second) 50 (run_ops mail NewMemoryRelay)) = [bob_msg 1 "hello" 10]
  /\ fst (pull_try "bob" (80 * Second) 1 (run_ops (mail ++ [OpAck (15 * Second) bob_acks]) NewMemoryRelay)) = [bob_msg 4 "later" 14].
Proof. vm_compute. done. Qed.

Lemma pull_hands_out_pending_witness :
  let out := fst (pull_try "bob" (15 * Second) 1 (run_ops mail NewMemoryRelay)) in
  Z.of_nat (length out) <= 1
  /\ StronglySorted (fun m m' => m_ReceivedAt m <= m_ReceivedAt m') out
  /\ (forall m, m ∈ out -> exists s, s_msg s = m /\ deliverable mail "bob" (15 * Second) s)
  /\ (forall s, deliverable mail "bob" (15 * Second) s ->
      s_msg s ∈ out \/ (Z.of_nat (length out) = 1 /\ forall m, m ∈ out -> m_ReceivedAt m <= s_received s)).
Proof. apply (pull_hands_out_pending mail "bob" (15 * Second) 1). lia. Defined.

(** Acknowledged, and pushed again with the same identifier. *)
Lemma acknowledged_is_gone_witness :
  exists o s, o ∈ [OpPush (20 * Second) (Some (id_bytes 1)) (push_to "bob" "again" 0 0)] /\ pushed o = Some s /\ s_msg s = bob_msg 1 "again" 20.
Proof.
  apply (acknowledged_is_gone mail (16 * Second) bob_acks _ (30 * Second) 50).
  - vm_compute. reflexivity.
  - apply (bool_decide_eq_true_1 _). vm_compute. reflexivity.
  - apply (bool_decide_eq_true_1 _). vm_compute. reflexivity.
Defined.

(** A poll of one second, woken every 50 ms; the message comes during the second turn. *)
Definition quiet (k : nat) : tick :=
  let now := 100 * Second + 50 * Millisecond * Z.of_nat k in
  mkTick now now false (if (k =? 1)%nat then [OpPush now (Some (id_bytes 7)) (push_to "bob" "news" 0 0)] else []).
Definition quiet_ticks : list tick := quiet <$> seq 0 21.

Lemma long_poll_ends_witness :
  let req := mkPull "bob" 0 1 in
  let req' := PullRequest_Normalize req in
  let waitUntil := wait_deadline (100 * Second) req' in
  exists k t res, quiet_ticks !! k = Some t /\ fst (Pull (100 * Second) req quiet_ticks NewMemoryRelay) = Some res
    /\ (forall j t', (j < k)%nat -> quiet_ticks !! j = Some t' -> found req' NewMemoryRelay (take j quiet_ticks) t' = [])
    /\ ends_at req' waitUntil NewMemoryRelay (take k quiet_ticks) t res.
Proof.
  apply (long_poll_ends (100 * Second) (mkPull "bob" 0 1) quiet_ticks NewMemoryRelay).
  - vm_compute. reflexivity.
  - vm_compute. discriminate.
  - vm_compute. repeat split; discriminate.
  - vm_compute. reflexivity.
Defined.

Example long_poll_finds :
  fst (Pull (100 * Second) (mkPull "bob" 0 1) quiet_ticks NewMemoryRelay) = Some (Ok [bob_msg 7 "news" 100]).
Proof. vm_compute. reflexivity. Qed.

(** ** A server that asks for four bits *)

Definition options4 : ServerOptions := ServerOptions_normalize (mkServerOptions false 4 0 0 " secret ").
Definition salt8 : list Z := [1; 2; 3; 4; 5; 6; 7; 7].
Definition wish : PushRequest := mkPush "bob" "paid" 0 0 4 "".
(** What the client makes of it: the second nonce it tries does the work. *)
Definition paid : PushRequest := mkPush "bob" "paid" 0 0 4 "AQIDBAUGBwcBAAAAAAAAAA".

Definition post (b : body) : http_request := mkHTTP "POST" "Bearer secret" "127.0.0.1" (50 * Second) b.
Definition env_at (now k : Z) : mem_env := mkMemEnv now (Some (id_bytes k)) [].

Definition server0 : Server (gmap string (list stored)) := mkServer NewMemoryRelay ∅.

Lemma found_work_is_accepted_witness :
  exists st, fst (serve options4 (env_at (50 * Second) 9) (post (BPush (Some paid))) server0) = RespID (id_of 9)
    /\ m_ID (s_msg st) = id_of 9 /\ m_Envelope (s_msg st) = "paid"
    /\ default [] (sv_relay (snd (serve options4 (env_at (50 * Second) 9) (post (BPush (Some paid))) server0)) !! "bob")
       = unexpired (50 * Second) (default [] (sv_relay server0 !! "bob")) ++ [st].
Proof.
  apply (found_work_is_accepted options4 (env_at (50 * Second) 9) (post (BPush (Some paid))) wish paid salt8 server0
           (snd (allowRequest options4 "127.0.0.1" "bob" (50 * Second) ∅)) (id_bytes 9)).
  - vm_compute. reflexivity.
  - apply (bool_decide_eq_true_1 _). vm_compute. reflexivity.
  - reflexivity.
  - vm_compute. reflexivity.
  - vm_compute. discriminate.
  - vm_compute. discriminate.
  - reflexivity.
  - vm_compute. reflexivity.
  - reflexivity.
  - vm_compute. reflexivity.
  - reflexivity.
  - apply (bool_decide_eq_true_1 _). vm_compute. reflexivity.
  - reflexivity.
  - vm_compute. discriminate.
Defined.

(** The paid push, the same without work, and one without the token. *)
Definition requests : list (mem_env * http_request) :=
  [(env_at (50 * Second) 9, post (BPush (Some paid)));
   (env_at (51 * Second) 10, post (BPush (Some (push_to "bob" "unpaid" 0 0))));
   (env_at (52 * Second) 11, mkHTTP "POST" "Bearer guess" "127.0.0.1" (52 * Second) (BPush (Some paid)))].

Definition the_stored : stored := mkStored (bob_msg 9 "paid" 50) zeroTime (50 * Second).

Lemma stored_messages_admitted_witness :
  exists e r req, (e, r) ∈ requests /\ h_method r = "POST" /\ requireAuth options4 (h_authorization r) = true
    /\ h_body r = BPush (Some req) /\ pu_Mailbox req = m_Mailbox (s_msg the_stored) /\ pu_Envelope req = m_Envelope (s_msg the_stored)
    /\ let bits := Z.max (so_MinPoWBits options4) (pu_PoWBits req) in
       (0 < bits -> exists nonce, DecodeString (pu_PoWNonceB64URL req) = Some nonce /\ 8 <= blen nonce <= 32
                                 /\ pow_work (m_Mailbox (s_msg the_stored)) (m_Envelope (s_msg the_stored)) nonce bits).
Proof.
  apply (stored_messages_admitted options4 requests "bob" the_stored).
  - repeat constructor.
  - apply (bool_decide_eq_true_1 _). vm_compute. reflexivity.
Defined.

Example refused_requests :
  fst (serve options4 (env_at (51 * Second) 10) (post (BPush (Some (push_to "bob" "unpaid" 0 0)))) server0) = RespError 401 ENonceRequired
  /\ fst (serve options4 (env_at (52 * Second) 11) (mkHTTP "POST" "Bearer guess" "127.0.0.1" (52 * Second) (BPush (Some paid))) server0) = RespError 401 EUnauthorized.
Proof. vm_compute. done. Qed.

(** ** A poller that batches two acknowledgements *)

Definition poll_options : PollOptions :=
  mkPollOptions "bob" 0 0 0 0 0 0 true 0 0 2 0 0 0 ["bob"; "carol"; "carol"; ""] 0 0 0 0 true.

Definition turn (at_ : Z) (pull : res relay_err (list Message)) (ok : bool) : turn_env :=
  mkTurn false at_ pull ok (Some 7) at_ at_ (Some 8) at_ at_ [] None at_ at_ at_ (Some 9) at_ None None false.

Definition poll_run : list turn_env :=
  [turn (1 * Second) (Err EIO) true;
   turn (2 * Second) (Ok [bob_msg 1 "a" 1]) false;
   turn (3 * Second) (Ok [bob_msg 1 "a" 1]) true;
   turn (4 * Second) (Ok [bob_msg 1 "a" 1; bob_msg 2 "b" 3]) true;
   turn (5 * Second) (Ok [bob_msg 3 "c" 5]) true].

Definition poll_result : list call * bool * Poller :=
  match Run poll_options (0, 0, 0) poll_run with Ok r => r | Err _ => ([], true, newPoller 0 0 0) end.

Example poll_acks :
  omap (fun c => match c with CallAck r => Some r | _ => None end) poll_result.1.1 = [mkAck "bob" [id_of 1; id_of 2]]
  /\ p_pending poll_result.2 = [id_of 3].
Proof. vm_compute. done. Qed.

Lemma acks_follow_handling_witness :
  let '(cs, b, p) := poll_result in
  (forall c1 req c2, cs = c1 ++ CallAck req :: c2 ->
    ak_Mailbox req = "bob" /\ ak_IDs req <> [] /\ NoDup (ak_IDs req) /\ forall id, id ∈ ak_IDs req -> handled c1 id)
  /\ (po_Ack poll_options = true -> forall c1 msgs c2, cs = c1 ++ CallHandle msgs true :: c2 ->
       forall id, id ∈ ids_of msgs -> id ∈ p_pending p \/ acked c2 id).
Proof.
  destruct poll_result as [[cs b] p] eqn:E.
  apply (acks_follow_handling poll_options (0, 0, 0) poll_run cs b p). rewrite <- E. vm_compute. reflexivity.
Defined.

(** ** A shaper of batches of two *)

Definition send_options : SendOptions := mkSendOptions 0 0 2 3 0 false.
Definition flush_at (done : bool) (at_ : Z) : shaper_env := mkShaperEnv done (Some 1) at_ at_ (fun i => (false, Ok (id_of (Z.of_nat i)))).
Definition send_events : list event :=
  [EvEnqueue (push_to "bob" "1" 0 0) None; EvEnqueue (push_to "bob" "2" 0 0) (Some 0%nat); EvEnqueue (push_to "" "bad" 0 0) None;
   EvEnqueue (push_to "bob" "3" 0 0) (Some 1%nat); EvEnqueue (push_to "bob" "4" 0 0) None; EvTurn (flush_at false Second)].
Definition send_result : list pushItem * list answer * PushShaper := steps send_options send_events NewPushShaper.

Lemma shaper_is_fifo_witness :
  send_result.1.1 = (an_item <$> send_result.1.2) ++ ps_queue send_result.2
  /\ Z.of_nat (length (ps_queue send_result.2)) <= sd_QueueMax (SendOptions_normalize send_options).
Proof.
  apply (shaper_is_fifo send_options send_events send_result.1.1 send_result.1.2 send_result.2). reflexivity.
Defined.

Example shaper_batches : length send_result.1.1 = 3%nat /\ length send_result.1.2 = 2%nat.
Proof. vm_compute. done. Qed.

(** The context of [Run] ends; two requests come after that. *)
Definition closed : PushShaper := snd (step send_options (EvTurn (flush_at true (2 * Second))) send_result.2).
Definition late_events : list event :=
  [EvEnqueue (push_to "bob" "late" 0 0) (Some 2%nat); EvTurn (flush_at false (90 * Second)); EvEnqueue (push_to "bob" "later" 0 0) None].
Definition late_result : list pushItem * list answer * PushShaper := steps send_options late_events closed.

Lemma closed_shaper_never_answers_witness :
  length late_result.1.1 = 2%nat
  /\ late_result.1.2 = [] /\ ps_queue late_result.2 = ps_queue closed ++ late_result.1.1 /\ ps_running late_result.2 = false.
Proof.
  split; [vm_compute; reflexivity|].
  apply (closed_shaper_never_answers send_options late_events closed late_result.1.1 late_result.1.2 late_result.2); reflexivity.
Defined.
