(* ===== verification/Trust.v ===== *)
(** * Offline trust updates ([pkg/importctl/revocation.go])

    The trust state of a client, update blocks signed by root keys, and what applying one
    does: which signers are active, retired or revoked, and which roots decide.  Ed25519 is
    a parameter; how bytes read as a block is an argument. *)

From S2P Require Import Prelude Sha256 GoStr.

#[local] Open Scope string_scope.
#[local] Open Scope list_scope.
#[local] Open Scope Z_scope.

Definition TrustUpdateMagic : string := "SNB-TRUST-1".
Definition TrustUpdateDomain : list Z := bytes_of "SUNLIONET-TRUST-UPDATE-V1" ++ [0].
Definition TrustStateDomain : list Z := bytes_of "SUNLIONET-TRUST-STATE-V1" ++ [0].
Definition MaxTrustUpdateBytes : Z := 256 * 1024.
Definition DefaultTrustThreshold : Z := 2.
Definition MaxTrustUpdateTTLSecond : Z := 30 * 24 * 3600.
(** [bundle.MaxClockSkewSeconds] *)
Definition MaxClockSkewSeconds : Z := 10 * 60.

Inductive trust_err :=
  | ErrTrustUpdateRollback
  | ErrTrustUpdateInvalid
  | ErrTrustUpdateUnauthorized
  | ErrTrust (message : string).

Record RevocationRecord := mkRevocation {
  rv_Reason : string;
  rv_EffectiveAt : Z;
  rv_RevokedAt : Z;
  rv_BlockID : string;
}.

Record TransitionRecord := mkTransition {
  tr_ReplacedBy : string;
  tr_EffectiveAt : Z;
  tr_ExpiresAfter : Z;
  tr_BlockID : string;
}.

(** A nil map reads as an empty one. *)
Record TrustState := mkTrustState {
  ts_Version : Z;
  ts_StateHash : string;
  ts_PreviousHash : string;
  ts_Threshold : Z;
  ts_RootKeys : gmap string string;
  ts_ActiveSigners : gmap string string;
  ts_RetiredSigners : gmap string TransitionRecord;
  ts_RevokedSigners : gmap string RevocationRecord;
  ts_UpdatedAt : Z;
}.

Record TrustOperation := mkOperation {
  op_Type : string;
  op_KeyID : string;
  op_PublicKeyB64 : string;
  op_Reason : string;
  op_ReplacedBy : string;
  op_ExpiresAfter : Z;
}.

Record TrustSignature := mkSignature {
  sg_RootKeyID : string;
  sg_SigB64URL : string;
}.

(** The notes of a block may be a nil map. *)
Record TrustUpdateBlock := mkBlock {
  bk_Magic : string;
  bk_BlockID : string;
  bk_Version : Z;
  bk_PrevStateHash : string;
  bk_IssuedAt : Z;
  bk_EffectiveAt : Z;
  bk_ExpiresAt : Z;
  bk_Threshold : Z;
  bk_Operations : list TrustOperation;
  bk_Notes : option (gmap string string);
  bk_Signatures : list TrustSignature;
}.

(** [bundle.Ed25519KeyID]: 16 characters of the digest of the key. *)
Definition Ed25519KeyID (pub : list Z) : string :=
  ("ed25519:" ++ str_of (take 16 (bytes_of (EncodeToString (Sum256 pub)))))%string.

(** ** Canonical encodings *)

(** The order of [sort.Slice] on operations. *)
Definition op_le (a b : TrustOperation) : Prop :=
  if bool_decide (op_Type a = op_Type b) then str_le (op_KeyID a) (op_KeyID b) else str_le (op_Type a) (op_Type b).

#[export] Instance op_le_dec : RelDecision op_le.
Proof. intros a b. unfold op_le. destruct (bool_decide _); apply _. Defined.
#[export] Instance op_le_total : Total op_le.
Proof.
  intros a b. unfold op_le. case_bool_decide as E.
  - rewrite (bool_decide_eq_true_2 (op_Type b = _)) by done. apply (total str_le).
  - rewrite (bool_decide_eq_false_2 (op_Type b = _)) by congruence. apply (total str_le).
Qed.
#[export] Instance op_le_trans : Transitive op_le.
Proof.
  intros a b c. unfold op_le. destruct (decide (op_Type a = op_Type b)) as [Eab|Nab], (decide (op_Type b = op_Type c)) as [Ebc|Nbc],
    (decide (op_Type a = op_Type c)) as [Eac|Nac]; try congruence;
    repeat first [rewrite (bool_decide_eq_true_2 _ Eab)|rewrite (bool_decide_eq_false_2 _ Nab)|rewrite (bool_decide_eq_true_2 _ Ebc)
      |rewrite (bool_decide_eq_false_2 _ Nbc)|rewrite (bool_decide_eq_true_2 _ Eac)|rewrite (bool_decide_eq_false_2 _ Nac)]; intros Hab Hbc.
  - by trans (op_KeyID b).
  - by rewrite Eab.
  - by rewrite <- Ebc.
  - destruct Nab. apply (anti_symm str_le); congruence.
  - by trans (op_Type b).
Qed.

Definition json_operation (o : TrustOperation) : list Z :=
  json_object ([("type", json_string (op_Type o)); ("key_id", json_string (op_KeyID o))]
    ++ omit_empty "public_key_b64url" (op_PublicKeyB64 o) ++ omit_empty "reason" (op_Reason o)
    ++ omit_empty "replaced_by" (op_ReplacedBy o) ++ omit_zero "expires_after" (op_ExpiresAfter o)).

(** A block without signatures; one without operations has a nil slice. *)
Definition json_block (b : TrustUpdateBlock) : list Z :=
  json_object [("magic", json_string (bk_Magic b)); ("block_id", json_string (bk_BlockID b)); ("version", json_int (bk_Version b));
    ("prev_state_hash", json_string (bk_PrevStateHash b)); ("issued_at", json_int (bk_IssuedAt b));
    ("effective_at", json_int (bk_EffectiveAt b)); ("expires_at", json_int (bk_ExpiresAt b)); ("threshold", json_int (bk_Threshold b));
    ("operations", match bk_Operations b with [] => json_null | ops => json_list json_operation ops end);
    ("notes", match bk_Notes b with None => json_null | Some m => json_map json_string m end);
    ("signatures", json_null)].

Definition json_revocation (r : RevocationRecord) : list Z :=
  json_object [("reason", json_string (rv_Reason r)); ("effective_at", json_int (rv_EffectiveAt r));
    ("revoked_at", json_int (rv_RevokedAt r)); ("block_id", json_string (rv_BlockID r))].

Definition json_transition (t : TransitionRecord) : list Z :=
  json_object (omit_empty "replaced_by" (tr_ReplacedBy t)
    ++ [("effective_at", json_int (tr_EffectiveAt t)); ("expires_after", json_int (tr_ExpiresAfter t)); ("block_id", json_string (tr_BlockID t))]).

Definition json_state (s : TrustState) : list Z :=
  json_object [("version", json_int (ts_Version s)); ("state_hash", json_string (ts_StateHash s));
    ("previous_hash", json_string (ts_PreviousHash s)); ("threshold", json_int (ts_Threshold s));
    ("root_keys", json_map json_string (ts_RootKeys s)); ("active_signers", json_map json_string (ts_ActiveSigners s));
    ("retired_signers", json_map json_transition (ts_RetiredSigners s));
    ("revoked_signers", json_map json_revocation (ts_RevokedSigners s)); ("updated_at", json_int (ts_UpdatedAt s))].

Definition set_hash (h : string) (s : TrustState) : TrustState :=
  mkTrustState (ts_Version s) h (ts_PreviousHash s) (ts_Threshold s) (ts_RootKeys s) (ts_ActiveSigners s) (ts_RetiredSigners s)
    (ts_RevokedSigners s) (ts_UpdatedAt s).

Definition set_ops (ops : list TrustOperation) (b : TrustUpdateBlock) : TrustUpdateBlock :=
  mkBlock (bk_Magic b) (bk_BlockID b) (bk_Version b) (bk_PrevStateHash b) (bk_IssuedAt b) (bk_EffectiveAt b) (bk_ExpiresAt b)
    (bk_Threshold b) ops (bk_Notes b) (bk_Signatures b).

Definition canonicalTrustState (s : TrustState) : list Z := TrustStateDomain ++ json_state s.

(** What the seal of a state must be. *)
Definition state_seal (s : TrustState) : string := EncodeToString (Sum256 (canonicalTrustState (set_hash EmptyString s))).

(** [ensureMaps], as far as it can be told from nil maps. *)
Definition ensure (s : TrustState) : TrustState :=
  mkTrustState (ts_Version s) (ts_StateHash s) (ts_PreviousHash s) (if ts_Threshold s =? 0 then DefaultTrustThreshold else ts_Threshold s)
    (ts_RootKeys s) (ts_ActiveSigners s) (ts_RetiredSigners s) (ts_RevokedSigners s) (ts_UpdatedAt s).

Definition reseal (s : TrustState) : TrustState := set_hash (state_seal (ensure s)) (ensure s).

Definition verifySeal (s : TrustState) : bool := is_blank (ts_StateHash s) || bool_decide (state_seal s = ts_StateHash s).

(** ** States *)

Definition normalizeThreshold (n : Z) : Z := if n <=? 0 then DefaultTrustThreshold else n.

(** A loop that files keys under their identifiers. *)
Fixpoint file_keys (message : string) (keys : list (list Z)) (m : gmap string string) : res trust_err (gmap string string) :=
  match keys with
  | [] => Ok m
  | pub :: keys' =>
      if negb (blen pub =? PublicKeySize) then Err (ErrTrust message)
      else file_keys message keys' (<[Ed25519KeyID pub := EncodeToString pub]> m)
  end.

Local Open Scope res_scope.

Definition NewTrustState (rootKeys activeSigners : list (list Z)) (threshold now : Z) : res trust_err TrustState :=
  roots <-! file_keys "invalid root public key size" rootKeys ∅;
  active <-! file_keys "invalid signer public key size" activeSigners ∅;
  Ok (reseal (mkTrustState 0 EmptyString EmptyString (normalizeThreshold threshold) roots active ∅ ∅ now)).

Definition IsRevoked (s : TrustState) (keyID : string) (now : Z) : bool :=
  match ts_RevokedSigners s !! TrimSpace keyID with
  | Some r => (rv_EffectiveAt r =? 0) || (rv_EffectiveAt r <=? now)
  | None => false
  end.

(** A stored key that decodes to its size. *)
Definition decode_key (b64 : string) : option (list Z) :=
  match DecodeString b64 with Some raw => if blen raw =? PublicKeySize then Some raw else None | None => None end.

Fixpoint decode_active (s : TrustState) (ids : list string) : res trust_err (list (list Z)) :=
  match ids with
  | [] => Ok []
  | id :: ids' =>
      match decode_key (default EmptyString (ts_ActiveSigners s !! id)) with
      | None => Err (ErrTrust "invalid active signer key")
      | Some raw => rest <-! decode_active s ids'; Ok (raw :: rest)
      end
  end.

(** [now] is the clock's reading, which the code takes anew for each key. *)
Definition ActivePublicKeys (s : TrustState) (now : Z) : res trust_err (list (list Z)) :=
  decode_active s (sort_strings (filter (fun id => IsRevoked s id now = false) (map fst (map_to_list (ts_ActiveSigners s))))).

(** ** Applying a block *)

Definition validateTrustBlockHeader (b : TrustUpdateBlock) (current : TrustState) (now : Z) : res trust_err unit :=
  require! negb (negb (bool_decide (bk_Magic b = TrustUpdateMagic)) || is_blank (bk_BlockID b)) else ErrTrustUpdateInvalid;
  require! negb (bk_Version b <=? ts_Version current) else ErrTrustUpdateRollback;
  require! negb (negb (is_empty (ts_StateHash current)) && negb (bool_decide (bk_PrevStateHash b = ts_StateHash current))) else ErrTrustUpdateRollback;
  require! negb ((bk_IssuedAt b <=? 0) || (bk_EffectiveAt b <=? 0) || (bk_ExpiresAt b <=? 0) || (bk_ExpiresAt b <? bk_IssuedAt b)) else ErrTrustUpdateInvalid;
  require! negb (MaxTrustUpdateTTLSecond <? bk_ExpiresAt b - bk_IssuedAt b) else ErrTrustUpdateInvalid;
  require! negb ((now + MaxClockSkewSeconds <? bk_IssuedAt b) || (bk_ExpiresAt b <? now)) else ErrTrustUpdateInvalid;
  require! negb ((Z.of_nat (length (bk_Operations b)) =? 0) || (128 <? Z.of_nat (length (bk_Operations b)))) else ErrTrustUpdateInvalid;
  Ok tt.

Definition parseOperationPublicKey (o : TrustOperation) (expectedKeyID : string) : res trust_err (list Z) :=
  match DecodeString (TrimSpace (op_PublicKeyB64 o)) with
  | None => Err ErrTrustUpdateInvalid
  | Some raw =>
      require! blen raw =? PublicKeySize else ErrTrustUpdateInvalid;
      require! bool_decide (Ed25519KeyID raw = expectedKeyID) else ErrTrustUpdateInvalid;
      Ok raw
  end.

(** At most 80 bytes. *)
Definition cleanReason (s : string) : string :=
  let s := TrimSpace s in if 80 <? slen s then str_of (take 80 (bytes_of s)) else s.

(** A state with other keys. *)
Definition with_keys (s : TrustState) (roots active : gmap string string) (retired : gmap string TransitionRecord) (revoked : gmap string RevocationRecord) : TrustState :=
  mkTrustState (ts_Version s) (ts_StateHash s) (ts_PreviousHash s) (ts_Threshold s) roots active retired revoked (ts_UpdatedAt s).

Definition applyTrustOperation (s : TrustState) (b : TrustUpdateBlock) (o : TrustOperation) : res trust_err TrustState :=
  let keyID := TrimSpace (op_KeyID o) in
  let roots := ts_RootKeys s in
  let active := ts_ActiveSigners s in
  let retired := ts_RetiredSigners s in
  let revoked := ts_RevokedSigners s in
  if is_empty keyID then Err ErrTrustUpdateInvalid
  else if bool_decide (op_Type o = "add_signer") then
    pub <-! parseOperationPublicKey o keyID;
    Ok (with_keys s roots (<[keyID := EncodeToString pub]> active) (delete keyID retired) revoked)
  else if bool_decide (op_Type o = "revoke_signer") then
    Ok (with_keys s roots (delete keyID active) retired
          (<[keyID := mkRevocation (cleanReason (op_Reason o)) (bk_EffectiveAt b) (bk_IssuedAt b) (bk_BlockID b)]> revoked))
  else if bool_decide (op_Type o = "retire_signer") then
    Ok (with_keys s roots (delete keyID active)
          (<[keyID := mkTransition (TrimSpace (op_ReplacedBy o)) (bk_EffectiveAt b) (op_ExpiresAfter o) (bk_BlockID b)]> retired) revoked)
  else if bool_decide (op_Type o = "add_root") then
    pub <-! parseOperationPublicKey o keyID;
    Ok (with_keys s (<[keyID := EncodeToString pub]> roots) active retired revoked)
  else if bool_decide (op_Type o = "retire_root") then
    Ok (with_keys s (delete keyID roots) active retired revoked)
  else Err ErrTrustUpdateInvalid.

Fixpoint applyOperations (b : TrustUpdateBlock) (ops : list TrustOperation) (s : TrustState) : res trust_err TrustState :=
  match ops with
  | [] => Ok s
  | o :: ops' => s' <-! applyTrustOperation s b o; applyOperations b ops' s'
  end.

(** The keys configured, filed under their identifiers. *)
Fixpoint configured_roots (keys : list (list Z)) (m : gmap string (list Z)) : res trust_err (gmap string (list Z)) :=
  match keys with
  | [] => Ok m
  | pub :: keys' =>
      if negb (blen pub =? PublicKeySize) then Err (ErrTrust "invalid configured root public key")
      else configured_roots keys' (<[Ed25519KeyID pub := pub]> m)
  end.

(** A stored root that decodes and has its identifier. *)
Definition stored_root (id b64 : string) : option (list Z) :=
  match decode_key b64 with
  | Some raw => if bool_decide (Ed25519KeyID raw = id) then Some raw else None
  | None => None
  end.

(** The range over the stored roots fails at a bad one, whatever its order. *)
Definition verificationRoots (s : TrustState) (configured : list (list Z)) : res trust_err (gmap string (list Z)) :=
  roots <-! configured_roots configured ∅;
  if bool_decide (map_Forall (fun id b64 => stored_root id b64 <> None) (ts_RootKeys s)) then
    let roots := map_imap stored_root (ts_RootKeys s) ∪ roots in
    if bool_decide (roots = ∅) then Err ErrTrustUpdateUnauthorized else Ok roots
  else Err (ErrTrust "invalid stored root public key").

Section blocks.
Context `{Ed25519, SS : !SortSlice op_le}.

(** Whether a signature is one of a root that was not counted before. *)
Definition counts (msg : list Z) (roots : gmap string (list Z)) (seen : gset string) (sig : TrustSignature) : bool :=
  let id := TrimSpace (sg_RootKeyID sig) in
  if bool_decide (id ∈ seen) then false
  else match roots !! id with
       | None => false
       | Some pub =>
           match DecodeString (sg_SigB64URL sig) with
           | None => false
           | Some raw => (blen raw =? SignatureSize) && ed_verify pub msg raw
           end
       end.

Fixpoint count_loop (msg : list Z) (sigs : list TrustSignature) (roots : gmap string (list Z)) (seen : gset string) (valid : Z) : Z :=
  match sigs with
  | [] => valid
  | sig :: sigs' =>
      if counts msg roots seen sig
      then count_loop msg sigs' roots ({[TrimSpace (sg_RootKeyID sig)]} ∪ seen) (valid + 1)
      else count_loop msg sigs' roots seen valid
  end.

Definition countValidRootSignatures (msg : list Z) (sigs : list TrustSignature) (roots : gmap string (list Z)) : Z :=
  count_loop msg sigs roots ∅ 0.

(** [canonicalTrustUpdate] sorts the operations in the array it shares with its caller: what
    is signed is the sorted block, and the caller goes on with the sorted operations. *)
Definition sorted_block (b : TrustUpdateBlock) : TrustUpdateBlock := set_ops (sort_slice (bk_Operations b)) b.
Definition canonicalTrustUpdate (b : TrustUpdateBlock) : list Z := TrustUpdateDomain ++ json_block (sorted_block b).

(** The number of signatures a block needs. *)
Definition block_threshold (b : TrustUpdateBlock) (s : TrustState) : Z :=
  let threshold := bk_Threshold b in
  let threshold := if threshold =? 0 then ts_Threshold s else threshold in
  if threshold =? 0 then DefaultTrustThreshold else threshold.

(** [clock] is read when [now] is zero. *)
Definition ApplyBlock (s : TrustState) (b : TrustUpdateBlock) (configuredRootKeys : list (list Z)) (now clock : Z) : res trust_err TrustState :=
  let now := if now =? 0 then clock else now in
  _ <-! validateTrustBlockHeader b s now;
  let signable := canonicalTrustUpdate b in
  let b := sorted_block b in
  roots <-! verificationRoots s configuredRootKeys;
  require! negb (countValidRootSignatures signable (bk_Signatures b) roots <? block_threshold b s) else ErrTrustUpdateUnauthorized;
  let next := mkTrustState (bk_Version b) (ts_StateHash s) (ts_StateHash s)
                (if ts_Threshold s =? 0 then normalizeThreshold (bk_Threshold b) else ts_Threshold s)
                (ts_RootKeys s) (ts_ActiveSigners s) (ts_RetiredSigners s) (ts_RevokedSigners s) now in
  next <-! applyOperations b (bk_Operations b) next;
  Ok (reseal next).

(** [ApplyUpdate]; [decode] reads the bytes strictly as a block. *)
Definition ApplyUpdate (decode : list Z -> option TrustUpdateBlock) (s : TrustState) (raw : list Z) (configuredRootKeys : list (list Z)) (now clock : Z) : res trust_err TrustState :=
  if (blen raw =? 0) || (MaxTrustUpdateBytes <? blen raw) then Err ErrTrustUpdateInvalid
  else match decode raw with
       | None => Err ErrTrustUpdateInvalid
       | Some b => ApplyBlock s b configuredRootKeys now clock
       end.

(** ** Making a block *)

(** The public half of a private key. *)
Definition public_key (priv : list Z) : list Z := drop 32 priv.

Fixpoint sign_all (privs : list (list Z)) (signable : list Z) : res trust_err (list TrustSignature) :=
  match privs with
  | [] => Ok []
  | priv :: privs' =>
      if negb (blen priv =? PrivateKeySize) then Err (ErrTrust "invalid root private key size")
      else
        rest <-! sign_all privs' signable;
        Ok (mkSignature (Ed25519KeyID (public_key priv)) (EncodeToString (ed_sign priv signable)) :: rest)
  end.

Definition sig_le (a b : TrustSignature) : Prop := str_le (sg_RootKeyID a) (sg_RootKeyID b).

(** The fields a block is completed with; [name] is the formatted default name. *)
Definition complete_block (current : TrustState) (b : TrustUpdateBlock) (clock : Z) (name : Z -> Z -> string) : TrustUpdateBlock :=
  let threshold := if bk_Threshold b =? 0 then ts_Threshold current else bk_Threshold b in
  let threshold := if threshold =? 0 then DefaultTrustThreshold else threshold in
  let issued := if bk_IssuedAt b =? 0 then clock else bk_IssuedAt b in
  let effective := if bk_EffectiveAt b =? 0 then issued else bk_EffectiveAt b in
  let expires := if bk_ExpiresAt b =? 0 then issued + MaxTrustUpdateTTLSecond else bk_ExpiresAt b in
  let id := if is_blank (bk_BlockID b) then name (bk_Version b) issued else bk_BlockID b in
  mkBlock TrustUpdateMagic id (bk_Version b) (ts_StateHash current) issued effective expires threshold (bk_Operations b) (bk_Notes b) [].

(** [GenerateTrustUpdateBlock], before the block is written as JSON. *)
Definition GenerateTrustUpdateBlock `{!SortSlice sig_le} (current : TrustState) (rootPrivs : list (list Z)) (b : TrustUpdateBlock) (clock : Z) : res trust_err TrustUpdateBlock :=
  let b := complete_block current b clock (fun v t => ("trust_" ++ str_of (json_int v) ++ "_" ++ str_of (json_int t))%string) in
  sigs <-! sign_all rootPrivs (canonicalTrustUpdate b);
  let b := sorted_block b in
  Ok (mkBlock (bk_Magic b) (bk_BlockID b) (bk_Version b) (bk_PrevStateHash b) (bk_IssuedAt b) (bk_EffectiveAt b) (bk_ExpiresAt b)
        (bk_Threshold b) (bk_Operations b) (bk_Notes b) (sort_slice sigs)).
End blocks.
