(* ===== verification/TrustSpec.v ===== *)
(** * What a trust update can do

    Which blocks a trust state accepts, that the accepted blocks form a chain, that a
    revocation outlasts everything but another one; and that a block may set its own
    threshold, down to no signature at all. *)

From S2P Require Import Prelude Sha256 GoStr Trust.

#[local] Open Scope string_scope.
#[local] Open Scope list_scope.
#[local] Open Scope Z_scope.
#[local] Set Warnings "-clear-no-such-hyp".

Lemma Ed25519KeyID_printable pub : Forall printable (bytes_of (Ed25519KeyID pub)).
Proof.
  unfold Ed25519KeyID. rewrite bytes_of_app. apply Forall_app. split; [decided|].
  rewrite bytes_of_str_of by (apply Forall_take, bytes_of_ok). apply Forall_take, EncodeToString_printable, Sum256_ok.
Qed.

Section spec.
Context `{Ed25519, SS : !SortSlice op_le}.

(** ** Counting signatures *)

(** A root identifier with a signature of the block that its key verifies. *)
Definition endorses (msg : list Z) (sigs : list TrustSignature) (roots : gmap string (list Z)) (id : string) : Prop :=
  exists sig pub raw, sig ∈ sigs /\ TrimSpace (sg_RootKeyID sig) = id /\ roots !! id = Some pub
    /\ DecodeString (sg_SigB64URL sig) = Some raw /\ blen raw = SignatureSize /\ ed_verify pub msg raw = true.

Lemma counts_true msg roots seen sig : counts msg roots seen sig = true <->
  (TrimSpace (sg_RootKeyID sig) ∉ seen) /\ endorses msg [sig] roots (TrimSpace (sg_RootKeyID sig)).
Proof.
  unfold counts, endorses. case_bool_decide as Hs; [by split; [|intros [? _]]|]. split.
  - destruct (roots !! _) as [pub|] eqn:Er; [|done]. destruct (DecodeString _) as [raw|] eqn:Ed; [|done].
    intros [Hl Hv]%andb_true_iff. apply Z.eqb_eq in Hl. split; [done|]. exists sig, pub, raw. repeat split; try done. by left.
  - intros (_ & sig' & pub & raw & ->%list_elem_of_singleton & _ & -> & -> & -> & ->). done.
Qed.

Lemma endorses_cons msg sig sigs roots id : endorses msg (sig :: sigs) roots id <->
  (id = TrimSpace (sg_RootKeyID sig) /\ endorses msg [sig] roots id) \/ endorses msg sigs roots id.
Proof.
  split.
  - intros (s & pub & raw & [->|Hin]%elem_of_cons & Hid & Hrest); [left|right].
    + split; [done|]. exists sig, pub, raw. split; [by left|done].
    + by exists s, pub, raw.
  - intros [(-> & s & pub & raw & ->%list_elem_of_singleton & Hrest)|(s & pub & raw & Hin & Hrest)].
    + exists sig, pub, raw. split; [by left|done].
    + exists s, pub, raw. split; [by right|done].
Qed.

Lemma count_loop_spec msg sigs roots seen valid : exists X : gset string,
  count_loop msg sigs roots seen valid = valid + Z.of_nat (size X)
  /\ forall id, id ∈ X <-> (id ∉ seen) /\ endorses msg sigs roots id.
Proof.
  revert seen valid. induction sigs as [|sig sigs IH]; intros seen valid; cbn [count_loop].
  { exists ∅. rewrite size_empty. split; [lia|]. intros id. split; [set_solver|]. intros (_ & s & ? & ? & []%elem_of_nil & _). }
  destruct (counts msg roots seen sig) eqn:E.
  - apply counts_true in E as [Hns He]. destruct (IH ({[TrimSpace (sg_RootKeyID sig)]} ∪ seen) (valid + 1)) as (X & -> & HX).
    exists ({[TrimSpace (sg_RootKeyID sig)]} ∪ X). split.
    + rewrite size_union, size_singleton; [lia|]. intros id ->%elem_of_singleton Hin. apply HX in Hin as [Hn _]. set_solver.
    + intros id. rewrite elem_of_union, elem_of_singleton, HX, endorses_cons. destruct (decide (id = TrimSpace (sg_RootKeyID sig))) as [->|Hne]; [tauto|].
      rewrite elem_of_union, elem_of_singleton. tauto.
  - destruct (IH seen valid) as (X & -> & HX). exists X. split; [done|]. intros id. rewrite HX, endorses_cons. split; [tauto|].
    intros [Hns [[-> He]|He]]; [|done]. exfalso. assert (counts msg roots seen sig = true) by (apply counts_true; done). congruence.
Qed.

(** The count is the number of root identifiers that endorse the block. *)
Lemma countValidRootSignatures_spec msg sigs roots : exists X : gset string,
  countValidRootSignatures msg sigs roots = Z.of_nat (size X) /\ forall id, id ∈ X <-> endorses msg sigs roots id.
Proof.
  destruct (count_loop_spec msg sigs roots ∅ 0) as (X & Hc & HX). exists X. split; [done|]. intros id. rewrite HX. set_solver.
Qed.

(** ** What is accepted *)

Lemma block_header_ok b s now : validateTrustBlockHeader b s now = Ok tt ->
  bk_Magic b = TrustUpdateMagic /\ ts_Version s < bk_Version b /\ (ts_StateHash s <> "" -> bk_PrevStateHash b = ts_StateHash s)
  /\ 0 < bk_IssuedAt b /\ 0 < bk_EffectiveAt b /\ bk_IssuedAt b <= bk_ExpiresAt b <= bk_IssuedAt b + MaxTrustUpdateTTLSecond
  /\ bk_IssuedAt b - MaxClockSkewSeconds <= now <= bk_ExpiresAt b /\ 0 < Z.of_nat (length (bk_Operations b)) <= 128.
Proof.
  unfold validateTrustBlockHeader. case_bool_decide as Hm; cbn [negb orb]; [|done]. destruct (is_blank _); cbn [negb]; [done|].
  destruct (Z.leb_spec (bk_Version b) (ts_Version s)); cbn [negb]; [done|].
  destruct (is_empty (ts_StateHash s)) eqn:Eh; [|destruct (bool_decide (bk_PrevStateHash b = ts_StateHash s)) eqn:Eb]; cbn [negb andb]; try done.
  all: destruct (Z.leb_spec (bk_IssuedAt b) 0), (Z.leb_spec (bk_EffectiveAt b) 0), (Z.leb_spec (bk_ExpiresAt b) 0),
    (Z.ltb_spec (bk_ExpiresAt b) (bk_IssuedAt b)); cbn [negb orb]; try done.
  all: destruct (Z.ltb_spec MaxTrustUpdateTTLSecond (bk_ExpiresAt b - bk_IssuedAt b)); cbn [negb]; try done.
  all: destruct (Z.ltb_spec (now + MaxClockSkewSeconds) (bk_IssuedAt b)), (Z.ltb_spec (bk_ExpiresAt b) now); cbn [negb orb]; try done.
  all: destruct (Z.eqb_spec (Z.of_nat (length (bk_Operations b))) 0), (Z.ltb_spec 128 (Z.of_nat (length (bk_Operations b)))); cbn [negb orb]; try done.
  all: intros _; split; [done|]; split; [lia|]; split; [|repeat split; lia].
  - apply is_empty_spec in Eh. by intros [].
  - intros _. by apply bool_decide_eq_true in Eb.
Qed.

(** ** Operations *)

(** What no operation touches. *)
Lemma applyTrustOperation_frame s b o s' : applyTrustOperation s b o = Ok s' ->
  ts_Version s' = ts_Version s /\ ts_StateHash s' = ts_StateHash s /\ ts_PreviousHash s' = ts_PreviousHash s
  /\ ts_Threshold s' = ts_Threshold s /\ ts_UpdatedAt s' = ts_UpdatedAt s.
Proof.
  unfold applyTrustOperation. destruct (is_empty _); [done|].
  repeat (case_bool_decide; [try destruct (parseOperationPublicKey _ _) as [pub|]; cbn [rbind]; try done; intros [= <-]; done|]). done.
Qed.

Lemma applyOperations_frame b ops s s' : applyOperations b ops s = Ok s' ->
  ts_Version s' = ts_Version s /\ ts_StateHash s' = ts_StateHash s /\ ts_PreviousHash s' = ts_PreviousHash s
  /\ ts_Threshold s' = ts_Threshold s /\ ts_UpdatedAt s' = ts_UpdatedAt s.
Proof.
  revert s. induction ops as [|o ops IH]; intros s; cbn [applyOperations]; [by intros [= <-]|].
  destruct (applyTrustOperation s b o) as [s1|] eqn:E; cbn [rbind]; [|done].
  intros (-> & -> & -> & -> & ->)%IH. by apply (applyTrustOperation_frame s b o).
Qed.

Lemma applyOperations_app b ops1 ops2 s s' : applyOperations b (ops1 ++ ops2) s = Ok s' <->
  exists s1, applyOperations b ops1 s = Ok s1 /\ applyOperations b ops2 s1 = Ok s'.
Proof.
  revert s. induction ops1 as [|o ops1 IH]; intros s; cbn [app applyOperations].
  { split; [by exists s|]. by intros (s1 & [= <-] & ?). }
  destruct (applyTrustOperation s b o) as [s1|]; cbn [rbind]; [apply IH|]. by split; [|intros (? & ? & _)].
Qed.

(** The revocation table changes only by a revocation of the key. *)
Lemma applyTrustOperation_revoked s b o s' id : applyTrustOperation s b o = Ok s' ->
  ~ (op_Type o = "revoke_signer" /\ TrimSpace (op_KeyID o) = id) -> ts_RevokedSigners s' !! id = ts_RevokedSigners s !! id.
Proof.
  unfold applyTrustOperation. intros E Hn. destruct (is_empty _); [done|]. revert E.
  case_bool_decide; [destruct (parseOperationPublicKey _ _) as [pub|]; cbn [rbind]; [by intros [= <-]|done]|].
  case_bool_decide; [intros [= <-]; cbn [ts_RevokedSigners with_keys]; rewrite lookup_insert_ne; [done|tauto]|].
  case_bool_decide; [by intros [= <-]|].
  case_bool_decide; [destruct (parseOperationPublicKey _ _) as [pub|]; cbn [rbind]; [by intros [= <-]|done]|].
  case_bool_decide; [by intros [= <-]|done].
Qed.

(** A key becomes active only by being added. *)
Lemma applyTrustOperation_active s b o s' id : applyTrustOperation s b o = Ok s' -> op_Type o <> "add_signer" ->
  ts_ActiveSigners s !! id = None -> ts_ActiveSigners s' !! id = None.
Proof.
  unfold applyTrustOperation. intros E Hn Hid. destruct (is_empty _); [done|]. revert E.
  case_bool_decide; [done|].
  case_bool_decide; [intros [= <-]; cbn [ts_ActiveSigners with_keys]; rewrite lookup_delete_None; auto|].
  case_bool_decide; [intros [= <-]; cbn [ts_ActiveSigners with_keys]; rewrite lookup_delete_None; auto|].
  case_bool_decide; [destruct (parseOperationPublicKey _ _) as [pub|]; cbn [rbind]; [by intros [= <-]|done]|].
  case_bool_decide; [by intros [= <-]|done].
Qed.

(** A revocation by the block. *)
Definition revoked_by (s : TrustState) (b : TrustUpdateBlock) (id : string) : Prop :=
  exists r, ts_RevokedSigners s !! id = Some r /\ rv_EffectiveAt r = bk_EffectiveAt b /\ rv_RevokedAt r = bk_IssuedAt b /\ rv_BlockID r = bk_BlockID b.

Lemma revoke_operation s b o s' : applyTrustOperation s b o = Ok s' -> op_Type o = "revoke_signer" ->
  ts_ActiveSigners s' !! TrimSpace (op_KeyID o) = None /\ revoked_by s' b (TrimSpace (op_KeyID o)).
Proof.
  unfold applyTrustOperation. intros E Ht. destruct (is_empty _); [done|]. rewrite Ht in E. cbn in E. injection E as <-.
  cbn [ts_ActiveSigners ts_RevokedSigners with_keys]. split; [apply lookup_delete_eq|]. unfold revoked_by. cbn [ts_RevokedSigners with_keys].
  rewrite lookup_insert_eq. by eexists.
Qed.

(** Operations that add nobody keep a revocation of their block. *)
Lemma after_revocation b ops s s' id : applyOperations b ops s = Ok s' -> (forall o, o ∈ ops -> op_Type o <> "add_signer") ->
  ts_ActiveSigners s !! id = None -> revoked_by s b id -> ts_ActiveSigners s' !! id = None /\ revoked_by s' b id.
Proof.
  revert s. induction ops as [|o ops IH]; intros s; cbn [applyOperations]; [by intros [= <-]|].
  destruct (applyTrustOperation s b o) as [s1|] eqn:E; cbn [rbind]; [|done]. intros Ha Hn Hid Hr.
  apply (IH s1 Ha); [intros o' Ho'; apply Hn; by right|apply (applyTrustOperation_active s b o); [done|apply Hn; by left|done]|].
  destruct (decide (op_Type o = "revoke_signer" /\ TrimSpace (op_KeyID o) = id)) as [[Ht <-]|Hne]; [by apply (revoke_operation s b o s1 E)|].
  unfold revoked_by in *. by rewrite (applyTrustOperation_revoked s b o s1 id E).
Qed.

Lemma applyOperations_revoked b ops s s' id : applyOperations b ops s = Ok s' ->
  (forall o, o ∈ ops -> ~ (op_Type o = "revoke_signer" /\ TrimSpace (op_KeyID o) = id)) -> ts_RevokedSigners s' !! id = ts_RevokedSigners s !! id.
Proof.
  revert s. induction ops as [|o ops IH]; intros s; cbn [applyOperations]; [by intros [= <-]|].
  destruct (applyTrustOperation s b o) as [s1|] eqn:E; cbn [rbind]; [|done]. intros Ha Hn.
  rewrite (IH s1 Ha) by (intros o' Ho'; apply Hn; by right). apply (applyTrustOperation_revoked s b o); [done|apply Hn; by left].
Qed.

Lemma decode_active_elem s ids keys pub : decode_active s ids = Ok keys -> pub ∈ keys ->
  exists id, id ∈ ids /\ decode_key (default EmptyString (ts_ActiveSigners s !! id)) = Some pub.
Proof.
  revert keys. induction ids as [|id ids IH]; intros keys; cbn [decode_active]; [by intros [= <-] ?%elem_of_nil|].
  destruct (decode_key _) as [raw|] eqn:E; [|done]. destruct (decode_active s ids) as [rest|]; cbn [rbind]; [|done].
  intros [= <-] [->|Hin]%elem_of_cons; [exists id; split; [by left|done]|].
  destruct (IH rest eq_refl Hin) as (id' & ? & ?). exists id'. split; [by right|done].
Qed.

(** The state a block's operations start from. *)
Definition next_state (s : TrustState) (b : TrustUpdateBlock) (now : Z) : TrustState :=
  mkTrustState (bk_Version b) (ts_StateHash s) (ts_StateHash s)
    (if ts_Threshold s =? 0 then normalizeThreshold (bk_Threshold b) else ts_Threshold s)
    (ts_RootKeys s) (ts_ActiveSigners s) (ts_RetiredSigners s) (ts_RevokedSigners s) now.

Lemma ApplyBlock_ok s b conf now clock next : ApplyBlock s b conf now clock = Ok next <->
  let now := if now =? 0 then clock else now in
  validateTrustBlockHeader b s now = Ok tt
  /\ exists roots last, verificationRoots s conf = Ok roots
     /\ block_threshold b s <= countValidRootSignatures (canonicalTrustUpdate b) (bk_Signatures b) roots
     /\ applyOperations (sorted_block b) (sort_slice (bk_Operations b)) (next_state s b now) = Ok last /\ next = reseal last.
Proof.
  unfold ApplyBlock. cbv zeta. set (now' := if now =? 0 then clock else now).
  destruct (validateTrustBlockHeader b s now') as [[]|]; cbn [rbind]; [|by split; [|intros [? _]]].
  destruct (verificationRoots s conf) as [roots|]; cbn [rbind]; [|by split; [|intros (_ & ? & ? & ? & _)]].
  change (bk_Signatures (sorted_block b)) with (bk_Signatures b). change (block_threshold (sorted_block b) s) with (block_threshold b s).
  destruct (Z.ltb_spec (countValidRootSignatures (canonicalTrustUpdate b) (bk_Signatures b) roots) (block_threshold b s)); cbn [negb].
  { split; [done|]. intros (_ & ? & ? & [= <-] & ? & _). lia. }
  change (bk_Operations (sorted_block b)) with (sort_slice (bk_Operations b)).
  change (mkTrustState (bk_Version (sorted_block b)) _ _ _ _ _ _ _ _) with (next_state s b now').
  destruct (applyOperations _ _ _) as [last|]; cbn [rbind].
  - split; [intros [= <-]; split; [done|]; by exists roots, last|]. intros (_ & ? & ? & [= <-] & _ & [= <-] & ->). done.
  - split; [done|]. by intros (_ & ? & ? & [= <-] & _ & ? & _).
Qed.

Lemma ApplyBlock_keeps_revoked s b conf now clock next id r : ApplyBlock s b conf now clock = Ok next ->
  ts_RevokedSigners s !! id = Some r -> ~ (exists o, o ∈ bk_Operations b /\ op_Type o = "revoke_signer" /\ TrimSpace (op_KeyID o) = id) ->
  ts_RevokedSigners next !! id = Some r.
Proof.
  intros (_ & roots & last & _ & _ & Ha & ->)%ApplyBlock_ok Hr Hn. change (ts_RevokedSigners (reseal last)) with (ts_RevokedSigners last).
  rewrite (applyOperations_revoked _ _ _ _ _ Ha); [done|]. intros o Ho [H1 H2]. apply Hn. exists o.
  rewrite <- (sort_slice_perm (SortSlice := SS)). done.
Qed.

Lemma verifySeal_reseal s : verifySeal (reseal s) = true.
Proof. unfold verifySeal, reseal. apply orb_true_iff. right. apply bool_decide_eq_true. by destruct s. Qed.

(** C34: A block is accepted only inside its window, with a version above the state's, on the
    state whose seal it names, and endorsed by as many different roots as its threshold:
    identifiers of configured or stored root keys with a signature over the block that the
    key verifies.  The new state is sealed, carries the version and points back to the old
    seal. *)
Theorem accepted_block_is_endorsed s b conf now clock next : ApplyBlock s b conf now clock = Ok next ->
  (ts_Version s < ts_Version next /\ ts_Version next = bk_Version b)
  /\ (ts_StateHash s <> "" -> bk_PrevStateHash b = ts_StateHash s) /\ ts_PreviousHash next = ts_StateHash s
  /\ verifySeal next = true
  /\ (let t := if now =? 0 then clock else now in bk_IssuedAt b - MaxClockSkewSeconds <= t <= bk_ExpiresAt b)
  /\ exists roots (X : gset string), verificationRoots s conf = Ok roots /\ block_threshold b s <= Z.of_nat (size X)
     /\ forall id, id ∈ X -> endorses (canonicalTrustUpdate b) (bk_Signatures b) roots id.
Proof.
  intros (Hh & roots & last & Hr & Hc & Ha & ->)%ApplyBlock_ok.
  apply block_header_ok in Hh as (_ & Hv & Hp & _ & _ & _ & Ht & _).
  assert (ts_Version last = bk_Version b /\ ts_PreviousHash last = ts_StateHash s) as [E1 E2].
  { destruct (applyOperations_frame _ _ _ _ Ha) as (-> & _ & -> & _). done. }
  destruct (countValidRootSignatures_spec (canonicalTrustUpdate b) (bk_Signatures b) roots) as (X & HX & HinX).
  split; [unfold reseal, ensure; cbn; rewrite E1; lia|]. split; [done|]. split; [done|]. split; [apply verifySeal_reseal|].
  split; [done|]. exists roots, X. split; [done|]. split; [lia|]. intros id Hid. by apply HinX.
Qed.

(** ** Revocation *)

(** A block that revokes a key. *)
Definition revokes (b : TrustUpdateBlock) (id : string) : Prop :=
  exists o, o ∈ bk_Operations b /\ op_Type o = "revoke_signer" /\ TrimSpace (op_KeyID o) = id.

(** Revocation wins inside a block, whatever the order its operations come in: a key the
    block revokes is not active afterwards, even when the block adds it too, and is in the
    revocation table with the block's times. *)
Theorem revocation_wins s b conf now clock next id : ApplyBlock s b conf now clock = Ok next -> revokes b id ->
  ts_ActiveSigners next !! id = None
  /\ exists r, ts_RevokedSigners next !! id = Some r /\ rv_EffectiveAt r = bk_EffectiveAt b /\ rv_RevokedAt r = bk_IssuedAt b /\ rv_BlockID r = bk_BlockID b.
Proof.
  intros (_ & roots & last & _ & _ & Ha & ->)%ApplyBlock_ok (o & Hin & Ht & <-).
  change (ts_ActiveSigners (reseal last)) with (ts_ActiveSigners last). change (ts_RevokedSigners (reseal last)) with (ts_RevokedSigners last).
  rewrite <- (sort_slice_perm (SortSlice := SS)) in Hin. pose proof (sort_slice_sorted (bk_Operations b)) as Hs.
  apply list_elem_of_split in Hin as (l1 & l2 & E). rewrite E in Ha, Hs.
  apply applyOperations_app in Ha as (s1 & _ & Ha). cbn [applyOperations] in Ha.
  destruct (applyTrustOperation _ _ o) as [s2|] eqn:Eo; cbn [rbind] in Ha; [|done].
  apply revoke_operation in Eo as [Hact Hrev]; [|done].
  apply (after_revocation _ _ _ _ _ Ha); [|done|done].
  intros o' Ho' Hadd. assert (op_le o o') as Hle.
  { change (l1 ++ o :: l2) with (l1 ++ [o] ++ l2) in Hs. rewrite app_assoc in Hs. apply (StronglySorted_app_1_elem_of _ _ _ _ _ Hs); [|done].
    apply elem_of_app. right. by left. }
  unfold op_le in Hle. by rewrite Ht, Hadd in Hle.
Qed.

(** Accepted blocks one after the other, each with its clock. *)
Inductive accepted (conf : list (list Z)) : TrustState -> list TrustUpdateBlock -> TrustState -> Prop :=
  | accepted_nil s : accepted conf s [] s
  | accepted_cons s b bs now clock s' s'' : ApplyBlock s b conf now clock = Ok s' -> accepted conf s' bs s'' -> accepted conf s (b :: bs) s''.

(** A revocation lasts: whatever blocks follow, a key in the revocation table stays there
    with the same record unless one of them revokes it again; from the record's effective
    time on it counts as revoked, and no active key is handed out under its identifier, even
    when a later block adds it as a signer. *)
Theorem revocation_lasts conf s bs s' id r now : accepted conf s bs s' -> ts_RevokedSigners s !! TrimSpace id = Some r ->
  Forall (fun b => ~ revokes b (TrimSpace id)) bs -> rv_EffectiveAt r <= now ->
  ts_RevokedSigners s' !! TrimSpace id = Some r /\ IsRevoked s' id now = true
  /\ forall keys, ActivePublicKeys s' now = Ok keys -> forall pub, pub ∈ keys ->
       exists id', id' <> id /\ IsRevoked s' id' now = false /\ decode_key (default EmptyString (ts_ActiveSigners s' !! id')) = Some pub.
Proof.
  intros Hacc Hr Hb Hnow.
  assert (ts_RevokedSigners s' !! TrimSpace id = Some r) as Hr'.
  { revert Hr Hb. induction Hacc as [|s b bs t clock s1 s2 Ha Hacc IH]; intros Hr Hb; [done|].
    apply Forall_cons in Hb as [Hb Hbs]. apply IH; [|done]. by apply (ApplyBlock_keeps_revoked _ _ _ _ _ _ _ _ Ha). }
  assert (IsRevoked s' id now = true) as Hrev.
  { unfold IsRevoked. rewrite Hr'. apply orb_true_iff. right. by apply Z.leb_le. }
  split; [done|]. split; [done|]. intros keys Hk pub Hpub. apply (decode_active_elem _ _ _ _ Hk) in Hpub as (id' & Hid' & Hd).
  rewrite sort_strings_perm in Hid'. apply list_elem_of_filter in Hid' as [Hn _]. exists id'. split; [|done]. intros ->. congruence.
Qed.

(** ** The block's own threshold *)

Lemma Ed25519KeyID_trim pub : TrimSpace (Ed25519KeyID pub) = Ed25519KeyID pub.
Proof. apply TrimSpace_printable, Ed25519KeyID_printable. Qed.

(** The block that adds a key to the roots and asks for minus one signatures. *)
Definition takeover (s : TrustState) (pub : list Z) (now : Z) : TrustUpdateBlock :=
  mkBlock TrustUpdateMagic "x" (ts_Version s + 1) (ts_StateHash s) now now now (-1)
    [mkOperation "add_root" (Ed25519KeyID pub) (EncodeToString pub) "" "" 0] None [].

(** A block chooses its own threshold, and a negative one is met by no signature at all:
    whatever the state and its roots, a block without signatures adds any key to the root
    keys. *)
Theorem unsigned_block_adds_root s conf roots pub now clock : verificationRoots s conf = Ok roots ->
  bytes_ok pub -> blen pub = PublicKeySize -> 0 < now ->
  exists next, ApplyBlock s (takeover s pub now) conf now clock = Ok next
    /\ bk_Signatures (takeover s pub now) = [] /\ ts_RootKeys next !! Ed25519KeyID pub = Some (EncodeToString pub).
Proof.
  intros Hr Hb Hl Hnow. set (o := mkOperation "add_root" (Ed25519KeyID pub) (EncodeToString pub) "" "" 0).
  assert (sort_slice [o] = [o]) as Hsort by (apply Permutation_singleton_r, sort_slice_perm).
  assert (parseOperationPublicKey o (Ed25519KeyID pub) = Ok pub) as Hp.
  { unfold parseOperationPublicKey, o. cbn [op_PublicKeyB64]. rewrite TrimSpace_printable by by apply EncodeToString_printable.
    by rewrite DecodeString_EncodeToString, Hl, Z.eqb_refl, bool_decide_eq_true_2. }
  eexists. split; [|split; [done|]].
  - apply ApplyBlock_ok. destruct (Z.eqb_spec now 0) as [|_]; [lia|]. split.
    { unfold validateTrustBlockHeader, takeover. cbn [bk_Magic bk_BlockID bk_Version bk_PrevStateHash bk_IssuedAt bk_EffectiveAt bk_ExpiresAt bk_Operations length].
      rewrite !bool_decide_eq_true_2 by done. change (is_blank "x") with false. cbn [negb orb]. rewrite andb_false_r. cbn [negb].
      destruct (Z.leb_spec (ts_Version s + 1) (ts_Version s)); [lia|]. cbn [negb]. destruct (Z.leb_spec now 0); [lia|].
      rewrite Z.ltb_irrefl. cbn [negb orb]. rewrite Z.sub_diag. change (MaxTrustUpdateTTLSecond <? 0) with false. cbn [negb].
      unfold MaxClockSkewSeconds. destruct (Z.ltb_spec (now + 10 * 60) now); [lia|]. done. }
    exists roots. eexists. split; [done|]. split; [done|]. split; [|reflexivity].
    change (bk_Operations (takeover s pub now)) with [o]. rewrite Hsort. cbn [applyOperations]. unfold applyTrustOperation.
    change (op_KeyID o) with (Ed25519KeyID pub). rewrite Ed25519KeyID_trim. change (is_empty (Ed25519KeyID pub)) with false.
    change (op_Type o) with "add_root". rewrite Hp. cbn [bool_decide decide_rel rbind]. reflexivity.
  - cbn [ts_RootKeys reseal ensure set_hash with_keys]. apply lookup_insert_eq.
Qed.

(** ** Blocks that are made are accepted *)

(** The type and key of an operation, which is what sorting looks at. *)
Definition op_key (o : TrustOperation) : string * string := (op_Type o, op_KeyID o).

Lemma op_le_antisymm a b : op_le a b -> op_le b a -> op_key a = op_key b.
Proof.
  unfold op_le, op_key. case_bool_decide as E.
  - rewrite bool_decide_eq_true_2 by done. intros H1 H2. f_equal; [done|]. by apply (anti_symm str_le).
  - rewrite bool_decide_eq_false_2 by congruence. intros H1 H2. by destruct E; apply (anti_symm str_le).
Qed.

(** Sorting twice is sorting once when no two operations have the same type and key. *)
Lemma sort_ops_idemp (ops : list TrustOperation) : NoDup (op_key <$> ops) -> sort_slice (sort_slice ops) = sort_slice ops.
Proof.
  intros Hn. apply (StronglySorted_unique_strong op_le); [|apply sort_slice_sorted..|apply sort_slice_perm].
  intros a b Ha Hb H1 H2. pose proof (op_le_antisymm a b H1 H2) as E.
  rewrite (sort_slice_perm (sort_slice ops)), (sort_slice_perm ops) in Ha. rewrite (sort_slice_perm ops) in Hb.
  apply list_elem_of_lookup_1 in Ha as [i Hi]. apply list_elem_of_lookup_1 in Hb as [j Hj].
  assert (i = j) as ->; [|by rewrite Hi in Hj; injection Hj]. eapply NoDup_lookup; [exact Hn|by rewrite list_lookup_fmap, Hi|by rewrite list_lookup_fmap, Hj, E].
Qed.

(** A private key whose signatures its public half verifies. *)
Definition key_pair (priv : list Z) : Prop := blen priv = PrivateKeySize
  /\ forall msg, bytes_ok (ed_sign priv msg) /\ blen (ed_sign priv msg) = SignatureSize /\ ed_verify (public_key priv) msg (ed_sign priv msg) = true.

Lemma sign_all_ok privs msg sigs : sign_all privs msg = Ok sigs ->
  sigs = (fun priv => mkSignature (Ed25519KeyID (public_key priv)) (EncodeToString (ed_sign priv msg))) <$> privs.
Proof.
  revert sigs. induction privs as [|priv privs IH]; intros sigs; cbn [sign_all]; [by intros [= <-]|].
  destruct (negb _); [done|]. destruct (sign_all privs msg) as [rest|]; cbn [rbind]; [|done]. intros [= <-]. by rewrite (IH rest eq_refl).
Qed.

Lemma signatures_count (privs : list (list Z)) msg roots sigs : Forall key_pair privs -> sign_all privs msg = Ok sigs ->
  (forall priv, priv ∈ privs -> roots !! Ed25519KeyID (public_key priv) = Some (public_key priv)) ->
  NoDup ((fun priv => Ed25519KeyID (public_key priv)) <$> privs) -> forall sigs', sigs' ≡ₚ sigs ->
  Z.of_nat (length privs) <= countValidRootSignatures msg sigs' roots.
Proof.
  intros Hk Hs Hr Hn sigs' Hp. apply sign_all_ok in Hs as ->. destruct (countValidRootSignatures_spec msg sigs' roots) as (X & -> & HX).
  rewrite <- (length_fmap (fun priv => Ed25519KeyID (public_key priv)) privs), <- (size_list_to_set (C := gset string)) by done.
  apply inj_le, subseteq_size. intros id (priv & -> & Hin)%elem_of_list_to_set%list_elem_of_fmap. apply HX.
  rewrite Forall_forall in Hk. destruct (Hk priv Hin) as [_ Hsig]. destruct (Hsig msg) as (Hb & Hl & Hv).
  exists (mkSignature (Ed25519KeyID (public_key priv)) (EncodeToString (ed_sign priv msg))), (public_key priv), (ed_sign priv msg).
  split; [rewrite Hp; apply list_elem_of_fmap; by exists priv|]. cbn [sg_RootKeyID sg_SigB64URL].
  split; [apply Ed25519KeyID_trim|]. split; [by apply Hr|]. split; [by apply DecodeString_EncodeToString|done].
Qed.

(** A block made for a state is accepted by it: made with as many different root keys as its
    threshold, no operation twice, a header the state admits and operations that apply, it
    passes, signatures and all, and leads to the state its operations say. *)
Theorem generated_block_is_accepted `{!SortSlice sig_le} s privs b clock blk conf now roots last :
  GenerateTrustUpdateBlock s privs b clock = Ok blk -> Forall key_pair privs ->
  verificationRoots s conf = Ok roots -> NoDup ((fun priv => Ed25519KeyID (public_key priv)) <$> privs) ->
  (forall priv, priv ∈ privs -> roots !! Ed25519KeyID (public_key priv) = Some (public_key priv)) ->
  block_threshold blk s <= Z.of_nat (length privs) -> NoDup (op_key <$> bk_Operations b) -> 0 < now ->
  validateTrustBlockHeader blk s now = Ok tt -> applyOperations blk (bk_Operations blk) (next_state s blk now) = Ok last ->
  ApplyBlock s blk conf now clock = Ok (reseal last).
Proof.
  intros Hg Hk Hr Hn Hroots Ht Hops Hnow Hh Ha. apply ApplyBlock_ok. destruct (Z.eqb_spec now 0); [lia|]. split; [done|].
  unfold GenerateTrustUpdateBlock in Hg. cbv zeta in Hg. set (c := complete_block s b clock _) in *.
  destruct (sign_all privs (canonicalTrustUpdate c)) as [sigs|] eqn:Es; cbn [rbind] in Hg; [|done]. injection Hg as Hb.
  assert (bk_Operations blk = sort_slice (bk_Operations b)) as Eo by by rewrite <- Hb.
  assert (sort_slice (bk_Operations blk) = bk_Operations blk) as E by (rewrite Eo; by apply sort_ops_idemp).
  assert (sorted_block blk = blk) as Eb by (unfold sorted_block; rewrite E; by destruct blk).
  assert (canonicalTrustUpdate blk = canonicalTrustUpdate c) as Ec.
  { unfold canonicalTrustUpdate. rewrite Eb, <- Hb. reflexivity. }
  exists roots, last. split; [done|]. split.
  - etrans; [exact Ht|]. rewrite Ec. eapply signatures_count; [done..|]. rewrite <- Hb. apply sort_slice_perm.
  - rewrite E, Eb. done.
Qed.
End spec.
