(* ===== verification/Profile.v ===== *)
(** * Profiles ([pkg/profile/profile.go], [pkg/profile/normalize.go])

    The record of an outbound profile and the normalisation that a profile must pass to be
    distributed.  The lower case of letters outside ASCII is a parameter. *)

From S2P Require Import Prelude Float64 GoStr.

#[local] Open Scope string_scope.
#[local] Open Scope list_scope.
#[local] Open Scope Z_scope.

Definition FamilyReality : string := "reality".
Definition FamilyHysteria2 : string := "hysteria2".
Definition FamilyTUIC : string := "tuic".
Definition FamilyShadowTLS : string := "shadowtls".
Definition FamilyDNS : string := "dns_tunnel".

Record Endpoint := mkEndpoint {
  ep_Host : string;
  ep_Port : Z;
  ep_IPVersion : string;
}.

(** A nil slice of tags is [None]. *)
Record Capabilities := mkCapabilities {
  ca_Transport : string;
  ca_DPIResistanceTags : option (list string);
  ca_BandwidthClass : string;
}.

Record Credentials := mkCredentials {
  cr_UUID : string;
  cr_Password : string;
  cr_PublicKey : string;
  cr_ShortID : string;
  cr_SNI : string;
  cr_UTLSFingerprint : string;
  cr_ObfsPassword : string;
}.

Record MutationPolicy := mkMutationPolicy {
  mp_AllowedSets : option (list string);
  mp_MaxMutationsPerHour : Z;
}.

Record Health := mkHealth {
  he_Score : float;
  he_SuccessEWMA : float;
  he_MedianHandshakeMs : Z;
  he_LastOkAt : Z;
  he_LastFailAt : Z;
  he_LastFailReason : string;
  he_CooldownUntil : Z;
  he_FailureCount : Z;
  he_ConsecutiveFails : Z;
}.

Definition zeroHealth : Health := mkHealth 0 0 0 0 0 EmptyString 0 0 0.

Record SourceInfo := mkSource {
  so_Source : string;
  so_TrustLevel : Z;
  so_ImportedAt : Z;
  so_PublisherKey : string;
}.

#[export] Instance Endpoint_eq_dec : EqDecision Endpoint.
Proof. solve_decision. Defined.
#[export] Instance Capabilities_eq_dec : EqDecision Capabilities.
Proof. solve_decision. Defined.
#[export] Instance Credentials_eq_dec : EqDecision Credentials.
Proof. solve_decision. Defined.
#[export] Instance MutationPolicy_eq_dec : EqDecision MutationPolicy.
Proof. solve_decision. Defined.
#[export] Instance SourceInfo_eq_dec : EqDecision SourceInfo.
Proof. solve_decision. Defined.

Record Profile := mkProfile {
  pr_ID : string;
  pr_Family : string;
  pr_Enabled : bool;
  pr_ManualDisabled : bool;
  pr_CreatedAt : Z;
  pr_ExpiresAt : Z;
  pr_Priority : Z;
  pr_TemplateRef : string;
  pr_Endpoint : Endpoint;
  pr_Capabilities : Capabilities;
  pr_Credentials : Credentials;
  pr_Source : SourceInfo;
  pr_Notes : string;
  pr_MutationPolicy : MutationPolicy;
  pr_Health : Health;
}.

(** ** Strings *)

Definition is_ascii (s : string) : bool := forallb (fun c => c <? 128) (bytes_of s).
Definition lower_byte (c : Z) : Z := if (65 <=? c) && (c <=? 90) then c + 32 else c.

(** [strings.ToLower]; [unicode_lower] is what it does when a byte is not ASCII. *)
Class UnicodeLower := unicode_lower : string -> string.

Definition ToLower `{UnicodeLower} (s : string) : string :=
  if is_ascii s then str_of (map lower_byte (bytes_of s)) else unicode_lower s.

Definition lower_or_digit (c : Z) : bool := ((97 <=? c) && (c <=? 122)) || ((48 <=? c) && (c <=? 57)).

(** The patterns of identifiers and tags. *)
Definition profileIDPattern (s : string) : bool :=
  match bytes_of s with
  | [] => false
  | c :: r => lower_or_digit c && (blen r <=? 127) && forallb (fun c => lower_or_digit c || (c =? 46) || (c =? 95) || (c =? 45)) r
  end.
Definition tagPattern (s : string) : bool :=
  negb (is_empty s) && (slen s <=? 64) && forallb (fun c => lower_or_digit c || (c =? 95)) (bytes_of s).

(** [strings.Contains] and [strings.ContainsAny] with ASCII characters. *)
Fixpoint contains_bytes (p b : list Z) : bool :=
  match strip_prefix p b with
  | Some _ => true
  | None => match b with [] => false | _ :: b' => contains_bytes p b' end
  end.
Definition Contains (s p : string) : bool := contains_bytes (bytes_of p) (bytes_of s).
Definition ContainsAny (s chars : string) : bool := existsb (fun c => bool_decide (c ∈ bytes_of chars)) (bytes_of s).

Definition one_of (s : string) (l : list string) : bool := bool_decide (s ∈ l).

(** ** Normalisation *)

Section normalize.
Context `{UnicodeLower}.

Definition normalizeFamily (f : string) : option string :=
  let s := TrimSpace (ToLower f) in
  if one_of s [FamilyReality; FamilyHysteria2; FamilyTUIC; FamilyShadowTLS; FamilyDNS] then Some s
  else if bool_decide (s = "hy2") then Some FamilyHysteria2
  else None.

Definition validateTransport (fam transport : string) : bool :=
  if one_of fam [FamilyReality; FamilyShadowTLS] then one_of transport ["tcp"]
  else if one_of fam [FamilyHysteria2; FamilyTUIC] then one_of transport ["udp"; "quic"]
  else if one_of fam [FamilyDNS] then one_of transport ["udp"; "tcp"]
  else false.

(** The tags lower-cased and trimmed in the order given, neighbours that are equal merged;
    [last] is the last one written. *)
Fixpoint unique_loop (l : list string) (last : option string) : list string :=
  match l with
  | [] => []
  | t :: l' =>
      let t := ToLower (TrimSpace t) in
      if is_empty t then unique_loop l' last
      else if bool_decide (last = Some t) then unique_loop l' last
      else t :: unique_loop l' (Some t)
  end.

Definition uniqueSortedTags (l : list string) : option (list string) :=
  match unique_loop l None with [] => None | out => Some out end.

(** The credentials a family needs. *)
Definition required_credentials (fam : string) (c : Credentials) : option (list string) :=
  if bool_decide (fam = FamilyReality) then Some [cr_UUID c; cr_PublicKey c; cr_ShortID c; cr_SNI c; cr_UTLSFingerprint c]
  else if bool_decide (fam = FamilyHysteria2) then Some [cr_Password c; cr_ObfsPassword c; cr_SNI c]
  else if bool_decide (fam = FamilyTUIC) then Some [cr_UUID c; cr_Password c; cr_SNI c]
  else if one_of fam [FamilyShadowTLS; FamilyDNS] then Some []
  else None.

Definition validateCredentials (fam : string) (c : Credentials) : bool :=
  match required_credentials fam c with
  | Some l => forallb (fun s => negb (is_blank s)) l
  | None => false
  end.

(** The errors, by message. *)
Inductive profile_err := EProfile (message : string).

Notation "'fail!' b 'with' m ; k" := (if b then Err (EProfile m) else k)
  (at level 100, b at next level, m at next level, right associativity).

(** [NormalizeForWire]. *)
Definition NormalizeForWire (p : Profile) (now : Z) : res profile_err Profile :=
  let id := TrimSpace (ToLower (pr_ID p)) in
  fail! is_empty id with "missing id";
  fail! negb (profileIDPattern id) with "invalid id";
  match normalizeFamily (pr_Family p) with
  | None => Err (EProfile "unsupported family")
  | Some fam =>
      let host := ToLower (TrimSpace (ep_Host (pr_Endpoint p))) in
      let port := ep_Port (pr_Endpoint p) in
      fail! is_empty host with "missing endpoint.host";
      fail! (port <=? 0) || (65535 <? port) with "invalid endpoint.port";
      let ip := ToLower (TrimSpace (ep_IPVersion (pr_Endpoint p))) in
      let ip := if is_empty ip then "dual" else ip in
      fail! negb (one_of ip ["v4"; "v6"; "dual"]) with "invalid endpoint.ip_version";
      let tref := TrimSpace (pr_TemplateRef p) in
      fail! Contains tref ".." with "invalid template_ref";
      fail! ContainsAny tref "/\" with "invalid template_ref";
      let transport := TrimSpace (ToLower (ca_Transport (pr_Capabilities p))) in
      fail! is_empty transport with "missing capabilities.transport";
      fail! negb (validateTransport fam transport) with "invalid transport for family";
      let bw := ToLower (TrimSpace (ca_BandwidthClass (pr_Capabilities p))) in
      fail! negb (one_of bw [""; "low"; "medium"; "high"]) with "invalid capabilities.bandwidth_class";
      let tags := uniqueSortedTags (sort_strings (default [] (ca_DPIResistanceTags (pr_Capabilities p)))) in
      fail! negb (forallb tagPattern (default [] tags)) with "invalid capabilities.dpi_resistance_tags";
      let source := TrimSpace (so_Source (pr_Source p)) in
      let trust := so_TrustLevel (pr_Source p) in
      fail! is_empty source with "missing source.source";
      fail! (trust <=? 0) || (100 <? trust) with "invalid source.trust_level";
      let imported := if so_ImportedAt (pr_Source p) =? 0 then now else so_ImportedAt (pr_Source p) in
      fail! imported <? 0 with "invalid source.imported_at";
      fail! negb (validateCredentials fam (pr_Credentials p)) with "missing credentials";
      let created := if pr_CreatedAt p =? 0 then now else pr_CreatedAt p in
      fail! created <? 0 with "invalid created_at";
      fail! negb (pr_ExpiresAt p =? 0) && (pr_ExpiresAt p <=? now) with "expired profile";
      fail! negb (pr_ExpiresAt p =? 0) && (pr_ExpiresAt p <? created) with "invalid expires_at";
      fail! (pr_Priority p <? -100) || (100 <? pr_Priority p) with "invalid priority";
      Ok (mkProfile id fam true false created (pr_ExpiresAt p) (pr_Priority p) tref (mkEndpoint host port ip)
            (mkCapabilities transport tags bw) (pr_Credentials p) (mkSource source trust imported (so_PublisherKey (pr_Source p)))
            (TrimSpace (pr_Notes p)) (pr_MutationPolicy p) zeroHealth)
  end.

(** The array of tags is sorted in place: what the caller's profile holds afterwards, when
    the sort is reached. *)
Definition caller_tags (p : Profile) : option (list string) :=
  match ca_DPIResistanceTags (pr_Capabilities p) with None => None | Some l => Some (sort_strings l) end.
End normalize.
