(* ===== verification/ProfileSpec.v ===== *)
(** * What a normalised profile is

    The bounds and shapes [NormalizeForWire] gives, and when normalising again changes
    nothing. *)

From S2P Require Import Prelude Float64 GoStr Profile.

#[local] Open Scope string_scope.
#[local] Open Scope list_scope.
#[local] Open Scope Z_scope.
#[local] Set Warnings "-clear-no-such-hyp".

(** ** Lower case *)

Lemma lower_byte_idemp c : lower_byte (lower_byte c) = lower_byte c.
Proof. unfold lower_byte. destruct (Z.leb_spec 65 c), (Z.leb_spec c 90); cbn [andb]; try lia;
  destruct (Z.leb_spec 65 (c + 32)), (Z.leb_spec (c + 32) 90); cbn [andb]; try lia;
  destruct (Z.leb_spec 65 c), (Z.leb_spec c 90); cbn [andb]; lia. Qed.

Lemma is_ascii_spec s : is_ascii s = true <-> Forall (fun c => c < 128) (bytes_of s).
Proof. unfold is_ascii. rewrite forallb_true. split; intros Hs; (eapply Forall_impl; [exact Hs|]); cbn beta; lia. Qed.

(** Characters that are their own lower case. *)
Definition lowered (c : Z) : Prop := c < 128 /\ lower_byte c = c.

Section lower.
Context `{UnicodeLower}.

Lemma ToLower_lowered s : Forall lowered (bytes_of s) -> ToLower s = s.
Proof.
  intros Hs. unfold ToLower. rewrite (proj2 (is_ascii_spec s)) by (eapply Forall_impl; [exact Hs|by intros ? []]).
  rewrite <- (str_of_bytes_of s) at 2. f_equal. induction Hs as [|c l [_ Hc] Hl IH]; [done|]. simpl. by rewrite Hc, IH.
Qed.

Lemma ascii_range s : is_ascii s = true -> Forall (fun c => 0 <= c < 128) (bytes_of s).
Proof.
  intros Hs%is_ascii_spec. pose proof (bytes_of_ok s) as Hb. unfold bytes_ok, is_u8 in Hb. rewrite Forall_forall in Hs, Hb. apply Forall_forall. intros c Hc.
  specialize (Hs c Hc). specialize (Hb c Hc). lia.
Qed.

Lemma bytes_of_ToLower s : is_ascii s = true -> bytes_of (ToLower s) = map lower_byte (bytes_of s).
Proof.
  intros Hs. unfold ToLower. rewrite Hs. apply bytes_of_str_of, Forall_map. apply ascii_range in Hs.
  eapply Forall_impl; [exact Hs|]. unfold is_u8, lower_byte. cbn beta. intros c Hr. destruct (_ && _) eqn:E; lia.
Qed.

Lemma ToLower_ascii s : is_ascii s = true -> Forall lowered (bytes_of (ToLower s)).
Proof.
  intros Hs. rewrite bytes_of_ToLower by done. apply Forall_map. apply ascii_range in Hs. eapply Forall_impl; [exact Hs|].
  unfold lowered. cbn beta. intros c Hr. rewrite lower_byte_idemp. split; [|done]. unfold lower_byte. destruct (_ && _) eqn:E; lia.
Qed.

(** Trimmed lower-case ASCII text is what both functions leave alone. *)
Definition settled (s : string) : Prop := ToLower s = s /\ TrimSpace s = s.

Lemma settled_lower_trim s : settled s -> ToLower (TrimSpace s) = s /\ TrimSpace (ToLower s) = s.
Proof. intros [H1 H2]. split; by rewrite ?H1, ?H2, ?H1. Qed.

(** Letters, digits and the punctuation of identifiers. *)
Lemma word_settled s : Forall (fun c => lower_or_digit c = true \/ c ∈ [46; 95; 45]) (bytes_of s) -> settled s.
Proof.
  intros Hs. split.
  - apply ToLower_lowered. eapply Forall_impl; [exact Hs|]. unfold lowered, lower_byte, lower_or_digit. cbn beta.
    intros c [Hc|Hc]; [|set_unfold]; split; try lia; destruct (Z.leb_spec 65 c), (Z.leb_spec c 90); cbn [andb]; lia.
  - apply TrimSpace_printable. eapply Forall_impl; [exact Hs|]. unfold printable, lower_or_digit. cbn beta.
    intros c [Hc|Hc]; [|set_unfold]; lia.
Qed.

Lemma tag_settled t : tagPattern t = true -> settled t.
Proof.
  unfold tagPattern. intros [_ Hf]%andb_true_iff. apply word_settled. rewrite forallb_true in Hf.
  eapply Forall_impl; [exact Hf|]. cbn beta. intros c [Hc|Hc]%orb_true_iff; [by left|]. right. set_unfold. lia.
Qed.

Lemma id_settled s : profileIDPattern s = true -> settled s.
Proof.
  unfold profileIDPattern. intros Hp. apply word_settled. destruct (bytes_of s) as [|c r]; [done|].
  apply andb_true_iff in Hp as [[Hc _]%andb_true_iff Hr]. constructor; [by left|]. rewrite forallb_true in Hr.
  eapply Forall_impl; [exact Hr|]. cbn beta. intros x Hx. unfold lower_or_digit in *. set_unfold. lia.
Qed.

(** Sequences without letters are found in the lower case where they are in the text. *)
Definition no_letters (p : list Z) : bool := forallb (fun x => (x <? 65) || (122 <? x)) p.

Lemma strip_prefix_lower p b : no_letters p = true -> strip_prefix p b = None -> strip_prefix p (map lower_byte b) = None.
Proof.
  revert b. induction p as [|x p IH]; intros b Hp; [done|]. cbn [no_letters forallb] in Hp. apply andb_true_iff in Hp as [Hx Hp].
  destruct b as [|y b]; [done|]. cbn [map strip_prefix].
  assert ((x =? lower_byte y) = true -> x = y) as Hy by (unfold lower_byte; destruct (_ && _) eqn:E; lia).
  destruct (x =? lower_byte y); [|done]. rewrite (Hy eq_refl), Z.eqb_refl. by apply IH.
Qed.

Lemma strip_any_lower ps b : forallb no_letters ps = true -> strip_any ps b = None -> strip_any ps (map lower_byte b) = None.
Proof.
  rewrite forallb_true, Forall_forall, !strip_any_None. intros Hps Hn p Hp. apply strip_prefix_lower; [by apply Hps|by apply Hn].
Qed.

Lemma lower_trim_settled s : is_ascii s = true -> settled (ToLower (TrimSpace s)).
Proof.
  intros Hs. apply is_ascii_spec in Hs. destruct (trim_bytes_spec (bytes_of s)) as (_ & _ & _ & Hn & Hm).
  assert (is_ascii (TrimSpace s) = true) as Ht by (apply is_ascii_spec; rewrite bytes_of_TrimSpace; by apply trim_bytes_Forall).
  pose proof (ToLower_ascii _ Ht) as Hl. split; [by apply ToLower_lowered|].
  unfold TrimSpace at 1, trim_bytes. rewrite bytes_of_ToLower, bytes_of_TrimSpace by done.
  rewrite (trim_front_stop _ space_seqs) by (apply strip_any_lower; [by vm_compute|done]).
  rewrite (trim_front_stop _ (map reverse space_seqs)), reverse_involutive, <- bytes_of_TrimSpace, <- bytes_of_ToLower by
    (done || (rewrite <- (fmap_reverse lower_byte); apply strip_any_lower; [by vm_compute|done])).
  apply str_of_bytes_of.
Qed.

(** ** Tags *)

Definition tag_lt (s t : string) : Prop := str_le s t /\ s <> t.

(** The tags of a normalised profile: well-formed, in order, none twice, nil when none. *)
Definition tags_normal (tags : option (list string)) : Prop :=
  match tags with
  | None => True
  | Some l => l <> [] /\ Forall (fun t => tagPattern t = true) l /\ StronglySorted tag_lt l
  end.

Lemma tag_nonempty t : tagPattern t = true -> is_empty t = false.
Proof. unfold tagPattern. by destruct (is_empty t). Qed.

Lemma tag_lower_trim t : tagPattern t = true -> ToLower (TrimSpace t) = t.
Proof. intros Ht. apply settled_lower_trim. by apply tag_settled. Qed.

(** On sorted clean tags the loop leaves out what is there twice. *)
Lemma unique_loop_sorted l last : Forall (fun t => tagPattern t = true) l -> StronglySorted str_le l ->
  (forall u t, last = Some u -> t ∈ l -> str_le u t) ->
  StronglySorted tag_lt (unique_loop l last) /\ forall t, t ∈ unique_loop l last -> t ∈ l /\ forall u, last = Some u -> tag_lt u t.
Proof.
  intros Hl Hs. revert last. induction Hs as [|t l Hs IH Ht]; intros last Hlast; [by split; [constructor|intros t []%elem_of_nil]|].
  apply Forall_cons in Hl as [Hp Hl]. cbn [unique_loop]. rewrite tag_lower_trim, tag_nonempty by done. rewrite Forall_forall in Ht.
  case_bool_decide as E.
  - destruct (IH Hl last) as [H1 H2]; [intros u t' Hu Ht'; apply (Hlast u t' Hu); by right|]. split; [done|].
    intros t' Ht'. destruct (H2 t' Ht') as [Hin Hlt]. split; [by right|done].
  - destruct (IH Hl (Some t)) as [H1 H2]; [intros u t' [= <-]; by apply Ht|]. split.
    + constructor; [done|]. apply Forall_forall. intros t' Ht'. by apply (H2 t' Ht').
    + intros t' [->|Ht']%elem_of_cons.
      * split; [by left|]. intros u ->. split; [apply Hlast; [done|by left]|congruence].
      * destruct (H2 t' Ht') as [Hin Hlt]. split; [by right|]. intros u ->. destruct (Hlt t eq_refl) as [Hle Hne].
        assert (str_le u t) as Hut by (apply Hlast; [done|by left]). split; [by trans t|]. intros ->. apply Hne. by apply (anti_symm str_le).
Qed.

Lemma unique_loop_strict l last : Forall (fun t => tagPattern t = true) l -> StronglySorted tag_lt l ->
  (forall u, last = Some u -> u ∉ l) -> unique_loop l last = l.
Proof.
  intros Hl Hs. revert last. induction Hs as [|t l Hs IH Ht]; intros last Hlast; [done|].
  apply Forall_cons in Hl as [Hp Hl]. cbn [unique_loop]. rewrite tag_lower_trim, tag_nonempty by done. rewrite bool_decide_eq_false_2.
  - f_equal. apply IH; [done|]. intros u [= <-] Hin. rewrite Forall_forall in Ht. by destruct (Ht t Hin).
  - intros ->. apply (Hlast t eq_refl). by left.
Qed.

Lemma tag_lt_sort l : StronglySorted tag_lt l -> sort_strings l = l.
Proof.
  intros Hs. apply (StronglySorted_unique str_le); [by apply (StronglySorted_merge_sort str_le)| |apply sort_strings_perm].
  clear -Hs. induction Hs as [|t l Hs IH Ht]; constructor; [done|]. eapply Forall_impl; [exact Ht|]. by intros ? [].
Qed.

(** Clean tags, in any order and however often, come out in normal form. *)
Lemma clean_tags_normal (tags : option (list string)) : Forall (fun t => tagPattern t = true) (default [] tags) ->
  tags_normal (uniqueSortedTags (sort_strings (default [] tags))).
Proof.
  intros Hl. assert (Forall (fun t => tagPattern t = true) (sort_strings (default [] tags))) as Hl' by by rewrite sort_strings_perm.
  destruct (unique_loop_sorted (sort_strings (default [] tags)) None) as [H1 H2]; [done|apply (StronglySorted_merge_sort str_le)|done|].
  unfold uniqueSortedTags. destruct (unique_loop _ None) as [|t l] eqn:E; [done|]. split; [done|]. split; [|done].
  rewrite Forall_forall in Hl'. apply Forall_forall. intros t' Ht'. apply Hl'. by apply H2.
Qed.

Lemma tags_normal_fixed tags : tags_normal tags -> uniqueSortedTags (sort_strings (default [] tags)) = tags.
Proof.
  destruct tags as [l|]; [|done]. intros (Hn & Hl & Hs). cbn [default from_option id]. rewrite tag_lt_sort by done.
  unfold uniqueSortedTags. rewrite unique_loop_strict by done. by destruct l.
Qed.

(** ** Normalised profiles *)

(** What is safe to distribute at a time. *)
Record wire_safe (p : Profile) (now : Z) : Prop := {
  ws_id : profileIDPattern (pr_ID p) = true;
  ws_family : pr_Family p ∈ [FamilyReality; FamilyHysteria2; FamilyTUIC; FamilyShadowTLS; FamilyDNS];
  ws_host : ep_Host (pr_Endpoint p) <> "";
  ws_port : 1 <= ep_Port (pr_Endpoint p) <= 65535;
  ws_ip : ep_IPVersion (pr_Endpoint p) ∈ ["v4"; "v6"; "dual"];
  ws_template : TrimSpace (pr_TemplateRef p) = pr_TemplateRef p /\ Contains (pr_TemplateRef p) ".." = false
    /\ ContainsAny (pr_TemplateRef p) "/\" = false;
  ws_transport : validateTransport (pr_Family p) (ca_Transport (pr_Capabilities p)) = true;
  ws_bandwidth : ca_BandwidthClass (pr_Capabilities p) ∈ [""; "low"; "medium"; "high"];
  ws_tags : Forall (fun t => tagPattern t = true) (default [] (ca_DPIResistanceTags (pr_Capabilities p)));
  ws_source : TrimSpace (so_Source (pr_Source p)) = so_Source (pr_Source p) /\ so_Source (pr_Source p) <> "";
  ws_trust : 1 <= so_TrustLevel (pr_Source p) <= 100;
  ws_times : 0 <= so_ImportedAt (pr_Source p) /\ 0 <= pr_CreatedAt p;
  ws_expiry : pr_ExpiresAt p = 0 \/ now < pr_ExpiresAt p /\ pr_CreatedAt p <= pr_ExpiresAt p;
  ws_credentials : validateCredentials (pr_Family p) (pr_Credentials p) = true;
  ws_priority : -100 <= pr_Priority p <= 100;
  ws_notes : TrimSpace (pr_Notes p) = pr_Notes p;
  ws_fresh : pr_Enabled p = true /\ pr_ManualDisabled p = false /\ pr_Health p = zeroHealth;
}.

Lemma one_of_true s l : one_of s l = true <-> s ∈ l.
Proof. unfold one_of. by rewrite bool_decide_eq_true. Qed.

Lemma normalizeFamily_in f fam : normalizeFamily f = Some fam -> fam ∈ [FamilyReality; FamilyHysteria2; FamilyTUIC; FamilyShadowTLS; FamilyDNS].
Proof.
  unfold normalizeFamily. destruct (one_of _ _) eqn:E; [intros [= <-]; by apply one_of_true|]. case_bool_decide; [|done].
  intros [= <-]. right. by left.
Qed.

(** Goes through the checks of a normalisation that succeeded. *)
#[local] Ltac checks Hq :=
  unfold NormalizeForWire in Hq; cbv zeta in Hq;
  repeat match type of Hq with
  | (if ?b then _ else _) = _ => let E := fresh "E" in destruct b eqn:E; [done|]
  | match ?o with Some _ => _ | None => _ end = _ => let E := fresh "E" in destruct o eqn:E; [|done]
  end;
  rewrite ?negb_false_iff in *.

#[local] Ltac profile_fields := cbn [pr_ID pr_Family pr_Enabled pr_ManualDisabled pr_CreatedAt pr_ExpiresAt pr_Priority pr_TemplateRef
  pr_Endpoint pr_Capabilities pr_Credentials pr_Source pr_Notes pr_MutationPolicy pr_Health ep_Host ep_Port ep_IPVersion ca_Transport
  ca_DPIResistanceTags ca_BandwidthClass so_Source so_TrustLevel so_ImportedAt so_PublisherKey] in *.

Lemma NormalizeForWire_safe p now q : NormalizeForWire p now = Ok q -> wire_safe q now.
Proof.
  intros Hq. checks Hq. injection Hq as <-. rewrite ?one_of_true, ?is_empty_false in *.
  constructor; profile_fields; try done; try lia.
  - by eapply normalizeFamily_in.
  - by rewrite TrimSpace_idemp.
  - by apply forallb_true.
  - by rewrite TrimSpace_idemp.
  - apply TrimSpace_idemp.
Qed.

(** What passes the normalisation is safe to distribute: an identifier, host, port, address
    family, template, transport, bandwidth class, tags, source, trust, times, credentials and
    priority within their bounds, enabled and with no health record, whatever came in. *)
Theorem normalized_profile_is_wire_safe p now q : NormalizeForWire p now = Ok q -> wire_safe q now.
Proof. apply NormalizeForWire_safe. Qed.

(** The normal form: safe, with a host in lower case, tags in order and the times filled in. *)
Record in_normal_form (p : Profile) (now : Z) : Prop := {
  nf_safe : wire_safe p now;
  nf_host : ToLower (TrimSpace (ep_Host (pr_Endpoint p))) = ep_Host (pr_Endpoint p);
  nf_tags : tags_normal (ca_DPIResistanceTags (pr_Capabilities p));
  nf_imported : so_ImportedAt (pr_Source p) = 0 -> now = 0;
  nf_created : pr_CreatedAt p = 0 -> now = 0;
}.

Lemma family_settled fam : fam ∈ [FamilyReality; FamilyHysteria2; FamilyTUIC; FamilyShadowTLS; FamilyDNS] -> normalizeFamily fam = Some fam.
Proof. intros Hf. repeat (apply elem_of_cons in Hf as [->|Hf]; [reflexivity|]). by apply elem_of_nil in Hf. Qed.

Lemma transport_settled fam t : validateTransport fam t = true -> settled t /\ t <> "".
Proof.
  unfold validateTransport, one_of. intros Ht. assert (t ∈ ["tcp"; "udp"; "quic"]) as Hin.
  { repeat case_bool_decide; try done; set_solver. }
  repeat (apply elem_of_cons in Hin as [->|Hin]; [done|]). by apply elem_of_nil in Hin.
Qed.

(** The words of a list of settled words. *)
Lemma word_of_list l s : forallb (fun t => bool_decide (ToLower (TrimSpace t) = t)) l = true -> s ∈ l -> ToLower (TrimSpace s) = s.
Proof. rewrite forallb_true, Forall_forall. intros Hl Hs. by specialize (Hl s Hs); apply bool_decide_eq_true in Hl. Qed.

Lemma in_normal_form_fixed p now : in_normal_form p now -> NormalizeForWire p now = Ok p.
Proof.
  destruct p as [id fam en man created expires prio tref [host port ip] [transport tags bw] creds [source trust imported key] notes mut health].
  intros [[] Hhost Htags Himp Hcre]. profile_fields.
  unfold NormalizeForWire. cbv zeta. profile_fields.
  destruct (settled_lower_trim id) as [_ ->]; [by apply id_settled|].
  rewrite family_settled, Hhost, (tags_normal_fixed _ Htags) by done.
  destruct (settled_lower_trim transport) as [_ ->]; [by eapply transport_settled|].
  rewrite (word_of_list ["v4"; "v6"; "dual"] ip), (word_of_list [""; "low"; "medium"; "high"] bw) by done.
  destruct ws_template0 as (-> & -> & ->), ws_source0 as (-> & Hsrc), ws_fresh0 as (-> & -> & ->). rewrite ws_notes0.
  assert ((if is_empty ip then "dual" else ip) = ip) as Hip.
  { clear -ws_ip0. repeat (apply elem_of_cons in ws_ip0 as [->|ws_ip0]; [done|]). by apply elem_of_nil in ws_ip0. }
  assert ((if imported =? 0 then now else imported) = imported) as Hi by (destruct (Z.eqb_spec imported 0); lia).
  assert ((if created =? 0 then now else created) = created) as Hc by (destruct (Z.eqb_spec created 0); lia).
  rewrite Hip, Hi, Hc, ws_id0, ws_transport0, ws_credentials0, (proj2 (forallb_true _ _) ws_tags0).
  rewrite (proj2 (one_of_true ip _) ws_ip0), (proj2 (one_of_true bw _) ws_bandwidth0).
  rewrite (proj2 (is_empty_false host)), (proj2 (is_empty_false source)) by done.
  rewrite (proj2 (is_empty_false transport)) by by eapply transport_settled.
  rewrite (proj2 (is_empty_false id)) by by intros ->.
  do 3 (destruct (_ || _) eqn:E in |- *; [lia|clear E]).
  rewrite !(proj2 (Z.ltb_ge _ _)) by lia. cbn [negb].
  by destruct (Z.eqb_spec expires 0), (Z.leb_spec expires now), (Z.ltb_spec expires created); cbn [negb andb]; try lia.
Qed.
Lemma fixed_in_normal_form p now : NormalizeForWire p now = Ok p -> in_normal_form p now.
Proof.
  intros Hq. split; [by eapply NormalizeForWire_safe|..].
  all: destruct p as [id fam en man created expires prio tref [host port ip] [transport tags bw] creds [source trust imported key] notes mut health].
  all: checks Hq; injection Hq as Hid Hfam Hen Hman Hcre Htref Hhost Hip Htr Htags Hbw Hsrc Himp Hnotes Hhealth; profile_fields.
  - done.
  - rewrite <- Htags. apply clean_tags_normal. by rewrite <- Htags at 1; apply forallb_true.
  - intros ->. by rewrite Z.eqb_refl in Himp.
  - intros ->. by rewrite Z.eqb_refl in Hcre.
Qed.

(** The profiles the normalisation leaves as they are, which are those a bundle may hold, are
    exactly the ones in normal form: safe to distribute, the host in lower case, the tags in
    order with none twice, the times filled in. *)
Theorem normal_forms_are_the_fixed_points p now : NormalizeForWire p now = Ok p <-> in_normal_form p now.
Proof. split; [apply fixed_in_normal_form|apply in_normal_form_fixed]. Qed.

Lemma normalized_in_normal_form p now q : NormalizeForWire p now = Ok q -> is_ascii (ep_Host (pr_Endpoint p)) = true ->
  Forall (fun t => tagPattern t = true) (default [] (ca_DPIResistanceTags (pr_Capabilities p))) -> in_normal_form q now.
Proof.
  intros Hq Hhost Htags. split; [by eapply NormalizeForWire_safe|..].
  all: checks Hq; injection Hq as <-; profile_fields.
  - destruct (lower_trim_settled _ Hhost) as [H1 H2]. by rewrite H2, H1.
  - by apply clean_tags_normal.
  - by destruct (Z.eqb_spec (so_ImportedAt (pr_Source p)) 0).
  - by destruct (Z.eqb_spec (pr_CreatedAt p) 0).
Qed.

(** Normalising twice is normalising once, for ASCII hosts and tags that are well-formed,
    in whatever order and however often they come. *)
Theorem NormalizeForWire_idempotent p now q : NormalizeForWire p now = Ok q -> is_ascii (ep_Host (pr_Endpoint p)) = true ->
  Forall (fun t => tagPattern t = true) (default [] (ca_DPIResistanceTags (pr_Capabilities p))) -> NormalizeForWire q now = Ok q.
Proof. intros Hq Hh Ht. apply in_normal_form_fixed. by eapply normalized_in_normal_form. Qed.

(** A profile with these tags, which is in normal form but for them. *)
Definition tagged (tags : list string) : Profile :=
  mkProfile "p1" FamilyDNS true false 1 0 0 "" (mkEndpoint "a.example" 53 "dual") (mkCapabilities "udp" (Some tags) "")
    (mkCredentials "" "" "" "" "" "" "") (mkSource "s" 1 1 "") "" (mkMutationPolicy None 0) zeroHealth.

(** Tags are sorted before they are brought to lower case: upper-case ones leave a result that
    is not in order, or holds a tag twice, and a second pass changes it. *)
Lemma mixed_case_tags_unstable :
  NormalizeForWire (tagged ["B"; "a"]) 1 = Ok (tagged ["b"; "a"]) /\ NormalizeForWire (tagged ["b"; "a"]) 1 = Ok (tagged ["a"; "b"])
  /\ NormalizeForWire (tagged ["a"; "A"; "B"]) 1 = Ok (tagged ["a"; "b"; "a"]).
Proof. repeat split; vm_compute; reflexivity. Qed.
End lower.
