(* ===== verification/Bundle.v ===== *)
(** * Bundles ([pkg/bundle/bundle.go], [canonical.go], [crypto.go], [verify.go])

    The signed and encrypted wrapper of a payload of profiles: how one is made, and the
    checks one passes before its payload is handed out.  Ed25519, the age encryption, the
    decoding of JSON, the formatting of floats and the rendering of templates are
    parameters; messages of errors are left out, their codes kept. *)

From S2P Require Import Prelude Float64 Sha256 GoStr Profile Trust.

#[local] Open Scope string_scope.
#[local] Open Scope list_scope.
#[local] Open Scope Z_scope.

Definition BundleSignatureDomain : list Z := bytes_of "SUNLIONET-BUNDLE-V2" ++ [0].
Definition BundleNonceSize : Z := 24.
Definition MaxBundleBytes : Z := 2 * 1024 * 1024.
Definition MaxPayloadBytes : Z := 1024 * 1024.
Definition MaxCiphertextBytes : Z := 2 * 1024 * 1024.
Definition MaxBundleTTLSeconds : Z := 14 * 24 * 3600.

Record BundleHeader := mkHeader {
  bh_Magic : string;
  bh_BundleID : string;
  bh_PublisherKeyID : string;
  bh_RecipientKeyID : string;
  bh_Seq : Z;
  bh_Nonce : string;
  bh_CreatedAt : Z;
  bh_ExpiresAt : Z;
  bh_Cipher : string;
  bh_Signature : string;
}.

Record Template := mkTemplate { te_TemplateText : string }.

Record PolicyOverrides := mkOverrides {
  po_CooldownHardFailSec : Z;
  po_MaxSwitchesPer10Min : Z;
}.

(** Nil slices are [None]; a nil map reads as an empty one. *)
Record BundlePayload := mkPayload {
  bp_SchemaVersion : Z;
  bp_MinAgentVersion : string;
  bp_Profiles : option (list Profile);
  bp_Revocations : option (list string);
  bp_PolicyOverrides : PolicyOverrides;
  bp_Templates : gmap string Template;
  bp_Notes : gmap string string;
}.

Inductive bundle_err :=
  | ErrInvalidSignature
  | ErrExpired
  | ErrDecryptionFailed
  | ErrUnknownCipher
  | ErrVerify (codes : list string)
  | ErrBundle (message : string).

(** ** [path.Clean] *)

Fixpoint split_slash (b acc : list Z) : list (list Z) :=
  match b with
  | [] => [reverse acc]
  | c :: b' => if c =? 47 then reverse acc :: split_slash b' [] else split_slash b' (c :: acc)
  end.

(** The elements that stay, last first. *)
Fixpoint clean_parts (rooted : bool) (parts stack : list (list Z)) : list (list Z) :=
  match parts with
  | [] => stack
  | p :: parts' =>
      if bool_decide (p = []) || bool_decide (p = [46]) then clean_parts rooted parts' stack
      else if bool_decide (p = [46; 46]) then
        match stack with
        | q :: stack' => if bool_decide (q = [46; 46]) then clean_parts rooted parts' (p :: stack) else clean_parts rooted parts' stack'
        | [] => if rooted then clean_parts rooted parts' [] else clean_parts rooted parts' [p]
        end
      else clean_parts rooted parts' (p :: stack)
  end.

Definition path_clean (s : string) : string :=
  let b := bytes_of s in
  let rooted := match b with 47 :: _ => true | _ => false end in
  let out := Join (map str_of (reverse (clean_parts rooted (split_slash b []) []))) "/" in
  if rooted then ("/" ++ out)%string else if is_empty out then "." else out.

(** ** What the bundles rest on *)

(** [strconv] on a float64; it fails on infinities and NaN. *)
Class FloatJSON := json_float : float -> option (list Z).

(** The decoding of a wrapper and of a payload, strict (unknown fields and trailing content
    refused) and lax. *)
Class BundleJSON := {
  read_wrapper : list Z -> option (BundleHeader * string);
  read_payload : list Z -> option BundlePayload;
  read_wrapper_lax : list Z -> option (BundleHeader * string);
  read_payload_lax : list Z -> option BundlePayload;
}.

(** The age library: an identity is one recipient's secret. *)
Class Age := {
  age_recipient : list Z -> string;
  age_parse : string -> bool;
  age_encrypt : string -> list Z -> list Z -> option (list Z);
  age_decrypt : list Z -> list Z -> option (list Z);
}.

(** [text/template]: the text executed on a profile; [encoding/json.Valid]. *)
Class Templates := {
  render : string -> Profile -> option (list Z);
  json_valid : list Z -> bool;
}.

(** ** Canonical encodings *)

Definition json_bool (b : bool) : list Z := bytes_of (if b then "true" else "false").

Definition json_header (h : BundleHeader) : list Z :=
  json_object [("magic", json_string (bh_Magic h)); ("bundle_id", json_string (bh_BundleID h));
    ("publisher_key_id", json_string (bh_PublisherKeyID h)); ("recipient_key_id", json_string (bh_RecipientKeyID h));
    ("seq", json_int (bh_Seq h)); ("nonce", json_string (bh_Nonce h)); ("created_at", json_int (bh_CreatedAt h));
    ("expires_at", json_int (bh_ExpiresAt h)); ("cipher", json_string (bh_Cipher h)); ("sig", json_string (bh_Signature h))].

Definition json_wrapper (h : BundleHeader) (ciphertext : string) : list Z :=
  json_object [("header", json_header h); ("ciphertext", json_string ciphertext)].

Section canonical.
Context `{FloatJSON}.

Definition json_health (h : Health) : option (list Z) :=
  match json_float (he_Score h), json_float (he_SuccessEWMA h) with
  | Some score, Some ewma =>
      Some (json_object [("score", score); ("success_ewma", ewma); ("median_handshake_ms", json_int (he_MedianHandshakeMs h));
        ("last_ok_at", json_int (he_LastOkAt h)); ("last_fail_at", json_int (he_LastFailAt h));
        ("last_fail_reason", json_string (he_LastFailReason h)); ("cooldown_until", json_int (he_CooldownUntil h));
        ("failure_count", json_int (he_FailureCount h)); ("consecutive_fails", json_int (he_ConsecutiveFails h))])
  | _, _ => None
  end.

Definition json_endpoint (e : Endpoint) : list Z :=
  json_object [("host", json_string (ep_Host e)); ("port", json_int (ep_Port e)); ("ip_version", json_string (ep_IPVersion e))].

Definition json_capabilities (c : Capabilities) : list Z :=
  json_object [("transport", json_string (ca_Transport c)); ("dpi_resistance_tags", json_strings (ca_DPIResistanceTags c));
    ("bandwidth_class", json_string (ca_BandwidthClass c))].

Definition json_credentials (c : Credentials) : list Z :=
  json_object (omit_empty "uuid" (cr_UUID c) ++ omit_empty "password" (cr_Password c) ++ omit_empty "public_key" (cr_PublicKey c)
    ++ omit_empty "short_id" (cr_ShortID c) ++ omit_empty "sni" (cr_SNI c) ++ omit_empty "utls_fingerprint" (cr_UTLSFingerprint c)
    ++ omit_empty "obfs_password" (cr_ObfsPassword c)).

Definition json_source (s : SourceInfo) : list Z :=
  json_object (omit_empty "source" (so_Source s) ++ [("trust_level", json_int (so_TrustLevel s)); ("imported_at", json_int (so_ImportedAt s))]
    ++ omit_empty "publisher_key" (so_PublisherKey s)).

Definition json_mutation (m : MutationPolicy) : list Z :=
  json_object [("allowed_sets", json_strings (mp_AllowedSets m)); ("max_mutations_per_hour", json_int (mp_MaxMutationsPerHour m))].

Definition json_profile (p : Profile) : option (list Z) :=
  match json_health (pr_Health p) with
  | None => None
  | Some health =>
      Some (json_object [("id", json_string (pr_ID p)); ("family", json_string (pr_Family p)); ("enabled", json_bool (pr_Enabled p));
        ("manual_disabled", json_bool (pr_ManualDisabled p)); ("created_at", json_int (pr_CreatedAt p)); ("expires_at", json_int (pr_ExpiresAt p));
        ("priority", json_int (pr_Priority p)); ("template_ref", json_string (pr_TemplateRef p)); ("endpoint", json_endpoint (pr_Endpoint p));
        ("capabilities", json_capabilities (pr_Capabilities p)); ("credentials", json_credentials (pr_Credentials p));
        ("source", json_source (pr_Source p)); ("notes", json_string (pr_Notes p)); ("mutation_policy", json_mutation (pr_MutationPolicy p));
        ("health", health)])
  end.

Fixpoint json_all (l : list Profile) : option (list (list Z)) :=
  match l with
  | [] => Some []
  | p :: l' => match json_profile p, json_all l' with Some b, Some r => Some (b :: r) | _, _ => None end
  end.

Definition json_profiles (l : option (list Profile)) : option (list Z) :=
  match l with
  | None => Some json_null
  | Some l => match json_all l with Some bs => Some ([91] ++ comma_separated bs ++ [93]) | None => None end
  end.

Definition json_template (t : Template) : list Z := json_object [("template_text", json_string (te_TemplateText t))].
Definition json_overrides (o : PolicyOverrides) : list Z :=
  json_object [("cooldown_hard_fail_sec", json_int (po_CooldownHardFailSec o)); ("max_switches_per_10min", json_int (po_MaxSwitchesPer10Min o))].

(** [writeSortedObject] writes a map as [json.Marshal] does, and a nil one as an empty one. *)
Definition writeSortedObject {A} (enc : A -> list Z) (m : gmap string A) : list Z := json_map enc m.

Definition MarshalCanonicalPayload (p : BundlePayload) : option (list Z) :=
  match json_profiles (bp_Profiles p) with
  | None => None
  | Some profiles =>
      Some (json_object [("schema_version", json_int (bp_SchemaVersion p)); ("min_agent_version", json_string (bp_MinAgentVersion p));
        ("profiles", profiles); ("revocations", json_strings (bp_Revocations p)); ("policy_overrides", json_overrides (bp_PolicyOverrides p));
        ("templates", writeSortedObject json_template (bp_Templates p)); ("notes", writeSortedObject json_string (bp_Notes p))])
  end.
End canonical.

(** ** The signed part *)

Definition signatureInput (headerBytes ciphertext : list Z) : list Z := BundleSignatureDomain ++ headerBytes ++ [0] ++ ciphertext.

(** The header without its signature, as it is signed. *)
Definition unsigned (h : BundleHeader) : BundleHeader :=
  mkHeader (bh_Magic h) (bh_BundleID h) (bh_PublisherKeyID h) (bh_RecipientKeyID h) (bh_Seq h) (bh_Nonce h) (bh_CreatedAt h) (bh_ExpiresAt h)
    (bh_Cipher h) EmptyString.

Definition set_signature (sig : string) (h : BundleHeader) : BundleHeader :=
  mkHeader (bh_Magic h) (bh_BundleID h) (bh_PublisherKeyID h) (bh_RecipientKeyID h) (bh_Seq h) (bh_Nonce h) (bh_CreatedAt h) (bh_ExpiresAt h)
    (bh_Cipher h) sig.

Definition fingerprint16 (s : string) : string := str_of (take 16 (bytes_of (EncodeToString (Sum256 (bytes_of s))))).

Definition decodeBundleNonce (s : string) : option (list Z) :=
  if is_blank s then None
  else match DecodeString s with
       | Some nonce => if blen nonce =? BundleNonceSize then Some nonce else None
       | None => None
       end.

Local Open Scope res_scope.

Definition validateHeaderBasics (h : BundleHeader) (now : Z) (expectedSignerKeyID : string) : res bundle_err unit :=
  require! one_of (bh_Cipher h) ["age-x25519"; "none"] else ErrUnknownCipher;
  require! negb (is_blank (bh_PublisherKeyID h) || negb (bool_decide (bh_PublisherKeyID h = expectedSignerKeyID))) else ErrInvalidSignature;
  require! negb ((bh_CreatedAt h <=? 0) || (bh_ExpiresAt h <=? 0) || (bh_ExpiresAt h <? bh_CreatedAt h)) else ErrBundle "invalid bundle time window";
  require! negb (MaxBundleTTLSeconds <? bh_ExpiresAt h - bh_CreatedAt h) else ErrBundle "bundle ttl too large";
  require! negb (now + MaxClockSkewSeconds <? bh_CreatedAt h) else ErrBundle "bundle created_at too far in the future";
  require! negb (bh_ExpiresAt h <? now) else ErrExpired;
  match decodeBundleNonce (bh_Nonce h) with Some _ => Ok tt | None => Err (ErrBundle "nonce") end.

(** ** Making a bundle *)

Record GenerateOptions := mkGenerate {
  go_RecipientPublicKey : string;
  go_AllowPlaintext : bool;
  go_SignerKeyID : string;
  go_BundleID : string;
  go_Seq : Z;
  go_Nonce : string;
  go_CreatedAt : Z;
  go_ExpiresAt : Z;
}.

Definition bundle_name (t : Z) : string := ("bndl_" ++ str_of (json_int t))%string.

Definition validateSigningKey (priv : list Z) (signerKeyID : string) : res bundle_err unit :=
  require! blen priv =? PrivateKeySize else ErrBundle "invalid signer private key size";
  require! negb (is_blank signerKeyID) else ErrBundle "missing signer key id";
  require! bool_decide (signerKeyID = Ed25519KeyID (public_key priv)) else ErrBundle "signer key id does not match private key";
  Ok tt.

(** What the clock and the random source give: the seconds since 1970, the bytes of a nonce
    (or an error), and those of the encryption. *)
Record gen_env := mkGenEnv {
  ge_now : Z;
  ge_nonce : option (list Z);
  ge_rand : list Z;
}.

(** The options with their defaults. *)
Definition complete_options (e : gen_env) (o : GenerateOptions) : res bundle_err GenerateOptions :=
  let id := if is_blank (go_BundleID o) then bundle_name (ge_now e) else go_BundleID o in
  let seq := if go_Seq o =? 0 then 1 else go_Seq o in
  let created := if go_CreatedAt o =? 0 then ge_now e else go_CreatedAt o in
  let expires := if go_ExpiresAt o =? 0 then created + 7 * 24 * 3600 else go_ExpiresAt o in
  let with_nonce nonce := mkGenerate (go_RecipientPublicKey o) (go_AllowPlaintext o) (go_SignerKeyID o) id seq nonce created expires in
  if is_empty (go_Nonce o)
  then match ge_nonce e with
       | None => Err (ErrBundle "failed to generate bundle nonce")
       | Some nonce => Ok (with_nonce (EncodeToString nonce))
       end
  else Ok (with_nonce (go_Nonce o)).

Section bundles.
Context `{Ed25519, FloatJSON, BundleJSON, Age, Templates, UnicodeLower}.

(** The ciphertext with the names of its cipher and recipient. *)
Definition seal_payload (e : gen_env) (o : GenerateOptions) (payloadBytes : list Z) : res bundle_err (list Z * string * string) :=
  if negb (is_blank (go_RecipientPublicKey o)) then
    if negb (age_parse (go_RecipientPublicKey o)) then Err (ErrBundle "failed to parse recipient public key")
    else match age_encrypt (go_RecipientPublicKey o) (ge_rand e) payloadBytes with
         | None => Err (ErrBundle "failed to encrypt payload")
         | Some c => Ok (c, "age-x25519", ("age-x25519:" ++ fingerprint16 (go_RecipientPublicKey o))%string)
         end
  else if negb (go_AllowPlaintext o) then Err (ErrBundle "refusing to generate unencrypted bundle without explicit allow flag")
  else Ok (payloadBytes, "none", "none").

Definition GenerateBundleWithOptions (e : gen_env) (payload : BundlePayload) (priv : list Z) (o : GenerateOptions) : res bundle_err (list Z) :=
  match MarshalCanonicalPayload payload with
  | None => Err (ErrBundle "failed to serialize payload")
  | Some payloadBytes =>
      o <-! complete_options e o;
      _ <-! validateSigningKey priv (go_SignerKeyID o);
      sealed <-! seal_payload e o payloadBytes;
      let '(ciphertext, cipher, recipientKeyID) := sealed in
      let header := mkHeader "SNB1" (go_BundleID o) (go_SignerKeyID o) recipientKeyID (go_Seq o) (go_Nonce o) (go_CreatedAt o) (go_ExpiresAt o)
                      cipher EmptyString in
      let signature := ed_sign priv (signatureInput (json_header header) ciphertext) in
      Ok (json_wrapper (set_signature (EncodeToString signature) header) (EncodeToString ciphertext))
  end.

Definition GenerateBundleWithAllowPlaintext (e : gen_env) (payload : BundlePayload) (recipient : string) (priv : list Z) (signerKeyID : string)
    (allowPlaintext : bool) : res bundle_err (list Z) :=
  GenerateBundleWithOptions e payload priv
    (mkGenerate recipient allowPlaintext signerKeyID (bundle_name (ge_now e)) 1 EmptyString (ge_now e) (ge_now e + 7 * 24 * 3600)).

Definition GenerateBundle (e : gen_env) (payload : BundlePayload) (recipient : string) (priv : list Z) (signerKeyID : string) : res bundle_err (list Z) :=
  GenerateBundleWithAllowPlaintext e payload recipient priv signerKeyID false.

(** ** Verifying a bundle *)

(** The signature over the header without it and the ciphertext. *)
Definition signed_by (trustedSigner : list Z) (h : BundleHeader) (ciphertext sig : list Z) : bool :=
  ed_verify trustedSigner (signatureInput (json_header (unsigned h)) ciphertext) sig.

(** The steps [VerifyAndDecrypt] and [VerifyHeader] share; [limit] is the check of the
    ciphertext's size, which the second leaves out. *)
Definition verify_wrapper (limit : bool) (h : BundleHeader) (text : string) (trustedSigner : list Z) : res bundle_err (list Z) :=
  match DecodeString text with
  | None => Err (ErrBundle "invalid ciphertext base64")
  | Some ciphertext =>
      require! negb (limit && (MaxCiphertextBytes <? blen ciphertext)) else ErrBundle "ciphertext too large";
      match DecodeString (bh_Signature h) with
      | None => Err (ErrBundle "invalid signature base64")
      | Some sig =>
          require! (blen trustedSigner =? PublicKeySize) && (blen sig =? SignatureSize) else ErrInvalidSignature;
          require! signed_by trustedSigner h ciphertext sig else ErrInvalidSignature;
          Ok ciphertext
      end
  end.

(** At most [MaxPayloadBytes] bytes and one more are read, which shows a longer payload. *)
Definition read_limited (b : list Z) : res bundle_err (list Z) :=
  if MaxPayloadBytes <? blen b then Err (ErrBundle "decrypted payload too large") else Ok b.

(** [now] and [now'] are the two readings of the clock. *)
Definition VerifyAndDecrypt (bundleBytes trustedSigner : list Z) (ageIdentity : option (list Z)) (now now' : Z) : res bundle_err BundlePayload :=
  require! negb (MaxBundleBytes <? blen bundleBytes) else ErrBundle "bundle too large";
  match read_wrapper_lax bundleBytes with
  | None => Err (ErrBundle "failed to parse wrapper")
  | Some (h, text) =>
      require! one_of (bh_Cipher h) ["age-x25519"; "none"] else ErrUnknownCipher;
      _ <-! validateHeaderBasics h now (Ed25519KeyID trustedSigner);
      require! negb (bh_ExpiresAt h <? now') else ErrExpired;
      ciphertext <-! verify_wrapper true h text trustedSigner;
      payloadBytes <-! (if bool_decide (bh_Cipher h = "age-x25519") then
        match ageIdentity with
        | None => Err ErrDecryptionFailed
        | Some id => match age_decrypt id ciphertext with None => Err ErrDecryptionFailed | Some b => read_limited b end
        end
      else Ok ciphertext);
      match read_payload_lax payloadBytes with
      | None => Err (ErrBundle "failed to parse decrypted payload")
      | Some p => Ok p
      end
  end.

Definition VerifyHeader (bundleBytes trustedSigner : list Z) (now : Z) : res bundle_err BundleHeader :=
  require! negb (MaxBundleBytes <? blen bundleBytes) else ErrBundle "bundle too large";
  match read_wrapper_lax bundleBytes with
  | None => Err (ErrBundle "failed to parse wrapper")
  | Some (h, text) =>
      _ <-! validateHeaderBasics h now (Ed25519KeyID trustedSigner);
      _ <-! verify_wrapper false h text trustedSigner;
      Ok h
  end.

(** ** Strict verification *)

Definition decryptPayloadBytes (h : BundleHeader) (ciphertext : list Z) (id : option (list Z)) : res bundle_err (list Z) :=
  if bool_decide (bh_Cipher h = "none") then Ok ciphertext
  else if bool_decide (bh_Cipher h = "age-x25519") then
    match id with
    | None => Err ErrDecryptionFailed
    | Some id =>
        require! bool_decide (TrimSpace (bh_RecipientKeyID h) = ("age-x25519:" ++ fingerprint16 (age_recipient id))%string) else ErrDecryptionFailed;
        match age_decrypt id ciphertext with None => Err ErrDecryptionFailed | Some b => read_limited b end
    end
  else Err ErrUnknownCipher.

(** An issue when the condition holds. *)
Definition issue (b : bool) (code : string) : list string := if b then [code] else [].

Definition header_issues (h : BundleHeader) (now : Z) (expected : string) : list string :=
  issue (negb (bool_decide (bh_Magic h = "SNB1"))) "header_magic"
  ++ issue (is_blank (bh_BundleID h)) "header_bundle_id"
  ++ (if is_blank (bh_PublisherKeyID h) then ["header_publisher_key_id"]
      else issue (negb (bool_decide (bh_PublisherKeyID h = expected))) "issuer_mismatch")
  ++ issue (bh_Seq h =? 0) "header_seq"
  ++ issue (match decodeBundleNonce (bh_Nonce h) with None => true | _ => false end) "header_nonce"
  ++ issue (bh_CreatedAt h <=? 0) "header_created_at"
  ++ issue (bh_ExpiresAt h <=? 0) "header_expires_at"
  ++ issue ((0 <? bh_CreatedAt h) && (0 <? bh_ExpiresAt h) && (bh_ExpiresAt h <? bh_CreatedAt h)) "header_time_order"
  ++ issue (now + MaxClockSkewSeconds <? bh_CreatedAt h) "header_future"
  ++ issue ((0 <? bh_ExpiresAt h) && (0 <? bh_CreatedAt h) && (MaxBundleTTLSeconds <? bh_ExpiresAt h - bh_CreatedAt h)) "header_ttl"
  ++ issue (bh_ExpiresAt h <? now) "expired"
  ++ (if bool_decide (bh_Cipher h = "age-x25519") then issue (negb (HasPrefix (bh_RecipientKeyID h) "age-x25519:")) "recipient_key_id"
      else if bool_decide (bh_Cipher h = "none") then issue (negb (bool_decide (bh_RecipientKeyID h = "none"))) "recipient_key_id"
      else ["cipher"]).

Definition size_issues (h : BundleHeader) (text : string) : list string :=
  match DecodeString text with
  | None => ["ciphertext_b64"]
  | Some c => issue ((blen c =? 0) || (MaxCiphertextBytes <? blen c)) "ciphertext_size"
  end
  ++ match DecodeString (bh_Signature h) with
     | None => ["signature_b64"]
     | Some sig => issue (negb (blen sig =? SignatureSize)) "signature_size"
     end.

(** [fmt.Sprintf] of family, host and port. *)
Definition endpoint_key (p : Profile) : string :=
  (pr_Family p ++ "|" ++ ep_Host (pr_Endpoint p) ++ "|" ++ str_of (json_int (ep_Port (pr_Endpoint p))))%string.

(** [reflect.DeepEqual] on health records compares floats as numbers. *)
Definition health_eqb (a b : Health) : bool :=
  PrimFloat.eqb (he_Score a) (he_Score b) && PrimFloat.eqb (he_SuccessEWMA a) (he_SuccessEWMA b)
  && (he_MedianHandshakeMs a =? he_MedianHandshakeMs b) && (he_LastOkAt a =? he_LastOkAt b) && (he_LastFailAt a =? he_LastFailAt b)
  && bool_decide (he_LastFailReason a = he_LastFailReason b) && (he_CooldownUntil a =? he_CooldownUntil b)
  && (he_FailureCount a =? he_FailureCount b) && (he_ConsecutiveFails a =? he_ConsecutiveFails b).

Definition profile_eqb (a b : Profile) : bool :=
  bool_decide (pr_ID a = pr_ID b) && bool_decide (pr_Family a = pr_Family b) && Bool.eqb (pr_Enabled a) (pr_Enabled b)
  && Bool.eqb (pr_ManualDisabled a) (pr_ManualDisabled b) && (pr_CreatedAt a =? pr_CreatedAt b) && (pr_ExpiresAt a =? pr_ExpiresAt b)
  && (pr_Priority a =? pr_Priority b) && bool_decide (pr_TemplateRef a = pr_TemplateRef b) && bool_decide (pr_Endpoint a = pr_Endpoint b)
  && bool_decide (pr_Capabilities a = pr_Capabilities b) && bool_decide (pr_Credentials a = pr_Credentials b)
  && bool_decide (pr_Source a = pr_Source b) && bool_decide (pr_Notes a = pr_Notes b) && bool_decide (pr_MutationPolicy a = pr_MutationPolicy b)
  && health_eqb (pr_Health a) (pr_Health b).

(** The profile as the payload holds it after it was normalised: the tags are sorted in the
    array the normalisation shares with it. *)
Definition with_sorted_tags (p : Profile) : Profile :=
  mkProfile (pr_ID p) (pr_Family p) (pr_Enabled p) (pr_ManualDisabled p) (pr_CreatedAt p) (pr_ExpiresAt p) (pr_Priority p) (pr_TemplateRef p)
    (pr_Endpoint p) (mkCapabilities (ca_Transport (pr_Capabilities p)) (caller_tags p) (ca_BandwidthClass (pr_Capabilities p)))
    (pr_Credentials p) (pr_Source p) (pr_Notes p) (pr_MutationPolicy p) (pr_Health p).

Record seen := mkSeen {
  sn_ids : gset string;
  sn_endpoints : gset string;
}.

(** The body of the loop over profiles. *)
Definition profile_issues (h : BundleHeader) (now : Z) (p : Profile) (s : seen) : list string * seen :=
  match NormalizeForWire p now with
  | Err _ => (["profile_invalid"], s)
  | Ok np =>
      let p := with_sorted_tags p in
      let ek := endpoint_key p in
      (issue (negb (profile_eqb np p)) "profile_not_normalized"
       ++ (if is_blank (so_PublisherKey (pr_Source p)) then ["profile_issuer_missing"]
           else issue (negb (bool_decide (so_PublisherKey (pr_Source p) = bh_PublisherKeyID h))) "profile_issuer_mismatch")
       ++ issue (bool_decide (pr_ID p ∈ sn_ids s)) "profile_duplicate_id"
       ++ issue (bool_decide (ek ∈ sn_endpoints s)) "profile_duplicate_endpoint"
       ++ issue (negb (pr_ExpiresAt p =? 0) && (pr_ExpiresAt p <=? now)) "profile_expired"
       ++ issue (negb (pr_ExpiresAt p =? 0) && (pr_ExpiresAt p <? pr_CreatedAt p)) "profile_time_order",
       mkSeen ({[pr_ID p]} ∪ sn_ids s) ({[ek]} ∪ sn_endpoints s))
  end.

Fixpoint profiles_issues (h : BundleHeader) (now : Z) (ps : list Profile) (s : seen) : list string :=
  match ps with
  | [] => []
  | p :: ps' => let '(found, s') := profile_issues h now p s in found ++ profiles_issues h now ps' s'
  end.

(** The template a profile is rendered with. *)
Definition template_key (p : Profile) : string := if is_blank (pr_TemplateRef p) then pr_Family p else pr_TemplateRef p.

(** The first profile of each template. *)
Fixpoint samples (ps : list Profile) (m : gmap string Profile) : gmap string Profile :=
  match ps with
  | [] => m
  | p :: ps' => samples ps' (match m !! template_key p with Some _ => m | None => <[template_key p := p]> m end)
  end.

(** A relative path inside the directory of templates. *)
Definition template_key_ok (k : string) : bool :=
  negb (is_blank k) && negb (Contains k "\")
  && (let clean := path_clean k in
      negb (bool_decide (clean = ".") || bool_decide (clean = "..") || HasPrefix clean "../" || HasPrefix clean "/")).

Definition template_issues (sample : gmap string Profile) (kv : string * Template) : list string :=
  let '(k, v) := kv in
  if negb (template_key_ok k) then ["template_key"]
  else if is_blank (te_TemplateText v) then ["template_text"]
  else match sample !! k with
       | None => []
       | Some prof =>
           match render (te_TemplateText v) prof with
           | None => ["template_render"]
           | Some out => issue (negb (json_valid (trim_bytes out))) "template_render"
           end
       end.

Definition note_issues (notes : gmap string string) (h : BundleHeader) : list string :=
  let note := default EmptyString (notes !! "issuer_key_id") in
  if is_blank note then ["issuer_note"] else issue (negb (bool_decide (note = bh_PublisherKeyID h))) "issuer_note_mismatch".

(** The payload as it is after its profiles were normalised; one that fails the
    normalisation makes the whole payload fail. *)
Definition settled_profiles (ps : list Profile) : list Profile := with_sorted_tags <$> ps.

(** [validatePayloadStrict]; the templates are taken in some order, which the list of issues
    shows. *)
Definition payload_issues (payload : BundlePayload) (h : BundleHeader) (now : Z) : list string :=
  let ps := default [] (bp_Profiles payload) in
  let after := settled_profiles ps in
  issue (negb (bp_SchemaVersion payload =? 1)) "schema_version"
  ++ issue (is_blank (bp_MinAgentVersion payload)) "min_agent_version"
  ++ note_issues (bp_Notes payload) h
  ++ profiles_issues h now ps (mkSeen ∅ ∅)
  ++ concat (template_issues (samples after ∅) <$> map_to_list (bp_Templates payload))
  ++ concat ((fun p => issue (match bp_Templates payload !! template_key p with None => true | _ => false end) "template_missing") <$> after).

Definition settle (payload : BundlePayload) : BundlePayload :=
  mkPayload (bp_SchemaVersion payload) (bp_MinAgentVersion payload) (settled_profiles <$> bp_Profiles payload) (bp_Revocations payload)
    (bp_PolicyOverrides payload) (bp_Templates payload) (bp_Notes payload).

Record VerifyResult := mkResult {
  vr_Header : BundleHeader;
  vr_SignerKeyIDExpected : string;
  vr_BundleSHA256 : string;
  vr_Payload : option BundlePayload;
}.

(** [VerifyBundle] returns a result with an error once the wrapper was read; [clock] is read
    when [now] is zero. *)
Definition VerifyBundle (bundleBytes trustedSigner : list Z) (now clock : Z) (ageIdentity : option (list Z)) (requireDecrypt : bool)
    : option VerifyResult * option bundle_err :=
  let now := if now =? 0 then clock else now in
  if (blen bundleBytes =? 0) || (MaxBundleBytes <? blen bundleBytes) then (None, Some (ErrVerify ["wrapper_size"]))
  else if negb (blen trustedSigner =? PublicKeySize) then (None, Some ErrInvalidSignature)
  else
    let expected := Ed25519KeyID trustedSigner in
    match read_wrapper bundleBytes with
    | None => (None, Some (ErrVerify ["wrapper_parse"]))
    | Some (h, text) =>
        let res payload := Some (mkResult h expected (EncodeToString (Sum256 bundleBytes)) payload) in
        match header_issues h now expected ++ size_issues h text with
        | _ :: _ as issues => (res None, Some (ErrVerify issues))
        | [] =>
            let ciphertext := default [] (DecodeString text) in
            let sig := default [] (DecodeString (bh_Signature h)) in
            if negb (signed_by trustedSigner h ciphertext sig) then (res None, Some ErrInvalidSignature)
            else if bool_decide (bh_Cipher h = "age-x25519") && bool_decide (ageIdentity = None) && requireDecrypt
            then (res None, Some (ErrVerify ["decrypt_required"]))
            else if bool_decide (bh_Cipher h = "age-x25519") && bool_decide (ageIdentity = None) then (res None, None)
            else
              match decryptPayloadBytes h ciphertext ageIdentity with
              | Err ErrDecryptionFailed => (res None, Some ErrDecryptionFailed)
              | Err _ => (res None, Some (ErrVerify ["decrypt"]))
              | Ok payloadBytes =>
                  match read_payload payloadBytes with
                  | None => (res None, Some (ErrVerify ["payload_parse"]))
                  | Some payload =>
                      match MarshalCanonicalPayload payload with
                      | None => (res None, Some (ErrVerify ["payload_canonicalize"]))
                      | Some canonical =>
                          if negb (bool_decide (canonical = payloadBytes)) then (res None, Some (ErrVerify ["payload_not_canonical"]))
                          else match payload_issues payload h now with
                               | _ :: _ as issues => (res None, Some (ErrVerify issues))
                               | [] => (res (Some (settle payload)), None)
                               end
                      end
                  end
              end
        end
    end.
End bundles.
