(* ===== verification/BundleSpec.v ===== *)
(** * What bundles promise

    The signature binds header and ciphertext; what a verified bundle holds; bundles that
    are made verify; strict verification implies the lax one. *)

From S2P Require Import Prelude Float64 Sha256 GoStr Profile ProfileSpec Trust TrustSpec Bundle.

#[local] Open Scope string_scope.
#[local] Open Scope list_scope.
#[local] Open Scope Z_scope.
#[local] Set Warnings "-clear-no-such-hyp".

(** ** The signed bytes *)

(** The strings are UTF-8, as all that come out of JSON are, and the numbers of 64 bits. *)
Definition header_text_ok (h : BundleHeader) : Prop :=
  Forall valid_string [bh_Magic h; bh_BundleID h; bh_PublisherKeyID h; bh_RecipientKeyID h; bh_Nonce h; bh_Cipher h; bh_Signature h]
  /\ is_u64 (bh_Seq h) /\ is_i64 (bh_CreatedAt h) /\ is_i64 (bh_ExpiresAt h).

Lemma json_header_prefix h k r q : header_text_ok h -> header_text_ok k -> json_header h ++ r = json_header k ++ q -> h = k /\ r = q.
Proof.
  intros (Hh & Hh0 & Hh1 & Hh2) (Hk & Hk0 & Hk1 & Hk2) H.
  unfold is_i64, min_i64, max_i64 in *. rewrite !Forall_cons in Hh, Hk.
  destruct Hh as (? & ? & ? & ? & ? & ? & ? & _), Hk as (? & ? & ? & ? & ? & ? & ? & _).
  unfold json_header, json_object in H. rewrite <- !app_assoc in H. cbn [app] in H. apply cons_tail in H.
  cbn [map fst snd] in H. rewrite !comma_cons in H.
  do 4 next_field H json_string_prefix. next_field H json_int_prefix. next_field H json_string_prefix.
  do 2 next_field H json_int_prefix. next_field H json_string_prefix.
  unfold comma_separated in H. cbn [map concat] in H. rewrite !app_nil_r in H.
  apply field_prefix in H. apply json_string_prefix in H as [? H]; [|done..]. apply cons_tail in H.
  destruct h, k. cbn in *. by subst.
Qed.

Lemma json_wrapper_inj h k t u : header_text_ok h -> header_text_ok k -> valid_string t -> valid_string u ->
  json_wrapper h t = json_wrapper k u -> h = k /\ t = u.
Proof.
  intros Hh Hk Ht Hu E. unfold json_wrapper, json_object in E. cbn [app] in E. apply cons_tail in E. cbn [map fst snd] in E.
  rewrite !comma_cons in E. apply field_prefix in E. apply json_header_prefix in E as [-> E]; [|done..]. apply cons_tail in E.
  unfold comma_separated in E. cbn [map concat] in E. rewrite !app_nil_r in E. apply field_prefix in E. apply json_string_prefix in E as [-> _]; done.
Qed.

(** What is signed determines the header, but for the signature, and the ciphertext: two
    bundles with the same signed bytes agree on both, so no signature can be moved to
    another bundle. *)
Theorem signature_binds_header_and_ciphertext h k c d : header_text_ok (unsigned h) -> header_text_ok (unsigned k) ->
  signatureInput (json_header (unsigned h)) c = signatureInput (json_header (unsigned k)) d -> unsigned h = unsigned k /\ c = d.
Proof.
  intros Hh Hk E. unfold signatureInput in E. apply app_inv_head in E. apply json_header_prefix in E as [E1 E2]; [|done..].
  split; [done|]. by injection E2.
Qed.

(** ** What a verified payload is *)

Lemma issue_nil b c : issue b c = [] <-> b = false.
Proof. by destruct b. Qed.

(** The profile with a fresh health record. *)
Definition reset_health (p : Profile) : Profile :=
  mkProfile (pr_ID p) (pr_Family p) (pr_Enabled p) (pr_ManualDisabled p) (pr_CreatedAt p) (pr_ExpiresAt p) (pr_Priority p) (pr_TemplateRef p)
    (pr_Endpoint p) (pr_Capabilities p) (pr_Credentials p) (pr_Source p) (pr_Notes p) (pr_MutationPolicy p) zeroHealth.

Section verified.
Context `{ED : Ed25519, FJ : FloatJSON, BJ : BundleJSON, AG : Age, TP : Templates, UL : UnicodeLower}.

(** A profile in normal form, whose health record counts as empty, from the bundle's
    publisher. *)
Definition profile_sound (h : BundleHeader) (now : Z) (p : Profile) : Prop :=
  in_normal_form (reset_health p) now /\ health_eqb zeroHealth (pr_Health p) = true
  /\ so_PublisherKey (pr_Source p) = bh_PublisherKeyID h.

(** The template of a profile is there, under a path inside the directory, and renders to
    JSON for one of the profiles that use it. *)
Definition template_sound (payload : BundlePayload) (p : Profile) : Prop :=
  exists t sample out, bp_Templates payload !! template_key p = Some t /\ template_key_ok (template_key p) = true
    /\ sample ∈ default [] (bp_Profiles payload) /\ template_key sample = template_key p
    /\ render (te_TemplateText t) sample = Some out /\ json_valid (trim_bytes out) = true.

Record payload_sound (payload : BundlePayload) (h : BundleHeader) (now : Z) : Prop := {
  so_schema : bp_SchemaVersion payload = 1;
  so_issuer : bp_Notes payload !! "issuer_key_id" = Some (bh_PublisherKeyID h);
  so_profiles : Forall (profile_sound h now) (default [] (bp_Profiles payload));
  so_ids : NoDup (pr_ID <$> default [] (bp_Profiles payload));
  so_endpoints : NoDup (endpoint_key <$> default [] (bp_Profiles payload));
  so_templates : Forall (template_sound payload) (default [] (bp_Profiles payload));
}.

Lemma normalize_sorted_tags p now : NormalizeForWire (reset_health (with_sorted_tags p)) now = NormalizeForWire p now.
Proof.
  assert (forall tags : option (list string), sort_strings (default [] (match tags with None => None | Some l => Some (sort_strings l) end))
    = sort_strings (default [] tags)) as Hs by (intros [l|]; [apply sort_strings_eq, sort_strings_perm|done]).
  unfold NormalizeForWire, with_sorted_tags, reset_health, caller_tags. cbv zeta.
  cbn [pr_ID pr_Family pr_Enabled pr_ManualDisabled pr_CreatedAt pr_ExpiresAt pr_Priority pr_TemplateRef
  pr_Endpoint pr_Capabilities pr_Credentials pr_Source pr_Notes pr_MutationPolicy pr_Health ca_Transport
  ca_DPIResistanceTags ca_BandwidthClass]. by rewrite Hs.
Qed.

Lemma NormalizeForWire_health p now q : NormalizeForWire p now = Ok q -> pr_Health q = zeroHealth.
Proof. intros Hq%NormalizeForWire_safe. by apply Hq. Qed.

Lemma profile_eqb_reset q p : pr_Health q = zeroHealth -> profile_eqb q p = true -> q = reset_health p /\ health_eqb zeroHealth (pr_Health p) = true.
Proof.
  intros Hh. unfold profile_eqb. rewrite Hh, !andb_true_iff, !bool_decide_eq_true, !Z.eqb_eq, !eqb_true_iff.
  intros. destruct_and!. split; [|done]. destruct q, p. cbn in *. by subst.
Qed.

(** A profile without issues, which is recorded among those seen. *)
Lemma profile_issues_nil h now p s : fst (profile_issues h now p s) = [] ->
  profile_sound h now (with_sorted_tags p) /\ (pr_ID p ∉ sn_ids s) /\ (endpoint_key p ∉ sn_endpoints s)
  /\ snd (profile_issues h now p s) = mkSeen ({[pr_ID p]} ∪ sn_ids s) ({[endpoint_key p]} ∪ sn_endpoints s).
Proof.
  unfold profile_issues. destruct (NormalizeForWire p now) as [np|] eqn:Hn; [|done]. cbn [fst snd].
  intros [H1%issue_nil [H2 [H3%issue_nil [H4%issue_nil _]%app_nil]%app_nil]%app_nil]%app_nil.
  apply negb_false_iff in H1. apply bool_decide_eq_false in H3, H4. split; [|done].
  destruct (profile_eqb_reset np (with_sorted_tags p)) as [E Hh]; [by eapply NormalizeForWire_health|done|].
  split; [|split; [done|]].
  - apply fixed_in_normal_form. rewrite normalize_sorted_tags, Hn. by rewrite E.
  - destruct (is_blank _); [done|]. apply issue_nil, negb_false_iff, bool_decide_eq_true in H2. done.
Qed.

Lemma profiles_issues_nil h now ps s : profiles_issues h now ps s = [] ->
  Forall (profile_sound h now) (settled_profiles ps)
  /\ NoDup (pr_ID <$> settled_profiles ps) /\ (forall id, id ∈ pr_ID <$> settled_profiles ps -> id ∉ sn_ids s)
  /\ NoDup (endpoint_key <$> settled_profiles ps) /\ (forall ek, ek ∈ endpoint_key <$> settled_profiles ps -> ek ∉ sn_endpoints s).
Proof.
  revert s. induction ps as [|p ps IH]; intros s; cbn [profiles_issues].
  { intros _. cbn. repeat split; try constructor; by intros ? []%elem_of_nil. }
  pose proof (profile_issues_nil h now p s) as Hp. destruct (profile_issues h now p s) as [found s'] eqn:E.
  intros [-> Hps]%app_nil. destruct (Hp eq_refl) as (Hs & Hid & Hek & Hs'). cbn [snd] in Hs'. subst s'.
  destruct (IH _ Hps) as (IH1 & IH2 & IH3 & IH4 & IH5). cbn [sn_ids sn_endpoints] in *.
  unfold settled_profiles in *. rewrite !fmap_cons. split; [by constructor|].
  split; [constructor; [|done]; intros Hin; apply (IH3 _ Hin); set_solver|].
  split; [intros id [->|Hin]%elem_of_cons; [done|]; specialize (IH3 _ Hin); set_solver|].
  split; [constructor; [|done]; intros Hin; apply (IH5 _ Hin); set_solver|].
  intros ek [->|Hin]%elem_of_cons; [done|]. specialize (IH5 _ Hin). set_solver.
Qed.

Lemma samples_lookup ps m k p : samples ps m !! k = Some p -> m !! k = Some p \/ (p ∈ ps /\ template_key p = k).
Proof.
  revert m. induction ps as [|q ps IH]; intros m; cbn [samples]; [by left|]. intros [Hm|[Hin Hk]]%IH; [|right; split; [by right|done]].
  destruct (m !! template_key q) eqn:E; [by left|]. apply lookup_insert_Some in Hm as [[Hk ->]|[_ Hm]]; [right; split; [by left|done]|by left].
Qed.

Lemma samples_some ps m p : p ∈ ps \/ is_Some (m !! template_key p) -> is_Some (samples ps m !! template_key p).
Proof.
  revert m. induction ps as [|q ps IH]; intros m; cbn [samples]; [by intros [[]%elem_of_nil|]|].
  intros Hp. apply IH. destruct Hp as [[->|Hp]%elem_of_cons|Hp]; [right|by left|right].
  - destruct (m !! template_key q) eqn:E; [done|]. rewrite lookup_insert_eq. by eexists.
  - destruct (m !! template_key q) eqn:E; [done|]. destruct (decide (template_key q = template_key p)) as [->|Hn]; [by rewrite lookup_insert_eq|].
    by rewrite lookup_insert_ne.
Qed.

Lemma concat_nil {A B} (f : A -> list B) (l : list A) : concat (f <$> l) = [] <-> forall x, x ∈ l -> f x = [].
Proof.
  induction l as [|x l IH]; [by split; [intros _ ? []%elem_of_nil|]|]. rewrite fmap_cons. cbn [concat]. split.
  - intros [Hx Hl]%app_nil y [->|Hy]%elem_of_cons; [done|]. by apply IH.
  - intros Hf. rewrite (Hf x) by by left. apply IH. intros y Hy. apply Hf. by right.
Qed.

Lemma payload_issues_nil payload h now : payload_issues payload h now = [] -> payload_sound (settle payload) h now.
Proof.
  unfold payload_issues. cbv zeta.
  intros [H1%issue_nil [_ [H2 [H3 [H4 H5]%app_nil]%app_nil]%app_nil]%app_nil]%app_nil.
  apply negb_false_iff, Z.eqb_eq in H1. apply profiles_issues_nil in H3 as (Hps & Hids & _ & Heks & _).
  assert (default [] (settled_profiles <$> bp_Profiles payload) = settled_profiles (default [] (bp_Profiles payload))) as E by by destruct (bp_Profiles payload).
  set (after := settled_profiles (default [] (bp_Profiles payload))) in *.
  split; cbn [settle bp_SchemaVersion bp_Notes bp_Profiles]; rewrite ?E; try done.
  - unfold note_issues in H2. destruct (bp_Notes payload !! "issuer_key_id") as [note|]; [|done]. cbn [default from_option id] in H2.
    destruct (is_blank note); [done|]. apply issue_nil, negb_false_iff, bool_decide_eq_true in H2. by subst.
  - apply Forall_forall. intros p Hp. rewrite concat_nil in H4. rewrite concat_nil in H5. specialize (H5 p Hp). apply issue_nil in H5. cbn beta in H5.
    destruct (bp_Templates payload !! template_key p) as [t|] eqn:Et; [|done].
    destruct (samples_some after ∅ p) as [sample Hs]; [by left|].
    specialize (H4 (template_key p, t)). cbn [template_issues] in H4. specialize (H4 ltac:(by apply elem_of_map_to_list)).
    destruct (template_key_ok (template_key p)) eqn:Ek; cbn [negb] in H4; [|done]. destruct (is_blank _); [done|].
    rewrite Hs in H4. destruct (render (te_TemplateText t) sample) as [out|] eqn:Er; [|done]. apply issue_nil, negb_false_iff in H4.
    apply samples_lookup in Hs as [Hs|[Hin Hk]]; [done|]. exists t, sample, out. cbn [settle bp_Templates bp_Profiles]. by rewrite E.
Qed.

(** ** What a verified bundle is *)

(** A header within its bounds at a time, from a publisher. *)
Definition header_sound (h : BundleHeader) (now : Z) (publisher : string) : Prop :=
  bh_PublisherKeyID h = publisher /\ is_blank (bh_BundleID h) = false /\ bh_Seq h <> 0
  /\ is_Some (decodeBundleNonce (bh_Nonce h))
  /\ 0 < bh_CreatedAt h <= bh_ExpiresAt h /\ bh_ExpiresAt h - bh_CreatedAt h <= MaxBundleTTLSeconds
  /\ bh_CreatedAt h - MaxClockSkewSeconds <= now <= bh_ExpiresAt h.

Lemma header_issues_nil h now expected : header_issues h now expected = [] ->
  bh_Magic h = "SNB1" /\ header_sound h now expected
  /\ (bh_Cipher h = "age-x25519" \/ bh_Cipher h = "none" /\ bh_RecipientKeyID h = "none").
Proof.
  unfold header_issues, header_sound. rewrite !app_nil, !issue_nil.
  intros (H1%negb_false_iff%bool_decide_eq_true & H2 & H3 & H4 & H5 & H6 & H7 & H8 & H9 & H10 & H11 & H12).
  destruct (is_blank (bh_PublisherKeyID h)); [done|]. apply issue_nil, negb_false_iff, bool_decide_eq_true in H3.
  assert (is_Some (decodeBundleNonce (bh_Nonce h))) as Hn by (destruct (decodeBundleNonce (bh_Nonce h)); [by eexists|done]).
  split; [done|]. split; [split; [done|split; [done|split; [lia|split; [done|split; [|split]]]]]; lia|].
  case_bool_decide; [by left|]. case_bool_decide; [|done]. right. split; [done|]. by apply issue_nil, negb_false_iff, bool_decide_eq_true in H12.
Qed.

(** What stands between a bundle and its result. *)
Record verified (bundleBytes trustedSigner : list Z) (now : Z) (ident : option (list Z)) (h : BundleHeader) (ciphertext : list Z) : Prop := {
  ve_length : 0 < blen bundleBytes <= MaxBundleBytes;
  ve_signer : blen trustedSigner = PublicKeySize;
  ve_text : exists text, read_wrapper bundleBytes = Some (h, text) /\ DecodeString text = Some ciphertext;
  ve_header : header_sound h now (Ed25519KeyID trustedSigner);
  ve_size : 0 < blen ciphertext <= MaxCiphertextBytes;
  ve_signature : exists sig, DecodeString (bh_Signature h) = Some sig /\ blen sig = SignatureSize
    /\ ed_verify trustedSigner (signatureInput (json_header (unsigned h)) ciphertext) sig = true;
}.

Lemma VerifyBundle_inv bundleBytes trustedSigner now clock ident req r :
  VerifyBundle bundleBytes trustedSigner now clock ident req = (Some r, None) ->
  let t := if now =? 0 then clock else now in
  exists ciphertext, verified bundleBytes trustedSigner t ident (vr_Header r) ciphertext
    /\ vr_SignerKeyIDExpected r = Ed25519KeyID trustedSigner /\ vr_BundleSHA256 r = EncodeToString (Sum256 bundleBytes)
    /\ ((vr_Payload r = None /\ bh_Cipher (vr_Header r) = "age-x25519" /\ ident = None /\ req = false)
        \/ exists payloadBytes payload, decryptPayloadBytes (vr_Header r) ciphertext ident = Ok payloadBytes
             /\ read_payload payloadBytes = Some payload /\ MarshalCanonicalPayload payload = Some payloadBytes
             /\ payload_issues payload (vr_Header r) t = [] /\ vr_Payload r = Some (settle payload)).
Proof.
  unfold VerifyBundle. cbv zeta. set (t := if now =? 0 then clock else now).
  destruct (_ || _) eqn:Hsize; [done|]. destruct (Z.eqb_spec (blen trustedSigner) PublicKeySize) as [Hk|]; cbn [negb]; [|done].
  destruct (read_wrapper bundleBytes) as [[h text]|] eqn:Hw; [|done].
  destruct (header_issues h t _ ++ size_issues h text) eqn:Hi; [|done]. apply app_nil in Hi as [Hi Hs].
  apply header_issues_nil in Hi as (Hm & Hh & Hcipher). unfold size_issues in Hs.
  destruct (DecodeString text) as [c|] eqn:Hc; [|done]. destruct (DecodeString (bh_Signature h)) as [sig|] eqn:Hsig; [|by apply app_nil in Hs as [_ ?]].
  apply app_nil in Hs as [Hcl%issue_nil Hsl%issue_nil]. cbn [default from_option id].
  destruct (signed_by trustedSigner h c sig) eqn:Hsigned; cbn [negb]; [|done].
  assert (verified bundleBytes trustedSigner t ident h c) as Hv.
  { split; [pose proof (blen_nonneg bundleBytes); lia|done|by exists text|done|pose proof (blen_nonneg c); lia|]. exists sig. split; [done|]. split; [lia|done]. }
  destruct (bool_decide (bh_Cipher h = "age-x25519") && bool_decide (ident = None) && req) eqn:Hr; [done|].
  destruct (bool_decide (bh_Cipher h = "age-x25519") && bool_decide (ident = None)) eqn:Ha.
  { intros [= <-]. exists c. cbn. split; [done|]. split; [done|]. split; [done|]. left.
    apply andb_true_iff in Ha as [->%bool_decide_eq_true ->%bool_decide_eq_true]. by destruct req. }
  destruct (decryptPayloadBytes h c ident) as [pb|e] eqn:Hd; [|by destruct e]. destruct (read_payload pb) as [payload|] eqn:Hp; [|done].
  destruct (MarshalCanonicalPayload payload) as [canonical|] eqn:Hcan; [|done].
  destruct (bool_decide (canonical = pb)) eqn:Heq; cbn [negb]; [|done]. apply bool_decide_eq_true in Heq as ->.
  destruct (payload_issues payload h t) eqn:Hpi; [|done]. intros [= <-]. exists c. split; [done|]. split; [done|]. split; [done|]. right.
  by exists pb, payload.
Qed.

(** C23: What [VerifyBundle] accepts carries the trusted signer's signature over its header and
    ciphertext and is inside its time window; a payload it hands out was decrypted from that
    ciphertext, is canonical, names the publisher, has profiles in normal form only, no
    identifier and no endpoint twice, and a template for each that renders to JSON. *)
Theorem verified_bundle_is_sound bundleBytes trustedSigner now clock ident req r :
  VerifyBundle bundleBytes trustedSigner now clock ident req = (Some r, None) ->
  let t := if now =? 0 then clock else now in
  let h := vr_Header r in
  exists ciphertext, verified bundleBytes trustedSigner t ident h ciphertext
    /\ (req = true -> is_Some (vr_Payload r))
    /\ forall payload, vr_Payload r = Some payload ->
         payload_sound payload h t
         /\ exists raw payloadBytes, payload = settle raw /\ decryptPayloadBytes h ciphertext ident = Ok payloadBytes
              /\ read_payload payloadBytes = Some raw /\ MarshalCanonicalPayload raw = Some payloadBytes.
Proof.
  intros Hv t h. apply VerifyBundle_inv in Hv as (c & Hc & _ & _ & Hp). exists c. split; [done|].
  destruct Hp as [(Hn & _ & _ & ->)|(pb & raw & Hd & Hr & Hm & Hi & Hp)].
  { split; [done|]. intros payload E. congruence. }
  split; [by rewrite Hp|]. intros payload E. rewrite Hp in E. injection E as <-. split; [by apply payload_issues_nil|]. by exists raw, pb.
Qed.

(** ** The lax reader *)

(** A decoder that refuses nothing a strict one accepts. *)
Definition lax_accepts_strict : Prop :=
  (forall b w, read_wrapper b = Some w -> read_wrapper_lax b = Some w)
  /\ (forall b p, read_payload b = Some p -> read_payload_lax b = Some p).

Lemma header_sound_basics h now signer : header_sound h now (Ed25519KeyID signer) -> one_of (bh_Cipher h) ["age-x25519"; "none"] = true ->
  validateHeaderBasics h now (Ed25519KeyID signer) = Ok tt.
Proof.
  intros (Hp & _ & _ & (nonce & Hn) & Hw & Httl & Ht) Hc. unfold validateHeaderBasics. rewrite Hc, Hp, Hn, bool_decide_eq_true_2 by done.
  assert (is_blank (Ed25519KeyID signer) = false) as -> by (unfold is_blank; by rewrite Ed25519KeyID_trim).
  cbn [negb orb]. rewrite !(proj2 (Z.ltb_ge _ _)) by lia. by rewrite !(proj2 (Z.leb_gt _ _)) by lia.
Qed.

(** The strict verification implies the lax one: a payload [VerifyBundle] hands out is the one
    [VerifyAndDecrypt] reads at that time, up to the order of tags. *)
Theorem strict_verification_implies_lax bundleBytes trustedSigner now clock ident req r payload : lax_accepts_strict ->
  VerifyBundle bundleBytes trustedSigner now clock ident req = (Some r, None) -> vr_Payload r = Some payload ->
  let t := if now =? 0 then clock else now in
  exists raw, VerifyAndDecrypt bundleBytes trustedSigner ident t t = Ok raw /\ payload = settle raw.
Proof.
  intros [Hw Hp] Hv Hpay t. apply VerifyBundle_inv in Hv as (c & [Hlen Hk (text & Ht & Hd) Hh Hc (sig & Hs & Hl & He)] & _ & _ & Hr). fold t in Hh.
  destruct Hr as [(Hn & _)|(pb & raw & Hdec & Hread & _ & _ & Hpr)]; [congruence|]. rewrite Hpr in Hpay. injection Hpay as <-. exists raw. split; [|done].
  assert (one_of (bh_Cipher (vr_Header r)) ["age-x25519"; "none"] = true) as Hcipher.
  { apply one_of_true. unfold decryptPayloadBytes in Hdec. do 2 (case_bool_decide; [set_solver|]). done. }
  unfold VerifyAndDecrypt. rewrite (proj2 (Z.ltb_ge _ _)), (Hw _ _ Ht), Hcipher, header_sound_basics by (done || lia). cbn [negb rbind].
  destruct Hh as (_ & _ & _ & _ & _ & _ & Hwin). rewrite (proj2 (Z.ltb_ge _ _)) by lia. cbn [negb].
  unfold verify_wrapper, signed_by. rewrite Hd, (proj2 (Z.ltb_ge _ _)) by lia. rewrite Hs, Hk, Hl, He. cbn [andb negb Z.eqb Pos.eqb PublicKeySize SignatureSize rbind].
  match goal with |- rbind ?x _ = _ => assert (x = Ok pb) as -> end.
  { revert Hdec. unfold decryptPayloadBytes. case_bool_decide as E; [rewrite E; by intros [= ->]|]. case_bool_decide; [|done].
    destruct ident as [ident|]; [|done]. case_bool_decide; [|done]. done. }
  cbn [rbind]. by rewrite (Hp _ _ Hread).
Qed.

(** ** Bundles that are made *)

Lemma fingerprint16_printable s : Forall printable (bytes_of (fingerprint16 s)).
Proof.
  unfold fingerprint16. rewrite bytes_of_str_of by (apply Forall_take, bytes_of_ok). apply Forall_take, EncodeToString_printable, Sum256_ok.
Qed.

Lemma recipient_id_printable s : Forall printable (bytes_of ("age-x25519:" ++ fingerprint16 s)%string).
Proof. rewrite bytes_of_app. apply Forall_app. split; [decided|apply fingerprint16_printable]. Qed.

(** Options that give a header within its bounds. *)
Definition options_sound (o : GenerateOptions) (now : Z) : Prop :=
  is_blank (go_BundleID o) = false /\ 0 < go_Seq o < 2 ^ 64 /\ is_Some (decodeBundleNonce (go_Nonce o))
  /\ 0 < go_CreatedAt o <= go_ExpiresAt o /\ go_ExpiresAt o - go_CreatedAt o <= MaxBundleTTLSeconds
  /\ go_CreatedAt o - MaxClockSkewSeconds <= now <= go_ExpiresAt o /\ go_ExpiresAt o < 2 ^ 63
  /\ valid_string (go_BundleID o) /\ valid_string (go_Nonce o).

Lemma sound_header_issues h now expected : bh_Magic h = "SNB1" -> header_sound h now expected -> is_blank expected = false ->
  (bh_Cipher h = "age-x25519" /\ HasPrefix (bh_RecipientKeyID h) "age-x25519:" = true \/ bh_Cipher h = "none" /\ bh_RecipientKeyID h = "none") ->
  header_issues h now expected = [].
Proof.
  intros Hm (Hp & Hid & Hseq & (nonce & Hn) & Hw & Httl & Ht) Hb Hc. unfold header_issues.
  rewrite Hm, Hp, Hid, Hb, Hn, !bool_decide_eq_true_2 by done. cbn [issue negb app].
  rewrite (proj2 (Z.eqb_neq _ _) Hseq), !(proj2 (Z.leb_gt _ _)) by lia.
  rewrite (proj2 (Z.ltb_ge (bh_ExpiresAt h) (bh_CreatedAt h))), (proj2 (Z.ltb_ge (now + _) _)), (proj2 (Z.ltb_ge MaxBundleTTLSeconds _)),
    (proj2 (Z.ltb_ge (bh_ExpiresAt h) now)), !andb_false_r by lia. cbn [issue app].
  destruct Hc as [[-> ->]|[-> ->]]; reflexivity.
Qed.

(** The decoder reads back the wrapper that was written; decryption undoes encryption. *)
Definition wrapper_read_back (bytes : list Z) : Prop :=
  forall h text, header_text_ok h -> valid_string text -> json_wrapper h text = bytes -> read_wrapper bytes = Some (h, text).
Definition age_undoes : Prop :=
  forall key rnd b c, age_encrypt (age_recipient key) rnd b = Some c -> age_decrypt key c = Some b.

(** A payload that is read back from its encoding, within the limits. *)
Definition payload_survives (payload : BundlePayload) : Prop :=
  forall b, MarshalCanonicalPayload payload = Some b -> read_payload b = Some payload /\ blen b <= MaxPayloadBytes.

(** The ciphertext of a payload is within its limits. *)
Definition seals_within (e : gen_env) (o : GenerateOptions) (payload : BundlePayload) : Prop :=
  forall b c cipher rid, MarshalCanonicalPayload payload = Some b -> seal_payload e o b = Ok (c, cipher, rid) ->
    bytes_ok c /\ 0 < blen c <= MaxCiphertextBytes.

Lemma seal_payload_opens e o pb c cipher rid ident : age_undoes -> blen pb <= MaxPayloadBytes ->
  is_blank (go_RecipientPublicKey o) = true \/ go_RecipientPublicKey o = age_recipient ident ->
  seal_payload e o pb = Ok (c, cipher, rid) ->
  ((cipher = "age-x25519" /\ exists s, rid = ("age-x25519:" ++ fingerprint16 s)%string) \/ cipher = "none" /\ rid = "none")
  /\ forall h, bh_Cipher h = cipher -> bh_RecipientKeyID h = rid -> decryptPayloadBytes h c (Some ident) = Ok pb.
Proof.
  intros Hage Hl Hrec. unfold seal_payload. destruct (is_blank (go_RecipientPublicKey o)) eqn:Hb; cbn [negb].
  - destruct (go_AllowPlaintext o); cbn [negb]; [|done]. intros [= <- <- <-]. split; [by right|]. intros h Hc _.
    unfold decryptPayloadBytes. by rewrite Hc.
  - destruct Hrec as [|Hrec]; [done|]. destruct (age_parse _); cbn [negb]; [|done].
    destruct (age_encrypt (go_RecipientPublicKey o) _ pb) as [c'|] eqn:He; [|done]. intros [= <- <- <-]. split; [left; split; [done|by eexists]|].
    intros h Hc Hr. unfold decryptPayloadBytes. rewrite Hc, Hr, Hrec, TrimSpace_printable by apply recipient_id_printable.
    rewrite (bool_decide_eq_false_2 (_ = "none")), !bool_decide_eq_true_2 by done. rewrite Hrec in He. rewrite (Hage _ _ _ _ He).
    unfold read_limited. by rewrite (proj2 (Z.ltb_ge _ _)).
Qed.

Lemma complete_options_recipient e o o' : complete_options e o = Ok o' ->
  go_RecipientPublicKey o' = go_RecipientPublicKey o /\ go_SignerKeyID o' = go_SignerKeyID o.
Proof. unfold complete_options. destruct (is_empty _); [|by intros [= <-]]. destruct (ge_nonce e); [by intros [= <-]|done]. Qed.

Lemma public_key_length priv : blen priv = PrivateKeySize -> blen (public_key priv) = PublicKeySize.
Proof. unfold blen, public_key, PrivateKeySize, PublicKeySize. rewrite length_drop. lia. Qed.

(** The header is text that JSON keeps. *)
Lemma generated_header_text o now signer cipher rid (sig : list Z) : options_sound o now -> bytes_ok sig ->
  ((cipher = "age-x25519" /\ exists s, rid = ("age-x25519:" ++ fingerprint16 s)%string) \/ cipher = "none" /\ rid = "none") ->
  header_text_ok (mkHeader "SNB1" (go_BundleID o) (Ed25519KeyID signer) rid (go_Seq o) (go_Nonce o) (go_CreatedAt o) (go_ExpiresAt o) cipher (EncodeToString sig)).
Proof.
  intros (_ & Hseq & _ & Ht & _ & _ & Hmax & Hid & Hn) Hs Hc. split; cbn [bh_Magic bh_BundleID bh_PublisherKeyID bh_RecipientKeyID bh_Nonce bh_Cipher bh_Signature bh_Seq bh_CreatedAt bh_ExpiresAt].
  - repeat apply Forall_cons_2; try done.
    + apply printable_valid, Ed25519KeyID_printable.
    + destruct Hc as [[_ [s ->]]|[_ ->]]; [apply printable_valid, recipient_id_printable|done].
    + by destruct Hc as [[-> _]|[-> _]].
    + by apply printable_valid, EncodeToString_printable.
  - unfold is_u64, is_i64, min_i64, max_i64. lia.
Qed.

(** C36: A bundle that is made verifies: with the publisher's key pair, options and sizes within
    the bounds of a verifier, which the generator does not check (a life of at most 14 days,
    within which it is read), a payload that survives JSON and has no issues, encrypted to the
    reader or in the open, [VerifyBundle] hands out that payload with the tags of its profiles
    sorted, and the digest of the bundle. *)
Theorem generated_bundle_verifies e payload priv o o' bytes ident now clock :
  wrapper_read_back bytes -> age_undoes -> payload_survives payload -> key_pair priv ->
  GenerateBundleWithOptions e payload priv o = Ok bytes -> complete_options e o = Ok o' ->
  seals_within e o' payload -> options_sound o' now -> now <> 0 -> blen bytes <= MaxBundleBytes ->
  is_blank (go_RecipientPublicKey o) = true \/ go_RecipientPublicKey o = age_recipient ident ->
  (forall h, bh_PublisherKeyID h = go_SignerKeyID o -> payload_issues payload h now = []) ->
  exists h, VerifyBundle bytes (public_key priv) now clock (Some ident) true
            = (Some (mkResult h (Ed25519KeyID (public_key priv)) (EncodeToString (Sum256 bytes)) (Some (settle payload))), None)
    /\ bh_BundleID h = go_BundleID o' /\ bh_Seq h = go_Seq o'.
Proof.
  intros Hread Hage Hpay [Hkl Hk] Hg Ho Hsize Hopt Hnow Hlen Hrec Hissues.
  unfold GenerateBundleWithOptions in Hg. destruct (MarshalCanonicalPayload payload) as [pb|] eqn:Hm; [|done].
  rewrite Ho in Hg. cbn [rbind] in Hg. apply complete_options_recipient in Ho as [Er Es]. rewrite <- Er in Hrec. rewrite <- Es in Hissues.
  destruct (validateSigningKey priv (go_SignerKeyID o')) as [[]|] eqn:Hv; cbn [rbind] in Hg; [|done].
  assert (go_SignerKeyID o' = Ed25519KeyID (public_key priv)) as Esig.
  { revert Hv. unfold validateSigningKey. destruct (blen priv =? _); [|done]. destruct (is_blank (go_SignerKeyID o')); [done|]. cbn [negb]. by case_bool_decide. }
  destruct (seal_payload e o' pb) as [[[c cipher] rid]|] eqn:Hseal; cbn [rbind] in Hg; [|done]. injection Hg as Hg.
  destruct (Hpay pb Hm) as [Hrp Hpl]. destruct (Hsize pb c cipher rid Hm Hseal) as [Hcb Hcl].
  destruct (seal_payload_opens _ _ _ _ _ _ ident Hage Hpl Hrec Hseal) as [Hc Hopen].
  set (h0 := mkHeader _ _ _ _ _ _ _ _ _ _) in Hg. destruct (Hk (signatureInput (json_header h0) c)) as (Hsb & Hsl & Hsv).
  set (sig := ed_sign priv _) in *. set (h := set_signature (EncodeToString sig) h0) in *.
  assert (header_text_ok h) as Htext by (unfold h, h0, set_signature; cbn; rewrite Esig; by eapply generated_header_text).
  exists h. split; [|done]. unfold VerifyBundle. cbv zeta. rewrite (proj2 (Z.eqb_neq _ _) Hnow).
  assert (0 < blen bytes) as Hpos by (rewrite <- Hg; unfold json_wrapper, json_object, blen; cbn [app length]; lia).
  rewrite (proj2 (Z.eqb_neq _ _)), (proj2 (Z.ltb_ge _ _)) by lia. cbn [orb].
  rewrite public_key_length by done. cbn [negb Z.eqb Pos.eqb PublicKeySize]. rewrite (Hread h (EncodeToString c)) by (done || by apply printable_valid, EncodeToString_printable).
  rewrite (sound_header_issues h).
  - cbn [app]. unfold size_issues. change (bh_Signature h) with (EncodeToString sig). rewrite !DecodeString_EncodeToString by done. cbn [default from_option id].
    rewrite (proj2 (Z.eqb_neq _ _)), (proj2 (Z.ltb_ge _ _)), Hsl by lia. cbn [orb negb issue app Z.eqb Pos.eqb SignatureSize].
    unfold signed_by. change (unsigned h) with h0. rewrite Hsv. cbn [negb]. rewrite (bool_decide_eq_false_2 (Some ident = None)), !andb_false_r by done.
    cbn [andb]. rewrite (Hopen h) by done. rewrite Hrp, Hm, bool_decide_eq_true_2 by done. cbn [negb]. by rewrite Hissues.
  - done.
  - destruct Hopt as (Hid & Hseq & Hn & Hw & Httl & Ht & _). repeat split; cbn; try done; lia.
  - unfold is_blank. by rewrite Ed25519KeyID_trim.
  - destruct Hc as [[-> [s ->]]|[-> ->]]; [left|right]; (split; [reflexivity|]); [apply (HasPrefix_app "age-x25519:")|reflexivity].
Qed.
End verified.
