(* ===== verification/Import.v ===== *)
(** * The bundle importer ([pkg/importctl/import.go], [replay_store.go])

    Bundles are parsed, checked against the trusted and revoked signers and the replay state,
    reserved, and stored; storing commits the reservation.  The stores are a class; the
    address of a payload is the number under which it was handed out. *)

From S2P Require Import Prelude Float64 Sha256 GoStr Profile Trust Bundle Chunk ChunkReasm.

#[local] Open Scope string_scope.
#[local] Open Scope list_scope.
#[local] Open Scope Z_scope.

Inductive ErrorCode :=
  | CodeMalformedBundle
  | CodeCipherNotAllowed
  | CodeNoTrustedSigners
  | CodeUntrustedSigner
  | CodeInvalidSignature
  | CodeSignerRevoked
  | CodeDecryptRequired
  | CodeDecryptFailed
  | CodeReplayDetected
  | CodeInvalidPayload
  | CodeStoreNotConfigured.

(** An [ImportError], or another error. *)
Inductive import_err :=
  | ImportError (code : ErrorCode)
  | EImport (message : string).

Definition ReplayStateVersion : Z := 2.

Record SignerReplayState := mkSigner {
  sr_MaxSeq : Z;
  sr_LastCreatedAt : Z;
  sr_Nonces : gmap string bool;
}.

Record ReplayState := mkReplay {
  rs_Version : Z;
  rs_BundleIDs : gset string;
  rs_Signers : gmap string SignerReplayState;
}.

(** The stores of profiles, templates and replay states: loading may fail, saving may fail. *)
Class Stores (S : Type) := {
  load_profiles : S -> option (list Profile);
  save_profiles : list Profile -> S -> bool * S;
  load_templates : S -> option (gmap string string);
  save_templates : gmap string string -> S -> bool * S;
  save_replay : ReplayState -> S -> bool * S;
}.

(** The header alone, which [parseHeader] reads strictly but for the ciphertext. *)
Class HeaderJSON := read_header : list Z -> option BundleHeader.

Record Importer := mkImporter {
  im_trustedByKeyID : gmap string (list Z);
  im_seenBundleIDs : gset string;
  im_replayState : ReplayState;
  im_pendingReplay : gmap string BundleHeader;
  im_pendingPayload : gmap Z string;
  im_ageIdentity : option (list Z);
  im_store : bool;
  im_templateStore : bool;
  im_replayStore : bool;
  im_trustState : option TrustState;
  im_handed : Z;  (** payloads handed out, the next address *)
}.

(** ** Making an importer *)

Fixpoint trusted_keys (keys : list (list Z)) (m : gmap string (list Z)) : gmap string (list Z) :=
  match keys with
  | [] => m
  | k :: keys' => trusted_keys keys' (if blen k =? PublicKeySize then <[Ed25519KeyID k := k]> m else m)
  end.

(** The replay state to start from; [loaded] and [ids] are what the two calls of the replay
    store give, when there is one. *)
Definition initial_replay (store : bool) (loaded : option ReplayState) (ids : option (gset string)) : ReplayState :=
  let empty := mkReplay ReplayStateVersion ∅ ∅ in
  if store then
    match loaded with
    | Some st => st
    | None => match ids with Some s => mkReplay ReplayStateVersion s ∅ | None => empty end
    end
  else empty.

Definition NewImporterWithTrust (store templateStore replayStore : bool) (loaded : option ReplayState) (ids : option (gset string))
    (trustedKeys : list (list Z)) (ageIdentity : option (list Z)) (trustState : option TrustState) (now : Z) : Importer :=
  let trustedKeys :=
    match trustedKeys, trustState with
    | [], Some ts => match ActivePublicKeys ts now with Ok active => active | Err _ => [] end
    | _, _ => trustedKeys
    end in
  let st := initial_replay replayStore loaded ids in
  mkImporter (trusted_keys trustedKeys ∅) (rs_BundleIDs st) st ∅ ∅ ageIdentity store templateStore replayStore trustState 0.

Definition set_trust (ts : option TrustState) (i : Importer) : Importer :=
  mkImporter (im_trustedByKeyID i) (im_seenBundleIDs i) (im_replayState i) (im_pendingReplay i) (im_pendingPayload i) (im_ageIdentity i)
    (im_store i) (im_templateStore i) (im_replayStore i) ts (im_handed i).

Definition SetTrustState (ts : option TrustState) (i : Importer) : Importer := set_trust ts i.

(** The importer with other replay tables. *)
Definition set_replay (seen : gset string) (st : ReplayState) (pend : gmap string BundleHeader) (ptrs : gmap Z string) (handed : Z) (i : Importer) : Importer :=
  mkImporter (im_trustedByKeyID i) seen st pend ptrs (im_ageIdentity i) (im_store i) (im_templateStore i) (im_replayStore i) (im_trustState i) handed.

(** ** The replay tables *)

Definition replayKey (h : BundleHeader) : string :=
  (bh_PublisherKeyID h ++ "|" ++ str_of (json_int (bh_Seq h)) ++ "|" ++ bh_Nonce h ++ "|" ++ bh_BundleID h)%string.

(** Whether a header is new to the state of its signer. *)
Definition signer_admits (st : ReplayState) (h : BundleHeader) : bool :=
  match rs_Signers st !! bh_PublisherKeyID h with
  | None => true
  | Some sg => negb (default false (sr_Nonces sg !! bh_Nonce h)) && negb (bh_Seq h <=? sr_MaxSeq sg)
  end.

Definition reserveReplay (h : BundleHeader) (i : Importer) : res import_err Z * Importer :=
  let key := replayKey h in
  if bool_decide (bh_BundleID h ∈ im_seenBundleIDs i) then (Err (ImportError CodeReplayDetected), i)
  else match im_pendingReplay i !! key with
       | Some _ => (Err (ImportError CodeReplayDetected), i)
       | None =>
           if negb (signer_admits (im_replayState i) h) then (Err (ImportError CodeReplayDetected), i)
           else
             let addr := im_handed i in
             (Ok addr, set_replay (im_seenBundleIDs i) (im_replayState i) (<[key := h]> (im_pendingReplay i)) (<[addr := key]> (im_pendingPayload i)) (addr + 1) i)
       end.

Definition zeroHeader : BundleHeader := mkHeader EmptyString EmptyString EmptyString EmptyString 0 EmptyString 0 0 EmptyString EmptyString.

Definition pendingHeader (addr : Z) (i : Importer) : BundleHeader * string :=
  let key := default EmptyString (im_pendingPayload i !! addr) in
  if is_empty key then (zeroHeader, EmptyString) else (default zeroHeader (im_pendingReplay i !! key), key).

(** The first payload found under a key is dropped. *)
Definition drop_pointer (key : string) (ptrs : gmap Z string) : gmap Z string :=
  match filter (fun pk => pk.2 = key) (map_to_list ptrs) with
  | (p, _) :: _ => delete p ptrs
  | [] => ptrs
  end.

Definition zeroSigner : SignerReplayState := mkSigner 0 0 ∅.

(** The state of a signer after one of its bundles. *)
Definition advance_signer (h : BundleHeader) (sg : SignerReplayState) : SignerReplayState :=
  mkSigner (if sr_MaxSeq sg <? bh_Seq h then bh_Seq h else sr_MaxSeq sg)
    (if sr_LastCreatedAt sg <? bh_CreatedAt h then bh_CreatedAt h else sr_LastCreatedAt sg)
    (<[bh_Nonce h := true]> (sr_Nonces sg)).

Definition advance_replay (h : BundleHeader) (st : ReplayState) : ReplayState :=
  mkReplay (rs_Version st) ({[bh_BundleID h]} ∪ rs_BundleIDs st)
    (<[bh_PublisherKeyID h := advance_signer h (default zeroSigner (rs_Signers st !! bh_PublisherKeyID h))]> (rs_Signers st)).

Section importer.
Context {S : Type} `{ED : Ed25519, FJ : FloatJSON, BJ : BundleJSON, AG : Age, TP : Templates, UL : UnicodeLower, HJ : HeaderJSON, ST : !Stores S}.
(** The order in which a range over a map of chunks visits them. *)
Context (range : gmap Z EncodedChunk -> list EncodedChunk).

Definition commitReplay (h : BundleHeader) (key : string) (i : Importer) (s : S) : res import_err unit * (Importer * S) :=
  let pend := delete key (im_pendingReplay i) in
  let ptrs := drop_pointer key (im_pendingPayload i) in
  if is_empty (bh_BundleID h) then (Ok tt, (set_replay (im_seenBundleIDs i) (im_replayState i) pend ptrs (im_handed i) i, s))
  else
    let st := advance_replay h (im_replayState i) in
    let i := set_replay (rs_BundleIDs st) st pend ptrs (im_handed i) i in
    if im_replayStore i then
      let '(ok, s) := save_replay (mkReplay ReplayStateVersion (rs_BundleIDs st) (rs_Signers st)) s in
      (if ok then Ok tt else Err (EImport "save replay state"), (i, s))
    else (Ok tt, (i, s)).

(** ** Parsing *)

Definition isSignerRevoked (i : Importer) (keyID : string) (now : Z) : bool :=
  match im_trustState i with Some ts => IsRevoked ts keyID now | None => false end.

Definition parseHeader (raw : list Z) : option BundleHeader :=
  if (blen raw =? 0) || (MaxBundleBytes <? blen raw) then None else read_header raw.

Definition verifyErrorHasAny (codes want : list string) : bool := existsb (fun c => bool_decide (c ∈ want)) codes.

(** The error of the importer for one of the verifier. *)
Definition verify_failure (e : bundle_err) : import_err :=
  ImportError match e with
  | ErrInvalidSignature => CodeInvalidSignature
  | ErrDecryptionFailed => CodeDecryptFailed
  | ErrVerify codes => if verifyErrorHasAny codes ["signature_b64"; "signature_size"] then CodeInvalidSignature else CodeInvalidPayload
  | _ => CodeInvalidPayload
  end.

(** A payload with its address; [now] and [clock] are the readings for the revocation and
    for the verification. *)
Definition ParseBytes (bundleBytes : list Z) (now clock : Z) (i : Importer) : res import_err (Z * BundlePayload) * Importer :=
  let fail c := (Err (ImportError c), i) in
  if (blen bundleBytes =? 0) || (MaxBundleBytes <? blen bundleBytes) then fail CodeMalformedBundle
  else if bool_decide (im_trustedByKeyID i = ∅) then fail CodeNoTrustedSigners
  else match parseHeader bundleBytes with
       | None => fail CodeMalformedBundle
       | Some hdr =>
           if negb (bool_decide (bh_Cipher hdr = "age-x25519")) then fail CodeCipherNotAllowed
           else if isSignerRevoked i (bh_PublisherKeyID hdr) now then fail CodeSignerRevoked
           else match im_trustedByKeyID i !! bh_PublisherKeyID hdr with
                | None => fail CodeUntrustedSigner
                | Some pubKey =>
                    match VerifyBundle bundleBytes pubKey 0 clock (im_ageIdentity i) true with
                    | (_, Some e) => (Err (verify_failure e), i)
                    | (Some r, None) =>
                        match vr_Payload r with
                        | None => fail CodeDecryptRequired
                        | Some payload =>
                            let '(out, i) := reserveReplay (vr_Header r) i in
                            (match out with Ok addr => Ok (addr, payload) | Err e => Err e end, i)
                        end
                    | (None, None) => fail CodeDecryptRequired
                    end
                end
       end.

(** [base64.RawURLEncoding.EncodedLen] *)
Definition EncodedLen (n : Z) : Z := (n * 8 + 5) / 6.
Definition uri_prefix : string := "snb://v2:".

Definition ParseURI (uri : string) (now clock : Z) (i : Importer) : res import_err (Z * BundlePayload) * Importer :=
  if negb (HasPrefix uri uri_prefix) then (Err (ImportError CodeMalformedBundle), i)
  else if EncodedLen MaxBundleBytes + slen uri_prefix <? slen uri then (Err (ImportError CodeMalformedBundle), i)
  else match DecodeString (TrimPrefix uri uri_prefix) with
       | None => (Err (ImportError CodeMalformedBundle), i)
       | Some b => ParseBytes b now clock i
       end.

(** The lines one by one, until the bundle is complete. *)
Fixpoint collect_lines (lines : list string) (t now clock : Z) (r : ChunkReassembler) (i : Importer) : res import_err (Z * BundlePayload) * Importer :=
  let malformed := (Err (ImportError CodeMalformedBundle), i) in
  match lines with
  | [] => malformed
  | line :: lines' =>
      let line := TrimSpace line in
      if is_empty line then collect_lines lines' t now clock r i
      else match ParseEncodedChunkText line with
           | Err _ => malformed
           | Ok c =>
               match AddChunk range t r c t with
               | (_, Err _) => malformed
               | (_, Ok (Some payload)) => ParseBytes payload now clock i
               | (r, Ok None) => collect_lines lines' t now clock r i
               end
           end
  end.

(** [t] is the time the chunks are collected at, in nanoseconds. *)
Definition ParseErasureChunkLines (lines : list string) (t now clock : Z) (i : Importer) : res import_err (Z * BundlePayload) * Importer :=
  match lines with
  | [] => (Err (ImportError CodeMalformedBundle), i)
  | _ => collect_lines lines t now clock (NewChunkReassembler DefaultMaxCacheByte (10 * Minute)) i
  end.

(** [strings.Split] at newlines. *)
Fixpoint split_lines (b acc : list Z) : list string :=
  match b with
  | [] => [str_of (reverse acc)]
  | c :: b' => if c =? 10 then str_of (reverse acc) :: split_lines b' [] else split_lines b' (c :: acc)
  end.

(** [ImportFile], from the contents of the file. *)
Definition import_contents (raw : list Z) (t now clock : Z) (i : Importer) : res import_err (Z * BundlePayload) * Importer :=
  if MaxBundleBytes * 4 <? blen raw then (Err (ImportError CodeMalformedBundle), i)
  else
    let text := TrimSpace (str_of raw) in
    if HasPrefix text chunk_text_prefix then ParseErasureChunkLines (split_lines (bytes_of text) []) t now clock i
    else if MaxBundleBytes <? blen raw then (Err (ImportError CodeMalformedBundle), i)
    else if HasPrefix text uri_prefix then ParseURI text now clock i
    else ParseBytes raw now clock i.

(** ** Storing *)

(** The profiles that stay, and their owners by identifier and by endpoint; the last one
    wins. *)
Definition keep_existing (revoked : list string) (existing : list Profile) : list Profile :=
  filter (fun p => pr_ID p ∉ revoked) existing.
Definition by_id (ps : list Profile) : gmap string Profile := fold_left (fun m p => <[pr_ID p := p]> m) ps ∅.
Definition by_endpoint (ps : list Profile) : gmap string string := fold_left (fun m p => <[endpoint_key p := pr_ID p]> m) ps ∅.

(** Two profiles of one identifier that are reached differently. *)
Definition differs (prev p : Profile) : bool :=
  negb (bool_decide (pr_Family prev = pr_Family p)) || negb (bool_decide (ep_Host (pr_Endpoint prev) = ep_Host (pr_Endpoint p)))
  || negb (ep_Port (pr_Endpoint prev) =? ep_Port (pr_Endpoint p)).
Definition id_conflict (m : gmap string Profile) (p : Profile) : bool :=
  match m !! pr_ID p with Some prev => differs prev p | None => false end.
Definition endpoint_conflict (m : gmap string string) (p : Profile) : bool :=
  match m !! endpoint_key p with Some owner => negb (bool_decide (owner = pr_ID p)) | None => false end.

(** The defaults of source and health of a profile that comes in. *)
Definition fill_source (now : Z) (s : SourceInfo) : SourceInfo :=
  mkSource (if is_empty (so_Source s) then "bundle" else so_Source s) (if so_TrustLevel s =? 0 then 80 else so_TrustLevel s)
    (if so_ImportedAt s =? 0 then now else so_ImportedAt s) (so_PublisherKey s).

Definition fill_health (now : Z) (h : Health) : Health :=
  let ewma := if PrimFloat.eqb (he_Score h) 0 && PrimFloat.eqb (he_SuccessEWMA h) 0 then 0.5%float else he_SuccessEWMA h in
  let ok := if (he_LastFailAt h =? 0) && (he_LastOkAt h =? 0) then now else he_LastOkAt h in
  mkHealth (he_Score h) ewma (he_MedianHandshakeMs h) ok (he_LastFailAt h) (he_LastFailReason h) (he_CooldownUntil h) (he_FailureCount h)
    (he_ConsecutiveFails h).

Definition incoming (now : Z) (p : Profile) : Profile :=
  mkProfile (pr_ID p) (pr_Family p) true (pr_ManualDisabled p) (pr_CreatedAt p) (pr_ExpiresAt p) (pr_Priority p) (pr_TemplateRef p)
    (pr_Endpoint p) (pr_Capabilities p) (pr_Credentials p) (fill_source now (pr_Source p)) (pr_Notes p) (pr_MutationPolicy p)
    (fill_health now (pr_Health p)).

Local Open Scope res_scope.

(** The loop over the new profiles; [exID] and [exEP] are the owners among the old ones. *)
Fixpoint merge_new (now : Z) (exID : gmap string Profile) (exEP : gmap string string) (ps : list Profile)
    (newID : gmap string Profile) (newEP : gmap string string) : res import_err (list Profile) :=
  match ps with
  | [] => Ok []
  | p :: ps' =>
      match NormalizeForWire p now with
      | Err _ => Err (EImport "profile invalid")
      | Ok p =>
          require! negb (id_conflict exID p) else EImport "bundle invalid: conflicting profile id";
          require! negb (id_conflict newID p) else EImport "bundle invalid: conflicting duplicate profile id";
          require! negb (endpoint_conflict exEP p) else EImport "bundle invalid: endpoint conflict";
          require! negb (endpoint_conflict newEP p) else EImport "bundle invalid: endpoint conflict";
          let p := incoming now p in
          rest <-! merge_new now exID exEP ps' (<[pr_ID p := p]> newID) (<[endpoint_key p := pr_ID p]> newEP);
          Ok (p :: rest)
      end
  end.

(** The profiles to be saved. *)
Definition merged (payload : BundlePayload) (existing : list Profile) (now : Z) : res import_err (list Profile) :=
  let kept := keep_existing (default [] (bp_Revocations payload)) existing in
  new <-! merge_new now (by_id kept) (by_endpoint kept) (default [] (bp_Profiles payload)) ∅ ∅;
  Ok (kept ++ new).

(** The templates are written over those stored under the same keys. *)
Definition store_templates (payload : BundlePayload) (i : Importer) (s : S) : bool * S :=
  if im_templateStore i && negb (bool_decide (bp_Templates payload = ∅))
  then save_templates ((te_TemplateText <$> bp_Templates payload) ∪ default ∅ (load_templates s)) s
  else (true, s).

(** A nil payload is [None]. *)
Definition ProcessAndStore (payload : option (Z * BundlePayload)) (now : Z) (i : Importer) (s : S) : res import_err unit * (Importer * S) :=
  match payload with
  | None => (Err (ImportError CodeInvalidPayload), (i, s))
  | Some (addr, payload) =>
      if negb (im_store i) then (Err (ImportError CodeStoreNotConfigured), (i, s))
      else
        let '(header, key) := pendingHeader addr i in
        match merged payload (default [] (load_profiles s)) now with
        | Err e => (Err e, (i, s))
        | Ok updated =>
            let '(ok, s) := store_templates payload i s in
            if negb ok then (Err (EImport "save templates"), (i, s))
            else
              let '(ok, s) := save_profiles updated s in
              if negb ok then (Err (EImport "save profiles"), (i, s))
              else if is_empty key then (Ok tt, (i, s))
              else commitReplay header key i s
        end
  end.
End importer.
