(* ===== verification/ImportSpec.v ===== *)
(** * What the importer promises

    Accepted bundles are authentic, no bundle is accepted twice, stored bundles make older
    ones stale, storing keeps the owners of identifiers and endpoints, and a bundle cut into
    lines of chunks imports like the bundle. *)

From S2P Require Import Prelude Float64 Sha256 GoStr Profile ProfileSpec Trust Bundle BundleSpec Chunk ChunkReasm Import.

#[local] Open Scope string_scope.
#[local] Open Scope list_scope.
#[local] Open Scope Z_scope.
#[local] Set Warnings "-clear-no-such-hyp".

Section spec.
Context {S : Type} `{ED : Ed25519, FJ : FloatJSON, BJ : BundleJSON, AG : Age, TP : Templates, UL : UnicodeLower, HJ : HeaderJSON, ST : !Stores S}.

(** ** Parsing *)

Lemma replayKey_nonempty h : is_empty (replayKey h) = false.
Proof.
  destruct (is_empty (replayKey h)) eqn:He; [|done]. apply is_empty_spec in He. apply (f_equal bytes_of) in He.
  unfold replayKey in He. rewrite !bytes_of_app in He. cbn in He. by destruct (bytes_of (bh_PublisherKeyID h)).
Qed.

Lemma reserveReplay_ok h i addr i' : reserveReplay h i = (Ok addr, i') ->
  (bh_BundleID h ∉ im_seenBundleIDs i) /\ im_pendingReplay i !! replayKey h = None /\ signer_admits (im_replayState i) h = true
  /\ addr = im_handed i
  /\ i' = set_replay (im_seenBundleIDs i) (im_replayState i) (<[replayKey h := h]> (im_pendingReplay i)) (<[addr := replayKey h]> (im_pendingPayload i)) (addr + 1) i.
Proof.
  unfold reserveReplay. case_bool_decide; [done|]. destruct (im_pendingReplay i !! replayKey h) eqn:Hp; [done|].
  destruct (signer_admits (im_replayState i) h); cbn [negb]; [|done]. by intros [= <- <-].
Qed.

Lemma reserveReplay_err h i e i' : reserveReplay h i = (Err e, i') -> i' = i.
Proof. unfold reserveReplay. case_bool_decide; [by intros [=]|]. destruct (_ !! _); [by intros [=]|]. destruct (negb _); by intros [=]. Qed.

Lemma ParseBytes_ok b now clock i addr payload i' : ParseBytes b now clock i = (Ok (addr, payload), i') ->
  exists hdr pub r, parseHeader b = Some hdr /\ bh_Cipher hdr = "age-x25519" /\ isSignerRevoked i (bh_PublisherKeyID hdr) now = false
    /\ im_trustedByKeyID i !! bh_PublisherKeyID hdr = Some pub /\ VerifyBundle b pub 0 clock (im_ageIdentity i) true = (Some r, None)
    /\ vr_Payload r = Some payload /\ reserveReplay (vr_Header r) i = (Ok addr, i').
Proof.
  unfold ParseBytes. destruct (_ || _); [done|]. case_bool_decide; [done|]. destruct (parseHeader b) as [hdr|]; [|done].
  case_bool_decide as Hc; cbn [negb]; [|done]. destruct (isSignerRevoked _ _ _) eqn:Hr; [done|].
  destruct (im_trustedByKeyID i !! bh_PublisherKeyID hdr) as [pub|] eqn:Hp; [|done].
  destruct (VerifyBundle b pub 0 clock _ true) as [[r|] [e|]] eqn:Hv; try done. destruct (vr_Payload r) as [pl|] eqn:Hpl; [|done].
  destruct (reserveReplay (vr_Header r) i) as [[a|e] i2] eqn:Hres; [|done]. intros [= <- <- <-]. by exists hdr, pub, r.
Qed.

(** A refused parse leaves the importer as it was. *)
Lemma ParseBytes_err b now clock i e i' : ParseBytes b now clock i = (Err e, i') -> i' = i.
Proof.
  unfold ParseBytes. destruct (_ || _); [by intros [=]|]. case_bool_decide; [by intros [=]|]. destruct (parseHeader b) as [hdr|]; [|by intros [=]].
  destruct (negb _); [by intros [=]|]. destruct (isSignerRevoked _ _ _); [by intros [=]|]. destruct (_ !! _) as [pub|]; [|by intros [=]].
  destruct (VerifyBundle b pub 0 clock _ true) as [[r|] [e'|]]; [by intros [=]| |by intros [=]..]. destruct (vr_Payload r); [|by intros [=]].
  destruct (reserveReplay (vr_Header r) i) as [[a|e2] i2] eqn:Hres; [done|]. intros [= <- <-]. by eapply reserveReplay_err.
Qed.

(** The two readers of a header agree. *)
Definition header_agrees : Prop := forall b h text, read_wrapper b = Some (h, text) -> read_header b = Some h.

(** C14: A bundle that is handed out was encrypted for this importer, signed by a trusted key
    that is not revoked, inside its time window, and has a sound payload; its header is
    reserved under the payload's address. *)
Theorem accepted_bundle_is_authentic b now clock i addr payload i' : header_agrees ->
  ParseBytes b now clock i = (Ok (addr, payload), i') ->
  exists h pub ciphertext, pendingHeader addr i' = (h, replayKey h) /\ bh_Cipher h = "age-x25519"
    /\ im_trustedByKeyID i !! bh_PublisherKeyID h = Some pub /\ bh_PublisherKeyID h = Ed25519KeyID pub
    /\ isSignerRevoked i (bh_PublisherKeyID h) now = false
    /\ verified b pub clock (im_ageIdentity i) h ciphertext /\ payload_sound payload h clock.
Proof.
  intros Hagree (hdr & pub & r & Hh & Hc & Hrev & Ht & Hv & Hpl & Hres)%ParseBytes_ok.
  apply VerifyBundle_inv in Hv as (c & Hver & _ & _ & Hp). cbn [Z.eqb] in Hver, Hp.
  assert (hdr = vr_Header r) as ->.
  { destruct Hver as [_ _ (text & Hw & _)]. apply Hagree in Hw. revert Hh. unfold parseHeader. destruct (_ || _); [done|]. congruence. }
  apply reserveReplay_ok in Hres as (_ & _ & _ & -> & ->). exists (vr_Header r), pub, c.
  split. { unfold pendingHeader, set_replay. cbn [im_pendingPayload im_pendingReplay]. rewrite lookup_insert_eq. cbn [default from_option id].
    by rewrite replayKey_nonempty, lookup_insert_eq. }
  split; [done|]. split; [done|]. split; [by destruct Hver as [_ _ _ (? & _)]|]. split; [done|]. split; [done|].
  destruct Hp as [(? & _)|(pb & raw & _ & _ & _ & Hi & E)]; [congruence|]. rewrite E in Hpl. injection Hpl as <-. by apply payload_issues_nil.
Qed.

(** ** Histories *)

Inductive import_op :=
  | OpParse (bundleBytes : list Z) (now clock : Z)
  | OpStore (payload : option (Z * BundlePayload)) (now : Z)
  | OpTrust (ts : option TrustState).

(** The importer and the stores, with the headers of the bundles handed out and of those
    stored so far. *)
Record world := mkWorld {
  wo_importer : Importer;
  wo_stores : S;
  wo_accepted : list BundleHeader;
  wo_stored : list BundleHeader;
}.

Definition import_step (w : world) (o : import_op) : world :=
  match o with
  | OpParse b now clock =>
      let '(out, i) := ParseBytes b now clock (wo_importer w) in
      mkWorld i (wo_stores w) (match out with Ok (addr, _) => (pendingHeader addr i).1 :: wo_accepted w | Err _ => wo_accepted w end) (wo_stored w)
  | OpStore payload now =>
      let '(out, (i, s)) := ProcessAndStore payload now (wo_importer w) (wo_stores w) in
      let header := match payload with Some (addr, _) => pendingHeader addr (wo_importer w) | None => (zeroHeader, EmptyString) end in
      mkWorld i s (wo_accepted w) (if is_ok out && negb (is_empty header.2) then header.1 :: wo_stored w else wo_stored w)
  | OpTrust ts => mkWorld (SetTrustState ts (wo_importer w)) (wo_stores w) (wo_accepted w) (wo_stored w)
  end.

Definition import_run (ops : list import_op) (w : world) : world := fold_left import_step ops w.

(** What a stored bundle leaves behind. *)
Definition recorded (i : Importer) (h : BundleHeader) : Prop :=
  (bh_BundleID h ∈ im_seenBundleIDs i)
  /\ exists sg, rs_Signers (im_replayState i) !! bh_PublisherKeyID h = Some sg /\ bh_Seq h <= sr_MaxSeq sg /\ sr_Nonces sg !! bh_Nonce h = Some true.

Record replay_ok (w : world) : Prop := {
  ro_seen : im_seenBundleIDs (wo_importer w) = rs_BundleIDs (im_replayState (wo_importer w));
  ro_pending : forall key h, im_pendingReplay (wo_importer w) !! key = Some h -> replayKey h = key /\ bh_BundleID h <> "";
  ro_accepted : Forall (fun h => im_pendingReplay (wo_importer w) !! replayKey h = Some h \/ bh_BundleID h ∈ im_seenBundleIDs (wo_importer w)) (wo_accepted w);
  ro_stored : Forall (recorded (wo_importer w)) (wo_stored w);
  ro_distinct : NoDup (unsigned <$> wo_accepted w);
  ro_pointers : forall addr key, im_pendingPayload (wo_importer w) !! addr = Some key -> is_Some (im_pendingReplay (wo_importer w) !! key);
  ro_pointer_inj : forall a b key, im_pendingPayload (wo_importer w) !! a = Some key -> im_pendingPayload (wo_importer w) !! b = Some key -> a = b;
}.

(** The key does not depend on the signature. *)
Lemma replayKey_unsigned h k : unsigned h = unsigned k -> replayKey h = replayKey k /\ bh_BundleID h = bh_BundleID k.
Proof. destruct h, k. unfold unsigned, replayKey. cbn. intros [=]. by subst. Qed.

Lemma parse_accepted b now clock i addr payload i' : ParseBytes b now clock i = (Ok (addr, payload), i') ->
  exists h, pendingHeader addr i' = (h, replayKey h) /\ reserveReplay h i = (Ok addr, i') /\ bh_BundleID h <> "".
Proof.
  intros (hdr & pub & r & _ & _ & _ & _ & Hv & _ & Hres)%ParseBytes_ok. exists (vr_Header r).
  apply VerifyBundle_inv in Hv as (c & Hver & _). pose proof (reserveReplay_ok _ _ _ _ Hres) as (_ & _ & _ & -> & ->).
  unfold pendingHeader, set_replay. cbn [im_pendingPayload im_pendingReplay]. rewrite lookup_insert_eq. cbn [default from_option id].
  rewrite replayKey_nonempty, lookup_insert_eq. split; [done|]. split; [done|].
  destruct Hver as [_ _ _ (_ & Hid & _)]. intros E. by rewrite E in Hid.
Qed.

Lemma parse_step_ok w b now clock : replay_ok w -> replay_ok (import_step w (OpParse b now clock)).
Proof.
  intros [Hseen Hpend Hacc Hsto Hdis Hptr Hinj]. unfold import_step. destruct (ParseBytes b now clock (wo_importer w)) as [[[addr payload]|e] i] eqn:Hp.
  2: { apply ParseBytes_err in Hp as ->. by split. }
  apply parse_accepted in Hp as (h & Hh & Hres & Hid). apply reserveReplay_ok in Hres as (Hnew & Hnone & Hadm & -> & Hi).
  rewrite Hh. cbn [fst]. rewrite Hi. unfold set_replay in *.
  split; cbn [wo_importer wo_accepted wo_stored im_seenBundleIDs im_replayState im_pendingReplay im_pendingPayload]; [done| | |done| | |].
  - intros key k [[<- <-]|[_ Hk]]%lookup_insert_Some; [done|by apply Hpend].
  - constructor; [left; by rewrite lookup_insert_eq|]. eapply Forall_impl; [exact Hacc|]. cbn beta. intros k [Hk|Hk]; [|by right]. left.
    rewrite lookup_insert_ne; [done|]. intros E. congruence.
  - rewrite fmap_cons. constructor; [|done]. intros (k & E & Hk)%list_elem_of_fmap. apply replayKey_unsigned in E as [Ek Eid].
    rewrite Forall_forall in Hacc. destruct (Hacc k Hk) as [Hk'|Hk']; [congruence|]. apply Hnew. by rewrite Eid.
  - intros a key [[<- <-]|[_ Ha]]%lookup_insert_Some; [by rewrite lookup_insert_eq|].
    apply lookup_insert_is_Some. destruct (decide (replayKey h = key)); [by left|right; split; [done|by eapply Hptr]].
  - intros a b' key [[<- <-]|[_ Ha]]%lookup_insert_Some [[<- E]|[_ Hb]]%lookup_insert_Some; try done.
    + apply Hptr in Hb. rewrite Hnone in Hb. by destruct Hb.
    + rewrite <- E in Ha. apply Hptr in Ha. rewrite Hnone in Ha. by destruct Ha.
    + by eapply Hinj.
Qed.

Lemma ProcessAndStore_importer payload now i s out i' s' : ProcessAndStore payload now i s = (out, (i', s')) ->
  let header := match payload with Some (addr, _) => pendingHeader addr i | None => (zeroHeader, EmptyString) end in
  (i' = i /\ (is_ok out = true -> is_empty header.2 = true))
  \/ (is_empty header.2 = false /\ exists s1, commitReplay header.1 header.2 i s1 = (out, (i', s'))).
Proof.
  intros Hp. unfold ProcessAndStore in Hp. destruct payload as [[addr payload]|]; [|injection Hp as <- <- <-; by left].
  destruct (im_store i); cbn [negb] in Hp; [|injection Hp as <- <- <-; by left].
  destruct (pendingHeader addr i) as [header key] eqn:Hh. cbn [fst snd].
  destruct (merged payload _ now) as [updated|e]; [|injection Hp as <- <- <-; by left].
  destruct (store_templates payload i s) as [[] s1]; cbn [negb] in Hp; [|injection Hp as <- <- <-; by left].
  destruct (save_profiles updated s1) as [[] s2]; cbn [negb] in Hp; [|injection Hp as <- <- <-; by left].
  destruct (is_empty key) eqn:Hk; [injection Hp as <- <- <-; by left|]. right. split; [done|]. by exists s2.
Qed.

(** The importer after a commit. *)
Lemma commitReplay_importer h key i s out i' s' : commitReplay h key i s = (out, (i', s')) ->
  let st := if is_empty (bh_BundleID h) then im_replayState i else advance_replay h (im_replayState i) in
  i' = set_replay (if is_empty (bh_BundleID h) then im_seenBundleIDs i else rs_BundleIDs st) st (delete key (im_pendingReplay i))
         (drop_pointer key (im_pendingPayload i)) (im_handed i) i.
Proof.
  unfold commitReplay. cbv zeta. destruct (is_empty (bh_BundleID h)); [intros Hc; injection Hc as <- <- <-; reflexivity|].
  change (im_replayStore (set_replay _ _ _ _ _ i)) with (im_replayStore i). destruct (im_replayStore i); [|intros Hc; injection Hc as <- <- <-; reflexivity].
  destruct (save_replay _ s) as [ok s1]. intros Hc. injection Hc as <- <- <-. reflexivity.
Qed.

Lemma recorded_advance i i' h k : recorded i k ->
  im_seenBundleIDs i ⊆ im_seenBundleIDs i' -> im_replayState i' = advance_replay h (im_replayState i) -> recorded i' k.
Proof.
  intros [Hid (sg & Hsg & Hseq & Hn)] Hsub Hst. split; [set_solver|]. rewrite Hst. unfold advance_replay. cbn [rs_Signers].
  destruct (decide (bh_PublisherKeyID h = bh_PublisherKeyID k)) as [->|Hne]; [rewrite lookup_insert_eq|rewrite lookup_insert_ne by done; by exists sg].
  rewrite Hsg. cbn [default from_option id]. eexists. split; [done|]. unfold advance_signer. cbn [sr_MaxSeq sr_Nonces].
  split; [destruct (Z.ltb_spec (sr_MaxSeq sg) (bh_Seq h)); lia|].
  destruct (decide (bh_Nonce h = bh_Nonce k)) as [->|]; [by rewrite lookup_insert_eq|by rewrite lookup_insert_ne].
Qed.

Lemma recorded_new i i' h : im_seenBundleIDs i' = rs_BundleIDs (advance_replay h (im_replayState i)) ->
  im_replayState i' = advance_replay h (im_replayState i) -> recorded i' h.
Proof.
  intros Hs Hst. split; [rewrite Hs; unfold advance_replay; cbn [rs_BundleIDs]; set_solver|]. rewrite Hst. unfold advance_replay. cbn [rs_Signers].
  rewrite lookup_insert_eq. eexists. split; [done|]. unfold advance_signer. cbn [sr_MaxSeq sr_Nonces]. rewrite lookup_insert_eq. split; [|done].
  match goal with |- context [if ?b then _ else _] => destruct b eqn:E end; lia.
Qed.

Lemma pendingHeader_pending addr i : is_empty (pendingHeader addr i).2 = false ->
  (pendingHeader addr i).1 = default zeroHeader (im_pendingReplay i !! (pendingHeader addr i).2).
Proof. unfold pendingHeader. by destruct (is_empty (default _ _)) eqn:E. Qed.

Lemma drop_pointer_lookup key ptrs addr k : (forall a b key, ptrs !! a = Some key -> ptrs !! b = Some key -> a = b) ->
  drop_pointer key ptrs !! addr = Some k -> ptrs !! addr = Some k /\ k <> key.
Proof.
  intros Hinj. unfold drop_pointer. destruct (filter _ _) as [|[p key'] l] eqn:E.
  - intros Ha. split; [done|]. intros ->. assert ((addr, key) ∈ filter (fun pk => pk.2 = key) (map_to_list ptrs)) as Hin.
    { apply list_elem_of_filter. split; [done|]. by apply elem_of_map_to_list. }
    rewrite E in Hin. by apply elem_of_nil in Hin.
  - intros [Hne Ha]%lookup_delete_Some. split; [done|]. intros ->. apply Hne.
    assert ((p, key') ∈ filter (fun pk => pk.2 = key) (map_to_list ptrs)) as Hin by (rewrite E; by left).
    apply list_elem_of_filter in Hin as [Hk Hin]. cbn in Hk. subst key'. apply elem_of_map_to_list in Hin. by eapply Hinj.
Qed.

Lemma pointer_pending w addr : replay_ok w -> is_empty (pendingHeader addr (wo_importer w)).2 = false ->
  exists h, im_pendingReplay (wo_importer w) !! (pendingHeader addr (wo_importer w)).2 = Some h /\ (pendingHeader addr (wo_importer w)).1 = h
    /\ replayKey h = (pendingHeader addr (wo_importer w)).2 /\ bh_BundleID h <> "".
Proof.
  intros [_ Hpend _ _ _ Hptr _] Hne. pose proof (pendingHeader_pending _ _ Hne) as Hh.
  assert (is_Some (im_pendingReplay (wo_importer w) !! (pendingHeader addr (wo_importer w)).2)) as [h Hp].
  { unfold pendingHeader in *. destruct (im_pendingPayload (wo_importer w) !! addr) as [key|] eqn:Ha; [|done]. cbn [default from_option id] in *.
    destruct (is_empty key); [done|]. by eapply Hptr. }
  exists h. rewrite Hp in Hh. split; [done|]. split; [done|]. by apply Hpend.
Qed.

Lemma store_step_ok w payload now : replay_ok w -> replay_ok (import_step w (OpStore payload now)).
Proof.
  intros Hw. pose proof Hw as [Hseen Hpend Hacc Hsto Hdis Hptr Hinj]. unfold import_step.
  destruct (ProcessAndStore payload now (wo_importer w) (wo_stores w)) as [out [i' s']] eqn:Hp. apply ProcessAndStore_importer in Hp.
  set (header := match payload with Some (addr, _) => _ | None => _ end) in *.
  destruct Hp as [[-> Hok]|[Hne (s1 & Hc)]].
  { split; cbn [wo_importer wo_accepted wo_stored]; try done. destruct (is_ok out); [|done]. by rewrite (Hok eq_refl). }
  assert (exists h, im_pendingReplay (wo_importer w) !! header.2 = Some h /\ header.1 = h /\ replayKey h = header.2 /\ bh_BundleID h <> "") as (h & Hp & Hh & Hk & Hid).
  { unfold header in *. destruct payload as [[addr payload]|]; [|done]. by apply pointer_pending. }
  apply commitReplay_importer in Hc. rewrite Hne, andb_true_r. rewrite Hh in Hc |- *.
  rewrite (proj2 (is_empty_false (bh_BundleID h)) Hid) in Hc. cbv zeta in Hc.
  assert (recorded i' h) as Hrec by (apply (recorded_new (wo_importer w)); by rewrite Hc).
  assert (forall k, recorded (wo_importer w) k -> recorded i' k) as Hkeep.
  { intros k Hrk. eapply (recorded_advance (wo_importer w) _ h); [done| |by rewrite Hc]. rewrite Hc, Hseen. unfold set_replay, advance_replay. cbn. set_solver. }
  assert (im_pendingReplay i' = delete header.2 (im_pendingReplay (wo_importer w))) as Hpi by by rewrite Hc.
  assert (im_pendingPayload i' = drop_pointer header.2 (im_pendingPayload (wo_importer w))) as Hpp by by rewrite Hc.
  assert (im_seenBundleIDs i' = {[bh_BundleID h]} ∪ im_seenBundleIDs (wo_importer w)) as Hse by (rewrite Hc, Hseen; done).
  split; cbn [wo_importer wo_accepted wo_stored].
  - by rewrite Hc.
  - intros key k. rewrite Hpi. intros [_ Hkk]%lookup_delete_Some. by apply Hpend.
  - rewrite Hpi, Hse. eapply Forall_impl; [exact Hacc|]. cbn beta. intros k [Hkk|Hkk]; [|right; set_solver].
    destruct (decide (header.2 = replayKey k)) as [E|E]; [|left; by rewrite lookup_delete_ne]. right. rewrite <- E, Hp in Hkk. set_solver.
  - assert (Forall (recorded i') (wo_stored w)) by (eapply Forall_impl; [exact Hsto|done]). destruct (is_ok out); [by constructor|done].
  - done.
  - intros a key. rewrite Hpi, Hpp. intros [Ha Hne']%drop_pointer_lookup; [|done]. rewrite lookup_delete_ne by done. by eapply Hptr.
  - intros a b key. rewrite Hpp. intros [Ha _]%drop_pointer_lookup [Hb _]%drop_pointer_lookup; [|done..]. by eapply Hinj.
Qed.

Lemma import_run_ok ops w : replay_ok w -> replay_ok (import_run ops w).
Proof.
  revert w. induction ops as [|o ops IH]; intros w Hw; [done|]. apply IH. destruct o as [b now clock|payload now|ts].
  - by apply parse_step_ok.
  - by apply store_step_ok.
  - destruct Hw. by split.
Qed.

(** A new importer, with nothing handed out yet. *)
Definition fresh_world (i : Importer) (s : S) : world := mkWorld i s [] [].

Lemma fresh_world_ok store tstore rstore loaded ids keys ident ts now s :
  replay_ok (fresh_world (NewImporterWithTrust store tstore rstore loaded ids keys ident ts now) s).
Proof. split; cbn; try done; constructor. Qed.

(** C9: Whatever is parsed and stored, and whenever, no bundle is handed out twice: the headers of
    the bundles handed out differ in more than their signatures. *)
Theorem bundles_are_accepted_once store tstore rstore loaded ids keys ident ts now s ops :
  let w := import_run ops (fresh_world (NewImporterWithTrust store tstore rstore loaded ids keys ident ts now) s) in
  NoDup (unsigned <$> wo_accepted w).
Proof. apply ro_distinct, import_run_ok, fresh_world_ok. Qed.

(** A stored bundle outdates its signer's older ones: what is handed out later has another
    identifier, and if it is from the same signer a higher number and another nonce. *)
Theorem stored_bundles_outdate store tstore rstore loaded ids keys ident ts now0 s ops h b now clock addr payload i' :
  let w := import_run ops (fresh_world (NewImporterWithTrust store tstore rstore loaded ids keys ident ts now0) s) in
  h ∈ wo_stored w -> ParseBytes b now clock (wo_importer w) = (Ok (addr, payload), i') ->
  let k := (pendingHeader addr i').1 in
  bh_BundleID k <> bh_BundleID h
  /\ (bh_PublisherKeyID k = bh_PublisherKeyID h -> bh_Seq h < bh_Seq k /\ bh_Nonce k <> bh_Nonce h).
Proof.
  intros w Hh Hp k. pose proof (import_run_ok ops _ (fresh_world_ok store tstore rstore loaded ids keys ident ts now0 s)) as Hw.
  fold w in Hw. apply parse_accepted in Hp as (k' & Hk & Hres & _). assert (k = k') as -> by (unfold k; by rewrite Hk).
  apply reserveReplay_ok in Hres as (Hnew & _ & Hadm & _). pose proof (ro_stored _ Hw) as Hsto. rewrite Forall_forall in Hsto.
  destruct (Hsto h Hh) as [Hseen (sg & Hsg & Hseq & Hn)]. split; [congruence|]. intros Epub.
  unfold signer_admits in Hadm. rewrite Epub, Hsg in Hadm. apply andb_true_iff in Hadm as [H1 H2]. split; [lia|].
  intros En. by rewrite En, Hn in H1.
Qed.

(** Parsing the same bytes again with the same keys comes down to the replay tables. *)
Lemma ParseBytes_again b now clock i1 i2 out1 : ParseBytes b now clock i1 = out1 -> is_ok out1.1 = true ->
  im_trustedByKeyID i2 = im_trustedByKeyID i1 -> im_trustState i2 = im_trustState i1 -> im_ageIdentity i2 = im_ageIdentity i1 ->
  exists r, reserveReplay (vr_Header r) i1 = (match out1.1 with Ok p => Ok p.1 | Err e => Err e end, out1.2) /\ is_blank (bh_BundleID (vr_Header r)) = false
    /\ forall e, reserveReplay (vr_Header r) i2 = (Err e, i2) -> ParseBytes b now clock i2 = (Err e, i2).
Proof.
  intros Hp Hok E1 E2 E3. unfold ParseBytes, isSignerRevoked in *. rewrite E1, E2, E3. subst out1.
  destruct (_ || _); [done|]. case_bool_decide; [done|]. destruct (parseHeader b) as [hdr|]; [|done].
  case_bool_decide; cbn [negb] in *; [|done]. match goal with |- context [if ?b then _ else _] => destruct b end; [done|].
  destruct (im_trustedByKeyID i1 !! bh_PublisherKeyID hdr) as [pub|]; [|done].
  destruct (VerifyBundle b pub 0 clock _ true) as [[r|] [e|]] eqn:Hv; try done. destruct (vr_Payload r) as [pl|]; [|done].
  exists r. destruct (reserveReplay (vr_Header r) i1) as [[a|e] i'] eqn:Hr; [|done]. split; [done|].
  split; [|intros e ->; done]. apply VerifyBundle_inv in Hv as (c & [_ _ _ (_ & Hid & _)] & _). done.
Qed.

(** A bundle whose storing failed cannot be imported again: its reservation stays (or it was
    committed before the replay state was saved), and the same bytes are refused as a replay. *)
Theorem failed_import_blocks_retry b now clock addr payload i i1 s now' e i2 s2 :
  ParseBytes b now clock i = (Ok (addr, payload), i1) ->
  ProcessAndStore (Some (addr, payload)) now' i1 s = (Err e, (i2, s2)) ->
  ParseBytes b now clock i2 = (Err (ImportError CodeReplayDetected), i2).
Proof.
  intros Hp Hst. apply ProcessAndStore_importer in Hst. cbn zeta in Hst.
  assert (im_trustedByKeyID i2 = im_trustedByKeyID i /\ im_trustState i2 = im_trustState i /\ im_ageIdentity i2 = im_ageIdentity i) as (E1 & E2 & E3).
  { apply parse_accepted in Hp as (h & _ & Hres & _). apply reserveReplay_ok in Hres as (_ & _ & _ & _ & ->).
    destruct Hst as [[-> _]|[_ (s1 & Hc)]]; [done|]. apply commitReplay_importer in Hc. by rewrite Hc. }
  destruct (ParseBytes_again _ _ _ _ i2 _ Hp eq_refl E1 E2 E3) as (r & Hres & Hid & Hagain). cbn [fst snd] in Hres. apply Hagain.
  apply reserveReplay_ok in Hres as (_ & _ & _ & -> & Hi1). unfold reserveReplay.
  assert (pendingHeader (im_handed i) i1 = (vr_Header r, replayKey (vr_Header r))) as Hph.
  { rewrite Hi1. unfold pendingHeader, set_replay. cbn [im_pendingPayload im_pendingReplay]. rewrite lookup_insert_eq. cbn [default from_option id].
    by rewrite replayKey_nonempty, lookup_insert_eq. }
  rewrite Hph in Hst. cbn [fst snd] in Hst. destruct Hst as [[-> _]|[_ (s1 & Hc)]].
  - rewrite Hi1. unfold set_replay. cbn [im_seenBundleIDs im_pendingReplay]. rewrite lookup_insert_eq. by case_bool_decide.
  - apply commitReplay_importer in Hc. cbv zeta in Hc.
    rewrite (proj2 (is_empty_false (bh_BundleID (vr_Header r)))) in Hc by (intros E; by rewrite E in Hid).
    rewrite bool_decide_eq_true_2; [done|]. rewrite Hc. unfold set_replay, advance_replay. cbn. set_solver.
Qed.

(** ** Storing *)

(** How a profile is reached. *)
Definition reach (p : Profile) : string * string * Z := (pr_Family p, ep_Host (pr_Endpoint p), ep_Port (pr_Endpoint p)).

(** An identifier is reached in one way, and an endpoint has one identifier. *)
Definition owners_ok (ps : list Profile) : Prop :=
  forall p q, p ∈ ps -> q ∈ ps -> (pr_ID p = pr_ID q -> reach p = reach q) /\ (endpoint_key p = endpoint_key q -> pr_ID p = pr_ID q).

Lemma differs_false p q : differs p q = false <-> reach p = reach q.
Proof.
  unfold differs, reach. rewrite !orb_false_iff, !negb_false_iff, !bool_decide_eq_true, Z.eqb_eq. split; [intros [[-> ->] ->]; done|].
  intros E. by injection E as -> -> ->.
Qed.

Lemma endpoint_key_reach p q : reach p = reach q -> endpoint_key p = endpoint_key q.
Proof. unfold reach, endpoint_key. by intros [= -> -> ->]. Qed.

(** A fold that files values under keys. *)
Lemma fold_file_lookup {A B} (key : A -> string) (f : A -> B) ps (m : gmap string B) k v :
  fold_left (fun m p => <[key p := f p]> m) ps m !! k = Some v -> m !! k = Some v \/ exists p, p ∈ ps /\ key p = k /\ f p = v.
Proof.
  revert m. induction ps as [|p ps IH]; intros m; [by left|]. cbn [fold_left]. intros [Hm|(q & Hq & Hk)]%IH.
  - apply lookup_insert_Some in Hm as [[Hk Hv]|[_ Hm]]; [right; exists p; split; [by left|done]|by left].
  - right. exists q. split; [by right|done].
Qed.

Lemma fold_file_some {A B} (key : A -> string) (f : A -> B) ps (m : gmap string B) p : p ∈ ps -> is_Some (fold_left (fun m p => <[key p := f p]> m) ps m !! key p).
Proof.
  assert (forall ps (m : gmap string B) k, is_Some (m !! k) -> is_Some (fold_left (fun m p => <[key p := f p]> m) ps m !! k)) as Hkeep.
  { clear. induction ps as [|q ps IH]; intros m k Hm; [done|]. apply IH. apply lookup_insert_is_Some'. by right. }
  revert m. induction ps as [|q ps IH]; intros m; [by intros []%elem_of_nil|]. intros [->|Hp]%elem_of_cons; cbn [fold_left].
  - apply Hkeep. by rewrite lookup_insert_eq.
  - by apply IH.
Qed.

Lemma incoming_keeps now p : pr_ID (incoming now p) = pr_ID p /\ reach (incoming now p) = reach p.
Proof. done. Qed.

(** The new profiles agree with the owners they were checked against, and with each other. *)
Lemma merge_new_spec now exID exEP ps newID newEP out : merge_new now exID exEP ps newID newEP = Ok out ->
  (forall p, p ∈ out -> (exists raw np, raw ∈ ps /\ NormalizeForWire raw now = Ok np /\ p = incoming now np)
     /\ (forall q, exID !! pr_ID p = Some q \/ newID !! pr_ID p = Some q -> reach q = reach p)
     /\ (forall owner, exEP !! endpoint_key p = Some owner \/ newEP !! endpoint_key p = Some owner -> owner = pr_ID p))
  /\ owners_ok out.
Proof.
  revert newID newEP out. induction ps as [|raw ps IH]; intros newID newEP out; cbn [merge_new].
  { intros [= <-]. split; [by intros p []%elem_of_nil|by intros p q []%elem_of_nil]. }
  destruct (NormalizeForWire raw now) as [np|] eqn:Hn; [|done].
  destruct (id_conflict exID np) eqn:C1; cbn [negb]; [done|]. destruct (id_conflict newID np) eqn:C2; cbn [negb]; [done|].
  destruct (endpoint_conflict exEP np) eqn:C3; cbn [negb]; [done|]. destruct (endpoint_conflict newEP np) eqn:C4; cbn [negb]; [done|].
  set (p := incoming now np) in *. destruct (incoming_keeps now np) as [Ep Er]. fold p in Ep, Er.
  assert (forall m q, id_conflict m np = false -> m !! pr_ID p = Some q -> reach q = reach p) as Hid.
  { intros m q. unfold id_conflict. rewrite Ep, Er. intros Hc Hm. rewrite Hm in Hc. by apply differs_false. }
  assert (forall m o, endpoint_conflict m np = false -> m !! endpoint_key p = Some o -> o = pr_ID p) as Hek.
  { intros m o. unfold endpoint_conflict. rewrite Ep, (endpoint_key_reach p np) by done. intros Hc Hm. rewrite Hm in Hc.
    by apply negb_false_iff, bool_decide_eq_true in Hc. }
  destruct (merge_new _ _ _ ps _ _) as [rest|] eqn:Hm; cbn [rbind]; [|done]. intros [= <-]. destruct (IH _ _ _ Hm) as [IH1 IH2].
  assert (forall q, q ∈ rest -> (pr_ID q = pr_ID p -> reach q = reach p) /\ (endpoint_key q = endpoint_key p -> pr_ID q = pr_ID p)) as Hrest.
  { intros q Hq. destruct (IH1 q Hq) as (_ & H1 & H2). split; intros E.
    - symmetry. apply H1. right. by rewrite E, lookup_insert_eq.
    - symmetry. apply H2. right. by rewrite E, lookup_insert_eq. }
  split.
  - intros q [->|Hq]%elem_of_cons.
    + split; [exists raw, np; split; [by left|done]|]. split; [intros q [Hx|Hx]; [by apply (Hid exID)|by apply (Hid newID)]|intros o [Hx|Hx]; [by apply (Hek exEP)|by apply (Hek newEP)]].
    + destruct (IH1 q Hq) as ((raw' & np' & Hr & Hn') & H1 & H2). split; [exists raw', np'; split; [by right|done]|]. split.
      * intros q' [Hx|Hx]; [by apply H1; left|]. destruct (decide (pr_ID p = pr_ID q)) as [E|E].
        -- rewrite <- E in Hx. rewrite (Hid newID q' C2 Hx). symmetry. by apply Hrest.
        -- apply H1. right. by rewrite lookup_insert_ne.
      * intros o [Hx|Hx]; [by apply H2; left|]. destruct (decide (endpoint_key p = endpoint_key q)) as [E|E].
        -- rewrite <- E in Hx. rewrite (Hek newEP o C4 Hx). symmetry. by apply Hrest.
        -- apply H2. right. by rewrite lookup_insert_ne.
  - intros q1 q2 [->|Hq1]%elem_of_cons [->|Hq2]%elem_of_cons; [done| | |by apply IH2].
    + destruct (Hrest q2 Hq2) as [H1 H2]. split; intros E; symmetry; [apply H1|apply H2]; by symmetry.
    + by apply Hrest.
Qed.

Lemma merged_owners payload existing now out : owners_ok existing -> merged payload existing now = Ok out ->
  owners_ok out
  /\ forall p, p ∈ out -> (p ∈ existing /\ (pr_ID p ∉ default [] (bp_Revocations payload)))
       \/ exists raw np, raw ∈ default [] (bp_Profiles payload) /\ NormalizeForWire raw now = Ok np /\ p = incoming now np.
Proof.
  intros Hex. unfold merged. set (kept := keep_existing _ existing). destruct (merge_new _ _ _ _ _ _) as [new|] eqn:Hm; cbn [rbind]; [|done].
  intros [= <-]. apply merge_new_spec in Hm as [H1 H2].
  assert (forall p, p ∈ kept <-> (pr_ID p ∉ default [] (bp_Revocations payload)) /\ p ∈ existing) as Hk.
  { intros p. unfold kept, keep_existing. by rewrite list_elem_of_filter. }
  assert (forall p q, p ∈ kept -> q ∈ new -> (pr_ID p = pr_ID q -> reach p = reach q) /\ (endpoint_key p = endpoint_key q -> pr_ID p = pr_ID q)) as Hkn.
  { intros p q Hp Hq. destruct (H1 q Hq) as (_ & Hid & Hek). split; intros E.
    - destruct (fold_file_some pr_ID (fun p => p) kept ∅ p Hp) as [p' Hp']. rewrite E in Hp'. rewrite <- (Hid p') by by left.
      apply fold_file_lookup in Hp' as [?|(p2 & Hp2 & E2 & ->)]; [done|]. apply Hk in Hp, Hp2. apply (Hex p p'); [apply Hp|apply Hp2|congruence].
    - destruct (fold_file_some endpoint_key pr_ID kept ∅ p Hp) as [o Ho]. rewrite E in Ho. rewrite <- (Hek o) by by left.
      apply fold_file_lookup in Ho as [?|(p2 & Hp2 & E2 & <-)]; [done|]. apply Hk in Hp, Hp2. apply (Hex p p2); [apply Hp|apply Hp2|congruence]. }
  split.
  - intros p q [Hp|Hp]%elem_of_app [Hq|Hq]%elem_of_app; [apply Hk in Hp as [_ Hp]; apply Hk in Hq as [_ Hq]; by apply Hex|by apply Hkn| |by apply H2].
    destruct (Hkn q p Hq Hp) as [A B]. split; intros E; symmetry; [apply A|apply B]; by symmetry.
  - intros p [Hp|Hp]%elem_of_app; [left; apply Hk in Hp as []; done|]. right. by apply H1.
Qed.

(** A store that reads back what it saved, and keeps the profiles when it saves other things. *)
Class StoreLaws : Prop := {
  save_profiles_load ps s s' : save_profiles ps s = (true, s') -> load_profiles s' = Some ps;
  save_templates_load m s ok s' : save_templates m s = (ok, s') -> load_profiles s' = load_profiles s;
  save_replay_load st s ok s' : save_replay st s = (ok, s') -> load_profiles s' = load_profiles s;
}.

(** What a successful store did. *)
Lemma ProcessAndStore_ok `{!StoreLaws} addr payload now i s i' s' : ProcessAndStore (Some (addr, payload)) now i s = (Ok tt, (i', s')) ->
  exists updated, merged payload (default [] (load_profiles s)) now = Ok updated /\ load_profiles s' = Some updated.
Proof.
  unfold ProcessAndStore. destruct (im_store i); cbn [negb]; [|done]. destruct (pendingHeader addr i) as [header key].
  destruct (merged payload _ now) as [updated|e]; [|done]. destruct (store_templates payload i s) as [[] s1]; cbn [negb]; [|done].
  destruct (save_profiles updated s1) as [[] s2] eqn:Hs; cbn [negb]; [|done]. apply save_profiles_load in Hs.
  intros Hp. exists updated. split; [done|]. revert Hp. destruct (is_empty key); [intros Hp; by injection Hp as _ <-|].
  unfold commitReplay. cbv zeta. destruct (is_empty (bh_BundleID header)); [intros Hp; by injection Hp as _ <-|].
  destruct (im_replayStore _); [|intros Hp; by injection Hp as _ <-].
  destruct (save_replay _ s2) as [ok s3] eqn:Hr. apply save_replay_load in Hr. intros Hp. injection Hp as _ _ <-. by rewrite Hr.
Qed.

(** A successful import keeps the owners: if no identifier was reached in two ways and no
    endpoint had two identifiers, that is so afterwards; what is stored is what was there and
    not revoked, and the bundle's profiles, normalised. *)
Theorem import_keeps_owners `{!StoreLaws} addr payload now i s i' s' :
  ProcessAndStore (Some (addr, payload)) now i s = (Ok tt, (i', s')) -> owners_ok (default [] (load_profiles s)) ->
  exists ps, load_profiles s' = Some ps /\ owners_ok ps
    /\ forall p, p ∈ ps -> (p ∈ default [] (load_profiles s) /\ (pr_ID p ∉ default [] (bp_Revocations payload)))
         \/ exists raw np, raw ∈ default [] (bp_Profiles payload) /\ NormalizeForWire raw now = Ok np /\ p = incoming now np.
Proof. intros (updated & Hm & Hl)%ProcessAndStore_ok Hex. exists updated. split; [done|]. by apply merged_owners. Qed.

(** A profile that is imported anew under its identifier does not replace the old one: both
    are stored. *)
Lemma reimport_duplicates payload p raw np now : bp_Profiles payload = Some [raw] -> default [] (bp_Revocations payload) = [] ->
  NormalizeForWire raw now = Ok np -> pr_ID np = pr_ID p -> reach np = reach p -> merged payload [p] now = Ok [p; incoming now np].
Proof.
  intros Hps Hr Hn Hid Hreach. unfold merged. rewrite Hps, Hr. change (keep_existing [] [p]) with [p].
  cbn [merge_new default from_option id]. rewrite Hn. unfold id_conflict, endpoint_conflict, by_id, by_endpoint. cbn [fold_left].
  rewrite (endpoint_key_reach np p), Hid, !lookup_insert_eq, !lookup_empty by done. rewrite (proj2 (differs_false p np)) by done.
  by rewrite bool_decide_eq_true_2.
Qed.

(** A store that cannot be read counts as empty: an import that succeeds overwrites it, and
    only profiles of the bundle are left. *)
Theorem unreadable_store_is_overwritten `{!StoreLaws} addr payload now i s i' s' : load_profiles s = None ->
  ProcessAndStore (Some (addr, payload)) now i s = (Ok tt, (i', s')) ->
  exists ps, load_profiles s' = Some ps
    /\ forall p, p ∈ ps -> exists raw np, raw ∈ default [] (bp_Profiles payload) /\ NormalizeForWire raw now = Ok np /\ p = incoming now np.
Proof.
  intros Hn (updated & Hm & Hl)%ProcessAndStore_ok. exists updated. split; [done|]. rewrite Hn in Hm. cbn [default from_option id] in Hm.
  intros p Hp. apply merged_owners in Hm as [_ Hm]; [|by intros ? ? []%elem_of_nil]. destruct (Hm p Hp) as [[[]%elem_of_nil _]|]; done.
Qed.

(** ** Bundles in chunks *)

Section lines.
Context (range : gmap Z EncodedChunk -> list EncodedChunk).
Hypothesis Hrange : forall m, range m ≡ₚ (map_to_list m).*2.

(** The chunks of a payload are well-formed, and so are their lines. *)
Lemma encoded_chunk_text payload n p sz c line : bytes_ok payload -> 0 < blen payload <= Chunk.MaxBundleBytes -> 0 < n -> 0 < p -> n + p <= 255 ->
  0 < sz < MaxChunkDataSize -> blen payload <= n * sz -> c ∈ the_chunks payload n p sz -> EncodeText c = Ok line ->
  ParseEncodedChunkText line = Ok c /\ TrimSpace line = line /\ line <> "".
Proof.
  intros Hb Hlen Hn Hp Hnp Hsz Hfit Hc. pose proof (here_fields payload n p sz Hb Hlen Hn Hp Hnp ltac:(lia) Hfit c Hc) as (Hid & _ & Hcs & _).
  apply (the_chunks_elem payload n p sz) in Hc as (i & Hi & E).
  assert (shards_ok (Z.to_nat sz) (the_data payload n sz) /\ length (the_data payload n sz) = Z.to_nat n) as [Hok Hl] by (apply the_data_ok; done || lia).
  destruct (code_shard_spec n sz (the_data payload n sz) (Z.of_nat i) Hok Hl ltac:(lia) Hn) as (_ & Hdata & _).
  unfold code_shard in Hdata. rewrite Nat2Z.id in Hdata. pose proof (Sum256_ok payload) as Hsum. pose proof (Sum256_length payload) as Hlsum.
  apply EncodeText_roundtrip; rewrite ?Hid, ?Hcs; try lia.
  - subst c. unfold chunk_fields_ok, encoded_chunk, int_fields. cbn [with_checksum BundleID PayloadSHA256 ChunkSHA256 DataShards ParityShards].
    rewrite copy_into_length, Hlsum. unfold computeChecksum at 1. rewrite Sum256_length. unfold_ints. split; [done|]. split; [done|]. split; [done|]. lia.
  - by subst c.
  - unfold bundle_id, slice. by apply Forall_take, Forall_drop.
  - by subst c.
  - by subst c.
Qed.

(** The chunks that come in until one completes the bundle. *)
Lemma collect_lines_delivers payload n p sz t now clock i chunks lines r l :
  bytes_ok payload -> 0 < blen payload <= Chunk.MaxBundleBytes -> 0 < n -> 0 < p -> n + p <= 255 -> 0 < sz < MaxChunkDataSize ->
  blen payload <= n * sz -> points_apart n p ->
  Forall2 (fun c line => EncodeText c = Ok line) chunks lines -> (forall c, c ∈ l ++ chunks -> c ∈ the_chunks payload n p sz) ->
  holds payload n p sz r l -> distinct l < n <= distinct (l ++ chunks) -> n * (sz + ChunkHeaderSize) <= maxBytes r ->
  collect_lines range lines t now clock r i = ParseBytes payload now clock i.
Proof.
  intros Hb Hlen Hn Hp Hnp Hsz Hfit Hap Hlines. revert r l. induction Hlines as [|c line chunks lines Hc _ IH]; intros r l Hsub Hh Hd Hmax.
  { rewrite app_nil_r in Hd. lia. }
  assert (c ∈ the_chunks payload n p sz) as Hin by (apply Hsub, elem_of_app; right; by left).
  destruct (encoded_chunk_text payload n p sz c line) as (Hpar & Htrim & Hne); [done..|].
  cbn [collect_lines]. rewrite Htrim, (proj2 (is_empty_false line)), Hpar by done.
  pose proof (AddChunk_here range t Hrange payload n p sz Hb Hlen Hn Hp Hnp ltac:(lia) Hfit Hap r l c t Hh) as Hadd. cbv zeta in Hadd.
  pose proof (AddChunk_limits range t r c t) as [Hlim _].
  destruct (AddChunk range t r c t) as [r' out]. cbn [fst snd] in *.
  destruct (Z.ltb_spec (distinct (l ++ [c])) n) as [Hlt|Hge].
  - destruct Hadd as [-> Hh']; [|lia|done|].
    { intros d Hd'. apply Hsub. apply elem_of_app in Hd' as [Hd'|Hd']; apply elem_of_app; [by left|right]. apply list_elem_of_singleton in Hd' as ->. by left. }
    apply (IH r' (l ++ [c])); [|done| |by rewrite Hlim]; rewrite <- app_assoc; [done|]. split; [done|]. apply Hd.
  - destruct Hadd as [-> _]; [|lia|done|done].
    intros d Hd'. apply Hsub. apply elem_of_app in Hd' as [Hd'|Hd']; apply elem_of_app; [by left|right]. apply list_elem_of_singleton in Hd' as ->. by left.
Qed.

(** A bundle that was cut into chunks imports like the bundle itself: from lines of any of
    its chunks, in any order and repeated, with as many different ones as data shards, within
    the limit of the collector. *)
Theorem chunk_lines_import_the_bundle payload opt cs chunks lines t now clock i :
  bytes_ok payload -> is_i64 (o_DataShards opt) -> is_i64 (o_ParityShards opt) -> EncodeErasureChunks payload opt = Ok cs ->
  (forall c, c ∈ cs -> points_apart (DataShards c) (ParityShards c) /\ ShardSize c <> MaxChunkDataSize
     /\ DataShards c * chunk_cost c <= DefaultMaxCacheByte /\ DataShards c <= distinct chunks) ->
  (forall c, c ∈ chunks -> c ∈ cs) -> Forall2 (fun c line => EncodeText c = Ok line) chunks lines -> chunks <> [] ->
  ParseErasureChunkLines range lines t now clock i = ParseBytes payload now clock i.
Proof.
  intros Hb Hod Hop He Hcs Hsub Hlines Hne. unfold EncodeErasureChunks in He.
  destruct (chunk_plan (blen payload) opt) as [[[n p] sz]|] eqn:Hplan; [|done].
  destruct (chunk_plan_spec _ _ _ _ _ Hplan (blen_nonneg payload) Hod Hop) as (Hlen & Hn & Hp & Hnp & Hsz & Hfit).
  assert (cs = the_chunks payload n p sz) as -> by (unfold the_chunks, the_data; congruence). clear He.
  destruct chunks as [|c chunks]; [done|]. assert (c ∈ the_chunks payload n p sz) as Hc by (apply Hsub; by left).
  destruct (here_fields payload n p sz Hb Hlen Hn Hp Hnp Hsz Hfit c Hc) as (_ & Hds & Hss & Hcost).
  destruct (Hcs c Hc) as (Hap & Hns & Hmax & Hdist). assert (ParityShards c = p) as Hps by (apply (the_chunks_elem payload n p sz) in Hc as (j & _ & ->); done).
  rewrite Hds, Hps in Hap. rewrite Hss in Hns. rewrite Hds, Hcost in Hmax. rewrite Hds in Hdist.
  assert (ParseErasureChunkLines range lines t now clock i = collect_lines range lines t now clock (NewChunkReassembler DefaultMaxCacheByte (10 * Minute)) i) as ->.
  { by inversion Hlines. }
  apply (collect_lines_delivers payload n p sz _ _ _ _ (c :: chunks) _ _ []); try done; try lia.
Qed.
End lines.
End spec.
