(* ===== verification/BundleExamples.v ===== *)
(** * Concrete bundles and imports

    Simple functions for Ed25519, age, templates and the JSON decoders, two bundles of one
    signer, and the theorems about bundles, imports, trust states and profiles applied to them. *)

From S2P Require Import Prelude Float64 Sha256 GoStr Profile ProfileSpec Trust TrustSpec Bundle BundleSpec.
From S2P Require Import Chunk ChunkReasm Import ImportSpec.

#[local] Open Scope string_scope.
#[local] Open Scope list_scope.
#[local] Open Scope Z_scope.

#[local] Instance toy_ed25519 : Ed25519 := {|
  ed_verify pub msg sig := bool_decide (sig = replicate 64 (hd 0 pub));
  ed_sign priv msg := replicate 64 (hd 0 priv);
|}.
#[local] Instance toy_float : FloatJSON := fun _ => Some [48].
(** Encryption that changes nothing, to a single recipient. *)
#[local] Instance toy_age : Age := {|
  age_recipient key := "age1";
  age_parse s := true;
  age_encrypt s rnd b := Some b;
  age_decrypt key c := Some c;
|}.
#[local] Instance toy_templates : Templates := {| render s p := Some (bytes_of s); json_valid b := true |}.
#[local] Instance no_unicode : UnicodeLower := fun s => s.

Definition priv : list Z := replicate 64 2.
Definition pub : list Z := replicate 32 2.
Definition key_id : string := Eval vm_compute in Ed25519KeyID pub.

Definition profile1 : Profile :=
  mkProfile "p1" "dns_tunnel" true false 1 0 0 "t" (mkEndpoint "a.b" 53 "v4") (mkCapabilities "udp" (Some ["a"]) "")
    (mkCredentials "" "" "" "" "" "" "") (mkSource "s" 1 1 key_id) "" (mkMutationPolicy None 0) zeroHealth.
Definition payload1 : BundlePayload :=
  mkPayload 1 "1" (Some [profile1]) None (mkOverrides 0 0) {["t" := mkTemplate "{}"]} {["issuer_key_id" := key_id]}.
Definition payload_bytes : list Z := Eval vm_compute in default [] (MarshalCanonicalPayload payload1).

Definition env : gen_env := mkGenEnv 1000 (Some (replicate 24 7)) [].
Definition options (seq : Z) : GenerateOptions := mkGenerate "age1" false key_id (bundle_name seq) seq "" 1000 2000.

(** The header of the bundle with a number. *)
Definition nonce : string := Eval vm_compute in EncodeToString (replicate 24 7).
Definition other_nonce : string := Eval vm_compute in EncodeToString (replicate 24 8).
Definition recipient_id : string := Eval vm_compute in ("age-x25519:" ++ fingerprint16 "age1")%string.
Definition signature : string := Eval vm_compute in EncodeToString (replicate 64 2).
Definition header_of (seq : Z) : BundleHeader :=
  mkHeader "SNB1" (bundle_name seq) key_id recipient_id seq (if seq =? 1 then nonce else other_nonce) 1000 2000 "age-x25519" signature.
Definition text1 : string := Eval vm_compute in EncodeToString payload_bytes.
Definition bundle1 : list Z := Eval vm_compute in json_wrapper (header_of 1) text1.
(** A later bundle with the same payload. *)
Definition bundle2 : list Z := Eval vm_compute in json_wrapper (header_of 2) text1.

Lemma payload_encoded : MarshalCanonicalPayload payload1 = Some payload_bytes.
Proof. vm_compute. reflexivity. Qed.

Lemma payload_seals : seal_payload env (mkGenerate "age1" false key_id (bundle_name 1) 1 nonce 1000 2000) payload_bytes
  = Ok (payload_bytes, "age-x25519", recipient_id).
Proof. vm_compute. reflexivity. Qed.

Lemma bundle1_made : GenerateBundleWithOptions env payload1 priv (options 1) = Ok bundle1.
Proof. vm_compute. reflexivity. Qed.

(** The decoder knows the bundles and their payload. *)
Definition known (b : list Z) : option (BundleHeader * string) :=
  if bool_decide (b = bundle1) then Some (header_of 1, text1) else if bool_decide (b = bundle2) then Some (header_of 2, text1) else None.
#[local] Instance toy_json : BundleJSON := {|
  read_wrapper b := known b;
  read_payload b := if bool_decide (b = payload_bytes) then Some payload1 else None;
  read_wrapper_lax b := known b;
  read_payload_lax b := if bool_decide (b = payload_bytes) then Some payload1 else None;
|}.
#[local] Instance toy_header : HeaderJSON := fun b => fst <$> read_wrapper b.

Lemma header_text : header_text_ok (header_of 1).
Proof.
  split; [|split; [by decided|split; by decided]]. unfold header_of. cbn.
  repeat (apply Forall_cons_2; [vm_compute; reflexivity|]). constructor.
Qed.

Lemma toy_reads_back : wrapper_read_back bundle1.
Proof.
  intros h t Hh Ht E. pose proof header_text as H1.
  change bundle1 with (json_wrapper (header_of 1) text1) in E |- *. apply json_wrapper_inj in E as [-> ->]; [|done..|vm_compute; reflexivity].
  vm_compute. reflexivity.
Qed.

Lemma signature_binds_header_and_ciphertext_witness : [1; 2] = [1; 2].
Proof.
  refine (proj2 (signature_binds_header_and_ciphertext (header_of 1) (header_of 1) [1; 2] [1; 2] _ _ eq_refl)).
  all: split; [|split; by decided]; cbn; repeat (apply Forall_cons_2; [vm_compute; reflexivity|]); constructor.
Defined.

Definition digest1 : string := Eval vm_compute in EncodeToString (Sum256 bundle1).

Lemma bundle1_verifies : VerifyBundle bundle1 pub 0 1000 (Some []) true = (Some (mkResult (header_of 1) key_id digest1 (Some payload1)), None).
Proof. vm_compute. reflexivity. Qed.

Lemma generated_bundle_verifies_witness : exists h,
  VerifyBundle bundle1 (public_key priv) 1500 0 (Some []) true
  = (Some (mkResult h (Ed25519KeyID (public_key priv)) (EncodeToString (Sum256 bundle1)) (Some (settle payload1))), None).
Proof.
  destruct (generated_bundle_verifies env payload1 priv (options 1) (mkGenerate "age1" false key_id (bundle_name 1) 1 nonce 1000 2000) bundle1 [] 1500 0)
    as (h & Hv & _).
  - exact toy_reads_back.
  - intros key rnd b c [= ->]. reflexivity.
  - intros b Hb. rewrite payload_encoded in Hb. injection Hb as <-. split; [vm_compute; reflexivity|by decided].
  - split; [reflexivity|]. intros msg. split; [by decided|]. split; [reflexivity|by decided].
  - exact bundle1_made.
  - vm_compute. reflexivity.
  - intros b c cipher rid Hb Hs. rewrite payload_encoded in Hb. injection Hb as <-. rewrite payload_seals in Hs. injection Hs as <- _ _. split; by decided.
  - by decided.
  - lia.
  - by decided.
  - by right.
  - intros [] Hp. cbn in Hp. subst. vm_compute. reflexivity.
  - by exists h.
Defined.

Lemma verified_bundle_is_sound_witness : payload_sound payload1 (header_of 1) 1000.
Proof.
  destruct (verified_bundle_is_sound bundle1 pub 0 1000 (Some []) true (mkResult (header_of 1) key_id digest1 (Some payload1)) bundle1_verifies)
    as (c & _ & _ & Hp).
  by apply (Hp payload1).
Defined.

Lemma strict_verification_implies_lax_witness : exists raw, VerifyAndDecrypt bundle1 pub (Some []) 1000 1000 = Ok raw /\ payload1 = settle raw.
Proof.
  apply (strict_verification_implies_lax bundle1 pub 0 1000 (Some []) true (mkResult (header_of 1) key_id digest1 (Some payload1)) payload1).
  - split; intros b w Hw; exact Hw.
  - exact bundle1_verifies.
  - reflexivity.
Defined.

(** ** Imports *)

(** A store of profiles that may be unreadable. *)
#[local] Instance toy_stores : Stores (option (list Profile)) := {|
  load_profiles s := s;
  save_profiles ps s := (true, Some ps);
  load_templates s := None;
  save_templates m s := (true, s);
  save_replay st s := (true, s);
|}.
#[local] Instance toy_laws : StoreLaws.
Proof. split; [by intros ps s s' [= <-]|by intros m s ok s' [= _ <-]|by intros st s ok s' [= _ <-]]. Qed.

Definition importer (store : bool) : Importer := NewImporterWithTrust store false false None None [pub] (Some []) None 1000.
Definition reserved (store : bool) : Importer :=
  set_replay ∅ (mkReplay 2 ∅ ∅) {[replayKey (header_of 1) := header_of 1]} {[0 := replayKey (header_of 1)]} 1 (importer store).

Lemma trusted store : im_trustedByKeyID (importer store) !! key_id = Some pub.
Proof. destruct store; vm_compute; reflexivity. Qed.

Lemma bundle1_parses store : ParseBytes bundle1 1000 1000 (importer store) = (Ok (0, payload1), reserved store).
Proof.
  unfold ParseBytes. change ((blen bundle1 =? 0) || (Bundle.MaxBundleBytes <? blen bundle1)) with false.
  rewrite bool_decide_eq_false_2 by (intros E; pose proof (trusted store) as Ht; by rewrite E in Ht).
  assert (parseHeader bundle1 = Some (header_of 1)) as -> by (vm_compute; reflexivity).
  change (bh_Cipher (header_of 1)) with "age-x25519". cbn [negb bool_decide decide_rel]. change (isSignerRevoked (importer store) _ 1000) with false.
  change (bh_PublisherKeyID (header_of 1)) with key_id. rewrite trusted. change (im_ageIdentity (importer store)) with (Some (@nil Z)).
  rewrite bundle1_verifies. reflexivity.
Qed.

Lemma accepted_bundle_is_authentic_witness : exists h k c, bh_PublisherKeyID h = Ed25519KeyID k /\ verified bundle1 k 1000 (Some []) h c.
Proof.
  destruct (accepted_bundle_is_authentic bundle1 1000 1000 (importer true) 0 payload1 (reserved true)) as (h & k & c & _ & _ & _ & Hk & _ & Hv & _).
  - intros b h text Hr. unfold read_header, toy_header. by rewrite Hr.
  - exact (bundle1_parses true).
  - by exists h, k, c.
Defined.

(** Without a store of profiles the import fails. *)
Lemma failed_import_blocks_retry_witness : ParseBytes bundle1 1000 1000 (reserved false) = (Err (ImportError CodeReplayDetected), reserved false).
Proof.
  apply (failed_import_blocks_retry bundle1 1000 1000 0 payload1 (importer false) (reserved false) (Some []) 1000 (ImportError CodeStoreNotConfigured) _ (Some [])).
  - exact (bundle1_parses false).
  - reflexivity.
Defined.

Definition first_ops : list import_op := [OpParse bundle1 1000 1000; OpStore (Some (0, payload1)) 1000].
Definition after1 : world := import_run first_ops (fresh_world (importer true) None).
Definition second : Importer := snd (ParseBytes bundle2 1000 1000 (wo_importer after1)).

Lemma stored_first : wo_stored after1 = [header_of 1].
Proof. vm_compute. reflexivity. Qed.
Lemma second_accepted : ParseBytes bundle2 1000 1000 (wo_importer after1) = (Ok (1, payload1), second).
Proof. vm_compute. reflexivity. Qed.
Lemma second_header : fst (pendingHeader 1 second) = header_of 2.
Proof. vm_compute. reflexivity. Qed.

(** The later bundle is accepted after the first was stored. *)
Lemma stored_bundles_outdate_witness : bh_BundleID (header_of 2) <> bh_BundleID (header_of 1) /\ bh_Nonce (header_of 2) <> bh_Nonce (header_of 1).
Proof.
  pose proof (stored_bundles_outdate true false false None None [pub] (Some []) None 1000 None first_ops (header_of 1) bundle2 1000 1000 1 payload1 second) as Hw.
  cbv zeta in Hw. change (NewImporterWithTrust true false false None None [pub] (Some []) None 1000) with (importer true) in Hw.
  change (import_run first_ops (fresh_world (importer true) None)) with after1 in Hw. rewrite second_header in Hw.
  destruct Hw as [Hid Hs]; [rewrite stored_first; by left|exact second_accepted|]. split; [exact Hid|]. by apply Hs.
Defined.

(** The profile as it is stored. *)
Definition stored1 : list Profile := Eval vm_compute in match merged payload1 [] 1000 with Ok ps => ps | Err _ => [] end.

Lemma stores_first s : load_profiles s = None \/ load_profiles s = Some [] ->
  exists w, ProcessAndStore (Some (0, payload1)) 1000 (reserved true) s = (Ok tt, w) /\ load_profiles (snd w) = Some stored1.
Proof. intros [H|H]; cbn in H; subst s; eexists; (split; [vm_compute; reflexivity|vm_compute; reflexivity]). Qed.

Lemma import_keeps_owners_witness : owners_ok stored1.
Proof.
  destruct (stores_first (Some [])) as ([i' s'] & Hp & Hl); [by right|].
  destruct (import_keeps_owners 0 payload1 1000 (reserved true) (Some []) i' s' Hp) as (ps & Hps & Hok & _); [by intros p q []%elem_of_nil|].
  cbn [snd] in Hl. rewrite Hl in Hps. injection Hps as <-. exact Hok.
Defined.

Lemma unreadable_store_is_overwritten_witness : forall p, p ∈ stored1 -> exists raw np, raw ∈ [profile1] /\ NormalizeForWire raw 1000 = Ok np /\ p = incoming 1000 np.
Proof.
  destruct (stores_first None) as ([i' s'] & Hp & Hl); [by left|].
  destruct (unreadable_store_is_overwritten 0 payload1 1000 (reserved true) None i' s') as (ps & Hps & Hof); [reflexivity|exact Hp|].
  cbn [snd] in Hl. rewrite Hl in Hps. injection Hps as <-. exact Hof.
Defined.

(** The lines of two chunks of three, out of order. *)
Definition lines : list string := Eval vm_compute in
  match EncodeText (demo_chunk 2), EncodeText (demo_chunk 0) with Ok a, Ok b => [a; b] | _, _ => [] end.

Lemma chunk_lines_import_the_bundle_witness :
  ParseErasureChunkLines visit lines 5 1000 1000 (importer true) = ParseBytes demo_payload 1000 1000 (importer true).
Proof.
  apply (chunk_lines_import_the_bundle visit ltac:(by intros m) demo_payload demo_options (the_chunks demo_payload 2 1 3) [demo_chunk 2; demo_chunk 0]).
  - decided.
  - unfold_ints. simpl. lia.
  - unfold_ints. simpl. lia.
  - apply encode_plan. vm_compute. reflexivity.
  - intros c Hc. destruct (here_fields demo_payload 2 1 3 ltac:(decided) ltac:(by decided) ltac:(lia) ltac:(lia) ltac:(lia) ltac:(by decided) ltac:(by decided) c Hc)
      as (_ & -> & -> & ->). apply (the_chunks_elem demo_payload 2 1 3) in Hc as (j & _ & ->).
    split; [change (points_apart 2 1); by decided|]. split; [done|]. split; [done|]. change (2 <= distinct [demo_chunk 2; demo_chunk 0]). by decided.
  - intros c Hc. apply the_chunks_elem.
    apply elem_of_cons in Hc as [->|Hc]; [exists 2%nat; split; [simpl; lia|reflexivity]|].
    apply list_elem_of_singleton in Hc as ->. exists 0%nat. split; [simpl; lia|reflexivity].
  - repeat (apply Forall2_cons_2; [vm_compute; reflexivity|]). constructor.
  - done.
Defined.

(** * Concrete trust states and profiles *)

From S2P Require Import Prelude Float64 Sha256 GoStr Trust TrustSpec Profile ProfileSpec.

#[local] Instance op_sort : SortSlice op_le := merge_sort_slice op_le.
#[local] Instance sig_total : Total sig_le.
Proof. intros a b. apply (total str_le). Qed.
#[local] Instance sig_trans : Transitive sig_le.
Proof. intros a b c. apply (transitivity (R := str_le)). Qed.
#[local] Instance sig_dec : RelDecision sig_le.
Proof. intros a b. apply str_le_dec. Defined.
#[local] Instance sig_sort : SortSlice sig_le := merge_sort_slice sig_le.

(** A root key and a signer's key. *)
Definition root_priv : list Z := replicate 64 1.
Definition root_pub : list Z := replicate 32 1.
Definition signer_pub : list Z := replicate 32 2.
Definition signer_id : string := Eval vm_compute in Ed25519KeyID signer_pub.
Definition root_id : string := Eval vm_compute in Ed25519KeyID root_pub.

Definition made {A} (r : res trust_err A) (d : A) : A := match r with Ok a => a | Err _ => d end.
Definition no_state : TrustState := mkTrustState 0 "" "" 0 ∅ ∅ ∅ ∅ 0.

(** One root, one signer, one signature needed. *)
Definition state0 : TrustState := Eval vm_compute in made (NewTrustState [root_pub] [signer_pub] 1 1000) no_state.

Definition op (type : string) : TrustOperation := mkOperation type signer_id (EncodeToString signer_pub) "" "" 0.

(** A block that revokes the signer and adds it again, and one that adds it. *)
Definition draft (version : Z) (ops : list TrustOperation) : TrustUpdateBlock :=
  mkBlock "" "" version "" 1000 0 0 1 ops None [].
Definition block1 : TrustUpdateBlock := Eval vm_compute in
  made (GenerateTrustUpdateBlock state0 [root_priv] (draft 1 [op "revoke_signer"; op "add_signer"]) 0) (draft 1 []).
Definition state1 : TrustState := Eval vm_compute in made (ApplyBlock state0 block1 [] 1000 0) no_state.
Definition block2 : TrustUpdateBlock := Eval vm_compute in
  made (GenerateTrustUpdateBlock state1 [root_priv] (draft 2 [op "add_signer"]) 0) (draft 2 []).
Definition state2 : TrustState := Eval vm_compute in made (ApplyBlock state1 block2 [] 1001 0) no_state.

Lemma block1_applies : ApplyBlock state0 block1 [] 1000 0 = Ok state1.
Proof. vm_compute. reflexivity. Qed.

Lemma block2_applies : ApplyBlock state1 block2 [] 1001 0 = Ok state2.
Proof. vm_compute. reflexivity. Qed.

Lemma accepted_block_is_endorsed_witness : exists X : gset string,
  1 <= Z.of_nat (size X) /\ ts_PreviousHash state1 = ts_StateHash state0.
Proof.
  destruct (accepted_block_is_endorsed state0 block1 [] 1000 0 state1 block1_applies) as (_ & _ & Hp & _ & _ & roots & X & _ & Ht & _).
  by exists X.
Defined.

Lemma revocation_wins_witness : ts_ActiveSigners state1 !! signer_id = None.
Proof.
  apply (revocation_wins state0 block1 [] 1000 0 state1 signer_id block1_applies).
  exists (op "revoke_signer"). split; [by right; left|]. split; [done|]. vm_compute. reflexivity.
Defined.

Lemma revocation_lasts_witness : is_Some (ts_ActiveSigners state2 !! signer_id) /\ IsRevoked state2 signer_id 1001 = true.
Proof.
  split; [by eexists|].
  apply (revocation_lasts [] state1 [block2] state2 signer_id (mkRevocation "" 1000 1000 "trust_1_1000") 1001).
  - eapply accepted_cons; [exact block2_applies|apply accepted_nil].
  - reflexivity.
  - constructor; [|constructor]. intros (o & Hin & Ht & _). apply elem_of_cons in Hin as [->|[]%elem_of_nil]. discriminate.
  - cbn. lia.
Defined.

Lemma unsigned_block_adds_root_witness : exists next,
  ApplyBlock state0 (takeover state0 signer_pub 1000) [] 1000 0 = Ok next /\ is_Some (ts_RootKeys next !! Ed25519KeyID signer_pub).
Proof.
  destruct (unsigned_block_adds_root state0 [] {[root_id := root_pub]} signer_pub 1000 0) as (next & Ha & _ & Hr).
  - vm_compute. reflexivity.
  - by decided.
  - reflexivity.
  - lia.
  - exists next. split; [exact Ha|]. by rewrite Hr.
Defined.

(** The block made for the state is accepted; its operations lead to [applied]. *)
Definition applied : TrustState := Eval vm_compute in made (applyOperations block1 (bk_Operations block1) (next_state state0 block1 1000)) no_state.

Lemma generated_block_is_accepted_witness : ApplyBlock state0 block1 [] 1000 0 = Ok (reseal applied).
Proof.
  apply (generated_block_is_accepted state0 [root_priv] (draft 1 [op "revoke_signer"; op "add_signer"]) 0 block1 [] 1000 {[root_id := root_pub]} applied).
  - vm_compute. reflexivity.
  - constructor; [|constructor]. split; [reflexivity|]. intros msg. split; [by decided|]. split; reflexivity.
  - vm_compute. reflexivity.
  - apply NoDup_singleton.
  - intros priv Hin. apply elem_of_cons in Hin as [->|[]%elem_of_nil]. vm_compute. reflexivity.
  - vm_compute. discriminate.
  - by decided.
  - lia.
  - vm_compute. reflexivity.
  - vm_compute. reflexivity.
Defined.

(** ** Profiles *)

(** A profile as it may come in, and as it goes out. *)
Definition raw_profile : Profile :=
  mkProfile " P1 " "HY2" false true 0 0 5 " t " (mkEndpoint "Example.ORG " 443 "") (mkCapabilities "UDP" (Some ["b"; "a"; "b"]) "Low")
    (mkCredentials "" "pw" "" "" "sni" "" "obfs") (mkSource " s " 50 0 "k") " note " (mkMutationPolicy None 0) (mkHealth 1 1 9 9 9 "x" 9 9 9).
Definition wire_profile : Profile :=
  mkProfile "p1" "hysteria2" true false 1000 0 5 "t" (mkEndpoint "example.org" 443 "dual") (mkCapabilities "udp" (Some ["a"; "b"]) "low")
    (mkCredentials "" "pw" "" "" "sni" "" "obfs") (mkSource "s" 50 1000 "k") "note" (mkMutationPolicy None 0) zeroHealth.

Lemma raw_normalizes : NormalizeForWire raw_profile 1000 = Ok wire_profile.
Proof. vm_compute. reflexivity. Qed.

Lemma normalized_profile_is_wire_safe_witness : wire_safe wire_profile 1000.
Proof. exact (normalized_profile_is_wire_safe raw_profile 1000 wire_profile raw_normalizes). Defined.

Lemma NormalizeForWire_idempotent_witness : NormalizeForWire wire_profile 1000 = Ok wire_profile.
Proof. apply (NormalizeForWire_idempotent raw_profile 1000 wire_profile raw_normalizes); [reflexivity|by decided]. Defined.
