(* ===== verification/Community.v ===== *)
(** * Communities: invites, membership and the registry ([pkg/community])

    The signed statements by which one joins a community and leaves it (types.go,
    invites.go, membership.go), and the registry that applies them.  Ed25519 and the decoding
    of JSON are parameters; nil receivers and arguments, which every function refuses, are
    left out, and a nil result is an error. *)

From S2P Require Import Prelude Sha256 GoStr.

#[local] Open Scope string_scope.
#[local] Open Scope list_scope.
#[local] Open Scope Z_scope.

Definition SchemaV1 : Z := 1.

Definition RoleOwner : string := "owner".
Definition RoleModerator : string := "moderator".
Definition RoleMember : string := "member".

Definition MemberActive : string := "active".
Definition MemberRevoked : string := "revoked".
Definition MemberBanned : string := "banned".

Definition RevokeMember : string := "revoke".
Definition BanMember : string := "ban".

Record Invite := mkInvite {
  iv_Schema : Z;
  iv_ID : string;
  iv_Community : string;
  iv_IssuerPubB64 : string;
  iv_IssuedAt : Z;
  iv_ExpiresAt : Z;
  iv_MaxUses : Z;
  iv_NonceB64 : string;
  iv_SigB64 : string;
}.

Record JoinRequest := mkRequest {
  jr_Schema : Z;
  jr_InviteID : string;
  jr_Community : string;
  jr_ApplicantPubB64 : string;
  jr_CreatedAt : Z;
  jr_NonceB64 : string;
  jr_SigB64 : string;
}.

Record JoinApproval := mkApproval {
  ja_Schema : Z;
  ja_InviteID : string;
  ja_Community : string;
  ja_ApplicantPubB64 : string;
  ja_GrantedRole : string;
  ja_IssuerPubB64 : string;
  ja_IssuedAt : Z;
  ja_NonceB64 : string;
  ja_SigB64 : string;
}.

Record Revocation := mkRevocation {
  re_Schema : Z;
  re_Community : string;
  re_Kind : string;
  re_SubjectPubB64 : string;
  re_IssuerPubB64 : string;
  re_IssuedAt : Z;
  re_NonceB64 : string;
  re_SigB64 : string;
}.

Record Member := mkMember {
  mb_Community : string;
  mb_MemberPubB64 : string;
  mb_Role : string;
  mb_Status : string;
  mb_JoinedAt : Z;
  mb_ApprovedByPubB64 : string;
  mb_InviteID : string;
}.

(** ** Encodings *)

(** The fields that are signed, and the whole statements. *)
Definition invite_fields (i : Invite) : list (string * list Z) :=
  [("schema", json_int (iv_Schema i)); ("id", json_string (iv_ID i)); ("community", json_string (iv_Community i));
   ("issuer_pub_b64url", json_string (iv_IssuerPubB64 i)); ("issued_at", json_int (iv_IssuedAt i)); ("expires_at", json_int (iv_ExpiresAt i))]
  ++ omit_zero "max_uses" (iv_MaxUses i) ++ [("nonce_b64url", json_string (iv_NonceB64 i))].
Definition invite_signable (i : Invite) : list Z := json_object (invite_fields i).
Definition json_invite (i : Invite) : list Z := json_object (invite_fields i ++ [("sig_b64url", json_string (iv_SigB64 i))]).

Definition request_fields (r : JoinRequest) : list (string * list Z) :=
  [("schema", json_int (jr_Schema r)); ("invite_id", json_string (jr_InviteID r)); ("community", json_string (jr_Community r));
   ("applicant_pub_b64url", json_string (jr_ApplicantPubB64 r)); ("created_at", json_int (jr_CreatedAt r)); ("nonce_b64url", json_string (jr_NonceB64 r))].
Definition request_signable (r : JoinRequest) : list Z := json_object (request_fields r).
Definition json_request (r : JoinRequest) : list Z := json_object (request_fields r ++ [("sig_b64url", json_string (jr_SigB64 r))]).

Definition approval_fields (a : JoinApproval) : list (string * list Z) :=
  [("schema", json_int (ja_Schema a)); ("invite_id", json_string (ja_InviteID a)); ("community", json_string (ja_Community a));
   ("applicant_pub_b64url", json_string (ja_ApplicantPubB64 a)); ("granted_role", json_string (ja_GrantedRole a));
   ("issuer_pub_b64url", json_string (ja_IssuerPubB64 a)); ("issued_at", json_int (ja_IssuedAt a)); ("nonce_b64url", json_string (ja_NonceB64 a))].
Definition approval_signable (a : JoinApproval) : list Z := json_object (approval_fields a).
Definition json_approval (a : JoinApproval) : list Z := json_object (approval_fields a ++ [("sig_b64url", json_string (ja_SigB64 a))]).

Definition revocation_fields (r : Revocation) : list (string * list Z) :=
  [("schema", json_int (re_Schema r)); ("community", json_string (re_Community r)); ("kind", json_string (re_Kind r));
   ("subject_pub_b64url", json_string (re_SubjectPubB64 r)); ("issuer_pub_b64url", json_string (re_IssuerPubB64 r));
   ("issued_at", json_int (re_IssuedAt r)); ("nonce_b64url", json_string (re_NonceB64 r))].
Definition revocation_signable (r : Revocation) : list Z := json_object (revocation_fields r).
Definition json_revocation (r : Revocation) : list Z := json_object (revocation_fields r ++ [("sig_b64url", json_string (re_SigB64 r))]).

(** What [json.Unmarshal] reads from bytes. *)
Class TokenJSON := {
  read_invite : list Z -> option Invite;
  read_request : list Z -> option JoinRequest;
  read_approval : list Z -> option JoinApproval;
  read_revocation : list Z -> option Revocation;
}.

(** Random bytes for an identifier (16) and a nonce (24), or an error of the source. *)
Record token_env := mkTokenEnv {
  te_id : option (list Z);
  te_nonce : option (list Z);
}.

Definition newInviteID (e : token_env) : res string string :=
  match te_id e with Some b => Ok (EncodeToString b) | None => Err "random source" end.

(** [n] is positive at its uses. *)
Definition newNonceB64 (e : token_env) : res string string :=
  match te_nonce e with Some b => Ok (EncodeToString b) | None => Err "random source" end.

Definition one_role (role : string) : bool := bool_decide (role ∈ [RoleOwner; RoleModerator; RoleMember]).
Definition one_kind (kind : string) : bool := bool_decide (kind ∈ [RevokeMember; BanMember]).

(** A public key in base64. *)
Definition decode_pub (pubB64 what : string) : res string (list Z) :=
  match DecodeString pubB64 with
  | None => Err ("community: decode " ++ what ++ " pub")%string
  | Some pub => if blen pub =? PublicKeySize then Ok pub else Err ("community: invalid " ++ what ++ " pub size")%string
  end.

Local Open Scope res_scope.

Section statements.
Context `{ED : Ed25519, TJ : TokenJSON}.

(** The body shared by the four [VerifySignature]. *)
Definition verify_signed (pubB64 sigB64 what : string) (signable : list Z) : res string unit :=
  pub <-! decode_pub pubB64 what;
  match DecodeString sigB64 with
  | None => Err "community: decode sig"
  | Some sig =>
      require! blen sig =? SignatureSize else "community: invalid sig size";
      require! ed_verify pub signable sig else "community: invalid signature";
      Ok tt
  end.

(** A token: a prefix and the statement in base64. *)
Definition encode_token (prefix : string) (json : list Z) : string := (prefix ++ EncodeToString json)%string.

Definition decode_token {A} (prefix : string) (read : list Z -> option A) (s : string) : res string A :=
  require! negb (is_empty s) else "community: token is empty";
  require! negb ((slen s <? slen prefix) || negb (HasPrefix s prefix)) else "community: invalid prefix";
  match DecodeString (TrimPrefix s prefix) with
  | None => Err "community: decode token"
  | Some raw => match read raw with None => Err "community: parse token" | Some x => Ok x end
  end.

(** ** Invites *)

Definition Invite_VerifySignature (i : Invite) : res string unit :=
  verify_signed (iv_IssuerPubB64 i) (iv_SigB64 i) "issuer" (invite_signable i).

Definition with_invite_sig (sig : string) (i : Invite) : Invite :=
  mkInvite (iv_Schema i) (iv_ID i) (iv_Community i) (iv_IssuerPubB64 i) (iv_IssuedAt i) (iv_ExpiresAt i) (iv_MaxUses i) (iv_NonceB64 i) sig.

Definition NewInvite (e : token_env) (now : Time) (communityID issuerPubB64 : string) (issuerPriv : list Z) (ttl : Duration) (maxUses : Z) : res string Invite :=
  require! negb (is_empty communityID) else "community: community id required";
  require! negb (is_empty issuerPubB64) else "community: issuer pub required";
  require! blen issuerPriv =? PrivateKeySize else "community: invalid issuer priv key";
  _ <-! decode_pub issuerPubB64 "issuer";
  let ttl := if ttl <=? 0 then 24 * Hour else ttl in
  require! negb (30 * 24 * Hour <? ttl) else "community: ttl too large";
  require! negb (maxUses <? 0) else "community: max_uses must be >= 0";
  require! negb (100 <? maxUses) else "community: max_uses too large";
  id <-! newInviteID e;
  nonce <-! newNonceB64 e;
  let inv := mkInvite SchemaV1 id communityID issuerPubB64 (Unix now) (Unix (TimeAdd now ttl)) maxUses nonce EmptyString in
  Ok (with_invite_sig (EncodeToString (ed_sign issuerPriv (invite_signable inv))) inv).

Definition Invite_Validate (now : Time) (i : Invite) : res string unit :=
  require! iv_Schema i =? SchemaV1 else "community: unsupported schema";
  require! negb (is_empty (iv_ID i)) else "community: invite id required";
  require! negb (is_empty (iv_Community i)) else "community: invite community required";
  require! negb (is_empty (iv_IssuerPubB64 i)) else "community: invite issuer pub required";
  require! negb ((iv_IssuedAt i <=? 0) || (iv_ExpiresAt i <=? 0)) else "community: issued_at/expires_at required";
  require! negb (iv_ExpiresAt i <? iv_IssuedAt i) else "community: expires_at before issued_at";
  require! negb (iv_ExpiresAt i <? Unix now) else "community: invite expired";
  require! negb (iv_MaxUses i <? 0) else "community: max_uses must be >= 0";
  require! negb (is_empty (iv_NonceB64 i) || is_empty (iv_SigB64 i)) else "community: nonce/sig required";
  Invite_VerifySignature i.

Definition Invite_Encode (i : Invite) : string := encode_token "sn4inv:" (json_invite i).

Definition DecodeInvite (now : Time) (s : string) : res string Invite :=
  inv <-! decode_token "sn4inv:" read_invite s;
  _ <-! Invite_Validate now inv;
  Ok inv.

(** ** Requests to join *)

Definition Request_VerifySignature (r : JoinRequest) : res string unit :=
  verify_signed (jr_ApplicantPubB64 r) (jr_SigB64 r) "applicant" (request_signable r).

Definition with_request_sig (sig : string) (r : JoinRequest) : JoinRequest :=
  mkRequest (jr_Schema r) (jr_InviteID r) (jr_Community r) (jr_ApplicantPubB64 r) (jr_CreatedAt r) (jr_NonceB64 r) sig.

(** [t] and [now] are the readings of the clock, for the check and for the request. *)
Definition NewJoinRequest (e : token_env) (t now : Time) (inv : Invite) (applicantPubB64 : string) (applicantPriv : list Z) : res string JoinRequest :=
  _ <-! Invite_Validate t inv;
  require! negb (is_empty applicantPubB64) else "community: applicant pub required";
  require! blen applicantPriv =? PrivateKeySize else "community: invalid applicant priv key";
  _ <-! decode_pub applicantPubB64 "applicant";
  nonce <-! newNonceB64 e;
  let req := mkRequest SchemaV1 (iv_ID inv) (iv_Community inv) applicantPubB64 (Unix now) nonce EmptyString in
  Ok (with_request_sig (EncodeToString (ed_sign applicantPriv (request_signable req))) req).

(** A window of seconds around a time stated; the sum may wrap around. *)
Definition in_window (now : Time) (at_ after : Z) : bool := negb ((Unix now <? i64 (at_ - 300)) || (i64 (at_ + after) <? Unix now)).

Definition Request_Validate (now : Time) (r : JoinRequest) : res string unit :=
  require! jr_Schema r =? SchemaV1 else "community: unsupported schema";
  require! negb (is_empty (jr_InviteID r) || is_empty (jr_Community r)) else "community: invite_id/community required";
  require! negb (is_empty (jr_ApplicantPubB64 r)) else "community: applicant pub required";
  require! negb (jr_CreatedAt r <=? 0) else "community: created_at required";
  require! in_window now (jr_CreatedAt r) (7 * 24 * 3600) else "community: join request time window invalid";
  require! negb (is_empty (jr_NonceB64 r) || is_empty (jr_SigB64 r)) else "community: nonce/sig required";
  Request_VerifySignature r.

Definition Request_Encode (r : JoinRequest) : string := encode_token "sn4jr:" (json_request r).

Definition DecodeJoinRequest (now : Time) (s : string) : res string JoinRequest :=
  req <-! decode_token "sn4jr:" read_request s;
  _ <-! Request_Validate now req;
  Ok req.

(** ** Approvals *)

Definition Approval_VerifySignature (a : JoinApproval) : res string unit :=
  verify_signed (ja_IssuerPubB64 a) (ja_SigB64 a) "issuer" (approval_signable a).

Definition with_approval_sig (sig : string) (a : JoinApproval) : JoinApproval :=
  mkApproval (ja_Schema a) (ja_InviteID a) (ja_Community a) (ja_ApplicantPubB64 a) (ja_GrantedRole a) (ja_IssuerPubB64 a) (ja_IssuedAt a) (ja_NonceB64 a) sig.

(** [t], [t'] and [now] are the readings of the clock. *)
Definition ApproveJoin (e : token_env) (t t' now : Time) (inv : Invite) (req : JoinRequest) (issuerPubB64 : string) (issuerPriv : list Z) (role : string)
    : res string JoinApproval :=
  _ <-! Invite_Validate t inv;
  _ <-! Request_Validate t' req;
  require! bool_decide (iv_ID inv = jr_InviteID req) && bool_decide (iv_Community inv = jr_Community req) else "community: invite/request mismatch";
  require! one_role role else "community: invalid role";
  require! negb (is_empty issuerPubB64) else "community: issuer pub required";
  require! blen issuerPriv =? PrivateKeySize else "community: invalid issuer priv key";
  nonce <-! newNonceB64 e;
  let a := mkApproval SchemaV1 (iv_ID inv) (iv_Community inv) (jr_ApplicantPubB64 req) role issuerPubB64 (Unix now) nonce EmptyString in
  Ok (with_approval_sig (EncodeToString (ed_sign issuerPriv (approval_signable a))) a).

Definition Approval_Validate (now : Time) (a : JoinApproval) : res string unit :=
  require! ja_Schema a =? SchemaV1 else "community: unsupported schema";
  require! negb (is_empty (ja_InviteID a) || is_empty (ja_Community a)) else "community: invite_id/community required";
  require! negb (is_empty (ja_ApplicantPubB64 a) || is_empty (ja_IssuerPubB64 a)) else "community: applicant/issuer pub required";
  require! one_role (ja_GrantedRole a) else "community: invalid role";
  require! negb (ja_IssuedAt a <=? 0) else "community: issued_at required";
  require! in_window now (ja_IssuedAt a) (30 * 24 * 3600) else "community: approval time window invalid";
  require! negb (is_empty (ja_NonceB64 a) || is_empty (ja_SigB64 a)) else "community: nonce/sig required";
  Approval_VerifySignature a.

Definition Approval_Encode (a : JoinApproval) : string := encode_token "sn4ja:" (json_approval a).

Definition DecodeJoinApproval (now : Time) (s : string) : res string JoinApproval :=
  a <-! decode_token "sn4ja:" read_approval s;
  _ <-! Approval_Validate now a;
  Ok a.

(** ** Revocations *)

Definition Revocation_VerifySignature (r : Revocation) : res string unit :=
  verify_signed (re_IssuerPubB64 r) (re_SigB64 r) "issuer" (revocation_signable r).

Definition with_revocation_sig (sig : string) (r : Revocation) : Revocation :=
  mkRevocation (re_Schema r) (re_Community r) (re_Kind r) (re_SubjectPubB64 r) (re_IssuerPubB64 r) (re_IssuedAt r) (re_NonceB64 r) sig.

Definition NewRevocation (e : token_env) (now : Time) (community kind subjectPubB64 issuerPubB64 : string) (issuerPriv : list Z) : res string Revocation :=
  require! negb (is_empty community) else "community: community required";
  require! one_kind kind else "community: invalid revocation kind";
  require! negb (is_empty subjectPubB64) else "community: subject pub required";
  require! negb (is_empty issuerPubB64) else "community: issuer pub required";
  require! blen issuerPriv =? PrivateKeySize else "community: invalid issuer priv key";
  _ <-! decode_pub subjectPubB64 "subject";
  _ <-! decode_pub issuerPubB64 "issuer";
  nonce <-! newNonceB64 e;
  let r := mkRevocation SchemaV1 community kind subjectPubB64 issuerPubB64 (Unix now) nonce EmptyString in
  Ok (with_revocation_sig (EncodeToString (ed_sign issuerPriv (revocation_signable r))) r).

Definition Revocation_Validate (now : Time) (r : Revocation) : res string unit :=
  require! re_Schema r =? SchemaV1 else "community: unsupported schema";
  require! negb (is_empty (re_Community r)) else "community: community required";
  require! one_kind (re_Kind r) else "community: invalid revocation kind";
  require! negb (is_empty (re_SubjectPubB64 r) || is_empty (re_IssuerPubB64 r)) else "community: subject/issuer pub required";
  require! negb (re_IssuedAt r <=? 0) else "community: issued_at required";
  require! in_window now (re_IssuedAt r) (30 * 24 * 3600) else "community: revocation time window invalid";
  require! negb (is_empty (re_NonceB64 r) || is_empty (re_SigB64 r)) else "community: nonce/sig required";
  Revocation_VerifySignature r.

Definition Revocation_Encode (r : Revocation) : string := encode_token "sn4rv:" (json_revocation r).

Definition DecodeRevocation (now : Time) (s : string) : res string Revocation :=
  r <-! decode_token "sn4rv:" read_revocation s;
  _ <-! Revocation_Validate now r;
  Ok r.

(** ** The registry *)

Record Registry := mkRegistry {
  rg_invites : gmap string Invite;
  rg_inviteUses : gmap string Z;
  rg_members : gmap string (gmap string Member);
  rg_joinAttempts : gmap string (gmap string (list Z));
}.

Definition NewRegistry : Registry := mkRegistry ∅ ∅ ∅ ∅.

(** Both levels of a map of maps; a missing inner map reads as an empty one. *)
Definition lookup2 {A} (m : gmap string (gmap string A)) (k1 k2 : string) : option A := default ∅ (m !! k1) !! k2.
Definition insert2 {A} (k1 k2 : string) (x : A) (m : gmap string (gmap string A)) : gmap string (gmap string A) :=
  <[k1 := <[k2 := x]> (default ∅ (m !! k1))]> m.

Definition uses (r : Registry) (id : string) : Z := default 0 (rg_inviteUses r !! id).

(** The limit of attempts in an hour. *)
Definition normalize_rate (MaxPerHour : Z) : Z :=
  let n := if MaxPerHour <=? 0 then 5 else MaxPerHour in
  if 50 <? n then 50 else n.

Definition AddInvite (now : Time) (inv : Invite) (r : Registry) : res string unit * Registry :=
  match Invite_Validate now inv with
  | Err e => (Err e, r)
  | Ok _ =>
      (Ok tt, mkRegistry (<[iv_ID inv := inv]> (rg_invites r))
                (match rg_inviteUses r !! iv_ID inv with Some _ => rg_inviteUses r | None => <[iv_ID inv := 0]> (rg_inviteUses r) end)
                (rg_members r) (rg_joinAttempts r))
  end.

(** The attempts of the last hour are kept; one more is refused or recorded.  The slice that
    is cut in place is the one the map holds, and is put back. *)
Definition checkAndRecordJoinAttempt (now : Time) (community applicantPubB64 : string) (maxPerHour : Z) (r : Registry) : bool * Registry :=
  let maxPerHour := if maxPerHour <=? 0 then 5 else maxPerHour in
  let cut := Unix (TimeAdd now (- Hour)) in
  let kept := filter (fun t => cut <= t) (default [] (lookup2 (rg_joinAttempts r) community applicantPubB64)) in
  let put hits := mkRegistry (rg_invites r) (rg_inviteUses r) (rg_members r) (insert2 community applicantPubB64 hits (rg_joinAttempts r)) in
  if maxPerHour <=? blen kept then (false, put kept) else (true, put (kept ++ [Unix now])).

(** The checks of [ApplyJoin] before the registry is locked. *)
Definition join_matches (now : Time) (inv : Invite) (req : JoinRequest) (approval : JoinApproval) : res string unit :=
  _ <-! Invite_Validate now inv;
  _ <-! Request_Validate now req;
  _ <-! Approval_Validate now approval;
  require! bool_decide (iv_ID inv = jr_InviteID req) && bool_decide (iv_Community inv = jr_Community req) else "community: invite/request mismatch";
  require! bool_decide (ja_InviteID approval = iv_ID inv) && bool_decide (ja_Community approval = iv_Community inv)
    && bool_decide (ja_ApplicantPubB64 approval = jr_ApplicantPubB64 req) else "community: approval mismatch";
  require! one_role (ja_GrantedRole approval) else "community: invalid granted role";
  Ok tt.

(** The stored invite stands in for the one that is shown. *)
Definition effective_invite (inv : Invite) (r : Registry) : Invite := default inv (rg_invites r !! iv_ID inv).

Definition ApplyJoin (now : Time) (inv : Invite) (req : JoinRequest) (approval : JoinApproval) (MaxPerHour : Z) (r : Registry) : res string Member * Registry :=
  match join_matches now inv req approval with
  | Err e => (Err e, r)
  | Ok _ =>
      let inv := effective_invite inv r in
      if (0 <? iv_MaxUses inv) && (iv_MaxUses inv <=? uses r (iv_ID inv)) then (Err "community: invite max uses exceeded", r)
      else
        let '(ok, r) := checkAndRecordJoinAttempt now (iv_Community inv) (jr_ApplicantPubB64 req) (normalize_rate MaxPerHour) r in
        if negb ok then (Err "community: join rate limit exceeded", r)
        else
          let members := match rg_members r !! iv_Community inv with Some _ => rg_members r | None => <[iv_Community inv := ∅]> (rg_members r) end in
          let banned := match lookup2 members (iv_Community inv) (jr_ApplicantPubB64 req) with
                        | Some m => bool_decide (mb_Status m = MemberBanned) | None => false end in
          if banned then (Err "community: applicant banned", mkRegistry (rg_invites r) (rg_inviteUses r) members (rg_joinAttempts r))
          else
            let m := mkMember (iv_Community inv) (jr_ApplicantPubB64 req) (ja_GrantedRole approval) MemberActive (Unix now) (ja_IssuerPubB64 approval) (iv_ID inv) in
            (Ok m, mkRegistry (rg_invites r) (<[iv_ID inv := uses r (iv_ID inv) + 1]> (rg_inviteUses r))
                     (insert2 (iv_Community inv) (jr_ApplicantPubB64 req) m members) (rg_joinAttempts r))
  end.

Definition with_status (status : string) (m : Member) : Member :=
  mkMember (mb_Community m) (mb_MemberPubB64 m) (mb_Role m) status (mb_JoinedAt m) (mb_ApprovedByPubB64 m) (mb_InviteID m).

(** [None] when there is no such member. *)
Definition ApplyRevocation (now : Time) (rev : Revocation) (r : Registry) : res string (option Member) * Registry :=
  match Revocation_Validate now rev with
  | Err e => (Err e, r)
  | Ok _ =>
      match lookup2 (rg_members r) (re_Community rev) (re_SubjectPubB64 rev) with
      | None => (Ok None, r)
      | Some m =>
          let change status :=
            let m := with_status status m in
            (Ok (Some m), mkRegistry (rg_invites r) (rg_inviteUses r) (insert2 (re_Community rev) (re_SubjectPubB64 rev) m (rg_members r)) (rg_joinAttempts r)) in
          if bool_decide (re_Kind rev = RevokeMember) then change MemberRevoked
          else if bool_decide (re_Kind rev = BanMember) then change MemberBanned
          else (Err "community: invalid revocation kind", r)
      end
  end.
End statements.
