(* ===== verification/CommunitySpec.v ===== *)
(** * What holds of communities

    Signed statements cannot be taken for one another; statements that are made are
    accepted; and what the registry keeps over any sequence of operations. *)

From S2P Require Import Prelude Sha256 GoStr Community.

#[local] Open Scope string_scope.
#[local] Open Scope list_scope.
#[local] Open Scope Z_scope.

(** ** What is signed *)

Inductive statement :=
  | SInvite (i : Invite)
  | SRequest (r : JoinRequest)
  | SApproval (a : JoinApproval)
  | SRevocation (r : Revocation).

Definition signable (s : statement) : list Z :=
  match s with
  | SInvite i => invite_signable i
  | SRequest r => request_signable r
  | SApproval a => approval_signable a
  | SRevocation r => revocation_signable r
  end.

(** The statement without its signature. *)
Definition unsigned (s : statement) : statement :=
  match s with
  | SInvite i => SInvite (with_invite_sig "" i)
  | SRequest r => SRequest (with_request_sig "" r)
  | SApproval a => SApproval (with_approval_sig "" a)
  | SRevocation r => SRevocation (with_revocation_sig "" r)
  end.

(** The strings are UTF-8, as all that come out of JSON are, and the numbers of 64 bits. *)
Definition text_ok (s : statement) : Prop :=
  match s with
  | SInvite i => Forall valid_string [iv_ID i; iv_Community i; iv_IssuerPubB64 i; iv_NonceB64 i]
      /\ Forall is_i64 [iv_Schema i; iv_IssuedAt i; iv_ExpiresAt i; iv_MaxUses i]
  | SRequest r => Forall valid_string [jr_InviteID r; jr_Community r; jr_ApplicantPubB64 r; jr_NonceB64 r]
      /\ Forall is_i64 [jr_Schema r; jr_CreatedAt r]
  | SApproval a => Forall valid_string [ja_InviteID a; ja_Community a; ja_ApplicantPubB64 a; ja_GrantedRole a; ja_IssuerPubB64 a; ja_NonceB64 a]
      /\ Forall is_i64 [ja_Schema a; ja_IssuedAt a]
  | SRevocation r => Forall valid_string [re_Community r; re_Kind r; re_SubjectPubB64 r; re_IssuerPubB64 r; re_NonceB64 r]
      /\ Forall is_i64 [re_Schema r; re_IssuedAt r]
  end.

Lemma i64_json x : is_i64 x -> json_range x.
Proof. unfold json_range. unfold_ints. lia. Qed.

Ltac open_text H := cbn [text_ok] in H; rewrite ?Forall_cons in H;
  repeat match goal with
    | H : _ /\ _ |- _ => destruct H
    | H : is_i64 _ |- _ => apply i64_json in H
    end.
Ltac next_string H := next_field H json_string_prefix.
Ltac next_int H := next_field H json_int_prefix.
(** The last field, and the end of the object. *)
Ltac last_string H :=
  unfold comma_separated in H; cbn [map concat] in H; rewrite ?app_nil_r in H;
  apply field_prefix in H; apply json_string_prefix in H as [? H]; [|done..].
(** Two fields with different names. *)
Ltac field_clash H :=
  unfold comma_separated in H; cbn [map concat] in H; exfalso; rewrite <- ?app_assoc in H;
  apply json_string_prefix in H as [E _]; [discriminate E|vm_compute; reflexivity..].
Ltac open_object H :=
  unfold json_object in H; cbn [app] in H; apply cons_tail in H; cbn [map fst snd app] in H; rewrite ?comma_cons in H.

Lemma invite_signable_inj i j : text_ok (SInvite i) -> text_ok (SInvite j) -> invite_signable i = invite_signable j ->
  with_invite_sig "" i = with_invite_sig "" j.
Proof.
  intros Hi Hj H. open_text Hi. open_text Hj. unfold invite_signable, invite_fields, omit_zero in H.
  destruct (Z.eqb_spec (iv_MaxUses i) 0) as [Ei|Ei], (Z.eqb_spec (iv_MaxUses j) 0) as [Ej|Ej]; open_object H;
    next_int H; do 3 next_string H; do 2 next_int H.
  - last_string H. unfold with_invite_sig. f_equal; congruence.
  - field_clash H.
  - field_clash H.
  - next_int H. last_string H. unfold with_invite_sig. f_equal; congruence.
Qed.

Lemma request_signable_inj q r : text_ok (SRequest q) -> text_ok (SRequest r) -> request_signable q = request_signable r ->
  with_request_sig "" q = with_request_sig "" r.
Proof.
  intros Hi Hj H. open_text Hi. open_text Hj. unfold request_signable, request_fields in H. open_object H.
  next_int H. do 3 next_string H. next_int H. last_string H. unfold with_request_sig. f_equal; congruence.
Qed.

Lemma approval_signable_inj a b : text_ok (SApproval a) -> text_ok (SApproval b) -> approval_signable a = approval_signable b ->
  with_approval_sig "" a = with_approval_sig "" b.
Proof.
  intros Hi Hj H. open_text Hi. open_text Hj. unfold approval_signable, approval_fields in H. open_object H.
  next_int H. do 5 next_string H. next_int H. last_string H. unfold with_approval_sig. f_equal; congruence.
Qed.

Lemma revocation_signable_inj q r : text_ok (SRevocation q) -> text_ok (SRevocation r) -> revocation_signable q = revocation_signable r ->
  with_revocation_sig "" q = with_revocation_sig "" r.
Proof.
  intros Hi Hj H. open_text Hi. open_text Hj. unfold revocation_signable, revocation_fields in H. open_object H.
  next_int H. do 4 next_string H. next_int H. last_string H. unfold with_revocation_sig. f_equal; congruence.
Qed.

(** The number of a statement's kind. *)
Definition kind_of (s : statement) : nat := match s with SInvite _ => 0 | SRequest _ => 1 | SApproval _ => 2 | SRevocation _ => 3 end.

Lemma signable_kind s t : text_ok s -> text_ok t -> signable s = signable t -> kind_of s = kind_of t.
Proof.
  intros Hs Ht H. destruct s as [i|r|a|v], t as [i'|r'|a'|v']; try reflexivity; open_text Hs; open_text Ht; cbn [signable] in H;
    unfold invite_signable, invite_fields, request_signable, request_fields, approval_signable, approval_fields, revocation_signable, revocation_fields in H;
    open_object H; next_int H; first [field_clash H|do 3 next_string H; field_clash H].
Qed.

Lemma statement_inj s t : text_ok s -> text_ok t -> signable s = signable t -> unsigned s = unsigned t.
Proof.
  intros Hs Ht H. pose proof (signable_kind s t Hs Ht H) as Hk.
  destruct s as [i|r|a|v], t as [i'|r'|a'|v']; try discriminate Hk; cbn [unsigned signable] in *; f_equal;
    [by apply invite_signable_inj|by apply request_signable_inj|by apply approval_signable_inj|by apply revocation_signable_inj].
Qed.

(** A signature cannot be moved from one statement to another: the bytes that are signed
    determine the kind of the statement, whether an invite, a request, an approval or a
    revocation, and all its fields. *)
Theorem signatures_bind_statements s t : text_ok s -> text_ok t -> signable s = signable t -> unsigned s = unsigned t.
Proof. exact (statement_inj s t). Qed.

(** ** Statements that are made are accepted *)

Lemma EncodeToString_nonempty b : b <> [] -> is_empty (EncodeToString b) = false.
Proof. destruct b as [|x [|y [|z b]]]; intros Hb; [by destruct Hb|reflexivity..]. Qed.

Section made.
Context `{ED : Ed25519, TJ : TokenJSON}.

(** The private key's signatures verify under the public key. *)
Definition signs (pub priv : list Z) : Prop :=
  forall msg, bytes_ok (ed_sign priv msg) /\ blen (ed_sign priv msg) = SignatureSize /\ ed_verify pub msg (ed_sign priv msg) = true.

(** The random source fills its buffers. *)
Definition env_ok (e : token_env) : Prop := te_id e <> Some [] /\ te_nonce e <> Some [].

Lemma newNonceB64_nonempty e nonce : env_ok e -> newNonceB64 e = Ok nonce -> is_empty nonce = false.
Proof. intros [_ He]. unfold newNonceB64. destruct (te_nonce e); [|done]. intros [= <-]. apply EncodeToString_nonempty. congruence. Qed.
Lemma newInviteID_nonempty e id : env_ok e -> newInviteID e = Ok id -> is_empty id = false.
Proof. intros [He _]. unfold newInviteID. destruct (te_id e); [|done]. intros [= <-]. apply EncodeToString_nonempty. congruence. Qed.

Lemma signature_nonempty pub priv msg : signs pub priv -> is_empty (EncodeToString (ed_sign priv msg)) = false.
Proof. intros Hs. destruct (Hs msg) as (_ & Hl & _). apply EncodeToString_nonempty. intros E. by rewrite E in Hl. Qed.

Lemma verify_signed_ok pubB64 pub priv what msg : decode_pub pubB64 what = Ok pub -> signs pub priv ->
  verify_signed pubB64 (EncodeToString (ed_sign priv msg)) what msg = Ok tt.
Proof.
  intros Hd Hs. destruct (Hs msg) as (Hb & Hl & Hv). unfold verify_signed. rewrite Hd. cbn [rbind].
  by rewrite DecodeString_EncodeToString, Hl, Hv.
Qed.

Lemma verify_signed_decodes pubB64 sigB64 what msg : verify_signed pubB64 sigB64 what msg = Ok tt -> exists pub, decode_pub pubB64 what = Ok pub.
Proof. unfold verify_signed. destruct (decode_pub _ _); [by eexists|done]. Qed.

Lemma Unix_mono t u : t <= u -> Unix t <= Unix u.
Proof. intros. unfold Unix, Second. by apply Z.div_le_mono. Qed.

(** Takes an early return apart. *)
Ltac passes H :=
  match type of H with
  | (if ?b then _ else _) = Ok _ => destruct b eqn:?; [|discriminate H]
  | rbind ?r _ = Ok _ => destruct r eqn:?; [cbn [rbind] in H|discriminate H]
  end.

Ltac fresh_nonempty :=
  repeat match goal with
    | E : newInviteID _ = Ok _ |- _ => apply newInviteID_nonempty in E; [rewrite E; clear E|done]
    | E : newNonceB64 _ = Ok _ |- _ => apply newNonceB64_nonempty in E; [rewrite E; clear E|done]
    end.

Lemma NewInvite_valid e now t c pubB64 pub priv ttl uses inv : env_ok e -> decode_pub pubB64 "issuer" = Ok pub -> signs pub priv ->
  NewInvite e now c pubB64 priv ttl uses = Ok inv -> 0 < Unix now -> Unix t <= iv_ExpiresAt inv ->
  Invite_Validate t inv = Ok tt /\ iv_Community inv = c /\ iv_IssuerPubB64 inv = pubB64 /\ iv_MaxUses inv = uses.
Proof.
  intros He Hd Hs H Hnow Ht. unfold NewInvite in H. do 4 passes H. cbv zeta in H. set (d := if ttl <=? 0 then _ else ttl) in *. do 5 passes H.
  injection H as <-. cbn in Ht. split; [|done]. unfold Invite_Validate. cbn [iv_Schema iv_ID iv_Community iv_IssuerPubB64 iv_IssuedAt iv_ExpiresAt iv_MaxUses iv_NonceB64 iv_SigB64 with_invite_sig].
  assert (Unix now <= Unix (TimeAdd now d)) as Hd'.
  { apply Unix_mono. unfold TimeAdd, d. destruct (Z.leb_spec ttl 0); [unfold Hour, Minute, Second; lia|lia]. }
  fresh_nonempty. rewrite (signature_nonempty pub) by done.
  rewrite (proj2 (Z.leb_gt (Unix now) 0)), (proj2 (Z.leb_gt (Unix (TimeAdd now d)) 0)), (proj2 (Z.ltb_ge (Unix (TimeAdd now d)) (Unix now))),
    (proj2 (Z.ltb_ge (Unix (TimeAdd now d)) (Unix t))) by lia.
  repeat match goal with E : ?b = true |- _ => first [rewrite E; clear E|clear E] end. cbn [Z.eqb Pos.eqb SchemaV1 negb orb].
  injection Hd as ->. by apply (verify_signed_ok _ pub priv).
Qed.

Lemma NewInvite_window e now c pubB64 priv ttl uses inv : NewInvite e now c pubB64 priv ttl uses = Ok inv -> Unix now <= iv_ExpiresAt inv.
Proof.
  intros H. unfold NewInvite in H. do 4 passes H. cbv zeta in H. do 5 passes H. injection H as <-. cbn. apply Unix_mono. unfold TimeAdd.
  destruct (Z.leb_spec ttl 0); [unfold Hour, Minute, Second; lia|lia].
Qed.

Lemma decode_pub_not_blank s what pub : decode_pub s what = Ok pub -> is_blank s = false.
Proof.
  unfold decode_pub. destruct (DecodeString s) as [b|] eqn:E; [|done]. destruct (Z.eqb_spec (blen b) PublicKeySize) as [Hl|]; [|done]. intros _.
  destruct (is_blank s) eqn:Eb; [|done]. by rewrite (blank_decodes_empty s b Eb E) in Hl.
Qed.

(** What a valid invite has. *)
Lemma Invite_Validate_ok now inv : Invite_Validate now inv = Ok tt ->
  iv_Schema inv = SchemaV1 /\ is_empty (iv_ID inv) = false /\ is_empty (iv_Community inv) = false /\ is_blank (iv_IssuerPubB64 inv) = false
  /\ 0 <= iv_MaxUses inv /\ Invite_VerifySignature inv = Ok tt.
Proof.
  intros H. unfold Invite_Validate in H. do 9 passes H.
  repeat match goal with E : negb ?b = true |- _ => apply negb_true_iff in E end.
  split; [by apply Z.eqb_eq|]. split; [done|]. split; [done|]. pose proof H as H'. unfold Invite_VerifySignature in H'. apply verify_signed_decodes in H' as [pub Hpub].
  split; [by apply decode_pub_not_blank in Hpub|]. split; [|done].
  match goal with E : (iv_MaxUses inv <? 0) = false |- _ => by apply Z.ltb_ge in E end.
Qed.

(** A window around a time stated holds when the clock has advanced a little. *)
Lemma in_window_after now t d : 0 < Unix t -> t <= now -> Unix now <= Unix t + d -> is_i64 (Unix t + d) -> in_window now (Unix t) d = true.
Proof.
  intros H0 Ht Hd Hi. pose proof (Unix_mono t now Ht). unfold in_window. rewrite !i64_id; [|done|unfold_ints; lia].
  rewrite (proj2 (Z.ltb_ge _ _)), (proj2 (Z.ltb_ge _ _)) by lia. done.
Qed.

Lemma NewJoinRequest_valid e t t' now inv pubB64 pub priv req : env_ok e -> decode_pub pubB64 "applicant" = Ok pub -> signs pub priv ->
  NewJoinRequest e t t' inv pubB64 priv = Ok req -> 0 < Unix t' -> t' <= now -> Unix now <= Unix t' + 7 * 24 * 3600 -> is_i64 (Unix t' + 7 * 24 * 3600) ->
  Request_Validate now req = Ok tt /\ jr_InviteID req = iv_ID inv /\ jr_Community req = iv_Community inv /\ jr_ApplicantPubB64 req = pubB64.
Proof.
  intros He Hd Hs H H0 Ht Hw Hi. unfold NewJoinRequest in H. destruct (Invite_Validate t inv) eqn:Hinv; [cbn [rbind] in H|done]. do 4 passes H.
  injection H as <-. injection Hd as ->. split; [|done]. unfold Request_Validate.
  cbn [jr_Schema jr_InviteID jr_Community jr_ApplicantPubB64 jr_CreatedAt jr_NonceB64 jr_SigB64 with_request_sig].
  assert (is_empty (iv_ID inv) = false /\ is_empty (iv_Community inv) = false) as [-> ->].
  { unfold Invite_Validate in Hinv. do 3 passes Hinv. by split; apply negb_true_iff. }
  fresh_nonempty. rewrite (signature_nonempty pub), in_window_after, (proj2 (Z.leb_gt (Unix t') 0)) by done.
  repeat match goal with E : ?b = true |- _ => first [rewrite E; clear E|clear E] end.
  cbn [Z.eqb Pos.eqb SchemaV1 negb orb].
  by apply (verify_signed_ok _ pub priv).
Qed.

Lemma ApproveJoin_valid e t t' t'' now inv req pubB64 pub priv role a : env_ok e -> decode_pub pubB64 "issuer" = Ok pub -> signs pub priv ->
  ApproveJoin e t t' t'' inv req pubB64 priv role = Ok a -> 0 < Unix t'' -> t'' <= now -> Unix now <= Unix t'' + 30 * 24 * 3600 ->
  is_i64 (Unix t'' + 30 * 24 * 3600) ->
  Approval_Validate now a = Ok tt /\ iv_ID inv = jr_InviteID req /\ iv_Community inv = jr_Community req /\ ja_InviteID a = iv_ID inv
  /\ ja_Community a = iv_Community inv /\ ja_ApplicantPubB64 a = jr_ApplicantPubB64 req /\ ja_GrantedRole a = role /\ ja_IssuerPubB64 a = pubB64
  /\ one_role role = true.
Proof.
  intros He Hd Hs H H0 Ht Hw Hi. unfold ApproveJoin in H. destruct (Invite_Validate t inv) eqn:Hinv; [cbn [rbind] in H|done].
  destruct (Request_Validate t' req) eqn:Hreq; [cbn [rbind] in H|done]. do 5 passes H.
  injection H as <-. assert (iv_ID inv = jr_InviteID req /\ iv_Community inv = jr_Community req) as [E1 E2].
  { match goal with E : _ && _ = true |- _ => apply andb_true_iff in E as [E1%bool_decide_eq_true E2%bool_decide_eq_true] end. done. }
  split; [|done]. unfold Approval_Validate.
  cbn [ja_Schema ja_InviteID ja_Community ja_ApplicantPubB64 ja_GrantedRole ja_IssuerPubB64 ja_IssuedAt ja_NonceB64 ja_SigB64 with_approval_sig].
  assert (is_empty (iv_ID inv) = false /\ is_empty (iv_Community inv) = false) as [-> ->].
  { unfold Invite_Validate in Hinv. do 3 passes Hinv. by split; apply negb_true_iff. }
  assert (is_empty (jr_ApplicantPubB64 req) = false) as ->.
  { unfold Request_Validate in Hreq. do 3 passes Hreq. by apply negb_true_iff. }
  fresh_nonempty. rewrite (signature_nonempty pub), in_window_after, (proj2 (Z.leb_gt (Unix t'') 0)) by done.
  assert (is_empty pubB64 = false) as -> by by apply negb_true_iff.
  repeat match goal with E : one_role _ = true |- _ => rewrite E; clear E end. cbn [Z.eqb Pos.eqb SchemaV1 negb orb].
  by apply (verify_signed_ok _ pub priv).
Qed.

Lemma NewRevocation_valid e t now c kind subject pubB64 pub priv r : env_ok e -> signs pub priv -> decode_pub pubB64 "issuer" = Ok pub ->
  NewRevocation e t c kind subject pubB64 priv = Ok r -> 0 < Unix t -> t <= now -> Unix now <= Unix t + 30 * 24 * 3600 ->
  is_i64 (Unix t + 30 * 24 * 3600) ->
  Revocation_Validate now r = Ok tt /\ re_Community r = c /\ re_Kind r = kind /\ re_SubjectPubB64 r = subject.
Proof.
  intros He Hs Hd H H0 Ht Hw Hi. unfold NewRevocation in H. do 8 passes H. injection H as <-. injection Hd as ->.
  split; [|done]. unfold Revocation_Validate.
  cbn [re_Schema re_Community re_Kind re_SubjectPubB64 re_IssuerPubB64 re_IssuedAt re_NonceB64 re_SigB64 with_revocation_sig].
  fresh_nonempty. rewrite (signature_nonempty pub), in_window_after, (proj2 (Z.leb_gt (Unix t) 0)) by done.
  repeat match goal with E : negb ?b = true |- _ => apply negb_true_iff in E; try rewrite E; clear E end.
  repeat match goal with E : one_kind _ = true |- _ => rewrite E; clear E end. cbn [Z.eqb Pos.eqb SchemaV1 negb orb].
  by apply (verify_signed_ok _ pub priv).
Qed.
End made.

(** ** Maps of maps *)

Lemma lookup2_empty {A} k1 k2 : lookup2 (∅ : gmap string (gmap string A)) k1 k2 = None.
Proof. unfold lookup2. by rewrite lookup_empty. Qed.
Lemma lookup2_insert2 {A} k1 k2 (x : A) m : lookup2 (insert2 k1 k2 x m) k1 k2 = Some x.
Proof. unfold lookup2, insert2. rewrite lookup_insert_eq. cbn [default from_option id]. by rewrite lookup_insert_eq. Qed.
Lemma lookup2_insert2_ne {A} k1 k2 (x : A) m j1 j2 : (k1, k2) <> (j1, j2) -> lookup2 (insert2 k1 k2 x m) j1 j2 = lookup2 m j1 j2.
Proof.
  intros Hne. unfold lookup2, insert2. destruct (decide (k1 = j1)) as [->|Hk]; [|by rewrite lookup_insert_ne].
  rewrite lookup_insert_eq. cbn [default from_option id]. rewrite lookup_insert_ne; [done|congruence].
Qed.
(** An empty inner map changes nothing. *)
Lemma lookup2_open {A} c (m : gmap string (gmap string A)) j1 j2 :
  lookup2 (match m !! c with Some _ => m | None => <[c := ∅]> m end) j1 j2 = lookup2 m j1 j2.
Proof.
  destruct (m !! c) eqn:E; [done|]. unfold lookup2. destruct (decide (c = j1)) as [->|Hk]; [|by rewrite lookup_insert_ne].
  by rewrite lookup_insert_eq, E.
Qed.

(** ** Histories of a registry *)

Inductive reg_op :=
  | OpAddInvite (now : Time) (inv : Invite)
  | OpApplyJoin (now : Time) (inv : Invite) (req : JoinRequest) (approval : JoinApproval) (MaxPerHour : Z)
  | OpApplyRevocation (now : Time) (rev : Revocation).

Definition op_time (o : reg_op) : Time :=
  match o with OpAddInvite now _ | OpApplyJoin now _ _ _ _ | OpApplyRevocation now _ => now end.

(** A join that was applied, with what it was applied on. *)
Record joined := mkJoined {
  jo_now : Time;
  jo_invite : Invite;
  jo_request : JoinRequest;
  jo_approval : JoinApproval;
  jo_member : Member;
}.

Record reg_world := mkRegWorld {
  rw_registry : Registry;
  rw_joins : list joined;
}.

Section registry.
Context `{ED : Ed25519}.

Definition reg_step (w : reg_world) (o : reg_op) : reg_world :=
  match o with
  | OpAddInvite now inv => mkRegWorld (AddInvite now inv (rw_registry w)).2 (rw_joins w)
  | OpApplyJoin now inv req approval rate =>
      let '(out, r) := ApplyJoin now inv req approval rate (rw_registry w) in
      mkRegWorld r (match out with Ok m => mkJoined now inv req approval m :: rw_joins w | Err _ => rw_joins w end)
  | OpApplyRevocation now rev => mkRegWorld (ApplyRevocation now rev (rw_registry w)).2 (rw_joins w)
  end.

Definition reg_run (ops : list reg_op) (w : reg_world) : reg_world := fold_left reg_step ops w.
Definition fresh : reg_world := mkRegWorld NewRegistry [].

(** The recorded attempts of an applicant at a community. *)
Definition attempts (r : Registry) (c k : string) : list Z := default [] (lookup2 (rg_joinAttempts r) c k).
(** The attempts that count at a time. *)
Definition recent (now : Time) (l : list Z) : list Z := filter (fun t => Unix now - 3600 <= t) l.

Lemma cut_unix now : Unix (TimeAdd now (- Hour)) = Unix now - 3600.
Proof.
  unfold Unix, TimeAdd. change Hour with (3600 * Second). replace (now + - (3600 * Second)) with (now + (-3600) * Second) by lia.
  rewrite Z.div_add by (unfold Second; lia). lia.
Qed.

Lemma normalize_rate_range rate : 0 < normalize_rate rate <= 50.
Proof. unfold normalize_rate. destruct (Z.leb_spec rate 0); cbn zeta; [cbn; lia|]. destruct (Z.ltb_spec 50 rate); lia. Qed.

(** What checking an attempt does. *)
Lemma check_attempt_spec now c k n r ok r' : 0 < n -> checkAndRecordJoinAttempt now c k n r = (ok, r') ->
  rg_invites r' = rg_invites r /\ rg_inviteUses r' = rg_inviteUses r /\ rg_members r' = rg_members r
  /\ attempts r' c k = recent now (attempts r c k) ++ (if ok then [Unix now] else [])
  /\ (forall c' k', (c, k) <> (c', k') -> attempts r' c' k' = attempts r c' k')
  /\ ok = (blen (recent now (attempts r c k)) <? n).
Proof.
  intros Hn. unfold checkAndRecordJoinAttempt. cbv zeta. rewrite (proj2 (Z.leb_gt n 0)), cut_unix by done. fold (attempts r c k). fold (recent now (attempts r c k)).
  destruct (Z.leb_spec n (blen (recent now (attempts r c k)))) as [Hle|Hlt]; intros [= <- <-]; unfold attempts; cbn [rg_invites rg_inviteUses rg_members rg_joinAttempts];
    (split; [done|]); (split; [done|]); (split; [done|]); rewrite lookup2_insert2; (split; [by rewrite ?app_nil_r|]);
    (split; [by intros c' k' Hne; rewrite lookup2_insert2_ne|]); symmetry; [by apply Z.ltb_ge|by apply Z.ltb_lt].
Qed.

Lemma join_matches_ok now inv req a : join_matches now inv req a = Ok tt ->
  Invite_Validate now inv = Ok tt /\ Request_Validate now req = Ok tt /\ Approval_Validate now a = Ok tt
  /\ iv_ID inv = jr_InviteID req /\ iv_Community inv = jr_Community req /\ ja_InviteID a = iv_ID inv /\ ja_Community a = iv_Community inv
  /\ ja_ApplicantPubB64 a = jr_ApplicantPubB64 req /\ one_role (ja_GrantedRole a) = true.
Proof.
  unfold join_matches. destruct (Invite_Validate now inv) as [[]|]; [|done]. destruct (Request_Validate now req) as [[]|]; [|done].
  destruct (Approval_Validate now a) as [[]|]; [|done]. cbn [rbind]. destruct (_ && _) eqn:E1; [|done]. destruct (_ && _ && _) eqn:E2; [|done].
  destruct (one_role _) eqn:E3; [|done]. apply andb_true_iff in E1 as [?%bool_decide_eq_true ?%bool_decide_eq_true].
  apply andb_true_iff in E2 as [[?%bool_decide_eq_true ?%bool_decide_eq_true]%andb_true_iff ?%bool_decide_eq_true]. done.
Qed.

(** The member a join makes. *)
Definition new_member (now : Time) (e : Invite) (req : JoinRequest) (a : JoinApproval) : Member :=
  mkMember (iv_Community e) (jr_ApplicantPubB64 req) (ja_GrantedRole a) MemberActive (Unix now) (ja_IssuerPubB64 a) (iv_ID e).

(** A join that is applied, in full. *)
Lemma ApplyJoin_ok now inv req a rate r m r' : ApplyJoin now inv req a rate r = (Ok m, r') ->
  let e := effective_invite inv r in let c := iv_Community e in let k := jr_ApplicantPubB64 req in
  join_matches now inv req a = Ok tt /\ m = new_member now e req a
  /\ (0 < iv_MaxUses e -> uses r (iv_ID e) < iv_MaxUses e)
  /\ blen (recent now (attempts r c k)) < normalize_rate rate
  /\ (forall m', lookup2 (rg_members r) c k = Some m' -> mb_Status m' <> MemberBanned)
  /\ rg_invites r' = rg_invites r /\ rg_inviteUses r' = <[iv_ID e := uses r (iv_ID e) + 1]> (rg_inviteUses r)
  /\ (forall c' k', lookup2 (rg_members r') c' k' = if bool_decide ((c, k) = (c', k')) then Some m else lookup2 (rg_members r) c' k')
  /\ attempts r' c k = recent now (attempts r c k) ++ [Unix now]
  /\ (forall c' k', (c, k) <> (c', k') -> attempts r' c' k' = attempts r c' k').
Proof.
  intros H e c k. unfold ApplyJoin in H. destruct (join_matches now inv req a) as [[]|]; [|done]. cbv zeta in H. fold e in H.
  destruct (_ && _) eqn:Hmax; [done|]. destruct (checkAndRecordJoinAttempt _ _ _ _ r) as [ok r1] eqn:Hc.
  apply check_attempt_spec in Hc as (Hi & Hu & Hm & Ha & Ha' & Hok); [|apply normalize_rate_range].
  destruct ok; cbn [negb] in H; [|done]. symmetry in Hok. apply Z.ltb_lt in Hok. fold c k in H, Ha, Ha', Hok. rewrite lookup2_open, Hm in H.
  destruct (match lookup2 (rg_members r) c k with Some m => _ | None => false end) eqn:Hban; [done|]. injection H as <- <-.
  split; [done|]. split; [done|]. split.
  { intros Hpos. apply andb_false_iff in Hmax as [Hx|Hx]; [apply Z.ltb_ge in Hx; lia|by apply Z.leb_gt in Hx]. }
  split; [done|]. split. { intros m' Hm'. rewrite Hm' in Hban. by apply bool_decide_eq_false in Hban. }
  cbn [rg_invites rg_inviteUses rg_members rg_joinAttempts]. split; [done|]. split; [by unfold uses; rewrite Hu|]. split.
  - intros c' k'. case_bool_decide as E; [injection E as <- <-; by rewrite lookup2_insert2|]. by rewrite lookup2_insert2_ne, lookup2_open.
  - split; [exact Ha|exact Ha'].
Qed.

(** A join that is refused leaves invites, uses and members. *)
Lemma ApplyJoin_err now inv req a rate r e r' : ApplyJoin now inv req a rate r = (Err e, r') ->
  rg_invites r' = rg_invites r /\ rg_inviteUses r' = rg_inviteUses r /\ (forall c k, lookup2 (rg_members r') c k = lookup2 (rg_members r) c k)
  /\ (forall c k, attempts r' c k = attempts r c k \/ exists l, attempts r' c k = recent now (attempts r c k) ++ l).
Proof.
  unfold ApplyJoin. destruct (join_matches _ _ _ _); [|intros [= _ <-]; by auto]. destruct (_ && _); [intros [= _ <-]; by auto|].
  destruct (checkAndRecordJoinAttempt _ _ _ _ r) as [ok r1] eqn:Hc.
  apply check_attempt_spec in Hc as (Hi & Hu & Hm & Ha & Ha' & _); [|apply normalize_rate_range].
  assert (forall c k, attempts r1 c k = attempts r c k \/ exists l, attempts r1 c k = recent now (attempts r c k) ++ l) as Hatt.
  { intros c' k'. destruct (decide ((iv_Community (effective_invite inv r), jr_ApplicantPubB64 req) = (c', k'))) as [E|E]; [|left; by apply Ha'].
    injection E as <- <-. right. by eexists. }
  destruct ok; cbn [negb]; [|intros [= _ <-]; by rewrite Hi, Hu, Hm].
  destruct (match lookup2 _ _ _ with Some m => _ | None => false end); [|done]. intros [= _ <-].
  cbn [rg_invites rg_inviteUses rg_members]. split; [done|]. split; [done|]. split; [intros c k; by rewrite lookup2_open, Hm|exact Hatt].
Qed.
(** ** What any history keeps *)

Record reg_ok (w : reg_world) : Prop := {
  rk_invites : forall id i, rg_invites (rw_registry w) !! id = Some i -> iv_ID i = id /\ exists t, Invite_Validate t i = Ok tt;
  rk_uses : forall id, uses (rw_registry w) id = Z.of_nat (length (filter (fun j => mb_InviteID (jo_member j) = id) (rw_joins w)));
  rk_members : forall c k m, lookup2 (rg_members (rw_registry w)) c k = Some m ->
    mb_Community m = c /\ mb_MemberPubB64 m = k /\ exists j, j ∈ rw_joins w /\ jo_member j = with_status MemberActive m;
  rk_joins : Forall (fun j => join_matches (jo_now j) (jo_invite j) (jo_request j) (jo_approval j) = Ok tt
    /\ exists e, iv_ID e = iv_ID (jo_invite j) /\ (exists t, Invite_Validate t e = Ok tt)
         /\ jo_member j = new_member (jo_now j) e (jo_request j) (jo_approval j)) (rw_joins w);
}.

Lemma with_status_active m : with_status MemberActive (with_status MemberActive m) = with_status MemberActive m.
Proof. done. Qed.

Lemma AddInvite_ok_registry now inv r : exists r', (AddInvite now inv r).2 = r' /\ rg_members r' = rg_members r /\ rg_joinAttempts r' = rg_joinAttempts r
  /\ (forall id, uses r' id = uses r id)
  /\ (rg_invites r' = rg_invites r \/ Invite_Validate now inv = Ok tt /\ rg_invites r' = <[iv_ID inv := inv]> (rg_invites r)).
Proof.
  eexists. split; [reflexivity|]. unfold AddInvite. destruct (Invite_Validate now inv) as [[]|] eqn:E; cbn [snd]; [|by auto].
  split; [done|]. split; [done|]. split; [|by right]. intros id. unfold uses. cbn [rg_inviteUses]. destruct (rg_inviteUses r !! iv_ID inv) eqn:Eu; [done|].
  destruct (decide (iv_ID inv = id)) as [<-|Hne]; [by rewrite lookup_insert_eq, Eu|by rewrite lookup_insert_ne].
Qed.

(** A revocation changes the status of one member at most. *)
Lemma ApplyRevocation_spec now rev r : exists r', (ApplyRevocation now rev r).2 = r' /\ rg_invites r' = rg_invites r /\ rg_inviteUses r' = rg_inviteUses r
  /\ rg_joinAttempts r' = rg_joinAttempts r
  /\ ((forall c k, lookup2 (rg_members r') c k = lookup2 (rg_members r) c k)
      \/ exists m status, Revocation_Validate now rev = Ok tt /\ lookup2 (rg_members r) (re_Community rev) (re_SubjectPubB64 rev) = Some m
        /\ (status = MemberRevoked /\ re_Kind rev = RevokeMember \/ status = MemberBanned /\ re_Kind rev = BanMember)
        /\ forall c k, lookup2 (rg_members r') c k = if bool_decide ((re_Community rev, re_SubjectPubB64 rev) = (c, k)) then Some (with_status status m) else lookup2 (rg_members r) c k).
Proof.
  eexists. split; [reflexivity|]. unfold ApplyRevocation. destruct (Revocation_Validate now rev) as [[]|] eqn:E; cbn [snd]; [|by auto].
  destruct (lookup2 _ _ _) as [m|] eqn:Em; cbn [snd]; [|by auto]. cbv zeta.
  destruct (decide (re_Kind rev = RevokeMember)) as [Ek|Ek]; [rewrite bool_decide_eq_true_2 by done|rewrite bool_decide_eq_false_2 by done].
  2: destruct (decide (re_Kind rev = BanMember)) as [Eb|Eb]; [rewrite bool_decide_eq_true_2 by done|rewrite bool_decide_eq_false_2 by done; cbn [snd]; by auto].
  all: cbn [snd rg_invites rg_inviteUses rg_members rg_joinAttempts]; split; [done|]; split; [done|]; split; [done|]; right; exists m; eexists;
    split; [done|]; split; [done|]; split; [by auto|]; intros c k; case_bool_decide as Ec;
    [injection Ec as <- <-; apply lookup2_insert2|by apply lookup2_insert2_ne].
Qed.

Lemma reg_step_ok w o : reg_ok w -> reg_ok (reg_step w o).
Proof.
  intros [Hi Hu Hm Hj]. destruct o as [now inv|now inv req a rate|now rev]; cbn [reg_step].
  - destruct (AddInvite_ok_registry now inv (rw_registry w)) as (r' & -> & Em & _ & Eu & Ei). split; cbn [rw_registry rw_joins]; [|intros id; rewrite Eu; apply Hu|by rewrite Em|done].
    intros id i. destruct Ei as [->|[Hv ->]]; [apply Hi|]. intros [[<- <-]|[_ Hid]]%lookup_insert_Some; [|by apply Hi]. by eauto.
  - destruct (ApplyJoin now inv req a rate (rw_registry w)) as [[m|e] r'] eqn:E.
    + apply ApplyJoin_ok in E as (Hmatch & -> & _ & _ & _ & Ei & Eu & Em & _). set (e := effective_invite inv (rw_registry w)) in *.
      assert (iv_ID e = iv_ID inv /\ exists t, Invite_Validate t e = Ok tt) as [Eid Hv].
      { unfold e, effective_invite. destruct (rg_invites (rw_registry w) !! iv_ID inv) eqn:El; cbn [default from_option id]; [by apply Hi|].
        split; [done|]. exists now. apply join_matches_ok in Hmatch. apply Hmatch. }
      split; cbn [rw_registry rw_joins].
      * by rewrite Ei.
      * intros id. unfold uses. rewrite Eu, filter_cons. cbn [jo_member new_member mb_InviteID]. destruct (decide (iv_ID e = id)) as [<-|Hne].
        -- rewrite lookup_insert_eq, Hu. cbn [default from_option id length]. lia.
        -- rewrite lookup_insert_ne by done. apply Hu.
      * intros c k m. rewrite Em. case_bool_decide as Ec.
        -- injection Ec as <- <-. intros [= <-]. split; [done|]. split; [done|]. eexists. split; [by left|done].
        -- intros (? & ? & j & Hj' & Ej)%Hm. split; [done|]. split; [done|]. exists j. split; [by right|done].
      * constructor; [|done]. split; [done|]. by exists e.
    + apply ApplyJoin_err in E as (Ei & Eu & Em & _). split; cbn [rw_registry rw_joins]; [by rewrite Ei|by unfold uses; rewrite Eu|intros c k m; rewrite Em; apply Hm|done].
  - destruct (ApplyRevocation_spec now rev (rw_registry w)) as (r' & -> & Ei & Eu & _ & Em). split; cbn [rw_registry rw_joins]; [by rewrite Ei|by unfold uses; rewrite Eu| |done].
    intros c k m. destruct Em as [->|(m0 & status & _ & Hm0 & _ & ->)]; [apply Hm|]. case_bool_decide as Ec; [|apply Hm].
    injection Ec as <- <-. intros [= <-]. apply Hm in Hm0 as (? & ? & j & Hj' & Ej). split; [done|]. split; [done|]. exists j. by rewrite Ej.
Qed.

Lemma reg_run_ok ops w : reg_ok w -> reg_ok (reg_run ops w).
Proof. revert w. induction ops as [|o ops IH]; intros w Hw; [done|]. by apply IH, reg_step_ok. Qed.

Lemma fresh_ok : reg_ok fresh.
Proof. split; cbn; [by intros id i Hi; rewrite lookup_empty in Hi|done|by intros c k m; rewrite lookup2_empty|constructor]. Qed.

(** C26: Whatever is applied, every member is filed under its community and key, and once asked to
    join with a valid request signed by that key, on a valid invite of that identifier, with a
    valid approval signed by the key recorded as its approver and granting its role.  (The
    approver need not be the issuer of the invite, nor a member.) *)
Theorem members_asked_to_join ops c k m : lookup2 (rg_members (rw_registry (reg_run ops fresh))) c k = Some m ->
  mb_Community m = c /\ mb_MemberPubB64 m = k
  /\ exists now inv req a, join_matches now inv req a = Ok tt /\ jr_ApplicantPubB64 req = k /\ iv_ID inv = mb_InviteID m
     /\ ja_IssuerPubB64 a = mb_ApprovedByPubB64 m /\ ja_GrantedRole a = mb_Role m /\ mb_JoinedAt m = Unix now.
Proof.
  intros Hm. destruct (reg_run_ok ops fresh fresh_ok) as [_ _ Hmem Hj]. apply Hmem in Hm as (Hc & Hk & j & Hin & Ej).
  split; [done|]. split; [done|]. rewrite Forall_forall in Hj. destruct (Hj j Hin) as (Hmatch & e & Eid & _ & Em).
  exists (jo_now j), (jo_invite j), (jo_request j), (jo_approval j). rewrite Ej in Em. destruct m. injection Em as -> -> -> -> -> ->. cbn. by subst.
Qed.

(** An invite with a limit is never used more often: when a join is applied, the joins applied
    before under the identifier of its invite are fewer than the limit of the invite stored
    under it, or of the one shown when none is stored. *)
Theorem invites_are_limited ops now inv req a rate m r' : let w := reg_run ops fresh in
  ApplyJoin now inv req a rate (rw_registry w) = (Ok m, r') ->
  let e := effective_invite inv (rw_registry w) in
  0 < iv_MaxUses e -> Z.of_nat (length (filter (fun j => mb_InviteID (jo_member j) = mb_InviteID m) (rw_joins w))) < iv_MaxUses e.
Proof.
  intros w (_ & -> & Hmax & _)%ApplyJoin_ok e Hpos. pose proof (rk_uses _ (reg_run_ok ops fresh fresh_ok) (iv_ID e)) as Hu. fold w in Hu.
  apply Hmax in Hpos. fold e in Hpos. rewrite Hu in Hpos. exact Hpos.
Qed.
(** ** Rates *)

(** The joins of an applicant at a community, since a second. *)
Definition joins_since (w : reg_world) (c k : string) (since : Z) : list joined :=
  filter (fun j => mb_Community (jo_member j) = c /\ mb_MemberPubB64 (jo_member j) = k /\ since <= Unix (jo_now j)) (rw_joins w).

(** From an hour before a time on, every join is among the attempts. *)
Definition rate_ok (t : Time) (w : reg_world) : Prop :=
  forall c k since, Unix t - 3600 <= since ->
    (length (joins_since w c k since) <= length (filter (fun x => (since <= x)%Z) (attempts (rw_registry w) c k)))%nat.

Lemma recent_filter now since l : Unix now - 3600 <= since -> filter (fun x => since <= x) (recent now l) = filter (fun x => since <= x) l.
Proof. intros Hs. unfold recent. rewrite list_filter_filter. apply list_filter_iff. intros x. lia. Qed.

Lemma joins_since_cons w r j c k since :
  joins_since (mkRegWorld r (j :: rw_joins w)) c k since
  = (if bool_decide (mb_Community (jo_member j) = c /\ mb_MemberPubB64 (jo_member j) = k /\ since <= Unix (jo_now j)) then [j] else []) ++ joins_since w c k since.
Proof. unfold joins_since. cbn [rw_joins]. rewrite filter_cons. case_decide as E; [by rewrite bool_decide_eq_true_2|by rewrite bool_decide_eq_false_2]. Qed.

Lemma rate_step t w o : rate_ok t w -> t <= op_time o -> rate_ok (op_time o) (reg_step w o).
Proof.
  intros Hr Ht. assert (rate_ok (op_time o) w) as Hr' by (intros c k since Hs; apply Hr; pose proof (Unix_mono t (op_time o) Ht); lia). clear Hr Ht.
  destruct o as [now inv|now inv req a rate|now rev]; cbn [reg_step op_time] in *.
  - destruct (AddInvite_ok_registry now inv (rw_registry w)) as (r' & -> & _ & Ea & _). intros c k since Hs. unfold attempts. cbn [rw_registry]. rewrite Ea. by apply Hr'.
  - destruct (ApplyJoin now inv req a rate (rw_registry w)) as [[m|e] r'] eqn:E; intros c k since Hs.
    + apply ApplyJoin_ok in E as (_ & Em & _ & _ & _ & _ & _ & _ & Ea & Ea'). rewrite joins_since_cons, length_app. cbn [rw_registry jo_member jo_now].
      set (c0 := iv_Community _) in *. destruct (decide ((c0, jr_ApplicantPubB64 req) = (c, k))) as [Eck|Hne].
      * injection Eck as <- <-. rewrite Ea, filter_app, recent_filter, length_app by done. specialize (Hr' c0 (jr_ApplicantPubB64 req) since Hs).
        rewrite filter_cons. case_decide as Hsn; [cbn [length]; case_bool_decide; cbn [length]; lia|].
        rewrite bool_decide_eq_false_2 by tauto. cbn [length]. lia.
      * rewrite bool_decide_eq_false_2; [rewrite Ea' by done; by apply Hr'|]. subst m. cbn [mb_Community mb_MemberPubB64 new_member]. intros (E1 & E2 & _). apply Hne. unfold c0. congruence.
    + apply ApplyJoin_err in E as (_ & _ & _ & Ha). change (joins_since _ c k since) with (joins_since w c k since). cbn [rw_registry]. specialize (Hr' c k since Hs).
      destruct (Ha c k) as [->|(l & ->)]; [done|]. rewrite filter_app, recent_filter, length_app by done. lia.
  - destruct (ApplyRevocation_spec now rev (rw_registry w)) as (r' & -> & _ & _ & Ea & _). intros c k since Hs. unfold attempts. cbn [rw_registry]. rewrite Ea. by apply Hr'.
Qed.

Lemma times_sorted o ops : StronglySorted Z.le (op_time <$> o :: ops) ->
  StronglySorted Z.le (op_time <$> ops) /\ Forall (fun o' => op_time o <= op_time o') ops.
Proof.
  intros [Hs Hle]%StronglySorted_inv. change (Forall (Z.le (op_time o)) (op_time <$> ops)) in Hle. split; [exact Hs|]. by rewrite Forall_fmap in Hle.
Qed.

Lemma rate_run ops t w now : rate_ok t w -> t <= now -> StronglySorted Z.le (op_time <$> ops) -> Forall (fun o => t <= op_time o <= now) ops ->
  rate_ok now (reg_run ops w).
Proof.
  revert t w. induction ops as [|o ops IH]; intros t w Hr Ht Hs Hall; [intros c k since Hsn; apply Hr; pose proof (Unix_mono t now Ht); lia|].
  apply Forall_cons in Hall as [Ho Hall]. apply times_sorted in Hs as [Hs Hle]. apply (IH (op_time o)); [apply (rate_step t); [done|lia]|lia|done|].
  rewrite Forall_forall in *. intros o' Ho'. split; [by apply Hle|by apply Hall].
Qed.

(** Joins are rate-limited: while the clock does not run backwards, an applicant who joins a
    community has joined it fewer times in the hour before than the limit asked for, which is
    5 when it is not positive and never counts for more than 50. *)
Theorem joins_are_rate_limited ops now inv req a rate m r' : let w := reg_run ops fresh in
  StronglySorted Z.le (op_time <$> ops) -> Forall (fun o => op_time o <= now) ops ->
  ApplyJoin now inv req a rate (rw_registry w) = (Ok m, r') ->
  Z.of_nat (length (joins_since w (mb_Community m) (mb_MemberPubB64 m) (Unix now - 3600))) < normalize_rate rate <= 50.
Proof.
  intros w Hs Hall (_ & -> & _ & Hrate & _)%ApplyJoin_ok. split; [|apply normalize_rate_range]. eapply Z.le_lt_trans; [|exact Hrate].
  unfold blen, recent. apply Nat2Z.inj_le. cbn [new_member mb_Community mb_MemberPubB64].
  assert (exists t, t <= now /\ Forall (fun o => t <= op_time o) ops) as (t & Ht & Hlo).
  { destruct ops as [|o ops]; [by exists now|]. exists (op_time o). apply Forall_cons in Hall as [Ho _]. split; [done|]. constructor; [lia|].
    by apply times_sorted in Hs as [_ Hle]. }
  apply (rate_run ops t fresh now); [intros c k since _; cbn; lia|done|done| |lia].
  rewrite Forall_forall in *. intros o Ho. split; [by apply Hlo|by apply Hall].
Qed.

(** ** Bans *)

Definition status_of (r : Registry) (c k : string) : option string := mb_Status <$> lookup2 (rg_members r) c k.

(** A revocation, not a ban, that names a member. *)
Definition lifts (c k : string) (o : reg_op) : Prop :=
  match o with OpApplyRevocation now rev => Revocation_Validate now rev = Ok tt /\ re_Kind rev = RevokeMember /\ re_Community rev = c /\ re_SubjectPubB64 rev = k | _ => False end.

Lemma ban_step c k w o : status_of (rw_registry w) c k = Some MemberBanned -> ~ lifts c k o ->
  status_of (rw_registry (reg_step w o)) c k = Some MemberBanned
  /\ forall j, j ∈ rw_joins (reg_step w o) -> j ∈ rw_joins w \/ ~ (mb_Community (jo_member j) = c /\ mb_MemberPubB64 (jo_member j) = k).
Proof.
  intros Hb Hn. unfold status_of in *. destruct o as [now inv|now inv req a rate|now rev]; cbn [reg_step lifts] in *.
  - destruct (AddInvite_ok_registry now inv (rw_registry w)) as (r' & -> & Em & _). cbn [rw_registry rw_joins]. rewrite Em. by auto.
  - destruct (ApplyJoin now inv req a rate (rw_registry w)) as [[m|e] r'] eqn:E; cbn [rw_registry rw_joins].
    + apply ApplyJoin_ok in E as (_ & -> & _ & _ & Hnb & _ & _ & Em & _). rewrite Em. set (c0 := iv_Community _) in *.
      destruct (decide ((c0, jr_ApplicantPubB64 req) = (c, k))) as [Eck|Hne].
      * exfalso. injection Eck as E1 E2. apply fmap_Some in Hb as (m & Hm & Es). apply (Hnb m); [by rewrite E1, E2|done].
      * rewrite bool_decide_eq_false_2 by exact Hne. split; [done|]. intros j [->|Hj]%elem_of_cons; [|by left]. right. cbn. intros [E1 E2]. apply Hne. unfold c0. congruence.
    + apply ApplyJoin_err in E as (_ & _ & Em & _). rewrite Em. by auto.
  - destruct (ApplyRevocation_spec now rev (rw_registry w)) as (r' & -> & _ & _ & _ & Em). cbn [rw_registry rw_joins]. split; [|by auto].
    destruct Em as [->|(m0 & status & Hv & Hm0 & Hk & ->)]; [done|]. case_bool_decide as Ec; [|done]. injection Ec as <- <-. cbn.
    destruct Hk as [[-> Hk]|[-> Hk]]; [|done]. by destruct Hn.
Qed.

(** A ban holds: as long as no valid revocation of the milder kind names the member, a banned
    member stays banned and joins no more, whatever else is applied. *)
Theorem bans_hold c k ops w : status_of (rw_registry w) c k = Some MemberBanned -> Forall (fun o => ~ lifts c k o) ops ->
  status_of (rw_registry (reg_run ops w)) c k = Some MemberBanned
  /\ forall j, j ∈ rw_joins (reg_run ops w) -> j ∈ rw_joins w \/ ~ (mb_Community (jo_member j) = c /\ mb_MemberPubB64 (jo_member j) = k).
Proof.
  revert w. induction ops as [|o ops IH]; intros w Hb Hall; [by auto|]. apply Forall_cons in Hall as [Ho Hall]. destruct (ban_step c k w o Hb Ho) as [Hb' Hj].
  destruct (IH _ Hb' Hall) as [H1 H2]. split; [done|]. intros j [Hj'|Hj']%H2; [by apply Hj|by right].
Qed.
(** ** Joining, and coming back *)

(** A statement made at [t] that is not yet [d] seconds old, by a clock within 64 bits. *)
Definition made_within (now t : Time) (d : Z) : Prop := 0 < Unix t /\ t <= now /\ Unix now <= Unix t + d /\ is_i64 (Unix now + d).

Lemma made_within_i64 now t d : made_within now t d -> 0 <= d -> is_i64 (Unix t + d).
Proof. intros (H0 & Ht & _ & Hi) Hd. pose proof (Unix_mono t now Ht). unfold_ints. lia. Qed.

Lemma join_applied now inv req a rate r : join_matches now inv req a = Ok tt -> effective_invite inv r = inv ->
  (0 < iv_MaxUses inv -> uses r (iv_ID inv) < iv_MaxUses inv) ->
  blen (recent now (attempts r (iv_Community inv) (jr_ApplicantPubB64 req))) < normalize_rate rate ->
  status_of r (iv_Community inv) (jr_ApplicantPubB64 req) <> Some MemberBanned ->
  exists r', ApplyJoin now inv req a rate r = (Ok (new_member now inv req a), r').
Proof.
  intros Hm He Hu Ha Hb. unfold ApplyJoin. rewrite Hm. cbv zeta. rewrite He.
  destruct (_ && _) eqn:Hmax; [apply andb_true_iff in Hmax as [H1%Z.ltb_lt H2%Z.leb_le]; specialize (Hu H1); lia|].
  destruct (checkAndRecordJoinAttempt _ _ _ _ r) as [ok r1] eqn:Hc.
  apply check_attempt_spec in Hc as (_ & _ & Em & _ & _ & ->); [|apply normalize_rate_range]. rewrite (proj2 (Z.ltb_lt _ _) Ha). cbn [negb].
  rewrite lookup2_open, Em. unfold status_of in Hb. destruct (lookup2 (rg_members r) _ _) as [m|]; [|by eexists].
  rewrite bool_decide_eq_false_2; [by eexists|]. intros E. apply Hb. cbn. by rewrite E.
Qed.

(** A join that is asked for and approved is applied while the invite is valid and not used
    up, the applicant neither over the rate nor banned: the applicant becomes an active
    member with the role granted.  The approver may be anyone who has a key pair, the
    applicant too, and the role any, owner included: the registry compares the approver with
    nothing. *)
Theorem approved_joins_are_applied e1 e2 t1 t2 t3 t4 t5 now inv apub apubB64 apriv ipub ipubB64 ipriv role rate r req a :
  env_ok e1 -> env_ok e2 -> decode_pub apubB64 "applicant" = Ok apub -> signs apub apriv -> decode_pub ipubB64 "issuer" = Ok ipub -> signs ipub ipriv ->
  NewJoinRequest e1 t1 t2 inv apubB64 apriv = Ok req -> ApproveJoin e2 t3 t4 t5 inv req ipubB64 ipriv role = Ok a ->
  Invite_Validate now inv = Ok tt -> made_within now t2 (7 * 24 * 3600) -> made_within now t5 (30 * 24 * 3600) -> effective_invite inv r = inv ->
  (0 < iv_MaxUses inv -> uses r (iv_ID inv) < iv_MaxUses inv) -> blen (recent now (attempts r (iv_Community inv) apubB64)) < normalize_rate rate ->
  status_of r (iv_Community inv) apubB64 <> Some MemberBanned ->
  exists m r', ApplyJoin now inv req a rate r = (Ok m, r') /\ lookup2 (rg_members r') (iv_Community inv) apubB64 = Some m
    /\ mb_Status m = MemberActive /\ mb_Role m = role /\ mb_ApprovedByPubB64 m = ipubB64.
Proof.
  intros He1 He2 Hda Hsa Hdi Hsi Hreq Happ Hinv Hw2 Hw5 Heff Hu Hrate Hban.
  pose proof (made_within_i64 _ _ _ Hw2 ltac:(lia)) as Hi2. pose proof (made_within_i64 _ _ _ Hw5 ltac:(lia)) as Hi5. destruct Hw2 as (? & ? & ? & _), Hw5 as (? & ? & ? & _).
  destruct (NewJoinRequest_valid e1 t1 t2 now inv apubB64 apub apriv req) as (Hrv & Er1 & Er2 & Er3); [done..|].
  destruct (ApproveJoin_valid e2 t3 t4 t5 now inv req ipubB64 ipub ipriv role a) as (Hav & E1 & E2 & E3 & E4 & E5 & E6 & E7 & E8); [done..|].
  rewrite <- Er3 in *. assert (join_matches now inv req a = Ok tt) as Hm.
  { unfold join_matches. rewrite Hinv, Hrv, Hav. cbn [rbind]. rewrite !bool_decide_eq_true_2 by congruence. cbn [andb]. by rewrite E6, E8. }
  destruct (join_applied now inv req a rate r) as [r' Hr']; [done..|]. exists (new_member now inv req a), r'. split; [done|].
  apply ApplyJoin_ok in Hr' as (_ & _ & _ & _ & _ & _ & _ & Hl & _). rewrite Heff in Hl. split; [by rewrite Hl, bool_decide_eq_true_2|done].
Qed.

(** A banned member undoes the ban: with a revocation of the milder kind of itself, which it
    signs itself, it is no longer banned, and [ApplyJoin] takes it back.  The registry
    compares the issuer of a revocation with nothing. *)
Theorem banned_member_lifts_ban e t now c k pub priv r rev : env_ok e -> signs pub priv -> decode_pub k "issuer" = Ok pub ->
  NewRevocation e t c RevokeMember k k priv = Ok rev -> made_within now t (30 * 24 * 3600) -> status_of r c k = Some MemberBanned ->
  status_of (ApplyRevocation now rev r).2 c k = Some MemberRevoked.
Proof.
  intros He Hs Hd Hrev Hw Hb. pose proof (made_within_i64 _ _ _ Hw ltac:(lia)) as Hi. destruct Hw as (? & ? & ? & _).
  destruct (NewRevocation_valid e t now c RevokeMember k k pub priv rev) as (Hv & Ec & Ek & Es); [done..|].
  unfold ApplyRevocation. rewrite Hv, Ec, Ek, Es. unfold status_of in *. apply fmap_Some in Hb as (m & -> & _). cbn [snd rg_members].
  rewrite bool_decide_eq_true_2 by done. cbn [snd rg_members]. by rewrite lookup2_insert2.
Qed.
End registry.
