(* ===== verification/Persona.v ===== *)
(** * Personas, devices, prekeys and mailboxes ([pkg/identity]: types.go, prekey.go, device.go)

    The state of a user's identities: its validation, what is pruned from it, and the
    mailboxes a binding derives from its seed.  Key generation and X25519 are arguments and
    parameters; nil receivers, which every function refuses, are left out. *)

From S2P Require Import Prelude Sha256 GoStr.

#[local] Open Scope string_scope.
#[local] Open Scope list_scope.
#[local] Open Scope Z_scope.

Definition SchemaV1 : Z := 1.
Definition MaxPreKeys : Z := 64.
Definition MaxDevices : Z := 16.
Definition MaxMailboxes : Z := 64.

Definition DeviceUnverified : string := "unverified".
Definition DeviceTrusted : string := "trusted".
Definition DeviceRevoked : string := "revoked".

Record Persona := mkPersona {
  pe_ID : string;
  pe_CreatedAt : Z;
  pe_RotatedAt : Z;
  pe_SignPubB64 : string;
  pe_SignPrivB64 : string;
}.

Record PreKey := mkPreKey {
  pk_ID : string;
  pk_CreatedAt : Z;
  pk_ExpiresAt : Z;
  pk_PubB64 : string;
  pk_PrivB64 : string;
}.

Record Device := mkDevice {
  de_PersonaID : string;
  de_DeviceID : string;
  de_CreatedAt : Z;
  de_RevokedAt : Z;
  de_Trust : string;
  de_Label : string;
  de_SignPubB64 : string;
  de_SignPrivB64 : string;
}.

Record MailboxBinding := mkMailbox {
  mx_PersonaID : string;
  mx_CreatedAt : Z;
  mx_RotatedAt : Z;
  mx_SeedB64 : string;
  mx_PhaseSec : Z;
}.

Record State := mkState {
  st_SchemaVersion : Z;
  st_UpdatedAt : Z;
  st_Personas : list Persona;
  st_PreKeys : list PreKey;
  st_Devices : list Device;
  st_Mailboxes : list MailboxBinding;
}.

(** [curve25519.X25519] with the base point. *)
Class X25519 := x25519_base : list Z -> option (list Z).

Local Open Scope res_scope.

(** A key, a seed or the like in base64, of a size. *)
Definition decode_sized (s : string) (size : Z) (what : string) : res string (list Z) :=
  match DecodeString s with
  | None => Err ("identity: decode " ++ what)%string
  | Some b => if blen b =? size then Ok b else Err ("identity: invalid size of " ++ what)%string
  end.

(** ** Personas *)

(** Both strings are decoded before the sizes are looked at. *)
Definition sign_keypair (pubB64 privB64 : string) : res string (list Z * list Z) :=
  match DecodeString pubB64 with
  | None => Err "identity: decode sign_pub_b64url"
  | Some pub =>
      match DecodeString privB64 with
      | None => Err "identity: decode sign_priv_b64url"
      | Some priv =>
          require! blen pub =? PublicKeySize else "identity: invalid public key size";
          require! blen priv =? PrivateKeySize else "identity: invalid private key size";
          Ok (pub, priv)
      end
  end.

Definition SignKeypair (p : Persona) : res string (list Z * list Z) := sign_keypair (pe_SignPubB64 p) (pe_SignPrivB64 p).

(** What [ed25519.GenerateKey] gives, and random bytes for an identifier. *)
Record key_env := mkKeyEnv {
  ke_pair : option (list Z * list Z);
  ke_id : option (list Z);
}.

Definition NewPersona (e : key_env) (now : Time) : res string Persona :=
  match ke_pair e with
  | None => Err "random source"
  | Some (pub, priv) =>
      match ke_id e with
      | None => Err "random source"
      | Some id => Ok (mkPersona (EncodeToString id) (Unix now) 0 (EncodeToString pub) (EncodeToString priv))
      end
  end.

Definition RotateSigningKey (pair : option (list Z * list Z)) (now : Time) (p : Persona) : res string unit * Persona :=
  match pair with
  | None => (Err "random source", p)
  | Some (pub, priv) => (Ok tt, mkPersona (pe_ID p) (pe_CreatedAt p) (Unix now) (EncodeToString pub) (EncodeToString priv))
  end.

Definition Persona_Validate (p : Persona) : res string unit :=
  require! negb (is_empty (pe_ID p)) else "identity: persona id required";
  require! negb (pe_CreatedAt p <=? 0) else "identity: created_at required";
  _ <-! SignKeypair p;
  Ok tt.

(** ** Prekeys *)

Record prekey_env := mkPreKeyEnv {
  pv_priv : option (list Z);
  pv_id : option (list Z);
  pv_now : Time;
}.

Section prekeys.
Context `{XB : X25519}.

Definition NewPreKey (e : prekey_env) (ttl : Duration) : res string PreKey :=
  let ttl := if ttl <=? 0 then 24 * Hour else ttl in
  match pv_priv e with
  | None => Err "random source"
  | Some priv =>
      match x25519_base priv with
      | None => Err "x25519"
      | Some pub =>
          match pv_id e with
          | None => Err "random source"
          | Some id => Ok (mkPreKey (EncodeToString id) (Unix (pv_now e)) (Unix (TimeAdd (pv_now e) ttl)) (EncodeToString pub) (EncodeToString priv))
          end
      end
  end.

Definition DecodePublic (k : PreKey) : res string (list Z) := decode_sized (pk_PubB64 k) 32 "prekey pub".
Definition DecodePrivate (k : PreKey) : res string (list Z) := decode_sized (pk_PrivB64 k) 32 "prekey priv".

Definition PreKey_Validate (now : Time) (k : PreKey) : res string unit :=
  require! negb (is_empty (pk_ID k)) else "identity: prekey id required";
  require! negb ((pk_CreatedAt k <=? 0) || (pk_ExpiresAt k <=? 0)) else "identity: prekey created_at/expires_at required";
  require! negb (pk_ExpiresAt k <? Unix now) else "identity: prekey expired";
  _ <-! DecodePublic k;
  _ <-! DecodePrivate k;
  Ok tt.

(** ** Devices *)

Definition NewDevice (e : key_env) (now : Time) (personaID label : string) : res string Device :=
  require! negb (is_empty personaID) else "identity: persona_id required";
  match ke_pair e with
  | None => Err "random source"
  | Some (pub, priv) =>
      match ke_id e with
      | None => Err "random source"
      | Some id => Ok (mkDevice personaID (EncodeToString id) (Unix now) 0 DeviceUnverified label (EncodeToString pub) (EncodeToString priv))
      end
  end.

Definition Device_Validate (d : Device) : res string unit :=
  require! negb (is_empty (de_PersonaID d)) else "identity: device persona_id required";
  require! negb (is_empty (de_DeviceID d)) else "identity: device_id required";
  require! negb (de_CreatedAt d <=? 0) else "identity: device created_at required";
  require! bool_decide (de_Trust d ∈ [DeviceUnverified; DeviceTrusted; DeviceRevoked]) else "identity: invalid device trust";
  _ <-! sign_keypair (de_SignPubB64 d) (de_SignPrivB64 d);
  Ok tt.

(** ** Mailboxes *)

(** HMAC with SHA-256 for a key of at most 64 bytes (RFC 2104). *)
Definition xor_pad (key : list Z) (p : Z) : list Z := (fun x => Z.lxor x p) <$> (key ++ replicate (64 - length key) 0).
Definition HMAC256 (key msg : list Z) : list Z := Sum256 (xor_pad key 92 ++ Sum256 (xor_pad key 54 ++ msg)).

Definition Seed (b : MailboxBinding) : res string (list Z) := decode_sized (mx_SeedB64 b) 32 "mailbox seed".

Definition Mailbox_Validate (b : MailboxBinding) : res string unit :=
  require! negb (is_empty (mx_PersonaID b)) else "identity: mailbox persona_id required";
  require! negb (mx_CreatedAt b <=? 0) else "identity: mailbox created_at required";
  require! negb (is_empty (mx_SeedB64 b)) else "identity: mailbox seed_b64url required";
  _ <-! Seed b;
  require! negb (mx_PhaseSec b <? 0) else "identity: mailbox phase_sec must be >= 0";
  Ok tt.

(** The bounds are taken in any order; a span of all 64-bit numbers would divide by zero. *)
Definition DeriveInt (label : string) (min max : Z) (b : MailboxBinding) : res string Z :=
  let '(min, max) := if max <? min then (max, min) else (min, max) in
  if min =? max then Ok min
  else
    seed <-! Seed b;
    let v := be_get (take 8 (HMAC256 seed (bytes_of "sn-derive-v1:" ++ bytes_of label))) in
    let span := u64 (max - min + 1) in
    Ok (i64 (min + i64 (v mod span))).

(** The period is brought between a minute and a week. *)
Definition clamp_period (rotationPeriodSec : Z) : Z :=
  let period := if rotationPeriodSec <=? 0 then 3600 else rotationPeriodSec in
  let period := if period <? 60 then 60 else period in
  if 7 * 24 * 3600 <? period then 7 * 24 * 3600 else period.

(** The epoch, the shift and the period; Go's division rounds towards zero. *)
Definition mailboxEpoch (now : Time) (rotationPeriodSec : Z) (b : MailboxBinding) : Z * Z * Z :=
  let period := clamp_period rotationPeriodSec in
  let shift := if 0 <? mx_PhaseSec b then Z.rem (mx_PhaseSec b) period else 0 in
  (Z.quot (Unix now + shift) period, shift, period).

Definition mailboxForEpoch (epoch : Z) (b : MailboxBinding) : res string string :=
  seed <-! Seed b;
  Ok (EncodeToString (take 16 (HMAC256 seed (bytes_of "sn-mailbox-v1:primary:" ++ be_put 8 (u64 epoch))))).

Definition decoyForEpoch (epoch i : Z) (b : MailboxBinding) : res string string :=
  seed <-! Seed b;
  Ok (EncodeToString (take 16 (HMAC256 seed (bytes_of "sn-mailbox-v1:decoy:" ++ be_put 8 (u64 epoch) ++ be_put 8 (u64 i))))).

(** The mailbox and the time of the next. *)
Definition MailboxAt (now : Time) (rotationPeriodSec : Z) (b : MailboxBinding) : res string (string * Time) :=
  let '(epoch, shift, period) := mailboxEpoch now rotationPeriodSec b in
  id <-! mailboxForEpoch epoch b;
  Ok (id, UnixTime ((epoch + 1) * period - shift)).

Definition MailboxPrevAt (now : Time) (rotationPeriodSec : Z) (b : MailboxBinding) : res string string :=
  let '(epoch, _, _) := mailboxEpoch now rotationPeriodSec b in
  mailboxForEpoch (epoch - 1) b.

(** The loop from [i], with the turns that are left. *)
Fixpoint decoys (turns : nat) (epoch i count : Z) (primary : string) (b : MailboxBinding) (out : list string) : list string :=
  match turns with
  | O => out
  | S turns' =>
      if Z.of_nat (length out) <? count then
        match decoyForEpoch epoch i b with
        | Err _ => decoys turns' epoch (i + 1) count primary b out
        | Ok id => decoys turns' epoch (i + 1) count primary b (if bool_decide (id = primary) then out else out ++ [id])
        end
      else out
  end.

Definition DecoyMailboxesAt (now : Time) (rotationPeriodSec count : Z) (b : MailboxBinding) : res string (list string) :=
  if count <=? 0 then Ok []
  else
    let '(epoch, _, _) := mailboxEpoch now rotationPeriodSec b in
    primary <-! mailboxForEpoch epoch b;
    Ok (decoys (Z.to_nat (count * 5)) epoch 0 count primary b []).

(** ** The state *)

Definition NewState (now : Time) : State := mkState SchemaV1 (Unix now) [] [] [] [].

(** The four loops of [State.Validate]; [seen] are the keys seen so far. *)
Fixpoint validate_personas (l : list Persona) (seen : gset string) : res string (gset string) :=
  match l with
  | [] => Ok seen
  | p :: l' =>
      _ <-! Persona_Validate p;
      require! negb (bool_decide (pe_ID p ∈ seen)) else "identity: duplicate persona id";
      validate_personas l' ({[pe_ID p]} ∪ seen)
  end.

Fixpoint validate_mailboxes (personas : gset string) (l : list MailboxBinding) (seen : gset string) : res string unit :=
  match l with
  | [] => Ok tt
  | mb :: l' =>
      _ <-! Mailbox_Validate mb;
      require! bool_decide (mx_PersonaID mb ∈ personas) else "identity: mailbox binding references unknown persona";
      require! negb (bool_decide (mx_PersonaID mb ∈ seen)) else "identity: duplicate mailbox binding";
      validate_mailboxes personas l' ({[mx_PersonaID mb]} ∪ seen)
  end.

Fixpoint validate_prekeys (now : Time) (l : list PreKey) (seen : gset string) : res string unit :=
  match l with
  | [] => Ok tt
  | k :: l' =>
      _ <-! PreKey_Validate now k;
      require! negb (bool_decide (pk_ID k ∈ seen)) else "identity: duplicate prekey id";
      validate_prekeys now l' ({[pk_ID k]} ∪ seen)
  end.

Definition device_key (d : Device) : string := (de_PersonaID d ++ ":" ++ de_DeviceID d)%string.

Fixpoint validate_devices (l : list Device) (seen : gset string) : res string unit :=
  match l with
  | [] => Ok tt
  | d :: l' =>
      _ <-! Device_Validate d;
      require! negb (bool_decide (device_key d ∈ seen)) else "identity: duplicate device";
      validate_devices l' ({[device_key d]} ∪ seen)
  end.

Definition State_Validate (now : Time) (s : State) : res string unit :=
  require! st_SchemaVersion s =? SchemaV1 else "identity: unsupported schema_version";
  personas <-! validate_personas (st_Personas s) ∅;
  require! negb (MaxMailboxes * 2 <? Z.of_nat (length (st_Mailboxes s))) else "identity: too many mailboxes";
  _ <-! validate_mailboxes personas (st_Mailboxes s) ∅;
  require! negb (MaxPreKeys * 2 <? Z.of_nat (length (st_PreKeys s))) else "identity: too many prekeys";
  _ <-! validate_prekeys now (st_PreKeys s) ∅;
  require! negb (MaxDevices * 2 <? Z.of_nat (length (st_Devices s))) else "identity: too many devices";
  validate_devices (st_Devices s) ∅.

(** The last [n] of a list that is longer. *)
Definition keep_last {A} (n : Z) (l : list A) : list A :=
  if n <? Z.of_nat (length l) then drop (Z.to_nat (Z.of_nat (length l) - n)) l else l.

Definition Prune (now : Time) (s : State) : State :=
  let personas := list_to_set (pe_ID <$> st_Personas s) : gset string in
  mkState (st_SchemaVersion s) (Unix now) (st_Personas s)
    (keep_last MaxPreKeys (filter (fun k => Unix now <= pk_ExpiresAt k) (st_PreKeys s)))
    (st_Devices s)
    (keep_last MaxMailboxes (filter (fun mb => mx_PersonaID mb ∈ personas) (st_Mailboxes s))).

Definition set_prekeys (ks : list PreKey) (s : State) : State :=
  mkState (st_SchemaVersion s) (st_UpdatedAt s) (st_Personas s) ks (st_Devices s) (st_Mailboxes s).

(** The loop of [EnsurePreKeys]: [need] turns at most, with the random draws from [i] on; the
    keys made, whether one failed, and the state. *)
Fixpoint make_prekeys (need : nat) (i : nat) (draws : nat -> prekey_env) (ttl : Duration) (s : State) (created : Z) : Z * option string * State :=
  match need with
  | O => (created, None, s)
  | S need' =>
      if Z.of_nat (length (st_PreKeys s)) <? MaxPreKeys then
        match NewPreKey (draws i) ttl with
        | Err e => (created, Some e, s)
        | Ok k => make_prekeys need' (S i) draws ttl (set_prekeys (st_PreKeys s ++ [k]) s) (created + 1)
        end
      else (created, None, s)
  end.

(** The number made with an error, if any, and the state. *)
Definition EnsurePreKeys (min : Z) (ttl : Duration) (now : Time) (draws : nat -> prekey_env) (s : State) : Z * option string * State :=
  if min <? 0 then (0, Some "identity: min must be >= 0", s)
  else
    let min := if MaxPreKeys <? min then MaxPreKeys else min in
    if ttl <=? 0 then (0, Some "identity: ttl must be > 0", s)
    else
      let s := Prune now s in
      let have := Z.of_nat (length (st_PreKeys s)) in
      if min <=? have then (0, None, s)
      else
        match make_prekeys (Z.to_nat (min - have)) 0 draws ttl s 0 with
        | (created, Some e, s) => (created, Some e, s)
        | (created, None, s) => (created, None, Prune now s)
        end.

(** The random seed, and the phase drawn from a day. *)
Record mailbox_env := mkMailboxEnv {
  me_seed : option (list Z);
  me_phase : option Z;
}.

Definition find_mailbox (personaID : string) (l : list MailboxBinding) : option MailboxBinding :=
  snd <$> list_find (fun mb => mx_PersonaID mb = personaID) l.

Definition EnsureMailboxBinding (e : mailbox_env) (now : Time) (personaID : string) (s : State) : res string (MailboxBinding * bool) * State :=
  if is_empty personaID then (Err "identity: personaID is empty", s)
  else
    match find_mailbox personaID (st_Mailboxes s) with
    | Some mb => (Ok (mb, false), s)
    | None =>
        match me_seed e, me_phase e with
        | Some seed, Some phase =>
            let mb := mkMailbox personaID (Unix now) 0 (EncodeToString seed) phase in
            (Ok (mb, true), mkState (st_SchemaVersion s) (st_UpdatedAt s) (st_Personas s) (st_PreKeys s) (st_Devices s) (st_Mailboxes s ++ [mb]))
        | _, _ => (Err "random source", s)
        end
    end.
End prekeys.
