(* ===== verification/PersonaSpec.v ===== *)
(** * What holds of identities

    Validity of the state and what keeps it, the supply of prekeys, and the rotation of
    mailboxes. *)

From S2P Require Import Prelude Sha256 GoStr Persona.

#[local] Set Warnings "-clear-no-such-hyp".

#[local] Open Scope string_scope.
#[local] Open Scope list_scope.
#[local] Open Scope Z_scope.

(** ** Valid states *)

Definition mailbox_ok (personas : gset string) (mb : MailboxBinding) : Prop := Mailbox_Validate mb = Ok tt /\ mx_PersonaID mb ∈ personas.

Record state_ok (now : Time) (s : State) : Prop := {
  so_schema : st_SchemaVersion s = SchemaV1;
  so_personas : Forall (fun p => Persona_Validate p = Ok tt) (st_Personas s) /\ NoDup (pe_ID <$> st_Personas s);
  so_mailboxes : Forall (mailbox_ok (list_to_set (pe_ID <$> st_Personas s))) (st_Mailboxes s) /\ NoDup (mx_PersonaID <$> st_Mailboxes s);
  so_prekeys : Forall (fun k => PreKey_Validate now k = Ok tt) (st_PreKeys s) /\ NoDup (pk_ID <$> st_PreKeys s);
  so_devices : Forall (fun d => Device_Validate d = Ok tt) (st_Devices s) /\ NoDup (device_key <$> st_Devices s);
  so_bounds : Z.of_nat (length (st_Mailboxes s)) <= MaxMailboxes * 2 /\ Z.of_nat (length (st_PreKeys s)) <= MaxPreKeys * 2
    /\ Z.of_nat (length (st_Devices s)) <= MaxDevices * 2;
}.

Lemma unit_ok {E} (r : res E unit) : (exists u, r = Ok u) <-> r = Ok tt.
Proof. split; [by intros [[] ?]|by eexists]. Qed.

(** A turn of one of the loops: a check, then a key that must be new. *)
Lemma loop_turn {E A} (check : res E unit) (key : string) (seen : gset string) (e : E) (next : res E A) (P : A -> Prop) :
  (exists a, rbind check (fun _ => if negb (bool_decide (key ∈ seen)) then next else Err e) = Ok a /\ P a)
  <-> check = Ok tt /\ (key ∉ seen) /\ exists a, next = Ok a /\ P a.
Proof.
  destruct check as [[]|]; cbn [rbind].
  - case_bool_decide as Hk; cbn [negb]; [split; [by intros (? & ? & _)|by intros (_ & ? & _)]|]. split; [by intros|by intros (_ & _ & ?)].
  - split; [by intros (? & ? & _)|by intros [? _]].
Qed.

Lemma validate_personas_spec l seen : (exists ids, validate_personas l seen = Ok ids /\ ids = list_to_set (pe_ID <$> l) ∪ seen)
  <-> Forall (fun p => Persona_Validate p = Ok tt) l /\ NoDup (pe_ID <$> l) /\ Forall (fun p => pe_ID p ∉ seen) l.
Proof.
  apply (seen_loop (fun p => Persona_Validate p = Ok tt) pe_ID (fun l seen => exists ids, validate_personas l seen = Ok ids /\ ids = list_to_set (pe_ID <$> l) ∪ seen)).
  { intros s. exists s. split; [done|]. cbn. set_solver. }
  intros p l0 s. cbn [validate_personas]. rewrite loop_turn. f_equiv. f_equiv.
  split; intros (ids & H & E); exists ids; (split; [done|]); rewrite E, fmap_cons; cbn [list_to_set]; set_solver.
Qed.

(** What is read from the loop is what it collects. *)
Lemma validate_personas_ids l seen ids : validate_personas l seen = Ok ids -> ids = list_to_set (pe_ID <$> l) ∪ seen.
Proof.
  revert seen. induction l as [|p l IH]; intros seen; cbn [validate_personas]; [intros [= <-]; cbn; set_solver|].
  destruct (Persona_Validate p) as [[]|]; cbn [rbind]; [|done]. destruct (negb _); [|done]. intros ->%IH. rewrite fmap_cons. cbn [list_to_set]. set_solver.
Qed.

Lemma validate_mailboxes_spec personas l seen : validate_mailboxes personas l seen = Ok tt
  <-> Forall (mailbox_ok personas) l /\ NoDup (mx_PersonaID <$> l) /\ Forall (fun mb => mx_PersonaID mb ∉ seen) l.
Proof.
  apply (seen_loop (mailbox_ok personas) mx_PersonaID (fun l seen => validate_mailboxes personas l seen = Ok tt)); [done|].
  intros mb l0 s. cbn [validate_mailboxes]. unfold mailbox_ok. destruct (Mailbox_Validate mb) as [[]|]; cbn [rbind]; [|split; [done|by intros ((? & _) & _)]].
  case_bool_decide; [|split; [done|by intros ((_ & ?) & _)]]. case_bool_decide; cbn [negb]; [split; [done|by intros (_ & ? & _)]|]. by split; [|intros (_ & _ & ?)].
Qed.

Lemma validate_prekeys_spec now l seen : validate_prekeys now l seen = Ok tt
  <-> Forall (fun k => PreKey_Validate now k = Ok tt) l /\ NoDup (pk_ID <$> l) /\ Forall (fun k => pk_ID k ∉ seen) l.
Proof.
  apply (seen_loop (fun k => PreKey_Validate now k = Ok tt) pk_ID (fun l seen => validate_prekeys now l seen = Ok tt)); [done|].
  intros k l0 s. cbn [validate_prekeys]. destruct (PreKey_Validate now k) as [[]|]; cbn [rbind]; [|split; [done|by intros (? & _)]].
  case_bool_decide; cbn [negb]; [split; [done|by intros (_ & ? & _)]|]. by split; [|intros (_ & _ & ?)].
Qed.

Lemma validate_devices_spec l seen : validate_devices l seen = Ok tt
  <-> Forall (fun d => Device_Validate d = Ok tt) l /\ NoDup (device_key <$> l) /\ Forall (fun d => device_key d ∉ seen) l.
Proof.
  apply (seen_loop (fun d => Device_Validate d = Ok tt) device_key (fun l seen => validate_devices l seen = Ok tt)); [done|].
  intros d l0 s. cbn [validate_devices]. destruct (Device_Validate d) as [[]|]; cbn [rbind]; [|split; [done|by intros (? & _)]].
  case_bool_decide; cbn [negb]; [split; [done|by intros (_ & ? & _)]|]. by split; [|intros (_ & _ & ?)].
Qed.

Lemma no_keys_seen {A} (key : A -> string) l : Forall (fun x => key x ∉ (∅ : gset string)) l.
Proof. apply Forall_forall. set_solver. Qed.

(** [State.Validate] decides validity. *)
Lemma State_Validate_spec now s : State_Validate now s = Ok tt <-> state_ok now s.
Proof.
  unfold State_Validate. destruct (Z.eqb_spec (st_SchemaVersion s) SchemaV1) as [Es|Es]; [|split; [done|by intros []]].
  destruct (validate_personas (st_Personas s) ∅) as [ids|] eqn:Ep; cbn [rbind].
  2: { split; [done|]. intros [_ [H1 H2] _ _ _ _]. destruct (proj2 (validate_personas_spec (st_Personas s) ∅)) as (ids & H & _); [|congruence].
       split; [done|]. split; [done|apply no_keys_seen]. }
  pose proof (validate_personas_ids _ _ _ Ep) as Eids. rewrite union_empty_r_L in Eids. subst ids.
  destruct (proj1 (validate_personas_spec (st_Personas s) ∅)) as (P1 & P2 & _); [eexists; split; [exact Ep|set_solver]|].
  destruct (Z.ltb_spec (MaxMailboxes * 2) (Z.of_nat (length (st_Mailboxes s)))); cbn [negb]; [split; [done|]; intros [_ _ _ _ _ (? & _)]; lia|].
  destruct (validate_mailboxes _ (st_Mailboxes s) ∅) as [[]|] eqn:Em; cbn [rbind].
  2: { split; [done|]. intros [_ _ [H1 H2] _ _ _]. assert (validate_mailboxes (list_to_set (pe_ID <$> st_Personas s)) (st_Mailboxes s) ∅ = Ok tt) as Hm; [|congruence].
       apply validate_mailboxes_spec. split; [done|]. split; [done|apply no_keys_seen]. }
  apply validate_mailboxes_spec in Em as (M1 & M2 & _).
  destruct (Z.ltb_spec (MaxPreKeys * 2) (Z.of_nat (length (st_PreKeys s)))); cbn [negb]; [split; [done|]; intros [_ _ _ _ _ (_ & ? & _)]; lia|].
  destruct (validate_prekeys now (st_PreKeys s) ∅) as [[]|] eqn:Ek; cbn [rbind].
  2: { split; [done|]. intros [_ _ _ [H1 H2] _ _]. assert (validate_prekeys now (st_PreKeys s) ∅ = Ok tt) as Hm; [|congruence].
       apply validate_prekeys_spec. split; [done|]. split; [done|apply no_keys_seen]. }
  apply validate_prekeys_spec in Ek as (K1 & K2 & _).
  destruct (Z.ltb_spec (MaxDevices * 2) (Z.of_nat (length (st_Devices s)))); cbn [negb]; [split; [done|]; intros [_ _ _ _ _ (_ & _ & ?)]; lia|].
  rewrite validate_devices_spec. split.
  - intros (D1 & D2 & _). by split.
  - intros [_ _ _ _ [D1 D2] _]. split; [done|]. split; [done|apply no_keys_seen].
Qed.

(** ** Pruning *)

Lemma keep_last_sublist {A} n (l : list A) : keep_last n l `sublist_of` l.
Proof. unfold keep_last. destruct (_ <? _); [apply sublist_drop|done]. Qed.

Lemma keep_last_length {A} n (l : list A) : 0 <= n -> Z.of_nat (length (keep_last n l)) = Z.min n (Z.of_nat (length l)).
Proof. intros Hn. unfold keep_last. destruct (Z.ltb_spec n (Z.of_nat (length l))); [rewrite length_drop|]; lia. Qed.

Lemma keep_last_small {A} n (l : list A) : Z.of_nat (length l) <= n -> keep_last n l = l.
Proof. intros Hn. unfold keep_last. by rewrite (proj2 (Z.ltb_ge _ _)). Qed.

Lemma PreKey_unexpired t now k : PreKey_Validate t k = Ok tt -> Unix now <= pk_ExpiresAt k -> PreKey_Validate now k = Ok tt.
Proof.
  unfold PreKey_Validate. destruct (is_empty _); [done|]. destruct (_ || _); [done|]. cbn [negb]. intros H Hn. rewrite (proj2 (Z.ltb_ge _ _)) by done. cbn [negb].
  destruct (negb (pk_ExpiresAt k <? Unix t)); [done|discriminate H].
Qed.

Lemma PreKey_Validate_fresh now k : PreKey_Validate now k = Ok tt -> Unix now <= pk_ExpiresAt k.
Proof.
  unfold PreKey_Validate. destruct (negb (is_empty _)); [|done]. destruct (negb (_ || _)); [|done]. destruct (Z.ltb_spec (pk_ExpiresAt k) (Unix now)); [done|]. lia.
Qed.

Lemma Forall_sublist {A} (P : A -> Prop) l k : l `sublist_of` k -> Forall P k -> Forall P l.
Proof. rewrite !Forall_forall. intros Hs Hk x Hx. apply Hk. by eapply elem_of_sublist. Qed.
Lemma NoDup_sublist {A} (l k : list A) : l `sublist_of` k -> NoDup k -> NoDup l.
Proof. intros Hs Hk. by eapply sublist_NoDup. Qed.
Lemma NoDup_keys_sublist {A} (key : A -> string) l k : l `sublist_of` k -> NoDup (key <$> k) -> NoDup (key <$> l).
Proof. intros Hs Hk. eapply NoDup_sublist; [|exact Hk]. by apply fmap_sublist. Qed.

(** What [Prune] keeps of a list: a part of it, in order. *)
Definition kept {A} (n : Z) (P : A -> Prop) `{!forall x, Decision (P x)} (l : list A) : list A := keep_last n (filter P l).

Lemma kept_sublist {A} n (P : A -> Prop) `{!forall x, Decision (P x)} l : kept n P l `sublist_of` l.
Proof. unfold kept. etrans; [apply keep_last_sublist|]. apply sublist_filter. Qed.

Lemma kept_all {A} n (P : A -> Prop) `{!forall x, Decision (P x)} l : Forall P (kept n P l).
Proof. unfold kept. eapply Forall_sublist; [apply keep_last_sublist|]. apply Forall_forall. by intros x [? _]%list_elem_of_filter. Qed.

Lemma filter_every {A} (P : A -> Prop) `{!forall x, Decision (P x)} l : Forall P l -> filter P l = l.
Proof. induction 1 as [|x l Hx Hl IH]; [done|]. by rewrite filter_cons_True, IH. Qed.

Lemma Prune_prekeys now s : st_PreKeys (Prune now s) = kept MaxPreKeys (fun k => Unix now <= pk_ExpiresAt k) (st_PreKeys s).
Proof. done. Qed.
Lemma Prune_mailboxes now s : st_Mailboxes (Prune now s) = kept MaxMailboxes (fun mb => mx_PersonaID mb ∈ (list_to_set (pe_ID <$> st_Personas s) : gset string)) (st_Mailboxes s).
Proof. done. Qed.

Lemma Prune_valid t now s : state_ok t s -> state_ok now (Prune now s).
Proof.
  intros [H1 H2 [M1 M2] [K1 K2] H5 (_ & _ & B3)]. split; rewrite ?Prune_prekeys, ?Prune_mailboxes; [done|done|..|done|].
  - split; [eapply Forall_sublist; [apply kept_sublist|done]|eapply NoDup_keys_sublist; [apply kept_sublist|done]].
  - split; [|eapply NoDup_keys_sublist; [apply kept_sublist|done]]. apply Forall_forall. intros k Hk. apply (PreKey_unexpired t).
    + rewrite Forall_forall in K1. apply K1. eapply elem_of_sublist; [exact Hk|apply kept_sublist].
    + pose proof (kept_all MaxPreKeys (fun k => Unix now <= pk_ExpiresAt k) (st_PreKeys s)) as Hf. rewrite Forall_forall in Hf. by apply Hf.
  - unfold kept. rewrite !keep_last_length by (unfold MaxMailboxes, MaxPreKeys; lia). unfold MaxMailboxes, MaxPreKeys in *. split; [lia|]. split; [lia|exact B3].
Qed.

(** A state that was valid when it was saved can be loaded at any later time: pruning takes
    the prekeys away that have expired since, and leaves a valid state within the limits. *)
Theorem saved_states_stay_loadable t now s : State_Validate t s = Ok tt -> State_Validate now (Prune now s) = Ok tt
  /\ Z.of_nat (length (st_PreKeys (Prune now s))) <= MaxPreKeys /\ Z.of_nat (length (st_Mailboxes (Prune now s))) <= MaxMailboxes.
Proof.
  intros Hs. split; [apply State_Validate_spec; eapply Prune_valid; by apply State_Validate_spec|].
  rewrite Prune_prekeys, Prune_mailboxes. unfold kept. rewrite !keep_last_length by (unfold MaxMailboxes, MaxPreKeys; lia). lia.
Qed.

(** ** The supply of prekeys *)

Section prekeys.
Context `{XB : X25519}.

(** Draws that give a key: 32 random bytes with their public half, an identifier, and a clock
    that has not run backwards. *)
Definition draw_ok (now : Time) (e : prekey_env) : Prop :=
  exists priv pub id, pv_priv e = Some priv /\ x25519_base priv = Some pub /\ pv_id e = Some id /\ id <> []
    /\ bytes_ok priv /\ bytes_ok pub /\ blen priv = 32 /\ blen pub = 32 /\ 0 < Unix now <= Unix (pv_now e).

Lemma decode_sized_ok b n what : bytes_ok b -> blen b = n -> decode_sized (EncodeToString b) n what = Ok b.
Proof. intros Hb Hn. unfold decode_sized. rewrite DecodeString_EncodeToString by done. by rewrite (proj2 (Z.eqb_eq _ _)). Qed.

Lemma NewPreKey_ok now e ttl : draw_ok now e -> 0 < ttl -> exists k id, NewPreKey e ttl = Ok k /\ PreKey_Validate now k = Ok tt /\ pv_id e = Some id /\ pk_ID k = EncodeToString id.
Proof.
  intros (priv & pub & id & Ep & Eb & Ei & Hid & Hp1 & Hp2 & Hl1 & Hl2 & Hnow & Hle) Httl. unfold NewPreKey. cbv zeta. rewrite (proj2 (Z.leb_gt ttl 0)), Ep, Eb, Ei by done.
  eexists _, id. split; [done|]. split; [|done]. unfold PreKey_Validate. cbn [pk_ID pk_CreatedAt pk_ExpiresAt].
  assert (is_empty (EncodeToString id) = false) as -> by (destruct id as [|x [|y [|z id]]]; [done|reflexivity..]).
  assert (Unix (pv_now e) <= Unix (TimeAdd (pv_now e) ttl)) as Hu by (unfold Unix, Second, TimeAdd; apply Z.div_le_mono; lia).
  rewrite !(proj2 (Z.leb_gt _ _)), (proj2 (Z.ltb_ge _ _)) by lia. cbn [orb negb].
  unfold DecodePublic, DecodePrivate. cbn [pk_PubB64 pk_PrivB64]. by rewrite !decode_sized_ok.
Qed.

(** The state with the keys of the first draws. *)
Lemma make_prekeys_ok now need i draws ttl s created : (forall j, draw_ok now (draws j)) -> 0 < ttl ->
  Z.of_nat (length (st_PreKeys s)) + Z.of_nat need <= MaxPreKeys ->
  exists ks, make_prekeys need i draws ttl s created = (created + Z.of_nat need, None, set_prekeys (st_PreKeys s ++ ks) s)
    /\ length ks = need /\ Forall (fun k => PreKey_Validate now k = Ok tt) ks
    /\ (pk_ID <$> ks) = (fun j => match pv_id (draws j) with Some id => EncodeToString id | None => "" end) <$> seq i need.
Proof.
  intros Hd Httl. revert i s created. induction need as [|need IH]; intros i s created Hl; cbn [make_prekeys].
  { exists []. rewrite app_nil_r, Z.add_0_r. split; [by destruct s|]. split; [done|]. split; [constructor|done]. }
  rewrite (proj2 (Z.ltb_lt _ _)) by lia. destruct (NewPreKey_ok now (draws i) ttl (Hd i) Httl) as (k & id & -> & Hv & Ei & Ek).
  destruct (IH (S i) (set_prekeys (st_PreKeys s ++ [k]) s) (created + 1)) as (ks & -> & Hlk & Hf & Hids).
  { cbn [st_PreKeys set_prekeys]. rewrite length_app. cbn [length]. lia. }
  exists (k :: ks). cbn [st_PreKeys set_prekeys]. rewrite <- app_assoc. split; [replace (created + 1 + Z.of_nat need) with (created + Z.of_nat (S need)) by lia; done|]. split; [by cbn; rewrite Hlk|].
  split; [by constructor|]. rewrite fmap_cons, Hids, Ek. cbn [seq fmap list_fmap]. by rewrite Ei.
Qed.

(** Asking for prekeys ends with at least as many that are not expired as were asked for, up
    to the limit, and never more than the limit; exactly the missing ones were made, nothing
    but expired keys was lost, and the state stays valid if the new identifiers are new. *)
Theorem EnsurePreKeys_supplies min ttl now draws s t : state_ok t s -> 0 <= min -> 0 < ttl -> (forall j, draw_ok now (draws j)) ->
  NoDup ((pk_ID <$> st_PreKeys s) ++ ((fun j => match pv_id (draws j) with Some id => EncodeToString id | None => "" end) <$> seq 0 (Z.to_nat MaxPreKeys))) ->
  let have := Z.of_nat (length (st_PreKeys (Prune now s))) in
  exists s', EnsurePreKeys min ttl now draws s = (Z.max 0 (Z.min min MaxPreKeys - have), None, s')
    /\ Z.min min MaxPreKeys <= Z.of_nat (length (st_PreKeys s')) <= MaxPreKeys /\ state_ok now s'
    /\ exists ks, st_PreKeys s' = st_PreKeys (Prune now s) ++ ks.
Proof.
  intros Hs Hmin Httl Hd Hnew have. unfold EnsurePreKeys. rewrite (proj2 (Z.ltb_ge min 0)), (proj2 (Z.leb_gt ttl 0)) by lia. fold have.
  assert ((if MaxPreKeys <? min then MaxPreKeys else min) = Z.min min MaxPreKeys) as -> by (destruct (Z.ltb_spec MaxPreKeys min); lia).
  pose proof (Prune_valid t now s Hs) as Hp. set (p := Prune now s) in *.
  assert (have <= MaxPreKeys) as Hhave by (unfold have, p; rewrite Prune_prekeys; unfold kept; rewrite keep_last_length by done; lia).
  destruct (Z.leb_spec (Z.min min MaxPreKeys) have) as [Hle|Hlt].
  { exists p. split; [by rewrite Z.max_l by lia|]. split; [fold have; lia|]. split; [done|]. exists []. by rewrite app_nil_r. }
  destruct (make_prekeys_ok now (Z.to_nat (Z.min min MaxPreKeys - have)) 0 draws ttl p 0 Hd Httl) as (ks & -> & Hl & Hv & Hids); [fold have; lia|].
  set (s1 := set_prekeys (st_PreKeys p ++ ks) p).
  assert (Z.of_nat (length (st_PreKeys s1)) = Z.min min MaxPreKeys) as Hl1.
  { subst s1. cbn [st_PreKeys set_prekeys]. rewrite length_app, Hl. fold have. unfold have in *. lia. }
  assert (state_ok now s1) as Hs1.
  { destruct Hp as [P1 P2 P3 [P4 P4'] P5 (B1 & B2 & B3)]. subst s1. split; try done; [|split; [done|]; split; [rewrite Hl1; unfold MaxPreKeys in *; lia|done]].
    cbn [st_PreKeys set_prekeys]. split; [by apply Forall_app|]. rewrite fmap_app, Hids. eapply NoDup_sublist; [|exact Hnew]. apply sublist_app.
    - apply fmap_sublist. unfold p. rewrite Prune_prekeys. apply kept_sublist.
    - apply fmap_sublist. rewrite <- (take_drop (Z.to_nat (Z.min min MaxPreKeys - have)) (seq 0 (Z.to_nat MaxPreKeys))). rewrite take_seq.
      rewrite Nat.min_l by (unfold MaxPreKeys in *; lia). apply sublist_inserts_r. done. }
  assert (st_PreKeys (Prune now s1) = st_PreKeys s1) as Ek.
  { rewrite Prune_prekeys. unfold kept. rewrite filter_every; [apply keep_last_small; lia|].
    eapply Forall_impl; [apply (so_prekeys _ _ Hs1)|]. intros k. apply PreKey_Validate_fresh. }
  exists (Prune now s1). split; [f_equal; f_equal; lia|]. rewrite Ek, Hl1. split; [lia|]. split; [by apply (Prune_valid now)|]. by exists ks.
Qed.
End prekeys.

(** ** Mailboxes *)

Lemma clamp_period_range p : 60 <= clamp_period p <= 7 * 24 * 3600.
Proof.
  unfold clamp_period. destruct (Z.leb_spec p 0); cbv zeta; [split; vm_compute; discriminate|]. destruct (Z.ltb_spec p 60); [split; vm_compute; discriminate|].
  destruct (Z.ltb_spec (7 * 24 * 3600) p); lia. Qed.

(** The epoch at a time after 1970, which starts [shift] seconds early. *)
Lemma mailboxEpoch_spec now p b : 0 <= Unix now -> exists epoch shift, mailboxEpoch now p b = (epoch, shift, clamp_period p)
  /\ 0 <= shift < clamp_period p /\ epoch * clamp_period p <= Unix now + shift < (epoch + 1) * clamp_period p /\ 0 <= epoch
  /\ shift = (if 0 <? mx_PhaseSec b then Z.rem (mx_PhaseSec b) (clamp_period p) else 0).
Proof.
  intros Hnow. unfold mailboxEpoch. cbv zeta. pose proof (clamp_period_range p) as Hp. set (period := clamp_period p) in *.
  set (shift := if 0 <? mx_PhaseSec b then _ else _). exists (Z.quot (Unix now + shift) period), shift. split; [done|].
  assert (0 <= shift < period) as Hs by (unfold shift; destruct (Z.ltb_spec 0 (mx_PhaseSec b)); [apply Z.rem_bound_pos; lia|lia]).
  split; [done|]. rewrite Z.quot_div_nonneg by lia. pose proof (Z.div_mod (Unix now + shift) period). pose proof (Z.mod_pos_bound (Unix now + shift) period).
  split; [lia|]. split; [apply Z.div_pos; lia|done].
Qed.

Lemma epoch_unique period x e e' : 0 < period -> e * period <= x < (e + 1) * period -> e' * period <= x < (e' + 1) * period -> e = e'.
Proof. intros. nia. Qed.

Lemma Unix_before now sec : now < UnixTime sec -> Unix now < sec.
Proof. intros H. unfold Unix, UnixTime, Second in *. Z.div_mod_to_equations. lia. Qed.
Lemma Unix_after now sec : sec <= Unix now -> UnixTime sec <= now.
Proof. intros H. unfold Unix, UnixTime in *. unfold Second in *. Z.div_mod_to_equations. lia. Qed.
Lemma before_Unix now sec : Unix now < sec -> now < UnixTime sec.
Proof. intros H. unfold Unix, UnixTime, Second in *. Z.div_mod_to_equations. lia. Qed.

(** A mailbox is used from one rotation to the next: the next one is due within a period of
    a minute to a week, until then the mailbox and the time of the next stay the same, and
    when it is due the mailbox is the previous one. *)
Theorem mailboxes_rotate now p b id next : 0 <= Unix now -> MailboxAt now p b = Ok (id, next) ->
  now < next <= now + clamp_period p * Second /\ 60 <= clamp_period p <= 7 * 24 * 3600
  /\ (forall now', now <= now' < next -> MailboxAt now' p b = Ok (id, next))
  /\ MailboxPrevAt next p b = Ok id.
Proof.
  intros Hnow. destruct (mailboxEpoch_spec now p b Hnow) as (e & s & He & Hs & Hb & He0 & Es). unfold MailboxAt. rewrite He.
  pose proof (clamp_period_range p) as Hp. set (period := clamp_period p) in *.
  destruct (mailboxForEpoch e b) as [id'|] eqn:Em; cbn [rbind]; [|done]. intros [= -> <-]. split; [|split; [done|split]].
  - split; [apply before_Unix; lia|]. unfold UnixTime, Unix in *. unfold Second in *. Z.div_mod_to_equations. lia.
  - intros now' [H1 H2]. apply Unix_before in H2. assert (Unix now <= Unix now') as H3 by (unfold Unix, Second; apply Z.div_le_mono; lia).
    destruct (mailboxEpoch_spec now' p b ltac:(lia)) as (e' & s' & -> & Hs' & Hb' & _ & Es'). fold period in Hb', Es'. assert (s' = s) as -> by congruence.
    assert (e' = e) as -> by (apply (epoch_unique period (Unix now' + s)); lia). rewrite Em. done.
  - unfold MailboxPrevAt. destruct (mailboxEpoch_spec (UnixTime ((e + 1) * period - s)) p b) as (e' & s' & -> & Hs' & Hb' & _ & Es'); [rewrite Unix_UnixTime; lia|].
    fold period in Hb', Es'. assert (s' = s) as -> by congruence. rewrite Unix_UnixTime in Hb'.
    assert (e' = e + 1) as -> by (apply (epoch_unique period ((e + 1) * period)); lia). by replace (e + 1 - 1) with e by lia.
Qed.

(** The loop adds decoys, none of them the primary, up to the count. *)
Lemma decoys_spec turns e i count primary b out : (primary ∉ out) -> Z.of_nat (length out) <= Z.max 0 count ->
  (primary ∉ decoys turns e i count primary b out) /\ Z.of_nat (length (decoys turns e i count primary b out)) <= Z.max 0 count.
Proof.
  revert i out. induction turns as [|turns IH]; intros i out Hn Hl; cbn [decoys]; [done|]. destruct (Z.ltb_spec (Z.of_nat (length out)) count); [|done].
  destruct (decoyForEpoch e i b) as [id|]; [|by apply IH]. case_bool_decide as E; apply IH; try done; [|rewrite length_app; cbn; lia].
  rewrite elem_of_app, list_elem_of_singleton. intros [?|?]; [done|congruence].
Qed.

Lemma decoys_full turns e i count primary b out : Z.of_nat (length out) <= count -> count - Z.of_nat (length out) <= Z.of_nat turns ->
  (forall j, i <= j < i + (count - Z.of_nat (length out)) -> exists id, decoyForEpoch e j b = Ok id /\ id <> primary) ->
  Z.of_nat (length (decoys turns e i count primary b out)) = count.
Proof.
  revert i out. induction turns as [|turns IH]; intros i out Hl Ht Hd; cbn [decoys]; [lia|]. destruct (Z.ltb_spec (Z.of_nat (length out)) count); [|lia].
  destruct (Hd i) as (id & -> & Hne); [lia|]. rewrite bool_decide_eq_false_2 by done.
  apply IH; rewrite length_app; cbn [length]; [lia|lia|]. intros j Hj. apply Hd. lia.
Qed.

(** Decoy mailboxes are never the mailbox in use, and there are at most as many as asked for;
    as many if none of the first decoys collides with it, so that the loop's bound of five
    turns for each is enough. *)
Theorem decoys_are_not_the_mailbox now p count b ids id next : 0 <= Unix now -> MailboxAt now p b = Ok (id, next) -> DecoyMailboxesAt now p count b = Ok ids ->
  (id ∉ ids) /\ Z.of_nat (length ids) <= Z.max 0 count
  /\ ((forall i, 0 <= i < count -> decoyForEpoch (mailboxEpoch now p b).1.1 i b <> Ok id) -> Z.of_nat (length ids) = Z.max 0 count).
Proof.
  intros Hnow. unfold MailboxAt, DecoyMailboxesAt. destruct (mailboxEpoch_spec now p b Hnow) as (e & s & -> & _). cbn [fst].
  destruct (mailboxForEpoch e b) as [id'|] eqn:Em; cbn [rbind]; [|done]. intros [= -> _].
  destruct (Z.leb_spec count 0); [intros [= <-]; split; [apply not_elem_of_nil|]; split; [cbn; lia|intros _; cbn; lia]|].
  intros [= <-].
  destruct (decoys_spec (Z.to_nat (count * 5)) e 0 count id b []) as [H1 H2]; [apply not_elem_of_nil|cbn; lia|]. split; [done|]. split; [done|].
  intros Hd. rewrite Z.max_r by lia. apply decoys_full; cbn [length]; [lia|lia|]. intros j Hj. specialize (Hd j ltac:(lia)).
  destruct (decoyForEpoch e j b) as [d|] eqn:Ed; [exists d; split; [done|congruence]|].
  exfalso. revert Em Ed. unfold mailboxForEpoch, decoyForEpoch. by destruct (Seed b).
Qed.

Lemma i64_add_wrap a b : i64 (a + i64 b) = i64 (a + b).
Proof. unfold i64. f_equal. replace (a + ((b + 2 ^ 63) mod 2 ^ 64 - 2 ^ 63) + 2 ^ 63) with (a + (b + 2 ^ 63) mod 2 ^ 64) by lia. rewrite Zplus_mod_idemp_r. f_equal. lia. Qed.

(** A number derived from the seed lies between the bounds, in whichever order they come,
    wrap-around of 64 bits included; only the span of all numbers is left out, which would
    divide by zero. *)
Theorem DeriveInt_within label min max b v : is_i64 min -> is_i64 max -> Z.abs (max - min) < 2 ^ 64 - 1 -> DeriveInt label min max b = Ok v ->
  Z.min min max <= v <= Z.max min max.
Proof.
  intros Hmin Hmax Hspan. unfold DeriveInt.
  assert ((if max <? min then (max, min) else (min, max)) = (Z.min min max, Z.max min max)) as -> by (destruct (Z.ltb_spec max min); f_equal; lia).
  set (lo := Z.min min max). set (hi := Z.max min max). destruct (Z.eqb_spec lo hi) as [E|E]; [intros [= <-]; lia|].
  destruct (Seed b) as [seed|]; cbn [rbind]; [|done]. set (x := be_get _). intros [= <-]. rewrite i64_add_wrap.
  assert (u64 (hi - lo + 1) = hi - lo + 1) as -> by (apply u64_id; unfold_ints; lia). pose proof (Z.mod_pos_bound x (hi - lo + 1)).
  rewrite i64_id; [lia|unfold_ints; lia].
Qed.
