(* ===== verification/CommunityService.v ===== *)
(** * The community service ([pkg/community]: types.go, service.go, store.go)

    The state a user keeps of communities, invites and members, its validation, and the
    operations of the service over a store.  The file and its encryption are a class. *)

From S2P Require Import Prelude Sha256 GoStr Persona Community.

#[local] Open Scope string_scope.
#[local] Open Scope list_scope.
#[local] Open Scope Z_scope.

Record Community := mkCommunity {
  cm_ID : string;
  cm_CreatedAt : Z;
  cm_Role : string;
}.

Record StoredInvite := mkStoredInvite {
  si_Invite : Invite;
  si_Uses : Z;
}.

Record State := mkState {
  st_SchemaVersion : Z;
  st_UpdatedAt : Z;
  st_Communities : list Community;
  st_Invites : list StoredInvite;
  st_Members : list Member;
}.

(** The encrypted file: reading may fail ([None]) or find no file; writing may fail. *)
Class CommunityFile (S : Type) := {
  file_read : S -> option (option State);
  file_write : State -> S -> bool * S;
}.

Local Open Scope res_scope.

Definition set_updated (now : Time) (s : State) : State :=
  mkState (st_SchemaVersion s) (Unix now) (st_Communities s) (st_Invites s) (st_Members s).
Definition set_communities (now : Time) (cs : list Community) (s : State) : State :=
  mkState (st_SchemaVersion s) (Unix now) cs (st_Invites s) (st_Members s).
Definition set_invites (is_ : list StoredInvite) (s : State) : State :=
  mkState (st_SchemaVersion s) (st_UpdatedAt s) (st_Communities s) is_ (st_Members s).

Definition NewState (now : Time) : State := mkState SchemaV1 (Unix now) [] [] [].

Section service.
Context {F : Type} `{ED : Ed25519, TJ : TokenJSON, CF : !CommunityFile F}.

(** ** Validation *)

Fixpoint validate_communities (l : list Community) (seen : gset string) : res string unit :=
  match l with
  | [] => Ok tt
  | c :: l' =>
      require! negb (is_empty (cm_ID c)) else "community: community id required";
      require! negb (bool_decide (cm_ID c ∈ seen)) else "community: duplicate community id";
      require! negb (cm_CreatedAt c <=? 0) else "community: created_at required";
      require! one_role (cm_Role c) else "community: invalid role";
      validate_communities l' ({[cm_ID c]} ∪ seen)
  end.

Fixpoint validate_invites (l : list StoredInvite) (seen : gset string) : res string unit :=
  match l with
  | [] => Ok tt
  | si :: l' =>
      let inv := si_Invite si in
      require! negb (si_Uses si <? 0) else "community: invalid invite uses";
      require! negb (negb (iv_Schema inv =? SchemaV1) || is_empty (iv_ID inv) || is_empty (iv_Community inv) || is_blank (iv_IssuerPubB64 inv))
        else "community: invalid invite";
      _ <-! Invite_VerifySignature inv;
      require! negb (bool_decide (iv_ID inv ∈ seen)) else "community: duplicate invite id";
      validate_invites l' ({[iv_ID inv]} ∪ seen)
  end.

Fixpoint validate_members (l : list Member) : res string unit :=
  match l with
  | [] => Ok tt
  | m :: l' =>
      require! negb (is_empty (mb_Community m) || is_blank (mb_MemberPubB64 m)) else "community: invalid member";
      require! one_role (mb_Role m) else "community: invalid member role";
      require! bool_decide (mb_Status m ∈ [MemberActive; MemberRevoked; MemberBanned]) else "community: invalid member status";
      validate_members l'
  end.

Definition State_Validate (s : State) : res string unit :=
  require! st_SchemaVersion s =? SchemaV1 else "community: unsupported schema_version";
  _ <-! validate_communities (st_Communities s) ∅;
  _ <-! validate_invites (st_Invites s) ∅;
  validate_members (st_Members s).

(** ** The store *)

Definition Load (now : Time) (f : F) : res string State :=
  match file_read f with
  | None => Err "community: read store"
  | Some None => Ok (NewState now)
  | Some (Some st) =>
      let st := set_updated now st in
      _ <-! State_Validate st;
      Ok st
  end.

(** The time of the update is set in the caller's state. *)
Definition Save (now : Time) (s : State) (f : F) : option string * State * F :=
  let s := set_updated now s in
  match State_Validate s with
  | Err e => (Some e, s, f)
  | Ok _ => let '(ok, f) := file_write s f in (if ok then None else Some "community: write store", s, f)
  end.

(** ** The service *)

Definition NewService (now : Time) (f : F) : res string State :=
  st <-! Load now f;
  _ <-! State_Validate st;
  Ok st.

(** A result with the state and the file; [saved] ends an operation with a save. *)
Abbreviation outcome A := (res string A * (State * F))%type (only parsing).
Definition saved {A} (a : A) (now : Time) (s : State) (f : F) : outcome A :=
  let '(e, s, f) := Save now s f in (match e with None => Ok a | Some e => Err e end, (s, f)).

(** [rnd] are the random bytes of an identifier. *)
Definition CreateCommunity (id role : string) (rnd : option (list Z)) (now : Time) (s : State) (f : F) : outcome string :=
  let role := if is_empty role then RoleOwner else role in
  if negb (one_role role) then (Err "community: invalid role", (s, f))
  else
    match (if is_blank id then EncodeToString <$> rnd else Some id) with
    | None => (Err "random source", (s, f))
    | Some id =>
        if existsb (fun c => String.eqb (cm_ID c) id) (st_Communities s) then (Ok id, (s, f))
        else saved id now (set_communities now (st_Communities s ++ [mkCommunity id (Unix now) role]) s) f
    end.

Definition RoleOf (communityID : string) (s : State) : option string :=
  cm_Role ∘ snd <$> list_find (fun c => cm_ID c = communityID) (st_Communities s).

Definition CanInvite (communityID : string) (s : State) : bool :=
  match RoleOf communityID s with Some role => String.eqb role RoleOwner || String.eqb role RoleModerator | None => false end.
Definition CanCreateRoom (communityID : string) (s : State) : bool :=
  match RoleOf communityID s with Some role => String.eqb role RoleOwner || String.eqb role RoleModerator | None => false end.
Definition CanPost (communityID : string) (s : State) : bool :=
  match RoleOf communityID s with Some role => one_role role | None => false end.

Fixpoint upsertStoredInvite (invites : list StoredInvite) (inv : Invite) : list StoredInvite :=
  match invites with
  | [] => [mkStoredInvite inv 0]
  | si :: l => if String.eqb (iv_ID (si_Invite si)) (iv_ID inv) then mkStoredInvite inv (si_Uses si) :: l else si :: upsertStoredInvite l inv
  end.

Definition findStoredInvite (invites : list StoredInvite) (id : string) : option StoredInvite :=
  snd <$> list_find (fun si => iv_ID (si_Invite si) = id) invites.

Fixpoint upsertMember (members : list Member) (m : Member) : list Member :=
  match members with
  | [] => [m]
  | x :: l => if String.eqb (mb_Community x) (mb_Community m) && String.eqb (mb_MemberPubB64 x) (mb_MemberPubB64 m) then m :: l else x :: upsertMember l m
  end.

(** Whether an invite with a limit is used up. *)
Definition used_up (si : StoredInvite) : bool := (0 <? iv_MaxUses (si_Invite si)) && (iv_MaxUses (si_Invite si) <=? si_Uses si).
Definition use (si : StoredInvite) : StoredInvite := mkStoredInvite (si_Invite si) (si_Uses si + 1).

Definition CreateInvite (e : token_env) (now : Time) (persona : Persona) (communityID : string) (ttl : Duration) (maxUses : Z) (s : State) (f : F) : outcome string :=
  if negb (CanInvite communityID s) then (Err "community: invite permission denied", (s, f))
  else
    match SignKeypair persona with
    | Err er => (Err er, (s, f))
    | Ok (_, priv) =>
        match NewInvite e now communityID (pe_SignPubB64 persona) priv ttl maxUses with
        | Err er => (Err er, (s, f))
        | Ok inv => saved (Invite_Encode inv) now (set_updated now (set_invites (upsertStoredInvite (st_Invites s) inv) s)) f
        end
    end.

(** The readings of the clock within an operation may differ; one stands for all of them. *)
Definition CreateJoinRequest (e : token_env) (now : Time) (persona : Persona) (inviteToken : string) : res string string :=
  inv <-! DecodeInvite now (TrimSpace inviteToken);
  keys <-! SignKeypair persona;
  req <-! NewJoinRequest e now now inv (pe_SignPubB64 persona) keys.2;
  Ok (Request_Encode req).

(** The first invite with the identifier is counted. *)
Fixpoint use_first (id : string) (l : list StoredInvite) : list StoredInvite :=
  match l with
  | [] => []
  | si :: l' => if String.eqb (iv_ID (si_Invite si)) id then use si :: l' else si :: use_first id l'
  end.

(** The approval, before the state changes. *)
Definition approve (e : token_env) (now : Time) (persona : Persona) (inviteToken joinRequestToken role : string) (s : State) : res string (Invite * JoinApproval) :=
  inv <-! DecodeInvite now (TrimSpace inviteToken);
  require! CanInvite (iv_Community inv) s else "community: approve permission denied";
  require! String.eqb (TrimSpace (iv_IssuerPubB64 inv)) (TrimSpace (pe_SignPubB64 persona)) else "community: invite issuer mismatch";
  req <-! DecodeJoinRequest now (TrimSpace joinRequestToken);
  keys <-! SignKeypair persona;
  require! negb (match findStoredInvite (st_Invites s) (iv_ID inv) with Some si => used_up si | None => false end) else "community: invite max uses exceeded";
  approval <-! ApproveJoin e now now now inv req (pe_SignPubB64 persona) keys.2 role;
  Ok (inv, approval).

Definition Service_ApproveJoin (e : token_env) (now : Time) (persona : Persona) (inviteToken joinRequestToken role : string) (s : State) (f : F) : outcome string :=
  match approve e now persona inviteToken joinRequestToken role s with
  | Err er => (Err er, (s, f))
  | Ok (inv, approval) => saved (Approval_Encode approval) now (set_updated now (set_invites (use_first (iv_ID inv) (st_Invites s)) s)) f
  end.

(** Every invite with the identifier is counted until one is used up. *)
Fixpoint use_all (id : string) (l : list StoredInvite) : bool * list StoredInvite :=
  match l with
  | [] => (true, [])
  | si :: l' =>
      if negb (String.eqb (iv_ID (si_Invite si)) id) then let '(ok, l') := use_all id l' in (ok, si :: l')
      else if used_up si then (false, si :: l')
      else let '(ok, l') := use_all id l' in (ok, use si :: l')
  end.

(** The role is set where the community is known; otherwise the community is added. *)
Fixpoint grant (id role : string) (now : Time) (l : list Community) : list Community :=
  match l with
  | [] => [mkCommunity id (Unix now) role]
  | c :: l' => if String.eqb (cm_ID c) id then mkCommunity (cm_ID c) (cm_CreatedAt c) role :: l' else c :: grant id role now l'
  end.

(** The three statements, checked against one another and the applicant. *)
Definition join_statements (now : Time) (persona : Persona) (inviteToken joinRequestToken approvalToken : string) : res string (Invite * JoinRequest * JoinApproval) :=
  inv <-! DecodeInvite now (TrimSpace inviteToken);
  req <-! DecodeJoinRequest now (TrimSpace joinRequestToken);
  approval <-! DecodeJoinApproval now (TrimSpace approvalToken);
  require! bool_decide (iv_ID inv = jr_InviteID req) && bool_decide (iv_Community inv = jr_Community req) else "community: invite/request mismatch";
  require! bool_decide (ja_InviteID approval = iv_ID inv) && bool_decide (ja_Community approval = iv_Community inv) else "community: approval mismatch";
  require! String.eqb (TrimSpace (ja_IssuerPubB64 approval)) (TrimSpace (iv_IssuerPubB64 inv)) else "community: issuer mismatch";
  require! String.eqb (TrimSpace (jr_ApplicantPubB64 req)) (TrimSpace (pe_SignPubB64 persona)) else "community: applicant mismatch";
  Ok (inv, req, approval).

Definition Service_ApplyJoin (now : Time) (persona : Persona) (inviteToken joinRequestToken approvalToken : string) (s : State) (f : F) : outcome Member :=
  match join_statements now persona inviteToken joinRequestToken approvalToken with
  | Err er => (Err er, (s, f))
  | Ok (inv, req, approval) =>
      let '(ok, invites) := use_all (iv_ID inv) (st_Invites s) in
      let s := set_invites invites s in
      if negb ok then (Err "community: invite max uses exceeded", (s, f))
      else
        let m := mkMember (iv_Community inv) (jr_ApplicantPubB64 req) (ja_GrantedRole approval) MemberActive (Unix now) (ja_IssuerPubB64 approval) (iv_ID inv) in
        saved m now (mkState (st_SchemaVersion s) (Unix now) (grant (iv_Community inv) (ja_GrantedRole approval) now (st_Communities s)) (st_Invites s)
                       (upsertMember (st_Members s) m)) f
  end.
End service.
