(* ===== verification/CommunityServiceSpec.v ===== *)
(** * What holds of the community service

    Its state stays valid, so what it saves can be loaded; and whoever is invited, asks and
    is approved becomes a member. *)

From S2P Require Import Prelude Sha256 GoStr Persona Community CommunitySpec CommunityService.

#[local] Open Scope string_scope.
#[local] Open Scope list_scope.
#[local] Open Scope Z_scope.

Section spec.
Context {F : Type} `{ED : Ed25519, TJ : TokenJSON, CF : !CommunityFile F}.

(** ** Valid states *)

Definition community_ok (c : Community) : Prop := is_empty (cm_ID c) = false /\ 0 < cm_CreatedAt c /\ one_role (cm_Role c) = true.

Definition invite_ok (si : StoredInvite) : Prop :=
  0 <= si_Uses si /\ iv_Schema (si_Invite si) = SchemaV1 /\ is_empty (iv_ID (si_Invite si)) = false /\ is_empty (iv_Community (si_Invite si)) = false
  /\ is_blank (iv_IssuerPubB64 (si_Invite si)) = false /\ Invite_VerifySignature (si_Invite si) = Ok tt.

Definition member_ok (m : Member) : Prop :=
  is_empty (mb_Community m) = false /\ is_blank (mb_MemberPubB64 m) = false /\ one_role (mb_Role m) = true
  /\ mb_Status m ∈ [MemberActive; MemberRevoked; MemberBanned].

Record state_ok (s : State) : Prop := {
  so_schema : st_SchemaVersion s = SchemaV1;
  so_communities : Forall community_ok (st_Communities s) /\ NoDup (cm_ID <$> st_Communities s);
  so_invites : Forall invite_ok (st_Invites s) /\ NoDup (iv_ID ∘ si_Invite <$> st_Invites s);
  so_members : Forall member_ok (st_Members s);
}.

Lemma validate_communities_spec l seen : validate_communities l seen = Ok tt
  <-> Forall community_ok l /\ NoDup (cm_ID <$> l) /\ Forall (fun c => cm_ID c ∉ seen) l.
Proof.
  apply (seen_loop community_ok cm_ID (fun l seen => validate_communities l seen = Ok tt)); [done|]. clear. intros c l seen. cbn [validate_communities]. unfold community_ok.
  destruct (is_empty (cm_ID c)); cbn [negb]; [split; [done|]; by intros ((? & _) & _)|]. destruct (bool_decide (cm_ID c ∈ seen)) eqn:E; cbn [negb].
  { apply bool_decide_eq_true in E. split; [done|]. by intros (_ & ? & _). }
  apply bool_decide_eq_false in E. destruct (Z.leb_spec (cm_CreatedAt c) 0); cbn [negb]; [split; [done|lia]|].
  destruct (one_role _); [|split; [done|]; by intros ((_ & _ & ?) & _)]. intuition.
Qed.

Lemma validate_invites_spec l seen : validate_invites l seen = Ok tt
  <-> Forall invite_ok l /\ NoDup (iv_ID ∘ si_Invite <$> l) /\ Forall (fun si => iv_ID (si_Invite si) ∉ seen) l.
Proof.
  apply (seen_loop invite_ok (iv_ID ∘ si_Invite) (fun l seen => validate_invites l seen = Ok tt)); [done|]. clear. intros si l seen. cbn [validate_invites].
  unfold invite_ok, compose. cbv zeta. set (inv := si_Invite si).
  destruct (Z.ltb_spec (si_Uses si) 0); cbn [negb]; [split; [done|lia]|].
  destruct (Z.eqb_spec (iv_Schema inv) SchemaV1) as [Es|Es]; cbn [negb orb]; [|split; [done|]; by intros ((_ & ? & _) & _)].
  destruct (is_empty (iv_ID inv)); cbn [negb orb]; [split; [done|]; by intros ((_ & _ & ? & _) & _)|].
  destruct (is_empty (iv_Community inv)); cbn [negb orb]; [split; [done|]; by intros ((_ & _ & _ & ? & _) & _)|].
  destruct (is_blank (iv_IssuerPubB64 inv)); cbn [negb orb]; [split; [done|]; by intros ((_ & _ & _ & _ & ? & _) & _)|].
  destruct (Invite_VerifySignature inv) as [[]|]; cbn [rbind]; [|split; [done|]; by intros ((_ & _ & _ & _ & _ & ?) & _)].
  destruct (bool_decide (iv_ID inv ∈ seen)) eqn:E; cbn [negb].
  { apply bool_decide_eq_true in E. split; [done|]. by intros (_ & ? & _). }
  apply bool_decide_eq_false in E. intuition.
Qed.

Lemma validate_members_spec l : validate_members l = Ok tt <-> Forall member_ok l.
Proof.
  induction l as [|m l IH]; [done|]. rewrite Forall_cons, <- IH. cbn [validate_members]. unfold member_ok.
  destruct (is_empty (mb_Community m)); cbn [negb orb]; [split; [done|]; by intros ((? & _) & _)|].
  destruct (is_blank (mb_MemberPubB64 m)); cbn [negb orb]; [split; [done|]; by intros ((_ & ? & _) & _)|].
  destruct (one_role (mb_Role m)); [|split; [done|]; by intros ((_ & _ & ? & _) & _)].
  destruct (bool_decide _) eqn:E; [|split; [done|]; intros ((_ & _ & _ & Hm) & _); by apply bool_decide_eq_false in E].
  apply bool_decide_eq_true in E. intuition.
Qed.

(** [State.Validate] decides the invariant. *)
Lemma community_state_spec s : State_Validate s = Ok tt <-> state_ok s.
Proof.
  unfold State_Validate. destruct (Z.eqb_spec (st_SchemaVersion s) SchemaV1) as [Es|Es]; [|split; [done|by intros []]].
  destruct (validate_communities (st_Communities s) ∅) as [[]|] eqn:Ec; cbn [rbind].
  2: { split; [done|]. intros [_ [H1 H2] _ _]. assert (validate_communities (st_Communities s) ∅ = Ok tt) as H; [|congruence].
       apply validate_communities_spec. split; [done|]. split; [done|]. apply Forall_forall. set_solver. }
  destruct (validate_invites (st_Invites s) ∅) as [[]|] eqn:Ei; cbn [rbind].
  2: { split; [done|]. intros [_ _ [H1 H2] _]. assert (validate_invites (st_Invites s) ∅ = Ok tt) as H; [|congruence].
       apply validate_invites_spec. split; [done|]. split; [done|]. apply Forall_forall. set_solver. }
  apply validate_communities_spec in Ec as (? & ? & _). apply validate_invites_spec in Ei as (? & ? & _).
  rewrite validate_members_spec. split; [by intros|by intros []].
Qed.

(** ** The operations keep the state valid *)

(** Inserting under a key keeps the keys, or adds one at the end. *)
Definition keeps_keys {A} (key : A -> string) (k : string) (l l' : list A) : Prop :=
  key <$> l' = key <$> l \/ (k ∉ key <$> l) /\ key <$> l' = (key <$> l) ++ [k].

Lemma keeps_keys_cons {A} (key : A -> string) k x y l l' : key y = key x -> key x <> k -> keeps_keys key k l l' -> keeps_keys key k (x :: l) (y :: l').
Proof.
  intros Ey Hne [E|[Hn E]]; [left|right]; rewrite !fmap_cons, Ey, E; [done|]. split; [|done]. rewrite not_elem_of_cons. split; [congruence|done].
Qed.

Lemma keeps_keys_nodup {A} (key : A -> string) k l l' : keeps_keys key k l l' -> NoDup (key <$> l) -> NoDup (key <$> l').
Proof.
  intros [->|[Hn ->]] Hd; [done|]. apply NoDup_app. split; [done|]. split; [|apply NoDup_singleton].
  intros x Hx ->%list_elem_of_singleton. done.
Qed.

Lemma upsertStoredInvite_ok l inv : Forall invite_ok l -> invite_ok (mkStoredInvite inv 0) ->
  Forall invite_ok (upsertStoredInvite l inv) /\ keeps_keys (iv_ID ∘ si_Invite) (iv_ID inv) l (upsertStoredInvite l inv).
Proof.
  intros Hl Hi. induction Hl as [|si l Hsi Hl [IH1 IH2]]; cbn [upsertStoredInvite].
  { split; [by constructor|]. right. split; [apply not_elem_of_nil|done]. }
  destruct (String.eqb_spec (iv_ID (si_Invite si)) (iv_ID inv)) as [E|E].
  - split; [|left; unfold compose; rewrite !fmap_cons; cbn [si_Invite]; by rewrite E]. constructor; [|done]. destruct Hi as (_ & ?), Hsi as (? & _). by split.
  - split; [by constructor|]. by apply keeps_keys_cons.
Qed.

Lemma use_first_ok id l : Forall invite_ok l -> Forall invite_ok (use_first id l) /\ iv_ID ∘ si_Invite <$> use_first id l = iv_ID ∘ si_Invite <$> l.
Proof.
  induction 1 as [|si l Hsi Hl [IH1 IH2]]; cbn [use_first]; [done|]. destruct (String.eqb _ _).
  - split; [|done]. constructor; [|done]. destruct Hsi as (? & ?). split; [cbn; lia|done].
  - rewrite !fmap_cons, IH2. by split; [constructor|].
Qed.

Lemma use_all_ok id l : Forall invite_ok l -> Forall invite_ok (use_all id l).2 /\ iv_ID ∘ si_Invite <$> (use_all id l).2 = iv_ID ∘ si_Invite <$> l.
Proof.
  induction 1 as [|si l Hsi Hl [IH1 IH2]]; cbn [use_all]; [done|]. destruct (use_all id l) as [ok l']. cbn [snd] in *.
  destruct (negb _); [|destruct (used_up si)]; cbn [snd]; rewrite !fmap_cons, ?IH2; (split; [|done]); constructor; try done.
  destruct Hsi as (? & ?). split; [cbn; lia|done].
Qed.

Lemma grant_ok id role now l : Forall community_ok l -> community_ok (mkCommunity id (Unix now) role) ->
  Forall community_ok (grant id role now l) /\ keeps_keys cm_ID id l (grant id role now l).
Proof.
  intros Hl Hc. induction Hl as [|c l Hx Hl [IH1 IH2]]; cbn [grant].
  { split; [by constructor|]. right. split; [apply not_elem_of_nil|done]. }
  destruct (String.eqb_spec (cm_ID c) id) as [E|E].
  - split; [|by left]. constructor; [|done]. destruct Hc as (_ & _ & ?), Hx as (? & ? & _). by split.
  - split; [by constructor|]. by apply keeps_keys_cons.
Qed.

Lemma upsertMember_ok l m : Forall member_ok l -> member_ok m -> Forall member_ok (upsertMember l m).
Proof. intros Hl Hm. induction Hl as [|x l Hx Hl IH]; cbn [upsertMember]; [by constructor|]. destruct (_ && _); by constructor. Qed.

Lemma set_updated_ok now s : state_ok (set_updated now s) <-> state_ok s.
Proof. split; intros [? ? ? ?]; by split. Qed.

(** What saving does to a valid state. *)
Lemma Save_ok now s f : state_ok s -> exists f', Save now s f = (if (file_write (set_updated now s) f).1 then None else Some "community: write store", set_updated now s, f')
  /\ f' = (file_write (set_updated now s) f).2.
Proof.
  intros Hs. unfold Save. rewrite (proj2 (community_state_spec _)) by by apply set_updated_ok. destruct (file_write _ f) as [ok f']. by exists f'.
Qed.

Lemma saved_state {A} (a : A) now s f : (saved a now s f).2.1 = set_updated now s.
Proof. unfold saved, Save. destruct (State_Validate _); [|done]. destruct (file_write _ f). by destruct b. Qed.

Lemma DecodeInvite_ok now s inv : DecodeInvite now s = Ok inv -> Invite_Validate now inv = Ok tt.
Proof. unfold DecodeInvite. destruct (decode_token _ _ _); cbn [rbind]; [|done]. destruct (Invite_Validate now a) as [[]|] eqn:E; [|done]. by intros [= <-]. Qed.
Lemma DecodeJoinRequest_ok now s req : DecodeJoinRequest now s = Ok req -> Request_Validate now req = Ok tt.
Proof. unfold DecodeJoinRequest. destruct (decode_token _ _ _); cbn [rbind]; [|done]. destruct (Request_Validate now a) as [[]|] eqn:E; [|done]. by intros [= <-]. Qed.
Lemma DecodeJoinApproval_ok now s a : DecodeJoinApproval now s = Ok a -> Approval_Validate now a = Ok tt.
Proof. unfold DecodeJoinApproval. destruct (decode_token _ _ _) as [b|]; cbn [rbind]; [|done]. destruct (Approval_Validate now b) as [[]|] eqn:E; [|done]. by intros [= <-]. Qed.

Lemma join_statements_ok now persona it jt at_ inv req a : join_statements now persona it jt at_ = Ok (inv, req, a) ->
  Invite_Validate now inv = Ok tt /\ Request_Validate now req = Ok tt /\ Approval_Validate now a = Ok tt
  /\ iv_ID inv = jr_InviteID req /\ iv_Community inv = jr_Community req /\ ja_InviteID a = iv_ID inv /\ ja_Community a = iv_Community inv
  /\ TrimSpace (ja_IssuerPubB64 a) = TrimSpace (iv_IssuerPubB64 inv) /\ TrimSpace (jr_ApplicantPubB64 req) = TrimSpace (pe_SignPubB64 persona).
Proof.
  unfold join_statements. destruct (DecodeInvite now (TrimSpace it)) as [inv'|] eqn:E1; cbn [rbind]; [|done]. destruct (DecodeJoinRequest now (TrimSpace jt)) as [req'|] eqn:E2; cbn [rbind]; [|done].
  destruct (DecodeJoinApproval now (TrimSpace at_)) as [a'|] eqn:E3; cbn [rbind]; [|done].
  destruct (bool_decide _ && bool_decide _) eqn:E4; [|done]. destruct (bool_decide (ja_InviteID a' = _) && _) eqn:E5; [|done].
  destruct (String.eqb_spec (TrimSpace (ja_IssuerPubB64 a')) (TrimSpace (iv_IssuerPubB64 inv'))) as [E6|]; [|done].
  destruct (String.eqb_spec (TrimSpace (jr_ApplicantPubB64 req')) (TrimSpace (pe_SignPubB64 persona))) as [E7|]; [|done]. intros [= <- <- <-].
  apply DecodeInvite_ok in E1. apply DecodeJoinRequest_ok in E2. apply DecodeJoinApproval_ok in E3.
  apply andb_true_iff in E4 as [?%bool_decide_eq_true ?%bool_decide_eq_true]. by apply andb_true_iff in E5 as [?%bool_decide_eq_true ?%bool_decide_eq_true].
Qed.

(** What the statements give the state. *)
Lemma Request_Validate_ok now req : Request_Validate now req = Ok tt -> is_empty (jr_Community req) = false /\ is_blank (jr_ApplicantPubB64 req) = false.
Proof.
  unfold Request_Validate. destruct (_ =? _); [|done]. destruct (is_empty (jr_InviteID req)); [done|]. destruct (is_empty (jr_Community req)); [done|].
  destruct (is_empty (jr_ApplicantPubB64 req)); [done|]. destruct (_ <=? 0); [done|]. destruct (in_window _ _ _); [|done]. destruct (is_empty _ || _); [done|].
  intros H. cbn [negb orb] in H. unfold Request_VerifySignature in H. apply verify_signed_decodes in H as [pub Hpub]. by apply decode_pub_not_blank in Hpub.
Qed.

Lemma Approval_Validate_ok now a : Approval_Validate now a = Ok tt -> one_role (ja_GrantedRole a) = true.
Proof.
  unfold Approval_Validate. destruct (_ =? _); [|done]. destruct (is_empty (ja_InviteID a) || _); [done|]. destruct (is_empty (ja_ApplicantPubB64 a) || _); [done|].
  by destruct (one_role _).
Qed.

(** ** Histories of a service *)

Inductive service_op :=
  | OpCreateCommunity (id role : string) (rnd : option (list Z)) (now : Time)
  | OpCreateInvite (e : token_env) (now : Time) (persona : Persona) (communityID : string) (ttl : Duration) (maxUses : Z)
  | OpApproveJoin (e : token_env) (now : Time) (persona : Persona) (inviteToken joinRequestToken role : string)
  | OpServiceJoin (now : Time) (persona : Persona) (inviteToken joinRequestToken approvalToken : string).

Definition service_step (w : State * F) (o : service_op) : State * F :=
  match o with
  | OpCreateCommunity id role rnd now => (CreateCommunity id role rnd now w.1 w.2).2
  | OpCreateInvite e now persona c ttl maxUses => (CreateInvite e now persona c ttl maxUses w.1 w.2).2
  | OpApproveJoin e now persona it jt role => (Service_ApproveJoin e now persona it jt role w.1 w.2).2
  | OpServiceJoin now persona it jt at_ => (Service_ApplyJoin now persona it jt at_ w.1 w.2).2
  end.

(** The clock is past 1970, the random source fills its buffers, and a persona that invites
    has a private key that belongs to its public key. *)
Definition op_sound (o : service_op) : Prop :=
  match o with
  | OpCreateCommunity _ _ rnd now => 0 < Unix now /\ rnd <> Some []
  | OpCreateInvite e now persona _ _ _ => 0 < Unix now /\ env_ok e /\ forall pub priv, SignKeypair persona = Ok (pub, priv) -> signs pub priv
  | OpApproveJoin _ _ _ _ _ _ => True
  | OpServiceJoin now _ _ _ _ => 0 < Unix now
  end.

Lemma RoleOf_member id s role : RoleOf id s = Some role -> exists c, c ∈ st_Communities s /\ cm_ID c = id /\ cm_Role c = role.
Proof.
  unfold RoleOf. intros ([i c] & Hf & E)%fmap_Some. cbn in E. apply list_find_Some in Hf as (Hl & Hid & _). exists c. split; [by eapply list_elem_of_lookup_2|done].
Qed.

Lemma SignKeypair_pub persona pub priv what : SignKeypair persona = Ok (pub, priv) -> decode_pub (pe_SignPubB64 persona) what = Ok pub.
Proof.
  unfold SignKeypair, sign_keypair, decode_pub. destruct (DecodeString (pe_SignPubB64 persona)) as [b|]; [|done]. destruct (DecodeString _); [|done].
  destruct (blen b =? PublicKeySize); [|done]. destruct (_ =? PrivateKeySize); [|done]. by intros [= -> _].
Qed.

Lemma CreateCommunity_ok id role rnd now s f : 0 < Unix now -> rnd <> Some [] -> state_ok s -> state_ok (CreateCommunity id role rnd now s f).2.1.
Proof.
  intros Hnow Hr Hs. unfold CreateCommunity. set (role' := if is_empty role then _ else _). destruct (one_role role') eqn:Er; [|done]. cbn [negb].
  destruct (if is_blank id then _ else _) as [id'|] eqn:Eid; [|done].
  assert (is_empty id' = false) as Hid.
  { destruct (is_blank id) eqn:Eb; [|injection Eid as <-; by destruct id]. destruct rnd as [b|]; [|done]. injection Eid as <-. apply EncodeToString_nonempty. congruence. }
  destruct (existsb _ _) eqn:Ex; [done|]. rewrite saved_state. apply set_updated_ok. destruct Hs as [H1 [H2 H3] H4 H5]. split; try done. cbn [st_Communities set_communities]. split.
  - apply Forall_app. split; [done|]. constructor; [|done]. by split.
  - rewrite fmap_app. apply NoDup_app. split; [done|]. split; [|apply NoDup_singleton]. intros x (c & -> & Hc)%list_elem_of_fmap Hx%list_elem_of_singleton.
    assert (existsb (fun c => String.eqb (cm_ID c) id') (st_Communities s) = true) as Hy; [|congruence].
    apply existsb_exists. exists c. split; [by apply list_elem_of_In|]. by apply String.eqb_eq.
Qed.

Lemma CreateInvite_ok e now persona c ttl maxUses s f : 0 < Unix now -> env_ok e -> (forall pub priv, SignKeypair persona = Ok (pub, priv) -> signs pub priv) ->
  state_ok s -> state_ok (CreateInvite e now persona c ttl maxUses s f).2.1.
Proof.
  intros Hnow He Hk Hs. unfold CreateInvite. destruct (CanInvite c s); [|done]. cbn [negb]. destruct (SignKeypair persona) as [[pub priv]|] eqn:Esk; [|done].
  destruct (NewInvite _ _ _ _ _ _ _) as [inv|] eqn:En; [|done]. rewrite saved_state. apply set_updated_ok, set_updated_ok.
  pose proof (NewInvite_window _ _ _ _ _ _ _ _ En) as Hw.
  destruct (NewInvite_valid e now now c (pe_SignPubB64 persona) pub priv ttl maxUses inv) as (Hv & _); [done|by eapply SignKeypair_pub|by apply Hk|done..|].
  apply Invite_Validate_ok in Hv as (V1 & V2 & V3 & V4 & _ & V6). destruct Hs as [H1 H2 [H3 H3'] H4]. split; try done. cbn [st_Invites set_invites].
  destruct (upsertStoredInvite_ok (st_Invites s) inv) as [U1 U2]; [done|by split|]. split; [done|]. by eapply keeps_keys_nodup.
Qed.

Lemma Service_ApproveJoin_ok e now persona it jt role s f : state_ok s -> state_ok (Service_ApproveJoin e now persona it jt role s f).2.1.
Proof.
  intros Hs. unfold Service_ApproveJoin. destruct (approve _ _ _ _ _ _ _) as [[inv a]|]; [|done]. rewrite saved_state. apply set_updated_ok, set_updated_ok.
  destruct Hs as [H1 H2 [H3 H3'] H4]. destruct (use_first_ok (iv_ID inv) (st_Invites s) H3) as [U1 U2]. split; try done. cbn [st_Invites set_invites]. split; [done|]. by rewrite U2.
Qed.

Lemma Service_ApplyJoin_ok now persona it jt at_ s f : 0 < Unix now -> state_ok s -> state_ok (Service_ApplyJoin now persona it jt at_ s f).2.1.
Proof.
  intros Hnow Hs. unfold Service_ApplyJoin. destruct (join_statements _ _ _ _ _) as [[[inv req] a]|] eqn:Ej; [|done].
  apply join_statements_ok in Ej as (Hi & Hr & Ha & E1 & E2 & _). destruct Hs as [H1 [H2 H2'] [H3 H3'] H4].
  destruct (use_all_ok (iv_ID inv) (st_Invites s) H3) as [U1 U2]. destruct (use_all _ _) as [ok invites]. cbn [snd] in *. destruct ok; cbn [negb].
  2: { cbn [fst snd]. split; try done. cbn [st_Invites set_invites]. split; [done|]. by rewrite U2. }
  rewrite saved_state. apply set_updated_ok. apply Invite_Validate_ok in Hi as (_ & _ & Hc & _). apply Request_Validate_ok in Hr as [_ Hk]. apply Approval_Validate_ok in Ha.
  destruct (grant_ok (iv_Community inv) (ja_GrantedRole a) now (st_Communities s)) as [G1 G2]; [done|by split|].
  split; cbn [st_SchemaVersion st_Communities st_Invites st_Members set_invites]; [done| |by rewrite U2|].
  - split; [done|]. by eapply keeps_keys_nodup.
  - apply upsertMember_ok; [done|]. split; [done|]. split; [done|]. split; [done|]. cbn. set_solver.
Qed.

Lemma service_run_ok ops w : Forall op_sound ops -> state_ok w.1 -> state_ok (fold_left service_step ops w).1.
Proof.
  intros Hops. revert w. induction Hops as [|o ops Ho Hops IH]; intros w Hw; [done|]. cbn [fold_left]. apply IH.
  destruct o; cbn [service_step op_sound] in *; [apply CreateCommunity_ok|apply CreateInvite_ok|apply Service_ApproveJoin_ok|apply Service_ApplyJoin_ok]; tauto.
Qed.

(** A file gives back what was written. *)
Class FileLaws : Prop := file_read_write : forall s f f', file_write s f = (true, f') -> file_read f' = Some (Some s).

(** C12: The state of a service stays valid: whatever is done after it was loaded, with the clock
    set, random bytes to draw and no invite by a persona whose private key does not belong to its
    public key, what is saved can be loaded again. (An invite by such a persona is one that no
    later save accepts.) *)
Theorem service_state_stays_valid `{!FileLaws} now0 f0 s0 ops t t' s f : NewService now0 f0 = Ok s0 -> Forall op_sound ops ->
  fold_left service_step ops (s0, f0) = (s, f) -> (file_write (set_updated t s) f).1 = true ->
  exists f', Save t s f = (None, set_updated t s, f') /\ NewService t' f' = Ok (set_updated t' s).
Proof.
  intros Hnew Hops Hrun Hwrite. assert (state_ok s0) as H0.
  { unfold NewService in Hnew. destruct (Load now0 f0) as [st|]; cbn [rbind] in Hnew; [|done]. destruct (State_Validate st) as [[]|] eqn:E; [|done].
    injection Hnew as <-. by apply community_state_spec. }
  pose proof (service_run_ok ops (s0, f0) Hops H0) as Hs. rewrite Hrun in Hs. cbn [fst] in Hs.
  destruct (Save_ok t s f Hs) as (f' & -> & Ef). rewrite Hwrite. exists f'. split; [done|].
  assert (file_write (set_updated t s) f = (true, f')) as Hw by (subst f'; destruct (file_write _ f); cbn in *; by subst).
  unfold NewService, Load. rewrite (file_read_write _ _ _ Hw). assert (State_Validate (set_updated t' s) = Ok tt) as Hv by by apply community_state_spec, set_updated_ok.
  change (set_updated t' (set_updated t s)) with (set_updated t' s). by rewrite Hv; cbn [rbind]; rewrite Hv.
Qed.

(** ** From the invite to the member *)

(** A token is read back as what it was made of. *)
Lemma token_reads {A} (prefix : string) (read : list Z -> option A) json x : is_empty prefix = false -> Forall printable (bytes_of prefix) -> bytes_ok json ->
  read json = Some x -> decode_token prefix read (TrimSpace (encode_token prefix json)) = Ok x.
Proof.
  intros Hp Hpr Hj Hr. unfold encode_token. rewrite TrimSpace_printable by (rewrite bytes_of_app; apply Forall_app; split; [done|by apply EncodeToString_printable]).
  unfold decode_token. rewrite HasPrefix_app, TrimPrefix_app, DecodeString_EncodeToString, Hr by done.
  replace (is_empty (prefix ++ _)%string) with false by (by destruct prefix). unfold slen. rewrite bytes_of_app, blen_app.
  rewrite (proj2 (Z.ltb_ge _ _)); [done|]. pose proof (blen_nonneg (bytes_of (EncodeToString json))). lia.
Qed.

Ltac token_ok := apply token_reads; [done|by decided|apply json_object_ok; repeat (apply Forall_cons_2; [cbn [snd]; auto with sl|]); constructor|done].

Lemma Invite_token now inv : read_invite (json_invite inv) = Some inv -> Invite_Validate now inv = Ok tt -> DecodeInvite now (TrimSpace (Invite_Encode inv)) = Ok inv.
Proof.
  intros Hr Hv. unfold DecodeInvite, Invite_Encode. assert (decode_token "sn4inv:" read_invite (TrimSpace (encode_token "sn4inv:" (json_invite inv))) = Ok inv) as ->; [|cbn [rbind]; by rewrite Hv].
  unfold json_invite, invite_fields, omit_zero in *. destruct (iv_MaxUses inv =? 0); token_ok.
Qed.
Lemma Request_token now req : read_request (json_request req) = Some req -> Request_Validate now req = Ok tt -> DecodeJoinRequest now (TrimSpace (Request_Encode req)) = Ok req.
Proof.
  intros Hr Hv. unfold DecodeJoinRequest, Request_Encode. assert (decode_token "sn4jr:" read_request (TrimSpace (encode_token "sn4jr:" (json_request req))) = Ok req) as ->; [|cbn [rbind]; by rewrite Hv].
  unfold json_request, request_fields in *. token_ok.
Qed.
Lemma Approval_token now a : read_approval (json_approval a) = Some a -> Approval_Validate now a = Ok tt -> DecodeJoinApproval now (TrimSpace (Approval_Encode a)) = Ok a.
Proof.
  intros Hr Hv. unfold DecodeJoinApproval, Approval_Encode. assert (decode_token "sn4ja:" read_approval (TrimSpace (encode_token "sn4ja:" (json_approval a))) = Ok a) as ->; [|cbn [rbind]; by rewrite Hv].
  unfold json_approval, approval_fields in *. token_ok.
Qed.

Lemma grant_role id role now l : exists c, snd <$> list_find (fun c => cm_ID c = id) (grant id role now l) = Some c /\ cm_Role c = role.
Proof.
  induction l as [|c l (c' & IH & Hr)]; cbn [grant]; [exists (mkCommunity id (Unix now) role); split; [|done]; cbn [list_find]; by rewrite decide_True|].
  destruct (String.eqb_spec (cm_ID c) id) as [E|E]; cbn [list_find].
  - eexists. rewrite decide_True by done. by split.
  - exists c'. rewrite decide_False by done. split; [|done]. by destruct (list_find _ (grant id role now l)) as [[j x]|].
Qed.

Lemma upsertMember_in l m : m ∈ upsertMember l m.
Proof. induction l as [|x l IH]; cbn [upsertMember]; [by left|]. destruct (_ && _); [by left|by right]. Qed.

(** Whoever is invited, asks and is approved joins: with key pairs that sign, and the
    decoder reading back the three tokens, the invite leads to the request and the approval,
    and applying the three makes the applicant an active member with the role granted, which
    is then the applicant's role in the community. *)
Theorem invited_user_joins e1 e2 e3 now issuer applicant ipub ipriv apub apriv c ttl maxUses role inv req a s_issuer s f :
  env_ok e1 -> env_ok e2 -> env_ok e3 -> 0 < Unix now -> is_i64 (Unix now + 30 * 24 * 3600) ->
  SignKeypair issuer = Ok (ipub, ipriv) -> signs ipub ipriv -> SignKeypair applicant = Ok (apub, apriv) -> signs apub apriv ->
  NewInvite e1 now c (pe_SignPubB64 issuer) ipriv ttl maxUses = Ok inv -> read_invite (json_invite inv) = Some inv ->
  NewJoinRequest e2 now now inv (pe_SignPubB64 applicant) apriv = Ok req -> read_request (json_request req) = Some req ->
  ApproveJoin e3 now now now inv req (pe_SignPubB64 issuer) ipriv role = Ok a -> read_approval (json_approval a) = Some a ->
  CanInvite c s_issuer = true -> match findStoredInvite (st_Invites s_issuer) (iv_ID inv) with Some si => used_up si | None => false end = false ->
  state_ok s -> (use_all (iv_ID inv) (st_Invites s)).1 = true -> (forall st, (file_write st f).1 = true) ->
  CreateJoinRequest e2 now applicant (Invite_Encode inv) = Ok (Request_Encode req)
  /\ approve e3 now issuer (Invite_Encode inv) (Request_Encode req) role s_issuer = Ok (inv, a)
  /\ exists m s' f', Service_ApplyJoin now applicant (Invite_Encode inv) (Request_Encode req) (Approval_Encode a) s f = (Ok m, (s', f'))
     /\ m ∈ st_Members s' /\ mb_MemberPubB64 m = pe_SignPubB64 applicant /\ mb_Role m = role /\ mb_Status m = MemberActive /\ RoleOf c s' = Some role.
Proof.
  intros He1 He2 He3 Hnow Hi64 Hki Hsi Hka Hsa Hinv Hri Hreq Hrr Happ Hra Hcan Hfree Hs Huse Hwrite.
  pose proof (NewInvite_window _ _ _ _ _ _ _ _ Hinv) as Hw.
  destruct (NewInvite_valid e1 now now c (pe_SignPubB64 issuer) ipub ipriv ttl maxUses inv) as (Hiv & Eic & Eii & _); [done|by eapply SignKeypair_pub|done..|].
  assert (is_i64 (Unix now + 7 * 24 * 3600)) as Hi7 by (unfold_ints; lia).
  destruct (NewJoinRequest_valid e2 now now now inv (pe_SignPubB64 applicant) apub apriv req) as (Hrv & Er1 & Er2 & Er3); [done|by eapply SignKeypair_pub|done|done|done|lia|lia|done|].
  destruct (ApproveJoin_valid e3 now now now now inv req (pe_SignPubB64 issuer) ipub ipriv role a) as (Hav & E1 & E2 & E3 & E4 & E5 & E6 & E7 & E8);
    [done|by eapply SignKeypair_pub|done|done|done|lia|lia|done|].
  pose proof (Invite_token now inv Hri Hiv) as Ti. pose proof (Request_token now req Hrr Hrv) as Tr. pose proof (Approval_token now a Hra Hav) as Ta.
  split. { unfold CreateJoinRequest. rewrite Ti. cbn [rbind]. rewrite Hka. cbn [rbind snd]. by rewrite Hreq. }
  split. { unfold approve. rewrite Ti. cbn [rbind]. rewrite Eic, Hcan, Eii, String.eqb_refl, Tr. cbn [rbind]. rewrite Hki. cbn [rbind snd]. rewrite Hfree. cbn [negb]. by rewrite Happ. }
  assert (join_statements now applicant (Invite_Encode inv) (Request_Encode req) (Approval_Encode a) = Ok (inv, req, a)) as Hj.
  { unfold join_statements. rewrite Ti, Tr, Ta. cbn [rbind]. rewrite !bool_decide_eq_true_2 by congruence. cbn [andb]. by rewrite E7, Eii, Er3, !String.eqb_refl. }
  unfold Service_ApplyJoin. rewrite Hj. destruct (use_all _ _) as [ok invites] eqn:Eu. cbn [fst] in Huse. subst ok. cbn [negb].
  set (m := mkMember _ _ _ _ _ _ _). set (s1 := mkState _ _ _ _ _).
  assert (state_ok s1) as Hs1.
  { pose proof (Service_ApplyJoin_ok now applicant (Invite_Encode inv) (Request_Encode req) (Approval_Encode a) s f Hnow Hs) as Hok.
    unfold Service_ApplyJoin in Hok. rewrite Hj, Eu in Hok. cbn [negb] in Hok. rewrite saved_state in Hok. by apply set_updated_ok in Hok. }
  unfold saved. destruct (Save_ok now s1 f Hs1) as (f' & -> & _). rewrite Hwrite. exists m, (set_updated now s1), f'. split; [done|].
  split; [apply upsertMember_in|]. split; [done|]. split; [done|]. split; [done|]. unfold RoleOf. subst s1. cbn [st_Communities set_updated set_invites].
  rewrite Eic, E6. destruct (grant_role c role now (st_Communities s)) as (c' & Hf & Hr).
  destruct (list_find _ _) as [[j x]|]; [|done]. cbn in Hf. injection Hf as ->. cbn. by rewrite Hr.
Qed.
End spec.
