(* ===== verification/DeviceLink.v ===== *)
(** * Contact offers and the linking of devices ([pkg/identity]: offer.go, device.go, device_link.go)

    What a persona signs: offers, certificates of its devices, and the sealed bundle by which
    a new device takes the persona over.  Ed25519, age and the decoding of JSON are
    parameters; nil arguments, which every function refuses, are left out. *)

From S2P Require Import Prelude Float64 Sha256 GoStr Persona Bundle.

#[local] Open Scope string_scope.
#[local] Open Scope list_scope.
#[local] Open Scope Z_scope.

Definition maxDeviceLinkEncodedLen : Z := 64 * 1024.
Definition maxDeviceLinkRawLen : Z := 64 * 1024.
Definition maxDeviceLinkLifetimeSec : Z := 10 * 60.
Definition OfferV1 : Z := 1.
Definition OfferV2 : Z := 2.

Record DeviceCert := mkCert {
  dc_PersonaID : string;
  dc_DeviceID : string;
  dc_DevicePubB64 : string;
  dc_IssuedAt : Z;
  dc_NonceB64 : string;
  dc_SigB64 : string;
}.

Record ContactOffer := mkOffer {
  co_Version : Z;
  co_OfferID : string;
  co_CreatedAt : Z;
  co_ExpiresAt : Z;
  co_PersonaID : string;
  co_PersonaPub : string;
  co_PreKeyPub : string;
  co_Mailbox : string;
  co_RelayHints : list string;
  co_NonceB64 : string;
  co_SignatureB64 : string;
}.

Record DeviceJoinRequest := mkDeviceRequest {
  dj_Schema : Z;
  dj_PersonaID : string;
  dj_DeviceID : string;
  dj_DevicePubB64 : string;
  dj_AgeRecipient : string;
  dj_CreatedAt : Z;
  dj_ExpiresAt : Z;
  dj_NonceB64 : string;
}.

Record DeviceJoinPackage := mkPackage {
  dp_PersonaID : string;
  dp_DeviceID : string;
  dp_Trust : string;
  dp_DevicePubB64 : string;
  dp_Cert : DeviceCert;
  dp_IssuedAt : Z;
}.

Record DeviceLinkBundle := mkLinkBundle {
  lb_Schema : Z;
  lb_Persona : Persona;
  lb_JoinPackage : DeviceJoinPackage;
  lb_CreatedAt : Z;
  lb_ExpiresAt : Z;
  lb_NonceB64 : string;
}.

Record DeviceLinkEnvelope := mkEnvelope {
  le_Schema : Z;
  le_Cipher : string;
  le_SenderPubB64 : string;
  le_RecipientKeyID : string;
  le_CreatedAt : Z;
  le_ExpiresAt : Z;
  le_NonceB64 : string;
  le_CiphertextB64 : string;
  le_SigB64 : string;
}.

(** ** Encodings *)

Definition cert_fields (c : DeviceCert) : list (string * list Z) :=
  [("persona_id", json_string (dc_PersonaID c)); ("device_id", json_string (dc_DeviceID c)); ("device_pub_b64url", json_string (dc_DevicePubB64 c));
   ("issued_at", json_int (dc_IssuedAt c)); ("nonce_b64url", json_string (dc_NonceB64 c))].
Definition cert_signable (c : DeviceCert) : list Z := json_object (cert_fields c).
Definition json_cert (c : DeviceCert) : list Z := json_object (cert_fields c ++ [("sig_b64url", json_string (dc_SigB64 c))]).

Definition offer_fields (o : ContactOffer) : list (string * list Z) :=
  [("v", json_int (co_Version o)); ("id", json_string (co_OfferID o)); ("created_at", json_int (co_CreatedAt o)); ("expires_at", json_int (co_ExpiresAt o));
   ("persona_id", json_string (co_PersonaID o)); ("persona_pub_b64url", json_string (co_PersonaPub o)); ("prekey_pub_b64url", json_string (co_PreKeyPub o))]
  ++ omit_empty "mailbox" (co_Mailbox o)
  ++ (match co_RelayHints o with [] => [] | hints => [("relay_hints", json_strings (Some hints))] end)
  ++ [("nonce_b64url", json_string (co_NonceB64 o))].
Definition offer_signable (o : ContactOffer) : list Z := json_object (offer_fields o).
Definition json_offer (o : ContactOffer) : list Z := json_object (offer_fields o ++ [("sig_b64url", json_string (co_SignatureB64 o))]).

Definition json_device_request (r : DeviceJoinRequest) : list Z :=
  json_object ([("schema", json_int (dj_Schema r)); ("persona_id", json_string (dj_PersonaID r)); ("device_id", json_string (dj_DeviceID r));
                ("device_pub_b64url", json_string (dj_DevicePubB64 r))] ++ omit_empty "age_recipient" (dj_AgeRecipient r)
               ++ [("created_at", json_int (dj_CreatedAt r)); ("expires_at", json_int (dj_ExpiresAt r)); ("nonce_b64url", json_string (dj_NonceB64 r))]).

Definition json_persona (p : Persona) : list Z :=
  json_object ([("id", json_string (pe_ID p)); ("created_at", json_int (pe_CreatedAt p))] ++ omit_zero "rotated_at" (pe_RotatedAt p)
               ++ [("sign_pub_b64url", json_string (pe_SignPubB64 p)); ("sign_priv_b64url", json_string (pe_SignPrivB64 p))]).

(** The certificate has no tag. *)
Definition json_package (p : DeviceJoinPackage) : list Z :=
  json_object [("persona_id", json_string (dp_PersonaID p)); ("device_id", json_string (dp_DeviceID p)); ("trust", json_string (dp_Trust p));
               ("device_pub_b64url", json_string (dp_DevicePubB64 p)); ("Cert", json_cert (dp_Cert p)); ("issued_at", json_int (dp_IssuedAt p))].

Definition json_link_bundle (b : DeviceLinkBundle) : list Z :=
  json_object [("schema", json_int (lb_Schema b)); ("persona", json_persona (lb_Persona b)); ("join_package", json_package (lb_JoinPackage b));
               ("created_at", json_int (lb_CreatedAt b)); ("expires_at", json_int (lb_ExpiresAt b)); ("nonce_b64url", json_string (lb_NonceB64 b))].

Definition json_envelope (e : DeviceLinkEnvelope) : list Z :=
  json_object [("schema", json_int (le_Schema e)); ("cipher", json_string (le_Cipher e)); ("sender_pub_b64url", json_string (le_SenderPubB64 e));
               ("recipient_key_id", json_string (le_RecipientKeyID e)); ("created_at", json_int (le_CreatedAt e)); ("expires_at", json_int (le_ExpiresAt e));
               ("nonce_b64url", json_string (le_NonceB64 e)); ("ciphertext_b64url", json_string (le_CiphertextB64 e)); ("sig_b64url", json_string (le_SigB64 e))].

(** What [json.Unmarshal] reads; [read_cipher] is the probe for the field cipher alone. *)
Class LinkJSON := {
  read_offer : list Z -> option ContactOffer;
  read_device_request : list Z -> option DeviceJoinRequest;
  read_package : list Z -> option DeviceJoinPackage;
  read_link_bundle : list Z -> option DeviceLinkBundle;
  read_envelope : list Z -> option DeviceLinkEnvelope;
  read_cipher : list Z -> option string;
}.

(** [age.ParseX25519Identity] *)
Class AgeIdentity := parse_identity : string -> option (list Z).

Local Open Scope res_scope.

(** The bytes of a token: the prefix, then base64, within the limits. *)
Definition decode_raw (prefix s : string) (limited : bool) : res string (list Z) :=
  require! negb (is_empty s) else "identity: string is empty";
  require! negb ((slen s <? slen prefix) || negb (HasPrefix s prefix)) else "identity: invalid prefix";
  require! negb (limited && (maxDeviceLinkEncodedLen <? slen s)) else "identity: too large";
  match DecodeString (TrimPrefix s prefix) with
  | None => Err "identity: decode"
  | Some raw =>
      require! negb (limited && (maxDeviceLinkRawLen <? blen raw)) else "identity: too large";
      Ok raw
  end.

Definition parse {A} (read : list Z -> option A) (raw : list Z) : res string A :=
  match read raw with Some x => Ok x | None => Err "identity: parse" end.

Definition encode_token (prefix : string) (json : list Z) : string := (prefix ++ EncodeToString json)%string.

(** Random bytes: 24 for a nonce, 12 or 16 for an identifier. *)
Definition random_b64 (rnd : option (list Z)) : res string string :=
  match rnd with Some b => Ok (EncodeToString b) | None => Err "random source" end.

Section links.
Context `{ED : Ed25519, LJ : LinkJSON, AG : Age, AI : AgeIdentity}.

(** ** Device certificates *)

Definition with_cert_sig (sig : string) (c : DeviceCert) : DeviceCert :=
  mkCert (dc_PersonaID c) (dc_DeviceID c) (dc_DevicePubB64 c) (dc_IssuedAt c) (dc_NonceB64 c) sig.

Definition IssueDeviceCert (nonce : option (list Z)) (now : Time) (persona : Persona) (deviceID devicePubB64 : string) : res string DeviceCert :=
  require! negb (is_blank deviceID) else "identity: device_id required";
  require! negb (is_empty devicePubB64) else "identity: device_pub_b64url required";
  keys <-! SignKeypair persona;
  _ <-! decode_sized devicePubB64 PublicKeySize "device pub";
  nonce <-! random_b64 nonce;
  let c := mkCert (pe_ID persona) (TrimSpace deviceID) devicePubB64 (Unix now) nonce EmptyString in
  Ok (with_cert_sig (EncodeToString (ed_sign keys.2 (cert_signable c))) c).

Definition VerifyDeviceCert (personaPubB64 : string) (c : DeviceCert) : res string unit :=
  require! negb (is_blank personaPubB64) else "identity: persona pub required";
  pub <-! decode_sized personaPubB64 PublicKeySize "persona pub";
  require! negb (is_empty (dc_PersonaID c) || is_blank (dc_DeviceID c) || is_empty (dc_DevicePubB64 c) || is_empty (dc_NonceB64 c) || is_empty (dc_SigB64 c)
                 || (dc_IssuedAt c <=? 0)) else "identity: malformed cert";
  sig <-! decode_sized (dc_SigB64 c) SignatureSize "sig";
  require! ed_verify pub (cert_signable c) sig else "identity: invalid device cert signature";
  Ok tt.

(** ** Contact offers *)

Definition with_offer_sig (sig : string) (o : ContactOffer) : ContactOffer :=
  mkOffer (co_Version o) (co_OfferID o) (co_CreatedAt o) (co_ExpiresAt o) (co_PersonaID o) (co_PersonaPub o) (co_PreKeyPub o) (co_Mailbox o) (co_RelayHints o)
    (co_NonceB64 o) sig.

Definition newContactOffer (id nonce : option (list Z)) (now : Time) (p : Persona) (preKeyPubB64 mailbox : string) (relayHints : list string) (ttl : Duration)
    (version : Z) : res string ContactOffer :=
  let ttl := if ttl <=? 0 then 10 * Minute else ttl in
  keys <-! SignKeypair p;
  require! negb (is_empty preKeyPubB64) else "identity: missing prekey_pub_b64url";
  _ <-! decode_sized preKeyPubB64 32 "prekey_pub";
  require! negb ((version =? OfferV2) && is_empty mailbox) else "identity: missing mailbox";
  id <-! random_b64 id;
  nonce <-! random_b64 nonce;
  let o := mkOffer version id (Unix now) (Unix (TimeAdd now ttl)) (pe_ID p) (pe_SignPubB64 p) preKeyPubB64 mailbox relayHints nonce EmptyString in
  Ok (with_offer_sig (EncodeToString (ed_sign keys.2 (offer_signable o))) o).

Definition NewContactOffer (id nonce : option (list Z)) (now : Time) (p : Persona) (preKeyPubB64 : string) (relayHints : list string) (ttl : Duration) : res string ContactOffer :=
  newContactOffer id nonce now p preKeyPubB64 EmptyString relayHints ttl OfferV1.
Definition NewContactOfferV2 (id nonce : option (list Z)) (now : Time) (p : Persona) (preKeyPubB64 mailbox : string) (relayHints : list string) (ttl : Duration)
    : res string ContactOffer :=
  newContactOffer id nonce now p preKeyPubB64 mailbox relayHints ttl OfferV2.

Definition Offer_Validate (now : Time) (o : ContactOffer) : res string unit :=
  require! (co_Version o =? OfferV1) || (co_Version o =? OfferV2) else "identity: unsupported offer version";
  require! negb (is_empty (co_OfferID o)) else "identity: offer id required";
  require! negb (is_empty (co_PersonaID o)) else "identity: persona_id required";
  require! negb ((co_CreatedAt o <=? 0) || (co_ExpiresAt o <=? 0)) else "identity: created_at/expires_at required";
  require! negb (co_ExpiresAt o <? Unix now) else "identity: offer expired";
  require! negb (is_empty (co_PersonaPub o) || is_empty (co_PreKeyPub o) || is_empty (co_NonceB64 o) || is_empty (co_SignatureB64 o)) else "identity: missing required offer fields";
  require! negb ((co_Version o =? OfferV2) && is_empty (co_Mailbox o)) else "identity: mailbox required";
  pub <-! decode_sized (co_PersonaPub o) PublicKeySize "persona_pub";
  _ <-! decode_sized (co_PreKeyPub o) 32 "prekey_pub";
  sig <-! decode_sized (co_SignatureB64 o) SignatureSize "signature";
  require! ed_verify pub (offer_signable o) sig else "identity: invalid offer signature";
  Ok tt.

Definition Offer_Encode (o : ContactOffer) : string := encode_token "sn4:" (json_offer o).

Definition DecodeContactOffer (now : Time) (s : string) : res string ContactOffer :=
  raw <-! decode_raw "sn4:" s false;
  o <-! parse read_offer raw;
  _ <-! Offer_Validate now o;
  Ok o.

(** ** Requests of devices *)

Definition NewDeviceJoinRequestForDevice (nonce : option (list Z)) (now : Time) (personaID deviceID devicePubB64 ageRecipient : string) : res string DeviceJoinRequest :=
  require! negb (is_empty personaID) else "identity: persona_id required";
  let deviceID := TrimSpace deviceID in
  require! negb (is_empty deviceID) else "identity: device_id required";
  require! negb (is_empty devicePubB64) else "identity: device_pub_b64url required";
  _ <-! decode_sized devicePubB64 PublicKeySize "device pub";
  let ageRecipient := TrimSpace ageRecipient in
  require! is_empty ageRecipient || age_parse ageRecipient else "identity: invalid age recipient";
  nonce <-! random_b64 nonce;
  Ok (mkDeviceRequest SchemaV1 personaID deviceID devicePubB64 ageRecipient (Unix now) (Unix (TimeAdd now (10 * Minute))) nonce).

Definition NewDeviceJoinRequest (id nonce : option (list Z)) (now : Time) (personaID devicePubB64 : string) : res string DeviceJoinRequest :=
  id <-! random_b64 id;
  NewDeviceJoinRequestForDevice nonce now personaID id devicePubB64 EmptyString.

Definition DeviceRequest_Validate (now : Time) (r : DeviceJoinRequest) : res string unit :=
  require! dj_Schema r =? SchemaV1 else "identity: unsupported schema";
  require! negb (is_empty (dj_PersonaID r)) else "identity: persona_id required";
  require! negb (is_empty (dj_DeviceID r)) else "identity: device_id required";
  require! negb ((dj_CreatedAt r <=? 0) || (dj_ExpiresAt r <=? 0)) else "identity: created_at/expires_at required";
  require! negb (dj_ExpiresAt r <? dj_CreatedAt r) else "identity: expires_at before created_at";
  require! negb (dj_ExpiresAt r <? Unix now) else "identity: join request expired";
  require! negb (is_empty (dj_NonceB64 r)) else "identity: nonce required";
  _ <-! decode_sized (dj_DevicePubB64 r) PublicKeySize "device pub";
  require! is_blank (dj_AgeRecipient r) || age_parse (TrimSpace (dj_AgeRecipient r)) else "identity: invalid age recipient";
  Ok tt.

Definition DeviceRequest_Encode (r : DeviceJoinRequest) : string := encode_token "sn4dj:" (json_device_request r).

Definition DecodeDeviceJoinRequest (now : Time) (s : string) : res string DeviceJoinRequest :=
  raw <-! decode_raw "sn4dj:" s true;
  r <-! parse read_device_request raw;
  _ <-! DeviceRequest_Validate now r;
  Ok r.

(** ** Join packages *)

(** [t] and [now] are the readings of the clock, for the check and for the certificate. *)
Definition ApproveDeviceJoinRequest (nonce : option (list Z)) (t now : Time) (persona : Persona) (r : DeviceJoinRequest) : res string DeviceJoinPackage :=
  require! bool_decide (dj_PersonaID r = pe_ID persona) else "identity: persona mismatch";
  _ <-! DeviceRequest_Validate t r;
  cert <-! IssueDeviceCert nonce now persona (dj_DeviceID r) (dj_DevicePubB64 r);
  Ok (mkPackage (dj_PersonaID r) (dj_DeviceID r) DeviceTrusted (dj_DevicePubB64 r) cert (dc_IssuedAt cert)).

Definition Package_Validate (personaPubB64 : string) (p : DeviceJoinPackage) : res string unit :=
  require! negb (is_empty (dp_PersonaID p) || is_empty (dp_DeviceID p) || is_empty (dp_DevicePubB64 p) || (dp_IssuedAt p <=? 0)) else "identity: malformed join package";
  require! bool_decide (dp_Trust p = DeviceTrusted) else "identity: unexpected trust in join package";
  VerifyDeviceCert personaPubB64 (dp_Cert p).

Definition Package_Encode (p : DeviceJoinPackage) : string := encode_token "sn4dp:" (json_package p).

Definition DecodeDeviceJoinPackage (s : string) : res string DeviceJoinPackage :=
  raw <-! decode_raw "sn4dp:" s true;
  parse read_package raw.

(** The device of the package is trusted, known or not. *)
Fixpoint upsert_device (now : Time) (p : DeviceJoinPackage) (l : list Device) : list Device :=
  match l with
  | [] => [mkDevice (dp_PersonaID p) (dp_DeviceID p) (Unix now) 0 DeviceTrusted "linked-device" (dp_DevicePubB64 p) EmptyString]
  | d :: l' =>
      if bool_decide (de_PersonaID d = dp_PersonaID p) && bool_decide (de_DeviceID d = dp_DeviceID p)
      then mkDevice (de_PersonaID d) (de_DeviceID d) (de_CreatedAt d) 0 DeviceTrusted (de_Label d) (dp_DevicePubB64 p) (de_SignPrivB64 d) :: l'
      else d :: upsert_device now p l'
  end.

Definition UpsertDeviceFromJoinPackage (now : Time) (personaPubB64 : string) (p : DeviceJoinPackage) (s : State) : res string unit * State :=
  match Package_Validate personaPubB64 p with
  | Err e => (Err e, s)
  | Ok _ => (Ok tt, mkState (st_SchemaVersion s) (Unix now) (st_Personas s) (st_PreKeys s) (upsert_device now p (st_Devices s)) (st_Mailboxes s))
  end.

(** ** Link bundles *)

(** [t] and [now] are the readings of the clock. *)
Definition NewDeviceLinkBundle (t now : Time) (persona : Persona) (r : DeviceJoinRequest) (p : DeviceJoinPackage) : res string DeviceLinkBundle :=
  _ <-! Persona_Validate persona;
  _ <-! DeviceRequest_Validate t r;
  require! bool_decide (dp_PersonaID p = pe_ID persona) && bool_decide (dp_DeviceID p = dj_DeviceID r) else "identity: link bundle mismatch";
  Ok (mkLinkBundle SchemaV1 persona p (Unix now) (Z.min (dj_ExpiresAt r) (Unix now + 10 * 60)) (dj_NonceB64 r)).

Definition LinkBundle_Validate (now : Time) (b : DeviceLinkBundle) : res string unit :=
  require! lb_Schema b =? SchemaV1 else "identity: unsupported link bundle schema";
  require! negb ((lb_CreatedAt b <=? 0) || (lb_ExpiresAt b <=? 0) || (lb_ExpiresAt b <? lb_CreatedAt b)) else "identity: invalid link bundle timestamps";
  require! negb (maxDeviceLinkLifetimeSec <? lb_ExpiresAt b - lb_CreatedAt b) else "identity: link bundle lifetime too long";
  require! negb (lb_ExpiresAt b <? Unix now) else "identity: link bundle expired";
  require! negb (is_blank (lb_NonceB64 b)) else "identity: link bundle nonce required";
  _ <-! Persona_Validate (lb_Persona b);
  require! bool_decide (dp_PersonaID (lb_JoinPackage b) = pe_ID (lb_Persona b)) else "identity: link bundle persona mismatch";
  Package_Validate (pe_SignPubB64 (lb_Persona b)) (lb_JoinPackage b).

Definition LinkBundle_Encode (b : DeviceLinkBundle) : string := encode_token "sn4dl:" (json_link_bundle b).

Definition DecodeDeviceLinkBundle (now : Time) (s : string) : res string DeviceLinkBundle :=
  raw <-! decode_raw "sn4dl:" s true;
  b <-! parse read_link_bundle raw;
  _ <-! LinkBundle_Validate now b;
  Ok b.

(** ** Envelopes *)

Definition Envelope_Validate (now : Time) (e : DeviceLinkEnvelope) : res string unit :=
  require! le_Schema e =? SchemaV1 else "identity: unsupported link envelope schema";
  require! bool_decide (le_Cipher e = "age-x25519") else "identity: unsupported link envelope cipher";
  require! negb (is_blank (le_SenderPubB64 e)) else "identity: sender_pub_b64url required";
  require! negb (is_blank (le_RecipientKeyID e)) else "identity: recipient_key_id required";
  require! negb ((le_CreatedAt e <=? 0) || (le_ExpiresAt e <=? 0) || (le_ExpiresAt e <? le_CreatedAt e)) else "identity: invalid link envelope timestamps";
  require! negb (maxDeviceLinkLifetimeSec <? le_ExpiresAt e - le_CreatedAt e) else "identity: link envelope lifetime too long";
  require! negb (le_ExpiresAt e <? Unix now) else "identity: link envelope expired";
  require! negb (is_blank (le_NonceB64 e)) else "identity: nonce required";
  require! negb (is_blank (le_CiphertextB64 e)) else "identity: ciphertext required";
  require! negb (is_blank (le_SigB64 e)) else "identity: signature required";
  Ok tt.

Definition Envelope_Encode (e : DeviceLinkEnvelope) : string := encode_token "sn4dl:" (json_envelope e).

Definition DecodeDeviceLinkEnvelope (now : Time) (s : string) : res string DeviceLinkEnvelope :=
  raw <-! decode_raw "sn4dl:" s true;
  e <-! parse read_envelope raw;
  require! negb (is_empty (le_Cipher e)) else "identity: not a link envelope";
  _ <-! Envelope_Validate now e;
  Ok e.

Definition with_envelope_sig (sig : string) (e : DeviceLinkEnvelope) : DeviceLinkEnvelope :=
  mkEnvelope (le_Schema e) (le_Cipher e) (le_SenderPubB64 e) (le_RecipientKeyID e) (le_CreatedAt e) (le_ExpiresAt e) (le_NonceB64 e) (le_CiphertextB64 e) sig.

(** The envelope without its signature, and the ciphertext behind it. *)
Definition envelope_signable (e : DeviceLinkEnvelope) (ciphertext : list Z) : list Z := json_envelope (with_envelope_sig EmptyString e) ++ ciphertext.

Definition EncryptDeviceLinkBundle (rnd : list Z) (now : Time) (persona : Persona) (recipient : string) (b : DeviceLinkBundle) : res string string :=
  let recipient := TrimSpace recipient in
  require! negb (is_empty recipient) else "identity: recipient required";
  _ <-! LinkBundle_Validate now b;
  require! bool_decide (pe_ID (lb_Persona b) = pe_ID persona) else "identity: bundle persona mismatch";
  require! age_parse recipient else "identity: parse age recipient";
  match age_encrypt recipient rnd (json_link_bundle b) with
  | None => Err "identity: age encrypt"
  | Some ciphertext =>
      let e := mkEnvelope SchemaV1 "age-x25519" (pe_SignPubB64 persona) ("age-x25519:" ++ fingerprint16 recipient)%string (lb_CreatedAt b) (lb_ExpiresAt b) (lb_NonceB64 b)
                 (EncodeToString ciphertext) EmptyString in
      keys <-! SignKeypair persona;
      Ok (Envelope_Encode (with_envelope_sig (EncodeToString (ed_sign keys.2 (envelope_signable e ciphertext))) e))
  end.

Definition decode_field (s what : string) : res string (list Z) :=
  match DecodeString s with Some b => Ok b | None => Err ("identity: decode " ++ what)%string end.

(** The part of [DecryptDeviceLink] behind the decoded envelope. *)
Definition open_envelope (now : Time) (e : DeviceLinkEnvelope) (ageIdentity : string) : res string DeviceLinkBundle :=
  _ <-! Envelope_Validate now e;
  ciphertext <-! decode_field (le_CiphertextB64 e) "ciphertext";
  sig <-! decode_field (le_SigB64 e) "signature";
  pub <-! decode_sized (le_SenderPubB64 e) PublicKeySize "sender pub";
  require! ed_verify pub (envelope_signable e ciphertext) sig else "identity: invalid link envelope signature";
  let ageIdentity := TrimSpace ageIdentity in
  require! negb (is_empty ageIdentity) else "identity: age identity required";
  match parse_identity ageIdentity with
  | None => Err "identity: parse age identity"
  | Some id =>
      match age_decrypt id ciphertext with
      | None => Err "identity: age decrypt"
      | Some plaintext =>
          b <-! parse read_link_bundle plaintext;
          _ <-! LinkBundle_Validate now b;
          require! bool_decide (pe_SignPubB64 (lb_Persona b) = le_SenderPubB64 e) else "identity: sender mismatch";
          require! (lb_CreatedAt b =? le_CreatedAt e) && (lb_ExpiresAt b =? le_ExpiresAt e) else "identity: timestamp mismatch";
          require! bool_decide (lb_NonceB64 b = le_NonceB64 e) else "identity: nonce mismatch";
          Ok b
      end
  end.

(** A link that names no cipher is a bundle in the clear. *)
Definition DecryptDeviceLink (now : Time) (s ageIdentity : string) : res string DeviceLinkBundle :=
  raw <-! decode_raw "sn4dl:" s true;
  cipher <-! parse read_cipher raw;
  if is_blank cipher then DecodeDeviceLinkBundle now s
  else
    e <-! DecodeDeviceLinkEnvelope now s;
    open_envelope now e ageIdentity.

(** ** Short authentication strings *)

(** Four decimal digits, with zeros in front. *)
Definition pad4 (v : Z) : list Z := [48 + v / 1000 mod 10; 48 + v / 100 mod 10; 48 + v / 10 mod 10; 48 + v mod 10].

Definition formatSAS (sum : list Z) : string :=
  if blen sum <? 8 then EmptyString
  else
    let v := be_get (take 8 sum) mod 1000000000000 in
    str_of (pad4 (v / 100000000) ++ [45] ++ pad4 (v / 10000 mod 10000) ++ [45] ++ pad4 (v mod 10000)).

Definition sasFromEnvelope (now : Time) (e : DeviceLinkEnvelope) : res string string :=
  _ <-! Envelope_Validate now e;
  pub <-! decode_field (le_SenderPubB64 e) "sender pub";
  nonce <-! decode_field (le_NonceB64 e) "nonce";
  ct <-! decode_field (le_CiphertextB64 e) "ciphertext";
  Ok (formatSAS (Sum256 (bytes_of "sn4dl-sas-v1" ++ pub ++ bytes_of (le_RecipientKeyID e) ++ nonce ++ Sum256 ct))).

Definition sasFromBundle (now : Time) (b : DeviceLinkBundle) : res string string :=
  _ <-! LinkBundle_Validate now b;
  pub <-! decode_field (pe_SignPubB64 (lb_Persona b)) "persona pub";
  nonce <-! decode_field (lb_NonceB64 b) "nonce";
  Ok (formatSAS (Sum256 (bytes_of "sn4dl-sas-v1" ++ pub ++ bytes_of (dp_DeviceID (lb_JoinPackage b)) ++ nonce))).

Definition DeviceLinkSAS (now : Time) (s : string) : res string string :=
  require! negb (is_empty s) else "identity: link string is empty";
  match DecodeDeviceLinkEnvelope now s with
  | Ok e => sasFromEnvelope now e
  | Err er => match DecodeDeviceLinkBundle now s with Ok b => sasFromBundle now b | Err _ => Err er end
  end.
End links.
