(* ===== verification/ChatCodec.v ===== *)
(** * Signed chat payloads ([pkg/chat/codec.go])

    The bodies of the seven kinds of payload, the envelope that carries a body with its
    signature, and the identifiers of contacts and conversations.  Ed25519 and the reading of
    JSON are parameters; what is written is computed. *)

From S2P Require Import Prelude Sha256 GoStr.

#[local] Open Scope string_scope.
#[local] Open Scope list_scope.
#[local] Open Scope Z_scope.

Definition PayloadV1 : Z := 1.
Definition KindText : string := "chat.text.v1".
Definition KindGroup : string := "group.text.v1".
Definition KindGroupInvite : string := "group.invite.v1".
Definition KindGroupJoin : string := "group.join.v1".
Definition KindGroupRole : string := "group.role.v1".
Definition KindGroupRemove : string := "group.remove.v1".
Definition KindCommunityPost : string := "community.post.v1".

Record SignedPayload := mkPayload {
  sp_V : Z;
  sp_Kind : string;
  sp_CreatedAt : Z;
  sp_SenderPubB64 : string;
  sp_Body : list Z;
  sp_SigB64 : string;
}.

Record TextBody := mkText { tb_ChatID : string; tb_Text : string }.
Record GroupTextBody := mkGroupText { gb_GroupID : string; gb_Text : string }.
Record GroupMember := mkGroupMember { gm_SignPubB64 : string; gm_Mailbox : string; gm_PreKeyPubB64 : string }.
Record GroupInviteBody := mkInviteBody {
  ib_GroupID : string;
  ib_GroupTitle : string;
  ib_InviteePub : string;
  ib_Members : list GroupMember;
}.
Record GroupJoinBody := mkJoinBody { jb_GroupID : string }.
Record GroupRoleBody := mkRoleBody { rb_GroupID : string; rb_SubjectPub : string; rb_GrantedRole : string }.
Record GroupRemoveBody := mkRemoveBody { rm_GroupID : string; rm_SubjectPub : string }.
Record CommunityPostBody := mkPostBody { cb_CommunityID : string; cb_RoomID : string; cb_Text : string }.

(** ** As JSON *)

Definition json_text (b : TextBody) : list Z := json_object (omit_empty "chat_id" (tb_ChatID b) ++ [("text", json_string (tb_Text b))]).
Definition json_group_text (b : GroupTextBody) : list Z := json_object [("group_id", json_string (gb_GroupID b)); ("text", json_string (gb_Text b))].
Definition json_member (m : GroupMember) : list Z :=
  json_object ([("sign_pub_b64url", json_string (gm_SignPubB64 m))] ++ omit_empty "mailbox" (gm_Mailbox m) ++ omit_empty "prekey_pub_b64url" (gm_PreKeyPubB64 m)).
Definition json_invite_body (b : GroupInviteBody) : list Z :=
  json_object ([("group_id", json_string (ib_GroupID b))] ++ omit_empty "group_title" (ib_GroupTitle b) ++ omit_empty "invitee_pub_b64url" (ib_InviteePub b)
               ++ (match ib_Members b with [] => [] | ms => [("members", json_list json_member ms)] end)).
Definition json_join_body (b : GroupJoinBody) : list Z := json_object [("group_id", json_string (jb_GroupID b))].
Definition json_role_body (b : GroupRoleBody) : list Z :=
  json_object [("group_id", json_string (rb_GroupID b)); ("subject_pub_b64url", json_string (rb_SubjectPub b)); ("granted_role", json_string (rb_GrantedRole b))].
Definition json_remove_body (b : GroupRemoveBody) : list Z :=
  json_object [("group_id", json_string (rm_GroupID b)); ("subject_pub_b64url", json_string (rm_SubjectPub b))].
Definition json_post_body (b : CommunityPostBody) : list Z :=
  json_object [("community_id", json_string (cb_CommunityID b)); ("room_id", json_string (cb_RoomID b)); ("text", json_string (cb_Text b))].

(** ** A [json.RawMessage] as it is written

    Space between tokens goes; in strings, the characters that mean something in HTML and the
    two line separators are escaped.  The text is a JSON value. *)

Definition is_space (c : Z) : bool := (c =? 32) || (c =? 9) || (c =? 13) || (c =? 10).
(** [\u00] and the two hexadecimal digits of an ASCII character. *)
Definition escape_ascii (c : Z) : list Z := [92; 117; 48; 48; hex_digit (c / 16); hex_digit (c mod 16)].
(** [\u2028] or [\u2029]; [c] is the last byte in UTF-8. *)
Definition escape_line (c : Z) : list Z := [92; 117; 50; 48; 50; hex_digit (Z.land c 15)].

(** [quoted]: within a string; [escaped]: behind a backslash. *)
Fixpoint compact_from (quoted escaped : bool) (l : list Z) : list Z :=
  match l with
  | [] => []
  | c :: l' =>
      if negb quoted then if is_space c then compact_from false false l' else c :: compact_from (c =? 34) false l'
      else if escaped then c :: compact_from true false l'
      else if c =? 92 then c :: compact_from true true l'
      else if c =? 34 then c :: compact_from false false l'
      else if (c =? 60) || (c =? 62) || (c =? 38) then escape_ascii c ++ compact_from true false l'
      else
        match l' with
        | c1 :: c2 :: l2 =>
            if (c =? 226) && (c1 =? 128) && ((c2 =? 168) || (c2 =? 169)) then escape_line c2 ++ compact_from true false l2
            else c :: compact_from true false l'
        | _ => c :: compact_from true false l'
        end
  end.
Definition compact (raw : list Z) : list Z := compact_from false false raw.

(** ** Payloads *)

Definition payload_fields (p : SignedPayload) : list (string * list Z) :=
  [("v", json_int (sp_V p)); ("kind", json_string (sp_Kind p)); ("created_at", json_int (sp_CreatedAt p)); ("sender_pub_b64url", json_string (sp_SenderPubB64 p));
   ("body", compact (sp_Body p))].
Definition payload_signable (p : SignedPayload) : list Z := json_object (payload_fields p).
Definition json_payload (p : SignedPayload) : list Z := json_object (payload_fields p ++ [("sig_b64url", json_string (sp_SigB64 p))]).

(** What [json.Unmarshal] reads. *)
Class ChatJSON := {
  read_payload : list Z -> option SignedPayload;
  read_text_body : list Z -> option TextBody;
  read_group_text_body : list Z -> option GroupTextBody;
  read_invite_body : list Z -> option GroupInviteBody;
  read_join_body : list Z -> option GroupJoinBody;
  read_role_body : list Z -> option GroupRoleBody;
  read_remove_body : list Z -> option GroupRemoveBody;
  read_post_body : list Z -> option CommunityPostBody;
}.

Local Open Scope res_scope.

Definition one_role (role : string) : bool := bool_decide (role ∈ ["owner"; "moderator"; "member"]).

Section codec.
Context `{ED : Ed25519, CJ : ChatJSON}.

Definition encodeSignedPayload (kind senderPubB64 : string) (senderPriv body : list Z) (createdAt : Z) : list Z :=
  let signable := mkPayload PayloadV1 kind createdAt senderPubB64 body "" in
  let sig := ed_sign senderPriv (payload_signable signable) in
  json_payload (mkPayload PayloadV1 kind createdAt senderPubB64 body (EncodeToString sig)).

(** The checks of the sender's keys that every encoder begins with. *)
Definition sender_checked (senderPubB64 : string) (senderPriv : list Z) : res string unit :=
  require! negb (is_blank senderPubB64) else "chat: sender pub required";
  require! blen senderPriv =? PrivateKeySize else "chat: invalid sender priv key";
  Ok tt.

(** An argument that is trimmed and must not be blank. *)
Definition needed (s : string) (what : string) : res string string :=
  require! negb (is_blank s) else ("chat: " ++ what ++ " required")%string;
  Ok (TrimSpace s).

Definition EncodeText (senderPubB64 : string) (senderPriv : list Z) (chatID text : string) (now : Time) : res string (list Z) :=
  _ <-! sender_checked senderPubB64 senderPriv;
  Ok (encodeSignedPayload KindText senderPubB64 senderPriv (json_text (mkText (TrimSpace chatID) text)) (Unix now)).

Definition EncodeGroupText (senderPubB64 : string) (senderPriv : list Z) (groupID text : string) (now : Time) : res string (list Z) :=
  _ <-! sender_checked senderPubB64 senderPriv;
  groupID <-! needed groupID "group id";
  Ok (encodeSignedPayload KindGroup senderPubB64 senderPriv (json_group_text (mkGroupText groupID text)) (Unix now)).

Definition EncodeGroupInvite (senderPubB64 : string) (senderPriv : list Z) (groupID groupTitle inviteePubB64 : string) (members : list GroupMember) (now : Time)
    : res string (list Z) :=
  _ <-! sender_checked senderPubB64 senderPriv;
  groupID <-! needed groupID "group id";
  Ok (encodeSignedPayload KindGroupInvite senderPubB64 senderPriv
        (json_invite_body (mkInviteBody groupID (TrimSpace groupTitle) (TrimSpace inviteePubB64) members)) (Unix now)).

Definition EncodeGroupJoin (senderPubB64 : string) (senderPriv : list Z) (groupID : string) (now : Time) : res string (list Z) :=
  _ <-! sender_checked senderPubB64 senderPriv;
  groupID <-! needed groupID "group id";
  Ok (encodeSignedPayload KindGroupJoin senderPubB64 senderPriv (json_join_body (mkJoinBody groupID)) (Unix now)).

Definition EncodeGroupRole (senderPubB64 : string) (senderPriv : list Z) (groupID subjectPubB64 grantedRole : string) (now : Time) : res string (list Z) :=
  _ <-! sender_checked senderPubB64 senderPriv;
  groupID <-! needed groupID "group id";
  subjectPubB64 <-! needed subjectPubB64 "subject pub";
  let grantedRole := TrimSpace grantedRole in
  require! one_role grantedRole else "chat: invalid granted role";
  Ok (encodeSignedPayload KindGroupRole senderPubB64 senderPriv (json_role_body (mkRoleBody groupID subjectPubB64 grantedRole)) (Unix now)).

Definition EncodeGroupRemove (senderPubB64 : string) (senderPriv : list Z) (groupID subjectPubB64 : string) (now : Time) : res string (list Z) :=
  _ <-! sender_checked senderPubB64 senderPriv;
  groupID <-! needed groupID "group id";
  subjectPubB64 <-! needed subjectPubB64 "subject pub";
  Ok (encodeSignedPayload KindGroupRemove senderPubB64 senderPriv (json_remove_body (mkRemoveBody groupID subjectPubB64)) (Unix now)).

Definition EncodeCommunityPost (senderPubB64 : string) (senderPriv : list Z) (communityID roomID text : string) (now : Time) : res string (list Z) :=
  _ <-! sender_checked senderPubB64 senderPriv;
  require! negb (is_blank communityID || is_blank roomID) else "chat: community_id and room_id required";
  Ok (encodeSignedPayload KindCommunityPost senderPubB64 senderPriv (json_post_body (mkPostBody (TrimSpace communityID) (TrimSpace roomID) text)) (Unix now)).

(** A field in base64 of a size. *)
Definition decode_part (s : string) (size : Z) (what : string) : res string (list Z) :=
  match DecodeString s with
  | None => Err ("chat: decode " ++ what)%string
  | Some b => require! blen b =? size else ("chat: invalid size of " ++ what)%string; Ok b
  end.

(** The payload, and whether its signature verifies. *)
Definition DecodeAndVerify (raw : list Z) : res string (SignedPayload * bool) :=
  match read_payload raw with
  | None => Err "chat: parse payload"
  | Some p =>
      require! sp_V p =? PayloadV1 else "chat: unsupported payload version";
      require! negb (is_blank (sp_Kind p)) else "chat: payload kind required";
      require! negb (sp_CreatedAt p <=? 0) else "chat: payload created_at required";
      require! negb (is_blank (sp_SenderPubB64 p)) else "chat: payload sender pub required";
      require! negb (blen (sp_Body p) =? 0) else "chat: payload body required";
      sig <-! decode_part (sp_SigB64 p) SignatureSize "sig";
      pub <-! decode_part (sp_SenderPubB64 p) PublicKeySize "sender pub";
      Ok (p, ed_verify pub (payload_signable p) sig)
  end.

End codec.

(** ** Identifiers *)

Definition ContactIDFromSignPub (senderPubB64 : string) : string := EncodeToString (take 16 (Sum256 (bytes_of (TrimSpace senderPubB64)))).

Definition DirectChatID (a b : string) : string := if str_lt a b then ("d:" ++ a ++ ":" ++ b)%string else ("d:" ++ b ++ ":" ++ a)%string.

Definition CommunityRoomChatID (communityID roomID : string) : string := ("c:" ++ TrimSpace communityID ++ ":" ++ TrimSpace roomID)%string.
