(* ===== verification/DeviceLinkSpec.v ===== *)
(** * What holds of offers and linked devices

    No signature of a persona stands for two statements; what a decrypted link guarantees;
    linking from end to end; and what linking does to the state. *)

From S2P Require Import Prelude Float64 Sha256 GoStr LedgerEvent ChatCodec Community CommunitySpec Persona Bundle BundleSpec DeviceLink PersonaSpec.

#[local] Set Warnings "-clear-no-such-hyp".

#[local] Open Scope string_scope.
#[local] Open Scope list_scope.
#[local] Open Scope Z_scope.

(** ** Everything a persona signs

    Statements of communities, certificates, offers, link envelopes and the payloads of chats are
    signed as JSON; an event of the ledger is signed as the digest of its canonical bytes. *)

Inductive signed :=
  | SCommunity (s : statement)
  | SCert (c : DeviceCert)
  | SOffer (o : ContactOffer)
  | SEnvelope (e : DeviceLinkEnvelope) (ciphertext : list Z)
  | SPayload (p : SignedPayload)
  | SEvent (digest : list Z).

Definition signed_bytes (s : signed) : list Z :=
  match s with
  | SCommunity s => signable s
  | SCert c => cert_signable c
  | SOffer o => offer_signable o
  | SEnvelope e ct => envelope_signable e ct
  | SPayload p => payload_signable p
  | SEvent digest => digest
  end.

Definition bare_payload (p : SignedPayload) : SignedPayload := ChatCodec.mkPayload (sp_V p) (sp_Kind p) (sp_CreatedAt p) (sp_SenderPubB64 p) (compact (sp_Body p)) "".

(** What is signed, without the signature; the body of a payload as it is written, without space. *)
Definition content (s : signed) : signed :=
  match s with
  | SCommunity s => SCommunity (CommunitySpec.unsigned s)
  | SCert c => SCert (with_cert_sig "" c)
  | SOffer o => SOffer (with_offer_sig "" o)
  | SEnvelope e ct => SEnvelope (with_envelope_sig "" e) ct
  | SPayload p => SPayload (bare_payload p)
  | SEvent digest => SEvent digest
  end.

Definition signed_text_ok (s : signed) : Prop :=
  match s with
  | SCommunity s => text_ok s
  | SCert c => Forall valid_string [dc_PersonaID c; dc_DeviceID c; dc_DevicePubB64 c; dc_NonceB64 c] /\ Forall is_i64 [dc_IssuedAt c]
  | SOffer o => (Forall valid_string [co_OfferID o; co_PersonaID o; co_PersonaPub o; co_PreKeyPub o; co_Mailbox o; co_NonceB64 o] /\ Forall valid_string (co_RelayHints o))
      /\ Forall is_i64 [co_Version o; co_CreatedAt o; co_ExpiresAt o]
  | SEnvelope e ct => Forall valid_string [le_Cipher e; le_SenderPubB64 e; le_RecipientKeyID e; le_NonceB64 e; le_CiphertextB64 e]
      /\ Forall is_i64 [le_Schema e; le_CreatedAt e; le_ExpiresAt e]
  | SPayload p => Forall valid_string [sp_Kind p; sp_SenderPubB64 p] /\ Forall is_i64 [sp_V p; sp_CreatedAt p]
  | SEvent digest => exists ev, digest = unsignedHash ev
  end.

(** The first and the second name of the object that is signed. *)
Lemma cert_signable_inj c d : signed_text_ok (SCert c) -> signed_text_ok (SCert d) -> cert_signable c = cert_signable d -> with_cert_sig "" c = with_cert_sig "" d.
Proof.
  intros Hi Hj H. cbn [signed_text_ok] in Hi. open_text Hi. cbn [signed_text_ok] in Hj. open_text Hj. unfold cert_signable, cert_fields in H. open_object H.
  do 3 next_string H. next_int H. last_string H. unfold with_cert_sig. f_equal; congruence.
Qed.

Lemma envelope_signable_inj d e c1 c2 : signed_text_ok (SEnvelope d c1) -> signed_text_ok (SEnvelope e c2) -> envelope_signable d c1 = envelope_signable e c2 ->
  with_envelope_sig "" d = with_envelope_sig "" e /\ c1 = c2.
Proof.
  intros Hi Hj H. cbn [signed_text_ok] in Hi. open_text Hi. cbn [signed_text_ok] in Hj. open_text Hj. unfold envelope_signable, json_envelope in H.
  cbn [le_Schema le_Cipher le_SenderPubB64 le_RecipientKeyID le_CreatedAt le_ExpiresAt le_NonceB64 le_CiphertextB64 le_SigB64 with_envelope_sig] in H.
  unfold json_object in H. rewrite <- !app_assoc in H. cbn [app] in H. apply cons_tail in H. cbn [map fst snd] in H. rewrite !comma_cons in H.
  next_int H. do 3 next_string H. do 2 next_int H. do 2 next_string H. unfold comma_separated in H. cbn [map concat] in H. rewrite ?app_nil_r in H.
  apply app_inv_head, cons_tail in H. split; [|exact H]. unfold with_envelope_sig. f_equal; congruence.
Qed.

Lemma offer_signable_inj o p : signed_text_ok (SOffer o) -> signed_text_ok (SOffer p) -> offer_signable o = offer_signable p -> with_offer_sig "" o = with_offer_sig "" p.
Proof.
  intros Hi Hj H. cbn [signed_text_ok] in Hi. destruct Hi as [[Hi Hli] Hi']. rewrite !Forall_cons in Hi. rewrite !Forall_cons in Hi'.
  destruct Hi as (? & ? & ? & ? & ? & ? & _), Hi' as (?%i64_json & ?%i64_json & ?%i64_json & _).
  cbn [signed_text_ok] in Hj. destruct Hj as [[Hj Hlj] Hj']. rewrite !Forall_cons in Hj. rewrite !Forall_cons in Hj'.
  destruct Hj as (? & ? & ? & ? & ? & ? & _), Hj' as (?%i64_json & ?%i64_json & ?%i64_json & _).
  unfold offer_signable, offer_fields, omit_empty in H.
  assert (co_Mailbox o = co_Mailbox p /\ co_RelayHints o = co_RelayHints p /\ co_Version o = co_Version p /\ co_OfferID o = co_OfferID p
    /\ co_CreatedAt o = co_CreatedAt p /\ co_ExpiresAt o = co_ExpiresAt p /\ co_PersonaID o = co_PersonaID p /\ co_PersonaPub o = co_PersonaPub p
    /\ co_PreKeyPub o = co_PreKeyPub p /\ co_NonceB64 o = co_NonceB64 p) as Hall; [|unfold with_offer_sig; f_equal; tauto].
  destruct (is_empty (co_Mailbox o)) eqn:Eo, (is_empty (co_Mailbox p)) eqn:Ep, (co_RelayHints o) as [|ho lo] eqn:Elo, (co_RelayHints p) as [|hp lp] eqn:Elp;
    open_object H; next_int H; next_string H; do 2 next_int H; do 3 next_string H; try (field_clash H);
    try (apply is_empty_spec in Eo, Ep; rewrite Eo, Ep); try (next_string H); try (field_clash H).
  all: try (apply field_prefix, json_strings_prefix in H as [[= -> ->] H]; [apply cons_tail in H|done..]).
  all: last_string H; done.
Qed.

Lemma payload_signable_inj p q : signed_text_ok (SPayload p) -> signed_text_ok (SPayload q) -> payload_signable p = payload_signable q -> bare_payload p = bare_payload q.
Proof.
  intros Hi Hj H. cbn [signed_text_ok] in Hi. open_text Hi. cbn [signed_text_ok] in Hj. open_text Hj. unfold payload_signable, payload_fields in H.
  unfold bare_payload. generalize dependent (compact (sp_Body p)). generalize dependent (compact (sp_Body q)). intros bq bp H. open_object H.
  next_int H. next_string H. next_int H. next_string H. unfold comma_separated in H. cbn [map concat] in H. rewrite ?app_nil_r in H.
  apply field_prefix, app_inv_tail in H. f_equal; congruence.
Qed.

(** The kinds of statements have different names for their first or second field. *)
Definition signed_kind (s : signed) : nat := match s with SCommunity _ => 0 | SCert _ => 1 | SOffer _ => 2 | SEnvelope _ _ => 3 | SPayload _ => 4 | SEvent _ => 5 end.

Lemma offer_fields_cons o : exists l, offer_fields o = ("v", json_int (co_Version o)) :: ("id", json_string (co_OfferID o)) :: l.
Proof. unfold offer_fields. cbn [app]. by eexists. Qed.

Lemma statement_fields s : exists x y l, text_ok s -> json_range x /\ signable s = json_object (("schema", json_int x) :: y :: l) /\ y.1 ∈ ["id"; "invite_id"; "community"].
Proof.
  destruct s as [i|r|a|v].
  - exists (iv_Schema i). eexists _, _. intros [_ H]. apply Forall_cons in H as [H _]. split; [by apply i64_json|]. split; [unfold signable, invite_signable, invite_fields; cbn [app]; reflexivity|by left].
  - exists (jr_Schema r). eexists _, _. intros [_ H]. apply Forall_cons in H as [H _]. split; [by apply i64_json|]. split; [unfold signable, request_signable, request_fields; reflexivity|by right; left].
  - exists (ja_Schema a). eexists _, _. intros [_ H]. apply Forall_cons in H as [H _]. split; [by apply i64_json|]. split; [unfold signable, approval_signable, approval_fields; reflexivity|by right; left].
  - exists (re_Schema v). eexists _, _. intros [_ H]. apply Forall_cons in H as [H _]. split; [by apply i64_json|]. split; [unfold signable, revocation_signable, revocation_fields; reflexivity|by right; right; left].
Qed.

(** What is signed starts with: a name, or a number under a name and another name; a digest
    has a length that none of these has. *)
Definition opening (s : signed) (b : list Z) : Prop :=
  match s with
  | SCommunity _ => exists x y v r, json_range x /\ y ∈ ["id"; "invite_id"; "community"] /\ b = [123] ++ (json_string "schema" ++ [58] ++ json_int x) ++ 44 :: (json_string y ++ [58] ++ v) ++ r
  | SCert _ => exists v r, b = [123] ++ (json_string "persona_id" ++ [58] ++ v) ++ r
  | SOffer _ => exists x v r, json_range x /\ b = [123] ++ (json_string "v" ++ [58] ++ json_int x) ++ 44 :: (json_string "id" ++ [58] ++ v) ++ r
  | SEnvelope _ _ => exists x v r, json_range x /\ b = [123] ++ (json_string "schema" ++ [58] ++ json_int x) ++ 44 :: (json_string "cipher" ++ [58] ++ v) ++ r
  | SPayload _ => exists x v r, json_range x /\ b = [123] ++ (json_string "v" ++ [58] ++ json_int x) ++ 44 :: (json_string "kind" ++ [58] ++ v) ++ r
  | SEvent _ => length b = 32%nat
  end.

Lemma comma_first x l r : exists q, comma_separated (x :: l) ++ r = x ++ q.
Proof. destruct l as [|y l]; [exists r; unfold comma_separated; cbn [map concat]; by rewrite app_nil_r|]. rewrite comma_cons. by eexists. Qed.

Lemma json_object_first n v l : exists q, json_object ((n, v) :: l) = [123] ++ (json_string n ++ [58] ++ v) ++ q.
Proof. unfold json_object. cbn [map fst snd]. destruct (comma_first (json_string n ++ [58] ++ v) (map (fun f => json_string f.1 ++ [58] ++ f.2) l) [125]) as [q ->]. by exists q. Qed.

Lemma json_object_second n v y l : exists q, json_object ((n, v) :: y :: l) = [123] ++ (json_string n ++ [58] ++ v) ++ 44 :: (json_string y.1 ++ [58] ++ y.2) ++ q.
Proof.
  unfold json_object. cbn [map fst snd]. rewrite comma_cons.
  destruct (comma_first (json_string y.1 ++ [58] ++ y.2) (map (fun f => json_string f.1 ++ [58] ++ f.2) l) [125]) as [q ->]. by exists q.
Qed.

Lemma app_behind (a b c q r : list Z) x : (a ++ b ++ x :: c ++ q) ++ r = a ++ b ++ x :: c ++ q ++ r.
Proof. by rewrite <- !app_assoc, <- app_comm_cons, <- app_assoc. Qed.

Lemma signed_opening s : signed_text_ok s -> opening s (signed_bytes s).
Proof.
  destruct s as [s|c|o|e ct|p|digest]; cbn [signed_text_ok signed_bytes opening].
  - intros Hs. destruct (statement_fields s) as (x & y & l & H). destruct (H Hs) as (Hx & -> & Hy). destruct (json_object_second "schema" (json_int x) y l) as [q Hq].
    exists x, y.1, y.2, q. split; [exact Hx|]. split; [exact Hy|exact Hq].
  - intros _. destruct (json_object_first "persona_id" (json_string (dc_PersonaID c))
      [("device_id", json_string (dc_DeviceID c)); ("device_pub_b64url", json_string (dc_DevicePubB64 c)); ("issued_at", json_int (dc_IssuedAt c)); ("nonce_b64url", json_string (dc_NonceB64 c))]) as [q Hq].
    exists (json_string (dc_PersonaID c)), q. exact Hq.
  - intros [_ H]. apply Forall_cons in H as [H _]. unfold offer_signable. destruct (offer_fields_cons o) as (l & ->).
    destruct (json_object_second "v" (json_int (co_Version o)) ("id", json_string (co_OfferID o)) l) as [q Hq].
    exists (co_Version o), (json_string (co_OfferID o)), q. split; [by apply i64_json|exact Hq].
  - intros [_ H]. apply Forall_cons in H as [H _]. unfold envelope_signable, json_envelope. cbn [le_Schema le_Cipher with_envelope_sig].
    match goal with |- context [json_object (_ :: _ :: ?l)] => destruct (json_object_second "schema" (json_int (le_Schema e)) ("cipher", json_string (le_Cipher e)) l) as [q Hq] end.
    cbn [fst snd] in Hq. rewrite Hq. exists (le_Schema e), (json_string (le_Cipher e)), (q ++ ct). split; [by apply i64_json|].
    exact (app_behind [123] (json_string "schema" ++ [58] ++ json_int (le_Schema e)) (json_string "cipher" ++ [58] ++ json_string (le_Cipher e)) q ct 44).
  - intros [_ H]. apply Forall_cons in H as [H _]. unfold payload_signable, payload_fields. generalize (compact (sp_Body p)). intros body.
    match goal with |- context [json_object (_ :: _ :: ?l)] => destruct (json_object_second "v" (json_int (sp_V p)) ("kind", json_string (sp_Kind p)) l) as [q Hq] end.
    exists (sp_V p), (json_string (sp_Kind p)), q. split; [by apply i64_json|exact Hq].
  - intros [ev ->]. apply Sum256_length.
Qed.

Lemma names_clash m n v w (r s : list Z) : valid_string m -> valid_string n -> m <> n -> (json_string m ++ [58] ++ v) ++ r = (json_string n ++ [58] ++ w) ++ s -> False.
Proof. intros Hm Hn Hmn H. rewrite <- !app_assoc in H. by apply json_string_prefix in H as [E _]. Qed.

Lemma second_names_clash k x1 x2 m n v w r s : json_range x1 -> json_range x2 -> valid_string m -> valid_string n -> m <> n ->
  (json_string k ++ [58] ++ json_int x1) ++ 44 :: (json_string m ++ [58] ++ v) ++ r
  = (json_string k ++ [58] ++ json_int x2) ++ 44 :: (json_string n ++ [58] ++ w) ++ s -> False.
Proof. intros Hx1 Hx2 Hm Hn Hmn H. next_field H json_int_prefix. by apply names_clash in H. Qed.

(** An object is at least as long as its names. *)
Lemma json_object_long fields : (length (concat (map (fun f => json_string f.1) fields)) <= length (json_object fields))%nat.
Proof.
  unfold json_object. rewrite !length_app. assert (forall l : list (list Z), (length (concat l) <= length (comma_separated l))%nat) as Hcomma.
  { intros [|x l]; [done|]. unfold comma_separated. cbn [concat]. rewrite !length_app. apply Nat.add_le_mono_l. induction l as [|y l IH]; [done|]. cbn [map concat length app]. rewrite !length_app. lia. }
  assert (length (concat (map (fun f => json_string f.1) fields)) <= length (concat (map (fun f : string * list Z => json_string f.1 ++ [58%Z] ++ f.2) fields)))%nat as Hnames.
  { induction fields as [|f fields IH]; [done|]. cbn [map concat]. rewrite !length_app. lia. }
  specialize (Hcomma (map (fun f => json_string f.1 ++ [58] ++ f.2) fields)). lia.
Qed.

Ltac long_names := eapply Nat.lt_le_trans; [|apply json_object_long]; cbn [map fst app]; vm_compute; repeat constructor.

Lemma signed_long s : signed_kind s <> 5%nat -> (32 < length (signed_bytes s))%nat.
Proof.
  destruct s as [[i|r|a|v]|c|o|e ct|p|digest]; cbn [signed_kind signed_bytes signable]; intros Hk; [..|done].
  - unfold invite_signable, invite_fields, omit_zero. destruct (iv_MaxUses i =? 0); long_names.
  - unfold request_signable, request_fields. long_names.
  - unfold approval_signable, approval_fields. long_names.
  - unfold revocation_signable, revocation_fields. long_names.
  - unfold cert_signable, cert_fields. long_names.
  - unfold offer_signable, offer_fields, omit_empty. destruct (is_empty (co_Mailbox o)), (co_RelayHints o); long_names.
  - unfold envelope_signable, json_envelope. rewrite length_app. apply Nat.lt_lt_add_r. long_names.
  - unfold payload_signable, payload_fields. long_names.
Qed.

Definition some_names : list string := ["id"; "invite_id"; "community"; "cipher"; "schema"; "persona_id"; "v"; "kind"].

Lemma some_names_ok m : m ∈ some_names -> valid_string m.
Proof.
  assert (Forall valid_string some_names) as Hv by (repeat (apply Forall_cons_2; [vm_compute; reflexivity|]); constructor). rewrite Forall_forall in Hv. apply Hv.
Qed.

Lemma statement_names y : y ∈ ["id"; "invite_id"; "community"] -> valid_string y /\ y <> "cipher".
Proof.
  intros H. split; [apply some_names_ok; unfold some_names; set_solver|]. intros ->. apply list_elem_of_In in H. cbn [In] in H. by destruct H as [H|[H|[H|H]]].
Qed.

Lemma openings_differ s t b : signed_kind s <> 5%nat -> signed_kind t <> 5%nat -> opening s b -> opening t b -> signed_kind s = signed_kind t.
Proof.
  destruct s, t; cbn [opening signed_kind]; try reflexivity; intros N1 N2 H1 H2; try done; exfalso; clear N1 N2.
  all: repeat match goal with H : exists _, _ |- _ => destruct H | H : _ /\ _ |- _ => destruct H end; subst b.
  all: match goal with H : [123] ++ _ = _ |- _ => apply app_inv_head in H end.
  all: first [eapply names_clash; [..|eassumption]; [apply some_names_ok; unfold some_names; set_solver|apply some_names_ok; unfold some_names; set_solver|discriminate]
             |eapply second_names_clash; [..|eassumption]; try eassumption;
                first [by apply statement_names|by apply not_eq_sym, statement_names|apply some_names_ok; unfold some_names; set_solver|discriminate]].
Qed.

Lemma signed_kinds s t : signed_text_ok s -> signed_text_ok t -> signed_bytes s = signed_bytes t -> signed_kind s = signed_kind t.
Proof.
  intros Hs Ht H. pose proof (signed_opening s Hs) as Os. pose proof (signed_opening t Ht) as Ot.
  destruct (decide (signed_kind s = 5%nat)) as [E1|E1], (decide (signed_kind t = 5%nat)) as [E2|E2].
  - congruence.
  - apply signed_long in E2. destruct s; try discriminate E1. cbn [opening] in Os. rewrite H in Os. lia.
  - apply signed_long in E1. destruct t; try discriminate E2. cbn [opening] in Ot. rewrite <- H in Ot. lia.
  - rewrite H in Os. by apply (openings_differ _ _ _ E1 E2 Os).
Qed.

(** C10: A signature of a persona cannot be moved from one statement to another: where strings
    are in UTF-8 and numbers are of 64 bits, the bytes that are signed for invites, requests,
    approvals, revocations, device certificates, contact offers, link envelopes, payloads of
    chats and events of the ledger determine which of these is signed and all that it says, an
    event by its digest. *)
Theorem persona_signatures_do_not_mix s t : signed_text_ok s -> signed_text_ok t -> signed_bytes s = signed_bytes t -> content s = content t.
Proof.
  intros Hs Ht H. pose proof (signed_kinds s t Hs Ht H) as Hk.
  destruct s, t; try discriminate Hk; cbn [content signed_bytes] in *; f_equal.
  - by apply statement_inj.
  - by apply cert_signable_inj.
  - by apply offer_signable_inj.
  - by apply (envelope_signable_inj _ _ _ _ Hs Ht).
  - by apply (envelope_signable_inj _ _ _ _ Hs Ht).
  - by apply payload_signable_inj.
  - exact H.
Qed.

(** ** What a link guarantees *)

Section links.
Context `{ED : Ed25519, LJ : LinkJSON, AG : Age, AI : AgeIdentity}.

(** Takes an early return apart. *)
Ltac passes H :=
  match type of H with
  | (if ?b then _ else _) = Ok _ => destruct b eqn:?; [|discriminate H]
  | rbind ?r _ = Ok _ => destruct r eqn:?; [cbn [rbind] in H|discriminate H]
  end.

(** What a certificate that verifies has. *)
Lemma VerifyDeviceCert_ok pubB64 c : VerifyDeviceCert pubB64 c = Ok tt -> exists pub sig, DecodeString pubB64 = Some pub /\ blen pub = PublicKeySize
  /\ DecodeString (dc_SigB64 c) = Some sig /\ ed_verify pub (cert_signable c) sig = true.
Proof.
  unfold VerifyDeviceCert, decode_sized. intros H. passes H.
  destruct (DecodeString pubB64) as [pub|] eqn:Ep; [|discriminate H]. destruct (Z.eqb_spec (blen pub) PublicKeySize) as [Hl|]; [cbn [rbind] in H|discriminate H].
  passes H. destruct (DecodeString (dc_SigB64 c)) as [sig|] eqn:Es; [|discriminate H]. destruct (blen sig =? SignatureSize); [cbn [rbind] in H|discriminate H].
  passes H. by exists pub, sig.
Qed.

(** What a valid bundle has. *)
Record link_ok (now : Time) (b : DeviceLinkBundle) : Prop := {
  lo_times : 0 < lb_CreatedAt b <= lb_ExpiresAt b /\ lb_ExpiresAt b <= lb_CreatedAt b + 600 /\ Unix now <= lb_ExpiresAt b;
  lo_persona : Persona_Validate (lb_Persona b) = Ok tt;
  lo_package : Package_Validate (pe_SignPubB64 (lb_Persona b)) (lb_JoinPackage b) = Ok tt;
  lo_names : dp_PersonaID (lb_JoinPackage b) = pe_ID (lb_Persona b);
}.

Lemma LinkBundle_Validate_ok now b : LinkBundle_Validate now b = Ok tt -> link_ok now b.
Proof.
  intros H. unfold LinkBundle_Validate in H. do 7 passes H. unfold maxDeviceLinkLifetimeSec in *.
  repeat match goal with E : negb _ = true |- _ => apply negb_true_iff in E | E : _ || _ = false |- _ => apply orb_false_iff in E as [? ?]
    | E : (_ <? _) = false |- _ => apply Z.ltb_ge in E | E : (_ <=? _) = false |- _ => apply Z.leb_gt in E | u : unit |- _ => destruct u end.
  split; [lia|assumption|exact H|by eapply bool_decide_eq_true_1].
Qed.

(** C38: A bundle that comes out of a link has a well-formed persona with its private key, a
    package of that persona with a certificate that verifies under the persona's key (though
    the certificate may name another device than the package), and a life of at most ten
    minutes that is not over.  If the link was sealed, the age identity opens it, and the persona of
    the bundle itself signed the envelope, with the same times and nonce; if it names no
    cipher, it is read in the clear, with no identity and no signature of the whole. *)
Theorem decrypted_link_is_authentic now s ident b : DecryptDeviceLink now s ident = Ok b ->
  link_ok now b /\ exists raw, DecodeString (TrimPrefix s "sn4dl:") = Some raw /\
    ((exists cipher, read_cipher raw = Some cipher /\ is_blank cipher = true /\ read_link_bundle raw = Some b)
     \/ exists e ciphertext sig pub id plaintext, read_envelope raw = Some e
         /\ DecodeString (le_CiphertextB64 e) = Some ciphertext /\ DecodeString (le_SigB64 e) = Some sig /\ DecodeString (pe_SignPubB64 (lb_Persona b)) = Some pub
         /\ ed_verify pub (envelope_signable e ciphertext) sig = true
         /\ parse_identity (TrimSpace ident) = Some id /\ age_decrypt id ciphertext = Some plaintext /\ read_link_bundle plaintext = Some b
         /\ le_CreatedAt e = lb_CreatedAt b /\ le_ExpiresAt e = lb_ExpiresAt b /\ le_NonceB64 e = lb_NonceB64 b).
Proof.
  intros H. unfold DecryptDeviceLink in H. destruct (decode_raw "sn4dl:" s true) as [raw|] eqn:Er; [cbn [rbind] in H|done].
  assert (DecodeString (TrimPrefix s "sn4dl:") = Some raw) as Hraw.
  { unfold decode_raw in Er. do 3 passes Er. destruct (DecodeString _) as [raw'|]; [|done]. passes Er. congruence. }
  destruct (parse read_cipher raw) as [cipher|] eqn:Ec; [cbn [rbind] in H|done]. unfold parse in Ec. destruct (read_cipher raw) eqn:Ec'; [|done]. injection Ec as ->.
  destruct (is_blank cipher) eqn:Eb.
  - unfold DecodeDeviceLinkBundle in H. rewrite Er in H. cbn [rbind] in H. unfold parse in H. destruct (read_link_bundle raw) as [b'|] eqn:Ebb; cbn [rbind] in H; [|done].
    destruct (LinkBundle_Validate now b') as [[]|] eqn:Ev; cbn [rbind] in H; [|done]. injection H as ->. split; [by apply LinkBundle_Validate_ok|]. exists raw. split; [done|]. left. by exists cipher.
  - destruct (DecodeDeviceLinkEnvelope now s) as [e|] eqn:Ed; cbn [rbind] in H; [|done].
    assert (read_envelope raw = Some e) as Ee.
    { unfold DecodeDeviceLinkEnvelope in Ed. rewrite Er in Ed. cbn [rbind] in Ed. unfold parse in Ed. destruct (read_envelope raw); cbn [rbind] in Ed; [|done]. do 2 passes Ed. congruence. }
    unfold open_envelope, decode_field, decode_sized in H. passes H.
    destruct (DecodeString (le_CiphertextB64 e)) as [ct|] eqn:Ect; cbn [rbind] in H; [|done]. destruct (DecodeString (le_SigB64 e)) as [sig|] eqn:Esig; cbn [rbind] in H; [|done].
    destruct (DecodeString (le_SenderPubB64 e)) as [pub|] eqn:Epub; [|done]. destruct (blen pub =? PublicKeySize); cbn [rbind] in H; [|done]. do 2 passes H.
    destruct (parse_identity (TrimSpace ident)) as [id|] eqn:Eid; [|done]. destruct (age_decrypt id ct) as [pt|] eqn:Ept; [|done]. unfold parse in H.
    destruct (read_link_bundle pt) as [b'|] eqn:Ebb; cbn [rbind] in H; [|done]. destruct (LinkBundle_Validate now b') as [[]|] eqn:Evb; cbn [rbind] in H; [|done]. do 3 passes H.
    injection H as ->. split; [by apply LinkBundle_Validate_ok|]. exists raw. split; [done|]. right. exists e, ct, sig, pub, id, pt.
    repeat match goal with E : bool_decide _ = true |- _ => apply bool_decide_eq_true_1 in E | E : _ && _ = true |- _ => apply andb_true_iff in E as [?%Z.eqb_eq ?%Z.eqb_eq] end.
    repeat (split; [congruence|]). congruence.
Qed.

(** ** What linking does to the state *)

Definition is_device (p : DeviceJoinPackage) (d : Device) : Prop := de_PersonaID d = dp_PersonaID p /\ de_DeviceID d = dp_DeviceID p.
#[local] Instance is_device_dec p d : Decision (is_device p d).
Proof. unfold is_device. apply _. Defined.

(** The device as a package leaves it. *)
Definition linked (p : DeviceJoinPackage) (d : Device) : Device :=
  mkDevice (de_PersonaID d) (de_DeviceID d) (de_CreatedAt d) 0 DeviceTrusted (de_Label d) (dp_DevicePubB64 p) (de_SignPrivB64 d).
Definition new_device (now : Time) (p : DeviceJoinPackage) : Device :=
  mkDevice (dp_PersonaID p) (dp_DeviceID p) (Unix now) 0 DeviceTrusted "linked-device" (dp_DevicePubB64 p) EmptyString.

Lemma upsert_device_spec now p l :
  (exists l1 d l2, l = l1 ++ d :: l2 /\ is_device p d /\ Forall (fun d => ~ is_device p d) l1 /\ upsert_device now p l = l1 ++ linked p d :: l2)
  \/ (Forall (fun d => ~ is_device p d) l /\ upsert_device now p l = l ++ [new_device now p]).
Proof.
  induction l as [|d l IH]; [right; by split; [constructor|]|]. cbn [upsert_device].
  destruct (decide (is_device p d)) as [Hd|Hd].
  - left. exists [], d, l. destruct Hd as [E1 E2]. rewrite (bool_decide_eq_true_2 _ E1), (bool_decide_eq_true_2 _ E2). cbn [andb]. split; [done|]. split; [by split|]. by split; [constructor|].
  - assert (bool_decide (de_PersonaID d = dp_PersonaID p) && bool_decide (de_DeviceID d = dp_DeviceID p) = false) as ->.
    { apply andb_false_iff. destruct (decide (de_PersonaID d = dp_PersonaID p)); [right; apply bool_decide_eq_false_2; by intros ?; apply Hd|by left; apply bool_decide_eq_false_2]. }
    destruct IH as [(l1 & e & l2 & -> & He & Hl & ->)|[Hl ->]].
    + left. exists (d :: l1), e, l2. split; [done|]. split; [done|]. by split; [constructor|].
    + right. by split; [constructor|].
Qed.

(** A device that came by a package alone has no private key. *)
Lemma new_device_invalid now p : Device_Validate (new_device now p) <> Ok tt.
Proof.
  unfold Device_Validate, sign_keypair. cbn [de_PersonaID de_DeviceID de_CreatedAt de_Trust de_SignPubB64 de_SignPrivB64 new_device].
  destruct (negb (is_empty _)); [|done]. destruct (negb (is_empty _)); [|done]. destruct (negb (_ <=? _)); [|done]. destruct (bool_decide _); [|done].
  destruct (DecodeString (dp_DevicePubB64 p)) as [l|]; [|done]. change (DecodeString EmptyString) with (Some ([] : list Z)). cbn iota. destruct (blen l =? PublicKeySize); done.
Qed.

Lemma linked_device_valid p d pub : DecodeString (dp_DevicePubB64 p) = Some pub -> blen pub = PublicKeySize -> Device_Validate d = Ok tt -> Device_Validate (linked p d) = Ok tt.
Proof.
  unfold Device_Validate, sign_keypair. cbn [de_PersonaID de_DeviceID de_CreatedAt de_Trust de_SignPubB64 de_SignPrivB64 linked]. intros Hp Hl H. rewrite Hp, Hl. do 3 passes H.
  rewrite bool_decide_eq_true_2 by (right; left). passes H. destruct (DecodeString (de_SignPubB64 d)) as [l|]; cbn [rbind] in H; [|done].
  destruct (DecodeString (de_SignPrivB64 d)) as [l0|]; cbn [rbind] in H; [|done]. clear -H. cbn [Z.eqb Pos.eqb PublicKeySize]. by destruct (blen l =? PublicKeySize), (blen l0 =? PrivateKeySize).
Qed.

(** The package of a device that the state knows makes it trusted with the package's key,
    not revoked whatever it was before, and keeps a valid state valid.  The package of any
    other device is applied without an error too, and leaves a state that is not valid at any
    time, so that it cannot be saved: the device is entered without a private key. *)
Theorem linking_needs_a_known_device now pubB64 p pub s : state_ok now s -> Package_Validate pubB64 p = Ok tt ->
  DecodeString (dp_DevicePubB64 p) = Some pub -> blen pub = PublicKeySize ->
  exists s', UpsertDeviceFromJoinPackage now pubB64 p s = (Ok tt, s')
    /\ (exists d, d ∈ st_Devices s' /\ is_device p d /\ de_Trust d = DeviceTrusted /\ de_RevokedAt d = 0 /\ de_SignPubB64 d = dp_DevicePubB64 p)
    /\ (Exists (is_device p) (st_Devices s) -> state_ok now s')
    /\ (~ Exists (is_device p) (st_Devices s) -> forall t u, State_Validate t (Prune u s') <> Ok tt).
Proof.
  intros Hs Hv Hp Hl. unfold UpsertDeviceFromJoinPackage. rewrite Hv. eexists. split; [done|]. cbn [st_Devices].
  destruct (upsert_device_spec now p (st_Devices s)) as [(l1 & d & l2 & E & Hd & Hn & ->)|[Hn ->]].
  - split; [exists (linked p d); split; [apply elem_of_app; right; left|by destruct Hd]|]. split.
    + intros _. destruct Hs as [H1 H2 H3 H4 [D1 D2] H6]. rewrite E in D1, D2, H6. split; try done; cbn [st_Devices].
      * apply Forall_app in D1 as [D1 D1']. apply Forall_cons in D1' as [D1' D1'']. rewrite fmap_app, fmap_cons in *. split; [|exact D2].
        apply Forall_app. split; [done|]. constructor; [|done]. by apply (linked_device_valid _ _ pub).
      * rewrite length_app in *. exact H6.
    + intros Hno. exfalso. apply Hno. rewrite E. apply Exists_app. right. by left.
  - split; [exists (new_device now p); split; [apply elem_of_app; right; left|done]|]. split.
    + intros He. exfalso. apply Exists_exists in He as (d & Hd & Hd'). rewrite Forall_forall in Hn. by apply (Hn d).
    + intros _ t u Ht. apply State_Validate_spec in Ht as [_ _ _ _ [D _] _]. cbn [st_Devices Prune] in D. apply Forall_app in D as [_ D]. apply Forall_cons in D as [D _].
      by apply new_device_invalid in D.
Qed.

(** A package is not bound to the certificate it carries: whoever has one valid package can
    write any other device and key into it, and it is accepted and trusted all the same; the
    package never runs out. *)
Theorem package_device_key_unchecked pubB64 p device key : Package_Validate pubB64 p = Ok tt -> is_empty device = false -> is_empty key = false ->
  let q := mkPackage (dp_PersonaID p) device DeviceTrusted key (dp_Cert p) (dp_IssuedAt p) in
  Package_Validate pubB64 q = Ok tt /\ forall now s, exists s', UpsertDeviceFromJoinPackage now pubB64 q s = (Ok tt, s')
    /\ exists d, d ∈ st_Devices s' /\ is_device q d /\ de_Trust d = DeviceTrusted /\ de_RevokedAt d = 0 /\ de_SignPubB64 d = key.
Proof.
  intros Hv Hd Hk q. assert (Package_Validate pubB64 q = Ok tt) as Hq.
  { unfold Package_Validate in Hv |- *. cbn [dp_PersonaID dp_DeviceID dp_DevicePubB64 dp_IssuedAt dp_Trust dp_Cert q]. do 2 passes Hv. rewrite Hd, Hk, bool_decide_eq_true_2 by done.
    rewrite negb_true_iff, !orb_false_iff in Heqb. destruct Heqb as [[[-> _] _] ->]. exact Hv. }
  split; [exact Hq|]. intros now s. unfold UpsertDeviceFromJoinPackage. rewrite Hq. eexists. split; [done|]. cbn [st_Devices].
  destruct (upsert_device_spec now q (st_Devices s)) as [(l1 & d & l2 & E & Hd' & Hn & ->)|[Hn ->]].
  - exists (linked q d). split; [apply elem_of_app; right; left|by destruct Hd'].
  - exists (new_device now q). split; [apply elem_of_app; right; left|done].
Qed.

(** ** From the request to the linked device *)

Lemma encoded_not_blank b : bytes_ok b -> b <> [] -> is_blank (EncodeToString b) = false.
Proof. intros Hb Hne. destruct (is_blank _) eqn:E; [|done]. by apply (blank_decodes_empty _ b) in E; [|by apply DecodeString_EncodeToString]. Qed.

Lemma decodes_not_blank s b : DecodeString s = Some b -> 0 < blen b -> is_blank s = false.
Proof. intros Hs Hb. destruct (is_blank s) eqn:E; [|done]. by rewrite (blank_decodes_empty _ _ E Hs) in Hb. Qed.

Lemma not_blank_nonempty s : is_blank s = false -> is_empty s = false.
Proof. by destruct s. Qed.

Lemma decode_sized_known s b n what : DecodeString s = Some b -> blen b = n -> decode_sized s n what = Ok b.
Proof. intros Hs Hn. unfold decode_sized. rewrite Hs. by rewrite (proj2 (Z.eqb_eq _ _)). Qed.

(** A persona with a working pair of keys. *)
Definition persona_signs (p : Persona) (pub priv : list Z) : Prop :=
  is_empty (pe_ID p) = false /\ 0 < pe_CreatedAt p /\ DecodeString (pe_SignPubB64 p) = Some pub /\ DecodeString (pe_SignPrivB64 p) = Some priv
  /\ blen pub = PublicKeySize /\ blen priv = PrivateKeySize /\ signs pub priv.

Lemma persona_keypair p pub priv : persona_signs p pub priv -> SignKeypair p = Ok (pub, priv) /\ Persona_Validate p = Ok tt.
Proof.
  intros (Hid & Hc & Hpub & Hpriv & Hl1 & Hl2 & _). assert (SignKeypair p = Ok (pub, priv)) as Hk by (unfold SignKeypair, sign_keypair; by rewrite Hpub, Hpriv, Hl1, Hl2).
  split; [done|]. unfold Persona_Validate. by rewrite Hid, Hk, (proj2 (Z.leb_gt _ _)).
Qed.

(** Random bytes were drawn. *)
Definition drawn (rnd : option (list Z)) : Prop := exists b, rnd = Some b /\ bytes_ok b /\ b <> [].

Lemma IssueDeviceCert_ok nonce now p pub priv device key kpub : drawn nonce -> persona_signs p pub priv -> is_blank device = false ->
  DecodeString key = Some kpub -> blen kpub = PublicKeySize -> 0 < Unix now ->
  exists c, IssueDeviceCert nonce now p device key = Ok c /\ VerifyDeviceCert (pe_SignPubB64 p) c = Ok tt /\ dc_IssuedAt c = Unix now
    /\ dc_PersonaID c = pe_ID p /\ dc_DeviceID c = TrimSpace device /\ dc_DevicePubB64 c = key.
Proof.
  intros (nb & -> & Hnb & Hne) Hp Hd Hk Hl Hnow. destruct (persona_keypair _ _ _ Hp) as [Hkp _]. destruct Hp as (Hid & _ & Hpub & _ & Hl1 & _ & Hs).
  assert (is_empty key = false) as Hke by (apply not_blank_nonempty, (decodes_not_blank _ _ Hk); rewrite Hl; done).
  unfold IssueDeviceCert. rewrite Hd, Hke, Hkp, (decode_sized_known _ _ _ _ Hk Hl). cbn [negb rbind random_b64 snd]. cbv zeta. eexists. split; [done|]. split; [|done].
  set (c := mkCert _ _ _ _ _ EmptyString). assert (cert_signable (with_cert_sig (EncodeToString (ed_sign priv (cert_signable c))) c) = cert_signable c) as Ec by done.
  destruct (Hs (cert_signable c)) as (Hsb & Hsl & Hsv). unfold VerifyDeviceCert. rewrite Ec, (decodes_not_blank _ _ Hpub) by (rewrite Hl1; done). rewrite (decode_sized_known _ _ _ _ Hpub Hl1). cbn [negb rbind].
  cbn [dc_PersonaID dc_DeviceID dc_DevicePubB64 dc_IssuedAt dc_NonceB64 dc_SigB64 with_cert_sig]. subst c. cbn [dc_PersonaID dc_DeviceID dc_DevicePubB64 dc_IssuedAt dc_NonceB64 dc_SigB64] in *.
  assert (is_blank (TrimSpace device) = false) as -> by (unfold is_blank in *; by rewrite TrimSpace_idemp).
  rewrite Hid, Hke, (not_blank_nonempty _ (encoded_not_blank _ Hnb Hne)), (proj2 (Z.leb_gt _ _)) by done.
  rewrite EncodeToString_nonempty by (intros E; by rewrite E in Hsl). cbn [negb orb].
  rewrite (decode_sized_known _ (ed_sign priv _) _ _ (DecodeString_EncodeToString _ Hsb) Hsl). cbn [rbind]. by rewrite Hsv.
Qed.

(** A request between the clocks of its making and of its reading. *)
Lemma DeviceRequest_ok nonce t now persona device key kpub recipient : drawn nonce -> is_empty persona = false -> is_blank device = false ->
  DecodeString key = Some kpub -> blen kpub = PublicKeySize -> age_parse (TrimSpace recipient) = true -> 0 < Unix t -> Unix now <= Unix t + 600 ->
  exists nb, nonce = Some nb /\ NewDeviceJoinRequestForDevice nonce t persona device key recipient
      = Ok (mkDeviceRequest SchemaV1 persona (TrimSpace device) key (TrimSpace recipient) (Unix t) (Unix t + 600) (EncodeToString nb))
    /\ DeviceRequest_Validate now (mkDeviceRequest SchemaV1 persona (TrimSpace device) key (TrimSpace recipient) (Unix t) (Unix t + 600) (EncodeToString nb)) = Ok tt.
Proof.
  intros (nb & -> & Hnb & Hne) Hper Hd Hk Hl Ha Ht Hnow. exists nb. split; [done|].
  assert (is_empty key = false) as Hke by (apply not_blank_nonempty, (decodes_not_blank _ _ Hk); rewrite Hl; done).
  assert (Unix (TimeAdd t (10 * Minute)) = Unix t + 600) as Hexp by (unfold Unix, TimeAdd, Minute, Second; Z.div_mod_to_equations; lia).
  change (is_empty (TrimSpace device)) with (is_blank device). unfold NewDeviceJoinRequestForDevice, DeviceRequest_Validate. cbv zeta.
  cbn [dj_Schema dj_PersonaID dj_DeviceID dj_DevicePubB64 dj_AgeRecipient dj_CreatedAt dj_ExpiresAt dj_NonceB64]. change (is_empty (TrimSpace device)) with (is_blank device).
  rewrite Hper, Hd, Hke, Ha, orb_true_r, Hexp, TrimSpace_idemp, Ha, orb_true_r, !(decode_sized_known _ _ _ _ Hk Hl).
  rewrite (not_blank_nonempty _ (encoded_not_blank _ Hnb Hne)), !(proj2 (Z.leb_gt _ _)), !(proj2 (Z.ltb_ge _ _)) by lia. by split.
Qed.

Lemma ApproveDeviceJoinRequest_ok nonce t now p pub priv r kpub : drawn nonce -> persona_signs p pub priv -> dj_PersonaID r = pe_ID p -> DeviceRequest_Validate t r = Ok tt ->
  is_blank (dj_DeviceID r) = false -> DecodeString (dj_DevicePubB64 r) = Some kpub -> blen kpub = PublicKeySize -> 0 < Unix now ->
  exists c, ApproveDeviceJoinRequest nonce t now p r = Ok (mkPackage (pe_ID p) (dj_DeviceID r) DeviceTrusted (dj_DevicePubB64 r) c (Unix now))
    /\ Package_Validate (pe_SignPubB64 p) (mkPackage (pe_ID p) (dj_DeviceID r) DeviceTrusted (dj_DevicePubB64 r) c (Unix now)) = Ok tt.
Proof.
  intros Hn Hp Hper Hr Hd Hk Hl Hnow. destruct (IssueDeviceCert_ok nonce now p pub priv (dj_DeviceID r) (dj_DevicePubB64 r) kpub) as (c & Hc & Hv & Hi & _); [done..|].
  exists c. unfold ApproveDeviceJoinRequest. rewrite bool_decide_eq_true_2, Hr by done. cbn [rbind]. rewrite Hc. cbn [rbind]. rewrite Hi, Hper. split; [done|].
  unfold Package_Validate. cbn [dp_PersonaID dp_DeviceID dp_DevicePubB64 dp_IssuedAt dp_Trust dp_Cert]. destruct Hp as (Hid & _).
  assert (is_empty (dj_DevicePubB64 r) = false) as -> by (apply not_blank_nonempty, (decodes_not_blank _ _ Hk); rewrite Hl; done).
  rewrite Hid, (not_blank_nonempty _ Hd), (proj2 (Z.leb_gt _ _)), bool_decide_eq_true_2 by done. exact Hv.
Qed.

Lemma NewDeviceLinkBundle_ok t now u p r pk : Persona_Validate p = Ok tt -> DeviceRequest_Validate t r = Ok tt -> dp_PersonaID pk = pe_ID p -> dp_DeviceID pk = dj_DeviceID r ->
  is_blank (dj_NonceB64 r) = false -> Package_Validate (pe_SignPubB64 p) pk = Ok tt -> 0 < Unix now <= Unix u -> Unix u <= dj_ExpiresAt r <= Unix now + 600 ->
  NewDeviceLinkBundle t now p r pk = Ok (mkLinkBundle SchemaV1 p pk (Unix now) (dj_ExpiresAt r) (dj_NonceB64 r))
  /\ LinkBundle_Validate u (mkLinkBundle SchemaV1 p pk (Unix now) (dj_ExpiresAt r) (dj_NonceB64 r)) = Ok tt.
Proof.
  intros Hp Hr H1 H2 Hn Hv Hu He. unfold NewDeviceLinkBundle. rewrite Hp, Hr. cbn [rbind]. rewrite !bool_decide_eq_true_2 by done. cbn [andb].
  rewrite Z.min_l by lia. split; [done|]. unfold LinkBundle_Validate, maxDeviceLinkLifetimeSec. cbn [lb_Schema lb_CreatedAt lb_ExpiresAt lb_NonceB64 lb_Persona lb_JoinPackage].
  rewrite Hn, !(proj2 (Z.leb_gt _ _)), !(proj2 (Z.ltb_ge _ _)), Hp by lia. cbn [negb orb Z.eqb Pos.eqb SchemaV1 rbind]. by rewrite bool_decide_eq_true_2.
Qed.

(** The envelope of a valid bundle, as it is sealed for a recipient. *)
Definition sealed (p : Persona) (priv : list Z) (recipient : string) (b : DeviceLinkBundle) (ct : list Z) : DeviceLinkEnvelope :=
  let e := mkEnvelope SchemaV1 "age-x25519" (pe_SignPubB64 p) ("age-x25519:" ++ fingerprint16 recipient)%string (lb_CreatedAt b) (lb_ExpiresAt b) (lb_NonceB64 b)
             (EncodeToString ct) EmptyString in
  with_envelope_sig (EncodeToString (ed_sign priv (envelope_signable e ct))) e.

Lemma sealed_valid now p pub priv recipient b ct : persona_signs p pub priv -> LinkBundle_Validate now b = Ok tt -> bytes_ok ct -> ct <> [] ->
  Envelope_Validate now (sealed p priv recipient b ct) = Ok tt.
Proof.
  intros (_ & _ & Hpub & _ & Hl1 & _ & Hs) Hv Hct Hne. unfold sealed. cbv zeta. set (e := mkEnvelope _ _ _ _ _ _ _ _ _). set (sig := ed_sign priv _).
  destruct (Hs (envelope_signable e ct)) as (Hsb & Hsl & _). unfold Envelope_Validate. subst e.
  cbn [le_Schema le_Cipher le_SenderPubB64 le_RecipientKeyID le_CreatedAt le_ExpiresAt le_NonceB64 le_CiphertextB64 le_SigB64 with_envelope_sig].
  rewrite bool_decide_eq_true_2, (decodes_not_blank _ _ Hpub) by (done || rewrite Hl1; done).
  assert (is_blank ("age-x25519:" ++ fingerprint16 recipient)%string = false) as -> by (unfold is_blank; by rewrite TrimSpace_printable by apply recipient_id_printable).
  unfold LinkBundle_Validate in Hv. do 5 passes Hv. rewrite (encoded_not_blank ct), (encoded_not_blank sig); [reflexivity|exact Hsb| |exact Hct|exact Hne].
  intros E. unfold sig in E. by rewrite E in Hsl.
Qed.

(** What is sealed is opened with the identity, once it is read. *)
Lemma sealed_opens now p pub priv recipient ident id b ct : persona_signs p pub priv -> lb_Persona b = p -> LinkBundle_Validate now b = Ok tt -> bytes_ok ct -> ct <> [] ->
  is_blank ident = false -> parse_identity (TrimSpace ident) = Some id -> age_decrypt id ct = Some (json_link_bundle b) -> read_link_bundle (json_link_bundle b) = Some b ->
  open_envelope now (sealed p priv recipient b ct) ident = Ok b.
Proof.
  intros Hp Hb Hv Hct Hne Hi Hid Hdec Hread. pose proof (sealed_valid now p pub priv recipient b ct Hp Hv Hct Hne) as Hval.
  destruct Hp as (_ & _ & Hpub & _ & Hl1 & _ & Hs). unfold open_envelope. rewrite Hval. cbn [rbind]. clear Hval. unfold sealed. cbv zeta. set (e := mkEnvelope _ _ _ _ _ _ _ _ _).
  destruct (Hs (envelope_signable e ct)) as (Hsb & Hsl & Hsv). cbn [le_CiphertextB64 le_SigB64 le_SenderPubB64 le_CreatedAt le_ExpiresAt le_NonceB64 with_envelope_sig].
  unfold decode_field. assert (le_CiphertextB64 e = EncodeToString ct) as -> by done. rewrite !DecodeString_EncodeToString by done. cbn [rbind].
  assert (le_SenderPubB64 e = pe_SignPubB64 p) as -> by done. rewrite (decode_sized_known _ _ _ _ Hpub Hl1). cbn [rbind].
  change (envelope_signable (with_envelope_sig _ e) ct) with (envelope_signable e ct). rewrite Hsv. change (is_empty (TrimSpace ident)) with (is_blank ident). rewrite Hi, Hid. cbn [negb].
  rewrite Hdec. unfold parse. rewrite Hread. cbn [rbind]. rewrite Hv. cbn [rbind]. rewrite Hb.
  assert (le_CreatedAt e = lb_CreatedAt b /\ le_ExpiresAt e = lb_ExpiresAt b /\ le_NonceB64 e = lb_NonceB64 b) as (-> & -> & ->) by done.
  by rewrite !bool_decide_eq_true_2, !Z.eqb_refl.
Qed.

Lemma json_envelope_ok e : bytes_ok (json_envelope e).
Proof. apply json_object_ok. repeat (apply Forall_cons_2; [cbn [snd]; auto with sl|]). constructor. Qed.

(** C29: A device is linked: the request of a device with a key, approved by the persona within
    ten minutes, gives a bundle with the persona's keys and the trusted device; sealed for the
    device's recipient and opened with its identity it is the same bundle, if age opens what
    it seals and the JSON that is read is the JSON that was written, within 64 KiB. *)
Theorem device_is_linked n1 n2 rnd t0 t1 t2 t3 t4 t5 now p pub priv device key kpub recipient ident id :
  drawn n1 -> drawn n2 -> persona_signs p pub priv -> is_blank device = false -> DecodeString key = Some kpub -> blen kpub = PublicKeySize ->
  is_blank recipient = false -> age_parse (TrimSpace recipient) = true -> is_blank ident = false -> parse_identity (TrimSpace ident) = Some id ->
  0 < Unix t0 /\ Forall (fun t => Unix t0 <= Unix t <= Unix t0 + 600) [t1; t2; t3] /\ Unix t0 <= Unix t4 /\ Unix t4 <= Unix t5 <= Unix now /\ Unix now <= Unix t0 + 600 ->
  exists r pk b, NewDeviceJoinRequestForDevice n1 t0 (pe_ID p) device key recipient = Ok r
    /\ ApproveDeviceJoinRequest n2 t1 t2 p r = Ok pk /\ NewDeviceLinkBundle t3 t4 p r pk = Ok b
    /\ lb_Persona b = p /\ lb_JoinPackage b = pk /\ dp_DeviceID pk = TrimSpace device /\ dp_DevicePubB64 pk = key /\ Package_Validate (pe_SignPubB64 p) pk = Ok tt
    /\ forall ct, age_encrypt (TrimSpace recipient) rnd (json_link_bundle b) = Some ct -> bytes_ok ct /\ ct <> [] -> age_decrypt id ct = Some (json_link_bundle b) ->
       let e := sealed p priv (TrimSpace recipient) b ct in
       EncryptDeviceLinkBundle rnd t5 p (dj_AgeRecipient r) b = Ok (Envelope_Encode e)
         /\ (read_envelope (json_envelope e) = Some e -> read_cipher (json_envelope e) = Some (le_Cipher e) -> read_link_bundle (json_link_bundle b) = Some b ->
             slen (Envelope_Encode e) <= maxDeviceLinkEncodedLen -> blen (json_envelope e) <= maxDeviceLinkRawLen -> DecryptDeviceLink now (Envelope_Encode e) ident = Ok b).
Proof.
  intros Hn1 Hn2 Hp Hd Hk Hl Hr Ha Hi Hid (H0 & Ht & H4 & H5 & Hnow). rewrite !Forall_cons in Ht. destruct Ht as (H1 & H2 & H3 & _).
  destruct (persona_keypair _ _ _ Hp) as [Hkp Hpv]. pose proof Hp as (Hpid & _).
  destruct (DeviceRequest_ok n1 t0 t1 (pe_ID p) device key kpub recipient) as (nb & En & Er & Hr1); [done..|lia|].
  destruct (DeviceRequest_ok n1 t0 t3 (pe_ID p) device key kpub recipient) as (nb' & En' & _ & Hr3); [done..|lia|]. assert (nb' = nb) as -> by congruence.
  set (r := mkDeviceRequest _ _ _ _ _ _ _ _) in *. assert (is_blank (dj_DeviceID r) = false) as Hd' by (cbn; unfold is_blank in *; by rewrite TrimSpace_idemp).
  destruct (ApproveDeviceJoinRequest_ok n2 t1 t2 p pub priv r kpub) as (c & Epk & Hpk); [done..|lia|]. set (pk := mkPackage _ _ _ _ _ _) in *.
  assert (is_blank (dj_NonceB64 r) = false) as Hnb by (destruct Hn1 as (x & Ex & Hx & Hx'); rewrite Ex in En; injection En as <-; by apply encoded_not_blank).
  destruct (NewDeviceLinkBundle_ok t3 t4 t5 p r pk) as [Eb Hb5]; [done..|lia|cbn; lia|].
  destruct (NewDeviceLinkBundle_ok t3 t4 now p r pk) as [_ Hbn]; [done..|lia|cbn; lia|]. set (b := mkLinkBundle _ _ _ _ _ _) in *.
  exists r, pk, b. repeat (split; [done|]). intros ct Hct [Hcb Hcn] Hdec e. split.
  - unfold EncryptDeviceLinkBundle. cbv zeta. cbn [dj_AgeRecipient r]. rewrite TrimSpace_idemp. change (is_empty (TrimSpace recipient)) with (is_blank recipient).
    rewrite Hr, Hb5. cbn [negb rbind]. rewrite bool_decide_eq_true_2, Ha, Hct, Hkp by done. done.
  - intros Hre Hrc Hrb Hle Hlb.
    assert (decode_raw "sn4dl:" (Envelope_Encode e) true = Ok (json_envelope e)) as Hraw.
    { unfold decode_raw, Envelope_Encode, encode_token in *. rewrite HasPrefix_app, TrimPrefix_app, DecodeString_EncodeToString by apply json_envelope_ok.
      assert (slen "sn4dl:" <= slen ("sn4dl:" ++ EncodeToString (json_envelope e))%string) as Hpre by (unfold slen; rewrite bytes_of_app, blen_app; unfold blen; lia).
      rewrite (proj2 (Z.ltb_ge _ _) Hpre), (proj2 (Z.ltb_ge _ _) Hle), (proj2 (Z.ltb_ge _ _) Hlb). reflexivity. }
    unfold DecryptDeviceLink, DecodeDeviceLinkEnvelope. rewrite Hraw. cbn [rbind]. unfold parse. rewrite Hrc, Hre. cbn [rbind].
    assert (is_blank (le_Cipher e) = false /\ is_empty (le_Cipher e) = false) as [-> ->] by (split; vm_compute; reflexivity). cbn [negb].
    assert (Envelope_Validate now e = Ok tt) as -> by by apply (sealed_valid now p pub). cbn [rbind]. by apply (sealed_opens now p pub priv (TrimSpace recipient) ident id b ct).
Qed.
End links.
