(* ===== verification/CommunityExamples.v ===== *)
(** * Concrete communities and identities

    A simple signature scheme and decoder, an issuer and an applicant, and the theorems about
    communities applied to what they sign; then a persona, its mailbox and a linked device. *)

From S2P Require Import Prelude Sha256 GoStr Persona Community CommunitySpec CommunityService CommunityServiceSpec.

#[local] Open Scope string_scope.
#[local] Open Scope list_scope.
#[local] Open Scope Z_scope.

#[local] Instance toy_ed25519 : Ed25519 := {|
  ed_verify pub msg sig := bool_decide (sig = replicate 64 (hd 0 pub));
  ed_sign priv msg := replicate 64 (hd 0 priv);
|}.

Definition pub (x : Z) : list Z := replicate 32 x.
Definition priv (x : Z) : list Z := replicate 64 x.
Definition key (x : Z) : string := EncodeToString (pub x).

Lemma key_signs x : is_u8 x -> signs (pub x) (priv x).
Proof.
  intros Hx msg. unfold ed_sign, ed_verify, toy_ed25519. change (hd 0 (priv x)) with x. change (hd 0 (pub x)) with x.
  split; [apply Forall_replicate; exact Hx|]. split; [unfold blen; by rewrite length_replicate|]. by apply bool_decide_eq_true_2.
Qed.

(** Key 2 issues an invite for two, key 3 applies, key 2 or key 3 approves. *)
Definition t0 : Time := 1000 * Second.
Definition env : token_env := mkTokenEnv (Some (replicate 16 1)) (Some (replicate 24 7)).
Lemma env_fills : env_ok env.
Proof. by split. Qed.

Definition invite : Invite := Eval vm_compute in match NewInvite env t0 "c" (key 2) (priv 2) 0 2 with Ok i => i | Err _ => mkInvite 0 "" "" "" 0 0 0 "" "" end.
Definition request : JoinRequest := Eval vm_compute in match NewJoinRequest env t0 t0 invite (key 3) (priv 3) with Ok r => r | Err _ => mkRequest 0 "" "" "" 0 "" "" end.
Definition approval (by_ : Z) (role : string) : JoinApproval :=
  match ApproveJoin env t0 t0 t0 invite request (key by_) (priv by_) role with Ok a => a | Err _ => mkApproval 0 "" "" "" "" "" 0 "" "" end.
Definition approved : JoinApproval := Eval vm_compute in approval 2 RoleMember.
Definition self_approved : JoinApproval := Eval vm_compute in approval 3 RoleOwner.
Definition ban : Revocation := Eval vm_compute in match NewRevocation env t0 "c" BanMember (key 3) (key 2) (priv 2) with Ok r => r | Err _ => mkRevocation 0 "" "" "" "" 0 "" "" end.
Definition unban : Revocation := Eval vm_compute in match NewRevocation env t0 "c" RevokeMember (key 3) (key 3) (priv 3) with Ok r => r | Err _ => mkRevocation 0 "" "" "" "" 0 "" "" end.

Definition joins : list reg_op := [OpAddInvite t0 invite; OpApplyJoin t0 invite request approved 2].
Definition member : Member := mkMember "c" (key 3) RoleMember MemberActive 1000 (key 2) (iv_ID invite).

Lemma signatures_bind_statements_witness : unsigned (SInvite invite) = unsigned (SInvite (with_invite_sig "AA" invite)).
Proof.
  apply signatures_bind_statements; [..|reflexivity]; (split; [repeat (apply Forall_cons_2; [vm_compute; reflexivity|]); constructor|
    repeat (apply Forall_cons_2; [unfold_ints; cbn; lia|]); constructor]).
Defined.

Lemma members_asked_to_join_witness : exists now inv req a, join_matches now inv req a = Ok tt /\ jr_ApplicantPubB64 req = key 3 /\ ja_IssuerPubB64 a = key 2.
Proof.
  destruct (members_asked_to_join joins "c" (key 3) member) as (_ & _ & now & inv & req & a & Hm & Hk & _ & Hi & _); [vm_compute; reflexivity|].
  by exists now, inv, req, a.
Defined.

Definition once : reg_world := reg_run joins fresh.
Definition twice : Registry := (ApplyJoin t0 invite request self_approved 2 (rw_registry once)).2.

Lemma joins_again : ApplyJoin t0 invite request self_approved 2 (rw_registry once) = (Ok (mkMember "c" (key 3) RoleOwner MemberActive 1000 (key 3) (iv_ID invite)), twice).
Proof. vm_compute. reflexivity. Qed.

Lemma effective_once : effective_invite invite (rw_registry once) = invite.
Proof. vm_compute. reflexivity. Qed.

Lemma invites_are_limited_witness :
  Z.of_nat (length (filter (fun j => mb_InviteID (jo_member j) = iv_ID invite) (rw_joins once))) < 2.
Proof.
  pose proof (invites_are_limited joins t0 invite request self_approved 2 _ twice joins_again) as H. cbv zeta in H. fold once in H.
  rewrite effective_once in H. exact (H eq_refl).
Defined.

Lemma joins_are_rate_limited_witness : Z.of_nat (length (joins_since once "c" (key 3) (Unix t0 - 3600))) < normalize_rate 2 <= 50.
Proof.
  refine (joins_are_rate_limited joins t0 invite request self_approved 2 (mkMember "c" (key 3) RoleOwner MemberActive 1000 (key 3) (iv_ID invite)) twice _ _ joins_again).
  - repeat constructor; vm_compute; discriminate.
  - repeat (apply Forall_cons_2; [vm_compute; discriminate|]). constructor.
Defined.

Lemma bans_hold_witness :
  status_of (rw_registry (reg_run [OpApplyJoin t0 invite request self_approved 2; OpApplyRevocation t0 ban] (reg_run (joins ++ [OpApplyRevocation t0 ban]) fresh))) "c" (key 3)
  = Some MemberBanned.
Proof.
  apply (bans_hold "c" (key 3)); [vm_compute; reflexivity|].
  apply Forall_cons_2; [by intros []|]. apply Forall_cons_2; [|constructor]. intros (_ & Hk & _). discriminate Hk.
Defined.

Lemma approved_joins_are_applied_witness : exists m r', ApplyJoin t0 invite request self_approved 2 NewRegistry = (Ok m, r') /\ mb_Role m = RoleOwner.
Proof.
  destruct (approved_joins_are_applied env env t0 t0 t0 t0 t0 t0 invite (pub 3) (key 3) (priv 3) (pub 3) (key 3) (priv 3) RoleOwner 2 NewRegistry request self_approved)
    as (m & r' & Hj & _ & _ & Hr & _); try exact env_fills; try (apply key_signs; by decided); try (vm_compute; reflexivity).
  - split; [vm_compute; reflexivity|]. split; [lia|]. split; [vm_compute; discriminate|split; vm_compute; discriminate].
  - split; [vm_compute; reflexivity|]. split; [lia|]. split; [vm_compute; discriminate|split; vm_compute; discriminate].
  - intros H. vm_compute in H. discriminate H.
  - exists m, r'. split; [exact Hj|exact Hr].
Defined.

Lemma banned_member_lifts_ban_witness :
  status_of (ApplyRevocation t0 unban (rw_registry (reg_run (joins ++ [OpApplyRevocation t0 ban]) fresh))).2 "c" (key 3) = Some MemberRevoked.
Proof.
  apply (banned_member_lifts_ban env t0 t0 "c" (key 3) (pub 3) (priv 3)); try exact env_fills; try (apply key_signs; by decided); try (vm_compute; reflexivity).
  split; [vm_compute; reflexivity|]. split; [lia|]. split; [vm_compute; discriminate|split; vm_compute; discriminate].
Defined.

(** ** Services *)

(** The decoder knows the statements; the file keeps one state. *)
#[local] Instance toy_tokens : TokenJSON := {|
  read_invite b := if bool_decide (b = json_invite invite) then Some invite else None;
  read_request b := if bool_decide (b = json_request request) then Some request else None;
  read_approval b := if bool_decide (b = json_approval approved) then Some approved else None;
  read_revocation b := None;
|}.
#[local] Instance toy_file : CommunityFile (option State) := {|
  file_read f := Some f;
  file_write s f := (true, Some s);
|}.
#[local] Instance toy_file_laws : FileLaws.
Proof. by intros s f f' [= <-]. Qed.

Definition issuer : Persona := mkPersona "i" 1 0 (key 2) (EncodeToString (priv 2)).
Definition applicant : Persona := mkPersona "a" 1 0 (key 3) (EncodeToString (priv 3)).
Definition owner_state : State := mkState 1 1000 [mkCommunity "c" 1000 RoleOwner] [mkStoredInvite invite 0] [].

Definition service_ops : list service_op := [OpCreateCommunity "c" "" None t0; OpCreateInvite env t0 issuer "c" 0 2].
Definition after_ops : State * option State := Eval vm_compute in fold_left service_step service_ops (NewState t0, None).

Lemma service_state_stays_valid_witness : exists f', NewService t0 f' = Ok (set_updated t0 after_ops.1).
Proof.
  destruct (service_state_stays_valid t0 None (NewState t0) service_ops t0 t0 after_ops.1 after_ops.2) as (f' & _ & H); [vm_compute; reflexivity| |vm_compute; reflexivity..|by exists f'].
  apply Forall_cons_2; [split; [vm_compute; reflexivity|done]|]. apply Forall_cons_2; [|constructor]. split; [vm_compute; reflexivity|]. split; [exact env_fills|].
  intros p q Hk. assert (SignKeypair issuer = Ok (pub 2, priv 2)) as E by (vm_compute; reflexivity). rewrite E in Hk. injection Hk as <- <-. apply key_signs. by decided.
Defined.

Lemma invited_user_joins_witness : exists m s' f',
  Service_ApplyJoin t0 applicant (Invite_Encode invite) (Request_Encode request) (Approval_Encode approved) (NewState t0) (None : option State) = (Ok m, (s', f'))
  /\ RoleOf "c" s' = Some RoleMember.
Proof.
  destruct (invited_user_joins env env env t0 issuer applicant (pub 2) (priv 2) (pub 3) (priv 3) "c" 0 2 RoleMember invite request approved owner_state (NewState t0) None)
    as (_ & _ & m & s' & f' & Hj & _ & _ & _ & _ & Hr); try exact env_fills; try (apply key_signs; by decided); try (vm_compute; reflexivity).
  - split; vm_compute; discriminate.
  - apply community_state_spec. vm_compute. reflexivity.
  - exists m, s', f'. split; [exact Hj|exact Hr].
Defined.

(** * A concrete persona, its mailbox and a linked device *)

From S2P Require Import Prelude Float64 Sha256 GoStr Community CommunitySpec Persona PersonaSpec Bundle DeviceLink DeviceLinkSpec.

#[local] Existing Instance toy_ed25519.
#[local] Instance toy_x25519 : X25519 := fun priv => Some priv.

(** ** The state, prekeys and mailboxes *)

Definition mailbox : MailboxBinding := mkMailbox "i" 1000 0 (key 9) 100.
Definition prekey (id : string) (expires : Z) : PreKey := mkPreKey id 1000 expires (key 4) (key 4).
Definition laptop : Device := mkDevice "i" "laptop" 1000 0 DeviceUnverified "" (key 5) (EncodeToString (priv 5)).
Definition start : State := mkState SchemaV1 1000 [issuer] [prekey "short" 1100; prekey "long" 9000] [laptop] [mailbox].

Lemma saved_states_stay_loadable_witness : State_Validate (2000 * Second) (Prune (2000 * Second) start) = Ok tt.
Proof. apply (saved_states_stay_loadable t0 (2000 * Second) start). vm_compute. reflexivity. Defined.

(** The [j]-th draw has its own identifier. *)
Definition draws (j : nat) : prekey_env := mkPreKeyEnv (Some (replicate 32 6)) (Some [Z.of_nat (j / 256); Z.of_nat (j mod 256)]) t0.

Lemma draws_ok j : draw_ok t0 (draws j).
Proof.
  exists (replicate 32 6), (replicate 32 6), [Z.of_nat (j / 256); Z.of_nat (j mod 256)]. repeat (split; [first [done|by decided]|]). by vm_compute.
Qed.

Lemma EnsurePreKeys_supplies_witness : exists s', EnsurePreKeys 4 Hour t0 draws start = (2, None, s') /\ State_Validate t0 s' = Ok tt.
Proof.
  destruct (EnsurePreKeys_supplies 4 Hour t0 draws start t0) as (s' & H & _ & Hs & _);
    [apply State_Validate_spec; vm_compute; reflexivity|lia|reflexivity|exact draws_ok|apply (bool_decide_eq_true_1 _); vm_compute; reflexivity|].
  exists s'. split; [|by apply State_Validate_spec]. rewrite H. vm_compute. reflexivity.
Defined.

(** The mailbox at [t0] and the time of the next. *)
Definition box : string * Time := Eval vm_compute in match MailboxAt t0 3600 mailbox with Ok r => r | Err _ => ("", 0) end.

Lemma mailboxes_rotate_witness : MailboxPrevAt box.2 3600 mailbox = Ok box.1 /\ MailboxAt (t0 + 5) 3600 mailbox = Ok box.
Proof.
  destruct (mailboxes_rotate t0 3600 mailbox box.1 box.2) as (_ & _ & H1 & H2); [by vm_compute|vm_compute; reflexivity|].
  split; [exact H2|]. apply H1. vm_compute. by split.
Defined.

Definition some_decoys : list string := Eval vm_compute in match DecoyMailboxesAt t0 3600 3 mailbox with Ok ids => ids | Err _ => [] end.

Lemma decoys_are_not_the_mailbox_witness : box.1 ∉ some_decoys.
Proof. apply (decoys_are_not_the_mailbox t0 3600 3 mailbox some_decoys box.1 box.2); [by vm_compute|vm_compute; reflexivity..]. Defined.

Lemma DeriveInt_within_witness : exists v, DeriveInt "poll" 20 10 mailbox = Ok v /\ 10 <= v <= 20.
Proof.
  eexists. split; [vm_compute; reflexivity|].
  refine (DeriveInt_within "poll" 20 10 mailbox _ _ _ _ _); [unfold_ints; lia|unfold_ints; lia|lia|vm_compute; reflexivity].
Defined.

(** ** A link *)

#[local] Instance toy_age : Age := {|
  age_recipient key := "age1";
  age_parse s := true;
  age_encrypt s rnd b := Some b;
  age_decrypt key c := Some c;
|}.
#[local] Instance toy_identity : AgeIdentity := fun s => Some [1].

Definition take_ok {A} (x : A) (r : res string A) : A := match r with Ok a => a | Err _ => x end.
Definition nonce : option (list Z) := Some (replicate 24 7).
Definition join_request : DeviceJoinRequest :=
  Eval vm_compute in take_ok (mkDeviceRequest 0 "" "" "" "" 0 0 "") (NewDeviceJoinRequestForDevice nonce t0 "i" "laptop" (key 5) "age1").
Definition no_package : DeviceJoinPackage := mkPackage "" "" "" "" (mkCert "" "" "" 0 "" "") 0.
Definition package : DeviceJoinPackage := Eval vm_compute in take_ok no_package (ApproveDeviceJoinRequest nonce t0 t0 issuer join_request).
Definition link_bundle : DeviceLinkBundle := Eval vm_compute in take_ok (mkLinkBundle 0 issuer no_package 0 0 "") (NewDeviceLinkBundle t0 t0 issuer join_request package).
Definition envelope : DeviceLinkEnvelope := Eval vm_compute in sealed issuer (priv 2) "age1" link_bundle (json_link_bundle link_bundle).

#[local] Instance toy_links : LinkJSON := {|
  read_offer b := None;
  read_device_request b := if bool_decide (b = json_device_request join_request) then Some join_request else None;
  read_package b := None;
  read_link_bundle b := if bool_decide (b = json_link_bundle link_bundle) then Some link_bundle else None;
  read_envelope b := if bool_decide (b = json_envelope envelope) then Some envelope else None;
  read_cipher b := if bool_decide (b = json_envelope envelope) then Some "age-x25519" else None;
|}.

Lemma issuer_signs : persona_signs issuer (pub 2) (priv 2).
Proof. repeat (split; [by vm_compute|]). apply key_signs. by decided. Qed.

Lemma drawn_nonce : drawn nonce.
Proof. exists (replicate 24 7). split; [done|]. by split; [by decided|]. Qed.

Lemma persona_signatures_do_not_mix_witness : content (SCert (dp_Cert package)) = content (SCert (with_cert_sig "AA" (dp_Cert package))).
Proof.
  apply persona_signatures_do_not_mix; [..|reflexivity]; (split; [repeat (apply Forall_cons_2; [vm_compute; reflexivity|]); constructor|
    repeat (apply Forall_cons_2; [unfold_ints; cbn; lia|]); constructor]).
Defined.

Lemma device_is_linked_witness : DecryptDeviceLink t0 (Envelope_Encode envelope) "id" = Ok link_bundle /\ lb_Persona link_bundle = issuer.
Proof.
  destruct (device_is_linked nonce nonce [] t0 t0 t0 t0 t0 t0 t0 issuer (pub 2) (priv 2) "laptop" (key 5) (pub 5) "age1" "id" [1] drawn_nonce drawn_nonce issuer_signs)
    as (r & pk & b & Er & Epk & Eb & Hb & _ & _ & _ & _ & H); [vm_compute; reflexivity..| |].
  - split; [by vm_compute|]. split; [repeat (apply Forall_cons_2; [by vm_compute|]); constructor|]. split; [by vm_compute|]. split; by vm_compute.
  - assert (r = join_request) as -> by (apply (f_equal (take_ok join_request)) in Er; exact (eq_sym Er)).
    assert (pk = package) as -> by (apply (f_equal (take_ok package)) in Epk; exact (eq_sym Epk)).
    assert (b = link_bundle) as -> by (apply (f_equal (take_ok link_bundle)) in Eb; exact (eq_sym Eb)).
    destruct (H (json_link_bundle link_bundle)) as [_ He]; [reflexivity|split; [by decided|by vm_compute]|reflexivity|].
    split; [|exact Hb]. apply He; vm_compute; first [reflexivity|discriminate].
Defined.

Definition link_token : string := Eval vm_compute in Envelope_Encode envelope.
Lemma token_opens : DecryptDeviceLink t0 link_token "id" = Ok link_bundle.
Proof. vm_compute. reflexivity. Qed.

Lemma decrypted_link_is_authentic_witness : link_ok t0 link_bundle.
Proof. exact (proj1 (decrypted_link_is_authentic t0 link_token "id" link_bundle token_opens)). Defined.

(** The laptop is known to the first state and unknown to the second. *)
Definition elsewhere : State := mkState SchemaV1 1000 [issuer] [] [] [].

Lemma linking_needs_a_known_device_witness : exists s s',
  UpsertDeviceFromJoinPackage t0 (key 2) package start = (Ok tt, s) /\ state_ok t0 s
  /\ UpsertDeviceFromJoinPackage t0 (key 2) package elsewhere = (Ok tt, s') /\ State_Validate t0 (Prune t0 s') <> Ok tt.
Proof.
  destruct (linking_needs_a_known_device t0 (key 2) package (pub 5) start) as (s & H & _ & Hs & _); [apply State_Validate_spec; vm_compute; reflexivity|vm_compute; reflexivity..|].
  destruct (linking_needs_a_known_device t0 (key 2) package (pub 5) elsewhere) as (s' & H' & _ & _ & Hs'); [apply State_Validate_spec; vm_compute; reflexivity|vm_compute; reflexivity..|].
  exists s, s'. split; [exact H|]. split; [apply Hs; left; by split|]. split; [exact H'|]. apply Hs'. by intros ?%Exists_nil.
Defined.

Lemma package_device_key_unchecked_witness : Package_Validate (key 2) (mkPackage "i" "thief" DeviceTrusted (key 8) (dp_Cert package) 1000) = Ok tt.
Proof. apply (package_device_key_unchecked (key 2) package "thief" (key 8)); vm_compute; reflexivity. Defined.
