(* ===== verification/SyncWire.v ===== *)
(** * What the synchronisation service sends ([pkg/ledgersync/service.go], first part)

    Options brought within their limits, messages and their padding, samples and shuffles of
    lists.  A draw of [randUint32] is an argument: [None] when the source fails. *)

From S2P Require Import Prelude Sha256 GoStr LedgerEvent LedgerKinds Ledger LedgerSync.

#[local] Open Scope string_scope.
#[local] Open Scope list_scope.
#[local] Open Scope Z_scope.

Definition PeerRoleNormal : string := "normal".
Definition PeerRoleRelay : string := "relay".
Definition PeerRoleBridge : string := "bridge".
Definition PeerRoleAgent : string := "agent".

Record Peer := mkPeer {
  pe_ID : string;
  pe_MeshPub : list Z;
  pe_Role : string;
}.

(** ** Privacy *)

Definition PrivacyLow : string := "low".
Definition PrivacyMedium : string := "medium".
Definition PrivacyHigh : string := "high".
Definition PrivacyParanoid : string := "paranoid".

Record PrivacyPolicy := mkPrivacy {
  pp_Level : string;
  pp_OutboundDelayMax : Duration;
  pp_PaddingBucketBytes : Z;
  pp_InventorySamplePermille : Z;
  pp_WantSamplePermille : Z;
  pp_WantNoiseCount : Z;
  pp_CoverPeers : Z;
}.

(** [if x == 0 { x = d }] *)
Definition if0 (d x : Z) : Z := if x =? 0 then d else x.
Definition permille (x : Z) : Z := at_most 1000 (if_le0 1000 x).

(** The defaults of a level: those of the level medium for a level that is not known. *)
Definition level_defaults (p : PrivacyPolicy) : PrivacyPolicy :=
  let with_defaults level delay bucket inv want noise cover :=
    mkPrivacy level (if0 delay (pp_OutboundDelayMax p)) (if0 bucket (pp_PaddingBucketBytes p)) (if0 inv (pp_InventorySamplePermille p))
      (if0 want (pp_WantSamplePermille p)) (if0 noise (pp_WantNoiseCount p)) (if0 cover (pp_CoverPeers p)) in
  let level := if is_empty (pp_Level p) then PrivacyMedium else pp_Level p in
  if bool_decide (level = PrivacyLow) then with_defaults level 0 0 1000 1000 0 0
  else if bool_decide (level = PrivacyHigh) then with_defaults level (2 * Second) 8192 600 700 8 1
  else if bool_decide (level = PrivacyParanoid) then with_defaults level (8 * Second) 16384 400 500 32 2
  else with_defaults PrivacyMedium 0 4096 1000 1000 0 0.

Definition PrivacyPolicy_normalize (p : PrivacyPolicy) : PrivacyPolicy :=
  let p := level_defaults p in
  mkPrivacy (pp_Level p) (not_neg (pp_OutboundDelayMax p)) (not_neg (pp_PaddingBucketBytes p)) (permille (pp_InventorySamplePermille p))
    (permille (pp_WantSamplePermille p)) (not_neg (pp_WantNoiseCount p)) (at_most 4 (not_neg (pp_CoverPeers p))).

(** ** Security *)

Record SecurityPolicy := mkSecurity {
  sp_InitialScore : Z;
  sp_MinScore : Z;
  sp_MediumScore : Z;
  sp_HighScore : Z;
  sp_QuarantineBase : Duration;
  sp_QuarantineMax : Duration;
  sp_MaxInventorySize : Z;
  sp_MaxHeadsPerRound : Z;
  sp_MaxWantsPerRound : Z;
  sp_QuarantineAfterRejects : Z;
  sp_SybilWarmupApplied : Z;
  sp_NewPeerWarmupRounds : Z;
  sp_MaxRelaysPerRound : Z;
  sp_MaxAgentsPerRound : Z;
  sp_RelayMaxInboundBytes : Z;
  sp_AgentMaxInboundBytes : Z;
  sp_InventoryEchoThreshold : Z;
  sp_InventoryClusterThreshold : Z;
  sp_InventoryWindow : Duration;
}.

Definition DefaultSecurityPolicy : SecurityPolicy :=
  mkSecurity 10 (-60) 35 75 (30 * Second) (10 * Minute) 256 64 256 12 3 3 1 1 (120 * 1024) (64 * 1024) 4 3 (3 * Minute).

(** After the rounds and the events of the warm-up were given their defaults, the rounds count. *)
Definition SecurityPolicy_normalize (p : SecurityPolicy) : SecurityPolicy :=
  let def := DefaultSecurityPolicy in
  let MinScore := if0 (sp_MinScore def) (sp_MinScore p) in
  let MediumScore := if sp_MediumScore p <=? MinScore then sp_MediumScore def else sp_MediumScore p in
  let HighScore := if sp_HighScore p <=? MediumScore then sp_HighScore def else sp_HighScore p in
  let QuarantineBase := if_le0 (sp_QuarantineBase def) (sp_QuarantineBase p) in
  let QuarantineMax := if_le0 (sp_QuarantineMax def) (sp_QuarantineMax p) in
  let QuarantineMax := if QuarantineMax <? QuarantineBase then QuarantineBase else QuarantineMax in
  let rounds := if_le0 (sp_NewPeerWarmupRounds def) (sp_NewPeerWarmupRounds p) in
  mkSecurity (if0 (sp_InitialScore def) (sp_InitialScore p)) MinScore MediumScore HighScore QuarantineBase QuarantineMax
    (if_le0 (sp_MaxInventorySize def) (sp_MaxInventorySize p)) (if_le0 (sp_MaxHeadsPerRound def) (sp_MaxHeadsPerRound p))
    (if_le0 (sp_MaxWantsPerRound def) (sp_MaxWantsPerRound p)) (if_le0 (sp_QuarantineAfterRejects def) (sp_QuarantineAfterRejects p))
    rounds rounds (if_le0 (sp_MaxRelaysPerRound def) (sp_MaxRelaysPerRound p)) (if_le0 (sp_MaxAgentsPerRound def) (sp_MaxAgentsPerRound p))
    (if_le0 (sp_RelayMaxInboundBytes def) (sp_RelayMaxInboundBytes p)) (if_le0 (sp_AgentMaxInboundBytes def) (sp_AgentMaxInboundBytes p))
    (if_le0 (sp_InventoryEchoThreshold def) (sp_InventoryEchoThreshold p)) (if_le0 (sp_InventoryClusterThreshold def) (sp_InventoryClusterThreshold p))
    (if_le0 (sp_InventoryWindow def) (sp_InventoryWindow p)).

(** ** Options *)

Record Options := mkOptions {
  op_MaxPeersPerRound : Z;
  op_MaxHave : Z;
  op_MaxWant : Z;
  op_MaxEvents : Z;
  op_MaxEventBytes : Z;
  op_MaxEventsMessageBytes : Z;
  op_VerifyWorkers : Z;
  op_VerifyBatchSize : Z;
  op_VerifiedCacheMax : Z;
  op_VerifiedCacheTTL : Duration;
  op_ApplyChunkSize : Z;
  op_SchedulerCriticalWeight : Z;
  op_SchedulerNormalWeight : Z;
  op_SchedulerBackgroundWeight : Z;
  op_SchedulerDrainPerReceive : Z;
  op_SchedulerDrainAfterRelay : Z;
  op_SchedulerMaxQueuedTotal : Z;
  op_SchedulerMaxQueuedPerPeer : Z;
  op_SchedulerMaxQueuedCritical : Z;
  op_SchedulerMaxQueuedNormal : Z;
  op_SchedulerMaxQueuedBg : Z;
  op_MaxInboundMsgsPerMin : Z;
  op_MaxInboundBytesPerMin : Z;
  op_PenaltyBase : Duration;
  op_PenaltyMax : Duration;
  op_RecentMsgTTL : Duration;
  op_RecentMsgMax : Z;
  op_AllowContext : option (string -> bool);
  op_AllowOutgoingKind : option (string -> string -> bool);
  op_AllowIncomingKind : option (string -> string -> bool);
  op_SecurityPolicy : SecurityPolicy;
  op_Privacy : PrivacyPolicy;
}.

(** [if x <= 0 { x = d }] and [if x > m { x = m }] *)
Definition within (d m x : Z) : Z := at_most m (if_le0 d x).

(** [NumCPU] is what [runtime.NumCPU] gives.  A queue's limit is compared with the limit of a
    peer before that is brought down to the total. *)
Definition Options_normalize (NumCPU : Z) (o : Options) : Options :=
  let PerPeer := within 256 20000 (op_SchedulerMaxQueuedPerPeer o) in
  let Total := within 2048 200000 (op_SchedulerMaxQueuedTotal o) in
  let PenaltyBase := if_le0 (30 * Second) (op_PenaltyBase o) in
  let PenaltyMax := if_le0 (10 * Minute) (op_PenaltyMax o) in
  mkOptions (within 3 12 (op_MaxPeersPerRound o))
    (at_most 512 (if op_MaxHave o <? 0 then 256 else op_MaxHave o)) (within 128 512 (op_MaxWant o))
    (within 128 512 (op_MaxEvents o)) (within (256 * 1024) (1024 * 1024) (op_MaxEventBytes o)) (within (1024 * 1024) (4 * 1024 * 1024) (op_MaxEventsMessageBytes o))
    (within (at_most 4 (if_le0 1 NumCPU)) 16 (op_VerifyWorkers o)) (within 64 512 (op_VerifyBatchSize o))
    (within 4096 65536 (op_VerifiedCacheMax o)) (within (10 * Minute) (2 * Hour) (op_VerifiedCacheTTL o)) (within 64 1024 (op_ApplyChunkSize o))
    (within 5 32 (op_SchedulerCriticalWeight o)) (within 3 32 (op_SchedulerNormalWeight o)) (within 1 32 (op_SchedulerBackgroundWeight o))
    (within 8 1024 (op_SchedulerDrainPerReceive o)) (within 256 8192 (op_SchedulerDrainAfterRelay o))
    Total (at_most Total PerPeer)
    (within 64 PerPeer (op_SchedulerMaxQueuedCritical o)) (within 128 PerPeer (op_SchedulerMaxQueuedNormal o)) (within 64 PerPeer (op_SchedulerMaxQueuedBg o))
    (within 60 600 (op_MaxInboundMsgsPerMin o)) (within (2 * 1024 * 1024) (50 * 1024 * 1024) (op_MaxInboundBytesPerMin o))
    PenaltyBase (if PenaltyMax <? PenaltyBase then PenaltyBase else PenaltyMax)
    (within (2 * Minute) (30 * Minute) (op_RecentMsgTTL o)) (within 512 8192 (op_RecentMsgMax o))
    (Some (default (fun _ => true) (op_AllowContext o))) (Some (default (fun _ _ => true) (op_AllowOutgoingKind o)))
    (Some (default (fun _ _ => true) (op_AllowIncomingKind o)))
    (SecurityPolicy_normalize (op_SecurityPolicy o)) (PrivacyPolicy_normalize (op_Privacy o)).

(** The functions of options that are normal. *)
Definition allow_context (o : Options) (ctx : string) : bool := default (fun _ => true) (op_AllowContext o) ctx.
Definition allow_outgoing (o : Options) (ctx kind : string) : bool := default (fun _ _ => true) (op_AllowOutgoingKind o) ctx kind.
Definition allow_incoming (o : Options) (ctx kind : string) : bool := default (fun _ _ => true) (op_AllowIncomingKind o) ctx kind.

(** ** Messages *)

Definition WireSchemaV1 : Z := 1.

Record WireMessage := mkWire {
  wi_SchemaVersion : Z;
  wi_Type : string;
  wi_Session : string;
  wi_Context : string;
  wi_Body : list Z;
}.

Definition json_wire (w : WireMessage) : list Z :=
  json_object ([("v", json_int (wi_SchemaVersion w)); ("t", json_string (wi_Type w))] ++ omit_empty "s" (wi_Session w) ++ omit_empty "c" (wi_Context w)
               ++ (match wi_Body w with [] => [] | b => [("b", b)] end)).

Definition json_heads (m : HeadsMessage) : list Z := json_object [("v", json_int (hm_SchemaVersion m)); ("heads", json_strings (Some (hm_Heads m)))].
Definition json_inventory (m : InventoryMessage) : list Z :=
  json_object ([("v", json_int (LedgerSync.iv_SchemaVersion m)); ("heads", json_strings (Some (LedgerSync.iv_Heads m)))]
               ++ (match LedgerSync.iv_Have m with [] => [] | l => [("have", json_strings (Some l))] end)).
Definition json_want (m : WantMessage) : list Z := json_object [("v", json_int (wm_SchemaVersion m)); ("want", json_strings (Some (wm_Want m)))].
Definition json_events (m : EventsMessage) : list Z := json_object [("v", json_int (em_SchemaVersion m)); ("events", json_list marshal_event (em_Events m))].

Definition encodeWire (t session ctx : string) (body : list Z) : list Z := json_wire (mkWire WireSchemaV1 t session ctx body).

(** What [json.Unmarshal] reads of a message and of the bodies. *)
Class WireJSON := {
  read_wire : list Z -> option WireMessage;
  read_heads : list Z -> option HeadsMessage;
  read_inventory : list Z -> option InventoryMessage;
  read_want : list Z -> option WantMessage;
  read_events : list Z -> option EventsMessage;
}.

Definition decodeWire `{WireJSON} (raw : list Z) : option WireMessage :=
  match read_wire raw with
  | Some w => if (wi_SchemaVersion w =? WireSchemaV1) && negb (is_empty (wi_Type w)) then Some w else None
  | None => None
  end.

Definition newSessionID (rnd : option (list Z)) : option string := EncodeToString <$> rnd.

Definition peerIDFromMeshPub (pub : list Z) : string := EncodeToString pub.
Definition msgIDFromPlaintext (pt : list Z) : string := EncodeToString (take 16 (Sum256 pt)).

(** ** Padding *)

(** SLP1 *)
Definition privacyPadMagic : list Z := [83; 76; 80; 49].

(** [fill] gives random bytes of a number; [None] when the padding fails. *)
Definition padPlaintext (plaintext : list Z) (bucketBytes : Z) (fill : Z -> option (list Z)) : option (list Z) :=
  if (bucketBytes <=? 0) || (blen plaintext =? 0) then Some plaintext
  else
    let minSize := blen plaintext + 8 in
    if bucketBytes <=? minSize then Some plaintext
    else (fun noise => privacyPadMagic ++ le_put 4 (u32 (blen plaintext)) ++ plaintext ++ noise) <$> fill (bucketBytes - minSize).

Definition unpadPlaintext (plaintext : list Z) : list Z * bool :=
  if blen plaintext <? 8 then (plaintext, false)
  else if negb (bool_decide (take 4 plaintext = privacyPadMagic)) then (plaintext, false)
  else
    let n := le_get (take 4 (drop 4 plaintext)) in
    if (n <? 0) || (blen plaintext - 8 <? n) then (plaintext, false)
    else (take (Z.to_nat n) (drop 8 plaintext), true).

(** ** Samples and shuffles *)

(** The [i]-th draw decides on the [i]-th element; one that fails keeps it. *)
Fixpoint sample_from (i : nat) (ids : list string) (share : Z) (draws : nat -> option Z) : list string :=
  match ids with
  | [] => []
  | id :: ids' =>
      if match draws i with None => true | Some rn => rn mod 1000 <? share end
      then id :: sample_from (S i) ids' share draws else sample_from (S i) ids' share draws
  end.

Definition sampleStringsPermille (ids : list string) (share : Z) (draws : nat -> option Z) : list string :=
  match ids with
  | [] => []
  | _ => if 1000 <=? share then ids else if share <=? 0 then [] else sample_from 0 ids share draws
  end.

(** [out[i], out[j] = out[j], out[i]] *)
Definition swap {A} (i j : nat) (l : list A) : list A :=
  match l !! i, l !! j with Some x, Some y => <[i := y]> (<[j := x]> l) | _, _ => l end.

(** The loop from index [i] down to 1; the draw for index [i] is the [i]-th. *)
Fixpoint shuffle_from {A} (i : nat) (l : list A) (draws : nat -> option Z) : list A :=
  match i with
  | O => l
  | S i' =>
      let l := match draws i with None => l | Some rn => swap i (Z.to_nat (rn mod (Z.of_nat i + 1))) l end in
      shuffle_from i' l draws
  end.

(** [shuffleStrings], [shufflePeers] *)
Definition shuffle {A} (l : list A) (draws : nat -> option Z) : list A := shuffle_from (length l - 1) l draws.

Definition randDuration (draw : option Z) (max : Duration) : Duration :=
  if max <=? 0 then 0 else match draw with None => 0 | Some rn => rn mod (max + 1) end.

(** ** Kinds *)

Inductive PriorityClass := PriorityCritical | PriorityNormal | PriorityBackground.

#[export] Instance priority_eq_dec : EqDecision PriorityClass.
Proof. solve_decision. Defined.

Definition priorityForKind (kind : string) : PriorityClass :=
  if bool_decide (kind ∈ [KindIdentityIntroduce; KindIdentityRotate; KindIdentityRevoke; KindMisbehaviorEquivoc; KindMisbehaviorReplay;
                          KindMisbehaviorSybil; KindWitnessAttest; KindWitnessCheckpoint; KindGroupMembership; KindAgentAction; KindSyncSummary; KindLedgerEvent])
  then PriorityCritical
  else if bool_decide (kind ∈ [KindChatMessage; KindGroupCreate; KindGroupJoin]) then PriorityNormal
  else PriorityBackground.

(** The events of a message of one class. *)
Definition of_class (cls : PriorityClass) (msg : EventsMessage) : EventsMessage :=
  mkEvents (em_SchemaVersion msg) (filter (fun ev => priorityForKind (Kind ev) = cls) (em_Events msg)).
Definition splitEventsByPriority (msg : EventsMessage) : EventsMessage * EventsMessage * EventsMessage :=
  (of_class PriorityCritical msg, of_class PriorityNormal msg, of_class PriorityBackground msg).

(** * Padding and options *)

From S2P Require Import Prelude Sha256 GoStr LedgerEvent LedgerKinds LedgerSync.

(** ** Padding *)

Lemma blen_drop n (l : list Z) : blen (drop n l) = Z.max 0 (blen l - Z.of_nat n).
Proof. unfold blen. rewrite length_drop. lia. Qed.

(** What cannot be taken for padded. *)
Definition unmarked (pt : list Z) : Prop := take 4 pt <> privacyPadMagic.

(** What is padded is read back. *)
Lemma unpad_padded pt noise : blen pt < 2 ^ 32 -> unpadPlaintext (privacyPadMagic ++ le_put 4 (u32 (blen pt)) ++ pt ++ noise) = (pt, true).
Proof.
  intros Hlen. pose proof (Nat2Z.is_nonneg (length pt)) as Hpos. fold (blen pt) in Hpos. rewrite u32_id by (unfold is_u32; lia).
  unfold unpadPlaintext. pose proof (le_put_length 4 (blen pt)) as Hle. set (hd := le_put 4 (blen pt)) in *.
  assert (blen (privacyPadMagic ++ hd ++ pt ++ noise) = 8 + blen pt + blen noise) as Hb by (unfold blen; rewrite !length_app, Hle; cbn [length privacyPadMagic]; lia).
  pose proof (Nat2Z.is_nonneg (length noise)) as Hn. fold (blen noise) in Hn.
  rewrite Hb. destruct (Z.ltb_spec (8 + blen pt + blen noise) 8); [lia|].
  change (take 4 (privacyPadMagic ++ hd ++ pt ++ noise)) with privacyPadMagic. rewrite bool_decide_eq_true_2 by done. cbn [negb].
  change (drop 4 (privacyPadMagic ++ hd ++ pt ++ noise)) with (hd ++ pt ++ noise). rewrite take_app_length' by done.
  subst hd. rewrite le_get_put by (cbn; lia). destruct (Z.ltb_spec (blen pt) 0); [lia|]. destruct (Z.ltb_spec (8 + blen pt + blen noise - 8) (blen pt)); [lia|]. cbn [orb].
  assert (drop 8 (privacyPadMagic ++ le_put 4 (blen pt) ++ pt ++ noise) = pt ++ noise) as ->.
  { change (drop 4 (le_put 4 (blen pt) ++ pt ++ noise) = pt ++ noise). by apply drop_app_length'. }
  by rewrite take_app_length' by (unfold blen; lia).
Qed.

Lemma unpad_unmarked pt : unmarked pt -> unpadPlaintext pt = (pt, false).
Proof. intros H. unfold unpadPlaintext. destruct (blen pt <? 8); [done|]. by rewrite bool_decide_eq_false_2. Qed.

(** Whatever the bucket and the noise, a message that does not begin like a padded one is
    read back as it was sent; one that fits its bucket is sent as exactly the bytes of the
    bucket, and one that does not is sent as it is. *)
Theorem padding_roundtrip pt bucket fill out : unmarked pt -> blen pt < 2 ^ 32 -> (forall n b, 0 <= n -> fill n = Some b -> blen b = n) ->
  padPlaintext pt bucket fill = Some out ->
  (unpadPlaintext out).1 = pt /\ (pt <> [] -> blen pt + 8 < bucket -> blen out = bucket) /\ (bucket <= blen pt + 8 -> out = pt).
Proof.
  intros Hm Hlen Hfill. pose proof (Nat2Z.is_nonneg (length pt)) as Hpos. fold (blen pt) in Hpos. unfold padPlaintext.
  destruct (Z.leb_spec bucket 0) as [Hb|Hb]; cbn [orb]; [intros [= <-]; rewrite (unpad_unmarked pt Hm); split_and!; [done|lia|done]|].
  destruct (Z.eqb_spec (blen pt) 0) as [E|E]; [intros [= <-]; rewrite (unpad_unmarked pt Hm); split_and!; [done|by rewrite (nil_length_inv pt) by (unfold blen in E; lia)|done]|].
  destruct (Z.leb_spec bucket (blen pt + 8)) as [Hs|Hs]; [intros [= <-]; rewrite (unpad_unmarked pt Hm); split_and!; [done|lia|done]|].
  intros (noise & Hf & ->)%fmap_Some. rewrite unpad_padded by done. split; [done|split; [|lia]]. intros _ _.
  assert (0 <= bucket - (blen pt + 8)) as Hnn by lia. pose proof (Hfill _ _ Hnn Hf) as Hn. unfold blen in *. rewrite !length_app, le_put_length. cbn [length privacyPadMagic]. lia.
Qed.

(** ** Samples *)

Lemma sample_from_sublist i ids share draws : sample_from i ids share draws `sublist_of` ids.
Proof. revert i. induction ids as [|id ids IH]; intros i; cbn [sample_from]; [done|]. case_match; constructor; apply IH. Qed.

Lemma sample_sublist ids share draws : sampleStringsPermille ids share draws `sublist_of` ids.
Proof. unfold sampleStringsPermille. destruct ids; [done|]. repeat case_match; [done|apply sublist_nil_l|apply sample_from_sublist]. Qed.

(** ** Shuffles *)

Section shuffles.
Context {A : Type}.
Implicit Types l : list A.

Lemma swap_perm i j l : swap i j l ≡ₚ l.
Proof.
  unfold swap. destruct (l !! i) as [x|] eqn:Ei; [|done]. destruct (l !! j) as [y|] eqn:Ej; [|done].
  destruct (decide (i = j)) as [->|Hne]; [assert (x = y) as -> by congruence; by rewrite !list_insert_id by (rewrite ?list_lookup_insert_eq by (by eapply lookup_lt_Some); done)|].
  apply Permutation_inj. split; [by rewrite !length_insert|].
  exists (fun k => if decide (k = i) then j else if decide (k = j) then i else k). split; [intros a b; repeat case_decide; congruence|].
  pose proof (lookup_lt_Some _ _ _ Ei). pose proof (lookup_lt_Some _ _ _ Ej).
  intros k. repeat case_decide; subst.
  - rewrite list_lookup_insert_eq by (rewrite length_insert; done). done.
  - rewrite list_lookup_insert_ne, list_lookup_insert_eq by done. done.
  - by rewrite !list_lookup_insert_ne by congruence.
Qed.

Lemma shuffle_from_perm i l draws : shuffle_from i l draws ≡ₚ l.
Proof. revert l. induction i as [|i IH]; intros l; cbn [shuffle_from]; [done|]. rewrite IH. case_match; [apply swap_perm|done]. Qed.

Lemma swap_app i j l k : (i < length l)%nat -> (j < length l)%nat -> swap i j (l ++ k) = swap i j l ++ k.
Proof.
  intros Hi Hj. unfold swap. rewrite !lookup_app_l by done. destruct (l !! i), (l !! j); try done.
  rewrite insert_app_l by done. by rewrite insert_app_l by (by rewrite length_insert).
Qed.

(** The loop from an index on leaves the elements past it alone. *)
Lemma shuffle_from_app i l k draws : (i < length l)%nat -> shuffle_from i (l ++ k) draws = shuffle_from i l draws ++ k.
Proof.
  revert l. induction i as [|i IH]; intros l Hi; cbn [shuffle_from]; [done|].
  destruct (draws (S i)) as [rn|]; [|apply IH; lia]. rewrite swap_app by (try done; pose proof (Z.mod_pos_bound rn (Z.of_nat (S i) + 1)); lia).
  apply IH. rewrite (Permutation_length (swap_perm _ _ _)). lia.
Qed.

Lemma shuffle_from_draws i l d1 d2 : (forall k, (0 < k <= i)%nat -> d1 k = d2 k) -> shuffle_from i l d1 = shuffle_from i l d2.
Proof. revert l. induction i as [|i IH]; intros l H; cbn [shuffle_from]; [done|]. rewrite (H (S i)) by lia. apply IH. intros k Hk. apply H. lia. Qed.

(** Moving an element to the end. *)
Lemma swap_to_end i j l x : length l = S i -> l !! j = Some x -> exists k, swap i j l = k ++ [x] /\ length k = i.
Proof.
  intros Hl Hj. pose proof (lookup_lt_Some _ _ _ Hj) as Hlt. unfold swap. destruct (lookup_lt_is_Some_2 l i ltac:(lia)) as [y Hi]. rewrite Hi, Hj.
  set (m := <[j := y]> l). assert (length m = S i) as Hm by (subst m; by rewrite length_insert).
  destruct m as [|z k _] using rev_ind; [done|]. rewrite length_app in Hm. cbn [length] in Hm.
  exists k. assert (length k = i) as Hk by lia. split; [|done]. rewrite insert_app_r_alt by lia. by replace (i - length k)%nat with 0%nat by lia.
Qed.

Lemma shuffle_from_reaches i l l' : length l = S i -> l ≡ₚ l' -> exists draws, shuffle_from i l draws = l' /\ forall k, exists j, draws k = Some j /\ 0 <= j <= Z.of_nat k.
Proof.
  revert l l'. induction i as [|i IH]; intros l l' Hl Hp.
  - exists (fun _ => Some 0). split; [|intros k; exists 0; split; [done|lia]]. destruct l as [|x [|]]; [done| |done]. cbn. by apply Permutation_singleton_l in Hp.
  - pose proof (Permutation_length Hp) as Hlen. destruct l' as [|x k' _] using rev_ind; [by rewrite Hl in Hlen|].
    assert (x ∈ l) as (j & Hj)%list_elem_of_lookup by (rewrite Hp; apply elem_of_app; right; by left).
    destruct (swap_to_end (S i) j l x Hl Hj) as (k & E & Hk). pose proof (lookup_lt_Some _ _ _ Hj) as Hlt.
    destruct (IH k k' Hk) as (d & Hd & Hr). { apply (Permutation_app_inv_r [x]). rewrite <- E, swap_perm. done. }
    exists (fun n => if decide (n = S i) then Some (Z.of_nat j) else d n). split.
    + cbn [shuffle_from]. destruct (decide (S i = S i)); [|done]. rewrite Z.mod_small, Nat2Z.id, E by lia. rewrite shuffle_from_app by lia. f_equal.
      rewrite <- Hd. apply shuffle_from_draws. intros n Hn. by destruct (decide (n = S i)); [lia|].
    + intros n. case_decide; [exists (Z.of_nat j); split; [done|lia]|apply Hr].
Qed.

(** A shuffle keeps the elements, and draws below 2^32 take it to any order of them. *)
Theorem shuffle_reaches_all_orders l : (forall draws, shuffle l draws ≡ₚ l)
  /\ forall l', l ≡ₚ l' -> exists draws, shuffle l draws = l' /\ forall k, exists j, draws k = Some j /\ 0 <= j <= Z.of_nat k.
Proof.
  split; [intros draws; apply shuffle_from_perm|]. intros l' Hp. unfold shuffle. destruct l as [|x l].
  - apply Permutation_nil_l in Hp as <-. exists (fun _ => Some 0). split; [done|intros k; exists 0; split; [done|lia]].
  - apply shuffle_from_reaches; [cbn [length]; lia|done].
Qed.

End shuffles.
