(* ===== verification/SyncSched.v ===== *)
(** * The scheduler of the synchronisation service ([pkg/ledgersync/service.go], [PriorityScheduler])

    Messages of events wait in three queues with limits for each peer, each class and in all,
    and leave in a weighted round robin.  The lock makes every operation one step. *)

From S2P Require Import Prelude GoStr LedgerEvent LedgerSync SyncWire.

#[local] Open Scope string_scope.
#[local] Open Scope list_scope.
#[local] Open Scope Z_scope.

(** ** Queues *)

Record schedItem := mkSchedItem {
  si_peerID : string;
  si_role : string;
  si_context : string;
  si_msg : EventsMessage;
  si_maxMessageBytes : Z;
}.

(** The items from [fq_head] on wait; those before are dropped now and then. *)
Record fifoQueue := mkFifo {
  fq_items : list schedItem;
  fq_head : nat;
}.

Definition fifo_Len (q : fifoQueue) : Z := Z.of_nat (length (fq_items q)) - Z.of_nat (fq_head q).

Definition fifo_Push (it : schedItem) (q : fifoQueue) : fifoQueue := mkFifo (fq_items q ++ [it]) (fq_head q).

(** A head past the end of the items, where the code panics, does not come up: [fifo_ok] is kept. *)
Definition fifo_Pop (q : fifoQueue) : option schedItem * fifoQueue :=
  if fifo_Len q =? 0 then (None, q)
  else
    let head := S (fq_head q) in
    (fq_items q !! fq_head q,
     if (64 <? Z.of_nat head) && (Z.of_nat (length (fq_items q)) <=? Z.of_nat head * 2) then mkFifo (drop head (fq_items q)) 0 else mkFifo (fq_items q) head).

(** ** The scheduler *)

Record peerQuota := mkQuota {
  q_total : Z;
  q_c : Z;
  q_n : Z;
  q_b : Z;
}.

Record PriorityScheduler := mkSched {
  sc_maxTotal : Z;
  sc_maxPerPeer : Z;
  sc_maxC : Z;
  sc_maxN : Z;
  sc_maxB : Z;
  sc_qC : fifoQueue;
  sc_qN : fifoQueue;
  sc_qB : fifoQueue;
  sc_peers : gmap string peerQuota;
  sc_pattern : list PriorityClass;
  sc_patIdx : nat;
}.

Definition empty_fifo : fifoQueue := mkFifo [] 0.

Definition NewPriorityScheduler (o : Options) : PriorityScheduler :=
  let p := replicate (Z.to_nat (op_SchedulerCriticalWeight o)) PriorityCritical ++ replicate (Z.to_nat (op_SchedulerNormalWeight o)) PriorityNormal
           ++ replicate (Z.to_nat (op_SchedulerBackgroundWeight o)) PriorityBackground in
  mkSched (op_SchedulerMaxQueuedTotal o) (op_SchedulerMaxQueuedPerPeer o) (op_SchedulerMaxQueuedCritical o) (op_SchedulerMaxQueuedNormal o)
    (op_SchedulerMaxQueuedBg o) empty_fifo empty_fifo empty_fifo ∅ (match p with [] => [PriorityCritical; PriorityNormal; PriorityBackground] | _ => p end) 0.

Definition sched_Len (s : PriorityScheduler) : Z := fifo_Len (sc_qC s) + fifo_Len (sc_qN s) + fifo_Len (sc_qB s).

(** The queue, the limit and a peer's count of a class. *)
Definition queue_of (cls : PriorityClass) (s : PriorityScheduler) : fifoQueue :=
  match cls with PriorityCritical => sc_qC s | PriorityNormal => sc_qN s | PriorityBackground => sc_qB s end.
Definition limit_of (cls : PriorityClass) (s : PriorityScheduler) : Z :=
  match cls with PriorityCritical => sc_maxC s | PriorityNormal => sc_maxN s | PriorityBackground => sc_maxB s end.
Definition count_of (cls : PriorityClass) (ps : peerQuota) : Z :=
  match cls with PriorityCritical => q_c ps | PriorityNormal => q_n ps | PriorityBackground => q_b ps end.

Definition put_queue (cls : PriorityClass) (q : fifoQueue) (s : PriorityScheduler) : PriorityScheduler :=
  mkSched (sc_maxTotal s) (sc_maxPerPeer s) (sc_maxC s) (sc_maxN s) (sc_maxB s)
    (if bool_decide (cls = PriorityCritical) then q else sc_qC s) (if bool_decide (cls = PriorityNormal) then q else sc_qN s)
    (if bool_decide (cls = PriorityBackground) then q else sc_qB s) (sc_peers s) (sc_pattern s) (sc_patIdx s).
Definition put_peers (m : gmap string peerQuota) (s : PriorityScheduler) : PriorityScheduler :=
  mkSched (sc_maxTotal s) (sc_maxPerPeer s) (sc_maxC s) (sc_maxN s) (sc_maxB s) (sc_qC s) (sc_qN s) (sc_qB s) m (sc_pattern s) (sc_patIdx s).
Definition put_index (i : nat) (s : PriorityScheduler) : PriorityScheduler :=
  mkSched (sc_maxTotal s) (sc_maxPerPeer s) (sc_maxC s) (sc_maxN s) (sc_maxB s) (sc_qC s) (sc_qN s) (sc_qB s) (sc_peers s) (sc_pattern s) i.

(** One more or one less of a class. *)
Definition bump (cls : PriorityClass) (d : Z) (ps : peerQuota) : peerQuota :=
  mkQuota (q_total ps + d) (q_c ps + (if bool_decide (cls = PriorityCritical) then d else 0)) (q_n ps + (if bool_decide (cls = PriorityNormal) then d else 0))
    (q_b ps + (if bool_decide (cls = PriorityBackground) then d else 0)).

(** The first loop of [Enqueue]: a class without room gives way to the next. *)
Definition has_room (cls : PriorityClass) (ps : peerQuota) (s : PriorityScheduler) : bool :=
  negb ((limit_of cls s <=? count_of cls ps) || (sc_maxPerPeer s <=? q_total ps)).
Definition choose_class (cls : PriorityClass) (ps : peerQuota) (s : PriorityScheduler) : option PriorityClass :=
  let background := if has_room PriorityBackground ps s then Some PriorityBackground else None in
  let normal := if has_room PriorityNormal ps s then Some PriorityNormal else background in
  match cls with
  | PriorityCritical => if has_room PriorityCritical ps s then Some PriorityCritical else normal
  | PriorityNormal => normal
  | PriorityBackground => background
  end.

(** The loop that makes room: whether it did, and the scheduler.  Each turn but the last takes
    an item, so that as many turns as items and one more are enough. *)
Fixpoint evict_lower (turns : nat) (total : Z) (s : PriorityScheduler) : bool * PriorityScheduler :=
  match turns with
  | O => (false, s)
  | S turns' =>
      if total <? sc_maxTotal s then (true, s)
      else
        match fifo_Pop (sc_qB s) with
        | (Some _, q) => evict_lower turns' (total - 1) (put_queue PriorityBackground q s)
        | (None, _) =>
            match fifo_Pop (sc_qN s) with
            | (Some _, q) => evict_lower turns' (total - 1) (put_queue PriorityNormal q s)
            | (None, _) => (false, s)
            end
        end
  end.

Definition room_for (cls : PriorityClass) (s : PriorityScheduler) : bool * PriorityScheduler :=
  let total := sched_Len s in
  if (0 <? sc_maxTotal s) && (sc_maxTotal s <=? total) then
    if bool_decide (cls = PriorityCritical) then evict_lower (S (Z.to_nat total)) total s else (false, s)
  else (true, s).

Definition new_quota : peerQuota := mkQuota 0 0 0 0.
Definition quota (s : PriorityScheduler) (peerID : string) : peerQuota := default new_quota (sc_peers s !! peerID).

(** The identifier under which a peer is counted. *)
Definition peer_key (peerID : string) : string := let id := TrimSpace peerID in if is_empty id then "unknown" else id.

Definition with_peer (peerID : string) (it : schedItem) : schedItem :=
  mkSchedItem peerID (si_role it) (si_context it) (si_msg it) (si_maxMessageBytes it).

Definition Enqueue (peerID : string) (cls : PriorityClass) (it : schedItem) (s : PriorityScheduler) : bool * PriorityScheduler :=
  let peerID := peer_key peerID in
  let ps := quota s peerID in
  let s := put_peers (<[peerID := ps]> (sc_peers s)) s in
  match choose_class cls ps s with
  | None => (false, s)
  | Some cls =>
      let '(ok, s) := room_for cls s in
      if negb ok then (false, s)
      else
        let s := put_queue cls (fifo_Push (with_peer peerID it) (queue_of cls s)) s in
        (true, put_peers (<[peerID := bump cls 1 ps]> (sc_peers s)) s)
  end.

(** An item that leaves is taken off its peer's counts; a peer that has none is forgotten. *)
Definition release (cls : PriorityClass) (it : schedItem) (s : PriorityScheduler) : PriorityScheduler :=
  match sc_peers s !! si_peerID it with
  | None => s
  | Some ps =>
      let ps := bump cls (-1) ps in
      put_peers (if q_total ps <=? 0 then delete (si_peerID it) (sc_peers s) else <[si_peerID it := ps]> (sc_peers s)) s
  end.

(** The turns of [Next]; [None]: the index is outside of the pattern, and the code panics. *)
Fixpoint next_turns (tries : nat) (s : PriorityScheduler) : option (option schedItem * PriorityScheduler) :=
  match tries with
  | O => Some (None, s)
  | S tries' =>
      match sc_pattern s !! sc_patIdx s with
      | None => None
      | Some cls =>
          let s := put_index (if Z.of_nat (length (sc_pattern s)) <=? Z.of_nat (S (sc_patIdx s)) then 0%nat else S (sc_patIdx s)) s in
          match fifo_Pop (queue_of cls s) with
          | (None, _) => next_turns tries' s
          | (Some it, q) => Some (Some it, release cls it (put_queue cls q s))
          end
      end
  end.

Definition Next (s : PriorityScheduler) : option (option schedItem * PriorityScheduler) :=
  if sched_Len s =? 0 then Some (None, s) else next_turns (Nat.max 1 (length (sc_pattern s))) s.
