(* ===== verification/SyncSchedSpec.v ===== *)
(** * What holds of the scheduler

    Its limits over any history, the turns until an item is served, and what an eviction
    does to the peer whose item is taken. *)

From S2P Require Import Prelude GoStr LedgerEvent LedgerSync SyncWire SyncSched.

#[local] Set Warnings "-clear-no-such-hyp".

(** ** Queues are lists *)

Definition fifo_list (q : fifoQueue) : list schedItem := drop (fq_head q) (fq_items q).
Definition fifo_ok (q : fifoQueue) : Prop := (fq_head q <= length (fq_items q))%nat.

Lemma fifo_Len_list q : fifo_ok q -> fifo_Len q = Z.of_nat (length (fifo_list q)).
Proof. unfold fifo_ok, fifo_Len, fifo_list. rewrite length_drop. lia. Qed.

Lemma fifo_Push_list it q : fifo_ok q -> fifo_ok (fifo_Push it q) /\ fifo_list (fifo_Push it q) = fifo_list q ++ [it].
Proof. unfold fifo_ok, fifo_list, fifo_Push. cbn [fq_items fq_head]. intros H. rewrite length_app. split; [lia|]. by apply drop_app_le. Qed.

Lemma fifo_Pop_list q : fifo_ok q ->
  (fifo_list q = [] /\ fifo_Pop q = (None, q))
  \/ exists it q', fifo_Pop q = (Some it, q') /\ fifo_list q = it :: fifo_list q' /\ fifo_ok q'.
Proof.
  intros Hq. unfold fifo_Pop. destruct (Z.eqb_spec (fifo_Len q) 0) as [E|E]; rewrite fifo_Len_list in E by done.
  { left. split; [|done]. apply nil_length_inv. lia. }
  right. unfold fifo_ok in Hq. unfold fifo_list in *. rewrite length_drop in E.
  destruct (lookup_lt_is_Some_2 (fq_items q) (fq_head q)) as [it Hit]; [lia|]. rewrite Hit. pose proof (drop_S _ _ _ Hit) as Hd.
  destruct (_ && _); eexists it, _; (split; [done|]); cbn [fq_items fq_head]; rewrite ?drop_0, Hd; (split; [done|]); unfold fifo_ok; cbn [fq_items fq_head]; lia.
Qed.

(** The slice holds at most 64 items more than twice those that wait. *)
Lemma fifo_Pop_space q : fifo_ok q -> (fq_head q <= 64 \/ fq_head q * 2 < length (fq_items q))%nat ->
  (fq_head (fifo_Pop q).2 <= 64 \/ fq_head (fifo_Pop q).2 * 2 < length (fq_items (fifo_Pop q).2))%nat.
Proof.
  intros Hq Hs. unfold fifo_Pop. destruct (_ =? 0); [done|]. cbn [snd]. destruct (Z.ltb_spec 64 (Z.of_nat (S (fq_head q)))), (Z.leb_spec (Z.of_nat (length (fq_items q))) (Z.of_nat (S (fq_head q)) * 2));
    cbn [andb fq_head fq_items]; lia.
Qed.

(** ** Counting *)

Definition waiting (cls : PriorityClass) (s : PriorityScheduler) : list schedItem := fifo_list (queue_of cls s).

(** How many items of a peer are in a list. *)
Definition items_of (p : string) (l : list schedItem) : Z := Z.of_nat (length (filter (fun it => si_peerID it = p) l)).
Definition held (p : string) (cls : PriorityClass) (s : PriorityScheduler) : Z := items_of p (waiting cls s).
Definition held_all (p : string) (s : PriorityScheduler) : Z := held p PriorityCritical s + held p PriorityNormal s + held p PriorityBackground s.

Lemma items_of_app p l k : items_of p (l ++ k) = items_of p l + items_of p k.
Proof. unfold items_of. rewrite filter_app, length_app. lia. Qed.
Lemma items_of_cons p it l : items_of p (it :: l) = (if bool_decide (si_peerID it = p) then 1 else 0) + items_of p l.
Proof. unfold items_of. rewrite filter_cons. case_bool_decide; case_decide; try done. cbn [length]. lia. Qed.
Lemma items_of_nonneg p l : 0 <= items_of p l.
Proof. unfold items_of. lia. Qed.

Record sched_ok (s : PriorityScheduler) : Prop := {
  ok_queues cls : fifo_ok (queue_of cls s);
  ok_index : (sc_patIdx s < length (sc_pattern s))%nat;
  ok_pattern cls : cls ∈ sc_pattern s;
  ok_held p cls : held p cls s <= count_of cls (quota s p);
  ok_counts p cls : 0 <= count_of cls (quota s p) <= Z.max 0 (limit_of cls s);
  ok_sum p : q_total (quota s p) = count_of PriorityCritical (quota s p) + count_of PriorityNormal (quota s p) + count_of PriorityBackground (quota s p);
  ok_total p : q_total (quota s p) <= Z.max 0 (sc_maxPerPeer s);
  ok_all : 0 < sc_maxTotal s -> sched_Len s <= sc_maxTotal s;
}.

(** What the updates leave. *)
Lemma queue_of_put cls q s : queue_of cls (put_queue cls q s) = q.
Proof. by destruct cls. Qed.
Lemma queue_of_put_ne cls cls' q s : cls <> cls' -> queue_of cls' (put_queue cls q s) = queue_of cls' s.
Proof. by destruct cls, cls'. Qed.
Lemma waiting_put cls q s : waiting cls (put_queue cls q s) = fifo_list q.
Proof. unfold waiting. by rewrite queue_of_put. Qed.
Lemma waiting_put_ne cls cls' q s : cls <> cls' -> waiting cls' (put_queue cls q s) = waiting cls' s.
Proof. intros. unfold waiting. by rewrite queue_of_put_ne. Qed.
Lemma waiting_peers cls m s : waiting cls (put_peers m s) = waiting cls s.
Proof. by destruct cls. Qed.
Lemma waiting_index cls i s : waiting cls (put_index i s) = waiting cls s.
Proof. by destruct cls. Qed.

Lemma count_bump cls cls' d ps : count_of cls' (bump cls d ps) = count_of cls' ps + if bool_decide (cls = cls') then d else 0.
Proof. by destruct cls, cls'. Qed.

Definition queues_ok (s : PriorityScheduler) : Prop := forall cls, fifo_ok (queue_of cls s).

Lemma sched_Len_waiting s : queues_ok s ->
  sched_Len s = Z.of_nat (length (waiting PriorityCritical s)) + Z.of_nat (length (waiting PriorityNormal s)) + Z.of_nat (length (waiting PriorityBackground s)).
Proof. intros Hs. unfold sched_Len. rewrite !fifo_Len_list; [done|apply (Hs PriorityBackground)|apply (Hs PriorityNormal)|apply (Hs PriorityCritical)]. Qed.

Lemma put_queue_ok cls q s : queues_ok s -> fifo_ok q -> queues_ok (put_queue cls q s).
Proof. intros Hs Hq cls'. destruct (decide (cls = cls')) as [<-|Hne]; [by rewrite queue_of_put|]. rewrite queue_of_put_ne by done. apply Hs. Qed.

(** ** Evictions *)

(** Nothing but the queues changes, and items only leave, none of them critical. *)
Record shrinks (s s' : PriorityScheduler) : Prop := {
  sh_limits : (forall cls, limit_of cls s' = limit_of cls s) /\ sc_maxTotal s' = sc_maxTotal s /\ sc_maxPerPeer s' = sc_maxPerPeer s;
  sh_rest : sc_peers s' = sc_peers s /\ sc_pattern s' = sc_pattern s /\ sc_patIdx s' = sc_patIdx s;
  sh_queues : queues_ok s';
  sh_suffix cls : waiting cls s' `suffix_of` waiting cls s;
  sh_critical : waiting PriorityCritical s' = waiting PriorityCritical s;
}.

Lemma shrinks_refl s : queues_ok s -> shrinks s s.
Proof. split; [by split|by split|done|by intros|done]. Qed.

Lemma shrinks_trans s t u : shrinks s t -> shrinks t u -> shrinks s u.
Proof.
  intros [(A1 & A2 & A3) (A4 & A5 & A6) A7 A8 A9] [(B1 & B2 & B3) (B4 & B5 & B6) B7 B8 B9].
  split; [split; [intros cls; by rewrite B1|by split; etrans]|split; [|split]; by etrans|done|intros cls; transitivity (waiting cls t); [apply B8|apply A8]|by etrans].
Qed.

(** Taking an item that is not critical. *)
Lemma pop_shrinks cls q it s : queues_ok s -> cls <> PriorityCritical -> fifo_Pop (queue_of cls s) = (Some it, q) ->
  shrinks s (put_queue cls q s) /\ sched_Len (put_queue cls q s) = sched_Len s - 1.
Proof.
  intros Hs Hc Hp. destruct (fifo_Pop_list (queue_of cls s) (Hs cls)) as [[_ E]|(it' & q' & E & El & Hq)]; rewrite E in Hp; [done|]. injection Hp as -> ->.
  pose proof (put_queue_ok cls q s Hs Hq) as Hok. split.
  - split; [by destruct cls|by destruct cls|done|..].
    + intros cls'. destruct (decide (cls = cls')) as [<-|Hne]; [rewrite waiting_put; unfold waiting; rewrite El; by exists [it]|]. rewrite waiting_put_ne by done. reflexivity.
    + by rewrite waiting_put_ne.
  - rewrite !sched_Len_waiting by done. assert (waiting cls s = it :: waiting cls (put_queue cls q s)) as Ew by by rewrite waiting_put.
    rewrite (waiting_put_ne cls PriorityCritical) by done. destruct cls; [done|..]; rewrite Ew; cbn [length].
    + rewrite (waiting_put_ne PriorityNormal PriorityBackground) by done. lia.
    + rewrite (waiting_put_ne PriorityBackground PriorityNormal) by done. lia.
Qed.

Lemma evict_lower_spec turns total s : queues_ok s -> total = sched_Len s -> total < Z.of_nat turns ->
  exists b s', evict_lower turns total s = (b, s') /\ shrinks s s'
    /\ if b : bool then sched_Len s' < sc_maxTotal s else waiting PriorityNormal s' = [] /\ waiting PriorityBackground s' = [] /\ sc_maxTotal s <= sched_Len s'.
Proof.
  revert total s. induction turns as [|turns IH]; intros total s Hs Ht Hl.
  { rewrite Ht, sched_Len_waiting in Hl by done. lia. }
  cbn [evict_lower]. destruct (Z.ltb_spec total (sc_maxTotal s)) as [Hm|Hm]; [exists true, s; split; [done|]; split; [by apply shrinks_refl|lia]|].
  destruct (fifo_Pop (sc_qB s)) as [[it|] q] eqn:EB.
  { destruct (pop_shrinks PriorityBackground q it s) as [Hsh Hlen]; [done..|]. destruct (IH (total - 1) (put_queue PriorityBackground q s)) as (b & s' & -> & Hsh' & Hb);
      [apply Hsh|lia|lia|]. exists b, s'. split; [done|]. split; [by eapply shrinks_trans|exact Hb]. }
  destruct (fifo_Pop (sc_qN s)) as [[it|] q'] eqn:EN.
  { destruct (pop_shrinks PriorityNormal q' it s) as [Hsh Hlen]; [done..|]. destruct (IH (total - 1) (put_queue PriorityNormal q' s)) as (b & s' & -> & Hsh' & Hb);
      [apply Hsh|lia|lia|]. exists b, s'. split; [done|]. split; [by eapply shrinks_trans|exact Hb]. }
  exists false, s. split; [done|]. split; [by apply shrinks_refl|].
  destruct (fifo_Pop_list (sc_qB s) (Hs PriorityBackground)) as [[HB _]|(? & ? & E & _)]; [|congruence].
  destruct (fifo_Pop_list (sc_qN s) (Hs PriorityNormal)) as [[HN _]|(? & ? & E & _)]; [|congruence]. split; [exact HN|]. split; [exact HB|lia].
Qed.

Lemma room_for_spec cls s : queues_ok s -> exists b s', room_for cls s = (b, s') /\ shrinks s s'
  /\ (b = true -> 0 < sc_maxTotal s -> sched_Len s' < sc_maxTotal s) /\ (cls <> PriorityCritical -> s' = s).
Proof.
  intros Hs. unfold room_for. destruct (Z.ltb_spec 0 (sc_maxTotal s)), (Z.leb_spec (sc_maxTotal s) (sched_Len s)); cbn [andb];
    try (exists true, s; split; [done|]; split; [by apply shrinks_refl|]; split; [lia|done]).
  case_bool_decide as Ec; [|by exists false, s; split; [done|]; split; [apply shrinks_refl|]].
  destruct (evict_lower_spec (S (Z.to_nat (sched_Len s))) (sched_Len s) s) as (b & s' & -> & Hsh & Hb); [done|done|lia|].
  exists b, s'. split; [done|]. split; [done|]. split; [by intros -> _|done].
Qed.

Lemma items_of_suffix p l k : l `suffix_of` k -> items_of p l <= items_of p k.
Proof. intros [x ->]. rewrite items_of_app. pose proof (items_of_nonneg p x). lia. Qed.

Lemma shrinks_held p cls s s' : shrinks s s' -> held p cls s' <= held p cls s.
Proof. intros H. apply items_of_suffix, H. Qed.
Lemma shrinks_quota p s s' : shrinks s s' -> quota s' p = quota s p.
Proof. intros H. unfold quota. by rewrite (proj1 (sh_rest _ _ H)). Qed.
Lemma shrinks_Len s s' : queues_ok s -> shrinks s s' -> sched_Len s' <= sched_Len s.
Proof.
  intros Hs H. rewrite !sched_Len_waiting by (done || apply H).
  pose proof (suffix_length _ _ (sh_suffix _ _ H PriorityCritical)). pose proof (suffix_length _ _ (sh_suffix _ _ H PriorityNormal)).
  pose proof (suffix_length _ _ (sh_suffix _ _ H PriorityBackground)). lia.
Qed.

(** ** What an operation does *)

Lemma quota_same p q s : quota (put_peers (<[p := quota s p]> (sc_peers s)) s) q = quota s q.
Proof. unfold quota at 1. cbn [sc_peers put_peers]. destruct (decide (p = q)) as [->|Hne]; [by rewrite lookup_insert_eq|by rewrite lookup_insert_ne]. Qed.

Lemma choose_class_spec cls ps s c : choose_class cls ps s = Some c -> has_room c ps s = true /\ (c = PriorityCritical -> cls = PriorityCritical).
Proof.
  unfold choose_class. cbv zeta. destruct cls; destruct (has_room PriorityCritical ps s) eqn:EC, (has_room PriorityNormal ps s) eqn:EN, (has_room PriorityBackground ps s) eqn:EB;
    intros [= <-]; split; done.
Qed.

Lemma has_room_spec c ps s : has_room c ps s = true <-> count_of c ps < limit_of c s /\ q_total ps < sc_maxPerPeer s.
Proof. unfold has_room. rewrite negb_true_iff, orb_false_iff, !Z.leb_gt. done. Qed.

(** An item that is taken is behind the others of the class it found room in; if it is not
    taken, items may still have been evicted. *)
Lemma Enqueue_spec p cls it s : queues_ok s -> exists b s1 s', Enqueue p cls it s = (b, s')
  /\ shrinks (put_peers (<[peer_key p := quota s (peer_key p)]> (sc_peers s)) s) s1 /\ (cls <> PriorityCritical -> forall c, waiting c s1 = waiting c s)
  /\ (b = false -> s' = s1)
  /\ (b = true -> exists c, choose_class cls (quota s (peer_key p)) s = Some c /\ (0 < sc_maxTotal s -> sched_Len s1 < sc_maxTotal s)
      /\ s' = put_peers (<[peer_key p := bump c 1 (quota s (peer_key p))]> (sc_peers s1)) (put_queue c (fifo_Push (with_peer (peer_key p) it) (queue_of c s1)) s1)).
Proof.
  intros Hs. unfold Enqueue. set (k := peer_key p). set (s0 := put_peers _ s). assert (queues_ok s0) as Hs0 by (intros c; destruct c; apply (Hs PriorityCritical) || apply (Hs PriorityNormal) || apply (Hs PriorityBackground)).
  assert (choose_class cls (quota s k) s0 = choose_class cls (quota s k) s) as -> by done.
  destruct (choose_class cls (quota s k) s) as [c|] eqn:Ec.
  2: { exists false, s0, s0. split; [done|]. split; [by apply shrinks_refl|]. split; [intros _ []; done|]. split; done. }
  destruct (room_for_spec c s0 Hs0) as (b & s1 & -> & Hsh & Hb & Hn). apply choose_class_spec in Ec as [_ Hc].
  destruct b; cbn [negb].
  - eexists true, s1, _. split; [done|]. split; [done|]. split; [|split; [done|]].
    + intros Hcls c'. rewrite Hn by (intros ->; by apply Hcls, Hc). by destruct c'.
    + intros _. exists c. split; [done|]. split; [exact (Hb eq_refl)|]. by destruct c.
  - exists false, s1, s1. split; [done|]. split; [done|]. split; [|split; done].
    intros Hcls c'. rewrite Hn by (intros ->; by apply Hcls, Hc). by destruct c'.
Qed.

(** The pattern is read in a circle. *)
Definition slot (s : PriorityScheduler) (d : nat) : option PriorityClass := sc_pattern s !! ((sc_patIdx s + d) mod length (sc_pattern s))%nat.

Lemma advance_mod i n : (i < n)%nat -> (if Z.of_nat n <=? Z.of_nat (S i) then 0%nat else S i) = ((i + 1) mod n)%nat.
Proof.
  intros Hi. destruct (Z.leb_spec (Z.of_nat n) (Z.of_nat (S i))).
  - replace (i + 1)%nat with n by lia. by rewrite Nat.Div0.mod_same.
  - rewrite Nat.mod_small by lia. lia.
Qed.

(** The state of a scheduler that served the head of a class at slot [j]. *)
Definition served (s : PriorityScheduler) (j : nat) (c : PriorityClass) (it : schedItem) (q : fifoQueue) : PriorityScheduler :=
  release c it (put_queue c q (put_index ((sc_patIdx s + j + 1) mod length (sc_pattern s)) s)).

Lemma put_index_queue c q i j s : put_queue c q (put_index i (put_index j s)) = put_queue c q (put_index i s).
Proof. done. Qed.

Lemma next_turns_spec tries s d c : queues_ok s -> (sc_patIdx s < length (sc_pattern s))%nat -> (d < tries)%nat -> slot s d = Some c -> waiting c s <> [] ->
  exists j c' it q, (j <= d)%nat /\ slot s j = Some c' /\ fifo_Pop (queue_of c' s) = (Some it, q) /\ next_turns tries s = Some (Some it, served s j c' it q)
    /\ ((j < d)%nat \/ c' = c).
Proof.
  revert s d. induction tries as [|tries IH]; intros s d Hs Hi Hd Hslot Hw; [lia|]. cbn [next_turns].
  destruct (lookup_lt_is_Some_2 _ _ Hi) as [c0 Hc0]. rewrite Hc0, advance_mod by done.
  assert (slot s 0 = Some c0) as Hslot0 by (unfold slot; by rewrite Nat.add_0_r, Nat.mod_small).
  set (s1 := put_index _ s). assert (queue_of c0 s1 = queue_of c0 s) as -> by by destruct c0.
  destruct (fifo_Pop_list (queue_of c0 s) (Hs c0)) as [[El Ep]|(it & q & Ep & El & Hq)]; rewrite Ep.
  - destruct d as [|d]; [exfalso; rewrite Hslot0 in Hslot; injection Hslot as ->; by apply Hw|].
    assert (forall n, slot s1 n = slot s (S n)) as Hs1.
    { intros n. unfold slot. subst s1. cbn [sc_pattern sc_patIdx put_index]. f_equal. rewrite Nat.Div0.add_mod_idemp_l. f_equal. lia. }
    destruct (IH s1 d) as (j & c' & it & q & Hj & Hc' & Hp & -> & Hor); [intros []; apply (Hs PriorityCritical) || apply (Hs PriorityNormal) || apply (Hs PriorityBackground)| |lia|by rewrite Hs1|by unfold s1; rewrite waiting_index|].
    { subst s1. cbn [sc_pattern sc_patIdx put_index]. apply Nat.mod_upper_bound. lia. }
    exists (S j), c', it, q. split; [lia|]. split; [by rewrite <- Hs1|]. split; [rewrite <- Hp; by destruct c'|]. split; [|destruct Hor; [left; lia|by right]].
    unfold served. subst s1. cbn [sc_pattern sc_patIdx put_index]. rewrite put_index_queue. do 5 f_equal. rewrite <- !Nat.add_assoc, Nat.Div0.add_mod_idemp_l. f_equal. lia.
  - exists 0%nat, c0, it, q. split; [lia|]. split; [done|]. split; [done|]. split; [unfold served; by rewrite Nat.add_0_r|].
    destruct d; [right; congruence|left; lia].
Qed.

(** ** The invariant *)

Lemma release_quota c it s p : quota (release c it s) p =
  if bool_decide (si_peerID it = p) then
    match sc_peers s !! p with
    | None => new_quota
    | Some ps => if q_total ps - 1 <=? 0 then new_quota else bump c (-1) ps
    end
  else quota s p.
Proof.
  unfold release, quota. case_bool_decide as E.
  - subst p. destruct (sc_peers s !! si_peerID it) as [ps|] eqn:Eps; [|by rewrite Eps]. cbn [sc_peers put_peers q_total bump]. replace (q_total ps + -1) with (q_total ps - 1) by lia.
    destruct (_ <=? 0); [by rewrite lookup_delete_eq|by rewrite lookup_insert_eq].
  - destruct (sc_peers s !! si_peerID it) as [ps|] eqn:Eps; [|done]. cbn [sc_peers put_peers]. destruct (_ <=? 0); [by rewrite lookup_delete_ne|by rewrite lookup_insert_ne].
Qed.

Lemma release_rest c it s : (forall c', queue_of c' (release c it s) = queue_of c' s) /\ (forall c', limit_of c' (release c it s) = limit_of c' s)
  /\ sc_maxTotal (release c it s) = sc_maxTotal s /\ sc_maxPerPeer (release c it s) = sc_maxPerPeer s /\ sc_pattern (release c it s) = sc_pattern s
  /\ sc_patIdx (release c it s) = sc_patIdx s.
Proof. unfold release. destruct (sc_peers s !! si_peerID it); [|done]. split; [by intros []|]. split; [by intros []|]. done. Qed.

Lemma served_waiting s j c it q : queues_ok s -> fifo_Pop (queue_of c s) = (Some it, q) ->
  queues_ok (served s j c it q) /\ waiting c s = it :: waiting c (served s j c it q) /\ (forall c', c' <> c -> waiting c' (served s j c it q) = waiting c' s).
Proof.
  intros Hs Hp. destruct (fifo_Pop_list (queue_of c s) (Hs c)) as [[_ E]|(it' & q' & E & El & Hq)]; rewrite E in Hp; [done|]. injection Hp as -> ->.
  set (t := put_queue c q (put_index ((sc_patIdx s + j + 1) mod length (sc_pattern s)) s)).
  assert (forall c', queue_of c' (served s j c it q) = if decide (c' = c) then q else queue_of c' s) as Hq'.
  { intros c'. unfold served. fold t. rewrite (proj1 (release_rest c it t)). subst t. case_decide as Ec; [subst c'; by rewrite queue_of_put|]. rewrite queue_of_put_ne by congruence. by destruct c'. }
  split; [|split].
  - intros c'. rewrite Hq'. case_decide; [done|apply Hs].
  - unfold waiting. rewrite Hq', El. by case_decide.
  - intros c' Hne. unfold waiting. rewrite Hq'. by case_decide.
Qed.

Lemma served_params s j c it q : (forall c', limit_of c' (served s j c it q) = limit_of c' s) /\ sc_maxTotal (served s j c it q) = sc_maxTotal s
  /\ sc_maxPerPeer (served s j c it q) = sc_maxPerPeer s /\ sc_pattern (served s j c it q) = sc_pattern s
  /\ sc_patIdx (served s j c it q) = ((sc_patIdx s + j + 1) mod length (sc_pattern s))%nat.
Proof.
  unfold served. set (t := put_queue c q _). destruct (release_rest c it t) as (_ & H1 & H2 & H3 & H4 & H5). rewrite H2, H3, H4, H5.
  split; [|done]. intros c'. rewrite H1. by destruct c'.
Qed.

Lemma served_quota s j c it q p : quota (served s j c it q) p =
  if bool_decide (si_peerID it = p) then
    match sc_peers s !! p with None => new_quota | Some ps => if q_total ps - 1 <=? 0 then new_quota else bump c (-1) ps end
  else quota s p.
Proof. unfold served. by rewrite release_quota. Qed.

(** The counts of the peer whose item was served. *)
Lemma served_counts s j c it q : sched_ok s -> fifo_Pop (queue_of c s) = (Some it, q) ->
  (forall c', count_of c' (quota (served s j c it q) (si_peerID it)) = count_of c' (quota s (si_peerID it)) - if bool_decide (c = c') then 1 else 0)
  /\ q_total (quota (served s j c it q) (si_peerID it)) = q_total (quota s (si_peerID it)) - 1.
Proof.
  intros Hs Hp. destruct (served_waiting s j c it q (ok_queues s Hs) Hp) as (_ & Hw & _). set (p := si_peerID it).
  assert (1 <= held p c s) as Hheld.
  { unfold held. rewrite Hw, items_of_cons, bool_decide_eq_true_2 by done. pose proof (items_of_nonneg p (waiting c (served s j c it q))). lia. }
  pose proof (ok_held s Hs p c) as Hh. pose proof (ok_counts s Hs p) as Hc. pose proof (ok_sum s Hs p) as Hsum.
  rewrite served_quota. fold p. rewrite bool_decide_eq_true_2 by done. unfold quota in *. destruct (sc_peers s !! p) as [ps|]; cbn [default from_option id] in *.
  2: { exfalso. destruct c; cbn [count_of new_quota q_c q_n q_b] in Hh; lia. }
  pose proof (Hc PriorityCritical). pose proof (Hc PriorityNormal). pose proof (Hc PriorityBackground).
  destruct (Z.leb_spec (q_total ps - 1) 0).
  - assert (count_of c ps = 1 /\ forall c', c' <> c -> count_of c' ps = 0) as [E1 E0] by (split; [destruct c|intros c' Hne; destruct c, c'; try done]; lia).
    split; [|cbn [q_total new_quota]; destruct c; lia]. intros c'. replace (count_of c' new_quota) with 0 by by destruct c'.
    destruct (decide (c = c')) as [<-|Hne]; [rewrite bool_decide_eq_true_2 by done; lia|rewrite bool_decide_eq_false_2, E0 by congruence; lia].
  - split; [intros c'; rewrite count_bump; case_bool_decide; lia|cbn [q_total bump]; lia].
Qed.

Lemma served_ok s j c it q : sched_ok s -> fifo_Pop (queue_of c s) = (Some it, q) -> sched_ok (served s j c it q).
Proof.
  intros Hs Hp. destruct (served_waiting s j c it q (ok_queues s Hs) Hp) as (Hq & Hw & Hw'). destruct (served_counts s j c it q Hs Hp) as [Hc Ht].
  destruct (served_params s j c it q) as (P1 & P2 & P3 & P4 & P5). set (s' := served s j c it q) in *. pose proof (ok_index s Hs) as Hidx.
  assert (forall p, si_peerID it <> p -> quota s' p = quota s p) as Hne by (intros p Hp'; unfold s'; rewrite served_quota; by rewrite bool_decide_eq_false_2).
  assert (forall p c', held p c' s' = held p c' s - if bool_decide (si_peerID it = p) && bool_decide (c = c') then 1 else 0) as Hheld.
  { intros p c'. unfold held. destruct (decide (c' = c)) as [->|Hcc].
    - rewrite Hw, items_of_cons, (bool_decide_eq_true_2 (c = c)) by done. rewrite andb_true_r. lia.
    - rewrite Hw' by done. rewrite (bool_decide_eq_false_2 (c = c')) by congruence. rewrite andb_false_r. lia. }
  split.
  - exact Hq.
  - rewrite P4, P5. apply Nat.mod_upper_bound. lia.
  - intros c'. rewrite P4. apply Hs.
  - intros p c'. rewrite Hheld. pose proof (ok_held s Hs p c'). destruct (decide (si_peerID it = p)) as [<-|Hn].
    + rewrite Hc, (bool_decide_eq_true_2 (si_peerID it = _)) by done. cbn [andb]. lia.
    + rewrite Hne, (bool_decide_eq_false_2 (si_peerID it = p)) by done. cbn [andb]. lia.
  - intros p c'. rewrite P1. pose proof (ok_counts s Hs p c') as Hcc. destruct (decide (si_peerID it = p)) as [<-|Hn]; [|by rewrite Hne].
    rewrite Hc. split; [|case_bool_decide; lia]. pose proof (Hheld (si_peerID it) c') as H1. rewrite (bool_decide_eq_true_2 (si_peerID it = _)) in H1 by done. cbn [andb] in H1.
    pose proof (items_of_nonneg (si_peerID it) (waiting c' s')) as H2. fold (held (si_peerID it) c' s') in H2. pose proof (ok_held s Hs (si_peerID it) c'). lia.
  - intros p. pose proof (ok_sum s Hs p). destruct (decide (si_peerID it = p)) as [<-|Hn]; [|by rewrite Hne]. rewrite !Hc, Ht.
    destruct c; repeat (rewrite bool_decide_eq_true_2 by done) || rewrite bool_decide_eq_false_2 by done; lia.
  - intros p. rewrite P3. pose proof (ok_total s Hs p). destruct (decide (si_peerID it = p)) as [<-|Hn]; [rewrite Ht; lia|by rewrite Hne].
  - rewrite P2. intros H. pose proof (ok_all s Hs H) as Ha. rewrite sched_Len_waiting in Ha |- * by (exact Hq || exact (ok_queues s Hs)).
    pose proof (f_equal length Hw) as Hl. cbn [length] in Hl. destruct c; rewrite ?(Hw' PriorityCritical), ?(Hw' PriorityNormal), ?(Hw' PriorityBackground) by done; lia.
Qed.

Lemma Enqueue_ok p cls it s : sched_ok s -> sched_ok (Enqueue p cls it s).2.
Proof.
  intros Hs. destruct (Enqueue_spec p cls it s (ok_queues s Hs)) as (b & s1 & s' & -> & Hsh & _ & Hf & Ht). cbn [snd]. set (k := peer_key p) in *.
  set (s0 := put_peers (<[k := quota s k]> (sc_peers s)) s) in *.
  assert (sched_ok s1) as H1.
  { destruct Hsh as [(L1 & L2 & L3) (R1 & R2 & R3) Hq Hsuf Hc] eqn:Esh. clear Esh.
    assert (forall x, quota s1 x = quota s x) as Hquota by (intros x; unfold quota at 1; rewrite R1; exact (quota_same k x s)).
    assert (forall c, waiting c s0 = waiting c s) as Hw0 by (intros c; apply waiting_peers).
    assert (forall c, limit_of c s1 = limit_of c s) as L1' by (intros c; rewrite L1; by destruct c).
    split.
    - exact Hq.
    - rewrite R2, R3. apply Hs.
    - intros c. rewrite R2. apply Hs.
    - intros x c. rewrite Hquota. etrans; [by apply items_of_suffix, Hsuf|]. rewrite Hw0. apply Hs.
    - intros x c. rewrite Hquota, L1'. apply Hs.
    - intros x. rewrite Hquota. apply Hs.
    - intros x. rewrite Hquota, L3. apply Hs.
    - rewrite L2. intros Hp. pose proof (ok_all s Hs Hp). etrans; [|done]. rewrite !sched_Len_waiting by (exact Hq || exact (ok_queues s Hs)).
      pose proof (suffix_length _ _ (Hsuf PriorityCritical)) as E1. pose proof (suffix_length _ _ (Hsuf PriorityNormal)) as E2. pose proof (suffix_length _ _ (Hsuf PriorityBackground)) as E3.
      rewrite !Hw0 in *. lia. }
  destruct b; [|by rewrite (Hf eq_refl)]. destruct (Ht eq_refl) as (c & Hch & Hroom & ->). apply choose_class_spec in Hch as [Hr _]. rewrite has_room_spec in Hr.
  destruct Hsh as [(L1 & L2 & L3) (R1 & R2 & R3) Hq Hsuf Hc].
  set (it' := with_peer k it). destruct (fifo_Push_list it' (queue_of c s1) (Hq c)) as [Hpo Hpl]. set (s2 := put_queue c _ s1). set (s3 := put_peers _ s2).
  assert (queues_ok s2) as Hq2 by (by apply put_queue_ok). assert (queues_ok s3) as Hq3 by (intros []; apply (Hq2 PriorityCritical) || apply (Hq2 PriorityNormal) || apply (Hq2 PriorityBackground)).
  assert (forall x, quota s1 x = quota s x) as Hquota by (intros x; unfold quota at 1; rewrite R1; exact (quota_same k x s)).
  assert (forall x, quota s3 x = if bool_decide (k = x) then bump c 1 (quota s k) else quota s x) as Hquota3.
  { intros x. unfold quota at 1. subst s3. cbn [sc_peers put_peers]. case_bool_decide as E; [subst x; by rewrite lookup_insert_eq|]. rewrite lookup_insert_ne by done. apply Hquota. }
  assert (forall c', waiting c' s3 = if decide (c' = c) then waiting c s1 ++ [it'] else waiting c' s1) as Hw3.
  { intros c'. subst s3 s2. rewrite waiting_peers. case_decide as E; [subst c'; by rewrite waiting_put|by rewrite waiting_put_ne by congruence]. }
  assert (forall c', limit_of c' s3 = limit_of c' s1) as L3' by by intros [].
  split.
  - exact Hq3.
  - exact (ok_index s1 H1).
  - exact (ok_pattern s1 H1).
  - intros x c'. pose proof (ok_held s1 H1 x c') as Hh. rewrite Hquota in Hh. unfold held in *. rewrite Hw3, Hquota3. case_decide as E.
    + subst c'. rewrite items_of_app, items_of_cons. cbn [si_peerID it' with_peer]. change (items_of x []) with 0. case_bool_decide as Ek; [|lia]. subst x. rewrite count_bump, bool_decide_eq_true_2 by done. lia.
    + case_bool_decide as Ek; [|done]. subst x. rewrite count_bump, bool_decide_eq_false_2 by congruence. lia.
  - intros x c'. rewrite L3'. pose proof (ok_counts s1 H1 x c') as Hcc. rewrite Hquota in Hcc. rewrite Hquota3. case_bool_decide as Ek; [|done]. subst x. rewrite count_bump.
    assert (limit_of c s1 = limit_of c s) by (rewrite L1; by destruct c). case_bool_decide as E; [subst c'; lia|lia].
  - intros x. pose proof (ok_sum s Hs x) as Hsum. rewrite Hquota3. case_bool_decide as Ek; [|done]. subst x. rewrite !count_bump. cbn [q_total bump].
    destruct c; repeat (rewrite bool_decide_eq_true_2 by done) || rewrite bool_decide_eq_false_2 by done; lia.
  - intros x. change (sc_maxPerPeer s3) with (sc_maxPerPeer s1). rewrite L3. change (sc_maxPerPeer s0) with (sc_maxPerPeer s). pose proof (ok_total s Hs x). rewrite Hquota3.
    case_bool_decide as Ek; [subst x; cbn [q_total bump]; lia|done].
  - change (sc_maxTotal s3) with (sc_maxTotal s1). rewrite L2. change (sc_maxTotal s0) with (sc_maxTotal s). intros Hp. specialize (Hroom Hp). rewrite sched_Len_waiting in Hroom |- * by done.
    rewrite !Hw3. repeat case_decide; try congruence; rewrite ?length_app; cbn [length]; subst; lia.
Qed.

(** A class is at some slot of a turn around the pattern. *)
Lemma next_slot s c : sched_ok s -> exists d, (d < length (sc_pattern s))%nat /\ slot s d = Some c.
Proof.
  intros Hs. pose proof (ok_index s Hs) as Hi. pose proof (ok_pattern s Hs c) as Hc. apply list_elem_of_lookup_1 in Hc as [i Hc]. pose proof (lookup_lt_Some _ _ _ Hc) as Hl.
  set (n := length (sc_pattern s)) in *. exists ((i + (n - sc_patIdx s)) mod n)%nat. split; [apply Nat.mod_upper_bound; lia|].
  unfold slot. fold n. rewrite Nat.Div0.add_mod_idemp_r. replace (sc_patIdx s + (i + (n - sc_patIdx s)))%nat with (i + 1 * n)%nat by lia.
  rewrite Nat.Div0.mod_add, Nat.mod_small by done. exact Hc.
Qed.

Lemma Next_served s : sched_ok s -> (sched_Len s = 0 /\ Next s = Some (None, s))
  \/ exists j c it q, fifo_Pop (queue_of c s) = (Some it, q) /\ slot s j = Some c /\ Next s = Some (Some it, served s j c it q).
Proof.
  intros Hs. unfold Next. destruct (Z.eqb_spec (sched_Len s) 0) as [E|E]; [by left|right].
  assert (exists c, waiting c s <> []) as [c Hc].
  { rewrite (sched_Len_waiting s (ok_queues s Hs)) in E. destruct (waiting PriorityCritical s) eqn:E1; [|exists PriorityCritical; congruence].
    destruct (waiting PriorityNormal s) eqn:E2; [|exists PriorityNormal; congruence]. destruct (waiting PriorityBackground s) eqn:E3; [done|]. exists PriorityBackground. congruence. }
  destruct (next_slot s c Hs) as (d & Hd & Hslot). destruct (next_turns_spec (Nat.max 1 (length (sc_pattern s))) s d c) as (j & c' & it & q & _ & Hc' & Hp & -> & _);
    [exact (ok_queues s Hs)|exact (ok_index s Hs)|lia|done|done|]. by exists j, c', it, q.
Qed.

(** What [Next] gives where it does not panic. *)
Definition next (s : PriorityScheduler) : option schedItem * PriorityScheduler := default (None, s) (Next s).

Lemma Next_next s : sched_ok s -> Next s = Some (next s).
Proof. intros Hs. unfold next. by destruct (Next_served s Hs) as [[_ ->]|(j & c & it & q & _ & _ & ->)]. Qed.

Lemma next_served s : sched_ok s -> (sched_Len s = 0 /\ next s = (None, s))
  \/ exists j c it q, fifo_Pop (queue_of c s) = (Some it, q) /\ slot s j = Some c /\ next s = (Some it, served s j c it q).
Proof.
  intros Hs. unfold next. destruct (Next_served s Hs) as [[E ->]|(j & c & it & q & Hp & Hj & ->)]; [by left|right]. by exists j, c, it, q.
Qed.

Lemma next_ok s : sched_ok s -> sched_ok (next s).2.
Proof. intros Hs. destruct (next_served s Hs) as [[_ ->]|(j & c & it & q & Hp & _ & ->)]; [done|]. by apply served_ok. Qed.

(** ** Histories *)

Inductive sched_op :=
  | OpEnqueue (peerID : string) (cls : PriorityClass) (it : schedItem)
  | OpNext.

(** The items served, in order, and the scheduler after; [None]: a panic. *)
Fixpoint sched_run (ops : list sched_op) (s : PriorityScheduler) : option (list schedItem * PriorityScheduler) :=
  match ops with
  | [] => Some ([], s)
  | OpEnqueue p cls it :: ops' => sched_run ops' (Enqueue p cls it s).2
  | OpNext :: ops' =>
      '(out, s) ← Next s;
      '(outs, s) ← sched_run ops' s;
      Some (option_list out ++ outs, s)
  end.

(** The same where nothing panics. *)
Fixpoint calm_run (ops : list sched_op) (s : PriorityScheduler) : list schedItem * PriorityScheduler :=
  match ops with
  | [] => ([], s)
  | OpEnqueue p cls it :: ops' => calm_run ops' (Enqueue p cls it s).2
  | OpNext :: ops' => let '(outs, s') := calm_run ops' (next s).2 in (option_list (next s).1 ++ outs, s')
  end.

Lemma calm_run_next ops s : calm_run (OpNext :: ops) s = (option_list (next s).1 ++ (calm_run ops (next s).2).1, (calm_run ops (next s).2).2).
Proof. cbn [calm_run]. by destruct (calm_run ops (next s).2). Qed.

Lemma calm_run_ok ops s : sched_ok s -> sched_ok (calm_run ops s).2.
Proof.
  revert s. induction ops as [|[p cls it|] ops IH]; intros s Hs; [done|apply IH; by apply Enqueue_ok|]. rewrite calm_run_next. cbn [snd]. apply IH. by apply next_ok.
Qed.

(** A well-formed scheduler does not panic. *)
Lemma sched_run_calm ops s : sched_ok s -> sched_run ops s = Some (calm_run ops s).
Proof.
  revert s. induction ops as [|[p cls it|] ops IH]; intros s Hs; [done|apply IH; by apply Enqueue_ok|]. rewrite calm_run_next. cbn [sched_run]. rewrite Next_next by done.
  cbn [mbind option_bind]. destruct (next s) as [out s1] eqn:E. assert (sched_ok s1) as H1 by (pose proof (next_ok s Hs) as H; by rewrite E in H).
  rewrite IH by done. cbn. by destruct (calm_run ops s1).
Qed.

Lemma within_range d m x : 0 < d <= m -> 0 < within d m x <= m.
Proof. intros H. unfold within, at_most, if_le0. destruct (Z.leb_spec x 0), (Z.ltb_spec m d), (Z.ltb_spec m x); lia. Qed.

(** A scheduler made from options that are normal. *)
Definition new_sched (cpus : Z) (o : Options) : PriorityScheduler := NewPriorityScheduler (Options_normalize cpus o).

Lemma new_sched_ok cpus o : sched_ok (new_sched cpus o).
Proof.
  set (s := new_sched cpus o). assert (forall c, waiting c s = []) as Hw by by intros [].
  assert (sc_pattern s = replicate (Z.to_nat (op_SchedulerCriticalWeight (Options_normalize cpus o))) PriorityCritical
    ++ replicate (Z.to_nat (op_SchedulerNormalWeight (Options_normalize cpus o))) PriorityNormal
    ++ replicate (Z.to_nat (op_SchedulerBackgroundWeight (Options_normalize cpus o))) PriorityBackground) as Hpat.
  { cbn [sc_pattern s new_sched NewPriorityScheduler op_SchedulerCriticalWeight Options_normalize].
    pose proof (within_range 5 32 (op_SchedulerCriticalWeight o) ltac:(lia)). destruct (Z.to_nat (within 5 32 _)) eqn:E; [lia|]. done. }
  cbn [op_SchedulerCriticalWeight op_SchedulerNormalWeight op_SchedulerBackgroundWeight Options_normalize] in Hpat.
  pose proof (within_range 5 32 (op_SchedulerCriticalWeight o) ltac:(lia)). pose proof (within_range 3 32 (op_SchedulerNormalWeight o) ltac:(lia)).
  pose proof (within_range 1 32 (op_SchedulerBackgroundWeight o) ltac:(lia)).
  split.
  - intros []; exact (le_n 0).
  - rewrite Hpat, length_app, length_replicate. change (sc_patIdx s) with 0%nat. lia.
  - intros c. rewrite Hpat, !elem_of_app. destruct c; [left|right; left|right; right]; apply elem_of_replicate; (split; [done|lia]).
  - intros p c. unfold held. rewrite Hw. by destruct c.
  - intros p c. change (quota s p) with new_quota. destruct c; cbn [count_of new_quota q_c q_n q_b]; lia.
  - done.
  - intros p. change (quota s p) with new_quota. cbn [q_total new_quota]. lia.
  - intros Hp. replace (sched_Len s) with 0 by done. lia.
Qed.

Lemma new_run_ok cpus o ops outs s : sched_run ops (new_sched cpus o) = Some (outs, s) -> sched_ok s.
Proof. rewrite sched_run_calm by apply new_sched_ok. intros [= E]. pose proof (calm_run_ok ops _ (new_sched_ok cpus o)) as H. by rewrite E in H. Qed.

(** The limits stay what they were. *)
Definition same_limits (s s' : PriorityScheduler) : Prop :=
  (forall c, limit_of c s' = limit_of c s) /\ sc_maxTotal s' = sc_maxTotal s /\ sc_maxPerPeer s' = sc_maxPerPeer s.

Lemma calm_run_limits ops s : sched_ok s -> same_limits s (calm_run ops s).2.
Proof.
  assert (forall s t u, same_limits s t -> same_limits t u -> same_limits s u) as Htrans.
  { intros ??? (A1 & A2 & A3) (B1 & B2 & B3). split; [intros c; by rewrite B1|by split; etrans]. }
  revert s. induction ops as [|[p cls it|] ops IH]; intros s Hs; [by split|..].
  - cbn [calm_run]. eapply Htrans; [|apply IH; by apply Enqueue_ok]. destruct (Enqueue_spec p cls it s (ok_queues s Hs)) as (b & s1 & s' & -> & Hsh & _ & Hf & Ht). cbn [snd].
    destruct (sh_limits _ _ Hsh) as (E1 & E2 & E3). destruct b.
    + destruct (Ht eq_refl) as (c & _ & _ & ->). split; [intros c'; etrans; [|etrans; [apply (E1 c')|]]; by destruct c'|by split].
    + rewrite (Hf eq_refl). split; [intros c'; rewrite E1; by destruct c'|by split].
  - rewrite calm_run_next. cbn [snd]. eapply Htrans; [|apply IH; by apply next_ok]. destruct (next_served s Hs) as [[_ ->]|(j & c & it & q & _ & _ & ->)]; [by split|]. cbn [snd].
    destruct (served_params s j c it q) as (E1 & E2 & E3 & _). by split.
Qed.

(** C27: Over any history the scheduler keeps the limits of its options: on all items, on the
    items of each peer, and on the items of each peer in each class; and it never panics. *)
Theorem queues_are_bounded cpus o ops p : let o' := Options_normalize cpus o in exists outs s, sched_run ops (new_sched cpus o) = Some (outs, s) /\
  sched_Len s <= op_SchedulerMaxQueuedTotal o' /\ held_all p s <= op_SchedulerMaxQueuedPerPeer o' /\ held p PriorityCritical s <= op_SchedulerMaxQueuedCritical o'
  /\ held p PriorityNormal s <= op_SchedulerMaxQueuedNormal o' /\ held p PriorityBackground s <= op_SchedulerMaxQueuedBg o'.
Proof.
  intros o'. rewrite sched_run_calm by apply new_sched_ok. exists (calm_run ops (new_sched cpus o)).1, (calm_run ops (new_sched cpus o)).2. split; [by destruct (calm_run ops _)|].
  set (s := (calm_run ops (new_sched cpus o)).2). assert (sched_ok s) as Hs by apply calm_run_ok, new_sched_ok. destruct (calm_run_limits ops (new_sched cpus o) (new_sched_ok cpus o)) as (L1 & L2 & L3).
  pose proof (L1 PriorityCritical) as LC. pose proof (L1 PriorityNormal) as LN. pose proof (L1 PriorityBackground) as LB. clear L1. fold s in L2, L3, LC, LN, LB.
  pose proof (within_range 256 20000 (op_SchedulerMaxQueuedPerPeer o) ltac:(lia)) as Hpp. set (pp := within 256 20000 _) in *.
  pose proof (within_range 2048 200000 (op_SchedulerMaxQueuedTotal o) ltac:(lia)) as Htot. set (tot := within 2048 200000 _) in *.
  assert (forall d x, 0 < d -> 0 < within d pp x) as Hpos by (clear -Hpp; intros d x Hd; unfold within, at_most, if_le0; destruct (Z.leb_spec x 0), (Z.ltb_spec pp d), (Z.ltb_spec pp x); lia).
  change (sc_maxTotal s = tot) in L2. change (sc_maxPerPeer s = at_most tot pp) in L3. change (sc_maxC s = within 64 pp (op_SchedulerMaxQueuedCritical o)) in LC.
  change (sc_maxN s = within 128 pp (op_SchedulerMaxQueuedNormal o)) in LN. change (sc_maxB s = within 64 pp (op_SchedulerMaxQueuedBg o)) in LB.
  assert (0 < at_most tot pp) as Hmin by (unfold at_most; destruct (_ <? _); lia).
  pose proof (ok_held s Hs p PriorityCritical). pose proof (ok_held s Hs p PriorityNormal). pose proof (ok_held s Hs p PriorityBackground).
  pose proof (ok_counts s Hs p PriorityCritical) as CC. pose proof (ok_counts s Hs p PriorityNormal) as CN. pose proof (ok_counts s Hs p PriorityBackground) as CB. cbn [limit_of] in CC, CN, CB.
  pose proof (ok_sum s Hs p). pose proof (ok_total s Hs p). pose proof (ok_all s Hs ltac:(lia)).
  pose proof (Hpos 64 (op_SchedulerMaxQueuedCritical o) ltac:(lia)). pose proof (Hpos 128 (op_SchedulerMaxQueuedNormal o) ltac:(lia)). pose proof (Hpos 64 (op_SchedulerMaxQueuedBg o) ltac:(lia)).
  change (op_SchedulerMaxQueuedTotal o') with tot. change (op_SchedulerMaxQueuedPerPeer o') with (at_most tot pp).
  change (op_SchedulerMaxQueuedCritical o') with (within 64 pp (op_SchedulerMaxQueuedCritical o)). change (op_SchedulerMaxQueuedNormal o') with (within 128 pp (op_SchedulerMaxQueuedNormal o)).
  change (op_SchedulerMaxQueuedBg o') with (within 64 pp (op_SchedulerMaxQueuedBg o)). unfold held_all. lia.
Qed.

(** ** When an item is served *)

Fixpoint nexts (ops : list sched_op) : nat :=
  match ops with
  | [] => 0
  | OpNext :: ops' => S (nexts ops')
  | OpEnqueue _ _ _ :: ops' => nexts ops'
  end.

(** Only critical items may evict others. *)
Definition no_eviction (c : PriorityClass) (o : sched_op) : Prop :=
  c = PriorityCritical \/ match o with OpEnqueue _ cls _ => cls <> PriorityCritical | OpNext => True end.

Lemma Enqueue_waiting c p cls it s : sched_ok s -> no_eviction c (OpEnqueue p cls it) -> exists l, waiting c (Enqueue p cls it s).2 = waiting c s ++ l.
Proof.
  intros Hs Hc. destruct (Enqueue_spec p cls it s (ok_queues s Hs)) as (b & s1 & s' & -> & Hsh & Hw & Hf & Ht). cbn [snd].
  assert (waiting c s1 = waiting c s) as E.
  { destruct Hc as [->|Hc]; [|by apply Hw]. rewrite (sh_critical _ _ Hsh). apply waiting_peers. }
  destruct b; [|rewrite (Hf eq_refl), E; exists []; by rewrite app_nil_r]. destruct (Ht eq_refl) as (c' & _ & _ & ->). rewrite waiting_peers.
  destruct (decide (c' = c)) as [->|Hne].
  - rewrite waiting_put. destruct (fifo_Push_list (with_peer (peer_key p) it) (queue_of c s1) (sh_queues _ _ Hsh c)) as [_ ->]. unfold waiting in *. rewrite E. by eexists.
  - rewrite waiting_put_ne, E by done. exists []. by rewrite app_nil_r.
Qed.

Lemma Enqueue_slot p cls it s d : sched_ok s -> slot (Enqueue p cls it s).2 d = slot s d /\ length (sc_pattern (Enqueue p cls it s).2) = length (sc_pattern s).
Proof.
  intros Hs. destruct (Enqueue_spec p cls it s (ok_queues s Hs)) as (b & s1 & s' & -> & Hsh & _ & Hf & Ht). cbn [snd].
  destruct (sh_rest _ _ Hsh) as (_ & E1 & E2). assert (sc_pattern s' = sc_pattern s /\ sc_patIdx s' = sc_patIdx s) as [F1 F2]; [|unfold slot; by rewrite F1, F2].
  destruct b; [destruct (Ht eq_refl) as (c & _ & _ & ->)|rewrite (Hf eq_refl)]; by split.
Qed.

Lemma next_slot_from s c n : sched_ok s -> (n <= length (sc_pattern s))%nat -> exists d, (d < length (sc_pattern s))%nat /\ slot s (n + d) = Some c.
Proof.
  intros Hs Hn. destruct (next_slot s c Hs) as (d & Hd & Hs'). set (m := length (sc_pattern s)) in *.
  exists ((d + (m - n)) mod m)%nat. split; [apply Nat.mod_upper_bound; lia|]. unfold slot in *. fold m in Hs' |- *. rewrite Nat.add_assoc, Nat.Div0.add_mod_idemp_r, <- Hs'. f_equal.
  replace (sc_patIdx s + n + (d + (m - n)))%nat with (sc_patIdx s + d + 1 * m)%nat by lia. apply Nat.Div0.mod_add.
Qed.

(** An item behind [k] others, with [d] slots to the next of its class. *)
Lemma item_served ops s c k d it : sched_ok s -> waiting c s !! k = Some it -> slot s d = Some c -> (d < length (sc_pattern s))%nat ->
  Forall (no_eviction c) ops -> (k * length (sc_pattern s) + d < nexts ops)%nat -> it ∈ (calm_run ops s).1.
Proof.
  revert s k d. induction ops as [|[p cls it'|] ops IH]; intros s k d Hs Hk Hd Hl Hops Hn; [unfold nexts in Hn; cbn in Hn; lia|..]; apply Forall_cons in Hops as [Ho Hops].
  - cbn [calm_run]. destruct (Enqueue_slot p cls it' s d Hs) as [E1 E2]. destruct (Enqueue_waiting c p cls it' s Hs Ho) as [l E].
    apply (IH _ k d); [by apply Enqueue_ok|rewrite E; by apply lookup_app_l_Some|by rewrite E1|by rewrite E2|done|rewrite E2; exact Hn].
  - rewrite calm_run_next. cbn [fst]. apply elem_of_app.
    assert (waiting c s <> []) as Hw by (intros E; by rewrite E in Hk).
    assert (sched_Len s <> 0) as Hlen.
    { rewrite (sched_Len_waiting s (ok_queues s Hs)). destruct c; destruct (waiting _ s) in Hw |- *; try done; cbn [length]; lia. }
    assert (nexts (OpNext :: ops) = S (nexts ops)) as En by done. rewrite En in Hn.
    destruct (next_turns_spec (Nat.max 1 (length (sc_pattern s))) s d c) as (j & c' & x & q & Hj & Hsj & Hp & Hnext & Hor); [exact (ok_queues s Hs)|exact (ok_index s Hs)|lia|done|done|].
    assert (next s = (Some x, served s j c' x q)) as E by (unfold next, Next; destruct (Z.eqb_spec (sched_Len s) 0); [done|by rewrite Hnext]). rewrite E. cbn [fst snd option_list].
    destruct (served_waiting s j c' x q (ok_queues s Hs) Hp) as (_ & W1 & W2). destruct (served_params s j c' x q) as (_ & _ & _ & P1 & P2).
    pose proof (served_ok s j c' x q Hs Hp) as Hs'. assert (forall n, slot (served s j c' x q) n = slot s (S j + n)) as Hslot.
    { intros n. unfold slot. rewrite P1, P2, Nat.Div0.add_mod_idemp_l. f_equal. f_equal. lia. }
    destruct (decide (c' = c)) as [->|Hne].
    + destruct k as [|k]; [left; rewrite W1 in Hk; injection Hk as ->; by left|right]. rewrite W1 in Hk.
      destruct (next_slot_from s c (S j)) as (d' & Hd' & Hsd'); [done|lia|]. apply (IH _ k d'); [done|exact Hk|by rewrite Hslot|by rewrite P1|done|rewrite P1; lia].
    + destruct Hor as [Hor|]; [|done]. right. apply (IH _ k (d - S j)%nat); [done|by rewrite W2|rewrite Hslot; by replace (S j + (d - S j))%nat with d by lia|rewrite P1; lia|done|rewrite P1; lia].
Qed.

(** C19: An item behind [k] others of its class is served within [k + 1] turns around the
    pattern, whatever is enqueued in between: always if it is critical, and otherwise as
    long as no critical item comes, which might evict it. *)
Theorem waiting_items_are_served cpus o before ops c k it outs s : sched_run before (new_sched cpus o) = Some (outs, s) ->
  waiting c s !! k = Some it -> Forall (no_eviction c) ops -> (S k * length (sc_pattern s) <= nexts ops)%nat ->
  exists outs' s', sched_run ops s = Some (outs', s') /\ it ∈ outs'.
Proof.
  intros Hrun Hk Ho Hn. apply new_run_ok in Hrun as Hs. rewrite sched_run_calm by done.
  exists (calm_run ops s).1, (calm_run ops s).2. split; [by destruct (calm_run ops s)|]. destruct (next_slot s c Hs) as (d & Hd & Hsd).
  apply (item_served ops s c k d it); try done. lia.
Qed.

(** ** What an eviction does *)

(** Whether an item of the peer [x] came in. *)
Definition accepted (x p : string) (cls : PriorityClass) (it : schedItem) (s : PriorityScheduler) : Z :=
  if bool_decide (peer_key p = x) && (Enqueue p cls it s).1 then 1 else 0.

(** The items of the peer that were taken out of the queues to make room. *)
Definition pushed_out (x p : string) (cls : PriorityClass) (it : schedItem) (s : PriorityScheduler) : Z :=
  held_all x s + accepted x p cls it s - held_all x (Enqueue p cls it s).2.

Fixpoint evicted (x : string) (ops : list sched_op) (s : PriorityScheduler) : Z :=
  match ops with
  | [] => 0
  | OpEnqueue p cls it :: ops' => pushed_out x p cls it s + evicted x ops' (Enqueue p cls it s).2
  | OpNext :: ops' => evicted x ops' (next s).2
  end.

(** A peer is charged for what comes in, and for nothing less by what is taken out. *)
Lemma Enqueue_charge x p cls it s : sched_ok s -> q_total (quota (Enqueue p cls it s).2 x) = q_total (quota s x) + accepted x p cls it s /\ 0 <= pushed_out x p cls it s.
Proof.
  intros Hs. unfold pushed_out, accepted. destruct (Enqueue_spec p cls it s (ok_queues s Hs)) as (b & s1 & s' & -> & Hsh & _ & Hf & Ht). cbn [fst snd]. set (k := peer_key p) in *.
  set (s0 := put_peers (<[k := quota s k]> (sc_peers s)) s) in *.
  assert (forall y, quota s1 y = quota s y) as Hq by (intros y; rewrite (shrinks_quota y _ _ Hsh); apply quota_same).
  assert (forall c, held x c s1 <= held x c s) as Hh by (intros c; etrans; [exact (shrinks_held x c _ _ Hsh)|]; unfold held, s0; by rewrite waiting_peers).
  pose proof (Hh PriorityCritical). pose proof (Hh PriorityNormal). pose proof (Hh PriorityBackground).
  destruct b; [|rewrite (Hf eq_refl), Hq, andb_false_r; unfold held_all; lia]. rewrite andb_true_r. destruct (Ht eq_refl) as (c & _ & _ & ->). set (it' := with_peer k it).
  destruct (fifo_Push_list it' (queue_of c s1) (sh_queues _ _ Hsh c)) as [_ Hl]. set (s3 := put_peers (<[k := bump c 1 (quota s k)]> (sc_peers s1)) (put_queue c (fifo_Push it' (queue_of c s1)) s1)).
  assert (forall c', held x c' s3 = held x c' s1 + if bool_decide (c = c') && bool_decide (k = x) then 1 else 0) as Hheld.
  { intros c'. unfold held. subst s3. rewrite waiting_peers. destruct (decide (c = c')) as [<-|Hne].
    - rewrite waiting_put, Hl, items_of_app, items_of_cons, (bool_decide_eq_true_2 (c = c)) by done. change (items_of x []) with 0. cbn [andb si_peerID it' with_peer]. unfold waiting. lia.
    - rewrite waiting_put_ne, (bool_decide_eq_false_2 (c = c')) by done. cbn [andb]. lia. }
  split.
  - unfold quota at 1. subst s3. cbn [sc_peers put_peers]. case_bool_decide as E; [subst x; rewrite lookup_insert_eq; by cbn|]. rewrite lookup_insert_ne by done.
    change (q_total (quota s1 x) = q_total (quota s x) + 0). rewrite Hq. lia.
  - unfold held_all. rewrite !Hheld. destruct c; repeat (rewrite (bool_decide_eq_true_2 (_ = _ :> PriorityClass)) by done) || rewrite (bool_decide_eq_false_2 (_ = _ :> PriorityClass)) by done;
      cbn [andb]; case_bool_decide; lia.
Qed.

Lemma next_charge x s : sched_ok s -> q_total (quota (next s).2 x) - held_all x (next s).2 = q_total (quota s x) - held_all x s.
Proof.
  intros Hs. destruct (next_served s Hs) as [[_ ->]|(j & c & it & q & Hp & _ & ->)]; [done|]. cbn [snd].
  destruct (served_waiting s j c it q (ok_queues s Hs) Hp) as (_ & W1 & W2). destruct (served_counts s j c it q Hs Hp) as [_ Ht].
  assert (held_all x (served s j c it q) = held_all x s - if bool_decide (si_peerID it = x) then 1 else 0) as Hh.
  { unfold held_all, held. destruct c; rewrite W1, items_of_cons, ?(W2 PriorityCritical), ?(W2 PriorityNormal), ?(W2 PriorityBackground) by done; lia. }
  rewrite Hh. destruct (decide (si_peerID it = x)) as [<-|Hne]; [rewrite bool_decide_eq_true_2, Ht by done; lia|].
  rewrite served_quota, !bool_decide_eq_false_2 by done. lia.
Qed.

(** The charge of a peer beyond what it has waiting grows by what is evicted, and by nothing else. *)
Lemma run_charge x ops s : sched_ok s -> let s' := (calm_run ops s).2 in
  q_total (quota s' x) - held_all x s' = q_total (quota s x) - held_all x s + evicted x ops s /\ 0 <= evicted x ops s.
Proof.
  revert s. induction ops as [|[q cls it|] ops IH]; intros s Hs; cbn [evicted]; [cbn [calm_run snd]; lia|..].
  - cbn [calm_run]. destruct (Enqueue_charge x q cls it s Hs) as [E1 E2]. destruct (IH _ (Enqueue_ok q cls it s Hs)) as [-> H]. rewrite E1. unfold pushed_out in *. lia.
  - rewrite calm_run_next. cbn [snd]. destruct (IH _ (next_ok s Hs)) as [-> H]. rewrite (next_charge x s Hs). lia.
Qed.

Lemma full_peer_refused peer cls it s : sc_maxPerPeer s <= q_total (quota s (peer_key peer)) -> (Enqueue peer cls it s).1 = false.
Proof.
  intros Hp. unfold Enqueue. set (k := peer_key peer) in *.
  assert (forall c, has_room c (quota s k) s = false) as Hr by (intros c; unfold has_room; rewrite (proj2 (Z.leb_le _ _) Hp); by rewrite orb_true_r).
  assert (choose_class cls (quota s k) (put_peers (<[k:=quota s k]> (sc_peers s)) s) = None) as ->; [|done].
  change (choose_class cls (quota s k) s = None). unfold choose_class. rewrite !Hr. by destruct cls.
Qed.

(** C35: What is evicted stays charged to its peer: over any history from a new scheduler a peer
    is charged for the items it has waiting and for every item of it that was ever evicted.
    Once as many as a peer may have were evicted, the peer can enqueue nothing ever again,
    though nothing of it may be waiting. *)
Theorem evicted_peer_is_locked_out cpus o p before outs s : sched_run before (new_sched cpus o) = Some (outs, s) ->
  q_total (quota s p) = held_all p s + evicted p before (new_sched cpus o)
  /\ (sc_maxPerPeer s <= evicted p before (new_sched cpus o) -> forall after outs' s', sched_run after s = Some (outs', s') ->
       forall peer cls it, peer_key peer = p -> (Enqueue peer cls it s').1 = false).
Proof.
  intros Hrun. pose proof (new_run_ok _ _ _ _ _ Hrun) as Hs. rewrite sched_run_calm in Hrun by apply new_sched_ok. injection Hrun as Hrun.
  destruct (run_charge p before (new_sched cpus o) (new_sched_ok cpus o)) as [E _]. rewrite Hrun in E. cbn [snd] in E.
  assert (q_total (quota (new_sched cpus o) p) = 0) as E0 by done. assert (held_all p (new_sched cpus o) = 0) as E1 by done. rewrite E0, E1 in E.
  split; [lia|]. intros Hmax after outs' s' Hafter peer cls it <-. rewrite sched_run_calm in Hafter by done. injection Hafter as Hafter.
  destruct (run_charge (peer_key peer) after s Hs) as [E' H']. destruct (calm_run_limits after s Hs) as (_ & _ & L). pose proof (calm_run_ok after s Hs) as Hs'.
  rewrite Hafter in E', L, Hs'. cbn [snd] in E', L, Hs'. apply full_peer_refused. rewrite L. unfold held_all, held in *.
  pose proof (items_of_nonneg (peer_key peer) (waiting PriorityCritical s')). pose proof (items_of_nonneg (peer_key peer) (waiting PriorityNormal s')).
  pose proof (items_of_nonneg (peer_key peer) (waiting PriorityBackground s')). lia.
Qed.
