(* ===== verification/SyncSecurity.v ===== *)
(** * Trust in peers of the synchronisation ([pkg/ledgersync/security.go])

    Scores, quarantines and inventories seen, for each peer; what a message of a peer does to
    them and whether it is accepted.  The lock makes every operation one step; the layer of a
    service is never nil. *)

From S2P Require Import Prelude Sha256 GoStr LedgerEvent LedgerSync SyncWire.

#[local] Open Scope string_scope.
#[local] Open Scope list_scope.
#[local] Open Scope Z_scope.

Inductive PolicyDecision := DecisionAccept | DecisionReject | DecisionDefer.
Inductive TrustTier := TrustLow | TrustMedium | TrustHigh | TrustBlocked.

#[export] Instance tier_eq_dec : EqDecision TrustTier.
Proof. solve_decision. Defined.

(** [firstSeen] is written and never read; it is kept as the code keeps it. *)
Record peerTrust := mkTrust {
  pt_score : Z;
  pt_role : string;
  pt_firstSeen : Z;
  pt_lastSeen : Z;
  pt_appliedTotal : Z;
  pt_rejectedTotal : Z;
  pt_quarantineUntil : Z;
  pt_penalty : Duration;
  pt_lastInvDigest : string;
  pt_invStreak : Z;
}.

(** [invSeen]: for each digest of an inventory, when each peer showed it last. *)
Record SecurityLayer := mkLayer {
  sl_policy : SecurityPolicy;
  sl_peers : gmap string peerTrust;
  sl_invSeen : gmap string (gmap string Z);
}.

Definition NewSecurityLayer (policy : SecurityPolicy) : SecurityLayer := mkLayer (SecurityPolicy_normalize policy) ∅ ∅.

Definition put_trust (peerID : string) (ps : peerTrust) (s : SecurityLayer) : SecurityLayer :=
  mkLayer (sl_policy s) (<[peerID := ps]> (sl_peers s)) (sl_invSeen s).
Definition put_seen (seen : gmap string (gmap string Z)) (s : SecurityLayer) : SecurityLayer := mkLayer (sl_policy s) (sl_peers s) seen.

Definition new_trust (p : SecurityPolicy) (now : Z) : peerTrust := mkTrust (sp_InitialScore p) "" now zeroTime 0 0 zeroTime 0 "" 0.

Definition see (role : string) (now : Z) (ps : peerTrust) : peerTrust :=
  mkTrust (pt_score ps) (if is_empty role then pt_role ps else role) (pt_firstSeen ps) now (pt_appliedTotal ps) (pt_rejectedTotal ps)
    (pt_quarantineUntil ps) (pt_penalty ps) (pt_lastInvDigest ps) (pt_invStreak ps).

(** The peer's record as [ensurePeerLocked] leaves it. *)
Definition ensurePeer (peerID role : string) (now : Z) (s : SecurityLayer) : peerTrust :=
  see role now (default (new_trust (sl_policy s) now) (sl_peers s !! peerID)).

(** ** Records *)

Definition with_score (score : Z) (ps : peerTrust) : peerTrust :=
  mkTrust score (pt_role ps) (pt_firstSeen ps) (pt_lastSeen ps) (pt_appliedTotal ps) (pt_rejectedTotal ps) (pt_quarantineUntil ps) (pt_penalty ps)
    (pt_lastInvDigest ps) (pt_invStreak ps).
Definition with_role (role : string) (ps : peerTrust) : peerTrust :=
  mkTrust (pt_score ps) role (pt_firstSeen ps) (pt_lastSeen ps) (pt_appliedTotal ps) (pt_rejectedTotal ps) (pt_quarantineUntil ps) (pt_penalty ps)
    (pt_lastInvDigest ps) (pt_invStreak ps).
Definition with_totals (applied rejected : Z) (ps : peerTrust) : peerTrust :=
  mkTrust (pt_score ps) (pt_role ps) (pt_firstSeen ps) (pt_lastSeen ps) applied rejected (pt_quarantineUntil ps) (pt_penalty ps)
    (pt_lastInvDigest ps) (pt_invStreak ps).
Definition with_quarantine (until : Z) (penalty : Duration) (ps : peerTrust) : peerTrust :=
  mkTrust (pt_score ps) (pt_role ps) (pt_firstSeen ps) (pt_lastSeen ps) (pt_appliedTotal ps) (pt_rejectedTotal ps) until penalty
    (pt_lastInvDigest ps) (pt_invStreak ps).
Definition with_inventory (digest : string) (streak : Z) (ps : peerTrust) : peerTrust :=
  mkTrust (pt_score ps) (pt_role ps) (pt_firstSeen ps) (pt_lastSeen ps) (pt_appliedTotal ps) (pt_rejectedTotal ps) (pt_quarantineUntil ps)
    (pt_penalty ps) digest streak.

Definition quarantined (now : Z) (ps : peerTrust) : bool := negb (IsZero (pt_quarantineUntil ps)) && Before now (pt_quarantineUntil ps).
Definition blocked (p : SecurityPolicy) (now : Z) (ps : peerTrust) : bool := quarantined now ps || (pt_score ps <=? sp_MinScore p).
Definition isWarm (p : SecurityPolicy) (ps : peerTrust) : bool := sp_SybilWarmupApplied p <=? pt_appliedTotal ps.

(** [penalizeLocked]; a product past 64 bits cannot be: a penalty is at most the longest. *)
Definition penalize (p : SecurityPolicy) (amount now : Z) (ps : peerTrust) : peerTrust :=
  if amount <=? 0 then ps
  else
    let score := pt_score ps - amount in
    let penalty :=
      if pt_penalty ps <? sp_QuarantineBase p then sp_QuarantineBase p
      else at_most (sp_QuarantineMax p) (pt_penalty ps * 2) in
    with_quarantine (if score <=? sp_MinScore p then TimeAdd now penalty else pt_quarantineUntil ps) penalty (with_score score ps).

(** ** Roles, scores and quarantines *)

Definition SetPeerRole (peerID role : string) (now : Z) (s : SecurityLayer) : SecurityLayer :=
  if is_blank peerID then s else put_trust peerID (with_role role (ensurePeer peerID role now s)) s.

(** The tier of a record. *)
Definition tier_of (p : SecurityPolicy) (now : Z) (ps : peerTrust) : TrustTier :=
  if blocked p now ps then TrustBlocked
  else if sp_HighScore p <=? pt_score ps then TrustHigh
  else if sp_MediumScore p <=? pt_score ps then TrustMedium
  else TrustLow.

Definition TrustTier_of (peerID : string) (now : Z) (s : SecurityLayer) : TrustTier * SecurityLayer :=
  if is_blank peerID then (TrustLow, s)
  else let ps := ensurePeer peerID "" now s in (tier_of (sl_policy s) now ps, put_trust peerID ps s).

Definition SetQuarantine (peerID role : string) (dur : Duration) (now : Z) (s : SecurityLayer) : SecurityLayer :=
  if is_blank peerID then s
  else
    let dur := at_most (sp_QuarantineMax (sl_policy s)) (if_le0 (sp_QuarantineBase (sl_policy s)) dur) in
    let ps := ensurePeer peerID role now s in
    put_trust peerID (with_quarantine (TimeAdd now dur) (if pt_penalty ps <? dur then dur else pt_penalty ps) ps) s.

Definition ClearQuarantine (peerID : string) (now : Z) (s : SecurityLayer) : SecurityLayer :=
  if is_blank peerID then s else put_trust peerID (with_quarantine zeroTime 0 (ensurePeer peerID "" now s)) s.

Definition AdjustScore (peerID role : string) (delta now : Z) (s : SecurityLayer) : SecurityLayer :=
  if is_blank peerID || (delta =? 0) then s
  else let ps := ensurePeer peerID role now s in put_trust peerID (with_score (at_most 120 (pt_score ps + delta)) ps) s.

(** ** Messages *)

Definition penalize_and (d : PolicyDecision) (peerID : string) (amount now : Z) (ps : peerTrust) (s : SecurityLayer) : PolicyDecision * SecurityLayer :=
  (d, put_trust peerID (penalize (sl_policy s) amount now ps) s).

Definition ObserveInbound (peerID role msgType : string) (size now : Z) (s : SecurityLayer) : PolicyDecision * SecurityLayer :=
  if is_blank peerID then (DecisionAccept, s)
  else
    let p := sl_policy s in
    let ps := ensurePeer peerID role now s in
    let s := put_trust peerID ps s in
    if blocked p now ps then (DecisionReject, s)
    else if bool_decide (pt_role ps = PeerRoleRelay) && (sp_RelayMaxInboundBytes p <? size) then penalize_and DecisionReject peerID 12 now ps s
    else if bool_decide (pt_role ps = PeerRoleAgent) && (sp_AgentMaxInboundBytes p <? size) then penalize_and DecisionReject peerID 12 now ps s
    else if bool_decide (msgType = "events") && negb (isWarm p ps) && (96 * 1024 <? size) then (DecisionDefer, s)
    else (DecisionAccept, s).

(** The lines of the digest: those of the heads, then those of what a peer has. *)
Definition digest_lines (prefix : string) (ids : list string) : list Z :=
  concat (map (fun id => let h := TrimSpace id in if is_empty h then [] else bytes_of prefix ++ bytes_of h ++ [10]) (sort_strings ids)).

Definition digest_text (inv : InventoryMessage) : list Z := digest_lines "h:" (iv_Heads inv) ++ digest_lines "v:" (iv_Have inv).
Definition inventoryDigest (inv : InventoryMessage) : string :=
  match digest_text inv with
  | [] => ""
  | b => EncodeToString (take 16 (Sum256 b))
  end.

(** What was shown since [cutoff]. *)
Definition fresh_seen (cutoff : Z) (seen : gmap string (gmap string Z)) : gmap string (gmap string Z) :=
  filter (fun dp => dp.2 <> ∅) (filter (fun it => Before it.2 cutoff = false) <$> seen).

(** A repeated inventory lengthens the streak of its peer. *)
Definition note_inventory (digest : string) (ps : peerTrust) : peerTrust :=
  if is_empty digest then ps
  else if bool_decide (pt_lastInvDigest ps = digest) then with_inventory digest (pt_invStreak ps + 1) ps
  else with_inventory digest 1 ps.

(** The part of [ObserveInventory] about other peers with the same inventory. *)
Definition note_cluster (peerID digest : string) (now : Z) (ps : peerTrust) (s : SecurityLayer) : PolicyDecision * SecurityLayer :=
  let p := sl_policy s in
  let seen := fresh_seen (TimeAdd now (- sp_InventoryWindow p)) (sl_invSeen s) in
  if is_empty digest then (DecisionAccept, put_seen seen s)
  else
    let peers := <[peerID := now]> (default ∅ (seen !! digest)) in
    let s := put_seen (<[digest := peers]> seen) s in
    if sp_InventoryClusterThreshold p <=? Z.of_nat (size peers) then penalize_and DecisionDefer peerID 3 now ps s else (DecisionAccept, s).

Definition ObserveInventory (peerID role : string) (inv : InventoryMessage) (now : Z) (s : SecurityLayer) : PolicyDecision * SecurityLayer :=
  if is_blank peerID then (DecisionAccept, s)
  else
    let digest := inventoryDigest inv in
    let p := sl_policy s in
    let ps := ensurePeer peerID role now s in
    if sp_MaxHeadsPerRound p <? Z.of_nat (length (iv_Heads inv)) then penalize_and DecisionReject peerID 6 now ps s
    else if sp_MaxInventorySize p <? Z.of_nat (length (iv_Have inv)) then penalize_and DecisionReject peerID 8 now ps s
    else
      let ps := note_inventory digest ps in
      let echo := negb (is_empty digest) && (sp_InventoryEchoThreshold p <=? pt_invStreak ps) in
      let ps := if echo then penalize p 4 now ps else ps in
      let s := put_trust peerID ps s in
      if echo && (sp_InventoryEchoThreshold p + 2 <=? pt_invStreak ps) then (DecisionDefer, s)
      else note_cluster peerID digest now ps s.

Definition ObserveWant (peerID role : string) (want : WantMessage) (now : Z) (s : SecurityLayer) : PolicyDecision * SecurityLayer :=
  if is_blank peerID then (DecisionAccept, s)
  else
    let p := sl_policy s in
    let ps := ensurePeer peerID role now s in
    let s := put_trust peerID ps s in
    let n := Z.of_nat (length (wm_Want want)) in
    if blocked p now ps then (DecisionReject, s)
    else if sp_MaxWantsPerRound p * 2 <? n then penalize_and DecisionReject peerID 10 now ps s
    else if sp_MaxWantsPerRound p <? n then penalize_and DecisionDefer peerID 6 now ps s
    else if bool_decide (pt_role ps = PeerRoleRelay) && (sp_MaxWantsPerRound p ÷ 2 <? n) then penalize_and DecisionDefer peerID 4 now ps s
    else if bool_decide (pt_role ps = PeerRoleAgent) && (sp_MaxWantsPerRound p ÷ 3 <? n) then penalize_and DecisionDefer peerID 4 now ps s
    else (DecisionAccept, s).

(** The three parts of [ObserveApplyReport]: what was applied, repeated and rejected. *)
Definition reward (rep : ApplyReport) (ps : peerTrust) : peerTrust :=
  if 0 <? Applied rep
  then with_score (pt_score ps + at_most 8 (Applied rep * 2)) (with_totals (pt_appliedTotal ps + Applied rep) (pt_rejectedTotal ps) ps)
  else ps.
Definition charge_dupes (rep : ApplyReport) (ps : peerTrust) : peerTrust := if 8 <? Dupe rep then with_score (pt_score ps - 2) ps else ps.
Definition charge_rejects (p : SecurityPolicy) (rep : ApplyReport) (now : Z) (ps : peerTrust) : peerTrust :=
  if 0 <? Rejected rep then
    let ps := penalize p (at_most 30 (Rejected rep * 8)) now (with_totals (pt_appliedTotal ps) (pt_rejectedTotal ps + Rejected rep) ps) in
    if (0 <? sp_QuarantineAfterRejects p) && (sp_QuarantineAfterRejects p <=? pt_rejectedTotal ps)
    then let penalty := if_le0 (sp_QuarantineBase p) (pt_penalty ps) in with_quarantine (TimeAdd now penalty) penalty ps
    else ps
  else ps.

Definition ObserveApplyReport (peerID role : string) (rep : ApplyReport) (now : Z) (s : SecurityLayer) : SecurityLayer :=
  if is_blank peerID then s
  else
    let ps := charge_rejects (sl_policy s) rep now (charge_dupes rep (reward rep (ensurePeer peerID role now s))) in
    put_trust peerID (with_score (at_most 120 (pt_score ps)) ps) s.

(** ** What trust decides *)

Definition PeerPriority (peerID role : string) (ageSeconds now : Z) (s : SecurityLayer) : Z * SecurityLayer :=
  if is_blank peerID then (ageSeconds, s)
  else
    let ps := ensurePeer peerID role now s in
    let s := put_trust peerID ps s in
    if quarantined now ps then (-1, s)
    else
      let score := pt_score ps * 60 - (if isWarm (sl_policy s) ps then 0 else 240)
                   - (if bool_decide (pt_role ps = PeerRoleRelay) then 180 else if bool_decide (pt_role ps = PeerRoleAgent) then 120 else 0) in
      (i64 (ageSeconds + score), s).

Definition WitnessWeight (peerID : string) (base now : Z) (s : SecurityLayer) : Z * SecurityLayer :=
  if is_blank peerID then (0, s)
  else
    let p := sl_policy s in
    let base := if_le0 1 base in
    let ps := ensurePeer peerID "" now s in
    (if blocked p now ps then 0 else if sp_HighScore p <=? pt_score ps then base else if sp_MediumScore p <=? pt_score ps then 1 else 0,
     put_trust peerID ps s).

Definition PeerClusterKey (peerID : string) (now : Z) (s : SecurityLayer) : string * SecurityLayer :=
  if is_blank peerID then ("", s)
  else
    let ps := ensurePeer peerID "" now s in
    (if blocked (sl_policy s) now ps then "" else pt_lastInvDigest ps, put_trust peerID ps s).

Definition InventoryClusterPeers (inv : InventoryMessage) (now : Z) (s : SecurityLayer) : list string * SecurityLayer :=
  let digest := inventoryDigest inv in
  if is_empty digest then ([], s)
  else
    let seen := fresh_seen (TimeAdd now (- sp_InventoryWindow (sl_policy s))) (sl_invSeen s) in
    (sort_strings (elements (dom (default ∅ (seen !! digest)))), put_seen seen s).
