(* ===== verification/SyncSecuritySpec.v ===== *)
(** * What the trust in peers keeps

    Histories of the security layer: quarantines end, low scores do not, and what happens to
    peers that show the same inventory again or together. *)

From S2P Require Import Prelude Sha256 GoStr LedgerEvent LedgerSync SyncWire SyncSecurity.

#[local] Set Warnings "-clear-no-such-hyp".
#[local] Open Scope string_scope.
#[local] Open Scope list_scope.
#[local] Open Scope Z_scope.

(** ** Histories *)

Inductive sec_op :=
  | SecRole (id role : string)
  | SecTier (id : string)
  | SecQuarantine (id role : string) (dur : Duration)
  | SecClear (id : string)
  | SecAdjust (id role : string) (delta : Z)
  | SecInbound (id role msgType : string) (size : Z)
  | SecInventory (id role : string) (inv : InventoryMessage)
  | SecWant (id role : string) (want : WantMessage)
  | SecReport (id role : string) (rep : ApplyReport)
  | SecPriority (id role : string) (age : Z)
  | SecWeight (id : string) (base : Z)
  | SecClusterKey (id : string)
  | SecClusterPeers (inv : InventoryMessage).

Definition sec_step (op : sec_op) (now : Z) (s : SecurityLayer) : SecurityLayer :=
  match op with
  | SecRole id role => SetPeerRole id role now s
  | SecTier id => (TrustTier_of id now s).2
  | SecQuarantine id role dur => SetQuarantine id role dur now s
  | SecClear id => ClearQuarantine id now s
  | SecAdjust id role delta => AdjustScore id role delta now s
  | SecInbound id role t size => (ObserveInbound id role t size now s).2
  | SecInventory id role inv => (ObserveInventory id role inv now s).2
  | SecWant id role want => (ObserveWant id role want now s).2
  | SecReport id role rep => ObserveApplyReport id role rep now s
  | SecPriority id role age => (PeerPriority id role age now s).2
  | SecWeight id base => (WitnessWeight id base now s).2
  | SecClusterKey id => (PeerClusterKey id now s).2
  | SecClusterPeers inv => (InventoryClusterPeers inv now s).2
  end.

Definition sec_run (ops : list (sec_op * Z)) (s : SecurityLayer) : SecurityLayer := fold_left (fun s op => sec_step op.1 op.2 s) ops s.

(** The operations that can raise the score of a peer. *)
Definition credits (id : string) (op : sec_op) : bool :=
  match op with
  | SecAdjust id' _ delta => bool_decide (id' = id) && (0 <? delta)
  | SecReport id' _ rep => bool_decide (id' = id) && (0 <? Applied rep)
  | _ => false
  end.

(** ** What one operation does to one record *)

Section one.
Context (p : SecurityPolicy).
Hypothesis Hbase : 0 < sp_QuarantineBase p <= sp_QuarantineMax p.

Definition penalty_ok (ps : peerTrust) : Prop := 0 <= pt_penalty ps <= sp_QuarantineMax p.

Record evolves (credit : bool) (now : Z) (ps ps' : peerTrust) : Prop := {
  ev_seen : pt_lastSeen ps' = pt_lastSeen ps;
  ev_score : pt_score ps' <= Z.max 120 (pt_score ps);
  ev_down : credit = false -> pt_score ps' <= pt_score ps;
  ev_penalty : penalty_ok ps -> penalty_ok ps';
  ev_until : penalty_ok ps -> pt_quarantineUntil ps' = pt_quarantineUntil ps \/ pt_quarantineUntil ps' = zeroTime \/ pt_quarantineUntil ps' <= now + sp_QuarantineMax p;
}.

Lemma evolves_keep credit now ps ps' : pt_lastSeen ps' = pt_lastSeen ps -> pt_score ps' = pt_score ps -> pt_penalty ps' = pt_penalty ps ->
  pt_quarantineUntil ps' = pt_quarantineUntil ps -> evolves credit now ps ps'.
Proof. intros E1 E2 E3 E4. split; unfold penalty_ok; rewrite ?E2, ?E3; auto; lia. Qed.

Lemma evolves_trans credit now a b c : evolves credit now a b -> evolves credit now b c -> evolves credit now a c.
Proof.
  intros [A1 A2 A3 A4 A5] [B1 B2 B3 B4 B5]. split; [congruence|lia|intros H; specialize (A3 H); specialize (B3 H); lia|auto|].
  intros H. destruct (B5 (A4 H)) as [->|?]; auto.
Qed.

Lemma evolves_penalize credit now n ps : evolves credit now ps (penalize p n now ps).
Proof.
  unfold penalize. destruct (Z.leb_spec n 0); [by apply evolves_keep|]. unfold at_most.
  split; cbn; unfold penalty_ok; cbn; [done|lia|lia| |]; destruct (Z.ltb_spec (pt_penalty ps) (sp_QuarantineBase p)), (Z.ltb_spec (sp_QuarantineMax p) (pt_penalty ps * 2)); try lia;
    intros ?; destruct (_ <=? _); unfold TimeAdd; first [by left|right; right; lia].
Qed.

Lemma evolves_quarantine credit now until penalty ps : 0 <= penalty <= sp_QuarantineMax p -> (until = zeroTime \/ until <= now + sp_QuarantineMax p) ->
  evolves credit now ps (with_quarantine until penalty ps).
Proof. intros Hp Hu. split; cbn; [done|lia|lia|done|by right]. Qed.

Lemma evolves_lower credit now score ps : score <= pt_score ps -> evolves credit now ps (with_score score ps).
Proof. intros H. split; cbn; [done|lia|lia|done|by left]. Qed.

Lemma evolves_raise now score ps : score <= 120 -> evolves true now ps (with_score score ps).
Proof. intros H. split; cbn; [done|lia|done|done|by left]. Qed.

(** What a report does, but for the cap of the score at the end. *)
Lemma charge_rejects_evolves credit now rep ps : penalty_ok ps -> evolves credit now ps (charge_rejects p rep now ps).
Proof.
  intros Hp. unfold charge_rejects. destruct (0 <? Rejected rep); [|by apply evolves_keep]. set (ps1 := with_totals _ _ ps). set (ps2 := penalize p _ now ps1).
  assert (evolves credit now ps ps2) as H. { eapply evolves_trans; [by apply (evolves_keep _ _ ps ps1)|apply evolves_penalize]. }
  destruct (_ && _); [|done]. pose proof (ev_penalty _ _ _ _ H Hp) as [H0 H1]. eapply evolves_trans; [exact H|].
  apply evolves_quarantine; [|right]; unfold if_le0, TimeAdd; destruct (Z.leb_spec (pt_penalty ps2) 0); lia.
Qed.

Lemma report_evolves now rep ps : penalty_ok ps ->
  let ps' := charge_rejects p rep now (charge_dupes rep (reward rep ps)) in evolves (0 <? Applied rep) now ps (with_score (at_most 120 (pt_score ps')) ps').
Proof.
  intros Hp ps'. set (ps1 := charge_dupes rep (reward rep ps)).
  assert (penalty_ok ps1 /\ pt_lastSeen ps1 = pt_lastSeen ps /\ pt_quarantineUntil ps1 = pt_quarantineUntil ps /\ pt_penalty ps1 = pt_penalty ps
    /\ ((0 <? Applied rep) = false -> pt_score ps1 <= pt_score ps)) as (H1 & H2 & H3 & H4 & H5).
  { subst ps1. unfold charge_dupes, reward, penalty_ok. destruct (0 <? Applied rep), (8 <? Dupe rep); cbn; split_and!; try done; try apply Hp; intros; lia. }
  pose proof (charge_rejects_evolves (0 <? Applied rep) now rep ps1 H1) as [B1 B2 B3 B4 B5]. change (charge_rejects p rep now ps1) with ps' in *.
  split; cbn [pt_lastSeen pt_score pt_quarantineUntil with_score]; unfold at_most.
  - by rewrite B1.
  - destruct (Z.ltb_spec 120 (pt_score ps')); lia.
  - intros Hc. specialize (B3 Hc). specialize (H5 Hc). destruct (Z.ltb_spec 120 (pt_score ps')); lia.
  - intros _. exact (B4 H1).
  - intros _. destruct (B5 H1) as [->|?]; [left; exact H3|by right].
Qed.
End one.

(** ** What one operation does to the layer *)

(** Each record is as it was or evolved from what [ensurePeerLocked] makes of it. *)
Definition touches (credit : string -> bool) (now : Z) (s s' : SecurityLayer) : Prop :=
  sl_policy s' = sl_policy s
  /\ forall id, sl_peers s' !! id = sl_peers s !! id
       \/ exists role ps', sl_peers s' !! id = Some ps'
            /\ (penalty_ok (sl_policy s) (ensurePeer id role now s) -> evolves (sl_policy s) (credit id) now (ensurePeer id role now s) ps').

Lemma touches_same credit now s s' : sl_policy s' = sl_policy s -> sl_peers s' = sl_peers s -> touches credit now s s'.
Proof. intros E1 E2. split; [done|]. intros id. left. by rewrite E2. Qed.

Lemma touches_put credit id role now s s' ps' : sl_policy s' = sl_policy s -> sl_peers s' !! id = Some ps' -> (forall j, j <> id -> sl_peers s' !! j = sl_peers s !! j) ->
  (penalty_ok (sl_policy s) (ensurePeer id role now s) -> evolves (sl_policy s) (credit id) now (ensurePeer id role now s) ps') -> touches credit now s s'.
Proof. intros E1 E2 E3 H. split; [done|]. intros j. destruct (decide (j = id)) as [->|Hne]; [right|left; auto]. by exists role, ps'. Qed.

Lemma put_touches credit id role now s ps' : (penalty_ok (sl_policy s) (ensurePeer id role now s) -> evolves (sl_policy s) (credit id) now (ensurePeer id role now s) ps') ->
  touches credit now s (put_trust id ps' s).
Proof. intros H. apply (touches_put credit id role now s _ ps'); try done; cbn; [by rewrite lookup_insert_eq|by intros; rewrite lookup_insert_ne]. Qed.

(** An operation that first puts the record and may penalise it after. *)
Lemma put_put_touches credit id role now s ps ps' : (penalty_ok (sl_policy s) (ensurePeer id role now s) -> evolves (sl_policy s) (credit id) now (ensurePeer id role now s) ps') ->
  touches credit now s (put_trust id ps' (put_trust id ps s)).
Proof.
  intros H. apply (touches_put credit id role now s _ ps'); try done; cbn; [by rewrite lookup_insert_eq|by intros; rewrite !lookup_insert_ne].
Qed.

(** The record after the streak of an inventory. *)
Definition shown (p : SecurityPolicy) (digest : string) (now : Z) (ps : peerTrust) : peerTrust :=
  let ps1 := note_inventory digest ps in
  if negb (is_empty digest) && (sp_InventoryEchoThreshold p <=? pt_invStreak ps1) then penalize p 4 now ps1 else ps1.

(** What an inventory does. *)
Lemma inventory_cases id role inv now s : is_blank id = false ->
  let p := sl_policy s in
  let ps := ensurePeer id role now s in
  (exists n, 6 <= n /\ ObserveInventory id role inv now s = (DecisionReject, put_trust id (penalize p n now ps) s)
     /\ (sp_MaxHeadsPerRound p < Z.of_nat (length (iv_Heads inv)) \/ sp_MaxInventorySize p < Z.of_nat (length (iv_Have inv))))
  \/ (ObserveInventory id role inv now s = (DecisionDefer, put_trust id (shown p (inventoryDigest inv) now ps) s)
      /\ sp_InventoryEchoThreshold p + 2 <= pt_invStreak (note_inventory (inventoryDigest inv) ps))
  \/ ObserveInventory id role inv now s
     = note_cluster id (inventoryDigest inv) now (shown p (inventoryDigest inv) now ps) (put_trust id (shown p (inventoryDigest inv) now ps) s).
Proof.
  intros Hb p ps. unfold ObserveInventory. rewrite Hb. fold p ps. unfold penalize_and.
  destruct (Z.ltb_spec (sp_MaxHeadsPerRound p) (Z.of_nat (length (iv_Heads inv)))); [left; exists 6; split_and!; [lia|done|by left]|].
  destruct (Z.ltb_spec (sp_MaxInventorySize p) (Z.of_nat (length (iv_Have inv)))); [left; exists 8; split_and!; [lia|done|by right]|]. right.
  unfold shown. set (ps1 := note_inventory _ ps). set (echo := negb _ && _). destruct echo; cbn [andb]; [|by right].
  change (pt_invStreak (penalize p 4 now ps1)) with (pt_invStreak ps1).
  destruct (Z.leb_spec (sp_InventoryEchoThreshold p + 2) (pt_invStreak ps1)); [by left|by right].
Qed.

Lemma note_cluster_record id digest now ps s : sl_peers s !! id = Some ps ->
  let s' := (note_cluster id digest now ps s).2 in
  sl_policy s' = sl_policy s /\ (forall j, j <> id -> sl_peers s' !! j = sl_peers s !! j)
  /\ exists ps', sl_peers s' !! id = Some ps' /\ (ps' = ps \/ ps' = penalize (sl_policy s) 3 now ps).
Proof.
  intros H. unfold note_cluster, penalize_and. destruct (is_empty digest); [split_and!; [done..|exists ps; split; [exact H|by left]]|].
  destruct (_ <=? _); cbn; [|split_and!; [done..|exists ps; split; [exact H|by left]]].
  split_and!; [done|by intros; rewrite lookup_insert_ne|]. rewrite lookup_insert_eq. eauto.
Qed.

Lemma note_inventory_keep digest ps : pt_lastSeen (note_inventory digest ps) = pt_lastSeen ps /\ pt_score (note_inventory digest ps) = pt_score ps
  /\ pt_penalty (note_inventory digest ps) = pt_penalty ps /\ pt_quarantineUntil (note_inventory digest ps) = pt_quarantineUntil ps.
Proof. unfold note_inventory. destruct (is_empty digest); [done|]. by case_bool_decide. Qed.

Lemma inventory_touches credit id role inv now s : 0 < sp_QuarantineBase (sl_policy s) <= sp_QuarantineMax (sl_policy s) ->
  touches credit now s (ObserveInventory id role inv now s).2.
Proof.
  intros Hp. destruct (is_blank id) eqn:Hb; [unfold ObserveInventory; rewrite Hb; by apply touches_same|].
  destruct (inventory_cases id role inv now s Hb) as [(n & _ & -> & _)|H]; [apply (put_touches credit id role); intros _; by apply evolves_penalize|].
  set (ps := ensurePeer id role now s) in *. set (ps2 := shown _ _ _ _) in H.
  assert (forall c, evolves (sl_policy s) c now ps ps2) as H2.
  { intros c. destruct (note_inventory_keep (inventoryDigest inv) ps) as (E1 & E2 & E3 & E4). 
    eapply evolves_trans; [by apply (evolves_keep _ _ _ ps (note_inventory (inventoryDigest inv) ps))|].
    subst ps2. unfold shown. destruct (_ && _); [by apply evolves_penalize|by apply evolves_keep]. }
  destruct H as [[-> _]| ->]; [by apply (put_touches credit id role)|].
  destruct (note_cluster_record id (inventoryDigest inv) now ps2 (put_trust id ps2 s)) as (E1 & E2 & ps' & E3 & E4); [cbn; apply lookup_insert_eq|].
  apply (touches_put credit id role now s _ ps' E1 E3).
  - intros j Hj. rewrite E2 by done. cbn. by rewrite lookup_insert_ne.
  - intros _. destruct E4 as [->| ->]; [done|]. eapply evolves_trans; [apply H2|by apply evolves_penalize].
Qed.

#[local] Hint Resolve evolves_penalize : core.
#[local] Hint Extern 2 (evolves _ _ _ _ (ensurePeer _ _ _ _)) => apply evolves_keep : core.

Lemma sec_step_touches op now s : 0 < sp_QuarantineBase (sl_policy s) <= sp_QuarantineMax (sl_policy s) ->
  touches (fun id => credits id op) now s (sec_step op now s).
Proof.
  intros Hp. destruct op as [id role|id|id role dur|id|id role delta|id role t size|id role inv|id role want|id role rep|id role age|id base|id|inv]; cbn [sec_step].
  - unfold SetPeerRole. destruct (is_blank id); [by apply touches_same|]. apply (put_touches _ id role). intros _. by apply evolves_keep.
  - unfold TrustTier_of. destruct (is_blank id); [by apply touches_same|]. apply (put_touches _ id ""). auto.
  - unfold SetQuarantine. destruct (is_blank id); [by apply touches_same|]. apply (put_touches _ id role). set (d := at_most _ _). set (ps := ensurePeer _ _ _ _).
    assert (0 <= d <= sp_QuarantineMax (sl_policy s)) as Hd. { subst d. unfold at_most, if_le0. destruct (Z.leb_spec dur 0), (Z.ltb_spec (sp_QuarantineMax (sl_policy s)) (sp_QuarantineBase (sl_policy s))), (Z.ltb_spec (sp_QuarantineMax (sl_policy s)) dur); lia. }
    intros [H1 H2]. apply evolves_quarantine; [destruct (_ <? _); lia|right; unfold TimeAdd; lia].
  - unfold ClearQuarantine. destruct (is_blank id); [by apply touches_same|]. apply (put_touches _ id ""). intros _. apply evolves_quarantine; [lia|by left].
  - unfold AdjustScore. destruct (_ || _); [by apply touches_same|]. apply (put_touches _ id role). set (ps := ensurePeer _ _ _ _). intros _. cbn [credits]. rewrite bool_decide_eq_true_2 by done. cbn [andb].
    unfold at_most. destruct (Z.ltb_spec 0 delta), (Z.ltb_spec 120 (pt_score ps + delta)); try (apply evolves_raise; lia); try (apply evolves_lower; lia).
  - unfold ObserveInbound. destruct (is_blank id); [by apply touches_same|]. repeat case_match; cbn [snd penalize_and fst];
      first [apply (put_put_touches _ id role); intros _; by apply evolves_penalize|apply (put_touches _ id role); intros _; by apply evolves_keep].
  - by apply inventory_touches.
  - unfold ObserveWant. destruct (is_blank id); [by apply touches_same|]. repeat case_match; cbn [snd penalize_and fst];
      first [apply (put_put_touches _ id role); intros _; by apply evolves_penalize|apply (put_touches _ id role); intros _; by apply evolves_keep].
  - unfold ObserveApplyReport. destruct (is_blank id); [by apply touches_same|]. apply (put_touches _ id role). intros H. cbn [credits]. rewrite bool_decide_eq_true_2 by done. by apply report_evolves.
  - unfold PeerPriority. destruct (is_blank id); [by apply touches_same|]. case_match; cbn [snd]; apply (put_touches _ id role); auto.
  - unfold WitnessWeight. destruct (is_blank id); [by apply touches_same|]. apply (put_touches _ id ""). auto.
  - unfold PeerClusterKey. destruct (is_blank id); [by apply touches_same|]. apply (put_touches _ id ""). auto.
  - unfold InventoryClusterPeers. destruct (is_empty _); by apply touches_same.
Qed.

(** ** Quarantines end *)

Fixpoint in_order (t : Z) (ops : list (sec_op * Z)) : Prop :=
  match ops with [] => True | op :: ops' => t <= op.2 /\ in_order op.2 ops' end.
Definition last_time (t : Z) (ops : list (sec_op * Z)) : Z := default t (last (snd <$> ops)).

Record trust_ok (p : SecurityPolicy) (t : Z) (ps : peerTrust) : Prop := {
  tr_penalty : penalty_ok p ps;
  tr_score : pt_score ps <= Z.max 120 (sp_InitialScore p);
  tr_until : pt_quarantineUntil ps = zeroTime \/ pt_quarantineUntil ps <= t + sp_QuarantineMax p;
}.

Record layer_ok (t : Z) (s : SecurityLayer) : Prop := {
  la_policy : 0 < sp_QuarantineBase (sl_policy s) <= sp_QuarantineMax (sl_policy s);
  la_peers : map_Forall (fun _ ps => trust_ok (sl_policy s) t ps) (sl_peers s);
}.

Lemma NewSecurityLayer_ok p t : layer_ok t (NewSecurityLayer p).
Proof.
  split; [|apply map_Forall_empty]. cbn. unfold if_le0. repeat case_match; cbn in *; unfold Minute, Second in *; lia.
Qed.

Lemma ensurePeer_ok t id role now s : layer_ok t s -> trust_ok (sl_policy s) t (ensurePeer id role now s).
Proof.
  intros [Hp Hs]. unfold ensurePeer. destruct (sl_peers s !! id) as [ps|] eqn:E; cbn [default].
  - destruct (Hs id ps E) as [A B C]. by split.
  - split; [split; cbn; lia|cbn; lia|by left].
Qed.

Lemma sec_step_ok t op now s : layer_ok t s -> t <= now -> layer_ok now (sec_step op now s).
Proof.
  intros Hs Ht. pose proof (la_policy t s Hs) as Hp. destruct (sec_step_touches op now s Hp) as [E H]. split; [by rewrite E|]. intros id ps Hps. rewrite E.
  destruct (H id) as [Eid|(role & ps' & Eid & Hev)]; rewrite Eid in Hps.
  - destruct (la_peers t s Hs id ps Hps) as [A B C]. split; [done|done|]. destruct C; [by left|right; lia].
  - injection Hps as ->. destruct (ensurePeer_ok t id role now s Hs) as [A B C]. destruct (Hev A) as [E1 E2 E3 E4 E5]. split; [auto|lia|].
    destruct (E5 A) as [->|[->|?]]; [destruct C; [by left|right; lia]|by left|by right].
Qed.

Lemma sec_run_ok t ops s : layer_ok t s -> in_order t ops -> layer_ok (last_time t ops) (sec_run ops s).
Proof.
  unfold sec_run, last_time. revert t s. induction ops as [|[op now] ops IH]; intros t s Hs Ho; [done|]. destruct Ho as [Ht Ho]. cbn [fold_left fst snd fmap list_fmap] in *.
  specialize (IH now (sec_step op now s) (sec_step_ok t op now s Hs Ht) Ho). rewrite last_cons. by destruct (last (snd <$> ops)).
Qed.

Lemma sec_run_policy ops s t : layer_ok t s -> in_order t ops -> sl_policy (sec_run ops s) = sl_policy s.
Proof.
  unfold sec_run. revert t s. induction ops as [|[op now] ops IH]; intros t s Hs Ho; [done|]. destruct Ho as [Ht Ho]. cbn [fold_left fst snd] in *.
  rewrite (IH now); [exact (proj1 (sec_step_touches op now s (la_policy t s Hs)))|by eapply sec_step_ok|done].
Qed.

(** Over any history in the order of time, whatever the policy: no score passes 120 or the
    initial score, no penalty the longest one, and no quarantine is in force once the longest
    one has passed since the last operation. *)
Theorem quarantines_end policy t ops id ps now : in_order t ops -> let s := sec_run ops (NewSecurityLayer policy) in let p := SecurityPolicy_normalize policy in
  sl_peers s !! id = Some ps ->
  pt_score ps <= Z.max 120 (sp_InitialScore p) /\ 0 <= pt_penalty ps <= sp_QuarantineMax p
  /\ (last_time t ops + sp_QuarantineMax p <= now -> quarantined now ps = false).
Proof.
  intros Ho s p Hps. pose proof (sec_run_ok t ops _ (NewSecurityLayer_ok policy t) Ho) as Hs. pose proof (la_peers _ _ Hs id ps Hps) as [A B C].
  rewrite (sec_run_policy ops (NewSecurityLayer policy) t (NewSecurityLayer_ok policy t) Ho) in A, B, C. change (sl_policy (NewSecurityLayer policy)) with p in *.
  split_and!; [done|apply A|apply A|]. intros Hn. unfold quarantined, IsZero, Before. destruct (Z.eqb_spec (pt_quarantineUntil ps) zeroTime); [done|]. cbn [negb andb].
  apply Z.ltb_ge. destruct C; [done|lia].
Qed.

(** ** Low scores stay *)

Definition no_credit (id : string) (ops : list (sec_op * Z)) : Prop := Forall (fun op => credits id op.1 = false) ops.

(** The score a peer has, or would get. *)
Definition score_of (id : string) (s : SecurityLayer) : Z := from_option pt_score (sp_InitialScore (sl_policy s)) (sl_peers s !! id).

Lemma score_of_ensure id role now s : pt_score (ensurePeer id role now s) = score_of id s.
Proof. unfold ensurePeer, score_of. by destruct (sl_peers s !! id). Qed.

Lemma sec_step_score t id op now s : layer_ok t s -> credits id op = false -> score_of id (sec_step op now s) <= score_of id s.
Proof.
  intros Hs Hc. destruct (sec_step_touches op now s (la_policy t s Hs)) as [E H]. unfold score_of at 1. rewrite E. destruct (H id) as [->|(role & ps' & -> & Hev)]; [done|].
  cbn [from_option]. rewrite <- (score_of_ensure id role now). apply (ev_down _ _ _ _ _ (Hev (tr_penalty _ _ _ (ensurePeer_ok t id role now s Hs)))). exact Hc.
Qed.

(** What a blocked peer gets: nothing it sends is looked at, and it counts for nothing. *)
Definition shut_out (id : string) (s : SecurityLayer) : Prop :=
  forall now, (forall role t size, (ObserveInbound id role t size now s).1 = DecisionReject) /\ (forall role want, (ObserveWant id role want now s).1 = DecisionReject)
    /\ (TrustTier_of id now s).1 = TrustBlocked /\ (forall base, (WitnessWeight id base now s).1 = 0) /\ (PeerClusterKey id now s).1 = "".

Lemma low_score_shut_out id s : is_blank id = false -> score_of id s <= sp_MinScore (sl_policy s) -> shut_out id s.
Proof.
  intros Hb Hs now. assert (forall role, blocked (sl_policy s) now (ensurePeer id role now s) = true) as Hbl.
  { intros role. unfold blocked. rewrite score_of_ensure. apply orb_true_iff. right. by apply Z.leb_le. }
  unfold ObserveInbound, ObserveWant, TrustTier_of, WitnessWeight, PeerClusterKey, tier_of. rewrite Hb. split_and!; intros; by rewrite Hbl.
Qed.

(** ** Peers whose inventory does not change *)

(** The last inventory of a peer and how often in a row it was shown. *)
Definition inv_of (id : string) (s : SecurityLayer) : string * Z := from_option (fun ps => (pt_lastInvDigest ps, pt_invStreak ps)) ("", 0) (sl_peers s !! id).
Definition streak_of (id digest : string) (s : SecurityLayer) : Z := if bool_decide ((inv_of id s).1 = digest) then (inv_of id s).2 else 0.

Lemma inv_of_put id id' ps s : inv_of id (put_trust id' ps s) = if decide (id = id') then (pt_lastInvDigest ps, pt_invStreak ps) else inv_of id s.
Proof. unfold inv_of. cbn. case_decide; [subst; by rewrite lookup_insert_eq|by rewrite lookup_insert_ne]. Qed.

Lemma inv_of_ensure id role now s : (pt_lastInvDigest (ensurePeer id role now s), pt_invStreak (ensurePeer id role now s)) = inv_of id s.
Proof. unfold ensurePeer, inv_of. by destruct (sl_peers s !! id). Qed.

Lemma inv_penalize p n now ps : pt_lastInvDigest (penalize p n now ps) = pt_lastInvDigest ps /\ pt_invStreak (penalize p n now ps) = pt_invStreak ps.
Proof. unfold penalize. by destruct (n <=? 0). Qed.

Lemma inv_charge p rep now ps : pt_lastInvDigest (charge_rejects p rep now (charge_dupes rep (reward rep ps))) = pt_lastInvDigest ps
  /\ pt_invStreak (charge_rejects p rep now (charge_dupes rep (reward rep ps))) = pt_invStreak ps.
Proof.
  assert (forall ps, pt_lastInvDigest (charge_rejects p rep now ps) = pt_lastInvDigest ps /\ pt_invStreak (charge_rejects p rep now ps) = pt_invStreak ps) as H.
  { clear ps. intros ps. unfold charge_rejects. destruct (0 <? Rejected rep); [|done]. destruct (inv_penalize p (at_most 30 (Rejected rep * 8)) now (with_totals (pt_appliedTotal ps) (pt_rejectedTotal ps + Rejected rep) ps)). by destruct (_ && _). }
  destruct (H (charge_dupes rep (reward rep ps))) as [-> ->]. unfold charge_dupes, reward. by destruct (8 <? Dupe rep), (0 <? Applied rep).
Qed.

Lemma inv_of_same id id' role now s ps s0 : sl_peers s0 = sl_peers s \/ sl_peers s0 = <[id' := ensurePeer id' role now s]> (sl_peers s) ->
  pt_lastInvDigest ps = pt_lastInvDigest (ensurePeer id' role now s) /\ pt_invStreak ps = pt_invStreak (ensurePeer id' role now s) ->
  inv_of id (put_trust id' ps s0) = inv_of id s.
Proof.
  intros H [E1 E2]. rewrite inv_of_put, E1, E2. destruct (decide (id = id')) as [->|Hne]; [by rewrite inv_of_ensure|].
  unfold inv_of. destruct H as [->| ->]; [done|by rewrite lookup_insert_ne].
Qed.

Definition shows (id : string) (op : sec_op) : option InventoryMessage :=
  match op with SecInventory id' _ inv => if bool_decide (id' = id) then Some inv else None | _ => None end.

Lemma note_cluster_others id j digest now ps s : j <> id -> inv_of j (note_cluster id digest now ps s).2 = inv_of j s.
Proof.
  intros Hj. unfold note_cluster, penalize_and. destruct (is_empty digest); [done|]. destruct (_ <=? _); [|done]. cbn [snd]. rewrite inv_of_put. by rewrite decide_False.
Qed.

Lemma sec_step_inv id op now s : shows id op = None -> inv_of id (sec_step op now s) = inv_of id s.
Proof.
  intros Hn. destruct op as [id' role|id'|id' role dur|id'|id' role delta|id' role t size|id' role inv|id' role want|id' role rep|id' role age|id' base|id'|inv]; cbn [sec_step].
  - unfold SetPeerRole. destruct (is_blank id'); [done|]. by apply (inv_of_same id id' role now); [left|].
  - unfold TrustTier_of. destruct (is_blank id'); [done|]. by apply (inv_of_same id id' "" now); [left|].
  - unfold SetQuarantine. destruct (is_blank id'); [done|]. by apply (inv_of_same id id' role now); [left|].
  - unfold ClearQuarantine. destruct (is_blank id'); [done|]. by apply (inv_of_same id id' "" now); [left|].
  - unfold AdjustScore. destruct (_ || _); [done|]. by apply (inv_of_same id id' role now); [left|].
  - unfold ObserveInbound. destruct (is_blank id'); [done|]. repeat case_match; cbn [snd penalize_and];
      first [by apply (inv_of_same id id' role now); [right|apply inv_penalize]|by apply (inv_of_same id id' role now); [left|]].
  - cbn [shows] in Hn. case_bool_decide as Hne; [done|]. destruct (is_blank id') eqn:Hb; [unfold ObserveInventory; by rewrite Hb|].
    assert (forall ps, inv_of id (put_trust id' ps s) = inv_of id s) as Hput by (intros ps; rewrite inv_of_put; by rewrite decide_False by congruence).
    destruct (inventory_cases id' role inv now s Hb) as [(n & _ & -> & _)|[[-> _]| ->]]; [apply Hput|apply Hput|].
    rewrite note_cluster_others by congruence. apply Hput.
  - unfold ObserveWant. destruct (is_blank id'); [done|]. repeat case_match; cbn [snd penalize_and];
      first [by apply (inv_of_same id id' role now); [right|apply inv_penalize]|by apply (inv_of_same id id' role now); [left|]].
  - unfold ObserveApplyReport. destruct (is_blank id'); [done|]. apply (inv_of_same id id' role now); [by left|exact (inv_charge (sl_policy s) rep now (ensurePeer id' role now s))].
  - unfold PeerPriority. destruct (is_blank id'); [done|]. case_match; cbn [snd]; by apply (inv_of_same id id' role now); [left|].
  - unfold WitnessWeight. destruct (is_blank id'); [done|]. by apply (inv_of_same id id' "" now); [left|].
  - unfold PeerClusterKey. destruct (is_blank id'); [done|]. by apply (inv_of_same id id' "" now); [left|].
  - unfold InventoryClusterPeers. by destruct (is_empty _).
Qed.

(** How far a peer is from being shut out, in fours. *)
Definition left_over (id digest : string) (s : SecurityLayer) : Z :=
  score_of id s - sp_MinScore (sl_policy s) + 4 * Z.max 0 (sp_InventoryEchoThreshold (sl_policy s) - 1 - streak_of id digest s).

Lemma put_left_over id digest ps s : left_over id digest (put_trust id ps s)
  = pt_score ps - sp_MinScore (sl_policy s) + 4 * Z.max 0 (sp_InventoryEchoThreshold (sl_policy s) - 1 - (if bool_decide (pt_lastInvDigest ps = digest) then pt_invStreak ps else 0)).
Proof. unfold left_over, score_of, streak_of. rewrite inv_of_put, decide_True by done. cbn. by rewrite lookup_insert_eq. Qed.

Lemma score_penalize p n now ps : 0 < n -> pt_score (penalize p n now ps) = pt_score ps - n.
Proof. intros H. unfold penalize. by destruct (Z.leb_spec n 0); [lia|]. Qed.

Lemma streak_of_ensure id digest role now s :
  (if bool_decide (pt_lastInvDigest (ensurePeer id role now s) = digest) then pt_invStreak (ensurePeer id role now s) else 0) = streak_of id digest s.
Proof. unfold streak_of. by rewrite <- (inv_of_ensure id role now s). Qed.

(** Each time the inventory is shown again, it costs four or brings the streak on. *)
Lemma inventory_costs id digest role inv now s : is_blank id = false -> is_empty digest = false -> inventoryDigest inv = digest ->
  left_over id digest (ObserveInventory id role inv now s).2 <= left_over id digest s - 4.
Proof.
  intros Hb Hd Hi. unfold left_over at 2. rewrite <- (score_of_ensure id role now), <- (streak_of_ensure id digest role now).
  destruct (inventory_cases id role inv now s Hb) as [(n & Hn & -> & _)|H]; set (ps := ensurePeer id role now s) in *; set (p := sl_policy s) in *.
  - cbn [snd]. rewrite put_left_over, score_penalize by lia. destruct (inv_penalize p n now ps) as [-> ->]. fold p. lia.
  - rewrite Hi in H. set (ps2 := shown p digest now ps) in *.
    set (st := if bool_decide (pt_lastInvDigest ps = digest) then pt_invStreak ps else 0).
    assert (pt_lastInvDigest (note_inventory digest ps) = digest /\ pt_invStreak (note_inventory digest ps) = st + 1 /\ pt_score (note_inventory digest ps) = pt_score ps) as (N1 & N2 & N3).
    { subst st. unfold note_inventory. rewrite Hd. case_bool_decide; [by split_and!|by split_and!; rewrite ?Z.add_0_l]. }
    assert (pt_lastInvDigest ps2 = digest /\ pt_invStreak ps2 = st + 1 /\ pt_score ps2 = pt_score ps - if sp_InventoryEchoThreshold p <=? st + 1 then 4 else 0) as (S1 & S2 & S3).
    { subst ps2. unfold shown. rewrite Hd, N2. cbn [negb andb]. destruct (_ <=? _); [|split_and!; [done|done|lia]].
      destruct (inv_penalize p 4 now (note_inventory digest ps)) as [-> ->]. rewrite score_penalize by lia. by rewrite N3. }
    assert (left_over id digest (put_trust id ps2 s) <= pt_score ps - sp_MinScore p + 4 * Z.max 0 (sp_InventoryEchoThreshold p - 1 - st) - 4) as Hl.
    { rewrite put_left_over, S1, S2, S3, bool_decide_eq_true_2 by done. fold p. destruct (Z.leb_spec (sp_InventoryEchoThreshold p) (st + 1)); lia. }
    destruct H as [[-> _]| ->]; [exact Hl|]. etrans; [|exact Hl].
    unfold note_cluster, penalize_and. rewrite Hd. destruct (sp_InventoryClusterThreshold _ <=? _); [|exact (Z.le_refl _)]. cbn [snd]. rewrite put_left_over, score_penalize by lia. cbn [sl_policy put_seen put_trust].
    fold p. destruct (inv_penalize p 3 now ps2) as [-> ->]. rewrite put_left_over. fold p. lia.
Qed.

(** The peer is credited with nothing, and its inventories all have one digest. *)
Definition idle (id digest : string) (op : sec_op) : Prop := credits id op = false /\ forall inv, shows id op = Some inv -> inventoryDigest inv = digest.

Fixpoint inventories (id : string) (ops : list (sec_op * Z)) : Z :=
  match ops with [] => 0 | op :: ops' => (match shows id op.1 with Some _ => 1 | None => 0 end) + inventories id ops' end.

Lemma idle_run id digest ops t s : is_blank id = false -> is_empty digest = false -> layer_ok t s -> in_order t ops -> Forall (fun op => idle id digest op.1) ops ->
  left_over id digest (sec_run ops s) <= left_over id digest s - 4 * inventories id ops.
Proof.
  intros Hb Hd. unfold sec_run. revert t s. induction ops as [|[op now] ops IH]; intros t s Hs Ho Hi; [cbn; lia|].
  apply Forall_cons in Hi as [[Hc Hi] Hops]. destruct Ho as [Ht Ho]. cbn [fold_left fst snd inventories] in *.
  etrans; [apply (IH now); [by eapply sec_step_ok|done|done]|]. destruct (shows id op) as [inv|] eqn:E.
  - specialize (Hi inv eq_refl). destruct op; try done. cbn [shows] in E. case_bool_decide; [|done]. subst. injection E as ->. cbn [sec_step].
    pose proof (inventory_costs id (inventoryDigest inv) role inv now s Hb Hd eq_refl). lia.
  - unfold left_over at 1 2, streak_of. rewrite (sec_step_inv id op now s E). destruct (sec_step_touches op now s (la_policy t s Hs)) as [-> _].
    pose proof (sec_step_score t id op now s Hs Hc). lia.
Qed.

(** C22: A peer that was not known before and keeps showing the same inventory, as one does that
    has nothing new, and is credited with nothing, is shut out after some number of times, 21
    under the default policy, however long it waits between them; and stays shut out while it is
    credited with nothing. (A known peer starts from the score it has, and takes more.) *)
Theorem idle_peer_is_shut_out policy t before id digest ops : in_order t (before ++ ops) ->
  let s := sec_run before (NewSecurityLayer policy) in let p := SecurityPolicy_normalize policy in
  sl_peers s !! id = None -> is_blank id = false -> is_empty digest = false -> Forall (fun op => idle id digest op.1) ops ->
  sp_InitialScore p - sp_MinScore p + 4 * (sp_InventoryEchoThreshold p - 1) <= 4 * inventories id ops -> shut_out id (sec_run ops s).
Proof.
  intros Ho s p Hn Hb Hd Hi Hc.
  assert (forall t a b, in_order t (a ++ b) -> in_order t a /\ in_order (last_time t a) b) as Happ.
  { clear. intros t a. revert t. induction a as [|x a IH]; intros t b H; [done|]. destruct H as [H1 H2]. destruct (IH _ _ H2) as [H3 H4]. split; [done|].
    unfold last_time in *. cbn [fmap list_fmap]. rewrite last_cons. by destruct (last (snd <$> a)). }
  apply Happ in Ho as [Ho1 Ho2]. pose proof (sec_run_ok t before _ (NewSecurityLayer_ok policy t) Ho1) as Hs.
  pose proof (sec_run_policy before _ t (NewSecurityLayer_ok policy t) Ho1) as Hp. change (sl_policy (NewSecurityLayer policy)) with p in Hp. fold s in Hs, Hp.
  pose proof (sec_run_policy ops s _ Hs Ho2) as Hp'. apply low_score_shut_out; [done|]. rewrite Hp', Hp.
  pose proof (idle_run id digest ops _ s Hb Hd Hs Ho2 Hi) as H. unfold left_over in H. rewrite Hp', Hp in H.
  assert (score_of id s = sp_InitialScore p) as E1 by (unfold score_of; by rewrite Hn, Hp).
  assert (streak_of id digest s = 0) as E2 by (unfold streak_of, inv_of; rewrite Hn; by case_bool_decide).
  assert (0 < sp_InventoryEchoThreshold p) as E3 by (subst p; cbn; unfold if_le0; destruct (Z.leb_spec (sp_InventoryEchoThreshold policy) 0); lia).
  rewrite E1, E2 in H. lia.
Qed.

(** ** Peers that have the same inventory *)

(** Who showed an inventory, and when. *)
Definition shown_by (digest : string) (s : SecurityLayer) : gmap string Z := default ∅ (sl_invSeen s !! digest).

Lemma fresh_seen_lookup cutoff seen digest : default ∅ (fresh_seen cutoff seen !! digest) = filter (fun it => Before it.2 cutoff = false) (default ∅ (seen !! digest)).
Proof.
  unfold fresh_seen. rewrite map_lookup_filter, lookup_fmap. destruct (seen !! digest) as [m|]; cbn [fmap option_fmap option_map mbind option_bind default]; [|by rewrite map_filter_empty].
  destruct (decide (filter (fun it => Before it.2 cutoff = false) m = ∅)) as [E|E].
  - rewrite option_guard_False by (cbn; tauto). by rewrite E.
  - by rewrite option_guard_True.
Qed.

Definition within_limits (p : SecurityPolicy) (inv : InventoryMessage) : Prop :=
  Z.of_nat (length (iv_Heads inv)) <= sp_MaxHeadsPerRound p /\ Z.of_nat (length (iv_Have inv)) <= sp_MaxInventorySize p.

(** A peer that shows an inventory for the first time is compared with the others. *)
Lemma first_shown id role inv now s : is_blank id = false -> sl_peers s !! id = None -> within_limits (sl_policy s) inv -> 0 < sp_InventoryEchoThreshold (sl_policy s) ->
  exists ps, pt_score ps <= sp_InitialScore (sl_policy s) /\ ObserveInventory id role inv now s = note_cluster id (inventoryDigest inv) now ps (put_trust id ps s).
Proof.
  intros Hb Hn [L1 L2] Ht. destruct (inventory_cases id role inv now s Hb) as [(n & _ & _ & [?|?])|H]; [lia|lia|]. set (ps := ensurePeer id role now s) in *.
  assert (pt_score ps = sp_InitialScore (sl_policy s)) as Es by (subst ps; unfold ensurePeer; by rewrite Hn).
  assert (pt_lastInvDigest ps = "" /\ pt_invStreak ps = 0) as [E1 E2] by (subst ps; unfold ensurePeer; by rewrite Hn).
  assert (pt_invStreak (note_inventory (inventoryDigest inv) ps) <= 1) as Hst.
  { unfold note_inventory. destruct (is_empty (inventoryDigest inv)); [lia|]. rewrite E1, E2. by case_bool_decide. }
  destruct H as [[_ H]|H]; [lia|]. eexists. split; [|exact H]. unfold shown. destruct (note_inventory_keep (inventoryDigest inv) ps) as (_ & N & _).
  destruct (_ && _); [rewrite score_penalize by lia|]; lia.
Qed.

Lemma note_cluster_shown id digest now ps s : is_empty digest = false ->
  let m := <[id := now]> (filter (fun it => Before it.2 (TimeAdd now (- sp_InventoryWindow (sl_policy s))) = false) (shown_by digest s)) in
  shown_by digest (note_cluster id digest now ps s).2 = m
  /\ (sp_InventoryClusterThreshold (sl_policy s) <= Z.of_nat (size m) ->
      (note_cluster id digest now ps s).1 = DecisionDefer /\ score_of id (note_cluster id digest now ps s).2 = pt_score ps - 3).
Proof.
  intros Hd m. unfold note_cluster, penalize_and, shown_by in *. rewrite Hd, fresh_seen_lookup. fold m.
  destruct (Z.leb_spec (sp_InventoryClusterThreshold (sl_policy s)) (Z.of_nat (size m))); cbn [fst snd]; (split; [cbn; by rewrite lookup_insert_eq|intros ?; try lia]).
  split; [done|]. unfold score_of. cbn [put_trust sl_peers sl_policy put_seen]. rewrite lookup_insert_eq. cbn [from_option]. apply score_penalize. lia.
Qed.

Definition show_all (inv : InventoryMessage) (showers : list (string * Z)) : list (sec_op * Z) := map (fun x => (SecInventory x.1 "" inv, x.2)) showers.

(** Everyone who showed the inventory in the window before [now] is known to have. *)
Lemma show_all_shown inv now showers s : is_empty (inventoryDigest inv) = false -> within_limits (sl_policy s) inv -> 0 < sp_InventoryEchoThreshold (sl_policy s) ->
  NoDup (fst <$> showers) -> Forall (fun x => is_blank x.1 = false /\ sl_peers s !! x.1 = None /\ now - sp_InventoryWindow (sl_policy s) <= x.2 <= now) showers ->
  let s' := sec_run (show_all inv showers) s in
  sl_policy s' = sl_policy s /\ (forall j, j ∉ fst <$> showers -> sl_peers s' !! j = sl_peers s !! j)
  /\ forall j t, (j, t) ∈ showers \/ (shown_by (inventoryDigest inv) s !! j = Some t /\ now - sp_InventoryWindow (sl_policy s) <= t /\ j ∉ fst <$> showers) ->
       shown_by (inventoryDigest inv) s' !! j = Some t.
Proof.
  intros Hd. unfold sec_run. revert s. induction showers as [|[id t0] showers IH]; intros s Hl He Hnd Hf; cbn [show_all map fold_left fst snd].
  { split_and!; [done|done|]. intros j t [H|(H & _)]; [by apply not_elem_of_nil in H|done]. }
  cbn [fmap list_fmap fst] in Hnd. apply NoDup_cons in Hnd as [Hid Hnd]. apply Forall_cons in Hf as [(Hb & Hn & Ht0) Hf]. cbn [fst snd] in Hb, Hn, Ht0. cbn [sec_step].
  destruct (first_shown id "" inv t0 s Hb Hn Hl He) as (ps & _ & E). rewrite E.
  destruct (note_cluster_record id (inventoryDigest inv) t0 ps (put_trust id ps s)) as (P1 & P2 & _); [cbn; apply lookup_insert_eq|].
  destruct (note_cluster_shown id (inventoryDigest inv) t0 ps (put_trust id ps s) Hd) as [S1 _]. set (s1 := (note_cluster _ _ _ _ _).2) in *. cbn [sl_policy put_trust] in P1.
  assert (forall j, j <> id -> sl_peers s1 !! j = sl_peers s !! j) as P3 by (intros j Hj; rewrite P2 by done; cbn; by rewrite lookup_insert_ne).
  destruct (IH s1) as (I1 & I2 & I3); [by rewrite P1|by rewrite P1|done| |].
  { rewrite P1. eapply Forall_impl; [apply Forall_and; split; [exact Hf|apply Forall_forall; intros x Hx; exact (list_elem_of_fmap_2 fst _ _ Hx)]|].
    intros x [(A & B & C) D]. split_and!; [done|rewrite P3; [done|by intros <-]|lia|lia]. }
  rewrite P1 in I1, I3. split_and!; [done|intros j Hj; cbn in Hj; rewrite I2 by set_solver; apply P3; set_solver|].
  intros j t Hj. apply I3. cbn [fmap list_fmap fst] in Hj. change (shown_by (inventoryDigest inv) (put_trust id ps s)) with (shown_by (inventoryDigest inv) s) in S1. cbn [sl_policy put_trust] in S1.
  destruct Hj as [Hj|(Hj & Ht & Hnot)].
  - apply elem_of_cons in Hj as [[= -> ->]|Hj]; [right|by left]. rewrite S1, lookup_insert_eq. split_and!; [done|lia|done].
  - right. apply not_elem_of_cons in Hnot as [Hne Hnot]. rewrite S1, lookup_insert_ne by done. split_and!; [|done|done].
    apply map_lookup_filter_Some. split; [done|]. cbn. unfold Before, TimeAdd. apply Z.ltb_ge. lia.
Qed.

(** When as many peers as the threshold, three by default, have shown the same inventory
    within the window, as peers in step do, the exchange with the last of them is put off and
    costs it score. *)
Theorem converged_peers_are_put_off policy inv showers id role now : let p := SecurityPolicy_normalize policy in
  is_empty (inventoryDigest inv) = false -> within_limits p inv -> NoDup (id :: (fst <$> showers)) -> is_blank id = false ->
  Forall (fun x => is_blank x.1 = false /\ now - sp_InventoryWindow p <= x.2 <= now) showers -> sp_InventoryClusterThreshold p <= Z.of_nat (length showers) + 1 ->
  let r := ObserveInventory id role inv now (sec_run (show_all inv showers) (NewSecurityLayer policy)) in
  r.1 = DecisionDefer /\ score_of id r.2 <= sp_InitialScore p - 3.
Proof.
  intros p Hd Hl Hnd Hb Hf Hthr. apply NoDup_cons in Hnd as [Hid Hnd]. assert (0 < sp_InventoryEchoThreshold p) as He.
  { subst p. cbn. unfold if_le0. destruct (Z.leb_spec (sp_InventoryEchoThreshold policy) 0); lia. }
  destruct (show_all_shown inv now showers (NewSecurityLayer policy) Hd Hl He Hnd) as (E1 & E2 & E3).
  { eapply Forall_impl; [exact Hf|]. intros x [A B]. split; [exact A|split; [apply lookup_empty|exact B]]. }
  set (s := sec_run _ _) in *. change (sl_policy (NewSecurityLayer policy)) with p in E1. rewrite <- E1 in Hl, He.
  destruct (first_shown id role inv now s Hb ltac:(by rewrite E2) Hl He) as (ps & Hps & E). rewrite E1 in Hps.
  destruct (note_cluster_shown id (inventoryDigest inv) now ps (put_trust id ps s) Hd) as [_ H]. rewrite E. change (sl_policy (put_trust id ps s)) with (sl_policy s) in H.
  change (shown_by (inventoryDigest inv) (put_trust id ps s)) with (shown_by (inventoryDigest inv) s) in H. rewrite E1 in H.
  destruct H as [H1 H2]; [|split; [exact H1|rewrite H2; lia]]. etrans; [exact Hthr|].
  set (m := <[id := now]> _). assert (list_to_set (id :: (fst <$> showers)) ⊆ dom m) as Hsub.
  { intros j Hj. apply elem_of_list_to_set, elem_of_cons in Hj as [->|Hj]; [subst m; rewrite dom_insert_L; set_solver|].
    apply list_elem_of_fmap in Hj as ([j' t] & -> & Hj). cbn [fst]. assert (j' <> id) as Hne by (intros ->; apply Hid; by apply (list_elem_of_fmap_2 fst _ _ Hj)).
    apply elem_of_dom. exists t. subst m. rewrite lookup_insert_ne by done. apply map_lookup_filter_Some. split; [apply E3; by left|].
    rewrite Forall_forall in Hf. destruct (Hf _ Hj) as [_ Ht]. cbn in *. unfold Before, TimeAdd. apply Z.ltb_ge. lia. }
  pose proof (subseteq_size _ _ Hsub) as Hsz. rewrite size_list_to_set, size_dom in Hsz by (by apply NoDup_cons). cbn [length] in Hsz. rewrite length_fmap in Hsz. lia.
Qed.

(** ** Digests *)

(** A digest does not depend on the order in which heads and identifiers are listed. *)
Theorem digest_ignores_order v heads heads' have have' : heads ≡ₚ heads' -> have ≡ₚ have' -> inventoryDigest (mkInventory v heads have) = inventoryDigest (mkInventory v heads' have').
Proof.
  intros H1 H2. unfold inventoryDigest, digest_text, digest_lines. cbn [iv_Heads iv_Have]. by rewrite (sort_strings_eq heads heads' H1), (sort_strings_eq have have' H2).
Qed.
