(* ===== verification/SyncService.v ===== *)
(** * The synchronisation service ([pkg/ledgersync/service.go])

    The peers of a service and their limits, the handlers of the messages heads, inventory,
    want and events, the application of what waits in the scheduler, and the choice of peers
    for a round.

    The mesh and its cryptography are outside: [deliver] says whether a plaintext for a peer
    could be sealed and broadcast, and a received message is the sender's key with the
    plaintext.  What [time.Now] reads and what the random source gives are arguments: index 0
    is the handler's own reading, index [S i] that of round [i] of [drainInbound].  Of the
    functions that may panic or not end, [None] is the result. *)

From S2P Require Import Prelude Sha256 GoStr LedgerEvent LedgerKinds Ledger LedgerSync SyncWire SyncSched SyncSecurity.

#[local] Open Scope string_scope.
#[local] Open Scope list_scope.
#[local] Open Scope Z_scope.

(** ** State *)

Record peerState := mkPeerState {
  ps_lastInWindow : Z;
  ps_inMsgs : Z;
  ps_inBytes : Z;
  ps_meshPub : option (list Z);
  ps_penaltyUntil : Z;
  ps_penalty : Duration;
  ps_recentMsg : gmap string Z;
  ps_lastContact : Z;
  ps_role : string;
}.

Record SyncStats := mkStats {
  st_Deferred : Z;
  st_Rejected : Z;
  st_Duplicate : Z;
  st_Quarantined : Z;
}.

(** What changes in a service. *)
Record SyncService := mkService {
  sv_ledger : Ledger;
  sv_security : SecurityLayer;
  sv_verifyCache : VerifiedEventCache;
  sv_scheduler : PriorityScheduler;
  sv_peers : gmap string peerState;
  sv_stats : SyncStats;
}.

(** What does not. *)
Record Setup := mkSetup {
  su_opts : Options;
  su_policy : option Policy;
  su_observer : option Observer;
}.

Definition no_stats : SyncStats := mkStats 0 0 0 0.

(** [New], whose mesh, crypto and ledger are not nil. *)
Definition New_service (NumCPU : Z) (l : Ledger) (pol : option Policy) (obs : option Observer) (opts : Options) : Setup * SyncService :=
  let norm := Options_normalize NumCPU opts in
  (mkSetup norm pol obs,
   mkService l (NewSecurityLayer (op_SecurityPolicy norm)) (NewVerifiedEventCache (op_VerifiedCacheMax norm) (op_VerifiedCacheTTL norm))
     (NewPriorityScheduler norm) ∅ no_stats).

Definition with_ledger (l : Ledger) (s : SyncService) : SyncService :=
  mkService l (sv_security s) (sv_verifyCache s) (sv_scheduler s) (sv_peers s) (sv_stats s).
Definition with_security (x : SecurityLayer) (s : SyncService) : SyncService :=
  mkService (sv_ledger s) x (sv_verifyCache s) (sv_scheduler s) (sv_peers s) (sv_stats s).
Definition with_cache (c : VerifiedEventCache) (s : SyncService) : SyncService :=
  mkService (sv_ledger s) (sv_security s) c (sv_scheduler s) (sv_peers s) (sv_stats s).
Definition with_scheduler (x : PriorityScheduler) (s : SyncService) : SyncService :=
  mkService (sv_ledger s) (sv_security s) (sv_verifyCache s) x (sv_peers s) (sv_stats s).
Definition with_peers (m : gmap string peerState) (s : SyncService) : SyncService :=
  mkService (sv_ledger s) (sv_security s) (sv_verifyCache s) (sv_scheduler s) m (sv_stats s).
Definition with_stats (x : SyncStats) (s : SyncService) : SyncService :=
  mkService (sv_ledger s) (sv_security s) (sv_verifyCache s) (sv_scheduler s) (sv_peers s) x.

Definition count_deferred (n : Z) (s : SyncService) : SyncService :=
  let t := sv_stats s in with_stats (mkStats (u64 (st_Deferred t + n)) (st_Rejected t) (st_Duplicate t) (st_Quarantined t)) s.
Definition count_refused (n : Z) (s : SyncService) : SyncService :=
  let t := sv_stats s in with_stats (mkStats (st_Deferred t) (u64 (st_Rejected t + n)) (st_Duplicate t) (st_Quarantined t)) s.
Definition count_duplicate (n : Z) (s : SyncService) : SyncService :=
  let t := sv_stats s in with_stats (mkStats (st_Deferred t) (st_Rejected t) (u64 (st_Duplicate t + n)) (st_Quarantined t)) s.
Definition count_quarantined (n : Z) (s : SyncService) : SyncService :=
  let t := sv_stats s in with_stats (mkStats (st_Deferred t) (st_Rejected t) (st_Duplicate t) (u64 (st_Quarantined t + n))) s.

(** ** Peers *)

Definition new_peer : peerState := mkPeerState zeroTime 0 0 None zeroTime 0 ∅ zeroTime "".
Definition peer_of (id : string) (s : SyncService) : peerState := default new_peer (sv_peers s !! id).
Definition put_peer (id : string) (ps : peerState) (s : SyncService) : SyncService := with_peers (<[id := ps]> (sv_peers s)) s.

Definition TouchPeer (id : string) (now : Z) (s : SyncService) : SyncService :=
  let ps := peer_of id s in
  put_peer id (mkPeerState (ps_lastInWindow ps) (ps_inMsgs ps) (ps_inBytes ps) (ps_meshPub ps) (ps_penaltyUntil ps) (ps_penalty ps)
                 (ps_recentMsg ps) now (ps_role ps)) s.

Definition notePeerMeshPub (id : string) (pub : list Z) (now : Z) (s : SyncService) : SyncService :=
  if is_blank id then s
  else
    let ps := peer_of id s in
    put_peer id (mkPeerState (ps_lastInWindow ps) (ps_inMsgs ps) (ps_inBytes ps) (Some pub) (ps_penaltyUntil ps) (ps_penalty ps)
                   (ps_recentMsg ps) now (ps_role ps)) s.

Definition setPeerRole (id role : string) (now : Z) (s : SyncService) : SyncService :=
  if is_blank id then s
  else
    let ps := peer_of id s in
    let s := put_peer id (mkPeerState (ps_lastInWindow ps) (ps_inMsgs ps) (ps_inBytes ps) (ps_meshPub ps) (ps_penaltyUntil ps) (ps_penalty ps)
                            (ps_recentMsg ps) now (if is_empty role then ps_role ps else role)) s in
    if is_empty role then s else with_security (SetPeerRole id role now (sv_security s)) s.

Definition peerRole (id : string) (s : SyncService) : string :=
  match sv_peers s !! id with
  | None => PeerRoleNormal
  | Some ps => if is_empty (ps_role ps) then PeerRoleNormal else ps_role ps
  end.

(** The record of a peer after a message of [size] bytes. *)
Definition count_inbound (o : Options) (size now : Z) (ps : peerState) : bool * peerState :=
  if negb (IsZero (ps_penaltyUntil ps)) && Before now (ps_penaltyUntil ps) then (false, ps)
  else
    let windowStart := Truncate now Minute in
    let fresh := IsZero (ps_lastInWindow ps) || negb (ps_lastInWindow ps =? windowStart) in
    let inMsgs := (if fresh then 0 else ps_inMsgs ps) + 1 in
    let inBytes := (if fresh then 0 else ps_inBytes ps) + size in
    let window := if fresh then windowStart else ps_lastInWindow ps in
    let over := (op_MaxInboundMsgsPerMin o <? inMsgs) || (op_MaxInboundBytesPerMin o <? inBytes) in
    let penalty :=
      if over then if ps_penalty ps <? op_PenaltyBase o then op_PenaltyBase o else at_most (op_PenaltyMax o) (ps_penalty ps * 2)
      else ps_penalty ps in
    (negb over,
     mkPeerState window inMsgs inBytes (ps_meshPub ps) (if over then TimeAdd now penalty else ps_penaltyUntil ps) penalty
       (ps_recentMsg ps) (ps_lastContact ps) (ps_role ps)).

Definition allowInbound (o : Options) (peerID : string) (size now : Z) (s : SyncService) : bool * SyncService :=
  let '(ok, ps) := count_inbound o size now (peer_of peerID s) in (ok, put_peer peerID ps s).

(** ** Messages seen *)

Definition with_recent (m : gmap string Z) (ps : peerState) : peerState :=
  mkPeerState (ps_lastInWindow ps) (ps_inMsgs ps) (ps_inBytes ps) (ps_meshPub ps) (ps_penaltyUntil ps) (ps_penalty ps) m (ps_lastContact ps) (ps_role ps).

Definition live_msgs (now : Z) (m : gmap string Z) : gmap string Z := filter (fun kv => After now kv.2 = false) m.

Definition alreadySeenMsg (peerID msgID : string) (now : Z) (s : SyncService) : bool * SyncService :=
  let m := live_msgs now (ps_recentMsg (peer_of peerID s)) in
  (bool_decide (is_Some (m !! msgID)), put_peer peerID (with_recent m (peer_of peerID s)) s).

(** Peers by identifier. *)
Definition peer_le (a b : Peer) : Prop := str_le (pe_ID a) (pe_ID b).
#[export] Instance peer_le_dec : RelDecision peer_le.
Proof. intros a b. unfold peer_le. apply _. Defined.

Section service.
Context `{Ed25519} `{PayloadJSON} `{WireJSON} `{SortSlice (string * Z) (le_by snd)}.
(** Whether a plaintext for a peer is sealed and broadcast. *)
Context (deliver : Peer -> list Z -> bool).
(** The order of a range over identifiers; the order in which the workers finish. *)
Context (range : gset string -> list string) (finish : list Event -> list Event).
(** How many rounds the query for an author's events may take. *)
Context (fuel : nat).
Context (su : Setup).

Let o : Options := su_opts su.

Definition seenMsg (peerID msgID : string) (now : Z) (s : SyncService) : bool * SyncService :=
  let ps := peer_of peerID s in
  let m := live_msgs now (ps_recentMsg ps) in
  if bool_decide (is_Some (m !! msgID)) then (true, put_peer peerID (with_recent m ps) s)
  else
    let m := <[msgID := TimeAdd now (op_RecentMsgTTL o)]> m in
    let all := sort_slice (map_to_list m) in
    let m := if op_RecentMsgMax o <? Z.of_nat (size m) then foldr delete m (take (length all / 2) all).*1 else m in
    (false, put_peer peerID (with_recent m ps) s).

(** ** Sending *)

(** What the random source gives during a call. *)
Record Draws := mkDraws {
  dr_sid : nat -> option (list Z);
  dr_fill : nat -> string -> Z -> option (list Z);
  dr_sample : nat -> option Z;
  dr_noise : nat -> option Z;
}.

(** Whether a message went out, and what did; a delay changes nothing here. *)
Definition sendMesh (peer : Peer) (plaintext : list Z) (fill : Z -> option (list Z)) : bool * list (Peer * list Z) :=
  let bucket := pp_PaddingBucketBytes (op_Privacy o) in
  let plaintext := if 0 <? bucket then default plaintext (padPlaintext plaintext bucket fill) else plaintext in
  if deliver peer plaintext then (true, [(peer, plaintext)]) else (false, []).

Inductive send_err := ContextNotAllowed | NoRandomness | NotSent.

Definition SendHeads (peer : Peer) (syncContext : string) (now : Z) (d : Draws) (s : SyncService)
    : res send_err string * list (Peer * list Z) * SyncService :=
  if negb (allow_context o syncContext) then (Err ContextNotAllowed, [], s)
  else
    match newSessionID (dr_sid d 0) with
    | None => (Err NoRandomness, [], s)
    | Some sid =>
        let pt := encodeWire "heads" sid syncContext (json_heads (BuildHeadsMessage (sv_ledger s))) in
        let peer := if is_empty (pe_ID peer) then mkPeer (peerIDFromMeshPub (pe_MeshPub peer)) (pe_MeshPub peer) (pe_Role peer) else peer in
        let s := setPeerRole (pe_ID peer) (pe_Role peer) now (notePeerMeshPub (pe_ID peer) (pe_MeshPub peer) now s) in
        let '(ok, out) := sendMesh peer pt (dr_fill d 0 (pe_ID peer)) in
        (if ok then Ok sid else Err NotSent, out, s)
    end.

(** ** What may go out and come in *)

Definition filterOutgoingIDs (ids : list string) (ctx : string) (l : Ledger) : list string :=
  filter (fun id => default false ((fun ev => allow_outgoing o ctx (Kind ev)) <$> Get id l) = true) ids.

Definition filterIncomingEvents (msg : EventsMessage) (ctx : string) : EventsMessage * Z :=
  let out := filter (fun ev => allow_incoming o ctx (Kind ev) = true) (em_Events msg) in
  (mkEvents (em_SchemaVersion msg) out, Z.of_nat (length (em_Events msg)) - Z.of_nat (length out)).

Definition event_limits (maxMessageBytes : Z) : limits := mkLimits (op_MaxEvents o) (op_MaxEventBytes o) maxMessageBytes.

(** ** Applying what waits *)

(** The peers that get what the observer wrote. *)
Definition broadcast_peers (s : SyncService) : list Peer :=
  let known := omap (fun kv => (fun pub => mkPeer kv.1 pub (ps_role kv.2)) <$> ps_meshPub kv.2) (map_to_list (sv_peers s)) in
  let sorted := merge_sort peer_le known in
  if 0 <? op_MaxPeersPerRound o then take (Z.to_nat (op_MaxPeersPerRound o)) sorted else sorted.

Definition broadcastObserverEvents (obs : Observer) (ctx : string) (fromSeq toSeq : Z) (round : nat) (d : Draws) (s : SyncService)
    : option (list (Peer * list Z)) :=
  let author := TrimSpace (ob_Author obs) in
  if negb (allow_context o ctx) || is_empty author then Some []
  else
    match AuthorEventIDsBetween fuel author fromSeq toSeq (sv_ledger s) with
    | Some (Some ids) =>
        let ids := filterOutgoingIDs ids ctx (sv_ledger s) in
        let msg := BuildEventsMessageBounded ids (event_limits (op_MaxEventsMessageBytes o)) (sv_ledger s) in
        match ids, em_Events msg, newSessionID (dr_sid d round) with
        | _ :: _, _ :: _, Some sid =>
            let pt := encodeWire "events" sid ctx (json_events msg) in
            Some (concat (map (fun peer => (sendMesh peer pt (dr_fill d round (pe_ID peer))).2) (broadcast_peers s)))
        | _, _, _ => Some []
        end
    | _ => None
    end.

Definition add_report (a b : ApplyReport) : ApplyReport := mkReport (Applied a + Applied b) (Dupe a + Dupe b) (Rejected a + Rejected b).

(** What one item does: the application, the broadcast, the statistics and the trust. *)
Definition apply_item (it : schedItem) (now : Z) (round : nat) (d : Draws) (s : SyncService)
    : option (ApplyReport * list (Peer * list Z) * SyncService) :=
  let msgMax := if (0 <? si_maxMessageBytes it) && (si_maxMessageBytes it <? op_MaxEventsMessageBytes o) then si_maxMessageBytes it else op_MaxEventsMessageBytes o in
  let ctx := TrimSpace (si_context it) in
  let observes := match su_observer su with Some obs => if is_empty ctx then None else Some obs | None => None end in
  let maxSeq s := match observes with Some obs => AuthorMaxSeq (ob_Author obs) (sv_ledger s) | None => 0 end in
  let beforeSeq := maxSeq s in
  let '(_, (rp, l), c) :=
    ApplyEventsMessageBoundedOptimized finish (si_msg it) (si_context it) (su_policy su) (su_observer su) (event_limits msgMax)
      (Some (sv_verifyCache s)) now (sv_ledger s) in
  let s := with_cache (default (sv_verifyCache s) c) (with_ledger l s) in
  let afterSeq := maxSeq s in
  match (match observes with
         | Some obs => if beforeSeq <? afterSeq then broadcastObserverEvents obs ctx (u64 (beforeSeq + 1)) afterSeq round d s else Some []
         | None => Some []
         end) with
  | None => None
  | Some sent =>
      let s := if 0 <? Dupe rp then count_duplicate (Dupe rp) s else s in
      let s :=
        if 0 <? Rejected rp then
          let s := count_refused (Rejected rp) s in
          let '(tier, x) := TrustTier_of (si_peerID it) now (sv_security s) in
          let s := with_security x s in
          if bool_decide (tier = TrustBlocked) then count_quarantined 1 s else s
        else s in
      Some (rp, sent, with_security (ObserveApplyReport (si_peerID it) (si_role it) rp now (sv_security s)) s)
  end.

Fixpoint drain (rounds i : nat) (clock : nat -> Z) (d : Draws) (s : SyncService) : option (ApplyReport * list (Peer * list Z) * SyncService) :=
  match rounds with
  | O => Some (no_report, [], s)
  | S rounds' =>
      match Next (sv_scheduler s) with
      | None => None
      | Some (None, x) => Some (no_report, [], with_scheduler x s)
      | Some (Some it, x) =>
          match apply_item it (clock (S i)) i d (with_scheduler x s) with
          | None => None
          | Some (rp, sent, s) =>
              match drain rounds' (S i) clock d s with
              | None => None
              | Some (rep, sent', s) => Some (add_report rp rep, sent ++ sent', s)
              end
          end
      end
  end.

Definition drainInbound (max : Z) (clock : nat -> Z) (d : Draws) (s : SyncService) : option (ApplyReport * list (Peer * list Z) * SyncService) :=
  drain (Z.to_nat max) 0 clock d s.

(** ** The handlers *)

(** What a handler returns: whether it failed, what it sent, and the service after. *)
Definition handled : Type := bool * list (Peer * list Z) * SyncService.
Definition quiet (s : SyncService) : handled := (false, [], s).

(** A reply is marked as seen once it went out; one that could not be sent is an error. *)
Definition answer (from : Peer) (reply : list Z) (d : Draws) (mark : SyncService -> SyncService) (s : SyncService) : handled :=
  let '(ok, out) := sendMesh from reply (dr_fill d 0 (pe_ID from)) in if ok then (false, out, mark s) else (true, out, s).

(** A message that was turned down: counted, twice when its sender is blocked, and seen. *)
Definition turn_down (peerID : string) (now : Z) (mark : SyncService -> SyncService) (s : SyncService) : handled :=
  let s := count_refused 1 s in
  let '(tier, x) := TrustTier_of peerID now (sv_security s) in
  let s := with_security x s in
  quiet (mark (if bool_decide (tier = TrustBlocked) then count_quarantined 1 s else s)).

Definition put_off (s : SyncService) : handled := quiet (count_deferred 1 s).

Definition on_heads (from : Peer) (w : WireMessage) (d : Draws) (mark : SyncService -> SyncService) (s : SyncService) : handled :=
  match read_heads (wi_Body w) with
  | Some hm =>
      if negb (hm_SchemaVersion hm =? SyncSchemaV1) then quiet (mark s)
      else
        let inv := BuildInventoryMessage range (op_MaxHave o) (sv_ledger s) in
        let share := pp_InventorySamplePermille (op_Privacy o) in
        let have :=
          if (share <? 1000) && (32 <=? Z.of_nat (length (iv_Have inv))) then sampleStringsPermille (iv_Have inv) share (dr_sample d) else iv_Have inv in
        answer from (encodeWire "inv" (wi_Session w) (wi_Context w) (json_inventory (mkInventory (iv_SchemaVersion inv) (iv_Heads inv) have))) d mark s
  | None => quiet (mark s)
  end.

(** The first of each identifier that is not empty. *)
Fixpoint unique_ids (seen : list string) (ids : list string) : list string :=
  match ids with
  | [] => []
  | id :: ids' => if is_empty id || bool_decide (id ∈ seen) then unique_ids seen ids' else id :: unique_ids (id :: seen) ids'
  end.

(** The identifiers asked for: some of those planned, and among them some that are known, to
    hide which are wanted. *)
Definition choose_wants (planned have : list string) (d : Draws) (l : Ledger) : list string :=
  let share := pp_WantSamplePermille (op_Privacy o) in
  let wantIDs :=
    if (share <? 1000) && (8 <=? Z.of_nat (length planned))
    then match sampleStringsPermille planned share (dr_sample d) with [] => take 1 planned | ids => ids end
    else planned in
  let count := pp_WantNoiseCount (op_Privacy o) in
  let wantIDs :=
    if (0 <? count) && (8 <=? Z.of_nat (length have))
    then wantIDs ++ take (Z.to_nat count) (shuffle (filter (fun id => is_empty id = false /\ Have id l = true) have) (dr_noise d))
    else wantIDs in
  let wantIDs := if 1 <? Z.of_nat (length wantIDs) then unique_ids [] wantIDs else wantIDs in
  if 0 <? op_MaxWant o then take (Z.to_nat (op_MaxWant o)) wantIDs else wantIDs.

Definition on_inventory (from : Peer) (w : WireMessage) (now : Z) (d : Draws) (mark : SyncService -> SyncService) (s : SyncService) : handled :=
  match read_inventory (wi_Body w) with
  | Some inv =>
      if negb (iv_SchemaVersion inv =? SyncSchemaV1) then quiet (mark s)
      else
        let '(decision, x) := ObserveInventory (pe_ID from) (pe_Role from) inv now (sv_security s) in
        let s := with_security x s in
        match decision with
        | DecisionReject => turn_down (pe_ID from) now mark s
        | DecisionDefer =>
            let s :=
              match su_observer su with
              | None => s
              | Some _ =>
                  let '(peers, x) := InventoryClusterPeers inv now (sv_security s) in
                  let s := with_security x s in
                  let thr := sp_InventoryClusterThreshold (sl_policy (sv_security s)) in
                  if (0 <? thr) && (Z.of_nat (length peers) =? thr)
                  then with_ledger (EmitSybilMisbehavior (wi_Context w) peers "inventory_cluster" (su_policy su) (su_observer su) now (sv_ledger s)).2 s
                  else s
              end in
            put_off s
        | DecisionAccept =>
            let plan := PlanSyncFromPeer inv (op_MaxWant o) (sv_ledger s) in
            let want := mkWant SyncSchemaV1 (choose_wants (pl_Want plan) (iv_Have inv) d (sv_ledger s)) in
            answer from (encodeWire "want" (wi_Session w) (wi_Context w) (json_want want)) d mark s
        end
  | None => quiet (mark s)
  end.

Definition on_want (from : Peer) (w : WireMessage) (now : Z) (d : Draws) (mark : SyncService -> SyncService) (s : SyncService) : handled :=
  match read_want (wi_Body w) with
  | Some want =>
      if negb (wm_SchemaVersion want =? SyncSchemaV1) then quiet (mark s)
      else
        let '(decision, x) := ObserveWant (pe_ID from) (pe_Role from) want now (sv_security s) in
        let s := with_security x s in
        match decision with
        | DecisionReject => turn_down (pe_ID from) now mark s
        | DecisionDefer => put_off s
        | DecisionAccept =>
            let ids := take (Z.to_nat (if 0 <? op_MaxWant o then op_MaxWant o else 256)) (wm_Want want) in
            let msg := BuildEventsMessageBounded (filterOutgoingIDs ids (wi_Context w) (sv_ledger s)) (event_limits (op_MaxEventsMessageBytes o)) (sv_ledger s) in
            answer from (encodeWire "events" (wi_Session w) (wi_Context w) (json_events msg)) d mark s
        end
  | None => quiet (mark s)
  end.

(** [if len(m.Events) > 0 && s.scheduler.Enqueue(..) { enq++ }] for the three parts. *)
Definition enqueue_part (peerID role ctx : string) (maxMessageBytes : Z) (cls : PriorityClass) (msg : EventsMessage) (sc : Z * PriorityScheduler) : Z * PriorityScheduler :=
  match em_Events msg with
  | [] => sc
  | _ =>
      let '(ok, x) := Enqueue peerID cls (mkSchedItem "" role ctx msg maxMessageBytes) sc.2 in
      ((if ok then sc.1 + 1 else sc.1), x)
  end.
Definition enqueue_parts (peerID role ctx : string) (maxMessageBytes : Z) (msg : EventsMessage) (x : PriorityScheduler) : Z * PriorityScheduler :=
  let '(cm, nm, bm) := splitEventsByPriority msg in
  enqueue_part peerID role ctx maxMessageBytes PriorityBackground bm
    (enqueue_part peerID role ctx maxMessageBytes PriorityNormal nm (enqueue_part peerID role ctx maxMessageBytes PriorityCritical cm (0, x))).

(** The events that may come in are queued; their number that were not, and the service. *)
Definition admit_events (peerID role : string) (w : WireMessage) (maxMessageBytes : Z) (em : EventsMessage) (s : SyncService) : Z * Z * SyncService :=
  let '(em, dropped) := filterIncomingEvents em (wi_Context w) in
  let s := if 0 <? dropped then count_refused dropped s else s in
  let '(enq, x) := enqueue_parts peerID role (wi_Context w) maxMessageBytes em (sv_scheduler s) in
  (enq, dropped, with_scheduler x s).

Definition on_events (from : Peer) (w : WireMessage) (clock : nat -> Z) (d : Draws) (mark : SyncService -> SyncService) (s : SyncService) : option handled :=
  match read_events (wi_Body w) with
  | Some em =>
      if negb (em_SchemaVersion em =? SyncSchemaV1) then Some (quiet (mark s))
      else
        let '(enq, _, s) := admit_events (pe_ID from) (pe_Role from) w (op_MaxEventsMessageBytes o) em s in
        if enq =? 0 then Some (put_off s)
        else
          match drainInbound (op_SchedulerDrainPerReceive o) clock d s with
          | None => None
          | Some (_, sent, s) => Some (false, sent, mark s)
          end
  | None => Some (quiet (mark s))
  end.

(** [input]: the sender's key and the plaintext, of a message that was for this node. *)
Definition ReceiveOnce (input : list Z * list Z) (clock : nat -> Z) (d : Draws) (s : SyncService) : option handled :=
  let '(pub, pt) := input in
  let peerID := peerIDFromMeshPub pub in
  let now := clock 0%nat in
  let s := notePeerMeshPub peerID pub now s in
  let role := peerRole peerID s in
  let '(ok, s) := allowInbound o peerID (blen pt) now s in
  if negb ok then Some (quiet (count_refused 1 s))
  else
    let upt := (unpadPlaintext pt).1 in
    let mid := msgIDFromPlaintext upt in
    let '(seen, s) := alreadySeenMsg peerID mid now s in
    if seen then Some (quiet (count_duplicate 1 s))
    else
      let mark s := (seenMsg peerID mid now s).2 in
      let s := TouchPeer peerID now s in
      match decodeWire upt with
      | None => Some (quiet (mark s))
      | Some w =>
          if negb (allow_context o (wi_Context w)) then Some (quiet (mark s))
          else
            let '(decision, x) := ObserveInbound peerID role (wi_Type w) (blen pt) now (sv_security s) in
            let s := with_security x s in
            let from := mkPeer peerID pub role in
            match decision with
            | DecisionReject => Some (turn_down peerID now mark s)
            | DecisionDefer => Some (put_off s)
            | DecisionAccept =>
                if bool_decide (wi_Type w = "heads") then Some (on_heads from w d mark s)
                else if bool_decide (wi_Type w = "inv") then Some (on_inventory from w now d mark s)
                else if bool_decide (wi_Type w = "want") then Some (on_want from w now d mark s)
                else if bool_decide (wi_Type w = "events") then on_events from w clock d mark s
                else Some (quiet (mark s))
            end
      end.

(** A plaintext that came another way: whether it was for the service, and the report. *)
Definition TryApplyWirePlaintext (peerID : string) (plaintext : list Z) (clock : nat -> Z) (d : Draws) (s : SyncService)
    : option (bool * ApplyReport * list (Peer * list Z) * SyncService) :=
  let peerID := peer_key peerID in
  let now := clock 0%nat in
  let role := if HasPrefix peerID "relay:" then PeerRoleRelay else PeerRoleNormal in
  let s := setPeerRole peerID role now s in
  let '(ok, s) := allowInbound o peerID (blen plaintext) now s in
  if negb ok then Some (true, no_report, [], count_refused 1 s)
  else
    let upt := (unpadPlaintext plaintext).1 in
    let '(seen, s) := seenMsg peerID (msgIDFromPlaintext upt) now s in
    if seen then Some (true, no_report, [], count_duplicate 1 s)
    else
      let s := TouchPeer peerID now s in
      match decodeWire upt with
      | None => Some (false, no_report, [], s)
      | Some w =>
          if negb (bool_decide (wi_Type w = "events")) then Some (false, no_report, [], s)
          else if negb (allow_context o (wi_Context w)) then Some (true, no_report, [], s)
          else
            let '(decision, x) := ObserveInbound peerID role (wi_Type w) (blen plaintext) now (sv_security s) in
            let s := with_security x s in
            match decision with
            | DecisionReject => Some (true, no_report, [], (turn_down peerID now (fun s => s) s).2)
            | DecisionDefer => Some (true, no_report, [], (put_off s).2)
            | DecisionAccept =>
                match read_events (wi_Body w) with
                | Some em =>
                    if negb (em_SchemaVersion em =? SyncSchemaV1) then Some (true, no_report, [], s)
                    else
                      let '(enq, dropped, s) := admit_events peerID role w (op_MaxEventsMessageBytes o) em s in
                      if enq =? 0 then Some (true, mkReport 0 0 dropped, [], (put_off s).2)
                      else
                        match drainInbound (op_SchedulerDrainPerReceive o) clock d s with
                        | None => None
                        | Some (rep, sent, s) => Some (true, mkReport (Applied rep) (Dupe rep) (Rejected rep + dropped), sent, s)
                        end
                | None => Some (true, no_report, [], s)
                end
            end
      end.
End service.

(** ** The peers of a round *)

Record scored := mkScored { sr_peer : Peer; sr_score : Z }.

(** Higher scores first, then by identifier. *)
Definition scored_le (a b : scored) : Prop := sr_score b < sr_score a \/ (sr_score a = sr_score b /\ peer_le (sr_peer a) (sr_peer b)).
#[export] Instance scored_le_dec : RelDecision scored_le.
Proof. intros a b. unfold scored_le. apply _. Defined.

(** A candidate with its identifier and its role: the known one when it comes without. *)
Definition fill_in (p : Peer) (s : SyncService) : Peer :=
  let id := if is_empty (pe_ID p) then peerIDFromMeshPub (pe_MeshPub p) else pe_ID p in
  let role := if is_empty (pe_Role p) then PeerRoleNormal else pe_Role p in
  mkPeer id (pe_MeshPub p)
    (match sv_peers s !! id with
     | Some ps => if negb (is_empty (ps_role ps)) && bool_decide (role = PeerRoleNormal) then ps_role ps else role
     | None => role
     end).

Definition penalised (id : string) (now : Z) (s : SyncService) : bool :=
  match sv_peers s !! id with Some ps => negb (IsZero (ps_penaltyUntil ps)) && Before now (ps_penaltyUntil ps) | None => false end.

Definition contact_age (id : string) (now : Z) (s : SyncService) : Z :=
  match sv_peers s !! id with
  | Some ps => if IsZero (ps_lastContact ps) then 2 ^ 62 else TimeSub now (ps_lastContact ps) ÷ Second
  | None => 2 ^ 62
  end.

(** The candidates that count, with their scores. *)
Fixpoint score_all (candidates : list Peer) (now : Z) (s : SyncService) : list scored * SyncService :=
  match candidates with
  | [] => ([], s)
  | p :: candidates' =>
      let p := fill_in p s in
      if penalised (pe_ID p) now s then score_all candidates' now s
      else
        let '(score, x) := PeerPriority (pe_ID p) (pe_Role p) (contact_age (pe_ID p) now s) now (sv_security s) in
        let '(all, s) := score_all candidates' now (with_security x s) in
        (if score <? 0 then all else mkScored p score :: all, s)
  end.

Record selection := mkSelection {
  sel_out : list Peer;
  sel_relays : Z;
  sel_agents : Z;
  sel_ids : gset string;
  sel_clusters : gset string;
  sel_service : SyncService;
}.

Definition is_relay (p : Peer) : bool := bool_decide (pe_Role p = PeerRoleRelay).
Definition is_agent (p : Peer) : bool := bool_decide (pe_Role p = PeerRoleAgent).

Definition tryAdd (p : Peer) (diverse : bool) (now : Z) (st : selection) : selection :=
  let pol := sl_policy (sv_security (sel_service st)) in
  if bool_decide (pe_ID p ∈ sel_ids st) then st
  else if is_relay p && (sp_MaxRelaysPerRound pol <=? sel_relays st) then st
  else if is_agent p && (sp_MaxAgentsPerRound pol <=? sel_agents st) then st
  else
    let '(cluster, s) :=
      if diverse then let '(c, x) := PeerClusterKey (pe_ID p) now (sv_security (sel_service st)) in (c, with_security x (sel_service st))
      else ("", sel_service st) in
    if negb (is_empty cluster) && bool_decide (cluster ∈ sel_clusters st)
    then mkSelection (sel_out st) (sel_relays st) (sel_agents st) (sel_ids st) (sel_clusters st) s
    else
      mkSelection (sel_out st ++ [p]) (sel_relays st + if is_relay p then 1 else 0) (sel_agents st + if is_agent p then 1 else 0)
        ({[pe_ID p]} ∪ sel_ids st) (if is_empty cluster then sel_clusters st else {[cluster]} ∪ sel_clusters st)
        (setPeerRole (pe_ID p) (pe_Role p) now s).

(** A pass over the candidates; the first one looks at clusters but for the last place. *)
Fixpoint add_peers (first : bool) (maxPeers : Z) (all : list scored) (now : Z) (st : selection) : selection :=
  match all with
  | [] => st
  | x :: all' =>
      let n := Z.of_nat (length (sel_out st)) in
      if maxPeers <=? n then st
      else add_peers first maxPeers all' now (tryAdd (sr_peer x) (first && (n <? maxPeers - 1)) now st)
  end.

(** The search for a peer that takes the last place: [tries] places from [offset] on. *)
Fixpoint find_swap (tries : nat) (i : Z) (all : list scored) (start width offset : Z) (last : Peer) (ids : gset string) : option Peer :=
  match tries with
  | O => None
  | S tries' =>
      match sr_peer <$> all !! Z.to_nat (start + (offset + i) mod width) with
      | Some cand =>
          if negb (bool_decide (pe_Role cand = pe_Role last)) || bool_decide (pe_ID cand ∈ ids) then find_swap tries' (i + 1) all start width offset last ids
          else Some cand
      | None => None
      end
  end.

Definition swap_last (draw : option Z) (all : list scored) (now : Z) (st : selection) : list Peer * SyncService :=
  let n := Z.of_nat (length (sel_out st)) in
  match draw, last (sel_out st) with
  | Some rn, Some old =>
      if (2 <=? n) && (n <? Z.of_nat (length all)) then
        let width := Z.of_nat (length all) - n in
        match find_swap (Z.to_nat (at_most 8 width)) 0 all n width (rn mod u32 width) old (sel_ids st) with
        | Some cand => (removelast (sel_out st) ++ [cand], setPeerRole (pe_ID cand) (pe_Role cand) now (sel_service st))
        | None => (sel_out st, sel_service st)
        end
      else (sel_out st, sel_service st)
  | _, _ => (sel_out st, sel_service st)
  end.

Definition SelectPeers `{SortSlice scored scored_le} (o : Options) (candidates : list Peer) (now : Z) (draw : option Z) (s : SyncService) : list Peer * SyncService :=
  let '(all, s) := score_all candidates now s in
  let all := sort_slice all in
  let maxPeers := Z.min (op_MaxPeersPerRound o) (Z.of_nat (length all)) in
  let st := add_peers true maxPeers all now (mkSelection [] 0 0 ∅ ∅ s) in
  swap_last draw all now (add_peers false maxPeers all now st).

(** [SendHeads] to peers one after the other; what fails is passed over. *)
Fixpoint send_heads_all `{Ed25519} (deliver : Peer -> list Z -> bool) (su : Setup) (peers : list Peer) (syncContext : string) (now : Z) (i : nat) (draws : nat -> Draws)
    (s : SyncService) : list (Peer * list Z) * SyncService :=
  match peers with
  | [] => ([], s)
  | p :: peers' =>
      let '(_, out, s) := SendHeads deliver su p syncContext now (draws i) s in
      let '(outs, s) := send_heads_all deliver su peers' syncContext now (S i) draws s in
      (out ++ outs, s)
  end.

(** A round; some of the other candidates are sent heads too, to hide the chosen ones. *)
Definition SyncRound `{Ed25519} `{SortSlice scored scored_le} (deliver : Peer -> list Z -> bool) (su : Setup) (candidates : list Peer) (syncContext : string) (now : Z)
    (draw : option Z) (order : nat -> option Z) (draws : nat -> Draws) (s : SyncService) : list (Peer * list Z) * SyncService :=
  let o := su_opts su in
  let '(peers, s) := SelectPeers o candidates now draw s in
  let '(out, s) := send_heads_all deliver su peers syncContext now 0 draws s in
  let cover := pp_CoverPeers (op_Privacy o) in
  if (0 <? cover) && (Z.of_nat (length peers) <? Z.of_nat (length candidates)) then
    let extras := shuffle (filter (fun p => pe_ID p ∉ pe_ID <$> peers) candidates) order in
    let '(out', s) := send_heads_all deliver su (take (Z.to_nat cover) extras) syncContext now (length peers) draws s in
    (out ++ out', s)
  else (out, s).
