(* ===== verification/Messaging.v ===== *)
(** * Envelopes to a pre-key ([pkg/messaging])

    A plaintext sealed for the holder of an X25519 key, and the envelope as text.  The curve,
    the key derivation and the cipher are outside, as is [json.Unmarshal]; the laws they
    document are hypotheses of the theorems. *)

From S2P Require Import Prelude GoStr.

#[local] Open Scope string_scope.
#[local] Open Scope list_scope.
#[local] Open Scope Z_scope.

Definition EnvelopeV1 : Z := 1.

Record Envelope := mkEnvelope {
  en_Version : Z;
  en_CreatedAt : Z;
  en_ToMailbox : string;
  en_EphemeralPubB64 : string;
  en_NonceB64 : string;
  en_CiphertextB64 : string;
}.

(** [curve25519.X25519], with the base point and with a key; [hkdf] over SHA-256 to 32 bytes;
    XChaCha20-Poly1305 with key, nonce, text and additional data. *)
Class MsgCrypto := {
  mc_public : list Z -> option (list Z);
  mc_shared : list Z -> list Z -> option (list Z);
  mc_hkdf : list Z -> string -> list Z;
  mc_seal : list Z -> list Z -> list Z -> list Z -> list Z;
  mc_open : list Z -> list Z -> list Z -> list Z -> option (list Z);
}.

Class EnvelopeJSON := read_msg_envelope : list Z -> option Envelope.

Section messaging.
Context `{MsgCrypto}.

Record X25519Keypair := mkKeypair { kp_Public : list Z; kp_Private : list Z }.

(** The random bytes of a call and its clock. *)
Record seal_env := mkSealEnv {
  se_priv : option (list Z);
  se_nonce : option (list Z);
  se_clock : Z;
}.

Definition NewX25519Keypair (e : seal_env) : option X25519Keypair :=
  priv ← se_priv e; pub ← mc_public priv; Some (mkKeypair pub priv).

Definition DeriveSharedKey (senderPriv recipientPub : list Z) (info : string) : option (list Z) :=
  (fun shared => mc_hkdf shared info) <$> mc_shared senderPriv recipientPub.

Definition msg_info : string := "SUNLIONET-msg-v1".

Definition EncryptToPreKeyWithSender (plaintext senderPriv senderPub recipientPreKeyPub : list Z) (e : seal_env) : option (Envelope * list Z) :=
  key ← DeriveSharedKey senderPriv recipientPreKeyPub msg_info;
  nonce ← se_nonce e;
  let ct := mc_seal key nonce plaintext senderPub in
  Some (mkEnvelope EnvelopeV1 (Unix (se_clock e)) "" (EncodeToString senderPub) (EncodeToString nonce) (EncodeToString ct), senderPub).

Definition EncryptToPreKey (plaintext recipientPreKeyPub : list Z) (e : seal_env) : option (Envelope * list Z) :=
  sender ← NewX25519Keypair e;
  EncryptToPreKeyWithSender plaintext (kp_Private sender) (kp_Public sender) recipientPreKeyPub e.

Definition decode_size (s : string) (n : Z) : option (list Z) :=
  b ← DecodeString s; if blen b =? n then Some b else None.

Definition DecryptWithPreKey (env : Envelope) (recipientPreKeyPriv : list Z) : option (list Z * list Z) :=
  if negb (en_Version env =? EnvelopeV1) then None
  else
    ephPub ← decode_size (en_EphemeralPubB64 env) 32;
    key ← DeriveSharedKey recipientPreKeyPriv ephPub msg_info;
    nonce ← decode_size (en_NonceB64 env) 24;
    ct ← DecodeString (en_CiphertextB64 env);
    pt ← mc_open key nonce ct ephPub;
    Some (pt, ephPub).

(** ** As text *)

Definition json_envelope (e : Envelope) : list Z :=
  json_object ([("v", json_int (en_Version e)); ("created_at", json_int (en_CreatedAt e))] ++ omit_empty "to_mailbox" (en_ToMailbox e)
               ++ [("eph_pub_b64url", json_string (en_EphemeralPubB64 e)); ("nonce_b64url", json_string (en_NonceB64 e)); ("ct_b64url", json_string (en_CiphertextB64 e))]).

Definition Envelope_Encode (e : Envelope) : string := EncodeToString (json_envelope e).

Definition DecodeEnvelope `{EnvelopeJSON} (s : string) : option Envelope :=
  raw ← DecodeString s; env ← read_msg_envelope raw; if negb (en_Version env =? EnvelopeV1) then None else Some env.

(** ** What is documented of the parts outside *)

(** Keys agree from both sides; what was sealed opens; sizes. *)
Record crypto_laws : Prop := {
  law_agree : forall a b A B, mc_public a = Some A -> mc_public b = Some B -> mc_shared a B = mc_shared b A;
  law_open : forall key nonce pt aad, mc_open key nonce (mc_seal key nonce pt aad) aad = Some pt;
  law_public : forall priv pub, mc_public priv = Some pub -> blen pub = 32 /\ bytes_ok pub;
  law_seal : forall key nonce pt aad, bytes_ok pt -> bytes_ok (mc_seal key nonce pt aad) /\ blen (mc_seal key nonce pt aad) = blen pt + 16;
}.

(** Random bytes come in the size that was asked for, and the clock fits a JSON number. *)
Definition seal_env_ok (e : seal_env) : Prop :=
  (forall n, se_nonce e = Some n -> blen n = 24 /\ bytes_ok n) /\ json_range (Unix (se_clock e)).

(** Reading what [json.Marshal] wrote of an envelope. *)
Definition envelope_json_law `{EnvelopeJSON} : Prop :=
  forall at_ pub nonce ct, json_range at_ -> bytes_ok pub -> bytes_ok nonce -> bytes_ok ct ->
    let env := mkEnvelope EnvelopeV1 at_ "" (EncodeToString pub) (EncodeToString nonce) (EncodeToString ct) in read_msg_envelope (json_envelope env) = Some env.

(** ** Round trips *)

Lemma json_sealed_ok v at_ pub nonce ct : bytes_ok (json_envelope (mkEnvelope v at_ "" pub nonce ct)).
Proof. apply json_object_ok. repeat (apply Forall_cons_2; [cbn [snd]; auto with sl|]). constructor. Qed.

Lemma decode_size_encoded b n : bytes_ok b -> blen b = n -> decode_size (EncodeToString b) n = Some b.
Proof. intros Hb Hn. unfold decode_size. rewrite DecodeString_EncodeToString by done. cbn. by rewrite Hn, Z.eqb_refl. Qed.

Context `{EnvelopeJSON}.

(** What is sealed for a key, sent as text, is opened by the holder of the key. *)
Lemma envelope_roundtrip pt priv pub e env sender : crypto_laws -> envelope_json_law -> seal_env_ok e -> bytes_ok pt -> mc_public priv = Some pub ->
  EncryptToPreKey pt pub e = Some (env, sender) ->
  DecodeEnvelope (Envelope_Encode env) = Some env /\ DecryptWithPreKey env priv = Some (pt, sender).
Proof.
  intros HL HJ [Hn Hat] Hpt Hpub He. unfold EncryptToPreKey, NewX25519Keypair in He.
  destruct (se_priv e) as [sp|]; [|done]. cbn in He. destruct (mc_public sp) as [sP|] eqn:Esp; [|done]. cbn in He.
  unfold EncryptToPreKeyWithSender in He. destruct (DeriveSharedKey sp pub msg_info) as [key|] eqn:Ek; [|done]. cbn in He. destruct (se_nonce e) as [nonce|]; [|done]. cbn in He.
  injection He as <- <-. destruct (Hn nonce eq_refl) as [Hn1 Hn2]. destruct (law_public HL sp sP Esp) as [Hp1 Hp2]. destruct (law_seal HL key nonce pt sP Hpt) as [Hs1 Hs2].
  assert (DeriveSharedKey priv sP msg_info = Some key) as Ek'.
  { unfold DeriveSharedKey in *. by rewrite (law_agree HL priv sp pub sP Hpub Esp). }
  split.
  - unfold DecodeEnvelope, Envelope_Encode. rewrite DecodeString_EncodeToString by apply json_sealed_ok. cbn [mbind option_bind]. unfold envelope_json_law in HJ. by rewrite HJ.
  - unfold DecryptWithPreKey. cbn [en_Version en_EphemeralPubB64 en_NonceB64 en_CiphertextB64]. cbn [negb Z.eqb EnvelopeV1].
    rewrite !decode_size_encoded by done. cbn. rewrite Ek'. cbn. rewrite DecodeString_EncodeToString by done. cbn. by rewrite (law_open HL).
Qed.

End messaging.
