(* ===== verification/SyncRelay.v ===== *)
(** * Synchronisation over relays ([pkg/ledgersync/service.go], last part)

    Messages of events sealed for a mailbox, in layers when they go over several relays; the
    forwarding of a layer; the events published in batches; and what is pulled and applied.

    A relay is an interface: its operations on a state of its own. *)

From S2P Require Import Prelude Sha256 GoStr LedgerEvent LedgerKinds Ledger LedgerSync RelayTypes Messaging SyncWire SyncSched SyncSecurity SyncService.

#[local] Open Scope string_scope.
#[local] Open Scope list_scope.
#[local] Open Scope Z_scope.

(** [relay.Relay] *)
Class RelayOps (R : Type) := {
  relay_push : PushRequest -> R -> res relay_err string * R;
  relay_pull : PullRequest -> R -> res relay_err (list Message) * R;
  relay_ack : AckRequest -> R -> res relay_err unit * R;
}.

(** ** Layers *)

Record RelayHop := mkHop { rh_Mailbox : string; rh_PreKeyPub : list Z }.

Record relayRouteMessage := mkRoute {
  rr_SchemaVersion : Z;
  rr_NextMailbox : string;
  rr_NextEnvelope : string;
}.

Definition json_route (m : relayRouteMessage) : list Z :=
  json_object [("v", json_int (rr_SchemaVersion m)); ("next_mailbox", json_string (rr_NextMailbox m)); ("next_envelope", json_string (rr_NextEnvelope m))].

Class RouteJSON := read_route : list Z -> option relayRouteMessage.

Definition route_validate (m : relayRouteMessage) : bool :=
  (rr_SchemaVersion m =? 1) && is_ok (PullRequest_Validate (mkPull (rr_NextMailbox m) 0 0))
  && is_ok (PushRequest_Validate (mkPush (rr_NextMailbox m) (rr_NextEnvelope m) 0 0 0 "")).

Section layers.
Context `{MsgCrypto} `{EnvelopeJSON} `{RouteJSON}.

Definition EncodeForRelay (plaintext recipientPreKeyPub : list Z) (e : seal_env) : option string :=
  env ← EncryptToPreKey plaintext recipientPreKeyPub e; Some (Envelope_Encode env.1).

Definition DecodeFromRelay (envelope : string) (recipientPreKeyPriv : list Z) : option (list Z * list Z) :=
  env ← DecodeEnvelope envelope; DecryptWithPreKey env recipientPreKeyPriv.

(** The loop over the hops, the last one first; [hops] is what is left, reversed. *)
Fixpoint wrap_layers (hops : list RelayHop) (nextMailbox nextEnv : string) (es : nat -> seal_env) : option (string * string) :=
  match hops with
  | [] => Some (nextMailbox, nextEnv)
  | h :: hops' =>
      wrapped ← EncodeForRelay (json_route (mkRoute 1 nextMailbox nextEnv)) (rh_PreKeyPub h) (es (length hops'));
      wrap_layers hops' (rh_Mailbox h) wrapped es
  end.

(** Layer [i] is sealed with the randomness [es i], the innermost envelope with [es (length hops)]. *)
Definition EncodeForRelayMultiHop (plaintext : list Z) (recipientMailbox : string) (recipientPreKeyPub : list Z) (hops : list RelayHop) (es : nat -> seal_env)
    : option (string * string) :=
  env ← EncodeForRelay plaintext recipientPreKeyPub (es (length hops));
  wrap_layers (reverse hops) recipientMailbox env es.

(** What a hop reads of an envelope for its mailbox. *)
Definition open_layer (envelope : string) (hopPreKeyPriv : list Z) : option relayRouteMessage :=
  x ← DecodeFromRelay envelope hopPreKeyPriv; m ← read_route x.1; if route_validate m then Some m else None.

(** [d.Round(time.Second).Seconds()], at most an hour. *)
Definition delay_seconds (delayMax : Duration) (draw : option Z) : Z :=
  if 0 <? delayMax then
    let d := randDuration draw delayMax in
    if Second <=? d then at_most 3600 ((d + Second / 2) / Second) else 0
  else 0.

Context {R : Type} `{RelayOps R}.

(** One pass over the messages of a mailbox: how many were forwarded, and what to acknowledge. *)
Fixpoint forward_all (hopPreKeyPriv : list Z) (draws : nat -> option Z) (delayMax : Duration) (ttlSec powBits : Z) (i : nat) (msgs : list Message) (r : R)
    : Z * list string * R :=
  match msgs with
  | [] => (0, [], r)
  | msg :: msgs' =>
      match open_layer (m_Envelope msg) hopPreKeyPriv with
      | None => forward_all hopPreKeyPriv draws delayMax ttlSec powBits (S i) msgs' r
      | Some m =>
          match relay_push (mkPush (rr_NextMailbox m) (rr_NextEnvelope m) ttlSec (delay_seconds delayMax (draws i)) powBits "") r with
          | (Err _, r) => forward_all hopPreKeyPriv draws delayMax ttlSec powBits (S i) msgs' r
          | (Ok _, r) =>
              let '(n, ids, r) := forward_all hopPreKeyPriv draws delayMax ttlSec powBits (S i) msgs' r in
              (n + 1, m_ID msg :: ids, r)
          end
      end
  end.

Definition pull_limit (limit : Z) : Z := at_most 200 (if_le0 50 limit).

Definition ack_all (mailbox : string) (ids : list string) (r : R) : R :=
  match ids with [] => r | _ => (relay_ack (mkAck mailbox ids) r).2 end.

Definition ForwardRelayOnce (mailbox : string) (hopPreKeyPriv : list Z) (limit : Z) (ack : bool) (draws : nat -> option Z) (delayMax : Duration)
    (ttlSec powBits : Z) (r : R) : res relay_err (Z * Z) * R :=
  match relay_pull (mkPull mailbox (pull_limit limit) 0) r with
  | (Err e, r) => (Err e, r)
  | (Ok msgs, r) =>
      let '(n, ids, r) := forward_all hopPreKeyPriv draws delayMax ttlSec powBits 0 msgs r in
      (Ok (n, Z.of_nat (length msgs)), if ack then ack_all mailbox ids r else r)
  end.

End layers.

(** ** Publishing *)

Inductive publish_err := PContextNotAllowed | PNoRandomness | PTooLarge | PNotSealed | PRelay (e : relay_err).

Definition relayPlainMax : Z := 120 * 1024.

(** [ledgerMsgMax] *)
Definition relay_message_max (o : Options) : Z := if_le0 relayPlainMax (at_most relayPlainMax (op_MaxEventsMessageBytes o)).

Section publish.
Context `{Ed25519} {R : Type} `{RelayOps R}.
Context (su : Setup).
(** How a plaintext becomes a mailbox and an envelope: [EncodeForRelay] or
    [EncodeForRelayMultiHop] in batch [i]; the noise that pads batch [i]. *)
Context (encode : nat -> list Z -> option (string * string)) (fill : nat -> Z -> option (list Z)).

Let o : Options := su_opts su.

(** The batches: how many events were sent when it ends, with an error or not. *)
Fixpoint publish_batches (batches i : nat) (sid ctx : string) (ttlSec powBits : Z) (l : Ledger) (pending : list string) (r : R) : Z * option publish_err * R :=
  match batches with
  | O => (0, None, r)
  | S batches' =>
      let pending := filterOutgoingIDs su pending ctx l in
      match pending with
      | [] => (0, None, r)
      | _ =>
          let msg := BuildEventsMessageBounded pending (event_limits su (relay_message_max o)) l in
          match em_Events msg with
          | [] => (0, None, r)
          | evs =>
              let pt := encodeWire "events" sid ctx (json_events msg) in
              let bucket := pp_PaddingBucketBytes (op_Privacy o) in
              let pt := if 0 <? bucket then default pt (padPlaintext pt bucket (fill i)) else pt in
              if relayPlainMax <? blen pt then (0, Some PTooLarge, r)
              else
                match encode i pt with
                | None => (0, Some PNotSealed, r)
                | Some (mailbox, env) =>
                    match relay_push (mkPush mailbox env ttlSec 0 powBits "") r with
                    | (Err e, r) => (0, Some (PRelay e), r)
                    | (Ok _, r) =>
                        let kept := filter (fun id => id ∉ ID <$> evs) pending in
                        let '(n, err, r) := publish_batches batches' (S i) sid ctx ttlSec powBits l kept r in
                        (Z.of_nat (length evs) + n, err, r)
                    end
                end
          end
      end
  end.

Definition publish (sid : option (list Z)) (syncContext : string) (want : list string) (ttlSec powBits : Z) (l : Ledger) (r : R) : Z * option publish_err * R :=
  if negb (allow_context o syncContext) then (0, Some PContextNotAllowed, r)
  else
    match want, newSessionID sid with
    | [], _ => (0, None, r)
    | _, None => (0, Some PNoRandomness, r)
    | _, Some sid => publish_batches 8 0 sid syncContext ttlSec powBits l want r
    end.

End publish.

Section publishing.
Context `{Ed25519} `{MsgCrypto} {R : Type} `{RelayOps R}.

Definition PublishEventsToRelay (su : Setup) (mailbox : string) (recipientPreKeyPub : list Z) (es : nat -> seal_env) (fill : nat -> Z -> option (list Z))
    (sid : option (list Z)) (syncContext : string) (want : list string) (ttlSec powBits : Z) (l : Ledger) (r : R) : Z * option publish_err * R :=
  publish su (fun i pt => (fun env => (mailbox, env)) <$> EncodeForRelay pt recipientPreKeyPub (es i)) fill sid syncContext want ttlSec powBits l r.

Definition PublishEventsToRelayMultiHop (su : Setup) (hops : list RelayHop) (recipientMailbox : string) (recipientPreKeyPub : list Z)
    (es : nat -> nat -> seal_env) (fill : nat -> Z -> option (list Z)) (sid : option (list Z)) (syncContext : string) (want : list string) (ttlSec powBits : Z)
    (l : Ledger) (r : R) : Z * option publish_err * R :=
  publish su (fun i pt => EncodeForRelayMultiHop pt recipientMailbox recipientPreKeyPub hops (es i)) fill sid syncContext want ttlSec powBits l r.

End publishing.

(** ** Pulling *)

Section pulling.
Context `{Ed25519} `{PayloadJSON} `{WireJSON} `{SortSlice (string * Z) (le_by snd)} `{MsgCrypto} `{EnvelopeJSON} {R : Type} `{RelayOps R}.
Context (deliver : Peer -> list Z -> bool) (finish : list Event -> list Event) (fuel : nat) (su : Setup).

Let o : Options := su_opts su.

(** One message: whether it is to be acknowledged, how many events were dropped, the service. *)
Definition take_in (peerID : string) (now : Z) (ack : bool) (pt : list Z) (s : SyncService) : bool * Z * SyncService :=
  let '(ok, s) := allowInbound o peerID (blen pt) now s in
  if negb ok then (false, 0, s)
  else
    let upt := (unpadPlaintext pt).1 in
    let mid := msgIDFromPlaintext upt in
    let '(seen, s) := alreadySeenMsg peerID mid now s in
    let acked s := if ack then (true, 0, (seenMsg su peerID mid now s).2) else (false, 0, s) in
    if seen then (ack, 0, s)
    else
      match decodeWire upt with
      | None => acked s
      | Some w =>
          if negb (allow_context o (wi_Context w)) then acked s
          else
            let '(decision, x) := ObserveInbound peerID PeerRoleRelay (wi_Type w) (blen pt) now (sv_security s) in
            let s := with_security x s in
            match decision with
            | DecisionReject | DecisionDefer => (false, 0, s)
            | DecisionAccept =>
                if negb (bool_decide (wi_Type w = "events")) then (false, 0, s)
                else
                  match read_events (wi_Body w) with
                  | None => acked s
                  | Some em =>
                      if negb (em_SchemaVersion em =? SyncSchemaV1) then acked s
                      else
                        let '(enq, dropped, s) := admit_events su peerID PeerRoleRelay w (relay_message_max o) em s in
                        if enq =? 0 then (false, dropped, count_deferred 1 s)
                        else if ack then (true, dropped, (seenMsg su peerID mid now s).2) else (false, dropped, s)
                  end
            end
      end.

Fixpoint take_all (peerID : string) (now : Z) (ack : bool) (priv : list Z) (msgs : list Message) (s : SyncService) : list string * Z * SyncService :=
  match msgs with
  | [] => ([], 0, s)
  | msg :: msgs' =>
      match DecodeFromRelay (m_Envelope msg) priv with
      | None => take_all peerID now ack priv msgs' s
      | Some (pt, _) =>
          let '(acked, dropped, s) := take_in peerID now ack pt s in
          let '(ids, n, s) := take_all peerID now ack priv msgs' s in
          (if acked then m_ID msg :: ids else ids, dropped + n, s)
      end
  end.

Definition PullAndApplyFromRelay (mailbox : string) (recipientPreKeyPriv : list Z) (limit : Z) (ack : bool) (clock : nat -> Z) (d : Draws) (r : R) (s : SyncService)
    : option (res relay_err (ApplyReport * Z) * list (Peer * list Z) * R * SyncService) :=
  match relay_pull (mkPull mailbox (pull_limit limit) 0) r with
  | (Err e, r) => Some (Err e, [], r, s)
  | (Ok msgs, r) =>
      let now := clock 0%nat in
      let peerID := ("relay:" ++ mailbox)%string in
      let s := setPeerRole peerID PeerRoleRelay now s in
      let '(ids, dropped, s) := take_all peerID now ack recipientPreKeyPriv msgs s in
      match drainInbound deliver finish fuel su (op_SchedulerDrainAfterRelay o) clock d s with
      | None => None
      | Some (rp, sent, s) =>
          Some (Ok (mkReport (Applied rp) (Dupe rp) (Rejected rp + dropped), Z.of_nat (length msgs)), sent, if ack then ack_all mailbox ids r else r, s)
      end
  end.

End pulling.
