(* ===== verification/SyncServiceSpec.v ===== *)
(** * What the synchronisation service keeps

    Whatever peers send: the ledger stays one that valid applications reach, the limits on a
    peer hold, what goes out may go out, and peers that are shut out get nothing. *)

From S2P Require Import Prelude Sha256 GoStr LedgerEvent LedgerKinds Ledger LedgerInv LedgerReach LedgerTrust LedgerSync LedgerSyncSpec LedgerAgree.
From S2P Require Import RelayTypes Messaging SyncWire SyncSched SyncSchedSpec SyncSecurity SyncSecuritySpec SyncService SyncRelay.

#[local] Set Warnings "-clear-no-such-hyp".
#[local] Open Scope string_scope.
#[local] Open Scope list_scope.
#[local] Open Scope Z_scope.

(** ** The optimised application as a run *)

Section runs.
Context `{Ed25519} `{PayloadJSON}.
Context (finish : list Event -> list Event).
Hypothesis finish_sub : forall evs, finish evs ⊆ evs.
Hypothesis lengths : verify_checks_length.

(** Operations that check what they store and prune nothing. *)
Definition clean (op : LedgerReach.op) : Prop := prunes op = false /\ trusts_caller op = false.

Definition reaches (l l' : Ledger) : Prop := exists ops, Forall clean ops /\ l' = run ops l.

Lemma reaches_refl l : reaches l l.
Proof. exists []. by split. Qed.

Lemma reaches_step op l : clean op -> reaches l (step op l).
Proof. intros Hc. exists [op]. split; [by apply Forall_singleton|done]. Qed.

Lemma reaches_trans l1 l2 l3 : reaches l1 l2 -> reaches l2 l3 -> reaches l1 l3.
Proof.
  intros (a & Ha & ->) (b & Hb & ->). exists (a ++ b). split; [by apply Forall_app|]. unfold run. by rewrite fold_left_app.
Qed.

Definition mark_sound (em : Event * mark) : Prop :=
  match em.2 with Dropped => True | Cached => Verify em.1 = Ok tt | Pending hash => bound em.1 /\ hash = unsignedHash em.1 end.

Lemma precheck_one_sound p clock l ev rep c : cache_ok c ->
  mark_sound (ev, (precheck_one p clock l ev rep c).1.1) /\ cache_ok (precheck_one p clock l ev rep c).2.
Proof.
  intros Hc. unfold precheck_one. destruct (Have (ID ev) l); [done|]. destruct (validateWithPolicyNoCrypto ev p clock) as [hash|e] eqn:En; [|done].
  assert (hash = unsignedHash ev /\ is_ok (AuthorPublicKey ev) = true) as [-> Hk].
  { unfold validateWithPolicyNoCrypto in En. destruct (ValidateNoCrypto ev) eqn:Ev; [|done]. destruct (policyChecks _ _ _); [|done].
    injection En as <-. split; [done|]. unfold ValidateNoCrypto in Ev. repeat (case_match; [done|]). by destruct (AuthorPublicKey ev). }
  destruct (bool_decide_reflect (ID ev = EncodeToString (unsignedHash ev))) as [Hb|Hb]; [|done]. cbn [negb].
  pose proof (match_opt_ok c ev clock Hc) as Hc'. pose proof (match_opt_sound c ev clock Hc Hb Hk) as Hhit. destruct (match_opt c ev clock) as [hit c1].
  cbn [fst snd] in *. split; [|done]. destruct hit; [|done]. apply verify_task_spec; [done|done|]. by apply Hhit.
Qed.

Lemma precheck_sound m p clock l evs used seen rep c : cache_ok c ->
  let r := precheck m p clock l evs used seen rep c in
  cache_ok r.2 /\ forall ks, r.1.1 = Ok ks -> Forall mark_sound (zip evs ks).
Proof.
  revert used seen rep c. induction evs as [|ev evs IH]; intros used seen rep c Hc; cbn [precheck]; [split; [done|intros ks [= <-]; constructor]|].
  assert (forall k used seen rep c, cache_ok c -> mark_sound (ev, k) ->
    let r := match precheck m p clock l evs used seen rep c with (Ok ks, rep, c) => (Ok (k :: ks), rep, c) | failed => failed end in
    cache_ok r.2 /\ forall ks, r.1.1 = Ok ks -> Forall mark_sound (zip (ev :: evs) ks)) as Hon.
  { intros k used' seen' rep' c' Hc' Hk. destruct (IH used' seen' rep' c' Hc') as [I1 I2]. destruct (precheck m p clock l evs used' seen' rep' c') as [[[ks|e] rep1] c1]; cbn [fst snd] in *.
    - split; [done|]. intros ks' [= <-]. constructor; [done|by apply I2].
    - split; [done|]. by intros. }
  destruct (maxEventBytes m <? _); [by apply Hon|]. destruct (maxMessageBytes m <? _); [done|]. destruct (is_empty _); [by apply Hon|].
  case_bool_decide; [by apply Hon|]. pose proof (precheck_one_sound p clock l ev rep c Hc) as [Hk Hc']. destruct (precheck_one p clock l ev rep c) as [[k rep'] c']. by apply Hon.
Qed.

Lemma apply_marked_reaches context pol observer clock em s : mark_sound em -> reaches s.2 (apply_marked context pol observer clock em s).2.
Proof.
  intros Hm. unfold apply_marked, mark_sound in *. assert (Verify em.1 = Ok tt -> reaches s.2 (ApplyVerifiedWithContext em.1 context pol observer clock s.2).2) as Happ.
  { intros Hv. rewrite verified_application_agrees by done. by apply (reaches_step (OpApply em.1 context pol observer clock)). }
  destruct (ApplyVerifiedWithContext em.1 context pol observer clock s.2) as [r l]. destruct (em.2) as [| |hash]; [apply reaches_refl|by apply Happ|].
  destruct Hm as [Hb ->]. destruct (verify_task _ _) eqn:Ev; [|apply reaches_refl]. apply Happ. by apply verify_task_spec.
Qed.

Lemma marks_reach context pol observer clock zs s : Forall mark_sound zs -> reaches s.2 (fold_left (fun s em => apply_marked context pol observer clock em s) zs s).2.
Proof.
  revert s. induction zs as [|em zs IH]; intros s Hf; [apply reaches_refl|]. apply Forall_cons in Hf as [Hm Hf]. cbn [fold_left].
  eapply reaches_trans; [|by apply IH]. by apply apply_marked_reaches.
Qed.

Lemma optimized_reaches msg context pol observer m c clock l : cache_ok c ->
  let r := ApplyEventsMessageBoundedOptimized finish msg context pol observer m c clock l in reaches l r.1.2.2 /\ cache_ok r.2.
Proof.
  intros Hc. unfold ApplyEventsMessageBoundedOptimized. destruct (negb _); [split; [apply reaches_refl|done]|]. destruct (maxEvents _ <? _); [split; [apply reaches_refl|done]|].
  set (evs := orderEvents (em_Events msg)). destruct (precheck_sound (norm_limits m) (default DefaultPolicy pol) clock l evs 0 [] no_report c Hc) as [P1 P2].
  destruct (precheck _ _ _ _ _ _ _ _ _) as [[[ks|e] rep] c1]; cbn [fst snd] in *; [|split; [apply reaches_refl|done]].
  specialize (P2 ks eq_refl). split; [by apply (marks_reach _ _ _ _ _ (rep, l))|]. apply puts_ok; [|done]. intros ev Hev%finish_sub.
  eapply verified_checked; [|exact Hev]. eapply Forall_impl; [exact P2|]. intros em Hm hash E. unfold mark_sound in Hm. by rewrite E in Hm.
Qed.

End runs.

(** ** What every operation keeps *)

Section kept.
Context `{EdI : Ed25519} `{PjI : PayloadJSON} `{WjI : WireJSON} `{SsI : SortSlice (string * Z) (le_by snd)}.
Context (deliver : Peer -> list Z -> bool) (range : gset string -> list string) (finish : list Event -> list Event) (fuel : nat) (su : Setup).
Hypothesis finish_sub : forall evs, finish evs ⊆ evs.
Hypothesis lengths : verify_checks_length.

Let o : Options := su_opts su.

Definition parts_ok (s : SyncService) : Prop :=
  cache_ok (Some (sv_verifyCache s)) /\ sched_ok (sv_scheduler s)
  /\ 0 < sp_QuarantineBase (sl_policy (sv_security s)) <= sp_QuarantineMax (sl_policy (sv_security s)).

(** From a service whose parts are well-formed, a service of the kind whose ledger valid
    applications reach. *)
Definition keeps (s s' : SyncService) : Prop := parts_ok s -> parts_ok s' /\ reaches (sv_ledger s) (sv_ledger s').

Lemma keeps_refl s : keeps s s.
Proof. intros Hs. split; [done|apply reaches_refl]. Qed.

Lemma keeps_trans s1 s2 s3 : keeps s1 s2 -> keeps s2 s3 -> keeps s1 s3.
Proof. intros A B [H1 R1]%A. destruct (B H1) as [H2 R2]. split; [done|by eapply reaches_trans]. Qed.

Lemma keeps_same s s' : sv_ledger s' = sv_ledger s -> sv_security s' = sv_security s -> sv_verifyCache s' = sv_verifyCache s -> sv_scheduler s' = sv_scheduler s -> keeps s s'.
Proof. intros E1 E2 E3 E4 Hs. unfold parts_ok. rewrite E1, E2, E3, E4. split; [done|apply reaches_refl]. Qed.

Lemma keeps_security op now s : keeps s (with_security (sec_step op now (sv_security s)) s).
Proof.
  intros (H1 & H2 & H3). split; [|apply reaches_refl]. split_and!; [done|done|..]; cbn [with_security sv_security];
    destruct (sec_step_touches op now (sv_security s) H3) as [-> _]; lia.
Qed.

Lemma keeps_ledger op s : clean op -> keeps s (with_ledger (LedgerReach.step op (sv_ledger s)) s).
Proof. intros Hc Hs. split; [done|]. by apply reaches_step. Qed.

#[local] Hint Resolve keeps_refl : core.
#[local] Hint Extern 1 (keeps ?s (put_peer _ _ ?s)) => apply keeps_same : core.
#[local] Hint Extern 1 (keeps ?s (count_refused _ ?s)) => apply keeps_same : core.
#[local] Hint Extern 1 (keeps ?s (count_deferred _ ?s)) => apply keeps_same : core.
#[local] Hint Extern 1 (keeps ?s (count_duplicate _ ?s)) => apply keeps_same : core.
#[local] Hint Extern 1 (keeps ?s (count_quarantined _ ?s)) => apply keeps_same : core.

Lemma put_off_keeps s : keeps s (put_off s).2.
Proof. by apply keeps_same. Qed.

Lemma seenMsg_keeps peerID mid now s : keeps s (seenMsg su peerID mid now s).2.
Proof. unfold seenMsg. case_match; by apply keeps_same. Qed.

Lemma alreadySeenMsg_keeps peerID mid now s : keeps s (alreadySeenMsg peerID mid now s).2.
Proof. by apply keeps_same. Qed.

Lemma allowInbound_keeps peerID size now s : keeps s (allowInbound o peerID size now s).2.
Proof. unfold allowInbound. destruct (count_inbound _ _ _ _). by apply keeps_same. Qed.

Lemma notePeer_keeps id pub now s : keeps s (notePeerMeshPub id pub now s).
Proof. unfold notePeerMeshPub. destruct (is_blank id); by apply keeps_same. Qed.

Lemma setPeerRole_keeps id role now s : keeps s (setPeerRole id role now s).
Proof.
  unfold setPeerRole. destruct (is_blank id); [done|]. set (s1 := put_peer _ _ s). destruct (is_empty role); [by apply keeps_same|].
  eapply keeps_trans; [by apply (keeps_same s s1)|]. exact (keeps_security (SecRole id role) now s1).
Qed.

Lemma SendHeads_keeps peer ctx now d s : keeps s (SendHeads deliver su peer ctx now d s).2.
Proof.
  unfold SendHeads. destruct (negb _); [done|]. destruct (newSessionID _); [|done]. destruct (sendMesh _ _ _ _ _) as [ok out]. cbn [snd].
  eapply keeps_trans; [apply notePeer_keeps|apply setPeerRole_keeps].
Qed.

Lemma enqueue_part_ok peerID role ctx maxBytes cls msg sc : sched_ok sc.2 -> sched_ok (enqueue_part peerID role ctx maxBytes cls msg sc).2.
Proof.
  intros Hs. unfold enqueue_part. destruct (em_Events msg); [done|]. pose proof (Enqueue_ok peerID cls (mkSchedItem "" role ctx msg maxBytes) sc.2 Hs) as He.
  by destruct (Enqueue _ _ _ _).
Qed.

Lemma admit_keeps peerID role w maxBytes em s : keeps s (admit_events su peerID role w maxBytes em s).2.
Proof.
  unfold admit_events. destruct (filterIncomingEvents su em (wi_Context w)) as [em' dropped]. set (s1 := if 0 <? dropped then count_refused dropped s else s).
  assert (keeps s s1) as H1 by (subst s1; destruct (0 <? dropped); auto).
  destruct (enqueue_parts _ _ _ _ _ _) as [enq x] eqn:E. cbn [snd]. eapply keeps_trans; [exact H1|]. intros (P1 & P2 & P3). split; [|apply reaches_refl]. split_and!; [done| |apply P3|apply P3].
  cbn [with_scheduler sv_scheduler]. replace x with (enqueue_parts peerID role (wi_Context w) maxBytes em' (sv_scheduler s1)).2 by (by rewrite E).
  unfold enqueue_parts. destruct (splitEventsByPriority em') as [[cm nm] bm]. by do 3 apply enqueue_part_ok.
Qed.

Lemma apply_item_keeps it now round d s rp sent s' : apply_item deliver finish fuel su it now round d s = Some (rp, sent, s') -> keeps s s'.
Proof.
  unfold apply_item. set (observes := match su_observer su with Some _ => _ | None => _ end). set (lim := event_limits _ _).
  pose proof (optimized_reaches finish finish_sub lengths (si_msg it) (si_context it) (su_policy su) (su_observer su) lim (Some (sv_verifyCache s)) now (sv_ledger s)) as Hopt.
  destruct (ApplyEventsMessageBoundedOptimized _ _ _ _ _ _ _ _ _) as [[r [rp1 l]] c]. cbn [fst snd] in Hopt.
  set (s1 := with_cache _ _). destruct (match observes with Some _ => _ | None => _ end) as [sent1|]; [|done]. intros [= <- <- <-].
  assert (keeps s s1) as H1.
  { intros (P1 & P2 & P3). destruct (Hopt P1) as [R1 R2]. split; [|exact R1]. split_and!; [|done|apply P3|apply P3]. destruct c; [exact R2|exact P1]. }
  set (s2 := if 0 <? Dupe rp1 then count_duplicate (Dupe rp1) s1 else s1). assert (keeps s s2) as H2 by (eapply keeps_trans; [exact H1|]; subst s2; destruct (0 <? Dupe rp1); auto).
  set (s3 := if 0 <? Rejected rp1 then (_ : SyncService) else _). assert (keeps s s3) as H3.
  { eapply keeps_trans; [exact H2|]. subst s3. destruct (0 <? Rejected rp1); [|done]. eapply keeps_trans; [by apply (keeps_same s2 (count_refused (Rejected rp1) s2))|].
    pose proof (keeps_security (SecTier (si_peerID it)) now (count_refused (Rejected rp1) s2)) as Hk. cbn [sec_step] in Hk.
    destruct (TrustTier_of _ _ _) as [tier x]. cbn [snd] in Hk. case_bool_decide; [|exact Hk]. eapply keeps_trans; [exact Hk|]. by apply keeps_same. }
  eapply keeps_trans; [exact H3|]. exact (keeps_security (SecReport (si_peerID it) (si_role it) rp1) now s3).
Qed.

Lemma drain_keeps rounds i clock d s rp sent s' : drain deliver finish fuel su rounds i clock d s = Some (rp, sent, s') -> keeps s s'.
Proof.
  revert i s rp sent s'. induction rounds as [|rounds IH]; intros i s rp sent s'; cbn [drain]; [intros [= _ _ <-]; done|].
  assert (keeps s (with_scheduler (next (sv_scheduler s)).2 s)) as Hn.
  { intros (P1 & P2 & P3). split; [|apply reaches_refl]. split_and!; [done|by apply next_ok|apply P3|apply P3]. }
  unfold next in Hn.
  destruct (Next (sv_scheduler s)) as [[[it|] x]|] eqn:En; [|intros [= _ _ <-]; exact Hn|done]. cbn [default from_option snd] in Hn.
  destruct (apply_item _ _ _ _ _ _ _ _ _) as [[[rp1 sent1] s1]|] eqn:E1; [|done]. destruct (drain _ _ _ _ _ _ _ _ _) as [[[rp2 sent2] s2]|] eqn:E2; [|done]. intros [= _ _ <-].
  eapply keeps_trans; [exact Hn|]. eapply keeps_trans; [by eapply apply_item_keeps|by eapply IH].
Qed.

Lemma turn_down_keeps peerID now mark s : (forall s, keeps s (mark s)) -> keeps s (turn_down peerID now mark s).2.
Proof.
  intros Hm. unfold turn_down. eapply keeps_trans; [by apply (keeps_same s (count_refused 1 s))|].
  pose proof (keeps_security (SecTier peerID) now (count_refused 1 s)) as Hk. cbn [sec_step] in Hk. destruct (TrustTier_of _ _ _) as [tier x]. cbn [snd quiet] in *.
  eapply keeps_trans; [exact Hk|]. eapply keeps_trans; [|apply Hm]. case_bool_decide; auto.
Qed.

Lemma answer_keeps from reply d mark s : (forall s, keeps s (mark s)) -> keeps s (answer deliver su from reply d mark s).2.
Proof. intros Hm. unfold answer. destruct (sendMesh _ _ _ _ _) as [[] out]; [apply Hm|done]. Qed.

Lemma on_heads_keeps from w d mark s : (forall s, keeps s (mark s)) -> keeps s (on_heads deliver range su from w d mark s).2.
Proof. intros Hm. unfold on_heads. destruct (read_heads _); [|apply Hm]. destruct (negb _); [apply Hm|by apply answer_keeps]. Qed.

Lemma on_want_keeps from w now d mark s : (forall s, keeps s (mark s)) -> keeps s (on_want deliver su from w now d mark s).2.
Proof.
  intros Hm. unfold on_want. destruct (read_want _) as [want|]; [|apply Hm]. destruct (negb _); [apply Hm|].
  pose proof (keeps_security (SecWant (pe_ID from) (pe_Role from) want) now s) as Hk. cbn [sec_step] in Hk. destruct (ObserveWant _ _ _ _ _) as [decision x]. cbn [snd] in Hk.
  eapply keeps_trans; [exact Hk|]. destruct decision; [by apply answer_keeps|by apply turn_down_keeps|]. apply put_off_keeps.
Qed.

Lemma on_inventory_keeps from w now d mark s : (forall s, keeps s (mark s)) -> keeps s (on_inventory deliver su from w now d mark s).2.
Proof.
  intros Hm. unfold on_inventory. destruct (read_inventory _) as [inv|]; [|apply Hm]. destruct (negb _); [apply Hm|].
  pose proof (keeps_security (SecInventory (pe_ID from) (pe_Role from) inv) now s) as Hk. cbn [sec_step] in Hk. destruct (ObserveInventory _ _ _ _ _) as [decision x]. cbn [snd] in Hk.
  eapply keeps_trans; [exact Hk|]. set (s1 := with_security x s). destruct decision; [by apply answer_keeps|by apply turn_down_keeps|].
  set (s2 := match su_observer su with Some _ => (_ : SyncService) | None => s1 end). assert (keeps s1 s2) as H2; [|eapply keeps_trans; [exact H2|apply put_off_keeps]].
  subst s2. destruct (su_observer su) as [obs|] eqn:Eo; [|done]. pose proof (keeps_security (SecClusterPeers inv) now s1) as Hc. cbn [sec_step] in Hc.
  destruct (InventoryClusterPeers _ _ _) as [peers y]. cbn [snd] in Hc. destruct (_ && _); [|exact Hc]. eapply keeps_trans; [exact Hc|].
  by apply (keeps_ledger (OpSybil (wi_Context w) peers "inventory_cluster" (su_policy su) (Some obs) now)).
Qed.

Lemma on_events_keeps from w clock d mark s r : (forall s, keeps s (mark s)) -> on_events deliver finish fuel su from w clock d mark s = Some r -> keeps s r.2.
Proof.
  intros Hm. unfold on_events. destruct (read_events _) as [em|]; [|intros [= <-]; apply Hm]. destruct (negb _); [intros [= <-]; apply Hm|].
  pose proof (admit_keeps (pe_ID from) (pe_Role from) w (op_MaxEventsMessageBytes (su_opts su)) em s) as Ha. destruct (admit_events _ _ _ _ _ _ _) as [[enq dropped] s1]. cbn [snd] in Ha.
  destruct (enq =? 0); [intros [= <-]; eapply keeps_trans; [exact Ha|]; apply put_off_keeps|].
  unfold drainInbound. destruct (drain _ _ _ _ _ _ _ _ _) as [[[rep sent] s2]|] eqn:E; [|done]. intros [= <-]. cbn [snd].
  eapply keeps_trans; [exact Ha|]. eapply keeps_trans; [by eapply drain_keeps|apply Hm].
Qed.

Lemma ReceiveOnce_keeps input clock d s r : ReceiveOnce deliver range finish fuel su input clock d s = Some r -> keeps s r.2.
Proof.
  unfold ReceiveOnce. destruct input as [pub pt]. set (peerID := peerIDFromMeshPub pub). set (now := clock 0%nat). set (s0 := notePeerMeshPub peerID pub now s).
  assert (keeps s s0) as H0 by apply notePeer_keeps. set (role := peerRole peerID s0). pose proof (allowInbound_keeps peerID (blen pt) now s0) as H1. unfold o in H1.
  destruct (allowInbound _ _ _ _ _) as [ok s1]. cbn [snd] in H1. pose proof (keeps_trans _ _ _ H0 H1) as K1. clear H0 H1.
  destruct (negb ok); [intros [= <-]; eapply keeps_trans; [exact K1|]; by apply keeps_same|]. set (upt := (unpadPlaintext pt).1). set (mid := msgIDFromPlaintext upt).
  pose proof (alreadySeenMsg_keeps peerID mid now s1) as H2. destruct (alreadySeenMsg _ _ _ _) as [seen s2]. cbn [snd] in H2. pose proof (keeps_trans _ _ _ K1 H2) as K2. clear K1 H2.
  destruct seen; [intros [= <-]; eapply keeps_trans; [exact K2|]; by apply keeps_same|]. set (s3 := TouchPeer peerID now s2).
  assert (keeps s s3) as K3 by (eapply keeps_trans; [exact K2|]; by apply keeps_same). clear K2.
  assert (forall s, keeps s (seenMsg su peerID mid now s).2) as Hm by (intros; apply seenMsg_keeps).
  assert (forall s', keeps s s' -> keeps s (seenMsg su peerID mid now s').2) as Hq by (intros s' Hs'; eapply keeps_trans; [exact Hs'|apply Hm]).
  destruct (decodeWire upt) as [w|]; [|intros [= <-]; by apply Hq]. destruct (negb _); [intros [= <-]; by apply Hq|].
  pose proof (keeps_security (SecInbound peerID role (wi_Type w) (blen pt)) now s3) as H4. cbn [sec_step] in H4. destruct (ObserveInbound _ _ _ _ _ _) as [decision x]. cbn [snd] in H4.
  pose proof (keeps_trans _ _ _ K3 H4) as K4. clear K3 H4. set (s4 := with_security x s3) in *.
  destruct decision; [|intros [= <-]; eapply keeps_trans; [exact K4|by apply turn_down_keeps]|intros [= <-]; eapply keeps_trans; [exact K4|]; apply put_off_keeps].
  case_bool_decide; [intros [= <-]; eapply keeps_trans; [exact K4|by apply on_heads_keeps]|]. case_bool_decide; [intros [= <-]; eapply keeps_trans; [exact K4|by apply on_inventory_keeps]|].
  case_bool_decide; [intros [= <-]; eapply keeps_trans; [exact K4|by apply on_want_keeps]|]. case_bool_decide; [|intros [= <-]; by apply Hq].
  intros Hr. eapply keeps_trans; [exact K4|eapply on_events_keeps; [exact Hm|exact Hr]].
Qed.

Lemma TryApply_keeps peerID plaintext clock d s b rep sent s' :
  TryApplyWirePlaintext deliver finish fuel su peerID plaintext clock d s = Some (b, rep, sent, s') -> keeps s s'.
Proof.
  unfold TryApplyWirePlaintext. set (id := peer_key peerID). set (now := clock 0%nat). set (role := if HasPrefix id "relay:" then PeerRoleRelay else PeerRoleNormal).
  set (s0 := setPeerRole id role now s). assert (keeps s s0) as H0 by apply setPeerRole_keeps.
  pose proof (allowInbound_keeps id (blen plaintext) now s0) as H1. unfold o in H1. destruct (allowInbound _ _ _ _ _) as [ok s1]. cbn [snd] in H1.
  pose proof (keeps_trans _ _ _ H0 H1) as K1. clear H0 H1. destruct (negb ok); [intros [= _ _ _ <-]; eapply keeps_trans; [exact K1|]; by apply keeps_same|].
  set (upt := (unpadPlaintext plaintext).1). pose proof (seenMsg_keeps id (msgIDFromPlaintext upt) now s1) as H2. destruct (seenMsg _ _ _ _ _) as [seen s2]. cbn [snd] in H2.
  pose proof (keeps_trans _ _ _ K1 H2) as K2. clear K1 H2. destruct seen; [intros [= _ _ _ <-]; eapply keeps_trans; [exact K2|]; by apply keeps_same|].
  set (s3 := TouchPeer id now s2). assert (keeps s s3) as K3 by (eapply keeps_trans; [exact K2|]; by apply keeps_same). clear K2.
  destruct (decodeWire upt) as [w|]; [|intros [= _ _ _ <-]; exact K3]. destruct (negb _); [intros [= _ _ _ <-]; exact K3|]. destruct (negb _); [intros [= _ _ _ <-]; exact K3|].
  pose proof (keeps_security (SecInbound id role (wi_Type w) (blen plaintext)) now s3) as H4. cbn [sec_step] in H4. destruct (ObserveInbound _ _ _ _ _ _) as [decision x]. cbn [snd] in H4.
  pose proof (keeps_trans _ _ _ K3 H4) as K4. clear K3 H4. set (s4 := with_security x s3) in *.
  destruct decision; [|intros [= _ _ _ <-]; eapply keeps_trans; [exact K4|]; by apply turn_down_keeps|intros [= _ _ _ <-]; eapply keeps_trans; [exact K4|apply put_off_keeps]].
  destruct (read_events _) as [em|]; [|intros [= _ _ _ <-]; exact K4]. destruct (negb _); [intros [= _ _ _ <-]; exact K4|].
  pose proof (admit_keeps id role w (op_MaxEventsMessageBytes (su_opts su)) em s4) as Ha. destruct (admit_events _ _ _ _ _ _ _) as [[enq dropped] s5]. cbn [snd] in Ha.
  pose proof (keeps_trans _ _ _ K4 Ha) as K5. destruct (enq =? 0); [intros [= _ _ _ <-]; eapply keeps_trans; [exact K5|apply put_off_keeps]|].
  unfold drainInbound. destruct (drain _ _ _ _ _ _ _ _ _) as [[[rep1 sent1] s6]|] eqn:E; [|done]. intros [= _ _ _ <-]. eapply keeps_trans; [exact K5|by eapply drain_keeps].
Qed.

Lemma take_in_keeps peerID now ack pt s : keeps s (take_in su peerID now ack pt s).2.
Proof.
  unfold take_in. pose proof (allowInbound_keeps peerID (blen pt) now s) as H1. unfold o in H1. destruct (allowInbound _ _ _ _ _) as [ok s1]. cbn [snd] in H1.
  destruct (negb ok); [exact H1|]. set (upt := (unpadPlaintext pt).1). set (mid := msgIDFromPlaintext upt).
  pose proof (alreadySeenMsg_keeps peerID mid now s1) as H2. destruct (alreadySeenMsg _ _ _ _) as [seen s2]. cbn [snd] in H2. pose proof (keeps_trans _ _ _ H1 H2) as K2. clear H1 H2.
  destruct seen; [exact K2|]. assert (forall s' (n : Z), keeps s s' -> keeps s (if ack then (true, n, (seenMsg su peerID mid now s').2) else (false, n, s')).2) as Hq.
  { intros s' n Hs'. destruct ack; [|exact Hs']. eapply keeps_trans; [exact Hs'|apply seenMsg_keeps]. }
  destruct (decodeWire upt) as [w|]; [|by apply Hq]. destruct (negb _); [by apply Hq|].
  pose proof (keeps_security (SecInbound peerID PeerRoleRelay (wi_Type w) (blen pt)) now s2) as H4. cbn [sec_step] in H4. destruct (ObserveInbound _ _ _ _ _ _) as [decision x]. cbn [snd] in H4.
  pose proof (keeps_trans _ _ _ K2 H4) as K4. clear K2 H4. destruct decision; [|exact K4|exact K4]. destruct (negb _); [exact K4|].
  destruct (read_events _) as [em|]; [|by apply Hq]. destruct (negb _); [by apply Hq|].
  pose proof (admit_keeps peerID PeerRoleRelay w (relay_message_max (su_opts su)) em (with_security x s2)) as Ha. destruct (admit_events _ _ _ _ _ _ _) as [[enq dropped] s5]. cbn [snd] in Ha.
  pose proof (keeps_trans _ _ _ K4 Ha) as K5. destruct (enq =? 0); [eapply keeps_trans; [exact K5|by apply keeps_same]|by apply Hq].
Qed.

Lemma PullAndApply_keeps `{CrI : MsgCrypto} `{EjI : EnvelopeJSON} {R : Type} `{RoI : RelayOps R} mailbox priv limit ack clock d (r : R) s x :
  PullAndApplyFromRelay deliver finish fuel su mailbox priv limit ack clock d r s = Some x -> keeps s x.2.
Proof.
  unfold PullAndApplyFromRelay. destruct (relay_pull _ r) as [[msgs|e] r1]; [|intros <-%(inj Some); apply keeps_refl].
  set (peerID := ("relay:" ++ mailbox)%string). set (s1 := setPeerRole peerID PeerRoleRelay _ s). assert (keeps s s1) as H1 by apply setPeerRole_keeps.
  assert (forall ms t, keeps t (take_all su peerID (clock 0%nat) ack priv ms t).2) as Hall.
  { intros ms. induction ms as [|msg ms IH]; intros t; cbn [take_all]; [apply keeps_refl|]. destruct (DecodeFromRelay _ _) as [[pt pub]|]; [|apply IH].
    pose proof (take_in_keeps peerID (clock 0%nat) ack pt t) as Ht. destruct (take_in _ _ _ _ _ _) as [[acked dropped] t1]. cbn [snd] in Ht. specialize (IH t1).
    destruct (take_all _ _ _ _ _ _ _) as [[ids n] t2]. cbn [snd] in *. by eapply keeps_trans. }
  specialize (Hall msgs s1). destruct (take_all _ _ _ _ _ _ _) as [[ids dropped] s2]. cbn [snd] in Hall.
  unfold drainInbound. destruct (drain _ _ _ _ _ _ _ _ _) as [[[rp sent] s3]|] eqn:E; [|done]. intros <-%(inj Some). cbn [snd].
  eapply keeps_trans; [exact H1|]. eapply keeps_trans; [exact Hall|]. by eapply drain_keeps.
Qed.

Lemma score_all_keeps candidates now s : keeps s (score_all candidates now s).2.
Proof.
  revert s. induction candidates as [|p candidates IH]; intros s; cbn [score_all]; [done|]. set (q := fill_in p s). destruct (penalised _ _ _); [apply IH|].
  pose proof (keeps_security (SecPriority (pe_ID q) (pe_Role q) (contact_age (pe_ID q) now s)) now s) as Hk. cbn [sec_step] in Hk. destruct (PeerPriority _ _ _ _ _) as [score x]. cbn [snd] in Hk.
  specialize (IH (with_security x s)). destruct (score_all candidates now (with_security x s)) as [all s']. cbn [snd] in *. by eapply keeps_trans.
Qed.

Lemma tryAdd_keeps p diverse now st : keeps (sel_service st) (sel_service (tryAdd p diverse now st)).
Proof.
  unfold tryAdd. case_bool_decide; [done|]. destruct (_ && _); [done|]. destruct (_ && _); [done|].
  pose proof (keeps_security (SecClusterKey (pe_ID p)) now (sel_service st)) as Hk. cbn [sec_step] in Hk.
  destruct diverse.
  - destruct (PeerClusterKey _ _ _) as [c x]. cbn [snd] in Hk. destruct (_ && _); [exact Hk|]. eapply keeps_trans; [exact Hk|apply setPeerRole_keeps].
  - destruct (_ && _); [done|apply setPeerRole_keeps].
Qed.

Lemma add_peers_keeps first maxPeers all now st : keeps (sel_service st) (sel_service (add_peers first maxPeers all now st)).
Proof.
  revert st. induction all as [|x all IH]; intros st; cbn [add_peers]; [done|]. destruct (maxPeers <=? _); [done|]. eapply keeps_trans; [apply tryAdd_keeps|apply IH].
Qed.

Context `{SlI : SortSlice scored scored_le}.

Lemma SelectPeers_keeps candidates now draw s : keeps s (SelectPeers o candidates now draw s).2.
Proof.
  unfold SelectPeers. pose proof (score_all_keeps candidates now s) as H0. destruct (score_all candidates now s) as [all s1]. cbn [snd] in H0.
  set (all' := sort_slice all). set (mx := Z.min _ _). set (st0 := mkSelection [] 0 0 ∅ ∅ s1). set (st := add_peers true mx all' now st0). set (st' := add_peers false mx all' now st).
  assert (keeps s (sel_service st')) as H1.
  { eapply keeps_trans; [exact H0|]. change s1 with (sel_service st0). eapply keeps_trans; apply add_peers_keeps. }
  unfold swap_last. repeat case_match; cbn [snd]; try exact H1. eapply keeps_trans; [exact H1|apply setPeerRole_keeps].
Qed.

Lemma send_all_keeps peers ctx now i draws s : keeps s (send_heads_all deliver su peers ctx now i draws s).2.
Proof.
  revert i s. induction peers as [|p peers IH]; intros i s; cbn [send_heads_all]; [done|]. pose proof (SendHeads_keeps p ctx now (draws i) s) as H0.
  destruct (SendHeads _ _ _ _ _ _ _) as [[r out] s1]. cbn [snd] in H0. specialize (IH (S i) s1). destruct (send_heads_all _ _ _ _ _ _ _ _) as [outs s2]. cbn [snd] in *. by eapply keeps_trans.
Qed.

Lemma SyncRound_keeps candidates ctx now draw order draws s : keeps s (SyncRound deliver su candidates ctx now draw order draws s).2.
Proof.
  unfold SyncRound. pose proof (SelectPeers_keeps candidates now draw s) as H0. unfold o in H0. destruct (SelectPeers _ _ _ _ _) as [peers s1]. cbn [snd] in H0.
  pose proof (send_all_keeps peers ctx now 0 draws s1) as H1. destruct (send_heads_all _ _ _ _ _ _ _ _) as [out s2]. cbn [snd] in H1. pose proof (keeps_trans _ _ _ H0 H1) as K1.
  destruct (_ && _); [|exact K1]. set (extras := take _ _). pose proof (send_all_keeps extras ctx now (length peers) draws s2) as H2.
  destruct (send_heads_all _ _ _ _ _ _ _ _) as [out' s3]. cbn [snd] in *. by eapply keeps_trans.
Qed.

End kept.

(** ** Histories *)

Section history.
Context `{EdI : Ed25519} `{PjI : PayloadJSON} `{WjI : WireJSON} `{SsI : SortSlice (string * Z) (le_by snd)} `{SlI : SortSlice scored scored_le}.
Context `{CrI : MsgCrypto} `{EjI : EnvelopeJSON} {R : Type} `{RoI : RelayOps R}.
Context (deliver : Peer -> list Z -> bool) (range : gset string -> list string) (finish : list Event -> list Event) (fuel : nat) (su : Setup).

(** What happens to a service: a message, a plaintext from elsewhere, a mailbox pulled, heads
    for a peer, a round. *)
Inductive sync_step : SyncService -> SyncService -> Prop :=
  | step_receive input clock d s r : ReceiveOnce deliver range finish fuel su input clock d s = Some r -> sync_step s r.2
  | step_apply peerID pt clock d s b rep sent s' : TryApplyWirePlaintext deliver finish fuel su peerID pt clock d s = Some (b, rep, sent, s') -> sync_step s s'
  | step_pull mailbox priv limit ack clock d (r : R) s x : PullAndApplyFromRelay deliver finish fuel su mailbox priv limit ack clock d r s = Some x -> sync_step s x.2
  | step_heads peer ctx now d s : sync_step s (SendHeads deliver su peer ctx now d s).2
  | step_round candidates ctx now draw order draws s : sync_step s (SyncRound deliver su candidates ctx now draw order draws s).2.

Context (finish_sub : forall evs, finish evs ⊆ evs) (lengths : verify_checks_length).

Lemma steps_keep s s' : rtc sync_step s s' -> keeps s s'.
Proof.
  induction 1 as [s|s1 s2 s3 Hst _ IH]; [apply keeps_refl|]. eapply keeps_trans; [|exact IH]. destruct Hst.
  - by eapply ReceiveOnce_keeps.
  - by eapply TryApply_keeps.
  - by eapply PullAndApply_keeps.
  - apply SendHeads_keeps.
  - apply SyncRound_keeps.
Qed.

Lemma New_service_ok cpus l pol obs opts : parts_ok (New_service cpus l pol obs opts).2.
Proof.
  split_and!; cbn; [constructor|exact (new_sched_ok cpus opts)|..]; unfold if_le0; repeat case_match; cbn in *; unfold Minute, Second in *; lia.
Qed.

(** C3: Whatever a service receives, applies and sends, from an empty ledger: the ledger is
    well-formed, every event in it is valid with its signature verified and stands under its
    digest, and no author has two events of one number. *)
Theorem synced_ledger_is_sound cpus pol obs opts s : rtc sync_step (New_service cpus New pol obs opts).2 s ->
  ledger_ok (sv_ledger s)
  /\ (forall id ev, events (sv_ledger s) !! id = Some ev -> ID ev = id /\ id = EncodeToString (unsignedHash ev) /\ Validate ev = Ok tt)
  /\ (forall id1 id2 e1 e2, events (sv_ledger s) !! id1 = Some e1 -> events (sv_ledger s) !! id2 = Some e2 -> Author e1 = Author e2 -> Seq e1 = Seq e2 -> e1 = e2).
Proof.
  intros Hs. destruct (steps_keep _ _ Hs (New_service_ok cpus New pol obs opts)) as [_ (ops & Hops & E)]. cbn [New_service sv_ledger snd] in E. rewrite E.
  assert (Forall (fun o => prunes o = false) ops /\ Forall (fun o => trusts_caller o = false) ops) as [Hp Ht] by (split; eapply Forall_impl; [exact Hops|by intros ? []|exact Hops|by intros ? []]).
  split_and!; [apply run_ok, New_ok|..].
  - assert (sat (fun e => Validate e = Ok tt) (run ops New)) as Hsat.
    { apply (run_closed (fun e => Validate e = Ok tt)); [apply sat_closed| |done]. eapply Forall_impl; [exact Ht|]. intros op Ho. split; [|intros _; apply sat_prune].
      intros e He. unfold gate in He. by rewrite Ho in He. }
    intros id ev He. destruct (Hsat id ev He) as [<- Hv]. split_and!; [done| |done]. by apply Verify_bound, Validate_Verify.
  - pose proof (run_seqs_ok ops New Hp New_seqs_ok) as Hok. intros id1 id2 e1 e2 E1 E2 Ha Hn. pose proof (ok_keys _ (run_ok ops New New_ok)) as Hk.
    assert (seqs_of (run ops New) (Author e1) !! Seq e1 = Some id1) as K1 by (apply Hok; exists e1; auto).
    assert (seqs_of (run ops New) (Author e1) !! Seq e1 = Some id2) as K2 by (apply Hok; exists e2; auto). congruence.
Qed.

(** ** What goes out *)

Definition stored_and_allowed (ctx : string) (l : Ledger) (ev : Event) : Prop := events l !! ID ev = Some ev /\ allow_outgoing (su_opts su) ctx (Kind ev) = true.

(** The message as it leaves, padded or not. *)
Definition padded (pt m : list Z) : Prop := exists fill, let bucket := pp_PaddingBucketBytes (op_Privacy (su_opts su)) in
  m = (if 0 <? bucket then default pt (padPlaintext pt bucket fill) else pt).

Lemma sendMesh_sent peer pt fill x : x ∈ (sendMesh deliver su peer pt fill).2 -> x.1 = peer /\ padded pt x.2.
Proof.
  unfold sendMesh. set (m := if 0 <? _ then default pt _ else pt). destruct (deliver peer m); cbn [snd]; [|by intros ?%elem_of_nil].
  intros ->%list_elem_of_singleton. split; [done|]. by exists fill.
Qed.

Lemma answer_sent from reply d mark s x : x ∈ (answer deliver su from reply d mark s).1.2 -> x.1 = from /\ padded reply x.2.
Proof.
  unfold answer. intros Hx. apply (sendMesh_sent from reply (dr_fill d 0 (pe_ID from))). by destruct (sendMesh _ _ _ _ _) as [[] out].
Qed.

Lemma filtered_events ids ctx m l ev : sat bound l -> ev ∈ em_Events (BuildEventsMessageBounded (filterOutgoingIDs su ids ctx l) m l) -> stored_and_allowed ctx l ev.
Proof.
  intros Hl Hev. destruct (BuildEventsMessageBounded_fits (filterOutgoingIDs su ids ctx l) m l) as ((_ & _ & Hf) & _ & Hw); [intros id e He; by destruct (Hl id e He)|].
  rewrite Forall_forall in Hf. destruct (Hf ev Hev) as [He _]. split; [exact He|]. specialize (Hw ev Hev). apply trimmed_spec in Hw as (_ & y & Hy & Ey).
  apply list_elem_of_filter in Hy as [Hy _]. unfold Get in Hy. destruct (events l !! y) as [ev'|] eqn:E; [|done]. cbn in Hy.
  assert (TrimSpace y = y) as Ht.
  { destruct (Hl y ev' E) as [<- Hb]. rewrite Hb. apply TrimSpace_printable, EncodeToString_printable, Sum256_ok. }
  rewrite Ey, Ht, E in He. injection He as ->. exact Hy.
Qed.

(** A message either has no answer, or is decoded, in an allowed context and accepted, and goes
    to its handler with the ledger as it was. *)
Lemma receive_cases pub pt clock d s r : ReceiveOnce deliver range finish fuel su (pub, pt) clock d s = Some r ->
  (r.1.2 = [] /\ sv_ledger r.2 = sv_ledger s)
  \/ exists w s4 mark from, decodeWire (unpadPlaintext pt).1 = Some w /\ allow_context (su_opts su) (wi_Context w) = true /\ sv_ledger s4 = sv_ledger s
       /\ pe_ID from = peerIDFromMeshPub pub /\ pe_MeshPub from = pub
       /\ ((wi_Type w = "heads" /\ r = on_heads deliver range su from w d mark s4) \/ (wi_Type w = "inv" /\ r = on_inventory deliver su from w (clock 0%nat) d mark s4)
           \/ (wi_Type w = "want" /\ r = on_want deliver su from w (clock 0%nat) d mark s4) \/ (wi_Type w = "events" /\ on_events deliver finish fuel su from w clock d mark s4 = Some r)).
Proof.
  unfold ReceiveOnce. set (peerID := peerIDFromMeshPub pub). set (now := clock 0%nat). set (s0 := notePeerMeshPub peerID pub now s).
  assert (sv_ledger s0 = sv_ledger s) as E0 by (subst s0; unfold notePeerMeshPub; by destruct (is_blank peerID)). set (role := peerRole peerID s0).
  unfold allowInbound. destruct (count_inbound _ _ _ _) as [ok ps]. set (s1 := put_peer peerID ps s0). destruct (negb ok); [intros <-%(inj Some); by left|].
  unfold alreadySeenMsg. set (m := live_msgs _ _). set (s2 := put_peer peerID _ s1). destruct (bool_decide _); [intros <-%(inj Some); by left|].
  set (mid := msgIDFromPlaintext _). set (s3 := TouchPeer peerID now s2).
  assert (forall s', sv_ledger (seenMsg su peerID mid now s').2 = sv_ledger s') as Hmark by (intros s'; unfold seenMsg; by case_bool_decide).
  destruct (decodeWire _) as [w|] eqn:Ew; [|intros <-%(inj Some); left; split; [done|]; etrans; [exact (Hmark s3)|exact E0]].
  destruct (allow_context _ (wi_Context w)) eqn:Ec; cbn [negb]; [|intros <-%(inj Some); left; split; [done|]; etrans; [exact (Hmark s3)|exact E0]].
  destruct (ObserveInbound _ _ _ _ _ _) as [decision x]. set (s4 := with_security x s3).
  set (mark := fun s => (seenMsg su peerID mid now s).2). change (sv_ledger s0) with (sv_ledger s4) in E0.
  destruct decision.
  - set (from := mkPeer peerID pub role). intros Hr. assert ((r.1.2 = [] /\ sv_ledger r.2 = sv_ledger s) \/
      ((wi_Type w = "heads" /\ r = on_heads deliver range su from w d mark s4) \/ (wi_Type w = "inv" /\ r = on_inventory deliver su from w (clock 0%nat) d mark s4)
           \/ (wi_Type w = "want" /\ r = on_want deliver su from w (clock 0%nat) d mark s4) \/ (wi_Type w = "events" /\ on_events deliver finish fuel su from w clock d mark s4 = Some r))) as [Hq|Hq].
    { destruct (bool_decide_reflect (wi_Type w = "heads")); [right; left; split; [done|by apply (inj Some) in Hr as <-]|].
      destruct (bool_decide_reflect (wi_Type w = "inv")); [right; right; left; split; [done|by apply (inj Some) in Hr as <-]|].
      destruct (bool_decide_reflect (wi_Type w = "want")); [right; right; right; left; split; [done|by apply (inj Some) in Hr as <-]|].
      destruct (bool_decide_reflect (wi_Type w = "events")); [right; right; right; right; by split|]. apply (inj Some) in Hr as <-. left. split; [done|].
      etrans; [exact (Hmark s4)|exact E0]. }
    + by left.
    + right. exists w, s4, mark, from. split_and!; [done|done|exact E0|done|done|exact Hq].
  - intros <-%(inj Some). left. unfold turn_down. destruct (TrustTier_of _ _ _) as [tier y]. split; [done|]. etrans; [exact (Hmark _)|]. by case_bool_decide.
  - intros <-%(inj Some). left. by split.
Qed.

(** C8: The answer to a message that asks for events goes to its sender alone, and is a message
    of stored events, all of kinds that may go out in the message's context. *)
Theorem wants_get_allowed_events pub pt clock d s r w : ReceiveOnce deliver range finish fuel su (pub, pt) clock d s = Some r ->
  decodeWire (unpadPlaintext pt).1 = Some w -> wi_Type w = "want" -> sat bound (sv_ledger s) ->
  Forall (fun x => pe_ID x.1 = peerIDFromMeshPub pub /\ pe_MeshPub x.1 = pub
    /\ exists msg, padded (encodeWire "events" (wi_Session w) (wi_Context w) (json_events msg)) x.2
                  /\ Forall (stored_and_allowed (wi_Context w) (sv_ledger s)) (em_Events msg)) r.1.2.
Proof.
  intros Hr Hw Hty Hl. destruct (receive_cases pub pt clock d s r Hr) as [[-> _]|(w' & s4 & mark & from & Hw' & _ & El & F1 & F2 & Hc)]; [constructor|].
  assert (w' = w) as -> by congruence. rewrite Hty in Hc. destruct Hc as [[? _]|[[? _]|[[_ ->]|[? _]]]]; [done|done| |done].
  apply Forall_forall. intros x Hx. unfold on_want in Hx. destruct (read_want _) as [want|]; [|by apply elem_of_nil in Hx]. destruct (negb _); [by apply elem_of_nil in Hx|].
  destruct (ObserveWant _ _ _ _ _) as [[] y]; [|unfold turn_down in Hx; destruct (TrustTier_of _ _ _); by apply elem_of_nil in Hx|by apply elem_of_nil in Hx].
  apply answer_sent in Hx as [-> Hp]. split; [done|]. split; [done|]. eexists. split; [exact Hp|]. apply Forall_forall. intros ev Hev.
  cbn [with_security sv_ledger] in Hev. rewrite El in Hev. by apply filtered_events in Hev.
Qed.

(** ** Peers that are shut out *)

(** Nothing a peer that is shut out sends is answered, queued or applied: neither the ledger
    nor the scheduler changes. *)
Theorem shut_out_peer_is_ignored pub pt clock d s r : shut_out (peerIDFromMeshPub pub) (sv_security s) ->
  ReceiveOnce deliver range finish fuel su (pub, pt) clock d s = Some r ->
  r.1 = (false, []) /\ sv_ledger r.2 = sv_ledger s /\ sv_scheduler r.2 = sv_scheduler s.
Proof.
  intros Hout. unfold ReceiveOnce. set (peerID := peerIDFromMeshPub pub) in *. set (now := clock 0%nat). specialize (Hout now). set (s0 := notePeerMeshPub peerID pub now s) in *.
  assert (sv_security s0 = sv_security s /\ sv_ledger s0 = sv_ledger s /\ sv_scheduler s0 = sv_scheduler s) as (Es & E0 & E1) by (subst s0; unfold notePeerMeshPub; by destruct (is_blank peerID)).
  rewrite <- Es in Hout. rewrite <- E0, <- E1.
  unfold allowInbound. destruct (count_inbound _ _ _ _) as [ok ps]. destruct (negb ok); [by intros <-%(inj Some)|].
  unfold alreadySeenMsg. destruct (bool_decide _); [by intros <-%(inj Some)|]. set (mid := msgIDFromPlaintext _). set (s3 := TouchPeer peerID now _).
  assert (forall s', sv_ledger (seenMsg su peerID mid now s').2 = sv_ledger s' /\ sv_scheduler (seenMsg su peerID mid now s').2 = sv_scheduler s') as Hmark by (intros s'; unfold seenMsg; by case_bool_decide).
  destruct (decodeWire _) as [w|]; [|intros <-%(inj Some); split; [done|exact (Hmark s3)]]. destruct (negb _); [intros <-%(inj Some); split; [done|exact (Hmark s3)]|].
  destruct Hout as (Hin & _). change (sv_security s0) with (sv_security s3) in Hin. specialize (Hin (peerRole peerID s0) (wi_Type w) (blen pt)).
  destruct (ObserveInbound _ _ _ _ _ _) as [decision x]. cbn [fst] in Hin. subst decision. intros <-%(inj Some). unfold turn_down. destruct (TrustTier_of _ _ _) as [tier y].
  split; [done|]. cbn [quiet snd]. destruct (Hmark (if bool_decide (tier = TrustBlocked) then count_quarantined 1 (with_security y (count_refused 1 (with_security x s3))) else with_security y (count_refused 1 (with_security x s3)))) as [-> ->].
  by case_bool_decide.
Qed.

(** ** Calls that return *)

Lemma apply_item_returns it now round d s : su_observer su = None -> is_Some (apply_item deliver finish fuel su it now round d s).
Proof.
  intros Ho. unfold apply_item. rewrite Ho. destruct (ApplyEventsMessageBoundedOptimized _ _ _ _ _ _ _ _ _) as [[r [rp l]] c]. destruct (0 <? Rejected rp); [destruct (TrustTier_of _ _ _)|]; by eexists.
Qed.

Lemma drain_returns rounds i clock d s : su_observer su = None -> parts_ok s -> is_Some (drain deliver finish fuel su rounds i clock d s).
Proof.
  intros Ho. revert i s. induction rounds as [|rounds IH]; intros i s Hs; cbn [drain]; [by eexists|]. destruct Hs as (P1 & P2 & P3).
  pose proof (next_ok _ P2) as Hn. rewrite (Next_next _ P2). destruct (next (sv_scheduler s)) as [[it|] x]; [|by eexists]. cbn [snd] in Hn.
  assert (parts_ok (with_scheduler x s)) as Hx by (split_and!; [done|done|apply P3|apply P3]).
  destruct (apply_item_returns it (clock (S i)) i d (with_scheduler x s) Ho) as [[[rp sent] s1] E]. rewrite E.
  apply (apply_item_keeps _ _ _ _ finish_sub lengths) in E. apply E in Hx as [H1 _]. destruct (IH (S i) s1 H1) as [[[rep sent'] s2] ->]. by eexists.
Qed.

Lemma kept_parts s s' : keeps s s' -> parts_ok s -> parts_ok s'.
Proof. intros Hk Hs. by apply Hk. Qed.

Lemma Receive_returns input clock d s : su_observer su = None -> parts_ok s -> is_Some (ReceiveOnce deliver range finish fuel su input clock d s).
Proof.
  intros Ho Hs. unfold ReceiveOnce. destruct input as [pub pt]. set (id := peerIDFromMeshPub pub). set (now := clock 0%nat).
  pose proof (kept_parts _ _ (notePeer_keeps id pub now s) Hs) as K0. set (s0 := notePeerMeshPub id pub now s) in *.
  pose proof (kept_parts _ _ (allowInbound_keeps su id (blen pt) now s0) K0) as K1. destruct (allowInbound _ _ _ _ _) as [ok s1]. destruct (negb ok); [by eexists|]. cbn [snd] in K1.
  set (mid := msgIDFromPlaintext _). pose proof (kept_parts _ _ (alreadySeenMsg_keeps id mid now s1) K1) as K2.
  destruct (alreadySeenMsg _ _ _ _) as [seen s2]. destruct seen; [by eexists|]. cbn [snd] in K2. set (s3 := TouchPeer id now s2).
  assert (parts_ok s3) as K3 by (by apply (kept_parts s2 s3); [apply keeps_same|]). destruct (decodeWire _) as [w|]; [|by eexists]. destruct (negb _); [by eexists|].
  pose proof (kept_parts _ _ (keeps_security (SecInbound id (peerRole id s0) (wi_Type w) (blen pt)) now s3) K3) as K4. cbn [sec_step] in K4.
  destruct (ObserveInbound _ _ _ _ _ _) as [[] x]; [|by eexists|by eexists]. cbn [snd] in K4. repeat (case_bool_decide; [by eexists|]). case_bool_decide; [|by eexists].
  unfold on_events. destruct (read_events _) as [em|]; [|by eexists]. destruct (negb _); [by eexists|].
  pose proof (fun a b c e => kept_parts _ _ (admit_keeps su a b w c e (with_security x s3)) K4) as K5. cbn [pe_ID pe_Role] in *.
  specialize (K5 id (peerRole id s0) (op_MaxEventsMessageBytes (su_opts su)) em). destruct (admit_events _ _ _ _ _ _ _) as [[enq dropped] s5]. cbn [snd] in K5.
  destruct (enq =? 0); [by eexists|]. unfold drainInbound.
  match goal with |- context [drain ?a ?b ?c ?e ?n ?i ?k ?x ?y] => destruct (drain_returns n i k x y Ho K5) as [[[rep sent] s6] ->] end. by eexists.
Qed.

Lemma TryApply_returns peerID plaintext clock d s : su_observer su = None -> parts_ok s -> is_Some (TryApplyWirePlaintext deliver finish fuel su peerID plaintext clock d s).
Proof.
  intros Ho Hs. unfold TryApplyWirePlaintext. set (id := peer_key peerID). set (now := clock 0%nat). set (role := if HasPrefix id "relay:" then _ else _).
  pose proof (kept_parts _ _ (setPeerRole_keeps id role now s) Hs) as K0. set (s0 := setPeerRole id role now s) in *.
  pose proof (kept_parts _ _ (allowInbound_keeps su id (blen plaintext) now s0) K0) as K1. destruct (allowInbound _ _ _ _ _) as [ok s1]. destruct (negb ok); [by eexists|]. cbn [snd] in K1.
  set (mid := msgIDFromPlaintext _). pose proof (kept_parts _ _ (seenMsg_keeps su id mid now s1) K1) as K2.
  destruct (seenMsg _ _ _ _ _) as [seen s2]. destruct seen; [by eexists|]. cbn [snd] in K2. set (s3 := TouchPeer id now s2).
  assert (parts_ok s3) as K3 by (by apply (kept_parts s2 s3); [apply keeps_same|]). destruct (decodeWire _) as [w|]; [|by eexists].
  destruct (negb _); [by eexists|]. destruct (negb _); [by eexists|].
  pose proof (kept_parts _ _ (keeps_security (SecInbound id role (wi_Type w) (blen plaintext)) now s3) K3) as K4. cbn [sec_step] in K4.
  destruct (ObserveInbound _ _ _ _ _ _) as [[] x]; [|by eexists|by eexists]. cbn [snd] in K4.
  destruct (read_events _) as [em|]; [|by eexists]. destruct (negb _); [by eexists|].
  pose proof (kept_parts _ _ (admit_keeps su id role w (op_MaxEventsMessageBytes (su_opts su)) em (with_security x s3)) K4) as K5.
  destruct (admit_events _ _ _ _ _ _ _) as [[enq dropped] s5]. cbn [snd] in K5. destruct (enq =? 0); [by eexists|]. unfold drainInbound.
  match goal with |- context [drain ?a ?b ?c ?e ?n ?i ?k ?x ?y] => destruct (drain_returns n i k x y Ho K5) as [[[rep sent] s6] ->] end. by eexists.
Qed.

Lemma take_all_parts peerID now ack priv msgs s : parts_ok s -> parts_ok (take_all su peerID now ack priv msgs s).2.
Proof.
  revert s. induction msgs as [|msg msgs IH]; intros s Hs; cbn [take_all]; [done|]. destruct (DecodeFromRelay _ _) as [[pt pub]|]; [|by apply IH].
  pose proof (kept_parts _ _ (take_in_keeps su peerID now ack pt s) Hs) as Ht. destruct (take_in _ _ _ _ _ _) as [[acked dropped] s1]. specialize (IH s1 Ht).
  by destruct (take_all _ _ _ _ _ _ _) as [[ids n] s2].
Qed.

Lemma Pull_returns mailbox priv limit ack clock d (r : R) s : su_observer su = None -> parts_ok s ->
  is_Some (PullAndApplyFromRelay deliver finish fuel su mailbox priv limit ack clock d r s).
Proof.
  intros Ho Hs. unfold PullAndApplyFromRelay. destruct (relay_pull _ r) as [[msgs|e] r1]; [|by eexists]. set (id := ("relay:" ++ mailbox)%string).
  pose proof (take_all_parts id (clock 0%nat) ack priv msgs _ (kept_parts _ _ (setPeerRole_keeps id PeerRoleRelay (clock 0%nat) s) Hs)) as K1.
  destruct (take_all _ _ _ _ _ _ _) as [[ids dropped] s2]. cbn [snd] in K1. unfold drainInbound.
  match goal with |- context [drain ?a ?b ?c ?e ?n ?i ?k ?x ?y] => destruct (drain_returns n i k x y Ho K1) as [[[rep sent] s3] ->] end. by eexists.
Qed.

(** C17: Over any history of a service without an observer, whatever its options and the ledger
    it starts with, nothing that comes in makes a step panic: a message, a plaintext from
    elsewhere and a mailbox pulled are each finished with, whatever they hold. The turn of the
    scheduler stays an index of its pattern, and the head of each queue within the queue. *)
Theorem receiving_returns cpus l pol opts s : rtc sync_step (New_service cpus l pol None opts).2 s -> su_observer su = None ->
  (forall input clock d, is_Some (ReceiveOnce deliver range finish fuel su input clock d s))
  /\ (forall peerID pt clock d, is_Some (TryApplyWirePlaintext deliver finish fuel su peerID pt clock d s))
  /\ (forall mailbox priv limit ack clock d (r : R), is_Some (PullAndApplyFromRelay deliver finish fuel su mailbox priv limit ack clock d r s))
  /\ (sc_patIdx (sv_scheduler s) < length (sc_pattern (sv_scheduler s)))%nat
  /\ (forall cls, fifo_ok (queue_of cls (sv_scheduler s))).
Proof.
  intros Hs Ho. assert (parts_ok s) as Hp by (apply (kept_parts _ _ (steps_keep _ _ Hs)), New_service_ok).
  split_and!; intros; [by apply Receive_returns|by apply TryApply_returns|by apply Pull_returns| |]; apply Hp.
Qed.

(** C15: With an observer, an event under its author whose number is 2^63 or more past the last
    one, which anyone can sign with a key of his own, makes the service panic when it is
    applied: the list for the numbers in between has a negative capacity. *)
Theorem huge_number_stops_the_service it now round d s obs : su_observer su = Some obs -> is_blank (si_context it) = false -> is_empty (TrimSpace (ob_Author obs)) = false ->
  allow_context (su_opts su) (TrimSpace (si_context it)) = true ->
  let max l := AuthorMaxSeq (ob_Author obs) l in
  let l' := (ApplyEventsMessageBoundedOptimized finish (si_msg it) (si_context it) (su_policy su) (Some obs)
               (event_limits su (if (0 <? si_maxMessageBytes it) && (si_maxMessageBytes it <? op_MaxEventsMessageBytes (su_opts su)) then si_maxMessageBytes it else op_MaxEventsMessageBytes (su_opts su)))
               (Some (sv_verifyCache s)) now (sv_ledger s)).1.2.2 in
  0 <= max (sv_ledger s) -> 2 ^ 63 <= max l' - max (sv_ledger s) -> max l' < 2 ^ 64 -> apply_item deliver finish fuel su it now round d s = None.
Proof.
  intros Ho Hctx Ha Hall max l' H0 Hgap Hmax. unfold apply_item. rewrite Ho. unfold is_blank in Hctx. rewrite Hctx. fold l' in Hgap.
  destruct (ApplyEventsMessageBoundedOptimized _ _ _ _ _ _ _ _ _) as [[r [rp l]] c]. cbn [fst snd] in l'. subst l'. set (s1 := with_cache _ _).
  change (AuthorMaxSeq (ob_Author obs) (sv_ledger s1)) with (max l). change (AuthorMaxSeq (ob_Author obs) (sv_ledger s)) with (max (sv_ledger s)).
  destruct (Z.ltb_spec (max (sv_ledger s)) (max l)); [|lia]. unfold broadcastObserverEvents. rewrite Hall, Ha. cbn [negb orb].
  assert (AuthorEventIDsBetween fuel (TrimSpace (ob_Author obs)) (u64 (max (sv_ledger s) + 1)) (max l) (sv_ledger s1) = Some None) as ->; [|done].
  rewrite u64_id by (unfold is_u64; lia). unfold AuthorEventIDsBetween. assert (TrimSpace (TrimSpace (ob_Author obs)) = TrimSpace (ob_Author obs)) as Et by apply TrimSpace_idemp. rewrite Et, Ha. cbn [orb].
  rewrite (proj2 (Z.eqb_neq _ 0)), (proj2 (Z.eqb_neq _ 0)), (proj2 (Z.ltb_ge _ _)) by lia. cbn [orb].
  rewrite bool_decide_eq_false_2.
  - destruct (Z.ltb_spec (i64 (i64 (max l - (max (sv_ledger s) + 1)) + 1)) 0) as [|Hneg]; [done|]. exfalso. unfold i64 in Hneg. Z.div_mod_to_equations. lia.
  - intros E. assert (max l = 0); [|lia]. unfold max, AuthorMaxSeq. rewrite Ha. change (sv_ledger s1) with l in E. by rewrite E.
Qed.
End history.

(** ** Limits on what a peer sends *)

Section rates.
Context (o : Options) (W : Z).
Hypothesis HW : IsZero W = false.

(** What of a list of messages, by size and time, is let in: their sizes, and the record after. *)
Fixpoint let_in (msgs : list (Z * Z)) (ps : peerState) : list Z * peerState :=
  match msgs with
  | [] => ([], ps)
  | (size, now) :: msgs' =>
      let '(ok, ps) := count_inbound o size now ps in
      let '(sizes, ps) := let_in msgs' ps in
      (if ok then size :: sizes else sizes, ps)
  end.

Definition spent_msgs (ps : peerState) : Z := if ps_lastInWindow ps =? W then ps_inMsgs ps else 0.
Definition spent_bytes (ps : peerState) : Z := if ps_lastInWindow ps =? W then ps_inBytes ps else 0.
Definition total_size (sizes : list Z) : Z := foldr Z.add 0 sizes.

Lemma let_in_bounds msgs ps : Forall (fun m => 0 <= m.1 /\ Truncate m.2 Minute = W) msgs ->
  let sizes := (let_in msgs ps).1 in
  Z.of_nat (length sizes) <= Z.max 0 (op_MaxInboundMsgsPerMin o - spent_msgs ps)
  /\ total_size sizes <= Z.max 0 (op_MaxInboundBytesPerMin o - spent_bytes ps).
Proof.
  revert ps. induction msgs as [|[size now] msgs IH]; intros ps Hf; cbn [let_in]; [cbn; lia|]. apply Forall_cons in Hf as [[Hsz Hw] Hf]. cbn [fst snd] in Hsz, Hw.
  unfold count_inbound. destruct (negb (IsZero (ps_penaltyUntil ps)) && _).
  { specialize (IH ps Hf). destruct (let_in msgs ps). exact IH. }
  rewrite Hw. set (fresh := IsZero (ps_lastInWindow ps) || negb (ps_lastInWindow ps =? W)).
  assert ((if fresh then 0 else ps_inMsgs ps) = spent_msgs ps /\ (if fresh then 0 else ps_inBytes ps) = spent_bytes ps /\ (if fresh then W else ps_lastInWindow ps) = W) as (-> & -> & ->).
  { subst fresh. unfold spent_msgs, spent_bytes. destruct (Z.eqb_spec (ps_lastInWindow ps) W) as [->|]; cbn [negb]; [by rewrite HW|]. by rewrite orb_true_r. }
  set (over := (op_MaxInboundMsgsPerMin o <? spent_msgs ps + 1) || (op_MaxInboundBytesPerMin o <? spent_bytes ps + size)). set (ps' := mkPeerState _ _ _ _ _ _ _ _ _).
  specialize (IH ps' Hf). assert (spent_msgs ps' = spent_msgs ps + 1 /\ spent_bytes ps' = spent_bytes ps + size) as [E1 E2] by (unfold spent_msgs at 1, spent_bytes at 1; cbn; by rewrite Z.eqb_refl).
  destruct (let_in msgs ps') as [sizes ps'']. cbn [fst] in IH. rewrite E1, E2 in IH. cbn [fst]. subst over.
  destruct (Z.ltb_spec (op_MaxInboundMsgsPerMin o) (spent_msgs ps + 1)); cbn [orb negb]; [lia|]. destruct (Z.ltb_spec (op_MaxInboundBytesPerMin o) (spent_bytes ps + size)); cbn [orb negb]; [lia|].
  cbn [length total_size foldr]. fold (total_size sizes). lia.
Qed.

End rates.

(** C32: Of the messages of a peer within one minute of the clock, whatever it sent before, no
    more are let in than the limit on their number, and no more bytes than the limit on bytes. *)
Theorem inbound_is_limited o W msgs ps : IsZero W = false -> 0 <= ps_inMsgs ps -> 0 <= ps_inBytes ps -> 0 <= op_MaxInboundMsgsPerMin o -> 0 <= op_MaxInboundBytesPerMin o ->
  Forall (fun m => 0 <= m.1 /\ Truncate m.2 Minute = W) msgs ->
  Z.of_nat (length (let_in o msgs ps).1) <= op_MaxInboundMsgsPerMin o /\ total_size (let_in o msgs ps).1 <= op_MaxInboundBytesPerMin o.
Proof.
  intros HW H1 H2 H3 H4 Hf. pose proof (let_in_bounds o W HW msgs ps Hf) as [B1 B2]. unfold spent_msgs, spent_bytes in *. destruct (ps_lastInWindow ps =? W); lia.
Qed.

(** ** The peers of a round *)

Section selection.
Context `{SlI : SortSlice scored scored_le}.
Context (o : Options) (now : Z).

(** A selection within the limits of the policy. *)
Record selected_ok (pol : SecurityPolicy) (maxPeers : Z) (all : list scored) (st : selection) : Prop := {
  so_policy : sl_policy (sv_security (sel_service st)) = pol;
  so_count : Z.of_nat (length (sel_out st)) <= Z.max 0 maxPeers;
  so_nodup : NoDup (pe_ID <$> sel_out st);
  so_ids : forall id, id ∈ sel_ids st <-> id ∈ pe_ID <$> sel_out st;
  so_relays : sel_relays st = Z.of_nat (length (filter (fun p => is_relay p = true) (sel_out st)));
  so_agents : sel_agents st = Z.of_nat (length (filter (fun p => is_agent p = true) (sel_out st)));
  so_max_relays : sel_relays st <= Z.max 0 (sp_MaxRelaysPerRound pol);
  so_max_agents : sel_agents st <= Z.max 0 (sp_MaxAgentsPerRound pol);
  so_from : sel_out st ⊆ sr_peer <$> all;
}.

Lemma policy_setPeerRole id role s : sl_policy (sv_security (setPeerRole id role now s)) = sl_policy (sv_security s).
Proof. unfold setPeerRole, SetPeerRole. destruct (is_blank id); [done|]. by destruct (is_empty role). Qed.

Lemma policy_cluster id s : sl_policy (PeerClusterKey id now s).2 = sl_policy s.
Proof. unfold PeerClusterKey. by destruct (is_blank id). Qed.

Lemma count_snoc (f : Peer -> bool) l p : Z.of_nat (length (filter (fun p => f p = true) (l ++ [p]))) = Z.of_nat (length (filter (fun p => f p = true) l)) + if f p then 1 else 0.
Proof. rewrite filter_app, length_app. rewrite filter_cons, filter_nil. destruct (decide (f p = true)) as [->|E]; cbn [length]; [lia|]. destruct (f p); [done|lia]. Qed.

Lemma tryAdd_ok pol maxPeers all p diverse st : selected_ok pol maxPeers all st -> p ∈ sr_peer <$> all -> Z.of_nat (length (sel_out st)) < maxPeers ->
  selected_ok pol maxPeers all (tryAdd p diverse now st).
Proof.
  intros Hs Hp Hn. unfold tryAdd. rewrite (so_policy _ _ _ _ Hs). destruct (bool_decide_reflect (pe_ID p ∈ sel_ids st)) as [|Hid]; [done|].
  destruct (is_relay p && (sp_MaxRelaysPerRound pol <=? sel_relays st)) eqn:Er; [done|]. destruct (is_agent p && (sp_MaxAgentsPerRound pol <=? sel_agents st)) eqn:Ea; [done|].
  match goal with |- context [let '(c, s) := ?x in _] => set (cs := x) end.
  assert (sl_policy (sv_security cs.2) = pol) as Hpol.
  { subst cs. destruct diverse; [|exact (so_policy _ _ _ _ Hs)]. pose proof (policy_cluster (pe_ID p) (sv_security (sel_service st))) as E. destruct (PeerClusterKey _ _ _) as [c x]. cbn [snd] in *. cbn. by rewrite E, (so_policy _ _ _ _ Hs). }
  destruct cs as [cluster s]. cbn [snd] in Hpol. destruct Hs as [S1 S2 S3 S4 S5 S6 S7 S8 S9]. destruct (negb (is_empty cluster) && _); [by split|]. split; cbn [sel_out sel_relays sel_agents sel_ids sel_service].
  - by rewrite policy_setPeerRole.
  - rewrite length_app. cbn [length]. lia.
  - rewrite fmap_app. apply NoDup_app. split; [done|]. split; [|apply NoDup_singleton]. intros x Hx ->%list_elem_of_singleton. by apply Hid, S4.
  - intros id. rewrite fmap_app, elem_of_app, <- S4, elem_of_union, elem_of_singleton. cbn. rewrite list_elem_of_singleton. tauto.
  - rewrite count_snoc, S5. done.
  - rewrite count_snoc, S6. done.
  - destruct (is_relay p); cbn [andb] in Er; lia.
  - destruct (is_agent p); cbn [andb] in Ea; lia.
  - intros x [Hx| ->%list_elem_of_singleton]%elem_of_app; auto.
Qed.

Lemma add_peers_ok pol maxPeers whole first all st : selected_ok pol maxPeers whole st -> all ⊆ whole -> selected_ok pol maxPeers whole (add_peers first maxPeers all now st).
Proof.
  revert st. induction all as [|x all IH]; intros st Hs Hsub; cbn [add_peers]; [done|]. destruct (Z.leb_spec maxPeers (Z.of_nat (length (sel_out st)))); [done|].
  apply IH; [|set_solver]. apply tryAdd_ok; [done| |done]. apply list_elem_of_fmap. exists x. split; [done|]. apply Hsub. by left.
Qed.

Lemma find_swap_spec tries i all start width offset old ids cand : find_swap tries i all start width offset old ids = Some cand ->
  pe_Role cand = pe_Role old /\ (pe_ID cand ∉ ids) /\ cand ∈ sr_peer <$> all.
Proof.
  revert i. induction tries as [|tries IH]; intros i; cbn [find_swap]; [done|]. destruct (all !! _) as [x|] eqn:E; cbn [fmap option_fmap option_map]; [|done].
  destruct (bool_decide_reflect (pe_Role (sr_peer x) = pe_Role old)); cbn [negb orb]; [|apply IH]. destruct (bool_decide_reflect (pe_ID (sr_peer x) ∈ ids)); [apply IH|].
  intros [= <-]. split_and!; [done|done|]. apply list_elem_of_fmap. exists x. split; [done|]. by eapply list_elem_of_lookup_2.
Qed.

Lemma removelast_snoc (l : list Peer) x : last l = Some x -> l = removelast l ++ [x].
Proof. intros H. apply last_Some in H as [k ->]. by rewrite removelast_last. Qed.

Lemma score_all_from candidates s x : x ∈ (score_all candidates now s).1 -> exists p s', p ∈ candidates /\ sv_peers s' = sv_peers s /\ sr_peer x = fill_in p s' /\ penalised (pe_ID (sr_peer x)) now s = false /\ 0 <= sr_score x.
Proof.
  revert s. induction candidates as [|p candidates IH]; intros s; cbn [score_all]; [by intros ?%elem_of_nil|].
  assert (forall s1, sv_peers s1 = sv_peers s -> x ∈ (score_all candidates now s1).1 -> exists p0 s', p0 ∈ p :: candidates /\ sv_peers s' = sv_peers s /\ sr_peer x = fill_in p0 s' /\ penalised (pe_ID (sr_peer x)) now s = false /\ 0 <= sr_score x) as Hrest.
  { intros s1 E1 (p0 & s' & A & B & C & D & F)%IH. exists p0, s'. split_and!; [by right|congruence|done| |done]. unfold penalised in *. by rewrite <- E1. }
  destruct (penalised (pe_ID (fill_in p s)) now s) eqn:Ep; [by apply Hrest|]. destruct (PeerPriority _ _ _ _ _) as [score y]. set (s1 := with_security y s).
  specialize (Hrest s1 eq_refl). destruct (score_all candidates now s1) as [all s2]. cbn [fst] in *. destruct (Z.ltb_spec score 0); [exact Hrest|].
  intros [->|Hx]%elem_of_cons; [|by apply Hrest]. exists p, s. split_and!; [by left|done|done|done|done].
Qed.

Lemma score_all_peers candidates s : sv_peers (score_all candidates now s).2 = sv_peers s /\ sl_policy (sv_security (score_all candidates now s).2) = sl_policy (sv_security s).
Proof.
  revert s. induction candidates as [|p candidates IH]; intros s; cbn [score_all]; [done|]. destruct (penalised _ _ _); [apply IH|].
  destruct (PeerPriority _ _ _ _ _) as [score y] eqn:E. assert (sl_policy y = sl_policy (sv_security s)) as Ey.
  { unfold PeerPriority in E. destruct (is_blank _); [by injection E as <- <-|]. destruct (quarantined _ _); by injection E as <- <-. }
  destruct (IH (with_security y s)) as [I1 I2]. destruct (score_all candidates now (with_security y s)) as [all s']. cbn [snd] in *. by rewrite I1, I2.
Qed.

(** The peers chosen for a round are at most the limit, all different, with at most the
    allowed relays and agents; each is a candidate, of a score that is not negative and not
    under a penalty. *)
Theorem selection_within_limits candidates draw s :
  let out := (SelectPeers o candidates now draw s).1 in let pol := sl_policy (sv_security s) in
  Z.of_nat (length out) <= Z.max 0 (op_MaxPeersPerRound o) /\ NoDup (pe_ID <$> out)
  /\ Z.of_nat (length (filter (fun p => is_relay p = true) out)) <= Z.max 0 (sp_MaxRelaysPerRound pol)
  /\ Z.of_nat (length (filter (fun p => is_agent p = true) out)) <= Z.max 0 (sp_MaxAgentsPerRound pol)
  /\ Forall (fun q => penalised (pe_ID q) now s = false /\ exists p s', p ∈ candidates /\ sv_peers s' = sv_peers s /\ q = fill_in p s') out.
Proof.
  intros out pol. subst out. unfold SelectPeers. pose proof (score_all_from candidates s) as Hfrom. destruct (score_all_peers candidates s) as [Hp1 Hp2].
  destruct (score_all candidates now s) as [all0 s1]. cbn [fst snd] in *. set (all := sort_slice all0). set (mx := Z.min _ _).
  assert (forall x, x ∈ all -> penalised (pe_ID (sr_peer x)) now s = false /\ exists p s', p ∈ candidates /\ sv_peers s' = sv_peers s /\ sr_peer x = fill_in p s') as Hall.
  { intros x Hx. subst all. rewrite sort_slice_perm in Hx. destruct (Hfrom x Hx) as (p & s' & A & B & C & D & _). split; [done|]. by exists p, s'. }
  assert (selected_ok pol mx all (mkSelection [] 0 0 ∅ ∅ s1)) as H0 by (split; cbn; [done|lia|apply NoDup_nil_2|set_solver|done|done|lia|lia|set_solver]).
  pose proof (add_peers_ok pol mx all false all _ (add_peers_ok pol mx all true all _ H0 ltac:(done)) ltac:(done)) as H1.
  set (st := add_peers false mx all now _) in *.
  assert (forall out, Z.of_nat (length out) <= Z.max 0 mx -> NoDup (pe_ID <$> out) -> length (filter (fun p => is_relay p = true) out) = length (filter (fun p => is_relay p = true) (sel_out st)) ->
    length (filter (fun p => is_agent p = true) out) = length (filter (fun p => is_agent p = true) (sel_out st)) -> out ⊆ sr_peer <$> all ->
    Z.of_nat (length out) <= Z.max 0 (op_MaxPeersPerRound o) /\ NoDup (pe_ID <$> out)
    /\ Z.of_nat (length (filter (fun p => is_relay p = true) out)) <= Z.max 0 (sp_MaxRelaysPerRound pol)
    /\ Z.of_nat (length (filter (fun p => is_agent p = true) out)) <= Z.max 0 (sp_MaxAgentsPerRound pol)
    /\ Forall (fun q => penalised (pe_ID q) now s = false /\ exists p s', p ∈ candidates /\ sv_peers s' = sv_peers s /\ q = fill_in p s') out) as Hfin.
  { intros out A B C D E. destruct H1 as [S1 S2 S3 S4 S5 S6 S7 S8 S9]. split_and!; [subst mx; lia|done|rewrite C; lia|rewrite D; lia|]. apply Forall_forall. intros q Hq%E.
    apply list_elem_of_fmap in Hq as (x & -> & Hx). by apply Hall. }
  pose proof H1 as [S1 S2 S3 S4 S5 S6 S7 S8 S9].
  assert (forall (s' : SyncService), (sel_out st, s').1 = sel_out st) as Hsame by done.
  unfold swap_last. destruct draw as [rn|]; [|by apply Hfin]. destruct (last (sel_out st)) as [old|] eqn:El; [|by apply Hfin]. destruct (_ && _); [|by apply Hfin].
  destruct (find_swap _ _ _ _ _ _ _ _) as [cand|] eqn:Ef; [|by apply Hfin]. apply find_swap_spec in Ef as (F1 & F2 & F3). cbn [fst].
  pose proof (removelast_snoc _ _ El) as Es. set (front := removelast (sel_out st)) in *. rewrite Es in S2, S3, S9. apply Hfin; rewrite ?Es.
  - rewrite length_app in *. exact S2.
  - rewrite fmap_app in *. apply NoDup_app in S3 as (N1 & _ & _). apply NoDup_app. split; [done|]. split; [|apply NoDup_singleton]. intros x Hx ->%list_elem_of_singleton.
    apply F2, S4. rewrite Es, fmap_app. apply elem_of_app. by left.
  - apply Nat2Z.inj. rewrite !count_snoc. unfold is_relay. by rewrite F1.
  - apply Nat2Z.inj. rewrite !count_snoc. unfold is_agent. by rewrite F1.
  - intros x [Hx| ->%list_elem_of_singleton]%elem_of_app; [|done]. apply S9, elem_of_app. by left.
Qed.

End selection.
