(* ===== verification/SyncRelaySpec.v ===== *)
(** * What goes over relays arrives

    The layers of a message for several relays come off in order; what they cost in size; what
    is published, acknowledged and forwarded. *)

From S2P Require Import Prelude Sha256 GoStr LedgerEvent LedgerKinds Ledger LedgerInv LedgerReach LedgerSync LedgerSyncSpec RelayTypes Messaging.
From S2P Require Import SyncWire SyncSched SyncSecurity SyncService SyncRelay SyncServiceSpec.

#[local] Set Warnings "-clear-no-such-hyp".
#[local] Open Scope string_scope.
#[local] Open Scope list_scope.
#[local] Open Scope Z_scope.

(** ** Sizes *)

Lemma slen_EncodeToString b : bytes_ok b -> slen (EncodeToString b) = (4 * blen b + 2) / 3.
Proof. intros Hb. unfold slen, EncodeToString. rewrite bytes_of_str_of by by apply b64_enc_ok. apply b64_enc_length. Qed.

Lemma json_chars_printable l : Forall printable l -> (length l <= length (json_chars l))%nat.
Proof.
  induction 1 as [|x l Hx Hl IH]; [done|]. cbn [json_chars]. assert ((rune_len (x :: l) =? 1) = true) as ->.
  { unfold printable in Hx. unfold rune_len. destruct (Z.ltb_spec x 128); [done|lia]. }
  rewrite length_app. cbn [length]. assert (1 <= length (json_ascii x))%nat; [|lia]. unfold json_ascii. repeat case_match; cbn; lia.
Qed.

Lemma json_string_len s : Forall printable (bytes_of s) -> slen s + 2 <= blen (json_string s).
Proof. intros Hs%json_chars_printable. unfold json_string, slen, blen. rewrite !length_app. cbn [length]. lia. Qed.

Lemma comma_separated_len x l : x ∈ l -> blen x <= blen (comma_separated l).
Proof.
  destruct l as [|y l]; [by intros ?%elem_of_nil|]. cbn [comma_separated]. unfold blen. rewrite length_app. intros [->|Hx]%elem_of_cons; [lia|].
  assert (length x <= length (concat (map (fun y => 44%Z :: y) l)))%nat; [|lia]. induction l as [|z l IH]; [by apply elem_of_nil in Hx|].
  cbn [map concat]. rewrite length_app. cbn [length]. apply elem_of_cons in Hx as [->|Hx]; [lia|]. specialize (IH Hx). lia.
Qed.

Lemma json_field_len n v fields : (n, v) ∈ fields -> blen v <= blen (json_object fields).
Proof.
  intros Hin. unfold json_object. set (l := map _ fields). assert (json_string n ++ [58] ++ v ∈ l) as Hl by (apply list_elem_of_In, in_map_iff; exists (n, v); split; [done|by apply list_elem_of_In]).
  apply comma_separated_len in Hl. unfold blen in *. rewrite !length_app in *. cbn [length] in *. lia.
Qed.

Section layers.
Context `{McI : MsgCrypto} `{EjI : EnvelopeJSON} `{RjI : RouteJSON}.
Hypothesis HL : crypto_laws.
Hypothesis HJ : envelope_json_law.
(** Reading what [json.Marshal] wrote of a layer. *)
Hypothesis HR : forall mb env, validateMailboxID mb = Ok tt -> Forall printable (bytes_of env) -> read_route (json_route (mkRoute 1 mb env)) = Some (mkRoute 1 mb env).

Lemma json_route_ok m : bytes_ok (json_route m).
Proof. apply json_object_ok. repeat (apply Forall_cons_2; [cbn [snd]; auto with sl|]). constructor. Qed.

(** What is sealed is text, longer than what it seals by more than three quarters. *)
Lemma sealed_env pt pub e env : seal_env_ok e -> bytes_ok pt -> EncodeForRelay pt pub e = Some env -> Forall printable (bytes_of env) /\ 16 * blen pt < 9 * slen env.
Proof.
  intros He Hpt. unfold EncodeForRelay, EncryptToPreKey, NewX25519Keypair. destruct (se_priv e) as [sp|]; [|done]. cbn [mbind option_bind]. destruct (mc_public sp) as [sP|]; [|done]. cbn [mbind option_bind].
  unfold EncryptToPreKeyWithSender. cbn [kp_Private kp_Public]. destruct (DeriveSharedKey sp pub msg_info) as [key|]; [|done]. cbn [mbind option_bind]. destruct (se_nonce e) as [nonce|]; [|done]. cbn [mbind option_bind fst].
  intros [= <-]. destruct (law_seal HL key nonce pt sP Hpt) as [Hct Hlen]. set (ct := mc_seal key nonce pt sP) in *. set (ev := mkEnvelope _ _ _ _ _ _).
  assert (bytes_ok (json_envelope ev)) as Hok by apply json_sealed_ok. split; [by apply EncodeToString_printable|]. unfold Envelope_Encode. rewrite slen_EncodeToString by done.
  assert (blen (json_string (EncodeToString ct)) <= blen (json_envelope ev)) as H1.
  { apply (json_field_len "ct_b64url"). cbn [omit_empty is_empty en_ToMailbox ev]. subst ev. cbn [en_CiphertextB64 en_Version en_CreatedAt en_EphemeralPubB64 en_NonceB64 app]. do 4 right. by left. }
  pose proof (json_string_len (EncodeToString ct) (EncodeToString_printable ct Hct)) as H2. rewrite (slen_EncodeToString ct Hct), Hlen in H2. pose proof (blen_nonneg pt). Z.div_mod_to_equations. lia.
Qed.

Lemma route_longer mb env : Forall printable (bytes_of env) -> slen env <= blen (json_route (mkRoute 1 mb env)).
Proof.
  intros Hp. pose proof (json_string_len env Hp). etrans; [|apply (json_field_len "next_envelope" (json_string env))]; [lia|]. do 2 right. by left.
Qed.

Context (es : nat -> seal_env).
Hypothesis Hes : forall i, seal_env_ok (es i).

Lemma wrap_layers_size hops mb env mb' env' : Forall printable (bytes_of env) -> wrap_layers hops mb env es = Some (mb', env') ->
  Forall printable (bytes_of env') /\ slen env <= slen env' /\ (hops <> [] -> 16 * slen env < 9 * slen env').
Proof.
  revert mb env. induction hops as [|h hops IH]; intros mb env Hp; cbn [wrap_layers]; [by intros [= _ <-]|].
  destruct (EncodeForRelay _ _ _) as [w|] eqn:E; [|done]. cbn [mbind option_bind]. apply sealed_env in E as [Hw Hs]; [|done|apply json_route_ok].
  intros Hwrap. destruct (IH _ _ Hw Hwrap) as (I1 & I2 & _). pose proof (route_longer mb env Hp). assert (0 <= slen env) by apply blen_nonneg. split_and!; [done|lia|]. intros _. lia.
Qed.

(** The way of a message: at each hop its mailbox, the layer opened with the hop's key. *)
Fixpoint travel (hops : list RelayHop) (keys : list (list Z)) (mailbox env : string) : option (string * string) :=
  match hops, keys with
  | h :: hops', k :: keys' =>
      if bool_decide (mailbox = rh_Mailbox h) then m ← open_layer env k; travel hops' keys' (rr_NextMailbox m) (rr_NextEnvelope m) else None
  | [], [] => Some (mailbox, env)
  | _, _ => None
  end.

Lemma travel_app h1 k1 h2 k2 mailbox env : length h1 = length k1 ->
  travel (h1 ++ h2) (k1 ++ k2) mailbox env = (x ← travel h1 k1 mailbox env; travel h2 k2 x.1 x.2).
Proof.
  revert k1 mailbox env. induction h1 as [|h h1 IH]; intros [|k k1] mailbox env Hl; try done. cbn [app travel]. case_bool_decide; [|done].
  destruct (open_layer env k) as [m|]; [|done]. cbn [mbind option_bind]. apply IH. by injection Hl.
Qed.

(** The hop has the key, and its mailbox can be one. *)
Definition hop_ok (h : RelayHop) (k : list Z) : Prop := mc_public k = Some (rh_PreKeyPub h) /\ validateMailboxID (rh_Mailbox h) = Ok tt.

Lemma open_wrapped mb env h k e w : seal_env_ok e -> hop_ok h k -> validateMailboxID mb = Ok tt -> Forall printable (bytes_of env) -> env <> "" -> slen env <= maxEnvelopeLen ->
  EncodeForRelay (json_route (mkRoute 1 mb env)) (rh_PreKeyPub h) e = Some w -> open_layer w k = Some (mkRoute 1 mb env).
Proof.
  intros He [Hk _] Hmb Hp Hne Hmax. unfold EncodeForRelay. destruct (EncryptToPreKey _ _ e) as [[ev sender]|] eqn:E; [|done]. cbn [mbind option_bind fst]. intros [= <-].
  destruct (envelope_roundtrip (json_route (mkRoute 1 mb env)) k (rh_PreKeyPub h) e ev sender HL HJ He (json_route_ok _) Hk E) as [R1 R2].
  unfold open_layer, DecodeFromRelay. rewrite R1. cbn [mbind option_bind]. rewrite R2. cbn [mbind option_bind fst]. rewrite HR by done. cbn [mbind option_bind].
  assert (route_validate (mkRoute 1 mb env) = true) as ->; [|done]. unfold route_validate. cbn [rr_SchemaVersion rr_NextMailbox rr_NextEnvelope]. cbn [Z.eqb andb].
  unfold PullRequest_Validate, PushRequest_Validate, validateEnvelope. cbn [pl_Mailbox pl_WaitSec pu_Mailbox pu_Envelope pu_TTLSec pu_DelaySec pu_PoWBits]. rewrite Hmb. cbn.
  assert (is_empty env = false) as -> by (destruct env; done). cbn. by rewrite (proj2 (Z.leb_le _ _) Hmax).
Qed.

Lemma layers_come_off hops keys mb env mb' env' : Forall2 hop_ok hops keys -> validateMailboxID mb = Ok tt -> Forall printable (bytes_of env) -> env <> "" ->
  wrap_layers (reverse hops) mb env es = Some (mb', env') -> slen env' <= maxEnvelopeLen -> travel hops keys mb' env' = Some (mb, env).
Proof.
  revert keys mb env. induction hops as [|h hops IH] using rev_ind; intros keys mb env Hf Hmb Hp Hne Hw Hmax.
  - apply Forall2_nil_inv_l in Hf as ->. cbn in Hw. by injection Hw as <- <-.
  - apply Forall2_app_inv_l in Hf as (ks & [|k []] & Hks & Hf & ->); [by inversion Hf| |by inversion Hf as [|???? ? Hi]; inversion Hi]. apply Forall2_cons in Hf as [Hk _].
    rewrite reverse_snoc in Hw. cbn [wrap_layers] in Hw. destruct (EncodeForRelay _ _ _) as [w|] eqn:E; [|done]. cbn [mbind option_bind] in Hw.
    pose proof (sealed_env _ _ _ _ (Hes _) (json_route_ok _) E) as [Hwp Hws]. destruct (wrap_layers_size _ _ _ _ _ Hwp Hw) as (_ & Hle & _). pose proof (route_longer mb env Hp) as Hlong.
    assert (0 <= slen env) by apply blen_nonneg. assert (w <> "") as Hwne by (intros ->; change (slen "") with 0 in Hws; lia).
    rewrite travel_app by (by eapply Forall2_length). rewrite (IH ks (rh_Mailbox h) w Hks (proj2 Hk) Hwp Hwne Hw Hmax). cbn [mbind option_bind fst snd travel].
    rewrite bool_decide_eq_true_2 by done. rewrite (open_wrapped mb env h k (es (length (reverse hops))) w) by (try done; lia). done.
Qed.

(** C25: A message sealed for several hops, which fits the relays, takes its way: each hop finds
    it in its mailbox and opens its own layer, and in the recipient's mailbox it is an envelope
    that the recipient opens to the plaintext. *)
Theorem layered_message_arrives pt mb pub priv hops keys mb' env' : bytes_ok pt -> validateMailboxID mb = Ok tt -> mc_public priv = Some pub -> Forall2 hop_ok hops keys ->
  EncodeForRelayMultiHop pt mb pub hops es = Some (mb', env') -> slen env' <= maxEnvelopeLen ->
  exists env sender, travel hops keys mb' env' = Some (mb, env) /\ DecodeFromRelay env priv = Some (pt, sender).
Proof.
  intros Hpt Hmb Hpub Hf He Hmax. unfold EncodeForRelayMultiHop in He. destruct (EncodeForRelay pt pub _) as [env|] eqn:E; [|done]. cbn [mbind option_bind] in He.
  pose proof (sealed_env _ _ _ _ (Hes _) Hpt E) as [Hp Hs]. pose proof (blen_nonneg pt). assert (env <> "") as Hne by (intros ->; change (slen "") with 0 in Hs; lia).
  unfold EncodeForRelay in E. destruct (EncryptToPreKey _ _ _) as [[ev sender]|] eqn:Ee; [|done]. cbn [mbind option_bind fst] in E. injection E as <-.
  destruct (envelope_roundtrip pt priv pub _ ev sender HL HJ (Hes _) Hpt Hpub Ee) as [R1 R2]. exists (Envelope_Encode ev), sender. split; [by apply layers_come_off|].
  unfold DecodeFromRelay. rewrite R1. exact R2.
Qed.

(** A plaintext of more than 82944 bytes never fits once it takes a hop, though the service
    lets 122880 pass: every relay that checks requests refuses the push. *)
Theorem full_batch_takes_no_hop pt mb pub hops mb' env' ttl delay pow nonce : bytes_ok pt -> hops <> [] -> 82944 <= blen pt ->
  EncodeForRelayMultiHop pt mb pub hops es = Some (mb', env') -> PushRequest_Validate (mkPush mb' env' ttl delay pow nonce) <> Ok tt.
Proof.
  intros Hpt Hh Hlen He. unfold EncodeForRelayMultiHop in He. destruct (EncodeForRelay pt pub _) as [env|] eqn:E; [|done]. cbn [mbind option_bind] in He.
  pose proof (sealed_env _ _ _ _ (Hes _) Hpt E) as [Hp Hs]. destruct (wrap_layers_size _ _ _ _ _ Hp He) as (_ & _ & H9).
  assert (reverse hops <> []) as Hr by (intros Hn; apply Hh; by rewrite <- (reverse_involutive hops), Hn). specialize (H9 Hr).
  unfold PushRequest_Validate, validateEnvelope. cbn [pu_Mailbox pu_Envelope]. destruct (validateMailboxID mb') as [[]|]; [|done]. cbn [rbind].
  destruct (is_empty env'); [done|]. cbn [negb]. destruct (Z.leb_spec (slen env') maxEnvelopeLen) as [Hm|]; [|done]. unfold maxEnvelopeLen in Hm. lia.
Qed.

End layers.

(** ** Publishing *)

Section publishing.
Context `{EdI : Ed25519} {R : Type} `{RoI : RelayOps R}.
Context (su : Setup) (encode : nat -> list Z -> option (string * string)) (fill : nat -> Z -> option (list Z)).
Context (sid ctx : string) (ttlSec powBits : Z) (l : Ledger).

(** A push that carries stored events, all of kinds that may go out, in a plaintext of at most
    the bytes a relay takes. *)
Definition allowed_push (req : PushRequest) : Prop := exists i msg pt, padded su (encodeWire "events" sid ctx (json_events msg)) pt /\ blen pt <= relayPlainMax
  /\ encode i pt = Some (pu_Mailbox req, pu_Envelope req) /\ em_Events msg <> [] /\ Forall (stored_and_allowed su ctx l) (em_Events msg).

Lemma batches_spec (I : R -> Prop) batches i pending r : sat bound l -> (forall req r, allowed_push req -> I r -> I (relay_push req r).2) -> I r ->
  let '(n, _, r') := publish_batches su encode fill batches i sid ctx ttlSec powBits l pending r in I r' /\ 0 <= n <= Z.of_nat (length pending).
Proof.
  intros Hl HI. revert i pending r. induction batches as [|batches IH]; intros i pending r Hr; cbn [publish_batches]; [split; [done|lia]|].
  set (p := filterOutgoingIDs su pending ctx l). assert (length p <= length pending)%nat as Hp by apply length_filter.
  destruct p as [|id0 p'] eqn:Ep; [split; [done|lia]|]. rewrite <- Ep in Hp |- *. set (lim := event_limits su _).
  pose proof (filtered_events su pending ctx lim l) as Hfe. fold p in Hfe. rewrite Ep in Hfe. rewrite <- Ep in Hfe.
  destruct (BuildEventsMessageBounded_fits p lim l) as (_ & Hnd & Hw); [intros id e He; by destruct (Hl id e He)|].
  remember (BuildEventsMessageBounded p lim l) as msg eqn:Em. destruct (em_Events msg) as [|e0 evs'] eqn:Ee; [split; [done|lia]|].
  set (evs := e0 :: evs') in *. set (pt := if 0 <? _ then default _ _ else _). destruct (Z.ltb_spec relayPlainMax (blen pt)) as [|Hsz]; [split; [done|lia]|].
  destruct (encode i pt) as [[mailbox env]|] eqn:Eenc; [|split; [done|lia]].
  assert (allowed_push (mkPush mailbox env ttlSec 0 powBits "")) as Hgood.
  { exists i, msg, pt. split_and!; [by exists (fill i)|done|done|by rewrite Ee|]. rewrite Ee. apply Forall_forall. intros ev Hev. by apply Hfe. }
  pose proof (HI _ r Hgood Hr) as Hr'. destruct (relay_push _ r) as [[mid|e] r1]; cbn [snd] in Hr'; [|split; [done|lia]].
  set (kept := filter (fun id => id ∉ ID <$> evs) p). specialize (IH (S i) kept r1 Hr'). destruct (publish_batches _ _ _ batches _ _ _ _ _ _ _ _) as [[n err] r2]. destruct IH as [I1 I2]. split; [done|].
  assert (length evs + length kept <= length p)%nat; [|lia]. assert (forall ev, ev ∈ evs -> ID ev ∈ p) as Hin.
  { intros ev Hev. specialize (Hw ev Hev). apply trimmed_spec in Hw as (_ & y & Hy & Ey). assert (TrimSpace y = y) as Ht; [|congruence].
    subst p. apply list_elem_of_filter in Hy as [Hy _]. unfold Get in Hy. destruct (events l !! y) as [ev'|] eqn:E; [|done].
    destruct (Hl y ev' E) as [<- Hb]. rewrite Hb. apply TrimSpace_printable, EncodeToString_printable, Sum256_ok. }
  pose proof (NoDup_submseteq (ID <$> evs) (filter (fun id => id ∈ ID <$> evs) p) Hnd) as Hsub.
  rewrite <- (length_fmap ID evs). etrans; [apply Nat.add_le_mono_r, submseteq_length, Hsub; intros x Hx; apply list_elem_of_filter; split; [done|];
    apply list_elem_of_fmap in Hx as (ev & -> & Hev); by apply Hin|].
  clear. subst kept. induction p as [|x p IH]; [done|]. rewrite !filter_cons. destruct (decide (x ∈ ID <$> evs)); [rewrite decide_False by tauto|rewrite decide_True by done]; cbn [length]; lia.
Qed.

(** What a call publishes, whatever the relay answers: every push carries stored events of
    kinds that may go out in the context, within the bytes of a relay; and no more events are
    reported as sent than were asked for. *)
Theorem published_events_are_allowed (I : R -> Prop) rnd want r : sat bound l -> newSessionID rnd = Some sid ->
  (forall req r, allowed_push req -> I r -> I (relay_push req r).2) -> I r ->
  let '(n, _, r') := publish su encode fill rnd ctx want ttlSec powBits l r in I r' /\ 0 <= n <= Z.of_nat (length want).
Proof.
  intros Hl Hsid HI Hr. unfold publish. destruct (negb _); [split; [done|lia]|]. destruct want as [|w want]; [split; [done|lia]|]. rewrite Hsid. by apply batches_spec.
Qed.

End publishing.
