(* ===== verification/SyncPrim.v ===== *)
(** * The exchange of identifiers as bytes ([pkg/ledgersync/primitives.go])

    [Sync] keeps the identifiers that peers have named as heads and the ledger lacks, asks for
    them, and applies what comes.  The messages carry identifiers as bytes.  [range] gives the
    order in which a loop over a map visits its keys. *)

From S2P Require Import Prelude Sha256 GoStr LedgerEvent LedgerKinds Ledger LedgerSync.

#[local] Open Scope string_scope.
#[local] Open Scope list_scope.
#[local] Open Scope Z_scope.

Record HeadsMessage := mkRawHeads { ph_Heads : list (list Z) }.
Record InventoryMessage := mkRawInventory { pi_Heads : list (list Z); pi_Have : list (list Z) }.
Record WantMessage := mkRawWant { pw_Want : list (list Z) }.
(** A pointer to an event may be nil. *)
Record EventsMessage := mkRawEvents { pe_Events : list (option Event) }.

Record Sync := mkSync { sy_ledger : Ledger; sy_pendingWant : gset string }.

Definition NewSync (l : Ledger) : Sync := mkSync l ∅.

Definition decodeIDs (ids : list string) : list (list Z) := omap DecodeString ids.
Definition encodeIDs (ids : list (list Z)) : list string := EncodeToString <$> filter (fun id => id <> []) ids.

Definition BuildHeadsMessage (s : Sync) : HeadsMessage :=
  mkRawHeads (decodeIDs (hm_Heads (LedgerSync.BuildHeadsMessage (sy_ledger s)))).

Definition BuildInventoryMessage (range : gset string -> list string) (maxHave : Z) (s : Sync) : InventoryMessage :=
  let inv := LedgerSync.BuildInventoryMessage range maxHave (sy_ledger s) in
  mkRawInventory (decodeIDs (iv_Heads inv)) (decodeIDs (iv_Have inv)).

(** What is wanted so far, and the identifiers that were looked at. *)
Definition addWant (maxWant : Z) (l : Ledger) (peerHas : list string) (id : string) (w : list (list Z) * list string) : list (list Z) * list string :=
  let '(want, wantSet) := w in
  if is_empty id || (maxWant <=? Z.of_nat (length want)) || Have id l || negb (bool_decide (id ∈ peerHas)) || bool_decide (id ∈ wantSet) then w
  else
    match DecodeString id with
    | None => (want, id :: wantSet)
    | Some raw => (want ++ [raw], id :: wantSet)
    end.

(** [for _, id := range ids { if len(want) >= maxWant { break }; addWant(id) }] *)
Fixpoint want_each (maxWant : Z) (l : Ledger) (peerHas ids : list string) (w : list (list Z) * list string) : list (list Z) * list string :=
  match ids with
  | [] => w
  | id :: ids' => if maxWant <=? Z.of_nat (length w.1) then w else want_each maxWant l peerHas ids' (addWant maxWant l peerHas id w)
  end.

(** The heads of the peer first, then what is referred to and missing, what peers named, and the
    rest of what the peer has. *)
Definition PlanSyncFromPeer (range : gset string -> list string) (peerInv : InventoryMessage) (maxWant : Z) (s : Sync) : WantMessage :=
  let maxWant := or_default maxWant 256 in
  let l := sy_ledger s in
  let peerHeads := encodeIDs (pi_Heads peerInv) in
  let peerHave := encodeIDs (pi_Have peerInv) in
  let peerHas := filter (fun id => is_empty id = false) (peerHeads ++ peerHave) in
  let each := want_each maxWant l peerHas in
  mkRawWant (each peerHave (each (range (sy_pendingWant s)) (each (range (dom (MissingRefs l))) (each peerHeads ([], []))))).1.

Definition BuildEventsMessage (w : WantMessage) (maxEvents : Z) (s : Sync) : EventsMessage :=
  mkRawEvents (Some <$> em_Events (LedgerSync.BuildEventsMessage (encodeIDs (pw_Want w)) (or_default maxEvents 256) (sy_ledger s))).

Definition with_pending (p : gset string) (s : Sync) : Sync := mkSync (sy_ledger s) p.

Definition ApplyHeadsMessage (msg : HeadsMessage) (s : Sync) : Sync :=
  with_pending (sy_pendingWant s ∪ list_to_set (filter (fun id => is_empty id = false /\ Have id (sy_ledger s) = false) (encodeIDs (ph_Heads msg)))) s.

Section applying.
Context `{Ed25519} `{PayloadJSON}.

Definition apply_event (clock : Z) (evp : option Event) (rs : ApplyReport * Sync) : ApplyReport * Sync :=
  let '(rep, s) := rs in
  match evp with
  | None => (count_rejected rep, s)
  | Some ev =>
      if Have (ID ev) (sy_ledger s) then (count_dupe rep, with_pending (sy_pendingWant s ∖ {[ID ev]}) s)
      else
        match ApplyWithContext ev "" None None clock (sy_ledger s) with
        | (Err _, l) => (count_rejected rep, mkSync l (sy_pendingWant s))
        | (Ok _, l) => (count_applied rep, mkSync l (sy_pendingWant s ∖ {[ID ev]}))
        end
  end.

Definition ApplyEventsMessage (msg : EventsMessage) (clock : Z) (s : Sync) : ApplyReport * Sync :=
  fold_left (fun rs evp => apply_event clock evp rs) (pe_Events msg) (no_report, s).

End applying.
