(* ===== verification/SyncPrimSpec.v ===== *)
(** * What an exchange brings

    A plan asks for what the peer has and the ledger lacks, each once; and one exchange with
    room for it brings everything the peer has, when the two ledgers do not contradict each
    other. *)

From S2P Require Import Prelude Sha256 GoStr LedgerEvent LedgerKinds Ledger LedgerInv LedgerReach LedgerPrune LedgerTrust LedgerSync LedgerSyncSpec LedgerAgree SyncPrim.

#[local] Set Warnings "-clear-no-such-hyp".
#[local] Open Scope Z_scope.

(** ** Identifiers as bytes *)

(** An identifier that is the text of bytes. *)
Definition encoded (id : string) : Prop := exists b, bytes_ok b /\ b <> [] /\ id = EncodeToString b.

Lemma encoded_trim id : encoded id -> TrimSpace id = id.
Proof. intros (b & Hb & _ & ->). by apply TrimSpace_printable, EncodeToString_printable. Qed.

Lemma encoded_not_empty id : encoded id -> is_empty id = false.
Proof.
  intros (b & Hb & Hne & ->). destruct (EncodeToString b) eqn:E; [|done]. exfalso. apply Hne.
  apply EncodeToString_inj; [done|constructor|]. rewrite E. by vm_compute.
Qed.

Lemma encode_decode ids : Forall encoded ids -> encodeIDs (decodeIDs ids) = ids.
Proof.
  unfold encodeIDs, decodeIDs. induction 1 as [|id ids (b & Hb & Hne & ->) _ IH]; [done|].
  cbn [omap list_omap]. rewrite DecodeString_EncodeToString by done. rewrite filter_cons_True by done. cbn. by f_equal.
Qed.

Lemma bound_encoded `{Ed25519} ev : bound ev -> encoded (ID ev).
Proof.
  intros Hb. exists (unsignedHash ev). split; [apply Sum256_ok|]. split; [|done].
  intros E. apply (f_equal (@length Z)) in E. revert E. unfold unsignedHash. by rewrite Sum256_length.
Qed.

(** ** Plans *)

Lemma decodeIDs_length ids : Forall encoded ids -> length (decodeIDs ids) = length ids.
Proof.
  unfold decodeIDs. induction 1 as [|id ids (b & Hb & _ & ->) _ IH]; [done|]. cbn [omap list_omap]. rewrite DecodeString_EncodeToString by done. cbn. by rewrite IH.
Qed.

(** Over identifiers that are texts of bytes, a plan is one of the ledger's own. *)
Lemma want_each_add_wants maxWant l peerHas ids want : Forall encoded peerHas -> Forall encoded want ->
  let r := add_wants maxWant l peerHas ids want in
  want_each maxWant l peerHas ids (decodeIDs want, reverse want) = (decodeIDs r, reverse r) /\ Forall encoded r.
Proof.
  intros Hp. revert want. induction ids as [|id ids IH]; intros want Hw; cbn [add_wants want_each fst]; [done|].
  rewrite (decodeIDs_length want Hw). destruct (Z.leb_spec maxWant (Z.of_nat (length want))) as [|Hlt]; [done|].
  assert ((maxWant <=? Z.of_nat (length (decodeIDs want))) = false) as Hb by (rewrite decodeIDs_length by done; lia).
  unfold addWant, Have. rewrite Hb, orb_false_r.
  assert (bool_decide (id ∈ reverse want) = bool_decide (id ∈ want)) as -> by (apply bool_decide_ext, elem_of_reverse).
  destruct (is_empty id || has_event l id || negb (bool_decide (id ∈ peerHas)) || bool_decide (id ∈ want)) eqn:Eb; [by apply IH|].
  apply orb_false_iff in Eb as [[_ Hin%negb_false_iff%bool_decide_eq_true]%orb_false_iff _].
  rewrite Forall_forall in Hp. destruct (Hp _ Hin) as (b & Hbs & Hne & ->). rewrite DecodeString_EncodeToString by done.
  assert (decodeIDs want ++ [b] = decodeIDs (want ++ [EncodeToString b])) as ->.
  { unfold decodeIDs. rewrite omap_app. cbn. by rewrite DecodeString_EncodeToString. }
  assert (EncodeToString b :: reverse want = reverse (want ++ [EncodeToString b])) as -> by by rewrite reverse_snoc.
  apply IH, Forall_app. split; [done|]. constructor; [by exists b|done].
Qed.

Lemma encodeIDs_encoded ids : Forall bytes_ok ids -> Forall encoded (encodeIDs ids).
Proof.
  intros Hb. unfold encodeIDs. apply Forall_fmap, Forall_forall. intros b [Hne Hin]%list_elem_of_filter.
  exists b. rewrite Forall_forall in Hb. split; [by apply Hb|]. done.
Qed.

(** The identifiers of a plan. *)
Definition planned (range : gset string -> list string) (inv : InventoryMessage) (maxWant : Z) (s : Sync) : list string :=
  let l := sy_ledger s in
  let hs := encodeIDs (pi_Heads inv) in let have := encodeIDs (pi_Have inv) in
  let each := add_wants (or_default maxWant 256) l (filter (fun id => is_empty id = false) (hs ++ have)) in
  each have (each (range (sy_pendingWant s)) (each (range (dom (MissingRefs l))) (each hs []))).

Lemma plan_is_planned range inv maxWant s : Forall bytes_ok (pi_Heads inv) -> Forall bytes_ok (pi_Have inv) ->
  pw_Want (PlanSyncFromPeer range inv maxWant s) = decodeIDs (planned range inv maxWant s) /\ Forall encoded (planned range inv maxWant s).
Proof.
  intros Hh Hv. unfold PlanSyncFromPeer, planned. cbv zeta.
  set (has := filter _ _). assert (Forall encoded has) as Hp.
  { apply Forall_forall. intros x [_ Hx]%list_elem_of_filter. revert x Hx. apply Forall_forall. apply Forall_app. split; by apply encodeIDs_encoded. }
  set (m := or_default maxWant 256). set (l := sy_ledger s).
  change (@nil (list Z), @nil string) with (decodeIDs [], reverse (@nil string)).
  destruct (want_each_add_wants m l has (encodeIDs (pi_Heads inv)) [] Hp (Forall_nil_2 _)) as [-> F1].
  destruct (want_each_add_wants m l has (range (dom (MissingRefs l))) _ Hp F1) as [-> F2].
  destruct (want_each_add_wants m l has (range (sy_pendingWant s)) _ Hp F2) as [-> F3].
  destruct (want_each_add_wants m l has (encodeIDs (pi_Have inv)) _ Hp F3) as [-> F4]. done.
Qed.

(** One more list of candidates. *)
Lemma add_wants_more m l has ids want : NoDup want -> Z.of_nat (length want) <= m -> Forall (wanted l has) want ->
  let r := add_wants m l has ids want in NoDup r /\ Z.of_nat (length r) <= m /\ Forall (wanted l has) r
  /\ (Z.of_nat (length r) < m -> Z.of_nat (length want) < m /\ forall x, x ∈ want \/ (x ∈ ids /\ wanted l has x) -> x ∈ r).
Proof.
  intros Hnd Hlen Hw. destruct (add_wants_spec m l has ids want Hnd Hlen) as (K1 & K2 & K3 & K4 & K5). split; [done|]. split; [done|]. split.
  - apply Forall_forall. intros x [Hx|[_ Hx]]%K4; [|done]. rewrite Forall_forall in Hw. by apply Hw.
  - intros Hlt. split.
    + pose proof (submseteq_length _ _ (NoDup_submseteq _ _ Hnd K3)). lia.
    + intros x [Hx|[Hx Hwx]]; [by apply K3|by apply K5].
Qed.

Lemma planned_spec range inv maxWant s : let l := sy_ledger s in let r := planned range inv maxWant s in
  let ids := (encodeIDs (pi_Heads inv) ++ encodeIDs (pi_Have inv))%list in
  NoDup r /\ Z.of_nat (length r) <= or_default maxWant 256 /\ Forall (wanted l ids) r
  /\ (Z.of_nat (length r) < or_default maxWant 256 -> forall x, wanted l ids x -> x ∈ r).
Proof.
  unfold planned. cbv zeta. set (l := sy_ledger s). set (hs := encodeIDs _). set (have := encodeIDs _). set (has := filter _ _). set (m := or_default maxWant 256).
  assert (0 < m) as Hm by by apply or_default_pos.
  assert (forall x, wanted l (hs ++ have) x <-> wanted l has x) as Hhas.
  { intros x. unfold wanted, has. rewrite list_elem_of_filter. tauto. }
  destruct (add_wants_more m l has hs [] (NoDup_nil_2) ltac:(cbn; lia) (Forall_nil_2 _)) as (N1 & L1 & W1 & C1).
  destruct (add_wants_more m l has (range (dom (MissingRefs l))) _ N1 L1 W1) as (N2 & L2 & W2 & C2).
  destruct (add_wants_more m l has (range (sy_pendingWant s)) _ N2 L2 W2) as (N3 & L3 & W3 & C3).
  destruct (add_wants_more m l has have _ N3 L3 W3) as (N4 & L4 & W4 & C4).
  split; [done|]. split; [done|]. split; [eapply Forall_impl; [exact W4|]; intros x; apply Hhas|].
  intros Hlt x Hx. apply Hhas in Hx as Hx'. destruct (C4 Hlt) as [Hlt3 C4']. destruct (C3 Hlt3) as [Hlt2 C3']. destruct (C2 Hlt2) as [Hlt1 C2']. destruct (C1 Hlt1) as [_ C1'].
  destruct Hx as (_ & _ & [Hin|Hin]%elem_of_app); apply C4'; [left|by right]. apply C3'. left. apply C2'. left. apply C1'. by right.
Qed.

Lemma encodeIDs_elem raw ids : raw ∈ ids -> raw <> [] -> EncodeToString raw ∈ encodeIDs ids.
Proof. intros Hin Hne. unfold encodeIDs. apply list_elem_of_fmap_2, list_elem_of_filter. done. Qed.

(** A plan asks for identifiers the peer has shown and the ledger lacks, each once and at most
    the limit; and when fewer than that, for all of them. *)
Theorem plan_asks_what_is_lacking range inv maxWant s : Forall bytes_ok (pi_Heads inv) -> Forall bytes_ok (pi_Have inv) ->
  let want := pw_Want (PlanSyncFromPeer range inv maxWant s) in let lacking raw := Have (EncodeToString raw) (sy_ledger s) = false in
  NoDup want /\ Z.of_nat (length want) <= or_default maxWant 256
  /\ (forall raw, raw ∈ want -> raw ∈ pi_Heads inv ++ pi_Have inv /\ lacking raw)
  /\ (Z.of_nat (length want) < or_default maxWant 256 -> forall raw, raw ∈ pi_Heads inv ++ pi_Have inv -> raw <> [] -> lacking raw -> raw ∈ want).
Proof.
  intros Hh Hv. cbv zeta. destruct (plan_is_planned range inv maxWant s Hh Hv) as [-> Henc].
  destruct (planned_spec range inv maxWant s) as (Hnd & Hlen & Hw & Hall). rewrite decodeIDs_length by done.
  set (ids := planned range inv maxWant s) in *.
  assert (forall raw, raw ∈ pi_Heads inv ++ pi_Have inv -> bytes_ok raw) as Hok.
  { apply Forall_forall, Forall_app. done. }
  assert (forall raw, raw ∈ decodeIDs ids -> exists id, id ∈ ids /\ bytes_ok raw /\ id = EncodeToString raw) as Hraw.
  { intros raw (id & Hid & Hd)%list_elem_of_omap. rewrite Forall_forall in Henc. destruct (Henc _ Hid) as (b & Hb & _ & ->).
    rewrite DecodeString_EncodeToString in Hd by done. simplify_eq. eauto. }
  split_and!; [|done| |].
  - assert (encodeIDs (decodeIDs ids) = ids) as E by by apply encode_decode.
    clear -Hnd E Henc. unfold decodeIDs. clear E. induction ids as [|id ids IH]; [constructor|].
    inversion Henc as [|? ? (b & Hb & Hne & ->) Hs]; subst. inversion Hnd as [|? ? Hn Hnd']; subst. cbn. rewrite DecodeString_EncodeToString by done.
    constructor; [|by apply IH]. intros (id & Hid & Hd)%list_elem_of_omap. rewrite Forall_forall in Hs. destruct (Hs _ Hid) as (b' & Hb' & _ & ->).
    rewrite DecodeString_EncodeToString in Hd by done. by simplify_eq.
  - intros raw (id & Hid & Hb & ->)%Hraw. rewrite Forall_forall in Hw. destruct (Hw _ Hid) as (_ & Hlack & Hin). split; [|done].
    unfold encodeIDs in Hin. rewrite <- fmap_app, <- filter_app in Hin. apply list_elem_of_fmap in Hin as (raw' & E & [_ Hin]%list_elem_of_filter).
    apply EncodeToString_inj in E as ->; [done|done|by apply Hok].
  - intros Hlt raw Hin Hne Hlack. assert (EncodeToString raw ∈ ids) as Hid.
    { apply Hall; [done|]. split_and!; [apply encoded_not_empty; exists raw; split; [by apply Hok|done]|done|].
      unfold encodeIDs. rewrite <- fmap_app, <- filter_app. by apply encodeIDs_elem. }
    apply list_elem_of_omap. exists (EncodeToString raw). split; [done|]. by apply DecodeString_EncodeToString, Hok.
Qed.

(** ** Applying *)

Section exchange.
Context {EdI : Ed25519} {PJ : PayloadJSON}.

Definition tidy (l : Ledger) : Prop := ledger_ok l /\ sat bound l /\ seqs_ok l.

(** No author has two numbers for one event, and every event continues its predecessor. *)
Definition compatible (U : gmap string Event) : Prop :=
  (forall i1 i2 e1 e2, U !! i1 = Some e1 -> U !! i2 = Some e2 -> Author e1 = Author e2 -> Seq e1 = Seq e2 -> e1 = e2)
  /\ (forall id ev prev, U !! id = Some ev -> 1 < Seq ev -> U !! Prev ev = Some prev -> Author prev = Author ev /\ u64 (Seq prev + 1) = Seq ev).

Lemma tidy_insert ev req wt l : bound ev -> events l !! ID ev = None -> seq_conflict ev l = false -> tidy l -> tidy (insert_event ev req wt (touch_author ev l)).
Proof.
  intros Hb Hn Hc (H1 & H2 & H3). split_and!.
  - apply (closed_insert _ _ ledger_ok_closed); [done|done|by unfold seq_conflict; rewrite seqs_touch|]. by apply (closed_touch _ _ ledger_ok_closed).
  - apply (closed_insert _ _ (sat_closed bound)); [done|done|by unfold seq_conflict; rewrite seqs_touch|done].
  - apply (closed_insert _ _ seqs_ok_closed); [done|done|by unfold seq_conflict; rewrite seqs_touch|]. by apply (closed_touch _ _ seqs_ok_closed).
Qed.

Lemma run_tidy ops : Forall (fun o => prunes o = false) ops -> tidy (run ops New).
Proof.
  intros Hops. split; [apply run_ok, New_ok|]. split; [|by apply run_seqs_ok; [|apply New_seqs_ok]].
  intros id ev Hid. destruct (stored_events_authentic ops id ev Hid) as (E1 & E2 & _). split; [exact E1|]. unfold bound. by rewrite E1.
Qed.

Lemma apply_brings U ev clock l : tidy l -> events l ⊆ U -> compatible U -> U !! ID ev = Some ev -> bound ev ->
  validateWithPolicy ev DefaultPolicy clock = Ok tt -> events l !! ID ev = None ->
  exists l', ApplyWithContext ev "" None None clock l = (Ok StatusAccepted, l') /\ tidy l' /\ events l' = <[ID ev := ev]> (events l).
Proof.
  intros Ht Hs [Hu Hp] Hin Hb Hv Hn. pose proof Ht as (_ & Hsat & Hseq).
  assert (has_event l (ID ev) = false) as Hh by (unfold has_event; rewrite Hn; done).
  assert (seqs_of l (Author ev) !! Seq ev = None) as Hfree.
  { destruct (seqs_of _ _ !! _) as [ex|] eqn:E; [|done]. apply Hseq in E as (e & He & Hid & Ha & Hq).
    assert (e = ev) as -> by (apply (Hu ex (ID ev)); [by eapply lookup_weaken|done..]). congruence. }
  assert (seq_conflict ev l = false) as Hc by by (unfold seq_conflict; rewrite Hfree).
  assert (check_prev ev l = Ok tt) as Hcp.
  { unfold check_prev. destruct (Z.ltb_spec 1 (Seq ev)) as [H1|]; [|done]. destruct (events l !! Prev ev) as [prev|] eqn:E; [|done].
    destruct (Hp (ID ev) ev prev) as [-> ->]; [done|done|by eapply lookup_weaken|]. by rewrite String.eqb_refl, Z.eqb_refl. }
  unfold ApplyWithContext. cbn [default from_option id]. rewrite Hv. unfold applyLocked. rewrite Hh. cbv zeta. rewrite seqs_touch, Hfree.
  unfold apply_new. change (RequireKnownPrev DefaultPolicy) with false. rewrite andb_false_r. cbn [andb].
  change (check_prev ev (touch_author ev l)) with (check_prev ev l). rewrite Hcp. unfold addLocked.
  change (has_event (touch_author ev l) (ID ev)) with (has_event l (ID ev)). rewrite Hh, andb_false_r. cbn [andb].
  assert (seq_conflict ev (touch_author ev (touch_author ev l)) = false) as -> by (unfold seq_conflict; rewrite !seqs_touch, Hfree; done).
  eexists. split; [reflexivity|]. cbn [autoWitnessAfterApplyLocked]. split.
  - apply (tidy_insert ev false _ (touch_author ev l)); [done|done| |].
    + unfold seq_conflict. by rewrite seqs_touch, Hfree.
    + destruct Ht as (T1 & T2 & T3). split; [by apply (closed_touch _ _ ledger_ok_closed)|]. split; [done|]. by apply (closed_touch _ _ seqs_ok_closed).
  - apply (insert_event_events ev false _ (touch_author ev (touch_author ev l))).
Qed.

(** ** A whole exchange *)

(** Applying events of [U], the ledger stays within [U] and takes in all of them. *)
Lemma apply_all U clock evs : compatible U -> Forall (fun ev => validateWithPolicy ev DefaultPolicy clock = Ok tt /\ bound ev) evs ->
  forall rep s, tidy (sy_ledger s) -> events (sy_ledger s) ⊆ U -> (forall ev, ev ∈ evs -> events (sy_ledger s) !! ID ev = None -> U !! ID ev = Some ev) ->
  let r := fold_left (fun rs evp => apply_event clock evp rs) (Some <$> evs) (rep, s) in
  tidy (sy_ledger r.2) /\ events (sy_ledger r.2) ⊆ U /\ events (sy_ledger s) ⊆ events (sy_ledger r.2) /\ Rejected r.1 = Rejected rep
  /\ (forall ev, ev ∈ evs -> is_Some (events (sy_ledger r.2) !! ID ev) /\ ID ev ∉ sy_pendingWant r.2) /\ sy_pendingWant r.2 ⊆ sy_pendingWant s.
Proof.
  intros Hu Hevs. induction Hevs as [|ev evs [Hv Hb] _ IH]; intros rep s Ht Hs Hin; cbn [fmap list_fmap fold_left].
  { split_and!; try done. intros ev Hev%elem_of_nil. done. }
  set (r1 := apply_event clock (Some ev) (rep, s)).
  assert (tidy (sy_ledger r1.2) /\ events (sy_ledger r1.2) ⊆ U /\ events (sy_ledger s) ⊆ events (sy_ledger r1.2) /\ Rejected r1.1 = Rejected rep
    /\ is_Some (events (sy_ledger r1.2) !! ID ev) /\ sy_pendingWant r1.2 = sy_pendingWant s ∖ {[ID ev]}) as (T1 & S1 & G1 & R1 & E1 & P1).
  { subst r1. unfold apply_event, Have, has_event. destruct (bool_decide_reflect (is_Some (events (sy_ledger s) !! ID ev))) as [Hh|Hn].
    - by split_and!.
    - apply eq_None_not_Some in Hn. destruct (apply_brings U ev clock (sy_ledger s)) as (l' & -> & Ht' & He'); [done|done|done|by apply Hin; [left|]|done..|].
      cbn [fst snd sy_ledger sy_pendingWant]. rewrite He'. split_and!; try done.
      + apply insert_subseteq_l; [|done]. apply Hin; [by left|done].
      + by apply insert_subseteq.
      + by rewrite lookup_insert_eq. }
  destruct r1 as [rep1 s1] eqn:Er1. cbn [fst snd] in *. destruct (IH rep1 s1) as (T2 & S2 & G2 & R2 & E2 & P2); [done|done| |].
  { intros e He Hn. apply Hin; [by right|]. by eapply lookup_weaken_None. }
  split_and!; [done|done|by etrans|congruence| |clear -P1 P2; set_solver].
  intros e [->|He]%elem_of_cons; [|by apply E2]. split; [|clear -P1 P2; set_solver].
  destruct E1 as [x Hx]. exists x. by eapply lookup_weaken.
Qed.

(** All of [want] is selected while there is room. *)
Lemma select_all max l want out : Forall encoded want -> Forall (fun id => is_Some (events l !! id)) want -> Z.of_nat (length out + length want) <= max ->
  exists evs, select_events max l want out = out ++ evs /\ Forall2 (fun id ev => events l !! id = Some ev) want evs.
Proof.
  intros Henc Hin. revert out. induction Henc as [|id want He _ IH]; intros out Hlen; cbn [select_events].
  { exists []. by rewrite app_nil_r. }
  inversion Hin as [|? ? [ev Hev] Hin']; subst. rewrite (encoded_trim _ He), (encoded_not_empty _ He), Hev. cbn [length] in Hlen.
  destruct (Z.leb_spec max (Z.of_nat (length (out ++ [ev])))) as [Hfull|Hroom].
  - rewrite length_app in Hfull. cbn in Hfull. destruct want; [|cbn in Hlen; lia]. exists [ev]. split; [done|]. by repeat constructor.
  - destruct (IH Hin' (out ++ [ev])) as (evs & -> & Hf); [rewrite length_app; cbn; lia|]. exists (ev :: evs). rewrite <- app_assoc. split; [done|]. by constructor.
Qed.

Lemma or_default_twice x : or_default (or_default x 256) 256 = or_default x 256.
Proof. unfold or_default. destruct (Z.leb_spec x 0); [done|]. by destruct (Z.leb_spec x 0); [lia|]. Qed.

Lemma tidy_encoded l id : tidy l -> is_Some (events l !! id) -> encoded id.
Proof. intros (_ & Hsat & _) [ev Hev]. destruct (Hsat _ _ Hev) as [<- Hb]. by apply bound_encoded. Qed.

(** An inventory with room names just the events of the ledger. *)
Lemma inventory_names rangeb maxHave b : visits rangeb -> tidy (sy_ledger b) -> Z.of_nat (size (events (sy_ledger b))) <= maxHave ->
  let inv := BuildInventoryMessage rangeb maxHave b in
  Forall bytes_ok (pi_Heads inv) /\ Forall bytes_ok (pi_Have inv)
  /\ forall id, id ∈ encodeIDs (pi_Heads inv) ++ encodeIDs (pi_Have inv) <-> is_Some (events (sy_ledger b) !! id).
Proof.
  intros Hr Ht Hmax. set (l := sy_ledger b) in *. cbv zeta. unfold BuildInventoryMessage, LedgerSync.BuildInventoryMessage. cbv zeta. cbn [iv_Heads iv_Have pi_Heads pi_Have].
  destruct (Z.ltb_spec maxHave 0); [lia|]. fold l.
  set (have := if 0 <? maxHave then _ else []).
  assert (forall id, id ∈ have <-> is_Some (events l !! id)) as Hhave.
  { intros id. subst have. rewrite <- elem_of_dom. destruct (Z.ltb_spec 0 maxHave) as [Hpos|Hz].
    - rewrite sort_strings_perm. rewrite take_ge by (rewrite (Permutation_length (Hr _)); change (length (elements (dom (events l)))) with (size (dom (events l))); rewrite size_dom; apply Nat2Z.inj_le; rewrite Z2Nat.id by lia; exact Hmax).
      by rewrite (Hr _), elem_of_elements.
    - assert (events l = ∅) as -> by (apply map_size_empty_iff; lia). rewrite dom_empty. set_solver. }
  assert (forall id, id ∈ sorted_heads l -> is_Some (events l !! id)) as Hheads.
  { intros id Hid. unfold sorted_heads in Hid. rewrite sort_strings_perm, elem_of_elements in Hid. destruct (ok_heads _ (proj1 Ht) _ Hid) as (e & He & _). eauto. }
  assert (Forall encoded (sorted_heads l)) as E1 by (apply Forall_forall; intros id Hid; eapply tidy_encoded; eauto).
  assert (Forall encoded have) as E2 by (apply Forall_forall; intros id Hid; eapply tidy_encoded; [exact Ht|by apply Hhave]).
  assert (forall ids, Forall encoded ids -> Forall bytes_ok (decodeIDs ids)) as Hok.
  { intros ids He. apply Forall_forall. intros raw (id & Hid & Hd)%list_elem_of_omap. rewrite Forall_forall in He. destruct (He _ Hid) as (x & Hx & _ & ->).
    rewrite DecodeString_EncodeToString in Hd by done. by simplify_eq. }
  split; [by apply Hok|]. split; [by apply Hok|]. intros id. rewrite !encode_decode by done. rewrite elem_of_app, Hhave. split; [|by right].
  intros [Hid|Hid]; [by apply Hheads|done].
Qed.

(** What is awaited is lacking. *)
Definition awaits_lacking (s : Sync) : Prop := forall id, id ∈ sy_pendingWant s -> events (sy_ledger s) !! id = None.

(** C40: One exchange with room brings everything the peer has: when the two ledgers do not
    contradict each other, the ledger then holds exactly the events of both, nothing was
    rejected, and nothing it holds is awaited any more. *)
Theorem exchange_brings_everything range rangeb maxHave maxWant maxEvents clock s b :
  let la := events (sy_ledger s) in let lb := events (sy_ledger b) in
  visits rangeb -> tidy (sy_ledger s) -> tidy (sy_ledger b) -> compatible (la ∪ lb) -> awaits_lacking s ->
  (forall id ev, lb !! id = Some ev -> validateWithPolicy ev DefaultPolicy clock = Ok tt) ->
  Z.of_nat (size lb) <= maxHave -> Z.of_nat (size lb) < or_default maxWant 256 -> Z.of_nat (size lb) <= or_default maxEvents 256 ->
  let want := PlanSyncFromPeer range (BuildInventoryMessage rangeb maxHave b) maxWant s in
  let r := ApplyEventsMessage (BuildEventsMessage want maxEvents b) clock s in
  events (sy_ledger r.2) = la ∪ lb /\ tidy (sy_ledger r.2) /\ Rejected r.1 = 0 /\ awaits_lacking r.2.
Proof.
  intros la lb Hr Ht Htb Hc Haw Hval Hhave Hwant Hev. cbv zeta. set (inv := BuildInventoryMessage rangeb maxHave b).
  destruct (inventory_names rangeb maxHave b Hr Htb Hhave) as (B1 & B2 & Hnames). fold inv in B1, B2, Hnames.
  destruct (plan_is_planned range inv maxWant s B1 B2) as [Hplan Henc].
  destruct (planned_spec range inv maxWant s) as (Hnd & _ & Hw & Hall). set (ids := planned range inv maxWant s) in *.
  rewrite Forall_forall in Hw. assert (forall id, id ∈ ids -> is_Some (lb !! id) /\ la !! id = None) as Hids.
  { intros id Hid. destruct (Hw _ Hid) as (_ & Hl%has_event_false & Hin). split; [by apply Hnames|done]. }
  assert (Z.of_nat (length ids) <= Z.of_nat (size lb)) as Hlen.
  { rewrite <- (size_dom lb). change (size (dom lb)) with (length (elements (dom lb))). apply inj_le, submseteq_length, NoDup_submseteq; [done|].
    intros id Hid. apply elem_of_elements, elem_of_dom. by apply Hids. }
  unfold BuildEventsMessage, LedgerSync.BuildEventsMessage. cbn [em_Events]. rewrite Hplan, (encode_decode _ Henc), or_default_twice.
  destruct (select_all (or_default maxEvents 256) (sy_ledger b) ids []) as (evs & -> & Hevs); [done| |etrans; [exact Hlen|exact Hev]|].
  { apply Forall_forall. intros id Hid. by apply Hids. }
  cbn [app]. unfold ApplyEventsMessage. cbn [pe_Events].
  pose proof (proj1 (proj2 Htb)) as Hsat.
  assert (forall ev, ev ∈ evs -> lb !! ID ev = Some ev /\ bound ev /\ ID ev ∈ ids) as Hin.
  { intros ev [i Hi]%list_elem_of_lookup. destruct (Forall2_lookup_r _ _ _ _ _ Hevs Hi) as (id & Hid & He). destruct (Hsat _ _ He) as [<- Hb].
    split; [done|]. split; [done|]. by eapply list_elem_of_lookup_2. }
  destruct (apply_all (la ∪ lb) clock evs Hc) with (rep := no_report) (s := s) as (T & S & G & R & E & P); [|done|by apply map_union_subseteq_l| |].
  { apply Forall_forall. intros ev (H1 & H2 & _)%Hin. split; [by eapply Hval|done]. }
  { intros ev (H1 & _)%Hin Hn. by rewrite lookup_union_r. }
  assert (forall id, is_Some (lb !! id) -> la !! id = None -> exists ev, ev ∈ evs /\ ID ev = id) as Hcover.
  { intros id Hb Hn. assert (id ∈ ids) as Hid.
    { apply Hall; [lia|]. split; [apply encoded_not_empty; by eapply (tidy_encoded (sy_ledger b))|].
      split; [unfold has_event; fold la; by rewrite Hn|by apply Hnames]. }
    apply list_elem_of_lookup in Hid as [i Hi]. destruct (Forall2_lookup_l _ _ _ _ _ Hevs Hi) as (ev & He & Hl).
    exists ev. split; [by eapply list_elem_of_lookup_2|]. by destruct (Hsat _ _ Hl). }
  destruct (fold_left _ _ _) as [rep s'] eqn:Er. cbn [fst snd] in *.
  assert (forall id, is_Some ((la ∪ lb) !! id) -> is_Some (events (sy_ledger s') !! id)) as Hall'.
  { intros id [x Hx]. apply lookup_union_Some_raw in Hx as [Hx|[Hn Hx]]; [exists x; by eapply lookup_weaken|].
    destruct (Hcover id) as (ev & He & <-); [by exists x|done|]. by apply E. }
  split_and!; [|done|done|].
  - apply map_eq. intros id. destruct ((la ∪ lb) !! id) as [x|] eqn:Ex; [|by eapply lookup_weaken_None].
    destruct (Hall' id) as [y Hy]; [by exists x|]. rewrite Hy. pose proof (lookup_weaken _ _ _ _ Hy S). congruence.
  - intros id Hid. apply eq_None_not_Some. intros [x Hx]. pose proof (lookup_weaken _ _ _ _ Hx S) as Hu.
    apply lookup_union_Some_raw in Hu as [Hu|[Hn Hu]]; [pose proof (Haw id (P id Hid)) as Hz; subst la; congruence|].
    destruct (Hcover id) as (ev & He & <-); [by exists x|done|]. by apply (proj2 (E ev He)).
Qed.

End exchange.
