(* ===== verification/SyncExamples.v ===== *)
(** * The synchronisation service on concrete inputs

    The key agreement, the cipher and the decoding of messages as simple functions, and the
    theorems about the service, its scheduler, its trust in peers, its relays and its
    primitives applied. *)

From S2P Require Import Prelude Sha256 GoStr RelayTypes RelayMailbox LedgerEvent LedgerKinds Ledger LedgerInv LedgerReach LedgerExamples LedgerSync LedgerAgree.
From S2P Require Import Messaging SyncWire SyncSched SyncSchedSpec SyncSecurity SyncSecuritySpec SyncService SyncRelay SyncServiceSpec SyncRelaySpec.

#[local] Set Warnings "-clear-no-such-hyp".
#[local] Open Scope string_scope.
#[local] Open Scope list_scope.
#[local] Open Scope Z_scope.

(** ** The scheduler *)

Definition no_item : schedItem := mkSchedItem "" "" "" (mkEvents 1 []) 0.

(** Options that leave everything to the defaults. *)
Definition no_privacy : PrivacyPolicy := mkPrivacy "" 0 0 0 0 0 0.
Definition no_security : SecurityPolicy := mkSecurity 0 0 0 0 0 0 0 0 0 0 0 0 0 0 0 0 0 0 0.
Definition queue_options (total perPeer : Z) : Options :=
  mkOptions 0 0 0 0 0 0 0 0 0 0 0 0 0 0 0 0 total perPeer 0 0 0 0 0 0 0 0 0 None None None no_security no_privacy.

Lemma waiting_items_are_served_witness : exists before s outs s', sched_run [OpEnqueue "p" PriorityBackground no_item] (new_sched 1 (queue_options 0 0)) = Some (before, s)
  /\ sched_run (replicate 9 OpNext) s = Some (outs, s') /\ with_peer "p" no_item ∈ outs.
Proof.
  destruct (sched_run [OpEnqueue "p" PriorityBackground no_item] (new_sched 1 (queue_options 0 0))) as [[before s]|] eqn:E; [|discriminate E].
  destruct (waiting_items_are_served 1 (queue_options 0 0) [OpEnqueue "p" PriorityBackground no_item] (replicate 9 OpNext) PriorityBackground 0 (with_peer "p" no_item) before s E) as (outs & s' & E' & Hin).
  - injection E as <- <-. reflexivity.
  - apply Forall_replicate. right. exact I.
  - injection E as <- <-. vm_compute. lia.
  - exists before, s, outs, s'. split; [reflexivity|]. split; [exact E'|exact Hin].
Defined.

(** Room for two items in all and one for each peer: an item of [q] gives way to a critical one. *)
Definition evicting : list sched_op :=
  [OpEnqueue "q" PriorityBackground no_item; OpEnqueue "p" PriorityCritical no_item; OpEnqueue "r" PriorityCritical no_item; OpNext; OpNext].

Lemma evicted_peer_is_locked_out_witness : exists outs s, sched_run evicting (new_sched 1 (queue_options 2 1)) = Some (outs, s)
  /\ sched_Len s = 0 /\ q_total (quota s "q") = 1
  /\ forall after outs' s', sched_run after s = Some (outs', s') -> forall it, (Enqueue "q" PriorityCritical it s').1 = false.
Proof.
  assert ((fun x => (sched_Len x.2, held_all "q" x.2, sc_maxPerPeer x.2)) <$> sched_run evicting (new_sched 1 (queue_options 2 1)) = Some (0, 0, 1)) as Hx by (vm_compute; reflexivity).
  destruct (sched_run evicting (new_sched 1 (queue_options 2 1))) as [[outs s]|] eqn:E; [|discriminate Hx]. injection Hx as X1 X2 X3.
  destruct (evicted_peer_is_locked_out 1 (queue_options 2 1) "q" evicting outs s E) as [H1 H2]. exists outs, s. split; [reflexivity|]. split; [exact X1|].
  assert (evicted "q" evicting (new_sched 1 (queue_options 2 1)) = 1) as Ev by (vm_compute; reflexivity). cbn [snd] in X2, X3. rewrite Ev, X2 in H1. rewrite Ev, X3 in H2.
  split; [exact H1|]. intros after outs' s' Hr it. refine (H2 _ after outs' s' Hr "q" PriorityCritical it _); [discriminate|reflexivity].
Defined.

(** ** Trust *)

Definition small_inventory : InventoryMessage := mkInventory 1 ["h"] ["h"].
Definition digest_of_small : string := Eval vm_compute in inventoryDigest small_inventory.

Lemma small_digest : inventoryDigest small_inventory = digest_of_small.
Proof. vm_compute. reflexivity. Qed.

(** The same inventory each day. *)
Definition days (n : nat) : list (sec_op * Z) := map (fun i => (SecInventory "p" PeerRoleNormal small_inventory, Z.of_nat i * 24 * Hour)) (seq 0 n).

Lemma days_in_order t n i : t <= Z.of_nat i * 24 * Hour ->
  in_order t (map (fun i => (SecInventory "p" PeerRoleNormal small_inventory, Z.of_nat i * 24 * Hour)) (seq i n)).
Proof.
  revert t i. induction n as [|n IH]; intros t i Ht; [done|]. cbn [seq map in_order snd]. split; [exact Ht|]. apply IH. unfold Hour, Minute, Second. lia.
Qed.

Lemma quarantines_end_witness : forall ps, sl_peers (sec_run (days 3) (NewSecurityLayer no_security)) !! "p" = Some ps -> quarantined (49 * Hour) ps = false.
Proof.
  intros ps Hps. apply (quarantines_end no_security 0 (days 3) "p" ps (49 * Hour)); [apply days_in_order; vm_compute; discriminate|exact Hps|vm_compute; discriminate].
Defined.

Lemma idle_peer_is_shut_out_witness : shut_out "p" (sec_run (days 21) (NewSecurityLayer no_security)).
Proof.
  apply (idle_peer_is_shut_out no_security 0 [] "p" digest_of_small (days 21)).
  - apply days_in_order. vm_compute. discriminate.
  - reflexivity.
  - reflexivity.
  - reflexivity.
  - apply Forall_forall. intros op Hop. unfold days in Hop. apply list_elem_of_In, in_map_iff in Hop as (i & <- & _). split; [reflexivity|].
    cbn [fst shows]. intros inv [= <-]. exact small_digest.
  - vm_compute. discriminate.
Defined.

Lemma converged_peers_are_put_off_witness :
  (ObserveInventory "c" PeerRoleNormal small_inventory (3 * Second) (sec_run (show_all small_inventory [("a", Second); ("b", 2 * Second)]) (NewSecurityLayer no_security))).1 = DecisionDefer.
Proof.
  apply (converged_peers_are_put_off no_security small_inventory [("a", Second); ("b", 2 * Second)] "c" PeerRoleNormal (3 * Second)).
  - rewrite small_digest. reflexivity.
  - split; vm_compute; discriminate.
  - repeat constructor; set_solver.
  - reflexivity.
  - repeat constructor; vm_compute; discriminate.
  - vm_compute. discriminate.
Defined.

(** ** Padding *)

Definition sevens (n : Z) : option (list Z) := Some (replicate (Z.to_nat n) 7).
Definition short_padded : list Z := Eval vm_compute in privacyPadMagic ++ [2; 0; 0; 0; 123; 125; 7; 7; 7; 7; 7; 7].

Lemma padding_roundtrip_witness : padPlaintext [123; 125] 16 sevens = Some short_padded /\ (unpadPlaintext short_padded).1 = [123; 125] /\ blen short_padded = 16.
Proof.
  assert (padPlaintext [123; 125] 16 sevens = Some short_padded) as E by reflexivity.
  destruct (padding_roundtrip [123; 125] 16 sevens short_padded) as (H1 & H2 & _).
  - discriminate.
  - reflexivity.
  - intros n b Hn [= <-]. unfold blen. rewrite length_replicate. lia.
  - exact E.
  - split; [exact E|]. split; [exact H1|]. apply H2; [discriminate|reflexivity].
Defined.

(** ** The service *)

#[local] Existing Instance LedgerExamples.toy_ed25519.
#[local] Existing Instance LedgerExamples.toy_json.
#[local] Instance by_age : SortSlice (le_by (snd : string * Z -> Z)) := merge_sort_slice _.

(** A byte 1 is a message that asks for alice's first event, a byte 2 one that brings it. *)
#[local] Instance toy_wire : WireJSON := {|
  read_wire raw := match raw with [1] => Some (mkWire 1 "want" "s" "ctx" [1]) | [2] => Some (mkWire 1 "events" "s" "ctx" [2]) | _ => None end;
  read_heads _ := None;
  read_inventory _ := None;
  read_want _ := Some (mkWant 1 [ID alice1]);
  read_events _ := Some (mkEvents 1 [alice1]);
|}.

(** Nothing that is not of the class for everyone goes out. *)
Definition open_setup : Setup := (New_service 1 New None None (queue_options 0 0)).1.
Definition fresh_service : SyncService := (New_service 1 New None None (queue_options 0 0)).2.
Definition with_alice : SyncService := with_ledger alone fresh_service.
Definition still : Draws := mkDraws (fun _ => Some [1]) (fun _ _ => sevens) (fun _ => None) (fun _ => None).
Definition at_now (i : nat) : Z := now_ns.
Definition bob_pub : list Z := replicate 32 2.

Lemma alone_bound : sat bound alone.
Proof.
  rewrite <- run_alone. intros i ev Hi. destruct (stored_events_authentic [OpAdd alice1] i ev Hi) as (E1 & E2 & _). split; [exact E1|]. unfold bound. rewrite E1. exact E2.
Qed.

Abbreviation receive := (ReceiveOnce (fun _ _ => true) elements id 0 open_setup).

Lemma wants_get_allowed_events_witness : exists r, receive (bob_pub, [1]) at_now still with_alice = Some r /\ length r.1.2 = 1%nat
  /\ Forall (fun x => pe_MeshPub x.1 = bob_pub /\ exists msg, Forall (stored_and_allowed open_setup "ctx" alone) (em_Events msg)) r.1.2.
Proof.
  assert ((fun r => length r.1.2) <$> receive (bob_pub, [1]) at_now still with_alice = Some 1%nat) as Hn by (vm_compute; reflexivity).
  destruct (receive (bob_pub, [1]) at_now still with_alice) as [r|] eqn:E; [|discriminate Hn]. injection Hn as Hn.
  exists r. split; [reflexivity|]. split; [exact Hn|].
  eapply Forall_impl; [apply (wants_get_allowed_events (fun _ _ => true) elements id 0 open_setup bob_pub [1] at_now still with_alice r (mkWire 1 "want" "s" "ctx" [1]) E)|].
  - reflexivity.
  - reflexivity.
  - exact alone_bound.
  - intros x (_ & H & msg & _ & Hm). split; [exact H|]. exists msg. exact Hm.
Defined.

(** ** Histories *)

#[local] Instance scored_total : Total scored_le.
Proof. intros a b. unfold scored_le, peer_le. destruct (str_le_total (pe_ID (sr_peer a)) (pe_ID (sr_peer b))), (Z.lt_trichotomy (sr_score a) (sr_score b)) as [?|[?|?]]; auto. Qed.
#[local] Instance scored_trans : Transitive scored_le.
Proof. intros a b c. unfold scored_le, peer_le. intros [?|[? ?]] [?|[? ?]]; [left; lia|left; lia|left; lia|right]. split; [congruence|by etrans]. Qed.
#[local] Instance by_score : SortSlice scored_le := merge_sort_slice scored_le.

(** ** Keys, ciphers and envelopes *)

(** A key is its own public key, two keys agree on the sum of their bytes in exclusive or, and
    the cipher appends sixteen bytes. *)
Definition key_ok (k : list Z) : bool := bool_decide (blen k = 32) && bool_decide (bytes_ok k).

#[local] Instance toy_crypto : MsgCrypto := {|
  mc_public k := if key_ok k then Some k else None;
  mc_shared a b := if key_ok a && key_ok b then Some (zip_with Z.lxor a b) else None;
  mc_hkdf shared info := shared;
  mc_seal key nonce pt aad := pt ++ replicate 16 0;
  mc_open key nonce ct aad := Some (take (length ct - 16) ct);
|}.

Lemma zip_lxor_comm a b : zip_with Z.lxor a b = zip_with Z.lxor b a.
Proof. revert b. induction a as [|x a IH]; intros [|y b]; cbn; [done..|]. by rewrite Z.lxor_comm, IH. Qed.

Lemma toy_laws : crypto_laws.
Proof.
  split.
  - intros a b A B HA HB. cbn in *. destruct (key_ok a) eqn:Ea; [|done]. destruct (key_ok b) eqn:Eb; [|done]. injection HA as <-. injection HB as <-.
    rewrite Ea, Eb, zip_lxor_comm. done.
  - intros key nonce pt aad. cbn [mc_open mc_seal toy_crypto]. rewrite length_app, length_replicate, Nat.add_sub, take_app_length. done.
  - intros priv pub HP. cbn in HP. destruct (key_ok priv) eqn:E; [|done]. injection HP as <-. unfold key_ok in E. apply andb_true_iff in E as [E1 E2].
    split; [exact (bool_decide_eq_true_1 _ E1)|exact (bool_decide_eq_true_1 _ E2)].
  - intros key nonce pt aad Hp. cbn [mc_seal toy_crypto]. split; [apply Forall_app; split; [exact Hp|apply Forall_replicate; unfold is_u8; lia]|]. unfold blen. rewrite length_app, length_replicate. lia.
Qed.

(** Readers of the two messages: past a name with its punctuation, a number or a string. *)
Definition skip (p l : list Z) : option (list Z) := if bool_decide (take (length p) l = p) then Some (drop (length p) l) else None.
Definition read_int (l : list Z) : Z * list Z :=
  match l with c :: r => if c =? 45 then let '(x, r) := read_digits 0 r in (- x, r) else read_digits 0 l | [] => (0, []) end.
Definition read_text (l : list Z) : option (string * list Z) := r ← skip [34] l; '(b, r) ← unjson r; Some (str_of b, r).
Definition member_text (lead : string) (name : string) : list Z := bytes_of lead ++ json_string name ++ [58].

#[local] Instance toy_envelope : EnvelopeJSON := fun l =>
  l ← skip (member_text "{" "v") l; let '(v, l) := read_int l in
  l ← skip (member_text "," "created_at") l; let '(at_, l) := read_int l in
  l ← skip (member_text "," "eph_pub_b64url") l; '(pub, l) ← read_text l;
  l ← skip (member_text "," "nonce_b64url") l; '(nonce, l) ← read_text l;
  l ← skip (member_text "," "ct_b64url") l; '(ct, l) ← read_text l;
  Some (mkEnvelope v at_ "" pub nonce ct).

#[local] Instance toy_route : RouteJSON := fun l =>
  l ← skip (member_text "{" "v") l; let '(v, l) := read_int l in
  l ← skip (member_text "," "next_mailbox") l; '(mb, l) ← read_text l;
  l ← skip (member_text "," "next_envelope") l; '(env, l) ← read_text l;
  Some (mkRoute v mb env).

Lemma skip_app p l : skip p (p ++ l) = Some l.
Proof. unfold skip. rewrite take_app_length, drop_app_length. by rewrite bool_decide_eq_true_2. Qed.

Lemma read_text_json s l : valid_string s -> read_text (json_string s ++ l) = Some (s, l).
Proof.
  intros Hs. unfold read_text, json_string. rewrite <- !app_assoc, skip_app. cbn [mbind option_bind].
  rewrite (json_chars_pushes _ _ (bytes_of_ok s) Hs). cbn. by rewrite app_nil_r, str_of_bytes_of.
Qed.

Lemma read_digits_dec x l : 0 <= x < 10 ^ 40 -> no_digit l -> read_digits 0 (dec_digits 40 x [] ++ l) = (x, l).
Proof. intros Hx Hl. rewrite dec_digits_app, app_nil_l. destruct (dec_digits_read 40 x l 0 Hx) as (k & _ & _ & ->). by rewrite read_no_digit. Qed.

Lemma read_int_json x l : json_range x -> no_digit l -> read_int (json_int x ++ l) = (x, l).
Proof.
  intros Hx Hl. unfold json_range in Hx. unfold json_int. destruct (Z.ltb_spec x 0) as [Hn|Hn].
  - cbn [app read_int]. rewrite Z.eqb_refl, read_digits_dec by (done || lia). f_equal. lia.
  - destruct (dec_digits_head 40 x [] ltac:(lia) ltac:(lia)) as (c & r & E & Hc). rewrite <- (read_digits_dec x l) by (done || lia). rewrite E. cbn [app]. unfold read_int.
    by rewrite (proj2 (Z.eqb_neq c 45)) by lia.
Qed.

Lemma no_digit_comma name l : no_digit (member_text "," name ++ l).
Proof. left. reflexivity. Qed.

(** Both sides as one sequence. *)
#[local] Ltac flatten := repeat (progress (rewrite <- ?app_assoc; cbn [app])); rewrite ?app_nil_l, ?app_nil_r; reflexivity.

Lemma toy_envelope_law : envelope_json_law.
Proof.
  intros at_ pub nonce ct Hat Hp Hn Hc env. subst env. unfold read_msg_envelope, toy_envelope, json_envelope. cbn [en_Version en_CreatedAt en_ToMailbox en_EphemeralPubB64 en_NonceB64 en_CiphertextB64].
  pose proof (printable_valid _ (EncodeToString_printable pub Hp)) as Vp. pose proof (printable_valid _ (EncodeToString_printable nonce Hn)) as Vn. pose proof (printable_valid _ (EncodeToString_printable ct Hc)) as Vc.
  set (sp := EncodeToString pub) in *. set (sn := EncodeToString nonce) in *. set (sc := EncodeToString ct) in *. clearbody sp sn sc.
  set (tail := [125]).
  assert (json_object ([("v", json_int EnvelopeV1); ("created_at", json_int at_)] ++ omit_empty "to_mailbox" ""
    ++ [("eph_pub_b64url", json_string sp); ("nonce_b64url", json_string sn); ("ct_b64url", json_string sc)])
    = member_text "{" "v" ++ json_int EnvelopeV1 ++ member_text "," "created_at" ++ json_int at_ ++ member_text "," "eph_pub_b64url" ++ json_string sp
      ++ member_text "," "nonce_b64url" ++ json_string sn ++ member_text "," "ct_b64url" ++ json_string sc ++ tail) as ->.
  { unfold json_object, member_text. cbn [omit_empty is_empty app map comma_separated fst snd concat bytes_of]. flatten. }
  rewrite skip_app. cbn [mbind option_bind]. rewrite read_int_json by (apply no_digit_comma || (split; reflexivity)). rewrite skip_app. cbn [mbind option_bind]. rewrite read_int_json by (exact Hat || apply no_digit_comma).
  rewrite skip_app. cbn [mbind option_bind]. rewrite read_text_json by done. cbn [mbind option_bind]. rewrite skip_app. cbn [mbind option_bind]. rewrite read_text_json by done. cbn [mbind option_bind].
  rewrite skip_app. cbn [mbind option_bind]. rewrite read_text_json by done. reflexivity.
Qed.

Lemma mailbox_printable mb : validateMailboxID mb = Ok tt -> Forall printable (bytes_of mb).
Proof.
  unfold validateMailboxID. destruct (negb (is_empty mb)); [|done]. destruct (slen mb <=? maxMailboxLen); [|done]. destruct (forallb mailbox_char (bytes_of mb)) eqn:E; [|done]. intros _.
  apply Forall_forall. intros c Hc. apply forallb_forall with (x := c) in E; [|by apply list_elem_of_In]. unfold mailbox_char in E. unfold printable. lia.
Qed.

Lemma toy_route_law mb env : validateMailboxID mb = Ok tt -> Forall printable (bytes_of env) -> read_route (json_route (mkRoute 1 mb env)) = Some (mkRoute 1 mb env).
Proof.
  intros Hm He. pose proof (printable_valid _ (mailbox_printable mb Hm)) as Vm. pose proof (printable_valid _ He) as Ve. unfold read_route, toy_route, json_route. cbn [rr_SchemaVersion rr_NextMailbox rr_NextEnvelope].
  assert (json_object [("v", json_int 1); ("next_mailbox", json_string mb); ("next_envelope", json_string env)]
    = member_text "{" "v" ++ json_int 1 ++ member_text "," "next_mailbox" ++ json_string mb ++ member_text "," "next_envelope" ++ json_string env ++ [125]) as ->.
  { unfold json_object, member_text. cbn [app map comma_separated fst snd concat bytes_of]. flatten. }
  rewrite skip_app. cbn [mbind option_bind]. rewrite read_int_json by (apply no_digit_comma || (split; reflexivity)). rewrite skip_app. cbn [mbind option_bind]. rewrite read_text_json by done. cbn [mbind option_bind].
  rewrite skip_app. cbn [mbind option_bind]. rewrite read_text_json by done. reflexivity.
Qed.

(** ** Relays *)

(** The relay in memory at one moment, with one identifier to give. *)
#[local] Instance by_receipt : SortSlice (le_by s_received) := merge_sort_slice _.
#[local] Instance open_relay : RelayOps (gmap string (list stored)) := {|
  relay_push req r := RelayMailbox.Push now_ns (Some (replicate 16 1)) req r;
  relay_pull req r := let '(out, r) := pull_try (pl_Mailbox req) now_ns (pl_Limit req) r in (Ok out, r);
  relay_ack req r := RelayMailbox.Ack now_ns req r;
|}.

Definition key (k : Z) : list Z := replicate 32 k.
Definition seals (i : nat) : seal_env := mkSealEnv (Some (key (Z.of_nat i + 10))) (Some (replicate 24 5)) now_ns.

Lemma seals_ok i : seal_env_ok (seals i).
Proof.
  split; [intros n [= <-]; split; [reflexivity|repeat constructor; unfold is_u8; lia]|]. split; reflexivity.
Qed.

(** Two hops on the way to bob. *)
Definition way : list RelayHop := [mkHop "hop1" (key 1); mkHop "hop2" (key 2)].

Lemma layered_message_arrives_witness : exists mb env inner sender,
  EncodeForRelayMultiHop [104; 105] "bob" (key 3) way seals = Some (mb, env) /\ travel way [key 1; key 2] mb env = Some ("bob", inner)
  /\ DecodeFromRelay inner (key 3) = Some ([104; 105], sender).
Proof.
  assert ((fun x => bool_decide (slen x.2 <= maxEnvelopeLen)) <$> EncodeForRelayMultiHop [104; 105] "bob" (key 3) way seals = Some true) as Hs by (vm_compute; reflexivity).
  destruct (EncodeForRelayMultiHop [104; 105] "bob" (key 3) way seals) as [[mb env]|] eqn:E; [|discriminate Hs]. injection Hs as Hs. apply bool_decide_eq_true_1 in Hs. cbn [snd] in Hs.
  destruct (layered_message_arrives toy_laws toy_envelope_law toy_route_law seals seals_ok [104; 105] "bob" (key 3) (key 3) way [key 1; key 2] mb env) as (inner & sender & H1 & H2).
  - repeat constructor; unfold is_u8; lia.
  - reflexivity.
  - vm_compute. reflexivity.
  - repeat constructor; vm_compute; reflexivity.
  - exact E.
  - exact Hs.
  - exists mb, env, inner, sender. split; [reflexivity|]. split; [exact H1|exact H2].
Defined.

(** What a wrapped message needs of randomness and keys. *)
Lemma seals_encode pt k i : 0 <= k < 256 -> 0 <= Z.of_nat i + 10 < 256 -> exists env, EncodeForRelay pt (key k) (seals i) = Some env.
Proof.
  intros Hk Hi. unfold EncodeForRelay, EncryptToPreKey, NewX25519Keypair. cbn [se_priv seals mbind option_bind]. 
  assert (forall k, 0 <= k < 256 -> key_ok (key k) = true) as Hok.
  { clear. intros k Hk. unfold key_ok, key. rewrite (bool_decide_eq_true_2 (blen _ = 32)) by reflexivity. apply bool_decide_eq_true_2, Forall_replicate. exact Hk. }
  cbn [mc_public toy_crypto]. rewrite (Hok _ Hi). cbn [mbind option_bind]. unfold EncryptToPreKeyWithSender, DeriveSharedKey. cbn [mc_shared toy_crypto kp_Private kp_Public]. rewrite (Hok _ Hi), (Hok _ Hk). cbn [andb fmap option_fmap option_map mbind option_bind se_nonce seals]. by eexists.
Qed.

Lemma full_batch_takes_no_hop_witness : exists mb env, EncodeForRelayMultiHop (replicate (Z.to_nat 82944) 7) "bob" (key 3) [mkHop "hop1" (key 1)] seals = Some (mb, env)
  /\ PushRequest_Validate (mkPush mb env 0 0 0 "") <> Ok tt.
Proof.
  destruct (EncodeForRelayMultiHop (replicate (Z.to_nat 82944) 7) "bob" (key 3) [mkHop "hop1" (key 1)] seals) as [[mb env]|] eqn:E.
  - exists mb, env. split; [reflexivity|]. apply (full_batch_takes_no_hop toy_laws seals seals_ok (replicate (Z.to_nat 82944) 7) "bob" (key 3) [mkHop "hop1" (key 1)] mb env).
    + apply Forall_replicate. unfold is_u8. lia.
    + discriminate.
    + unfold blen. rewrite length_replicate. lia.
    + exact E.
  - exfalso. unfold EncodeForRelayMultiHop in E. destruct (seals_encode (replicate (Z.to_nat 82944) 7) 3 1 ltac:(lia) ltac:(lia)) as [env He]. cbn [length] in E. rewrite He in E.
    cbn [mbind option_bind] in E. change (reverse [mkHop "hop1" (key 1)]) with [mkHop "hop1" (key 1)] in E. cbn [wrap_layers length rh_PreKeyPub] in E.
    destruct (seals_encode (json_route (mkRoute 1 "bob" env)) 1 0 ltac:(lia) ltac:(lia)) as [env' He']. rewrite He' in E. discriminate E.
Defined.

(** The service has asked nobody; alice's event comes in. *)
Lemma synced_ledger_is_sound_witness : exists r, receive (bob_pub, [2]) at_now still fresh_service = Some r /\ size (events (sv_ledger r.2)) = 1%nat /\ ledger_ok (sv_ledger r.2).
Proof.
  assert ((fun r => size (events (sv_ledger r.2))) <$> receive (bob_pub, [2]) at_now still fresh_service = Some 1%nat) as Hn by (vm_compute; reflexivity).
  destruct (receive (bob_pub, [2]) at_now still fresh_service) as [r|] eqn:E; [|discriminate Hn]. injection Hn as Hn. exists r. split; [reflexivity|]. split; [exact Hn|].
  refine (proj1 (synced_ledger_is_sound (R := gmap string (list stored)) (fun _ _ => true) elements id 0 open_setup _ toy_checks_length 1 None None (queue_options 0 0) r.2 _)).
  - intros evs e He. exact He.
  - apply rtc_once. exact (step_receive (R := gmap string (list stored)) (fun _ _ => true) elements id 0 open_setup (bob_pub, [2]) at_now still fresh_service r E).
Defined.

(** After alice's event came in, whatever comes next is finished with. *)
Lemma receiving_returns_witness : exists r, receive (bob_pub, [2]) at_now still fresh_service = Some r /\ forall input, is_Some (receive input at_now still r.2).
Proof.
  assert ((fun r => r.1.1) <$> receive (bob_pub, [2]) at_now still fresh_service = Some false) as Hn by (vm_compute; reflexivity).
  destruct (receive (bob_pub, [2]) at_now still fresh_service) as [r|] eqn:E; [|discriminate Hn]. exists r. split; [reflexivity|]. intros input.
  refine (proj1 (receiving_returns (R := gmap string (list stored)) (fun _ _ => true) elements id 0 open_setup _ toy_checks_length 1 New None (queue_options 0 0) r.2 _ _) input at_now still).
  - intros evs e He. exact He.
  - apply rtc_once. exact (step_receive (R := gmap string (list stored)) (fun _ _ => true) elements id 0 open_setup (bob_pub, [2]) at_now still fresh_service r E).
  - reflexivity.
Defined.

(** ** Limits, strangers and peers shut out *)

Definition minute_of_now : Z := Truncate now_ns Minute.
Definition flood : list (Z * Z) := replicate 100 (10, now_ns).

Lemma inbound_is_limited_witness : Z.of_nat (length (let_in (su_opts open_setup) flood new_peer).1) <= 60.
Proof.
  destruct (inbound_is_limited (su_opts open_setup) minute_of_now flood new_peer) as [H _].
  - reflexivity.
  - reflexivity.
  - reflexivity.
  - vm_compute. discriminate.
  - vm_compute. discriminate.
  - apply Forall_replicate. split; [vm_compute; discriminate|reflexivity].
  - etrans; [exact H|]. vm_compute. discriminate.
Defined.

(** An event under alice's name, with a number of 2^63, by a stranger's key. *)
Definition huge : Event := Eval vm_compute in signed_event "alice" 9 (2 ^ 63) "unknown" [] KindChatMessage [] 1700000000.
Definition alice_observes : Setup := mkSetup (su_opts open_setup) None (Some (mkObserver "alice" (replicate 32 1) (replicate 64 1))).
Definition huge_item : schedItem := mkSchedItem "p" PeerRoleNormal "ctx" (mkEvents 1 [huge]) 0.

Lemma huge_number_stops_the_service_witness : apply_item (fun _ _ => true) id 0 alice_observes huge_item now_ns 0 still fresh_service = None.
Proof.
  apply (huge_number_stops_the_service (fun _ _ => true) id 0 alice_observes huge_item now_ns 0 still fresh_service (mkObserver "alice" (replicate 32 1) (replicate 64 1))).
  - reflexivity.
  - reflexivity.
  - reflexivity.
  - reflexivity.
  - vm_compute. discriminate.
  - vm_compute. discriminate.
  - vm_compute. reflexivity.
Defined.

(** The peer of the byte 2 has shown one inventory for three weeks. *)
Definition weeks (id : string) : list (sec_op * Z) := map (fun i => (SecInventory id PeerRoleNormal small_inventory, Z.of_nat i * 24 * Hour)) (seq 0 21).
Definition bob_id : string := Eval vm_compute in peerIDFromMeshPub bob_pub.
Definition bored_service : SyncService := with_security (sec_run (weeks bob_id) (sv_security fresh_service)) fresh_service.

Lemma bob_shut_out : shut_out bob_id (sv_security bored_service).
Proof. apply low_score_shut_out; [reflexivity|]. vm_compute. discriminate. Qed.

Lemma shut_out_peer_is_ignored_witness : exists r, receive (bob_pub, [2]) at_now still bored_service = Some r /\ r.1 = (false, []).
Proof.
  assert (X : (fun r => r.1.1) <$> receive (bob_pub, [2]) at_now still bored_service = Some false) by (vm_compute; reflexivity).
  destruct (receive (bob_pub, [2]) at_now still bored_service) as [r|] eqn:E; [|discriminate X]. exists r. split; [reflexivity|]. apply (shut_out_peer_is_ignored (fun _ _ => true) elements id 0 open_setup bob_pub [2] at_now still bored_service r); [exact bob_shut_out|exact E].
Defined.

(** * A concrete exchange of identifiers and events *)

From S2P Require Import Prelude GoStr LedgerEvent LedgerKinds Ledger LedgerInv LedgerReach LedgerTrust LedgerSync LedgerExamples SyncPrim SyncPrimSpec.

#[local] Existing Instance LedgerExamples.toy_ed25519.
#[local] Existing Instance LedgerExamples.toy_json.

(** A peer that has alice's first event, and a node that has nothing. *)
Definition alice_node : Sync := NewSync alone.
Definition new_node : Sync := NewSync New.

Lemma alice_events : events (sy_ledger alice_node) = {[ID alice1 := alice1]}.
Proof. reflexivity. Qed.

Lemma one_compatible (id : string) (ev : Event) : Seq ev = 1 -> compatible (∅ ∪ {[id := ev]}).
Proof.
  intros H1. rewrite (left_id_L ∅ (∪)). split.
  - intros i1 i2 e1 e2 [_ <-]%lookup_singleton_Some [_ <-]%lookup_singleton_Some _ _. reflexivity.
  - intros i e prev [_ <-]%lookup_singleton_Some Hs. lia.
Qed.

Definition one_exchange : ApplyReport * Sync :=
  ApplyEventsMessage (BuildEventsMessage (PlanSyncFromPeer elements (BuildInventoryMessage elements 8 alice_node) 0 new_node) 0 alice_node) now_ns new_node.

Lemma exchange_brings_everything_witness : events (sy_ledger one_exchange.2) = ∅ ∪ {[ID alice1 := alice1]} /\ Rejected one_exchange.1 = 0.
Proof.
  destruct (exchange_brings_everything elements elements 8 0 0 now_ns new_node alice_node) as (H1 & _ & H3 & _).
  - intros s. reflexivity.
  - exact (run_tidy [] (Forall_nil_2 _)).
  - cbn [sy_ledger alice_node NewSync]. rewrite <- run_alone. apply run_tidy. repeat constructor.
  - rewrite alice_events. apply one_compatible. reflexivity.
  - intros id Hid. inversion Hid.
  - rewrite alice_events. intros id ev [_ <-]%lookup_singleton_Some. vm_compute. reflexivity.
  - rewrite alice_events, map_size_singleton. lia.
  - rewrite alice_events, map_size_singleton. reflexivity.
  - rewrite alice_events, map_size_singleton. reflexivity || (vm_compute; discriminate).
  - split; [|exact H3]. rewrite alice_events in H1. exact H1.
Defined.

(** A plan for an inventory of one identifier that is not held. *)
Lemma plan_asks_what_is_lacking_witness : let inv := mkRawInventory [] [replicate 32 7] in
  replicate 32 7 ∈ pw_Want (PlanSyncFromPeer elements inv 0 new_node).
Proof.
  destruct (plan_asks_what_is_lacking elements (mkRawInventory [] [replicate 32 7]) 0 new_node) as (_ & _ & _ & H).
  - constructor.
  - repeat constructor; cbn; unfold is_u8; lia.
  - apply H; [vm_compute; reflexivity|left|discriminate|reflexivity].
Defined.
