(* ===== verification/Chat.v ===== *)
(** * The chat service ([pkg/chat]: types.go, service.go, store.go)

    Contacts, conversations and messages of a user, what operations and incoming payloads do to
    them, and the store.  The encrypted file and the relay are classes; the clock, random bytes
    and the randomness of envelopes are arguments.  A nil map of roles behaves as an empty one.
    Nil receivers and arguments, which every function refuses, are left out; so is the
    interleaving of operations where one lets go of its lock to send. *)

From S2P Require Import Prelude Sha256 GoStr Persona DeviceLink RelayTypes Messaging SyncRelay ChatCodec.

#[local] Open Scope string_scope.
#[local] Open Scope list_scope.
#[local] Open Scope Z_scope.

Definition SchemaV1 : Z := 1.
Definition MaxContacts : Z := 2000.
Definition MaxChats : Z := 5000.
Definition MaxMessages : Z := 200000.

Record Contact := mkContact {
  ct_ID : string;
  ct_CreatedAt : Z;
  ct_Alias : string;
  ct_SignPubB64 : string;
  ct_Mailbox : string;
  ct_PreKeyPubB64 : string;
  ct_RelayHints : list string;
  ct_Trust : string;
  ct_LastUpdatedAt : Z;
}.

Record Chat := mkChat {
  ch_ID : string;
  ch_Kind : string;
  ch_CreatedAt : Z;
  ch_Title : string;
  ch_Participants : list string;
  ch_Roles : gmap string string;
  ch_LastMsgAt : Z;
  ch_Unread : Z;
}.

Record Message := mkMsg {
  mg_ID : string;
  mg_ClientID : string;
  mg_ChatID : string;
  mg_CreatedAt : Z;
  mg_SortKey : Z;
  mg_DeviceID : string;
  mg_SenderSignPubB64 : string;
  mg_Text : string;
  mg_Envelope : string;
  mg_RelayMailbox : string;
  mg_RelayMsgID : string;
  mg_State : string;
  mg_Valid : bool;
  mg_Direction : string;
}.

Record State := mkState {
  cs_SchemaVersion : Z;
  cs_UpdatedAt : Z;
  cs_Contacts : list Contact;
  cs_Chats : list Chat;
  cs_Messages : list Message;
}.

(** The encrypted file: reading may fail ([None]) or find no file; writing may fail. *)
Class ChatFile (F : Type) := {
  file_read : F -> option (option State);
  file_write : State -> F -> bool * F;
}.

(** Newest first. *)
Definition newest : Message -> Message -> Prop := fun a b => mg_CreatedAt b <= mg_CreatedAt a.

Definition NewState (now : Time) : State := mkState SchemaV1 (Unix now) [] [] [].

Definition set_updated (t : Z) (s : State) : State := mkState (cs_SchemaVersion s) t (cs_Contacts s) (cs_Chats s) (cs_Messages s).
Definition set_contacts (cs : list Contact) (s : State) : State := mkState (cs_SchemaVersion s) (cs_UpdatedAt s) cs (cs_Chats s) (cs_Messages s).
Definition set_chats (cs : list Chat) (s : State) : State := mkState (cs_SchemaVersion s) (cs_UpdatedAt s) (cs_Contacts s) cs (cs_Messages s).
Definition set_messages (ms : list Message) (s : State) : State := mkState (cs_SchemaVersion s) (cs_UpdatedAt s) (cs_Contacts s) (cs_Chats s) ms.

(** ** Validation *)

Local Open Scope res_scope.

Fixpoint validate_contacts (l : list Contact) (seen : gset string) : res string unit :=
  match l with
  | [] => Ok tt
  | c :: l' =>
      require! negb (is_empty (ct_ID c)) else "chat: contact id required";
      require! negb (bool_decide (ct_ID c ∈ seen)) else "chat: duplicate contact id";
      require! negb (ct_CreatedAt c <=? 0) else "chat: contact created_at required";
      require! negb (is_blank (ct_SignPubB64 c)) else "chat: contact sign_pub_b64url required";
      require! negb (is_blank (ct_Alias c)) else "chat: contact alias required";
      validate_contacts l' ({[ct_ID c]} ∪ seen)
  end.

(** Whichever role is found wrong, the chat is refused. *)
Definition role_ok (ch : Chat) (k v : string) : bool := negb (is_blank k) && bool_decide (k ∈ ch_Participants ch) && one_role v.
Definition roles_ok (ch : Chat) : bool := negb (bool_decide (ch_Kind ch = "group")) || forallb (fun kv => role_ok ch kv.1 kv.2) (map_to_list (ch_Roles ch)).

Fixpoint validate_chats (l : list Chat) (seen : gset string) : res string unit :=
  match l with
  | [] => Ok tt
  | ch :: l' =>
      require! negb (is_empty (ch_ID ch)) else "chat: chat id required";
      require! negb (bool_decide (ch_ID ch ∈ seen)) else "chat: duplicate chat id";
      require! negb (ch_CreatedAt ch <=? 0) else "chat: chat created_at required";
      require! negb (is_blank (ch_Kind ch)) else "chat: chat kind required";
      require! negb (match ch_Participants ch with [] => true | _ => false end) else "chat: participants required";
      require! roles_ok ch else "chat: group role invalid";
      validate_chats l' ({[ch_ID ch]} ∪ seen)
  end.

Definition message_states : list string := [""; "queued"; "sent"; "delivered"; "read"; "failed"].

Fixpoint validate_messages (l : list Message) : res string unit :=
  match l with
  | [] => Ok tt
  | m :: l' =>
      require! negb (is_empty (mg_ID m)) else "chat: message id required";
      require! negb (is_empty (mg_ChatID m)) else "chat: message chat_id required";
      require! negb (mg_CreatedAt m <=? 0) else "chat: message created_at required";
      require! negb (is_blank (mg_Direction m)) else "chat: message direction required";
      require! bool_decide (TrimSpace (mg_State m) ∈ message_states) else "chat: message state invalid";
      validate_messages l'
  end.

Definition State_Validate (s : State) : res string unit :=
  require! cs_SchemaVersion s =? SchemaV1 else "chat: unsupported schema_version";
  require! negb (MaxContacts <? Z.of_nat (length (cs_Contacts s))) else "chat: too many contacts";
  require! negb (MaxChats <? Z.of_nat (length (cs_Chats s))) else "chat: too many chats";
  require! negb (MaxMessages * 2 <? Z.of_nat (length (cs_Messages s))) else "chat: messages unexpectedly large";
  _ <-! validate_contacts (cs_Contacts s) ∅;
  _ <-! validate_chats (cs_Chats s) ∅;
  validate_messages (cs_Messages s).

(** ** Contacts and conversations *)

(** The first that is of a kind is changed. *)
Fixpoint alter_first {A} (P : A -> bool) (f : A -> A) (l : list A) : list A :=
  match l with
  | [] => []
  | x :: l' => if P x then f x :: l' else x :: alter_first P f l'
  end.

Definition is_contact (id : string) (c : Contact) : bool := bool_decide (ct_ID c = id).
Definition is_chat (id : string) (ch : Chat) : bool := bool_decide (ch_ID ch = id).
Definition is_group (id : string) (ch : Chat) : bool := is_chat id ch && bool_decide (ch_Kind ch = "group").

Definition hasContact (s : State) (id : string) : bool := existsb (is_contact id) (cs_Contacts s).
Definition getContact (s : State) (id : string) : option Contact := find (is_contact id) (cs_Contacts s).
Definition getChat (s : State) (id : string) : option Chat := find (is_chat id) (cs_Chats s).
Definition containsContactID (ids : list string) (id : string) : bool := bool_decide (id ∈ ids).
Definition containsContact (cs : list Contact) (c : Contact) : bool := existsb (is_contact (ct_ID c)) cs.

Definition alter_chat (P : Chat -> bool) (f : Chat -> Chat) (s : State) : State := set_chats (alter_first P f (cs_Chats s)) s.

Definition with_participants (ps : list string) (ch : Chat) : Chat :=
  mkChat (ch_ID ch) (ch_Kind ch) (ch_CreatedAt ch) (ch_Title ch) ps (ch_Roles ch) (ch_LastMsgAt ch) (ch_Unread ch).
Definition with_roles (rs : gmap string string) (ch : Chat) : Chat :=
  mkChat (ch_ID ch) (ch_Kind ch) (ch_CreatedAt ch) (ch_Title ch) (ch_Participants ch) rs (ch_LastMsgAt ch) (ch_Unread ch).
Definition with_title (kind title : string) (ch : Chat) : Chat :=
  mkChat (ch_ID ch) kind (ch_CreatedAt ch) title (ch_Participants ch) (ch_Roles ch) (ch_LastMsgAt ch) (ch_Unread ch).
Definition with_last (t unread : Z) (ch : Chat) : Chat :=
  mkChat (ch_ID ch) (ch_Kind ch) (ch_CreatedAt ch) (ch_Title ch) (ch_Participants ch) (ch_Roles ch) t unread.

Definition add_participant (member : string) (ch : Chat) : Chat :=
  if containsContactID (ch_Participants ch) member then ch else with_participants (ch_Participants ch ++ [member]) ch.

(** What a contact without a name is called. *)
Definition default_alias (signPubB64 : string) : string := ("contact-" ++ String.substring 0 8 signPubB64)%string.

Definition fill (s t : string) : string := if is_blank s then t else s.

Definition touched (signPubB64 : string) (now : Z) (c : Contact) : Contact :=
  mkContact (ct_ID c) (ct_CreatedAt c) (ct_Alias c) (if is_empty (ct_SignPubB64 c) then signPubB64 else ct_SignPubB64 c) (ct_Mailbox c) (ct_PreKeyPubB64 c)
    (ct_RelayHints c) (ct_Trust c) (Z.max (ct_LastUpdatedAt c) now).

(** The alias of the contact, and the state.  A contact without an alias is kept, and one of the
    same identifier added. *)
Definition ensureContact (id signPubB64 : string) (now : Z) (s : State) : string * State :=
  let s' := set_contacts (alter_first (is_contact id) (touched signPubB64 now) (cs_Contacts s)) s in
  match getContact s id with
  | Some c =>
      if negb (is_blank (ct_Alias c)) then (ct_Alias c, s')
      else (default_alias signPubB64, set_contacts (cs_Contacts s' ++ [mkContact id now (default_alias signPubB64) signPubB64 "" "" [] "unverified" now]) s')
  | None => (default_alias signPubB64, set_contacts (cs_Contacts s ++ [mkContact id now (default_alias signPubB64) signPubB64 "" "" [] "unverified" now]) s)
  end.

Definition filled (m : GroupMember) (now : Z) (c : Contact) : Contact :=
  mkContact (ct_ID c) (ct_CreatedAt c) (ct_Alias c) (fill (ct_SignPubB64 c) (TrimSpace (gm_SignPubB64 m)))
    (if is_blank (gm_Mailbox m) then ct_Mailbox c else fill (ct_Mailbox c) (TrimSpace (gm_Mailbox m)))
    (if is_blank (gm_PreKeyPubB64 m) then ct_PreKeyPubB64 c else fill (ct_PreKeyPubB64 c) (TrimSpace (gm_PreKeyPubB64 m)))
    (ct_RelayHints c) (ct_Trust c) (Z.max (ct_LastUpdatedAt c) now).

Definition ensureContactFromInvite (id : string) (m : GroupMember) (now : Z) (s : State) : State :=
  if hasContact s id then set_contacts (alter_first (is_contact id) (filled m now) (cs_Contacts s)) s
  else
    let pub := TrimSpace (gm_SignPubB64 m) in
    set_contacts (cs_Contacts s ++ [mkContact id now (default_alias pub) pub (TrimSpace (gm_Mailbox m)) (TrimSpace (gm_PreKeyPubB64 m)) [] "unverified" now]) s.

Definition hasOwnerRole (roles : gmap string string) : bool := existsb (fun kv => String.eqb kv.2 "owner") (map_to_list roles).
Definition ownerCount (roles : gmap string string) : Z := Z.of_nat (length (List.filter (fun kv => String.eqb kv.2 "owner") (map_to_list roles))).
Definition role_of (roles : gmap string string) (actor : string) : string := default "" (roles !! actor).
Definition canInvite (roles : gmap string string) (actor : string) : bool :=
  String.eqb (role_of roles actor) "owner" || String.eqb (role_of roles actor) "moderator".
Definition canManageMembership (s : State) (groupID actor : string) : bool :=
  match find (is_group groupID) (cs_Chats s) with Some ch => canInvite (ch_Roles ch) actor | None => false end.
Definition canManageRoles (s : State) (groupID actor : string) : bool :=
  match find (is_group groupID) (cs_Chats s) with Some ch => String.eqb (role_of (ch_Roles ch) actor) "owner" | None => false end.

Definition set_role (member role : string) (ch : Chat) : Chat := with_roles (<[member := role]> (ch_Roles ch)) ch.

Definition ensureGroupRole (groupID member role : string) (s : State) : State :=
  let role := TrimSpace role in if one_role role then alter_chat (is_group groupID) (set_role member role) s else s.

Definition invited_roles (inviter self : string) (rs : gmap string string) : gmap string string :=
  let rs := if hasOwnerRole rs then rs else <[inviter := "owner"]> rs in
  let rs := match rs !! self with Some _ => rs | None => <[self := "member"]> rs end in
  match rs !! inviter with Some _ => rs | None => <[inviter := "owner"]> rs end.
Definition invite_roles (inviter self : string) (ch : Chat) : Chat := with_roles (invited_roles inviter self (ch_Roles ch)) ch.
Definition ensureGroupInviteRoles (groupID inviter self : string) (s : State) : State := alter_chat (is_group groupID) (invite_roles inviter self) s.

Definition without (member : string) (ch : Chat) : Chat :=
  with_roles (delete member (ch_Roles ch)) (with_participants (filter (fun p => p <> member) (ch_Participants ch)) ch).
Definition removeGroupParticipant (groupID member : string) (s : State) : State := alter_chat (is_group groupID) (without member) s.

Definition ensureDirectChat (chatID contactID title : string) (now : Z) (s : State) : State :=
  match getChat s chatID with
  | Some _ => alter_chat (is_chat chatID) (fun ch => if is_empty (ch_Title ch) then with_title (ch_Kind ch) title ch else ch) s
  | None => set_chats (cs_Chats s ++ [mkChat chatID "direct" now title [contactID] ∅ 0 0]) s
  end.

Definition joined (kind contactID title : string) (ch : Chat) : Chat :=
  add_participant contactID (with_title (if is_empty (ch_Kind ch) then kind else ch_Kind ch) (if is_empty (ch_Title ch) then title else ch_Title ch) ch).
Definition ensureChat (kind chatID contactID title : string) (now : Z) (s : State) : State :=
  match getChat s chatID with
  | Some _ => alter_chat (is_chat chatID) (joined kind contactID title) s
  | None => set_chats (cs_Chats s ++ [mkChat chatID kind now title [contactID] ∅ 0 0]) s
  end.
Definition ensureGroupChat (chatID contactID title : string) (now : Z) (s : State) : State := ensureChat "group" chatID contactID ("group-" ++ title)%string now s.
Definition ensureCommunityChat (chatID contactID title : string) (now : Z) (s : State) : State := ensureChat "community" chatID contactID title now s.

Definition ensureGroupParticipant (groupID member : string) (s : State) : State := alter_chat (is_chat groupID) (add_participant member) s.

(** ** The store *)

Section service.
Context `{ED : Ed25519, CJ : ChatJSON, SS : !SortSlice newest, MC : MsgCrypto} {F R : Type} `{CF : !ChatFile F, RO : !RelayOps R}.

Definition Prune (now : Time) (s : State) : State :=
  let s := set_updated (Unix now) s in
  match cs_Messages s with
  | [] => s
  | ms => set_messages (take (Z.to_nat MaxMessages) (sort_slice ms)) s
  end.

Definition Load (now : Time) (f : F) : res string State :=
  match file_read f with
  | None => Err "chat: read store"
  | Some None => Ok (NewState now)
  | Some (Some st) =>
      let st := Prune now st in
      _ <-! State_Validate st;
      Ok st
  end.

(** The caller's state is pruned, whether it is valid or not. *)
Definition Save (now : Time) (s : State) (f : F) : option string * State * F :=
  let s := Prune now s in
  match State_Validate s with
  | Err e => (Some e, s, f)
  | Ok _ => let '(ok, f) := file_write s f in (if ok then None else Some "chat: write store", s, f)
  end.

(** ** The service *)

Definition NewService (now : Time) (f : F) : res string State := Load now f.

(** The messages of a conversation in the order they are kept. *)
Definition Conversation (chatID : string) (beforeCreatedAt limit : Z) (s : State) : list Message :=
  if is_empty chatID then []
  else
    take (Z.to_nat (if limit <=? 0 then 200 else limit))
      (filter (fun m => mg_ChatID m = chatID /\ ~ (0 < beforeCreatedAt /\ beforeCreatedAt <= mg_CreatedAt m)) (cs_Messages s)).

(** A result with the state, the file and the relay. *)
Abbreviation outcome A := (res string A * (State * F * R))%type (only parsing).

Definition saved {A} (a : A) (now : Time) (s : State) (f : F) (r : R) : outcome A :=
  let '(e, s, f) := Save now s f in (match e with None => Ok a | Some e => Err e end, (s, f, r)).

Definition with_state (state : string) (m : Message) : Message :=
  mkMsg (mg_ID m) (mg_ClientID m) (mg_ChatID m) (mg_CreatedAt m) (mg_SortKey m) (mg_DeviceID m) (mg_SenderSignPubB64 m) (mg_Text m) (mg_Envelope m)
    (mg_RelayMailbox m) (mg_RelayMsgID m) state (mg_Valid m) (mg_Direction m).

Definition is_message (chatID messageID : string) (m : Message) : bool := bool_decide (mg_ChatID m = chatID) && bool_decide (mg_ID m = messageID).

Definition MarkMessageState (chatID messageID state : string) (clock : nat -> Time) (s : State) (f : F) (r : R) : outcome unit :=
  let state := TrimSpace state in
  if is_empty chatID || is_empty messageID then (Err "chat: chat_id and message_id required", (s, f, r))
  else if negb (bool_decide (state ∈ ["sent"; "delivered"; "read"; "failed"])) then (Err "chat: invalid message state", (s, f, r))
  else if existsb (is_message chatID messageID) (cs_Messages s) then
    saved tt (clock 1%nat) (set_updated (Unix (clock 0%nat)) (set_messages (alter_first (is_message chatID messageID) (with_state state) (cs_Messages s)) s)) f r
  else (Err "chat: message not found", (s, f, r)).

Definition offered (alias : string) (o : ContactOffer) (now : Z) (c : Contact) : Contact :=
  mkContact (ct_ID c) (ct_CreatedAt c) alias (ct_SignPubB64 c) (co_Mailbox o) (co_PreKeyPub o) (co_RelayHints o) (ct_Trust c) now.

Definition AddContactFromOffer (alias : string) (o : ContactOffer) (clock : nat -> Time) (s : State) (f : F) (r : R) : outcome string :=
  match Offer_Validate (clock 0%nat) o with
  | Err e => (Err e, (s, f, r))
  | Ok _ =>
      let alias := if is_blank alias then default_alias (co_PersonaPub o) else TrimSpace alias in
      let id := ContactIDFromSignPub (co_PersonaPub o) in
      let now := Unix (clock 1%nat) in
      let cs :=
        if hasContact s id then alter_first (is_contact id) (offered alias o now) (cs_Contacts s)
        else cs_Contacts s ++ [mkContact id now alias (co_PersonaPub o) (co_Mailbox o) (co_PreKeyPub o) (co_RelayHints o) "unverified" now] in
      saved id (clock 2%nat) (set_updated now (set_contacts cs s)) f r
  end.

(** The end of every operation that sends: the message is kept and the conversation dated. *)
Definition record_sent (persona : Persona) (chatID msgID text env : string) (now : Z) (s : State) : State :=
  let m := mkMsg msgID msgID chatID now now "" (pe_SignPubB64 persona) text env "" "" "sent" true "out" in
  alter_chat (is_chat chatID) (fun ch => with_last now (ch_Unread ch) ch) (set_updated now (set_messages (cs_Messages s ++ [m]) s)).

(** The envelope for a contact's prekey, pushed to its mailbox. *)
Definition push_envelope (mailbox env : string) (r : R) : bool * R :=
  match relay_push (mkPush mailbox env 0 0 0 "") r with (Ok _, r) => (true, r) | (Err _, r) => (false, r) end.

Definition sendPayloadToContact (c : Contact) (payload : list Z) (e : seal_env) (r : R) : bool * R :=
  if is_blank (ct_Mailbox c) || is_blank (ct_PreKeyPubB64 c) then (false, r)
  else
    match decode_part (ct_PreKeyPubB64 c) 32 "prekey" with
    | Err _ => (false, r)
    | Ok preKeyPub =>
        match EncryptToPreKey payload preKeyPub e with
        | None => (false, r)
        | Some (env, _) => push_envelope (ct_Mailbox c) (Envelope_Encode env) r
        end
    end.

(** To each contact in turn; envelope [i] is sealed with the randomness [es i]. *)
Fixpoint send_all (cs : list Contact) (payload : list Z) (i : nat) (es : nat -> seal_env) (r : R) : Z * R :=
  match cs with
  | [] => (0, r)
  | c :: cs' =>
      let '(ok, r) := sendPayloadToContact c payload (es i) r in
      let '(n, r) := send_all cs' payload (S i) es r in
      ((if ok then n + 1 else n), r)
  end.

Definition msg_id (rnd : list Z) : string := EncodeToString rnd.

Definition SendTextToContact (persona : Persona) (contactID text : string) (clock : nat -> Time) (rnd : list Z) (e : seal_env) (s : State) (f : F) (r : R) : outcome string :=
  let fail e := (Err e, (s, f, r)) in
  match SignKeypair persona with
  | Err e => fail e
  | Ok (_, priv) =>
      match getContact s contactID with
      | None => fail "chat: unknown contact"
      | Some c =>
          if is_blank (ct_Mailbox c) then fail "chat: contact mailbox missing"
          else if is_blank (ct_PreKeyPubB64 c) then fail "chat: contact prekey missing"
          else
            match decode_part (ct_PreKeyPubB64 c) 32 "contact prekey" with
            | Err e => fail e
            | Ok preKeyPub =>
                let chatID := DirectChatID (ContactIDFromSignPub (pe_SignPubB64 persona)) contactID in
                match EncodeText (pe_SignPubB64 persona) priv chatID text (clock 0%nat) with
                | Err e => fail e
                | Ok payload =>
                    match EncryptToPreKey payload preKeyPub e with
                    | None => fail "random source"
                    | Some (env, _) =>
                        let env := Envelope_Encode env in
                        let '(ok, r) := push_envelope (ct_Mailbox c) env r in
                        if negb ok then (Err "chat: push", (s, f, r))
                        else
                          let now := Unix (clock 1%nat) in
                          let s := ensureDirectChat chatID contactID (ct_Alias c) now s in
                          saved (msg_id rnd) (clock 2%nat) (record_sent persona chatID (msg_id rnd) text env now s) f r
                    end
                end
            end
      end
  end.

(** Members trimmed, none twice. *)
Definition distinct_members (members : list string) : list string :=
  reverse (fold_left (fun out id => let id := TrimSpace id in if is_empty id || bool_decide (id ∈ out) then out else id :: out) members []).

Definition CreateGroup (title : string) (members : list string) (clock : nat -> Time) (rnd : list Z) (s : State) (f : F) (r : R) : outcome string :=
  let fail e := (Err e, (s, f, r)) in
  let members := distinct_members members in
  if is_blank title then fail "chat: group title required"
  else if match members with [] => true | _ => false end then fail "chat: at least one member required"
  else if negb (forallb (hasContact s) members) then fail "chat: unknown group member"
  else
    let now := Unix (clock 0%nat) in
    let chatID := ("g:" ++ EncodeToString rnd)%string in
    saved chatID (clock 1%nat) (set_updated now (set_chats (cs_Chats s ++ [mkChat chatID "group" now (TrimSpace title) members ∅ now 0]) s)) f r.

Definition CreateCommunityRoom (title communityID roomID : string) (members : list string) (clock : nat -> Time) (s : State) (f : F) (r : R) : outcome string :=
  let fail e := (Err e, (s, f, r)) in
  let members := distinct_members members in
  if is_blank title || is_blank communityID || is_blank roomID then fail "chat: title, community_id and room_id required"
  else if match members with [] => true | _ => false end then fail "chat: at least one member required"
  else if negb (forallb (hasContact s) members) then fail "chat: unknown community member"
  else
    let chatID := CommunityRoomChatID communityID roomID in
    match getChat s chatID with
    | Some _ => (Ok chatID, (s, f, r))
    | None =>
        let now := Unix (clock 0%nat) in
        saved chatID (clock 1%nat) (set_updated now (set_chats (cs_Chats s ++ [mkChat chatID "community" now (TrimSpace title) members ∅ now 0]) s)) f r
    end.

(** The contacts of participants; all of them, or those that are known. *)
Fixpoint all_contacts (s : State) (ids : list string) : option (list Contact) :=
  match ids with
  | [] => Some []
  | id :: ids' => match getContact s id with Some c => (fun cs => c :: cs) <$> all_contacts s ids' | None => None end
  end.
Definition known_contacts (s : State) (ids : list string) : list Contact := omap (getContact s) ids.

Definition self_id (persona : Persona) : string := ContactIDFromSignPub (pe_SignPubB64 persona).

(** Who writes to a group without roles becomes a participant, and its owner. *)
Definition enter_group (self : string) (ch : Chat) : Chat :=
  with_roles (if hasOwnerRole (ch_Roles ch) then ch_Roles ch else <[self := "owner"]> (ch_Roles ch)) (with_participants (ch_Participants ch ++ [self]) ch).

(** Sends to contacts, and keeps the message when one was reached. *)
Definition send_and_record (persona : Persona) (chatID text failure : string) (payload : list Z) (contacts : list Contact) (change : Z -> State -> State)
    (clock : nat -> Time) (rnd : list Z) (es : nat -> seal_env) (s : State) (f : F) (r : R) : outcome string :=
  let '(delivered, r) := send_all contacts payload 0 es r in
  if delivered =? 0 then (Err failure, (s, f, r))
  else
    let now := Unix (clock 1%nat) in
    saved (msg_id rnd) (clock 2%nat) (record_sent persona chatID (msg_id rnd) text "" now (change now s)) f r.

Definition SendGroupText (persona : Persona) (groupID text : string) (clock : nat -> Time) (rnd : list Z) (es : nat -> seal_env) (s : State) (f : F) (r : R) : outcome string :=
  let fail s e := (Err e, (s, f, r)) in
  match SignKeypair persona with
  | Err e => fail s e
  | Ok (_, priv) =>
      match getChat s groupID with
      | None => fail s "chat: unknown group"
      | Some ch =>
          let self := self_id persona in
          let outside := negb (containsContactID (ch_Participants ch) self) in
          if negb (bool_decide (ch_Kind ch = "group")) then fail s "chat: chat is not group"
          else if outside && negb (bool_decide (ch_Roles ch = ∅)) then fail s "chat: not a group member"
          else
            let s := if outside then alter_chat (is_chat groupID) (enter_group self) (ensureContact self (pe_SignPubB64 persona) (Unix (clock 3%nat)) s).2 else s in
            let participants := if outside then ch_Participants ch ++ [self] else ch_Participants ch in
            match all_contacts s participants with
            | None => fail s "chat: group member not found"
            | Some contacts =>
                match EncodeGroupText (pe_SignPubB64 persona) priv groupID text (clock 0%nat) with
                | Err e => fail s e
                | Ok payload => send_and_record persona groupID text "chat: group send failed for all recipients" payload contacts (fun _ s => s) clock rnd es s f r
                end
            end
      end
  end.

Definition own_group (self : string) (ch : Chat) : Chat :=
  if hasOwnerRole (ch_Roles ch) then ch else with_roles (<[self := "owner"]> (ch_Roles ch)) ch.

(** A contact as a member in an invite. *)
Definition as_member (c : Contact) : GroupMember := mkGroupMember (ct_SignPubB64 c) (TrimSpace (ct_Mailbox c)) (TrimSpace (ct_PreKeyPubB64 c)).
Definition members_but (s : State) (but : string) (participants : list string) : list GroupMember :=
  map as_member (filter (fun c => is_blank (ct_SignPubB64 c) = false) (known_contacts s (filter (fun p => p <> but) participants))).

Definition InviteToGroup (persona : Persona) (groupID invitee : string) (clock : nat -> Time) (rnd : list Z) (es : nat -> seal_env) (s : State) (f : F) (r : R) : outcome string :=
  let fail s e := (Err e, (s, f, r)) in
  match SignKeypair persona with
  | Err e => fail s e
  | Ok (_, priv) =>
      match getChat s groupID, getContact s invitee with
      | Some ch, Some inviteeContact =>
          if negb (bool_decide (ch_Kind ch = "group")) then fail s "chat: invalid group or invitee"
          else
            let now := Unix (clock 1%nat) in
            let self := self_id persona in
            let s := (ensureContact self (pe_SignPubB64 persona) now s).2 in
            let s := alter_chat (is_chat groupID) (own_group self) (ensureGroupParticipant groupID self s) in
            match getChat s groupID with
            | None => fail s "chat: invalid group or invitee"
            | Some group =>
                if negb (canInvite (ch_Roles group) self) then fail s "chat: invite permission denied"
                else
                  match EncodeGroupInvite (pe_SignPubB64 persona) priv groupID (ch_Title group) (ct_SignPubB64 inviteeContact)
                          (members_but s invitee (ch_Participants group)) (clock 0%nat) with
                  | Err e => fail s e
                  | Ok payload =>
                      send_and_record persona groupID "group invite sent" "chat: failed to send group invite" payload [inviteeContact]
                        (fun _ s => alter_chat (is_chat groupID) (set_role invitee "member") (ensureGroupParticipant groupID invitee s)) clock rnd es s f r
                  end
            end
      | _, _ => fail s "chat: invalid group or invitee"
      end
  end.

Definition JoinGroup (persona : Persona) (groupID : string) (clock : nat -> Time) (rnd : list Z) (es : nat -> seal_env) (s : State) (f : F) (r : R) : outcome string :=
  let fail e := (Err e, (s, f, r)) in
  match SignKeypair persona with
  | Err e => fail e
  | Ok (_, priv) =>
      match getChat s groupID with
      | Some ch =>
          if negb (bool_decide (ch_Kind ch = "group")) then fail "chat: group not found"
          else
            match EncodeGroupJoin (pe_SignPubB64 persona) priv groupID (clock 0%nat) with
            | Err e => fail e
            | Ok payload =>
                send_and_record persona groupID "joined group" "chat: failed to send group join" payload (known_contacts s (ch_Participants ch)) (fun _ s => s) clock rnd es s f r
            end
      | None => fail "chat: group not found"
      end
  end.

(** To the participants that are known, and to the subject if it is none of them. *)
Definition with_subject (contacts : list Contact) (subject : Contact) : list Contact := if containsContact contacts subject then contacts else contacts ++ [subject].

Definition SetGroupRole (persona : Persona) (groupID subject role : string) (clock : nat -> Time) (rnd : list Z) (es : nat -> seal_env) (s : State) (f : F) (r : R) : outcome string :=
  let fail e := (Err e, (s, f, r)) in
  let role := TrimSpace role in
  if negb (one_role role) then fail "chat: invalid role"
  else
    match SignKeypair persona with
    | Err e => fail e
    | Ok (_, priv) =>
        match getChat s groupID, getContact s subject with
        | Some ch, Some subjectContact =>
            if negb (bool_decide (ch_Kind ch = "group")) then fail "chat: invalid group or subject"
            else if negb (canManageRoles s groupID (self_id persona)) then fail "chat: role permission denied"
            else
              match EncodeGroupRole (pe_SignPubB64 persona) priv groupID (ct_SignPubB64 subjectContact) role (clock 0%nat) with
              | Err e => fail e
              | Ok payload =>
                  send_and_record persona groupID "group role updated" "chat: failed to send group role" payload
                    (with_subject (known_contacts s (ch_Participants ch)) subjectContact)
                    (fun _ s => ensureGroupRole groupID subject role (ensureGroupParticipant groupID subject s)) clock rnd es s f r
              end
        | _, _ => fail "chat: invalid group or subject"
        end
    end.

Definition RemoveFromGroup (persona : Persona) (groupID subject : string) (clock : nat -> Time) (rnd : list Z) (es : nat -> seal_env) (s : State) (f : F) (r : R) : outcome string :=
  let fail e := (Err e, (s, f, r)) in
  match SignKeypair persona with
  | Err e => fail e
  | Ok (_, priv) =>
      match getChat s groupID, getContact s subject with
      | Some ch, Some subjectContact =>
          if negb (bool_decide (ch_Kind ch = "group")) then fail "chat: invalid group or subject"
          else if negb (canManageMembership s groupID (self_id persona)) then fail "chat: remove permission denied"
          else if String.eqb (role_of (ch_Roles ch) subject) "owner" && (ownerCount (ch_Roles ch) <=? 1) then fail "chat: cannot remove last owner"
          else
            match EncodeGroupRemove (pe_SignPubB64 persona) priv groupID (ct_SignPubB64 subjectContact) (clock 0%nat) with
            | Err e => fail e
            | Ok payload =>
                send_and_record persona groupID "removed from group" "chat: failed to send group remove" payload
                  (with_subject (known_contacts s (ch_Participants ch)) subjectContact) (fun _ s => removeGroupParticipant groupID subject s) clock rnd es s f r
            end
      | _, _ => fail "chat: invalid group or subject"
      end
  end.

Definition SendCommunityPost (persona : Persona) (communityID roomID text : string) (clock : nat -> Time) (rnd : list Z) (es : nat -> seal_env) (s : State) (f : F) (r : R)
    : outcome string :=
  let fail e := (Err e, (s, f, r)) in
  match SignKeypair persona with
  | Err e => fail e
  | Ok (_, priv) =>
      let chatID := CommunityRoomChatID communityID roomID in
      match getChat s chatID with
      | Some ch =>
          if negb (bool_decide (ch_Kind ch = "community")) then fail "chat: community room not found"
          else
            match all_contacts s (ch_Participants ch) with
            | None => fail "chat: community member not found"
            | Some contacts =>
                match EncodeCommunityPost (pe_SignPubB64 persona) priv communityID roomID text (clock 0%nat) with
                | Err e => fail e
                | Ok payload => send_and_record persona chatID text "chat: community post failed for all recipients" payload contacts (fun _ s => s) clock rnd es s f r
                end
            end
      | None => fail "chat: community room not found"
      end
  end.

(** ** What comes in *)

(** What a payload says of the message and of the conversation. *)
Inductive incoming :=
  | InText
  | InGroup
  | InInvite (b : GroupInviteBody)
  | InJoin
  | InRole (b : GroupRoleBody)
  | InRemove (b : GroupRemoveBody)
  | InPost.

(** The message's text and its conversation; [None]: not for this service. *)
Definition read_incoming (persona : Persona) (p : SignedPayload) : res string (option (incoming * string * string)) :=
  let parsed {A} (o : option A) (k : A -> option (incoming * string * string)) : res string (option (incoming * string * string)) :=
    match o with Some b => Ok (k b) | None => Err "chat: parse body" end in
  let kind := sp_Kind p in
  let body := sp_Body p in
  if bool_decide (kind = KindText) then
    parsed (read_text_body body) (fun b => Some (InText, tb_Text b, DirectChatID (self_id persona) (ContactIDFromSignPub (sp_SenderPubB64 p))))
  else if bool_decide (kind = KindGroup) then parsed (read_group_text_body body) (fun b => Some (InGroup, gb_Text b, gb_GroupID b))
  else if bool_decide (kind = KindGroupInvite) then
    parsed (read_invite_body body) (fun b =>
      if negb (is_blank (ib_InviteePub b)) && negb (String.eqb (TrimSpace (ib_InviteePub b)) (TrimSpace (pe_SignPubB64 persona))) then None
      else Some (InInvite b, "group invite", TrimSpace (ib_GroupID b)))
  else if bool_decide (kind = KindGroupJoin) then parsed (read_join_body body) (fun b => Some (InJoin, "group join", jb_GroupID b))
  else if bool_decide (kind = KindGroupRole) then parsed (read_role_body body) (fun b => Some (InRole b, "group role", TrimSpace (rb_GroupID b)))
  else if bool_decide (kind = KindGroupRemove) then parsed (read_remove_body body) (fun b => Some (InRemove b, "group remove", TrimSpace (rm_GroupID b)))
  else if bool_decide (kind = KindCommunityPost) then
    parsed (read_post_body body) (fun b => Some (InPost, cb_Text b, CommunityRoomChatID (cb_CommunityID b) (cb_RoomID b)))
  else Ok None.

Definition redelivered (rm : RelayTypes.Message) (m : Message) : bool :=
  bool_decide (mg_Direction m = "in") && bool_decide (mg_RelayMsgID m = m_ID rm) && bool_decide (mg_RelayMailbox m = m_Mailbox rm).

Definition named_title (chatID title : string) (s : State) : State :=
  alter_chat (fun ch => is_chat chatID ch && (is_blank (ch_Title ch) || HasPrefix (ch_Title ch) "group-")) (fun ch => with_title (ch_Kind ch) title ch) s.

Definition take_members (chatID : string) (ms : list GroupMember) (now : Z) (s : State) : State :=
  fold_left (fun s m =>
    if is_blank (gm_SignPubB64 m) then s
    else let id := ContactIDFromSignPub (gm_SignPubB64 m) in ensureGroupParticipant chatID id (ensureContactFromInvite id m now s)) ms s.

(** The conversation is made and changed as the payload says. *)
Definition take_effect (self contactID alias chatID : string) (now : Z) (b : incoming) (s : State) : State :=
  let group s := ensureGroupChat chatID contactID alias now s in
  match b with
  | InText => ensureDirectChat chatID contactID alias now s
  | InGroup => group s
  | InInvite b =>
      let s := group s in
      let s := if is_blank (ib_GroupTitle b) then s else named_title chatID (TrimSpace (ib_GroupTitle b)) s in
      let s := take_members chatID (ib_Members b) now s in
      ensureGroupInviteRoles chatID contactID self (ensureGroupParticipant chatID contactID (ensureGroupParticipant chatID self s))
  | InJoin => ensureGroupRole chatID contactID "member" (ensureGroupParticipant chatID contactID (group s))
  | InRole b =>
      let s := group s in
      let subject := ContactIDFromSignPub (rb_SubjectPub b) in
      if canManageRoles s chatID contactID then ensureGroupRole chatID subject (TrimSpace (rb_GrantedRole b)) (ensureGroupParticipant chatID subject s) else s
  | InRemove b =>
      let s := group s in
      let subject := ContactIDFromSignPub (rm_SubjectPub b) in
      if canManageMembership s chatID contactID then removeGroupParticipant chatID subject s else s
  | InPost => ensureCommunityChat chatID contactID "community" now s
  end.

Definition ApplyIncoming (persona : Persona) (rm : RelayTypes.Message) (env : string) (plaintext : list Z) (clock : nat -> Time) (rnd : list Z) (s : State) (f : F) (r : R)
    : outcome unit :=
  match DecodeAndVerify plaintext with
  | Err e => (Err e, (s, f, r))
  | Ok (p, ok) =>
      match read_incoming persona p with
      | Err e => (Err e, (s, f, r))
      | Ok None => (Ok tt, (s, f, r))
      | Ok (Some (b, text, chatID)) =>
          let now := Unix (clock 0%nat) in
          if existsb (redelivered rm) (cs_Messages s) then (Ok tt, (s, f, r))
          else
            let contactID := ContactIDFromSignPub (sp_SenderPubB64 p) in
            let '(alias, s) := ensureContact contactID (sp_SenderPubB64 p) now s in
            let s := take_effect (self_id persona) contactID alias chatID now b s in
            let m := mkMsg (msg_id rnd) (msg_id rnd) chatID (sp_CreatedAt p) (sp_CreatedAt p) "" (sp_SenderPubB64 p) text env (m_Mailbox rm) (m_ID rm)
                       (if ok then "delivered" else "failed") ok "in" in
            let s := set_updated now (set_messages (cs_Messages s ++ [m]) s) in
            saved tt (clock 1%nat) (alter_chat (is_chat chatID) (fun ch => with_last now (ch_Unread ch + 1) ch) s) f r
      end
  end.

(** An owner or moderator that hears of a new member tells the others, and the new one of them. *)
Definition broadcastGroupMemberAdded (persona : Persona) (groupID newMemberPubB64 : string) (clock : nat -> Time) (es : nat -> seal_env) (s : State) (r : R) : R :=
  let pub := TrimSpace newMemberPubB64 in
  if is_empty pub || String.eqb (TrimSpace (pe_SignPubB64 persona)) pub then r
  else
    match SignKeypair persona with
    | Err _ => r
    | Ok (_, priv) =>
        let newID := ContactIDFromSignPub pub in
        match getChat s groupID, getContact s newID with
        | Some ch, Some c =>
            if negb (bool_decide (ch_Kind ch = "group")) || negb (canInvite (ch_Roles ch) (self_id persona)) then r
            else
              let newMember := mkGroupMember pub (TrimSpace (ct_Mailbox c)) (TrimSpace (ct_PreKeyPubB64 c)) in
              if is_empty (gm_Mailbox newMember) || is_empty (gm_PreKeyPubB64 newMember) then r
              else
                let others := filter (fun p => p <> newID) (ch_Participants ch) in
                let contacts := known_contacts s others in
                let invite invitee ms i := EncodeGroupInvite (pe_SignPubB64 persona) priv groupID (ch_Title ch) invitee ms (clock i) in
                let r := match invite "" [newMember] 0%nat with Ok payload => (send_all contacts payload 0 es r).2 | Err _ => r end in
                let full := map (fun c => mkGroupMember (TrimSpace (ct_SignPubB64 c)) (TrimSpace (ct_Mailbox c)) (TrimSpace (ct_PreKeyPubB64 c)))
                              (filter (fun c => is_blank (ct_SignPubB64 c) = false) contacts) in
                match invite pub full 1%nat with Ok payload => (sendPayloadToContact c payload (es (length contacts)) r).2 | Err _ => r end
        | _, _ => r
        end
    end.

Definition ApplyIncomingWithRelay (persona : Persona) (rm : RelayTypes.Message) (env : string) (plaintext : list Z) (clock : nat -> Time) (rnd : list Z) (es : nat -> seal_env)
    (s : State) (f : F) (r : R) : outcome unit :=
  match DecodeAndVerify plaintext with
  | Err e => (Err e, (s, f, r))
  | Ok (p, ok) =>
      match ApplyIncoming persona rm env plaintext clock rnd s f r with
      | (Err e, st) => (Err e, st)
      | (Ok _, (s, f, r)) =>
          if negb ok || negb (bool_decide (sp_Kind p = KindGroupJoin)) then (Ok tt, (s, f, r))
          else
            match read_join_body (sp_Body p) with
            | None => (Ok tt, (s, f, r))
            | Some b =>
                if is_blank (jb_GroupID b) then (Ok tt, (s, f, r))
                else (Ok tt, (s, f, broadcastGroupMemberAdded persona (TrimSpace (jb_GroupID b)) (sp_SenderPubB64 p) (fun i => clock (i + 2)%nat) es s r))
            end
      end
  end.

End service.
