(* ===== verification/ChatSpec.v ===== *)
(** * What the chat state keeps

    Histories of operations and incoming payloads: the state stays consistent, what makes a
    save fail, what is delivered again is ignored; and what a payload may do whose signature
    does not verify. *)

From S2P Require Import Prelude Sha256 GoStr Persona DeviceLink DeviceLinkSpec RelayTypes Messaging SyncRelay ChatCodec Chat.

#[local] Set Warnings "-clear-no-such-hyp".
#[local] Open Scope string_scope.
#[local] Open Scope list_scope.
#[local] Open Scope Z_scope.

(** ** Blank strings *)

(** A string that begins with a character that prints is not blank. *)
Lemma printable_not_blank s x b : bytes_of s = x :: b -> printable x -> is_blank s = false.
Proof.
  intros Hs Hx. unfold is_blank. destruct (is_empty (TrimSpace s)) eqn:E; [|done]. exfalso.
  assert (bytes_of (TrimSpace s) = []) as Ht by (destruct (TrimSpace s); done). rewrite bytes_of_TrimSpace, Hs in Ht.
  apply (trim_bytes_nil (fun z => ~ (33 <= z <= 127))) in Ht; [|decided]. apply Forall_cons in Ht as [Ht _]. by apply Ht.
Qed.

Lemma default_alias_not_blank pub : is_blank (default_alias pub) = false.
Proof. eapply printable_not_blank; [reflexivity|]. split; vm_compute; discriminate. Qed.

Lemma contact_id_encoded pub : exists b, bytes_ok b /\ b <> [] /\ ContactIDFromSignPub pub = EncodeToString b.
Proof.
  exists (take 16 (Sum256 (bytes_of (TrimSpace pub)))). split; [apply Forall_take, Sum256_ok|]. split; [|done].
  intros E. apply (f_equal length) in E. rewrite length_take, Sum256_length in E. done.
Qed.

Lemma contact_id_not_blank pub : is_blank (ContactIDFromSignPub pub) = false.
Proof. destruct (contact_id_encoded pub) as (b & Hb & Hne & ->). by apply encoded_not_blank. Qed.

(** ** A change of the first of a kind *)

Lemma find_alter_first {A} (P : A -> bool) f l : find P l = None -> alter_first P f l = l.
Proof. induction l as [|x l IH]; [done|]. cbn. destruct (P x); [done|]. intros Hl. by rewrite IH. Qed.

Lemma alter_first_Forall {A} (P : A -> bool) f (Q : A -> Prop) l : (forall x, Q x -> Q (f x)) -> Forall Q l -> Forall Q (alter_first P f l).
Proof. intros Hf. induction 1 as [|x l Hx Hl IH]; cbn; [constructor|]. destruct (P x); constructor; auto. Qed.

Lemma alter_first_fmap {A B} (P : A -> bool) f (g : A -> B) l : (forall x, g (f x) = g x) -> g <$> alter_first P f l = g <$> l.
Proof. intros Hg. induction l as [|x l IH]; [done|]. cbn. destruct (P x); cbn; [by rewrite Hg|by f_equal]. Qed.

(** Where identifiers are distinct, a further condition is one on what is changed. *)
Lemma alter_first_and {A} (id : A -> string) k (Q : A -> bool) f l : NoDup (id <$> l) ->
  alter_first (fun x => bool_decide (id x = k) && Q x) f l = alter_first (fun x => bool_decide (id x = k)) (fun x => if Q x then f x else x) l.
Proof.
  induction l as [|x l IH]; [done|]. cbn [fmap list_fmap alter_first]. intros Hnd. inversion Hnd as [|? ? Hn Hnd']; subst.
  destruct (bool_decide_reflect (id x = k)) as [<-|Hne]; cbn [andb]; [|by rewrite IH].
  destruct (Q x); [done|]. f_equal. clear -Hn. induction l as [|y l IH]; [done|]. cbn [fmap list_fmap] in Hn. apply not_elem_of_cons in Hn as [Hy Hl].
  cbn [alter_first]. rewrite bool_decide_eq_false_2 by congruence. cbn [andb]. by rewrite IH.
Qed.

Lemma find_and {A} (id : A -> string) k (Q : A -> bool) l : NoDup (id <$> l) ->
  find (fun x => bool_decide (id x = k) && Q x) l = match find (fun x => bool_decide (id x = k)) l with Some x => if Q x then Some x else None | None => None end.
Proof.
  induction l as [|x l IH]; [done|]. cbn [fmap list_fmap find]. intros Hnd. inversion Hnd as [|? ? Hn Hnd']; subst.
  destruct (bool_decide_reflect (id x = k)) as [<-|Hne]; cbn [andb]; [|by apply IH].
  destruct (Q x); [done|]. clear -Hn. induction l as [|y l IH]; [done|]. cbn [fmap list_fmap] in Hn. apply not_elem_of_cons in Hn as [Hy Hl].
  cbn [find]. rewrite bool_decide_eq_false_2 by congruence. cbn [andb]. by apply IH.
Qed.

Lemma alter_first_twice {A} (P : A -> bool) f g l : (forall x, P x = true -> P (f x) = true) ->
  alter_first P g (alter_first P f l) = alter_first P (fun x => g (f x)) l.
Proof.
  intros Hf. induction l as [|x l IH]; [done|]. cbn [alter_first]. destruct (P x) eqn:E; cbn [alter_first]; [by rewrite Hf|]. rewrite E. by rewrite IH.
Qed.

Lemma find_alter {A} (P : A -> bool) f l : (forall x, P x = true -> P (f x) = true) -> find P (alter_first P f l) = f <$> find P l.
Proof. intros Hf. induction l as [|x l IH]; [done|]. cbn [alter_first find]. destruct (P x) eqn:E; cbn [find]; [by rewrite Hf|]. by rewrite E. Qed.

(** ** Consistent states *)

Definition contact_ok (c : Contact) : Prop := is_blank (ct_ID c) = false /\ 0 < ct_CreatedAt c /\ is_blank (ct_SignPubB64 c) = false /\ is_blank (ct_Alias c) = false.
(** A chat may be without an identifier or participants, which [State.Validate] refuses. *)
Definition chat_ok (ch : Chat) : Prop := 0 < ch_CreatedAt ch /\ is_blank (ch_Kind ch) = false /\ roles_ok ch = true.
(** A message may be without a chat. *)
Definition msg_ok (m : Message) : Prop :=
  is_empty (mg_ID m) = false /\ 0 < mg_CreatedAt m /\ is_blank (mg_Direction m) = false /\ TrimSpace (mg_State m) ∈ message_states.

Record consistent (s : State) : Prop := {
  con_schema : cs_SchemaVersion s = SchemaV1;
  con_contact_ids : NoDup (ct_ID <$> cs_Contacts s);
  con_contacts : Forall contact_ok (cs_Contacts s);
  con_chat_ids : NoDup (ch_ID <$> cs_Chats s);
  con_chats : Forall chat_ok (cs_Chats s);
  con_messages : Forall msg_ok (cs_Messages s);
}.

(** What every operation is made of. *)
Inductive edit : State -> State -> Prop :=
  | ed_updated t s : edit s (set_updated t s)
  | ed_contact id f s : (forall c, ct_ID (f c) = ct_ID c) -> (forall c, contact_ok c -> contact_ok (f c)) ->
      edit s (set_contacts (alter_first (is_contact id) f (cs_Contacts s)) s)
  | ed_new_contact c s : contact_ok c -> hasContact s (ct_ID c) = false -> edit s (set_contacts (cs_Contacts s ++ [c]) s)
  | ed_chat id f s : (forall ch, ch_ID (f ch) = ch_ID ch) -> (forall ch, chat_ok ch -> chat_ok (f ch)) -> edit s (alter_chat (is_chat id) f s)
  | ed_new_chat ch s : chat_ok ch -> getChat s (ch_ID ch) = None -> edit s (set_chats (cs_Chats s ++ [ch]) s)
  | ed_message m s : msg_ok m -> edit s (set_messages (cs_Messages s ++ [m]) s)
  | ed_mark P state s : TrimSpace state ∈ message_states -> edit s (set_messages (alter_first P (with_state state) (cs_Messages s)) s).

Abbreviation edits := (rtc edit).

Lemma find_none_ids {A} (id : A -> string) k l : find (fun x => bool_decide (id x = k)) l = None -> k ∉ id <$> l.
Proof.
  induction l as [|x l IH]; cbn; [intros _; apply not_elem_of_nil|]. destruct (bool_decide_reflect (id x = k)) as [|Hne]; [done|].
  intros Hl. apply not_elem_of_cons. split; [congruence|by apply IH].
Qed.

Lemma hasContact_ids s id : hasContact s id = false -> id ∉ ct_ID <$> cs_Contacts s.
Proof.
  unfold hasContact. intros H. apply (find_none_ids ct_ID). change (find (is_contact id) (cs_Contacts s) = None).
  induction (cs_Contacts s) as [|c l IH]; [done|]. cbn in *. apply orb_false_iff in H as [-> H]. by apply IH.
Qed.

Lemma getContact_has s id : hasContact s id = match getContact s id with Some _ => true | None => false end.
Proof. unfold hasContact, getContact. induction (cs_Contacts s) as [|c l IH]; [done|]. cbn. by destruct (is_contact id c). Qed.

Lemma NoDup_snoc {A} (l : list A) x : NoDup l -> x ∉ l -> NoDup (l ++ [x]).
Proof. intros Hl Hx. apply NoDup_app. split; [done|]. split; [|apply NoDup_singleton]. intros y Hy ->%list_elem_of_singleton. done. Qed.

Lemma edit_consistent s s' : edit s s' -> consistent s -> consistent s'.
Proof.
  intros He [H1 H2 H3 H4 H5 H6]. destruct He; split; cbn; try done.
  - by rewrite alter_first_fmap.
  - by apply alter_first_Forall.
  - rewrite fmap_app. apply NoDup_snoc; [done|by apply hasContact_ids].
  - apply Forall_app. by split; [|constructor].
  - by rewrite alter_first_fmap.
  - by apply alter_first_Forall.
  - rewrite fmap_app. apply NoDup_snoc; [done|by apply (find_none_ids ch_ID)].
  - apply Forall_app. by split; [|constructor].
  - apply Forall_app. by split; [|constructor].
  - apply alter_first_Forall; [|done]. intros m (M1 & M2 & M3 & M4). by split_and!.
Qed.

Lemma edits_consistent s s' : edits s s' -> consistent s -> consistent s'.
Proof. induction 1; [done|]. intros Hc. eauto using edit_consistent. Qed.

(** ** Roles *)

Lemma roles_ok_spec ch : roles_ok ch = true <-> (ch_Kind ch = "group" -> forall k v, ch_Roles ch !! k = Some v -> role_ok ch k v = true).
Proof.
  unfold roles_ok. rewrite orb_true_iff, negb_true_iff, bool_decide_eq_false, forallb_true. split.
  - intros [Hk|Hall] Hg k v Hv; [done|]. rewrite Forall_forall in Hall. apply (Hall (k, v)). by apply elem_of_map_to_list.
  - intros H. destruct (decide (ch_Kind ch = "group")) as [Hg|]; [right|by left]. apply Forall_forall. intros [k v] Hkv%elem_of_map_to_list. by apply H.
Qed.

Lemma role_ok_spec ch k v : role_ok ch k v = true <-> is_blank k = false /\ k ∈ ch_Participants ch /\ one_role v = true.
Proof. unfold role_ok. rewrite !andb_true_iff, negb_true_iff, bool_decide_eq_true. tauto. Qed.

(** More participants and fewer roles. *)
Lemma chat_ok_more ch ch' : ch_CreatedAt ch' = ch_CreatedAt ch -> ch_Kind ch' = ch_Kind ch -> ch_Participants ch ⊆ ch_Participants ch' ->
  (forall k v, ch_Roles ch' !! k = Some v -> ch_Roles ch !! k = Some v \/ (is_blank k = false /\ k ∈ ch_Participants ch' /\ one_role v = true)) -> chat_ok ch -> chat_ok ch'.
Proof.
  intros E1 E2 Hsub Hr (H1 & H2 & H3). unfold chat_ok. rewrite E1, E2. split; [done|]. split; [done|].
  rewrite roles_ok_spec in *. rewrite E2. intros Hg k v Hv. apply role_ok_spec. destruct (Hr _ _ Hv) as [Ho|]; [|done].
  apply (H3 Hg), role_ok_spec in Ho as (? & ? & ?). eauto.
Qed.

Lemma add_participant_spec m ch : ch_ID (add_participant m ch) = ch_ID ch /\ ch_Kind (add_participant m ch) = ch_Kind ch
  /\ ch_Roles (add_participant m ch) = ch_Roles ch /\ ch_CreatedAt (add_participant m ch) = ch_CreatedAt ch
  /\ ch_Participants ch ⊆ ch_Participants (add_participant m ch) /\ m ∈ ch_Participants (add_participant m ch).
Proof.
  unfold add_participant, containsContactID. destruct (bool_decide_reflect (m ∈ ch_Participants ch)); [done|]. cbn. split_and!; try done.
  - intros x Hx. apply elem_of_app. by left.
  - apply elem_of_app. right. by apply list_elem_of_singleton.
Qed.

Lemma add_participant_ok m ch : chat_ok ch -> chat_ok (add_participant m ch).
Proof.
  destruct (add_participant_spec m ch) as (_ & E1 & E2 & E3 & E4 & _). apply chat_ok_more; [done|done|done|]. rewrite E2. by left.
Qed.

Lemma set_role_ok m role ch : is_blank m = false -> m ∈ ch_Participants ch -> one_role role = true -> chat_ok ch -> chat_ok (set_role m role ch).
Proof.
  intros Hm Hin Hr. apply chat_ok_more; [done..|]. cbn. intros k v [[<- <-]|[_ Hv]]%lookup_insert_Some; [by right|by left].
Qed.

Lemma own_group_ok self ch : is_blank self = false -> self ∈ ch_Participants ch -> chat_ok ch -> chat_ok (own_group self ch).
Proof. intros Hb Hin Hc. unfold own_group. destruct (hasOwnerRole _); [done|]. by apply (set_role_ok self "owner"). Qed.

Lemma invite_roles_ok inviter self ch : is_blank inviter = false -> is_blank self = false -> inviter ∈ ch_Participants ch -> self ∈ ch_Participants ch ->
  chat_ok ch -> chat_ok (invite_roles inviter self ch).
Proof.
  intros Hi Hs Ii Is. apply chat_ok_more; [done..|]. cbn. unfold invited_roles.
  set (r1 := if hasOwnerRole _ then _ else _ : gmap string string).
  assert (forall k v, r1 !! k = Some v -> ch_Roles ch !! k = Some v \/ (is_blank k = false /\ k ∈ ch_Participants ch /\ one_role v = true)) as H1.
  { subst r1. intros k v. destruct (hasOwnerRole _); [by left|]. intros [[<- <-]|[_ Hv]]%lookup_insert_Some; [by right|by left]. }
  set (r2 := match r1 !! self with Some _ => r1 | None => <[self := "member"]> r1 end).
  assert (forall k v, r2 !! k = Some v -> ch_Roles ch !! k = Some v \/ (is_blank k = false /\ k ∈ ch_Participants ch /\ one_role v = true)) as H2.
  { subst r2. intros k v. destruct (r1 !! self); [apply H1|]. intros [[<- <-]|[_ Hv]]%lookup_insert_Some; [by right|by apply H1]. }
  intros k v. destruct (r2 !! inviter); [apply H2|]. intros [[<- <-]|[_ Hv]]%lookup_insert_Some; [by right|by apply H2].
Qed.

Lemma without_ok m ch : chat_ok ch -> chat_ok (without m ch).
Proof.
  intros (H1 & H2 & H3). split; [done|]. split; [done|]. rewrite roles_ok_spec in *. cbn. intros Hg k v [Hne Hv]%lookup_delete_Some.
  apply (H3 Hg), role_ok_spec in Hv as (? & ? & ?). apply role_ok_spec. split; [done|]. split; [|done]. cbn. apply list_elem_of_filter. by split; [congruence|].
Qed.

(** ** Every helper is made of edits *)

Lemma group_alone g f s : consistent s ->
  alter_chat (is_group g) f s = alter_chat (is_chat g) (fun ch => if bool_decide (ch_Kind ch = "group") then f ch else ch) s.
Proof. intros Hc. unfold alter_chat. f_equal. apply (alter_first_and ch_ID), (con_chat_ids _ Hc). Qed.

Lemma alter_chat_twice g f h s : (forall ch, ch_ID (h ch) = ch_ID ch) -> alter_chat (is_chat g) f (alter_chat (is_chat g) h s) = alter_chat (is_chat g) (fun ch => f (h ch)) s.
Proof. intros Hh. unfold alter_chat, set_chats. cbn. f_equal. apply alter_first_twice. intros ch. unfold is_chat. by rewrite Hh. Qed.

Lemma with_participant_edit g m f s : consistent s -> (forall ch, ch_ID (f ch) = ch_ID ch) ->
  (forall ch, m ∈ ch_Participants ch -> chat_ok ch -> chat_ok (f ch)) -> edits s (alter_chat (is_group g) f (ensureGroupParticipant g m s)).
Proof.
  intros Hc Hid Hok. unfold ensureGroupParticipant.
  assert (edit s (alter_chat (is_chat g) (add_participant m) s)) as He by (apply ed_chat; intros ch; [apply add_participant_spec|apply add_participant_ok]).
  rewrite group_alone by (by eapply edit_consistent). rewrite alter_chat_twice by apply add_participant_spec.
  apply rtc_once, ed_chat; intros ch; destruct (add_participant_spec m ch) as (E & _ & _ & _ & _ & Hin).
  - case_bool_decide; [by rewrite Hid|done].
  - intros Hch%(add_participant_ok m). case_bool_decide; [by apply Hok|done].
Qed.

Lemma ensureContact_edits id pub now s : consistent s -> is_blank id = false -> is_blank pub = false -> 0 < now -> edits s (ensureContact id pub now s).2.
Proof.
  intros Hc Hid Hp Hn. unfold ensureContact. destruct (getContact s id) as [c|] eqn:Eg.
  - apply List.find_some in Eg as [Hin%list_elem_of_In Hi].
    pose proof (con_contacts _ Hc) as Hall. rewrite Forall_forall in Hall. destruct (Hall _ Hin) as (_ & _ & _ & ->). cbn [negb snd].
    apply rtc_once, ed_contact; [done|]. intros c' (C1 & C2 & C3 & C4). split_and!; try done. cbn. by destruct (is_empty (ct_SignPubB64 c')).
  - cbn [snd]. apply rtc_once. apply (ed_new_contact (mkContact id now (default_alias pub) pub "" "" [] "unverified" now)).
    + split_and!; [done|done|done|apply default_alias_not_blank].
    + cbn. by rewrite getContact_has, Eg.
Qed.

Lemma trimmed_not_blank x : is_blank x = false -> is_blank (TrimSpace x) = false.
Proof. unfold is_blank. by rewrite TrimSpace_idemp. Qed.

Lemma ensureContactFromInvite_edits id m now s : is_blank id = false -> is_blank (gm_SignPubB64 m) = false -> 0 < now ->
  edits s (ensureContactFromInvite id m now s).
Proof.
  intros Hid Hp Hn. unfold ensureContactFromInvite. destruct (hasContact s id) eqn:Eh; apply rtc_once.
  - apply ed_contact; [done|]. intros c (C1 & C2 & C3 & C4). split_and!; try done. cbn. unfold fill. by rewrite C3.
  - apply ed_new_contact; [|done]. split_and!; [done|done|by apply trimmed_not_blank|apply default_alias_not_blank].
Qed.

Lemma ensureParticipant_edits g m s : edits s (ensureGroupParticipant g m s).
Proof. apply rtc_once, ed_chat; intros ch; [apply add_participant_spec|apply add_participant_ok]. Qed.

Lemma ensureGroupRole_edits g m role s : consistent s -> is_blank m = false -> edits s (ensureGroupRole g m role (ensureGroupParticipant g m s)).
Proof.
  intros Hc Hm. unfold ensureGroupRole. destruct (one_role (TrimSpace role)) eqn:Er; [|apply ensureParticipant_edits].
  apply with_participant_edit; [done|done|]. intros ch Hin. by apply set_role_ok.
Qed.

Lemma removeParticipant_edits g m s : consistent s -> edits s (removeGroupParticipant g m s).
Proof.
  intros Hc. unfold removeGroupParticipant. rewrite group_alone by done. apply rtc_once, ed_chat; intros ch; case_bool_decide; [done|done|by apply without_ok|done].
Qed.

Lemma new_chat_ok id kind now title ps last unread : is_blank kind = false -> 0 < now -> chat_ok (mkChat id kind now title ps ∅ last unread).
Proof. intros Hk Hn. split; [done|]. split; [done|]. apply roles_ok_spec. done. Qed.

Lemma ensureDirectChat_edits id c title now s : 0 < now -> edits s (ensureDirectChat id c title now s).
Proof.
  intros Hn. unfold ensureDirectChat. destruct (getChat s id) eqn:Eg; apply rtc_once.
  - apply ed_chat; intros ch; destruct (is_empty _); done.
  - apply ed_new_chat; [by apply new_chat_ok|done].
Qed.

Lemma joined_spec kind c title ch : chat_ok ch -> let ch' := joined kind c title ch in
  ch_ID ch' = ch_ID ch /\ ch_Kind ch' = ch_Kind ch /\ ch_Roles ch' = ch_Roles ch /\ c ∈ ch_Participants ch' /\ chat_ok ch'.
Proof.
  intros Hok. unfold joined. set (ch1 := with_title _ _ ch).
  assert (ch_Kind ch1 = ch_Kind ch) as Ek by (cbn; destruct Hok as (_ & Hb & _); by rewrite (not_blank_nonempty _ Hb)).
  destruct (add_participant_spec c ch1) as (E1 & E2 & E3 & _ & _ & E5). cbv zeta. rewrite E1, E2, E3, Ek. split_and!; [done|done|done|done|].
  apply add_participant_ok. apply (chat_ok_more ch); [done|done|done|by left|done].
Qed.

Lemma ensureChat_edits kind id c title now s : is_blank kind = false -> 0 < now -> edits s (ensureChat kind id c title now s).
Proof.
  intros Hk Hn. unfold ensureChat. destruct (getChat s id) eqn:Eg; apply rtc_once.
  - apply ed_chat; intros ch; [|by intros Hok; apply joined_spec].
    unfold joined. by destruct (add_participant_spec c (with_title (if is_empty (ch_Kind ch) then kind else ch_Kind ch) (if is_empty (ch_Title ch) then title else ch_Title ch) ch)) as (-> & _).
  - apply ed_new_chat; [by apply new_chat_ok|done].
Qed.

Lemma named_title_edits id title s : consistent s -> edits s (named_title id title s).
Proof.
  intros Hc. unfold named_title, alter_chat, is_chat.
  rewrite (alter_first_and ch_ID id (fun ch => is_blank (ch_Title ch) || HasPrefix (ch_Title ch) "group-")) by apply (con_chat_ids _ Hc).
  apply rtc_once. apply (ed_chat id); intros ch; destruct (_ || _); done.
Qed.

Lemma take_members_edits id ms now s : consistent s -> 0 < now -> edits s (take_members id ms now s).
Proof.
  intros Hc Hn. unfold take_members. revert s Hc. induction ms as [|m ms IH]; intros s Hc; cbn [fold_left]; [done|].
  destruct (is_blank (gm_SignPubB64 m)) eqn:Eb; [by apply IH|].
  set (mid := ContactIDFromSignPub _).
  assert (edits s (ensureGroupParticipant id mid (ensureContactFromInvite mid m now s))) as He.
  { etrans; [apply ensureContactFromInvite_edits; [apply contact_id_not_blank|done|done]|apply ensureParticipant_edits]. }
  etrans; [exact He|]. apply IH. by eapply edits_consistent.
Qed.

Lemma invite_effect_edits id contact self s : consistent s -> is_blank contact = false -> is_blank self = false ->
  edits s (ensureGroupInviteRoles id contact self (ensureGroupParticipant id contact (ensureGroupParticipant id self s))).
Proof.
  intros Hc Hb Hs. unfold ensureGroupInviteRoles, ensureGroupParticipant. rewrite (alter_chat_twice id) by apply add_participant_spec.
  set (h := fun ch => _). assert (forall ch, ch_ID (h ch) = ch_ID ch) as Hid.
  { intros ch. unfold h. destruct (add_participant_spec contact (add_participant self ch)) as (-> & _). apply add_participant_spec. }
  assert (edit s (alter_chat (is_chat id) h s)) as He by (apply ed_chat; [done|]; intros ch Hok; by apply add_participant_ok, add_participant_ok).
  rewrite group_alone by (by eapply edit_consistent). rewrite alter_chat_twice by done. apply rtc_once, ed_chat; intros ch.
  - case_bool_decide; apply Hid.
  - intros Hok. assert (chat_ok (h ch)) as Hh by by apply add_participant_ok, add_participant_ok. case_bool_decide; [|done].
    destruct (add_participant_spec self ch) as (_ & _ & _ & _ & _ & S1). destruct (add_participant_spec contact (add_participant self ch)) as (_ & _ & _ & _ & S2 & S3).
    apply invite_roles_ok; try done. by apply S2.
Qed.

Lemma alter_first_ids P f l : (forall ch, ch_ID (f ch) = ch_ID ch) -> ch_ID <$> alter_first P f l = ch_ID <$> l.
Proof. apply alter_first_fmap. Qed.

Lemma edits_keep_chats s s' id : edits s s' -> id ∈ ch_ID <$> cs_Chats s -> id ∈ ch_ID <$> cs_Chats s'.
Proof.
  induction 1 as [|s s1 s2 He _ IH]; [done|]. intros Hin. apply IH. destruct He; cbn; try done.
  - by rewrite alter_first_ids.
  - rewrite fmap_app. apply elem_of_app. by left.
Qed.

Lemma find_ids {A} (id : A -> string) k l x : find (fun x => bool_decide (id x = k)) l = Some x -> k ∈ id <$> l.
Proof. intros [Hin <-%bool_decide_eq_true]%List.find_some. apply list_elem_of_fmap_2. by apply list_elem_of_In. Qed.

Lemma joined_id kind c title ch : ch_ID (joined kind c title ch) = ch_ID ch.
Proof. unfold joined, add_participant. by destruct (containsContactID _ _). Qed.

Lemma ensureChat_has kind id c title now s : id ∈ ch_ID <$> cs_Chats (ensureChat kind id c title now s).
Proof.
  unfold ensureChat. destruct (getChat s id) as [ch|] eqn:E; cbn.
  - rewrite alter_first_ids; [by eapply (find_ids ch_ID)|]. intros x. apply joined_id.
  - rewrite fmap_app. apply elem_of_app. right. by apply list_elem_of_singleton.
Qed.

Lemma ensureDirectChat_has id c title now s : id ∈ ch_ID <$> cs_Chats (ensureDirectChat id c title now s).
Proof.
  unfold ensureDirectChat. destruct (getChat s id) as [ch|] eqn:E; cbn.
  - rewrite alter_first_ids; [by eapply (find_ids ch_ID)|]. intros x. by destruct (is_empty (ch_Title x)).
  - rewrite fmap_app. apply elem_of_app. right. by apply list_elem_of_singleton.
Qed.

(** A payload takes effect in two steps: its conversation is made, then changed. *)
Lemma take_effect_made self contact alias id now b s : consistent s -> is_blank self = false -> is_blank contact = false -> 0 < now ->
  exists s1, edits s s1 /\ id ∈ ch_ID <$> cs_Chats s1 /\ edits s1 (take_effect self contact alias id now b s).
Proof.
  intros Hc Hs Hb Hn. assert (edits s (ensureGroupChat id contact alias now s)) as Hg by by apply ensureChat_edits.
  pose proof (edits_consistent _ _ Hg Hc) as Hgc. pose proof (ensureChat_has "group" id contact ("group-" ++ alias)%string now s : id ∈ ch_ID <$> cs_Chats (ensureGroupChat id contact alias now s)) as Hin.
  destruct b as [| |b| |b|b|]; cbn [take_effect].
  - eexists. split; [by apply (ensureDirectChat_edits id contact alias now)|]. split; [apply ensureDirectChat_has|done].
  - by eexists.
  - eexists. split; [exact Hg|]. split; [done|]. set (s1 := ensureGroupChat id contact alias now s) in *.
    assert (edits s1 (if is_blank (ib_GroupTitle b) then s1 else named_title id (TrimSpace (ib_GroupTitle b)) s1)) as Ht
      by (destruct (is_blank (ib_GroupTitle b)); [done|by apply named_title_edits]).
    etrans; [exact Ht|]. pose proof (edits_consistent _ _ Ht Hgc) as Htc.
    etrans; [by apply (take_members_edits id (ib_Members b) now)|]. apply invite_effect_edits; [|done|done].
    eapply edits_consistent; [by apply take_members_edits|done].
  - eexists. split; [exact Hg|]. split; [done|]. by apply ensureGroupRole_edits.
  - eexists. split; [exact Hg|]. split; [done|]. destruct (canManageRoles _ _ _); [|done]. apply ensureGroupRole_edits; [done|apply contact_id_not_blank].
  - eexists. split; [exact Hg|]. split; [done|]. destruct (canManageMembership _ _ _); [|done]. by apply removeParticipant_edits.
  - eexists. split; [by apply (ensureChat_edits "community" id contact "community" now)|]. split; [apply ensureChat_has|done].
Qed.

Lemma take_effect_edits self contact alias id now b s : consistent s -> is_blank self = false -> is_blank contact = false -> 0 < now ->
  edits s (take_effect self contact alias id now b s).
Proof. intros Hc Hs Hb Hn. destruct (take_effect_made self contact alias id now b s Hc Hs Hb Hn) as (s1 & H1 & _ & H2). by etrans. Qed.

(** ** Operations *)

Section histories.
Context {ED : Ed25519} {CJ : ChatJSON} {SS : SortSlice newest} {MC : MsgCrypto} {F R : Type} {CF : ChatFile F} {RO : RelayOps R}.

(** An operation changes the state by edits, and either leaves the file or ends with a save. *)
Definition settles {A} (s : State) (f : F) (o : res string A * (State * F * R)) : Prop :=
  exists s1, edits s s1 /\ ((o.2.1.1 = s1 /\ o.2.1.2 = f) \/ exists t e, Save t s1 f = (e, o.2.1.1, o.2.1.2)).

Lemma settles_same {A} s f (x : res string A) r : settles s f (x, (s, f, r)).
Proof. exists s. split; [done|]. by left. Qed.

Lemma settles_saved {A} s s1 f (a : A) t r : edits s s1 -> settles s f (saved a t s1 f r).
Proof. intros He. exists s1. split; [done|]. right. unfold saved. destruct (Save t s1 f) as [[e s2] f2] eqn:E. by exists t, e. Qed.

Lemma settles_after {A} s s1 f (o : res string A * (State * F * R)) : edits s s1 -> settles s1 f o -> settles s f o.
Proof. intros He (s2 & H2 & Ho). exists s2. split; [by etrans|done]. Qed.

(** Random bytes of a message, and a clock that has been set. *)
Definition drawn_id (rnd : list Z) : Prop := bytes_ok rnd /\ rnd <> [].
Definition clock_ok (clock : nat -> Time) : Prop := forall i, 0 < Unix (clock i).

Lemma msg_id_ok rnd : drawn_id rnd -> is_empty (msg_id rnd) = false.
Proof. intros [Hb Hne]. by apply not_blank_nonempty, encoded_not_blank. Qed.

Lemma known_state state : state ∈ ["sent"; "delivered"; "read"; "failed"] -> TrimSpace state ∈ message_states.
Proof.
  intros H. assert (TrimSpace state = state) as ->.
  { repeat (apply elem_of_cons in H as [->|H]; [by vm_compute|]). by apply elem_of_nil in H. }
  unfold message_states. do 2 right. set_solver.
Qed.

Lemma record_sent_edits persona chat rnd text env now s : drawn_id rnd -> 0 < now -> edits s (record_sent persona chat (msg_id rnd) text env now s).
Proof.
  intros Hr Hn. unfold record_sent. set (m := mkMsg _ _ _ _ _ _ _ _ _ _ _ _ _ _).
  eapply rtc_l; [apply (ed_message m)|]. { split; [by apply msg_id_ok|]. split; [done|]. split; [by vm_compute|]. apply (known_state "sent"). by left. }
  eapply rtc_l; [apply (ed_updated now)|]. apply rtc_once. by apply ed_chat.
Qed.

Lemma keypair_signs persona keys : SignKeypair persona = Ok keys -> is_blank (pe_SignPubB64 persona) = false.
Proof.
  unfold SignKeypair, sign_keypair. destruct (DecodeString (pe_SignPubB64 persona)) as [pub|] eqn:E; [|done]. destruct (DecodeString (pe_SignPrivB64 persona)) as [priv|]; [|done].
  destruct (blen pub =? PublicKeySize) eqn:El; [|done]. intros _. eapply decodes_not_blank; [exact E|]. apply Z.eqb_eq in El. rewrite El. reflexivity.
Qed.

Lemma send_and_record_settles persona chat text failure payload contacts change clock rnd es s f r : clock_ok clock -> drawn_id rnd ->
  (forall now, 0 < now -> edits s (change now s)) -> settles s f (send_and_record persona chat text failure payload contacts change clock rnd es s f r).
Proof.
  intros Hk Hr Hc. unfold send_and_record. destruct (send_all _ _ _ _ _) as [n r']. destruct (n =? 0); [apply settles_same|].
  apply settles_saved. etrans; [apply Hc, Hk|]. apply record_sent_edits; [done|apply Hk].
Qed.

Lemma getContact_in s id c : getContact s id = Some c -> c ∈ cs_Contacts s /\ ct_ID c = id.
Proof. intros [Hin Hi]%List.find_some. apply list_elem_of_In in Hin. split; [done|]. by apply bool_decide_eq_true in Hi. Qed.

Lemma known_not_blank s id c : consistent s -> getContact s id = Some c -> is_blank id = false.
Proof. intros Hc (Hin & <-)%getContact_in. pose proof (con_contacts _ Hc) as H. rewrite Forall_forall in H. by apply H. Qed.

Lemma MarkMessageState_settles chat id state clock s f r : settles s f (MarkMessageState chat id state clock s f r).
Proof.
  unfold MarkMessageState. destruct (_ || _); [apply settles_same|]. destruct (bool_decide_reflect (TrimSpace state ∈ ["sent"; "delivered"; "read"; "failed"])) as [Hin|]; cbn [negb]; [|apply settles_same].
  destruct (existsb _ _); [|apply settles_same]. apply settles_saved. eapply rtc_l; [apply ed_mark; by apply known_state|]. apply rtc_once, ed_updated.
Qed.

Lemma offer_pub now o : Offer_Validate now o = Ok tt -> is_blank (co_PersonaPub o) = false.
Proof.
  unfold Offer_Validate. repeat (case_match; [|done]). unfold decode_sized. destruct (DecodeString (co_PersonaPub o)) as [b|] eqn:E; [|done].
  destruct (blen b =? PublicKeySize) eqn:El; [|done]. intros _. eapply decodes_not_blank; [exact E|]. apply Z.eqb_eq in El. rewrite El. reflexivity.
Qed.

Lemma AddContact_settles alias o clock s f r : clock_ok clock -> settles s f (AddContactFromOffer alias o clock s f r).
Proof.
  intros Hk. unfold AddContactFromOffer. destruct (Offer_Validate _ o) as [[]|] eqn:Ev; [|apply settles_same]. apply offer_pub in Ev. cbv zeta.
  set (al := if is_blank alias then _ else _). assert (is_blank al = false) as Ha.
  { subst al. destruct (is_blank alias) eqn:E; [apply default_alias_not_blank|by apply trimmed_not_blank]. }
  apply settles_saved. destruct (hasContact s _) eqn:Eh.
  - eapply rtc_l; [apply ed_contact|apply rtc_once, ed_updated]; [done|]. intros c (C1 & C2 & C3 & C4). by split_and!.
  - set (c := mkContact _ _ _ _ _ _ _ _ _). eapply rtc_l; [apply (ed_new_contact c); [|exact Eh]|apply rtc_once, ed_updated]. split_and!; [apply contact_id_not_blank|apply Hk|done|done].
Qed.

Lemma SendText_settles persona contact text clock rnd e s f r : clock_ok clock -> drawn_id rnd -> settles s f (SendTextToContact persona contact text clock rnd e s f r).
Proof.
  intros Hk Hr. unfold SendTextToContact. destruct (SignKeypair persona) as [[pub priv]|]; [|apply settles_same]. destruct (getContact s contact) as [c|]; [|apply settles_same].
  destruct (is_blank (ct_Mailbox c)); [apply settles_same|]. destruct (is_blank (ct_PreKeyPubB64 c)); [apply settles_same|].
  destruct (decode_part _ _ _) as [key|]; [|apply settles_same]. cbv zeta. destruct (EncodeText _ _ _ _ _) as [payload|]; [|apply settles_same].
  destruct (EncryptToPreKey _ _ _) as [[env x]|]; [|apply settles_same]. destruct (push_envelope _ _ _) as [[] r']; cbn [negb]; [|apply settles_same].
  apply settles_saved. etrans; [apply ensureDirectChat_edits, Hk|]. apply record_sent_edits; [done|apply Hk].
Qed.

Lemma new_chat_settles (A : Type) (a : A) id kind title ps now t s f r : is_blank kind = false -> 0 < now -> getChat s id = None ->
  settles s f (saved a t (set_updated now (set_chats (cs_Chats s ++ [mkChat id kind now title ps ∅ now 0]) s)) f r).
Proof.
  intros Hk Hn Hg. apply settles_saved. eapply rtc_l; [apply (ed_new_chat (mkChat id kind now title ps ∅ now 0)); [by apply new_chat_ok|done]|]. apply rtc_once, ed_updated.
Qed.

Lemma CreateGroup_settles title members clock rnd s f r : clock_ok clock -> getChat s ("g:" ++ EncodeToString rnd)%string = None ->
  settles s f (CreateGroup title members clock rnd s f r).
Proof.
  intros Hk Hf. unfold CreateGroup. cbv zeta. destruct (is_blank title); [apply settles_same|]. destruct (match distinct_members members with [] => true | _ => false end); [apply settles_same|].
  destruct (negb _); [apply settles_same|]. apply new_chat_settles; [by vm_compute|apply Hk|done].
Qed.

Lemma CreateRoom_settles title community room members clock s f r : clock_ok clock -> settles s f (CreateCommunityRoom title community room members clock s f r).
Proof.
  intros Hk. unfold CreateCommunityRoom. cbv zeta. destruct (_ || _); [apply settles_same|]. destruct (match distinct_members members with [] => true | _ => false end); [apply settles_same|].
  destruct (negb _); [apply settles_same|]. destruct (getChat s _) eqn:Eg; [apply settles_same|]. apply new_chat_settles; [by vm_compute|apply Hk|done].
Qed.

Lemma enter_group_ok self ch : is_blank self = false -> chat_ok ch -> chat_ok (enter_group self ch).
Proof.
  intros Hs. apply chat_ok_more; [done|done| |].
  - intros x Hx. apply elem_of_app. by left.
  - cbn. intros k v. destruct (hasOwnerRole _); [by left|]. intros [[<- <-]|[_ Hv]]%lookup_insert_Some; [right|by left].
    split; [done|]. split; [apply elem_of_app; right; by apply list_elem_of_singleton|done].
Qed.

Lemma SendGroupText_settles persona group text clock rnd es s f r : consistent s -> clock_ok clock -> drawn_id rnd ->
  settles s f (SendGroupText persona group text clock rnd es s f r).
Proof.
  intros Hc Hk Hr. unfold SendGroupText. destruct (SignKeypair persona) as [[pub priv]|] eqn:Ek; [|apply settles_same]. apply keypair_signs in Ek.
  destruct (getChat s group) as [ch|]; [|apply settles_same]. cbv zeta. destruct (negb (bool_decide (ch_Kind ch = "group"))); [apply settles_same|].
  destruct (_ && _); [apply settles_same|].
  set (outside := negb _). set (s1 := if outside then _ else s).
  assert (edits s s1) as He.
  { subst s1. destruct outside; [|done]. etrans; [apply ensureContact_edits; [done|apply contact_id_not_blank|done|apply Hk]|].
    apply rtc_once, ed_chat; [done|]. intros x. apply enter_group_ok, contact_id_not_blank. }
  apply (settles_after s s1); [done|]. destruct (all_contacts s1 _); [|apply settles_same]. destruct (EncodeGroupText _ _ _ _ _); [|apply settles_same].
  by apply send_and_record_settles.
Qed.

Lemma InviteToGroup_settles persona group invitee clock rnd es s f r : consistent s -> clock_ok clock -> drawn_id rnd ->
  settles s f (InviteToGroup persona group invitee clock rnd es s f r).
Proof.
  intros Hc Hk Hr. unfold InviteToGroup. destruct (SignKeypair persona) as [[pub priv]|] eqn:Ek; [|apply settles_same]. apply keypair_signs in Ek.
  destruct (getChat s group) as [ch|]; [|apply settles_same]. destruct (getContact s invitee) as [c|] eqn:Ec; [|apply settles_same].
  destruct (negb _); [apply settles_same|]. cbv zeta. set (self := self_id persona). set (s1 := (ensureContact self _ _ s).2).
  assert (edits s s1) as H1 by (apply ensureContact_edits; [done|apply contact_id_not_blank|done|apply Hk]).
  pose proof (edits_consistent _ _ H1 Hc) as Hc1. set (s2 := alter_chat _ _ _).
  assert (edits s1 s2) as H2.
  { subst s2. unfold ensureGroupParticipant. rewrite alter_chat_twice by apply add_participant_spec. apply rtc_once, ed_chat; intros x.
    - unfold own_group. destruct (hasOwnerRole _); apply add_participant_spec.
    - intros Hx. apply own_group_ok; [apply contact_id_not_blank|apply add_participant_spec|by apply add_participant_ok]. }
  apply (settles_after s s2); [by etrans|]. destruct (getChat s2 group) as [g|]; [|apply settles_same]. destruct (negb _); [apply settles_same|].
  destruct (EncodeGroupInvite _ _ _ _ _ _ _); [|apply settles_same]. apply send_and_record_settles; [done|done|]. intros now Hn. cbv beta.
  unfold ensureGroupParticipant. rewrite alter_chat_twice by apply add_participant_spec. apply rtc_once, ed_chat; intros x; [apply add_participant_spec|].
  intros Hx. apply set_role_ok; [exact (known_not_blank _ _ _ Hc Ec)|apply add_participant_spec|done|by apply add_participant_ok].
Qed.

Lemma JoinGroup_settles persona group clock rnd es s f r : clock_ok clock -> drawn_id rnd -> settles s f (JoinGroup persona group clock rnd es s f r).
Proof.
  intros Hk Hr. unfold JoinGroup. destruct (SignKeypair persona) as [[pub priv]|]; [|apply settles_same]. destruct (getChat s group); [|apply settles_same].
  destruct (negb _); [apply settles_same|]. destruct (EncodeGroupJoin _ _ _ _); [|apply settles_same]. by apply send_and_record_settles.
Qed.

Lemma SetGroupRole_settles persona group subject role clock rnd es s f r : consistent s -> clock_ok clock -> drawn_id rnd ->
  settles s f (SetGroupRole persona group subject role clock rnd es s f r).
Proof.
  intros Hc Hk Hr. unfold SetGroupRole. cbv zeta. destruct (negb (one_role _)); [apply settles_same|]. destruct (SignKeypair persona) as [[pub priv]|]; [|apply settles_same].
  destruct (getChat s group); [|apply settles_same]. destruct (getContact s subject) eqn:Ec; [|apply settles_same]. destruct (negb (bool_decide _)); [apply settles_same|].
  destruct (negb _); [apply settles_same|]. destruct (EncodeGroupRole _ _ _ _ _ _); [|apply settles_same]. apply send_and_record_settles; [done|done|]. intros now Hn.
  apply ensureGroupRole_edits; [done|exact (known_not_blank _ _ _ Hc Ec)].
Qed.

Lemma RemoveFromGroup_settles persona group subject clock rnd es s f r : consistent s -> clock_ok clock -> drawn_id rnd ->
  settles s f (RemoveFromGroup persona group subject clock rnd es s f r).
Proof.
  intros Hc Hk Hr. unfold RemoveFromGroup. destruct (SignKeypair persona) as [[pub priv]|]; [|apply settles_same].
  destruct (getChat s group); [|apply settles_same]. destruct (getContact s subject) eqn:Ec; [|apply settles_same]. destruct (negb (bool_decide _)); [apply settles_same|].
  destruct (negb _); [apply settles_same|]. destruct (_ && _); [apply settles_same|]. destruct (EncodeGroupRemove _ _ _ _ _); [|apply settles_same].
  apply send_and_record_settles; [done|done|]. intros now Hn. by apply removeParticipant_edits.
Qed.

Lemma SendPost_settles persona community room text clock rnd es s f r : clock_ok clock -> drawn_id rnd ->
  settles s f (SendCommunityPost persona community room text clock rnd es s f r).
Proof.
  intros Hk Hr. unfold SendCommunityPost. destruct (SignKeypair persona) as [[pub priv]|]; [|apply settles_same]. destruct (getChat s _); [|apply settles_same].
  destruct (negb _); [apply settles_same|]. destruct (all_contacts _ _); [|apply settles_same]. destruct (EncodeCommunityPost _ _ _ _ _ _); [|apply settles_same].
  by apply send_and_record_settles.
Qed.

(** What a payload that decodes is sure to have. *)
Lemma decoded_payload raw p ok : DecodeAndVerify raw = Ok (p, ok) -> 0 < sp_CreatedAt p /\ is_blank (sp_SenderPubB64 p) = false.
Proof.
  unfold DecodeAndVerify. destruct (read_payload raw) as [q|]; [|done]. destruct (sp_V q =? _); [|done]. destruct (negb (is_blank (sp_Kind q))); [|done].
  destruct (Z.leb_spec (sp_CreatedAt q) 0); [done|]. cbn [negb]. destruct (is_blank (sp_SenderPubB64 q)) eqn:Eb; [done|]. cbn [negb].
  destruct (negb _); [|done]. destruct (decode_part (sp_SigB64 q) _ _); [|done]. cbn [rbind]. destruct (decode_part _ _ _); [|done]. cbn [rbind]. intros [= <- _]. split; [lia|done].
Qed.

(** A payload that is taken in: the state that is saved. *)
Lemma ApplyIncoming_taken persona rm env raw p ok b text chat clock rnd s f (r : R) : consistent s -> clock_ok clock -> drawn_id rnd ->
  DecodeAndVerify raw = Ok (p, ok) -> read_incoming persona p = Ok (Some (b, text, chat)) -> existsb (redelivered rm) (cs_Messages s) = false ->
  exists s', ApplyIncoming persona rm env raw clock rnd s f r = saved tt (clock 1%nat) s' f r /\ edits s s' /\ chat ∈ ch_ID <$> cs_Chats s'
    /\ Exists (fun m => redelivered rm m = true) (cs_Messages s').
Proof.
  intros Hc Hk Hr Hd Hi Hn. unfold ApplyIncoming. rewrite Hd, Hi. cbv zeta. rewrite Hn. apply decoded_payload in Hd as [Ht Hb].
  set (id := ContactIDFromSignPub _). set (now := Unix (clock 0%nat)).
  assert (edits s (ensureContact id (sp_SenderPubB64 p) now s).2) as H1 by (apply ensureContact_edits; [done|apply contact_id_not_blank|done|apply Hk]).
  destruct (ensureContact id (sp_SenderPubB64 p) now s) as [alias s1]. cbn [snd] in H1. pose proof (edits_consistent _ _ H1 Hc) as Hc1.
  assert (0 < now) as Hnow by apply Hk.
  destruct (take_effect_made (self_id persona) id alias chat now b s1 Hc1 (contact_id_not_blank _) (contact_id_not_blank _) Hnow) as (s2 & H2 & Hin & H2').
  set (s3 := take_effect _ _ _ _ _ _ s1) in *. set (m := mkMsg _ _ _ _ _ _ _ _ _ _ _ _ _ _). set (s4 := alter_chat _ _ _).
  assert (edits s3 s4) as H3.
  { eapply rtc_l; [apply (ed_message m)|].
    - split; [by apply msg_id_ok|]. split; [done|]. split; [by vm_compute|]. apply known_state. cbn. destruct ok; set_solver.
    - eapply rtc_l; [apply (ed_updated now)|]. apply rtc_once. by apply ed_chat. }
  exists s4. split; [done|]. split; [by repeat (etrans; [eassumption|])|]. split; [apply (edits_keep_chats s2); [by etrans|done]|].
  cbn. apply Exists_app. right. apply Exists_cons. left. unfold redelivered. cbn. by rewrite !bool_decide_eq_true_2.
Qed.

Lemma ApplyIncoming_settles persona rm env raw clock rnd s f r : consistent s -> clock_ok clock -> drawn_id rnd ->
  settles s f (ApplyIncoming persona rm env raw clock rnd s f r).
Proof.
  intros Hc Hk Hr. destruct (DecodeAndVerify raw) as [[p ok]|] eqn:Ed; [|unfold ApplyIncoming; rewrite Ed; apply settles_same].
  destruct (read_incoming persona p) as [[[[b text] chat]|]|] eqn:Ei; [|unfold ApplyIncoming; rewrite Ed, Ei; apply settles_same..].
  destruct (existsb (redelivered rm) (cs_Messages s)) eqn:En; [unfold ApplyIncoming; rewrite Ed, Ei; cbv zeta; rewrite En; apply settles_same|].
  destruct (ApplyIncoming_taken persona rm env raw p ok b text chat clock rnd s f r Hc Hk Hr Ed Ei En) as (s' & -> & He & _). by apply settles_saved.
Qed.

Lemma ApplyWithRelay_settles persona rm env raw clock rnd es s f r : consistent s -> clock_ok clock -> drawn_id rnd ->
  settles s f (ApplyIncomingWithRelay persona rm env raw clock rnd es s f r).
Proof.
  intros Hc Hk Hr. unfold ApplyIncomingWithRelay. pose proof (ApplyIncoming_settles persona rm env raw clock rnd s f r Hc Hk Hr) as H.
  destruct (DecodeAndVerify raw) as [[p ok]|]; [|apply settles_same]. destruct (ApplyIncoming _ _ _ _ _ _ _ _ _) as [[a|e] [[s' f'] r']]; [|done].
  destruct (_ || _); [done|]. destruct (read_join_body _) as [b|]; [|done]. by destruct (is_blank _).
Qed.

End histories.
