(* ===== verification/ChatServiceSpec.v ===== *)
(** * Histories of the chat service

    Over any calls and restarts the state stays consistent and what is stored loads again; what
    makes a save fail, and keeps every later one from succeeding; what is delivered again is
    ignored; what a payload that changes roles does. *)

From S2P Require Import Prelude Sha256 GoStr Persona DeviceLink DeviceLinkSpec RelayTypes Messaging SyncRelay ChatCodec Chat ChatSpec.

#[local] Set Warnings "-clear-no-such-hyp".
#[local] Open Scope string_scope.
#[local] Open Scope list_scope.
#[local] Open Scope Z_scope.

(** ** What can be saved *)

(** What a consistent state needs for a save. *)
Record saveable (s : State) : Prop := {
  sv_contacts : Z.of_nat (length (cs_Contacts s)) <= MaxContacts;
  sv_chats : Z.of_nat (length (cs_Chats s)) <= MaxChats;
  sv_messages : Z.of_nat (length (cs_Messages s)) <= MaxMessages * 2;
  sv_each_chat : Forall (fun ch => ch_ID ch <> "" /\ ch_Participants ch <> []) (cs_Chats s);
  sv_each_message : Forall (fun m => mg_ChatID m <> "") (cs_Messages s);
}.

Lemma require_ok {A} (b : bool) (e : string) (k : res string A) x : (if b then k else Err e) = Ok x <-> b = true /\ k = Ok x.
Proof. destruct b; split; [by intros|by intros [_ ?]|done|by intros [? _]]. Qed.

Lemma validate_contacts_ok l seen : Forall contact_ok l -> NoDup (ct_ID <$> l) -> (forall c, c ∈ l -> ct_ID c ∉ seen) -> validate_contacts l seen = Ok tt.
Proof.
  revert seen. induction l as [|c l IH]; intros seen Hok Hnd Hs; [done|]. apply Forall_cons in Hok as [(C1 & C2 & C3 & C4) Hok].
  cbn [fmap list_fmap] in Hnd. apply NoDup_cons in Hnd as [Hn Hnd]. cbn [validate_contacts].
  rewrite !require_ok, C3, C4, (not_blank_nonempty _ C1). split; [done|]. split; [apply negb_true_iff, bool_decide_eq_false, Hs; by left|].
  split; [apply negb_true_iff; lia|]. split; [done|]. split; [done|]. apply IH; [done|done|]. intros c' Hc' [E%elem_of_singleton|Hin]%elem_of_union.
  - apply Hn. rewrite <- E. by apply list_elem_of_fmap_2.
  - apply (Hs c'); [by right|done].
Qed.

Lemma validate_chats_ok l seen : Forall chat_ok l -> NoDup (ch_ID <$> l) -> (forall ch, ch ∈ l -> ch_ID ch ∉ seen) ->
  validate_chats l seen = Ok tt <-> Forall (fun ch => ch_ID ch <> "" /\ ch_Participants ch <> []) l.
Proof.
  revert seen. induction l as [|ch l IH]; intros seen Hok Hnd Hs; [by split|]. apply Forall_cons in Hok as [(C1 & C2 & C3) Hok].
  cbn [fmap list_fmap] in Hnd. apply NoDup_cons in Hnd as [Hn Hnd]. cbn [validate_chats].
  rewrite !require_ok, C2, C3, Forall_cons, negb_true_iff, is_empty_false, IH; [|done|done|].
  - assert (negb (match ch_Participants ch with [] => true | _ => false end) = true <-> ch_Participants ch <> []) as -> by (destruct (ch_Participants ch); done).
    assert (negb (bool_decide (ch_ID ch ∈ seen)) = true) as -> by (apply negb_true_iff, bool_decide_eq_false, Hs; by left).
    assert (negb (ch_CreatedAt ch <=? 0) = true) as -> by (apply negb_true_iff; lia). tauto.
  - intros ch' Hc' [E%elem_of_singleton|Hin]%elem_of_union.
    + apply Hn. rewrite <- E. by apply list_elem_of_fmap_2.
    + apply (Hs ch'); [by right|done].
Qed.

Lemma validate_messages_ok l : Forall msg_ok l -> validate_messages l = Ok tt <-> Forall (fun m => mg_ChatID m <> "") l.
Proof.
  induction 1 as [|m l (M1 & M2 & M3 & M4) _ IH]; [by split|]. cbn [validate_messages]. rewrite !require_ok, Forall_cons, negb_true_iff, IH, M1, M3.
  rewrite negb_true_iff, is_empty_false, bool_decide_eq_true. assert (negb (mg_CreatedAt m <=? 0) = true) as -> by (apply negb_true_iff; lia). tauto.
Qed.

Lemma rbind_unit {B} (x : res string unit) (k : unit -> res string B) y : rbind x k = Ok y <-> x = Ok tt /\ k tt = Ok y.
Proof. destruct x as [[]|]; cbn; split; [by intros|by intros [_ ?]|done|by intros [? _]]. Qed.

(** A consistent state is valid exactly when it can be saved. *)
Lemma consistent_valid s : consistent s -> State_Validate s = Ok tt <-> saveable s.
Proof.
  intros [H1 H2 H3 H4 H5 H6]. unfold State_Validate. rewrite !require_ok, !rbind_unit, H1. rewrite (validate_contacts_ok _ ∅ H3 H2) by set_solver.
  rewrite (validate_chats_ok _ ∅ H5 H4) by set_solver. rewrite (validate_messages_ok _ H6), !negb_true_iff, !Z.ltb_ge.
  split; [by intros (_ & ? & ? & ? & _ & ? & ?)|intros []; by split_and!].
Qed.

(** A chat without an identifier is refused. *)
Lemma nameless_invalid s : "" ∈ ch_ID <$> cs_Chats s -> exists e, State_Validate s = Err e.
Proof.
  intros Hin. destruct (State_Validate s) as [[]|e] eqn:E; [|by exists e]. exfalso. revert E. unfold State_Validate.
  rewrite !require_ok, !rbind_unit. intros (_ & _ & _ & _ & _ & Hv & _). revert Hv Hin. generalize (∅ : gset string).
  induction (cs_Chats s) as [|ch l IH]; intros seen; [by intros _ ?%elem_of_nil|]. cbn [validate_chats fmap list_fmap]. rewrite !require_ok.
  intros (Hid & _ & _ & _ & _ & _ & Hl) [E|Hin]%elem_of_cons; [by rewrite <- E in Hid|by eapply IH].
Qed.

(** ** Calls *)

(** What a user of the service, or its relay, may ask of it. *)
Inductive call :=
  | Mark (chatID messageID state : string) (clock : nat -> Time)
  | AddOffer (alias : string) (o : ContactOffer) (clock : nat -> Time)
  | Text (persona : Persona) (contact text : string) (clock : nat -> Time) (rnd : list Z) (e : seal_env)
  | NewGroup (title : string) (members : list string) (clock : nat -> Time) (rnd : list Z)
  | NewRoom (title community room : string) (members : list string) (clock : nat -> Time)
  | GroupText (persona : Persona) (group text : string) (clock : nat -> Time) (rnd : list Z) (es : nat -> seal_env)
  | Invite (persona : Persona) (group invitee : string) (clock : nat -> Time) (rnd : list Z) (es : nat -> seal_env)
  | Join (persona : Persona) (group : string) (clock : nat -> Time) (rnd : list Z) (es : nat -> seal_env)
  | Role (persona : Persona) (group subject role : string) (clock : nat -> Time) (rnd : list Z) (es : nat -> seal_env)
  | Remove (persona : Persona) (group subject : string) (clock : nat -> Time) (rnd : list Z) (es : nat -> seal_env)
  | Post (persona : Persona) (community room text : string) (clock : nat -> Time) (rnd : list Z) (es : nat -> seal_env)
  | Incoming (persona : Persona) (rm : RelayTypes.Message) (env : string) (raw : list Z) (clock : nat -> Time) (rnd : list Z) (es : nat -> seal_env).

(** The clock is set, random bytes are bytes, and a new group has an identifier of its own. *)
Definition call_ok (c : call) (s : State) : Prop :=
  match c with
  | Mark _ _ _ clock | NewRoom _ _ _ _ clock | AddOffer _ _ clock => clock_ok clock
  | NewGroup _ _ clock rnd => clock_ok clock /\ getChat s ("g:" ++ EncodeToString rnd)%string = None
  | Text _ _ _ clock rnd _ | GroupText _ _ _ clock rnd _ | Invite _ _ _ clock rnd _ | Join _ _ clock rnd _ | Role _ _ _ _ clock rnd _
  | Remove _ _ _ clock rnd _ | Post _ _ _ _ clock rnd _ | Incoming _ _ _ _ clock rnd _ => clock_ok clock /\ drawn_id rnd
  end.

(** The file gives back what was last written (of strings in UTF-8), and what it had where a write
    fails, if it can still be read. *)
Class ChatFileLaws (F : Type) `{ChatFile F} := {
  file_kept s f ok f' : file_write s f = (ok, f') ->
    if ok then file_read f' = Some (Some s) else file_read f' = None \/ file_read f' = file_read f \/ file_read f' = Some (Some s);
}.

Section histories.
Context {ED : Ed25519} {CJ : ChatJSON} {SS : SortSlice newest} {MC : MsgCrypto} {F R : Type} {CF : ChatFile F} {RO : RelayOps R}.

(** The error of a call, and what it leaves. *)
Definition run (c : call) (w : State * F * R) : option string * (State * F * R) :=
  let '(s, f, r) := w in
  let done {A} (o : res string A * (State * F * R)) := (match o.1 with Ok _ => None | Err e => Some e end, o.2) in
  match c with
  | Mark chat m state clock => done (MarkMessageState chat m state clock s f r)
  | AddOffer alias o clock => done (AddContactFromOffer alias o clock s f r)
  | Text persona contact text clock rnd e => done (SendTextToContact persona contact text clock rnd e s f r)
  | NewGroup title members clock rnd => done (CreateGroup title members clock rnd s f r)
  | NewRoom title community room members clock => done (CreateCommunityRoom title community room members clock s f r)
  | GroupText persona group text clock rnd es => done (SendGroupText persona group text clock rnd es s f r)
  | Invite persona group invitee clock rnd es => done (InviteToGroup persona group invitee clock rnd es s f r)
  | Join persona group clock rnd es => done (JoinGroup persona group clock rnd es s f r)
  | Role persona group subject role clock rnd es => done (SetGroupRole persona group subject role clock rnd es s f r)
  | Remove persona group subject clock rnd es => done (RemoveFromGroup persona group subject clock rnd es s f r)
  | Post persona community room text clock rnd es => done (SendCommunityPost persona community room text clock rnd es s f r)
  | Incoming persona rm env raw clock rnd es => done (ApplyIncomingWithRelay persona rm env raw clock rnd es s f r)
  end.

Inductive called : State * F * R -> State * F * R -> Prop :=
  | called_one c s f r : call_ok c s -> called (s, f, r) (run c (s, f, r)).2.

(** Calls, and new services over the file that was left. *)
Inductive lived : State * F * R -> State * F * R -> Prop :=
  | lived_call w w' : called w w' -> lived w w'
  | lived_restart now s f r s' : NewService now f = Ok s' -> lived (s, f, r) (s', f, r).

(** What every call leaves behind. *)
Definition left_by (s : State) (f : F) (w : State * F * R) : Prop :=
  exists s1, edits s s1 /\ ((w.1.1 = s1 /\ w.1.2 = f) \/ exists t e, Save t s1 f = (e, w.1.1, w.1.2)).

Lemma run_edits c s f r : consistent s -> call_ok c s -> left_by s f (run c (s, f, r)).2.
Proof.
  intros Hc Hok. destruct c; cbn in Hok; try destruct Hok as [Hk Hr]; cbn [run snd].
  - by apply MarkMessageState_settles.
  - by apply AddContact_settles.
  - by apply SendText_settles.
  - by apply CreateGroup_settles.
  - by apply CreateRoom_settles.
  - by apply SendGroupText_settles.
  - by apply InviteToGroup_settles.
  - by apply JoinGroup_settles.
  - by apply SetGroupRole_settles.
  - by apply RemoveFromGroup_settles.
  - by apply SendPost_settles.
  - by apply ApplyWithRelay_settles.
Qed.

Lemma Prune_messages now s : exists ms, cs_Messages (Prune now s) = take (Z.to_nat MaxMessages) ms /\ ms ≡ₚ cs_Messages s.
Proof.
  unfold Prune. cbn. destruct (cs_Messages s) as [|m ms] eqn:E; cbn; rewrite ?E.
  - exists []. split; [by rewrite take_nil|done].
  - exists (sort_slice (m :: ms)). split; [done|apply sort_slice_perm].
Qed.

Lemma Prune_keeps now s : cs_SchemaVersion (Prune now s) = cs_SchemaVersion s /\ cs_Contacts (Prune now s) = cs_Contacts s /\ cs_Chats (Prune now s) = cs_Chats s.
Proof. unfold Prune. cbn. by destruct (cs_Messages s). Qed.

Lemma Prune_Forall (P : Message -> Prop) now s : Forall P (cs_Messages s) -> Forall P (cs_Messages (Prune now s)).
Proof. intros H. destruct (Prune_messages now s) as (ms & -> & Hp). apply Forall_take. by rewrite Hp. Qed.

Lemma Prune_consistent now s : consistent s -> consistent (Prune now s).
Proof. intros [H1 H2 H3 H4 H5 H6]. destruct (Prune_keeps now s) as (E1 & E2 & E3). split; rewrite ?E1, ?E2, ?E3; try done. by apply Prune_Forall. Qed.

Lemma Prune_length now s : Z.of_nat (length (cs_Messages (Prune now s))) = Z.min MaxMessages (Z.of_nat (length (cs_Messages s))).
Proof. destruct (Prune_messages now s) as (ms & -> & Hp). rewrite length_take, Hp. unfold MaxMessages. lia. Qed.

Lemma Prune_saveable now s : saveable s -> saveable (Prune now s).
Proof.
  intros [H1 H2 H3 H4 H5]. destruct (Prune_keeps now s) as (E1 & E2 & E3). split; rewrite ?E2, ?E3; try done.
  - rewrite Prune_length. unfold MaxMessages in *. lia.
  - by apply Prune_Forall.
Qed.

Lemma Save_cases t s f e s' f' : Save t s f = (e, s', f') ->
  s' = Prune t s /\ ((State_Validate s' <> Ok tt /\ f' = f /\ e <> None) \/ (State_Validate s' = Ok tt /\ exists ok, file_write s' f = (ok, f') /\ (e = None <-> ok = true))).
Proof.
  unfold Save. cbv zeta. destruct (State_Validate (Prune t s)) as [[]|x] eqn:Ev.
  - destruct (file_write _ f) as [ok f1] eqn:Ew. intros [= <- <- <-]. split; [done|]. right. split; [done|]. exists ok. split; [done|]. by destruct ok.
  - intros [= <- <- <-]. split; [done|]. left. rewrite Ev. done.
Qed.

(** What is kept, in memory and in the file. *)
Definition kept_well (w : State * F * R) : Prop :=
  consistent w.1.1 /\ (forall st, file_read w.1.2 = Some (Some st) -> consistent st /\ saveable st).

Lemma called_kept_well `{!ChatFileLaws F} w w' : called w w' -> kept_well w -> kept_well w'.
Proof.
  intros [c s f r Hok] [Hc Hf]. destruct (run_edits c s f r Hc Hok) as (s1 & He & Hw). destruct (run c (s, f, r)).2 as [[s' f'] r'].
  apply edits_consistent in He; [|done]. cbn in *. destruct Hw as [[-> ->]|(t & e & Hs)]; [done|]. apply Save_cases in Hs as [-> Hs].
  assert (consistent (Prune t s1)) as Hp by by apply Prune_consistent. split; [done|]. cbn. intros st Hst.
  destruct Hs as [(_ & -> & _)|(Hv & ok & Hw & _)]; [by apply Hf|]. rewrite consistent_valid in Hv by done. apply file_kept in Hw. destruct ok.
  - rewrite Hst in Hw. by injection Hw as ->.
  - destruct Hw as [Hw|[Hw|Hw]]; rewrite Hst in Hw; [done|by apply Hf|by injection Hw as ->].
Qed.

Lemma Load_saveable now f st : file_read f = Some (Some st) -> consistent st -> saveable st -> Load now f = Ok (Prune now st).
Proof.
  intros Hf Hc Hs. unfold Load. rewrite Hf. apply rbind_unit. split; [|done]. apply consistent_valid; [by apply Prune_consistent|by apply Prune_saveable].
Qed.

Lemma new_state_consistent now : consistent (NewState now).
Proof. split; [done|apply NoDup_nil_2|constructor|apply NoDup_nil_2|constructor|constructor]. Qed.

Lemma lived_kept_well `{!ChatFileLaws F} w w' : lived w w' -> kept_well w -> kept_well w'.
Proof.
  intros [w1 w2 Hw|now s f r s' Hl]; [by apply called_kept_well|]. intros [Hc Hf]. split; [|done]. cbn in *. unfold NewService in Hl.
  destruct (file_read f) as [[st|]|] eqn:Ef.
  - destruct (Hf st eq_refl) as [Hst Hsv]. rewrite (Load_saveable now f st Ef Hst Hsv) in Hl. injection Hl as <-. by apply Prune_consistent.
  - unfold Load in Hl. rewrite Ef in Hl. injection Hl as <-. apply new_state_consistent.
  - unfold Load in Hl. by rewrite Ef in Hl.
Qed.

Lemma histories_kept_well `{!ChatFileLaws F} t f0 r0 w : file_read f0 = Some None -> rtc lived (NewState t, f0, r0) w -> kept_well w.
Proof.
  intros Hf Hw. assert (kept_well (NewState t, f0, r0)) as H0 by (split; [apply new_state_consistent|]; cbn; rewrite Hf; by intros).
  induction Hw; [done|]. eauto using lived_kept_well.
Qed.

(** C28: Over any calls and restarts from an empty file the state has distinct well-formed
    contacts and chats, each role of a group belongs to a participant of it, and messages are
    well-formed: so the state is valid exactly when it is within the limits, no chat lacks its
    identifier or its participants, and no message the identifier of its chat; and whatever the
    file holds is loaded again. *)
Theorem chat_state_stays_valid `{!ChatFileLaws F} t f0 r0 s f r : file_read f0 = Some None -> rtc lived (NewState t, f0, r0) (s, f, r) ->
  consistent s /\ (State_Validate s = Ok tt <-> saveable s) /\ (file_read f <> None -> forall now, exists s', NewService now f = Ok s' /\ State_Validate s' = Ok tt).
Proof.
  intros Hf [Hc Hst]%(histories_kept_well _ _ _ _ Hf). split; [done|]. split; [by apply consistent_valid|]. intros Hr now. cbn in Hst. unfold NewService.
  destruct (file_read f) as [[st|]|] eqn:Ef; [| |done].
  - destruct (Hst st eq_refl) as [H1 H2]. exists (Prune now st). split; [by apply Load_saveable|].
    apply consistent_valid; [by apply Prune_consistent|by apply Prune_saveable].
  - exists (NewState now). unfold Load. rewrite Ef. split; [done|reflexivity].
Qed.

(** ** A chat without an identifier *)

Lemma nameless_save t s f : "" ∈ ch_ID <$> cs_Chats s -> exists e, Save t s f = (Some e, Prune t s, f).
Proof.
  intros Hin. unfold Save. cbv zeta. destruct (nameless_invalid (Prune t s)) as [e ->]; [|by exists e].
  destruct (Prune_keeps t s) as (_ & _ & ->). done.
Qed.

Lemma Prune_chat_ids t s : ch_ID <$> cs_Chats (Prune t s) = ch_ID <$> cs_Chats s.
Proof. by destruct (Prune_keeps t s) as (_ & _ & ->). Qed.

Lemma called_nameless w w' : called w w' -> consistent w.1.1 -> "" ∈ ch_ID <$> cs_Chats w.1.1 ->
  consistent w'.1.1 /\ "" ∈ ch_ID <$> cs_Chats w'.1.1 /\ w'.1.2 = w.1.2.
Proof.
  intros [c s f r Hok] Hc Hin. destruct (run_edits c s f r Hc Hok) as (s1 & He & Hw). destruct (run c (s, f, r)).2 as [[s' f'] r']. cbn in *.
  pose proof (edits_keep_chats _ _ _ He Hin) as Hin1. apply edits_consistent in He; [|done].
  destruct Hw as [[-> ->]|(t & e & Hs)]; [done|]. destruct (nameless_save t s1 f Hin1) as [e' E]. rewrite E in Hs. injection Hs as _ <- <-.
  split_and!; [by apply Prune_consistent|by rewrite Prune_chat_ids|done].
Qed.

(** C20: A payload about a group without an identifier, which anyone may send and which needs no
    signature that verifies, is refused only when the state is saved, with a conversation without
    an identifier left in it: from then on, whatever is called, nothing is saved again. *)
Theorem nameless_group_stops_saving `{!ChatFileLaws F} t f0 r0 s f r persona rm env raw p ok b text clock rnd es : file_read f0 = Some None ->
  rtc lived (NewState t, f0, r0) (s, f, r) -> clock_ok clock -> drawn_id rnd ->
  DecodeAndVerify raw = Ok (p, ok) -> read_incoming persona p = Ok (Some (b, text, "")) -> existsb (redelivered rm) (cs_Messages s) = false ->
  exists e w, run (Incoming persona rm env raw clock rnd es) (s, f, r) = (Some e, w) /\ forall w', rtc called w w' -> w'.1.2 = f.
Proof.
  intros Hf [Hc _]%(histories_kept_well _ _ _ _ Hf) Hk Hr Hd Hi Hn. cbn [fst] in Hc. cbn [run]. unfold ApplyIncomingWithRelay. rewrite Hd.
  destruct (ApplyIncoming_taken persona rm env raw p ok b text "" clock rnd s f r Hc Hk Hr Hd Hi Hn) as (s3 & -> & H3 & Hin3 & _).
  apply edits_consistent in H3; [|done].
  unfold saved. destruct (nameless_save (clock 1%nat) s3 f Hin3) as [e ->]. exists e, (Prune (clock 1%nat) s3, f, r). split; [done|].
  assert (forall w1 w2, rtc called w1 w2 -> consistent w1.1.1 -> "" ∈ ch_ID <$> cs_Chats w1.1.1 -> w2.1.2 = w1.1.2) as Hall.
  { induction 1 as [|w1 w2 w3 Hw _ IH]; [done|]. intros C N. destruct (called_nameless _ _ Hw C N) as (C' & N' & E). by rewrite IH. }
  intros w' Hw. apply Hall in Hw; [done|by apply Prune_consistent|cbn; by rewrite Prune_chat_ids].
Qed.

(** ** Delivered again *)

(** The message of the relay was taken in. *)
Definition taken_in (rm : RelayTypes.Message) (s : State) : Prop := Exists (fun m => redelivered rm m = true) (cs_Messages s).

Lemma taken_in_existsb rm s : taken_in rm s -> existsb (redelivered rm) (cs_Messages s) = true.
Proof. unfold taken_in. induction 1 as [m l Hm|m l _ IH]; cbn; [by rewrite Hm|by rewrite IH, orb_true_r]. Qed.

Lemma edits_messages rm s s' : edits s s' -> (length (cs_Messages s) <= length (cs_Messages s'))%nat /\ (taken_in rm s -> taken_in rm s').
Proof.
  induction 1 as [|s s1 s2 He _ [IH1 IH2]]; [done|].
  assert ((length (cs_Messages s) <= length (cs_Messages s1))%nat /\ (taken_in rm s -> taken_in rm s1)) as [H1 H2].
  { unfold taken_in. destruct He as [| | | | |m s H|P state s H]; cbn; try done.
    - rewrite length_app. split; [lia|]. intros Hm. apply Exists_app. by left.
    - generalize (cs_Messages s). intros l. split.
      + induction l as [|m l IH]; [done|]. cbn. destruct (P m); cbn; lia.
      + induction l as [|m l IH]; [done|]. cbn. intros [Hm|Hl]%Exists_cons; destruct (P m); apply Exists_cons; [by left|by left|by right|right; by apply IH]. }
  split; [lia|auto].
Qed.

(** A call keeps what was taken in, unless messages are given up. *)
Lemma called_taken_in rm w w' : called w w' -> consistent w.1.1 -> Z.of_nat (length (cs_Messages w'.1.1)) < MaxMessages ->
  consistent w'.1.1 /\ Z.of_nat (length (cs_Messages w.1.1)) < MaxMessages /\ (taken_in rm w.1.1 -> taken_in rm w'.1.1).
Proof.
  intros [c s f r Hok] Hc. destruct (run_edits c s f r Hc Hok) as (s1 & He & Hw). destruct (run c (s, f, r)).2 as [[s' f'] r']. cbn in *.
  destruct (edits_messages rm _ _ He) as [Hl Ht]. apply edits_consistent in He; [|done]. destruct Hw as [[-> ->]|(t & e & Hs)]; [intros; split_and!; [done|lia|done]|].
  apply Save_cases in Hs as [-> _]. rewrite Prune_length. intros Hm. split; [by apply Prune_consistent|]. split; [unfold MaxMessages in *; lia|].
  intros Hin%Ht. unfold taken_in. destruct (Prune_messages t s1) as (ms & -> & Hp). rewrite take_ge by (rewrite Hp; unfold MaxMessages in *; lia). by rewrite Hp.
Qed.

Lemma calls_taken_in rm w w' : rtc called w w' -> consistent w.1.1 -> Z.of_nat (length (cs_Messages w'.1.1)) < MaxMessages ->
  Z.of_nat (length (cs_Messages w.1.1)) < MaxMessages /\ (taken_in rm w.1.1 -> taken_in rm w'.1.1).
Proof.
  intros Hw. induction Hw as [|w1 w2 w3 Hs _ IH]; [done|]. intros Hc Hm.
  assert (consistent w2.1.1) as Hc2. { destruct Hs as [c s f r Hok]. destruct (run_edits c s f r Hc Hok) as (s1 & He & Hl). apply edits_consistent in He; [|done].
    destruct Hl as [[-> _]|(t & e & Hsv)]; [done|]. apply Save_cases in Hsv as [-> _]. by apply Prune_consistent. }
  destruct (IH Hc2 Hm) as [H2 H3]. destruct (called_taken_in rm _ _ Hs Hc H2) as (_ & H4 & H5). auto.
Qed.

(** C24: A message of the relay that was taken in, if only to be kept as one whose signature does
    not verify, and that is delivered again after any calls is accepted and changes neither the
    state nor the file, as long as fewer than 200000 messages are kept; nor does it send anything,
    unless it is a joining whose signature verifies, of which the others are told again. *)
Theorem redelivery_is_ignored `{!ChatFileLaws F} t f0 r0 w persona rm env raw p ok b text chat clock rnd es w2 env' clock' rnd' es' :
  file_read f0 = Some None -> rtc lived (NewState t, f0, r0) w -> clock_ok clock -> drawn_id rnd ->
  DecodeAndVerify raw = Ok (p, ok) -> read_incoming persona p = Ok (Some (b, text, chat)) ->
  rtc called (run (Incoming persona rm env raw clock rnd es) w).2 w2 -> Z.of_nat (length (cs_Messages w2.1.1)) < MaxMessages ->
  exists r', ApplyIncomingWithRelay persona rm env' raw clock' rnd' es' w2.1.1 w2.1.2 w2.2 = (Ok tt, (w2.1, r'))
    /\ (r' = w2.2 \/ (ok = true /\ sp_Kind p = KindGroupJoin)).
Proof.
  intros Hf [Hc _]%(histories_kept_well _ _ _ _ Hf) Hk Hr Hd Hi Hw2 Hm. destruct w as [[s f] r]. cbn [fst] in Hc.
  assert (called (s, f, r) (run (Incoming persona rm env raw clock rnd es) (s, f, r)).2) as Hcall by by constructor.
  set (w1 := (run _ (s, f, r)).2) in *. pose proof (rtc_l _ _ _ _ Hcall Hw2) as Hall.
  assert (taken_in rm w2.1.1) as Hin.
  { destruct (existsb (redelivered rm) (cs_Messages s)) eqn:En.
    - apply (calls_taken_in rm _ _ Hall Hc Hm). cbn. apply existsb_exists in En as (m & Hm1 & Hm2). apply Exists_exists. exists m. split; [by apply list_elem_of_In|done].
    - destruct (ApplyIncoming_taken persona rm env raw p ok b text chat clock rnd s f r Hc Hk Hr Hd Hi En) as (s3 & E & H3 & _ & Hin3).
      pose proof (edits_consistent _ _ H3 Hc) as Hc3.
      assert (w1.1.1 = Prune (clock 1%nat) s3) as E1.
      { unfold w1. cbn [run]. unfold ApplyIncomingWithRelay. rewrite Hd, E. unfold saved. destruct (Save (clock 1%nat) s3 f) as [[e s4] f4] eqn:Es. apply Save_cases in Es as [-> _].
        destruct e; [done|]. destruct (_ || _); [done|]. destruct (read_join_body _); [|done]. by destruct (is_blank _). }
      assert (consistent w1.1.1) as Hc1 by (rewrite E1; by apply Prune_consistent).
      destruct (calls_taken_in rm _ _ Hw2 Hc1 Hm) as [Hl H]. apply H. rewrite E1 in Hl |- *. rewrite Prune_length in Hl. unfold taken_in.
      destruct (Prune_messages (clock 1%nat) s3) as (ms & -> & Hp). rewrite take_ge by (rewrite Hp; unfold MaxMessages in *; lia). by rewrite Hp. }
  assert (ApplyIncoming persona rm env' raw clock' rnd' w2.1.1 w2.1.2 w2.2 = (Ok tt, w2)) as E.
  { unfold ApplyIncoming. rewrite Hd, Hi. cbv zeta. rewrite (taken_in_existsb _ _ Hin). by destruct w2 as [[? ?] ?]. }
  unfold ApplyIncomingWithRelay. rewrite Hd, E. destruct w2 as [[s2 f2] r2]. cbn [fst snd]. destruct ok; cbn [negb orb]; [|exists r2; split; [done|by left]].
  case_bool_decide as Hk'; cbn [negb]; [|exists r2; split; [done|by left]].
  destruct (read_join_body _) as [jb|]; [destruct (is_blank _)|]; eexists; (split; [reflexivity|by auto]).
Qed.

(** ** What a payload does to roles *)

(** Kind and roles of a conversation. *)
Definition view (g : string) (s : State) : option (string * gmap string string) := (fun ch => (ch_Kind ch, ch_Roles ch)) <$> getChat s g.

(** Only a conversation is changed. *)
Definition touches (id : string) (s s' : State) : Prop := forall g, g <> id -> getChat s' g = getChat s g.

Lemma touches_trans id s1 s2 s3 : touches id s1 s2 -> touches id s2 s3 -> touches id s1 s3.
Proof. intros H1 H2 g Hg. by rewrite H2, H1. Qed.

Lemma touches_alter id P f s : (forall ch, P ch = true -> ch_ID ch = id) -> (forall ch, ch_ID (f ch) = ch_ID ch) -> touches id s (alter_chat P f s).
Proof.
  intros HP Hf g Hg. unfold getChat, alter_chat. cbn. induction (cs_Chats s) as [|ch l IH]; [done|]. cbn [alter_first]. destruct (P ch) eqn:E; cbn [find].
  - unfold is_chat. rewrite Hf. rewrite (HP ch E). by rewrite bool_decide_eq_false_2 by congruence.
  - by rewrite IH.
Qed.

Lemma is_chat_id id ch : is_chat id ch = true -> ch_ID ch = id.
Proof. apply bool_decide_eq_true. Qed.
Lemma is_group_id id ch : is_group id ch = true -> ch_ID ch = id.
Proof. intros [H _]%andb_true_iff. by apply is_chat_id. Qed.

(** A change that keeps kind and roles. *)
Lemma view_alter id g P f s : (forall ch, ch_ID (f ch) = ch_ID ch) -> (forall ch, P ch = true -> ch_Kind (f ch) = ch_Kind ch /\ ch_Roles (f ch) = ch_Roles ch) ->
  (forall ch, P ch = true -> ch_ID ch = id) -> view g (alter_chat P f s) = view g s.
Proof.
  intros Hf Hv HP. unfold view, getChat, alter_chat. cbn. induction (cs_Chats s) as [|ch l IH]; [done|]. cbn [alter_first]. destruct (P ch) eqn:E; cbn [find].
  - unfold is_chat. rewrite Hf. destruct (bool_decide (ch_ID ch = g)); [|done]. destruct (Hv ch E) as [E1 E2]. cbn. by rewrite E1, E2.
  - by destruct (is_chat g ch).
Qed.

Lemma view_participant g m s : view g (ensureGroupParticipant g m s) = view g s.
Proof. apply (view_alter g); [intros ch; apply add_participant_spec|intros ch _; split; apply add_participant_spec|apply is_chat_id]. Qed.

Lemma touches_participant g m s : touches g s (ensureGroupParticipant g m s).
Proof. apply touches_alter; [apply is_chat_id|intros ch; apply add_participant_spec]. Qed.

(** The roles of a group are changed. *)
Lemma view_group g f h s rs : (forall ch, ch_ID (f ch) = ch_ID ch) -> (forall ch, ch_Kind (f ch) = ch_Kind ch) -> (forall ch, ch_Roles (f ch) = h (ch_Roles ch)) ->
  view g s = Some ("group", rs) -> NoDup (ch_ID <$> cs_Chats s) -> view g (alter_chat (is_group g) f s) = Some ("group", h rs).
Proof.
  intros Hi Hk Hr Hv Hnd. unfold alter_chat, is_group, is_chat. rewrite (alter_first_and ch_ID g) by done.
  unfold view, getChat in *. cbn. rewrite (find_alter (is_chat g)).
  - destruct (find (is_chat g) (cs_Chats s)) as [ch|]; [|done]. injection Hv as Hkd <-. cbn. rewrite bool_decide_eq_true_2 by done. by rewrite Hk, Hr, Hkd.
  - intros x. unfold is_chat. case_bool_decide; [|done]. intros _. destruct (bool_decide (ch_Kind x = "group")); rewrite ?Hi; by apply bool_decide_eq_true.
Qed.

Lemma view_find g s rs : view g s = Some ("group", rs) -> NoDup (ch_ID <$> cs_Chats s) -> exists ch, find (is_group g) (cs_Chats s) = Some ch /\ ch_Roles ch = rs.
Proof.
  intros Hv Hnd. unfold is_group, is_chat. rewrite (find_and ch_ID g) by done. unfold view, getChat in Hv. change (fun x => bool_decide (ch_ID x = g)) with (is_chat g).
  destruct (find (is_chat g) (cs_Chats s)) as [ch|]; [|done]. injection Hv as Hkd <-. exists ch. by rewrite bool_decide_eq_true_2.
Qed.

Lemma touches_role g m role s : touches g s (ensureGroupRole g m role s).
Proof. unfold ensureGroupRole. destruct (one_role _); [|by intros ?]. apply touches_alter; [apply is_group_id|done]. Qed.

Lemma view_role g m role s rs : consistent s -> view g s = Some ("group", rs) ->
  view g (ensureGroupRole g m role s) = Some ("group", if one_role (TrimSpace role) then <[m := TrimSpace role]> rs else rs).
Proof.
  intros Hc Hv. unfold ensureGroupRole. destruct (one_role _); [|done]. by apply (view_group g _ (fun rs => <[m := TrimSpace role]> rs)); [| | | |apply Hc].
Qed.

Lemma ensureContact_chats id pub now s : cs_Chats (ensureContact id pub now s).2 = cs_Chats s.
Proof. unfold ensureContact. destruct (getContact s id) as [c|]; [|done]. by destruct (negb _). Qed.

Lemma fromInvite_chats id m now s : cs_Chats (ensureContactFromInvite id m now s) = cs_Chats s.
Proof. unfold ensureContactFromInvite. by destruct (hasContact s id). Qed.

Lemma ensureChat_touches kind id c title now s : touches id s (ensureChat kind id c title now s).
Proof.
  unfold ensureChat. destruct (getChat s id) as [ch|]; [apply touches_alter; [apply is_chat_id|intros x; apply joined_id]|].
  intros g Hg. unfold getChat. cbn. induction (cs_Chats s) as [|x l IH]; cbn; [|by destruct (is_chat g x)]. unfold is_chat. cbn. by rewrite bool_decide_eq_false_2 by congruence.
Qed.

Lemma ensureChat_view kind id c title now s v : consistent s -> view id s = Some v -> view id (ensureChat kind id c title now s) = Some v.
Proof.
  intros Hc Hv. unfold ensureChat. unfold view in Hv. destruct (getChat s id) as [ch|] eqn:E; [|done]. unfold view, getChat, alter_chat. cbn.
  rewrite find_alter by (intros x; unfold is_chat; by rewrite joined_id). change (find (is_chat id) (cs_Chats s)) with (getChat s id). rewrite E. cbn.
  rewrite <- Hv. cbn. assert (chat_ok ch) as Hok. { pose proof (con_chats _ Hc) as H. rewrite Forall_forall in H. apply H. apply List.find_some in E as [E _]. by apply list_elem_of_In. }
  destruct (joined_spec kind c title ch Hok) as (_ & -> & -> & _). done.
Qed.

Lemma take_members_view id ms now s : view id (take_members id ms now s) = view id s /\ touches id s (take_members id ms now s).
Proof.
  unfold take_members. revert s. induction ms as [|m ms IH]; intros s; cbn [fold_left]; [done|]. destruct (is_blank (gm_SignPubB64 m)); [apply IH|].
  set (mid := ContactIDFromSignPub _). set (s1 := ensureContactFromInvite mid m now s).
  assert (forall g, getChat s1 g = getChat s g) as E by (intros g; unfold getChat, s1; by rewrite fromInvite_chats).
  destruct (IH (ensureGroupParticipant id mid s1)) as [-> H]. split; [rewrite view_participant; unfold view; by rewrite E|].
  intros g Hg. rewrite H, touches_participant by done. apply E.
Qed.

(** The roles of a group after a payload, by who is said to have sent it. *)
Definition roles_after (self sender : string) (b : incoming) (rs : gmap string string) : gmap string string :=
  match b with
  | InInvite _ => invited_roles sender self rs
  | InJoin => <[sender := "member"]> rs
  | InRole b =>
      if String.eqb (role_of rs sender) "owner" && one_role (TrimSpace (rb_GrantedRole b)) then <[ContactIDFromSignPub (rb_SubjectPub b) := TrimSpace (rb_GrantedRole b)]> rs
      else rs
  | InRemove b => if canInvite rs sender then delete (ContactIDFromSignPub (rm_SubjectPub b)) rs else rs
  | InText | InGroup | InPost => rs
  end.

Lemma invite_effect_view g contact self title ms now s rs : consistent s -> 0 < now -> view g s = Some ("group", rs) ->
  let s1 := if is_blank title then s else named_title g (TrimSpace title) s in
  let s2 := ensureGroupInviteRoles g contact self (ensureGroupParticipant g contact (ensureGroupParticipant g self (take_members g ms now s1))) in
  view g s2 = Some ("group", invited_roles contact self rs) /\ touches g s s2.
Proof.
  intros Hc Hn Hv s1 s2. set (P := fun ch => is_chat g ch && (is_blank (ch_Title ch) || HasPrefix (ch_Title ch) "group-")).
  assert (forall ch, P ch = true -> ch_ID ch = g) as HP by (intros ch [E _]%andb_true_iff; by apply is_chat_id).
  assert (edits s s1) as He by (unfold s1; destruct (is_blank title); [done|by apply named_title_edits]).
  assert (view g s1 = Some ("group", rs)) as Hv1 by (unfold s1; destruct (is_blank title); [done|]; rewrite <- Hv; by apply (view_alter g)).
  assert (touches g s s1) as Ht1 by (unfold s1; destruct (is_blank title); [by intros ?|]; by apply touches_alter).
  pose proof (edits_consistent _ _ He Hc) as Hc1. destruct (take_members_view g ms now s1) as [Hv2 Ht2].
  pose proof (edits_consistent _ _ (take_members_edits g ms now s1 Hc1 Hn) Hc1) as Hc2. set (s3 := take_members g ms now s1) in *.
  assert (consistent (ensureGroupParticipant g contact (ensureGroupParticipant g self s3))) as Hc3.
  { eapply edits_consistent; [|exact Hc2]. etrans; apply ensureParticipant_edits. }
  split.
  - unfold s2, ensureGroupInviteRoles. apply (view_group g _ (invited_roles contact self)); [done|done|done| |apply Hc3]. by rewrite !view_participant, Hv2.
  - apply (touches_trans g s s1); [done|]. apply (touches_trans g s1 s3); [done|]. eapply touches_trans; [apply touches_participant|].
    eapply touches_trans; [apply touches_participant|]. apply touches_alter; [apply is_group_id|done].
Qed.

Lemma take_effect_roles self contact alias g now b s rs : consistent s -> is_blank self = false -> is_blank contact = false -> 0 < now ->
  view g s = Some ("group", rs) -> let s' := take_effect self contact alias g now b s in
  view g s' = Some ("group", roles_after self contact b rs) /\ touches g s s'.
Proof.
  intros Hc Hs Hb Hn Hv s'. set (s1 := ensureGroupChat g contact alias now s) in *.
  assert (view g s1 = Some ("group", rs)) as Hv1 by by apply ensureChat_view.
  assert (touches g s s1) as Ht1 by apply ensureChat_touches.
  assert (consistent s1) as Hc1 by (eapply edits_consistent; [by apply ensureChat_edits|done]).
  destruct (view_find g s1 rs Hv1 (con_chat_ids _ Hc1)) as (ch & Ef & Er).
  assert (forall m, consistent (ensureGroupParticipant g m s1)) as Hcp by (intros m; by eapply edits_consistent; [apply ensureParticipant_edits|]).
  subst s'. destruct b as [| |b| |b|b|]; cbn [take_effect roles_after].
  - unfold ensureDirectChat. unfold view in Hv |- *. destruct (getChat s g) as [x|] eqn:E; [|done]. split.
    + rewrite <- Hv. change (view g (alter_chat (is_chat g) (fun ch => if is_empty (ch_Title ch) then with_title (ch_Kind ch) alias ch else ch) s) = (fun ch => (ch_Kind ch, ch_Roles ch)) <$> Some x).
      rewrite <- E. apply (view_alter g); [intros y; by destruct (is_empty (ch_Title y))|intros y _; by destruct (is_empty (ch_Title y))|apply is_chat_id].
    + apply touches_alter; [apply is_chat_id|intros y; by destruct (is_empty (ch_Title y))].
  - done.
  - destruct (invite_effect_view g contact self (ib_GroupTitle b) (ib_Members b) now s1 rs Hc1 Hn Hv1) as [H1 H2]. split; [exact H1|by eapply touches_trans].
  - split; [by rewrite (view_role _ _ _ _ rs) by (try done; by rewrite view_participant)|].
    eapply touches_trans; [exact Ht1|]. eapply touches_trans; [apply touches_participant|apply touches_role].
  - unfold canManageRoles. fold s1. rewrite Ef, Er. destruct (String.eqb _ "owner"); [|done]. cbn [andb]. split.
    + rewrite (view_role _ _ _ _ rs) by (try done; by rewrite view_participant). by rewrite TrimSpace_idemp.
    + eapply touches_trans; [exact Ht1|]. eapply touches_trans; [apply touches_participant|apply touches_role].
  - unfold canManageMembership. fold s1. rewrite Ef, Er. destruct (canInvite rs contact); [|done]. split.
    + unfold removeGroupParticipant. by apply (view_group g _ (delete (ContactIDFromSignPub (rm_SubjectPub b)))); [| | | |apply Hc1].
    + eapply touches_trans; [exact Ht1|]. apply touches_alter; [apply is_group_id|done].
  - split; [by apply ensureChat_view|apply ensureChat_touches].
Qed.

(** C11: What a payload about a group does to its roles follows from the roles and from who is
    said to have sent it, whether or not its signature verifies: who is no owner grants no role,
    who is neither owner nor moderator removes nobody, and an owner who joins is an owner no
    more.  Other conversations are left as they are. *)
Theorem payload_changes_roles `{!ChatFileLaws F} t f0 r0 s f r persona rm env raw p ok b text g clock rnd rs :
  file_read f0 = Some None -> rtc lived (NewState t, f0, r0) (s, f, r) -> clock_ok clock ->
  DecodeAndVerify raw = Ok (p, ok) -> read_incoming persona p = Ok (Some (b, text, g)) -> existsb (redelivered rm) (cs_Messages s) = false ->
  view g s = Some ("group", rs) ->
  let s' := (ApplyIncoming persona rm env raw clock rnd s f r).2.1.1 in
  view g s' = Some ("group", roles_after (self_id persona) (ContactIDFromSignPub (sp_SenderPubB64 p)) b rs) /\ forall g', g' <> g -> getChat s' g' = getChat s g'.
Proof.
  intros Hf [Hc _]%(histories_kept_well _ _ _ _ Hf) Hk Hd Hi Hn Hv. cbn [fst] in Hc. unfold ApplyIncoming. rewrite Hd, Hi. cbv zeta. rewrite Hn.
  apply decoded_payload in Hd as [_ Hb]. set (id := ContactIDFromSignPub _). set (now := Unix (clock 0%nat)).
  assert (edits s (ensureContact id (sp_SenderPubB64 p) now s).2) as H1 by (apply ensureContact_edits; [done|apply contact_id_not_blank|done|apply Hk]).
  pose proof (ensureContact_chats id (sp_SenderPubB64 p) now s) as E1.
  destruct (ensureContact id (sp_SenderPubB64 p) now s) as [alias s1]. cbn [snd] in H1, E1. pose proof (edits_consistent _ _ H1 Hc) as Hc1.
  assert (forall g', getChat s1 g' = getChat s g') as E by (intros g'; unfold getChat; by rewrite E1).
  assert (view g s1 = Some ("group", rs)) as Hv1 by (unfold view; by rewrite E). assert (0 < now) as Hnow by apply Hk.
  destruct (take_effect_roles (self_id persona) id alias g now b s1 rs Hc1 (contact_id_not_blank _) (contact_id_not_blank _) Hnow Hv1) as [Hv2 Ht2].
  set (s2 := take_effect _ _ _ _ _ _ s1) in *. set (s3 := set_updated now _). set (fl := fun ch => _).
  assert (touches g s3 (alter_chat (is_chat g) fl s3)) as Ht4 by (by apply touches_alter; [apply is_chat_id|]).
  assert (view g (alter_chat (is_chat g) fl s3) = view g s3) as Hv4 by (apply (view_alter g); [done|done|apply is_chat_id]).
  unfold saved. destruct (Save (clock 1%nat) _ f) as [[e s4] f4] eqn:Es. apply Save_cases in Es as [-> _]. cbn [fst snd].
  assert (forall x g', getChat (Prune (clock 1%nat) x) g' = getChat x g') as Ep.
  { intros x g'. unfold getChat. by destruct (Prune_keeps (clock 1%nat) x) as (_ & _ & ->). }
  split; [unfold view; rewrite Ep; fold (view g (alter_chat (is_chat g) fl s3)); by rewrite Hv4|].
  intros g' Hg. rewrite Ep, Ht4 by done. change (getChat s3 g') with (getChat s2 g'). by rewrite Ht2, E.
Qed.

End histories.
