(* ===== verification/ChatDelivery.v ===== *)
(** * A text on its way

    What one user's service sends to another arrives: the payload that is read back verifies, the
    envelope opens with the prekey, and the receiver keeps the text, valid, in the conversation
    the sender keeps it in. *)

From S2P Require Import Prelude Sha256 GoStr Persona DeviceLink DeviceLinkSpec CommunitySpec RelayTypes Messaging SyncRelay ChatCodec Chat ChatSpec ChatServiceSpec.

#[local] Set Warnings "-clear-no-such-hyp".
#[local] Open Scope string_scope.
#[local] Open Scope list_scope.
#[local] Open Scope Z_scope.

(** ** Compaction *)

Lemma compact_unquoted e l : compact_from false e l = compact_from false false l.
Proof. by destruct l. Qed.

(** A character that is not one of those that are escaped comes from itself. *)
Lemma compact_head l x r : compact_from true false l = x :: r -> 128 <= x -> exists l', l = x :: l' /\ r = compact_from true false l'.
Proof.
  destruct l as [|c l]; [done|]. cbn [compact_from negb].
  repeat (match goal with |- context [if ?b then _ else _] => destruct b eqn:? end); try (intros [= <- <-] Hx; lia).
  all: try (cbn [escape_ascii escape_line app]; intros [= <- _] Hx; lia).
  - destruct l as [|c1 [|c2 l2]]; [intros [= <- <-] _; by eexists..|].
    destruct ((c =? 226) && (c1 =? 128) && ((c2 =? 168) || (c2 =? 169))); [cbn [escape_line app]; intros [= <- _] Hx; lia|].
    intros [= <- <-] _. by eexists.
Qed.

(** What is plain in a string stays. *)
Lemma compact_plain c l : c <> 92 -> c <> 34 -> c <> 60 -> c <> 62 -> c <> 38 -> (forall c2 l2, c = 226 -> l = 128 :: c2 :: l2 -> c2 <> 168 /\ c2 <> 169) ->
  compact_from true false (c :: l) = c :: compact_from true false l.
Proof.
  intros H1 H2 H3 H4 H5 H6. cbn [compact_from negb]. rewrite (proj2 (Z.eqb_neq c 92)), (proj2 (Z.eqb_neq c 34)), (proj2 (Z.eqb_neq c 60)), (proj2 (Z.eqb_neq c 62)), (proj2 (Z.eqb_neq c 38)) by done.
  cbn [orb]. destruct l as [|c1 [|c2 l2]]; [done..|]. destruct (Z.eqb_spec c 226) as [->|]; [|done]. destruct (Z.eqb_spec c1 128) as [->|]; [|done]. cbn [andb].
  destruct (H6 c2 l2 eq_refl eq_refl) as [N1 N2]. by rewrite (proj2 (Z.eqb_neq c2 168)), (proj2 (Z.eqb_neq c2 169)).
Qed.

(** An escape of four hexadecimal digits stays. *)
Lemma compact_escape ds l : Forall (fun c => 48 <= c <= 57 \/ 97 <= c <= 102) ds -> compact_from true false (92 :: 117 :: ds ++ l) = 92 :: 117 :: ds ++ compact_from true false l.
Proof.
  intros Hds. cbn [compact_from negb Z.eqb Pos.eqb]. do 2 f_equal. induction Hds as [|c ds Hc _ IH]; [done|]. cbn [app]. rewrite compact_plain by lia. by rewrite IH.
Qed.

Lemma compact_ascii c l : c = 60 \/ c = 62 \/ c = 38 -> compact_from true false (escape_ascii c ++ l) = escape_ascii c ++ compact_from true false l.
Proof. intros [->|[->| ->]]; [apply (compact_escape [48; 48; 51; 99])|apply (compact_escape [48; 48; 51; 101])|apply (compact_escape [48; 48; 50; 54])]; repeat constructor; lia. Qed.

Lemma compact_line c l : c = 168 \/ c = 169 -> compact_from true false (escape_line c ++ l) = escape_line c ++ compact_from true false l.
Proof. intros [->| ->]; [apply (compact_escape [50; 48; 50; 56])|apply (compact_escape [50; 48; 50; 57])]; repeat constructor; lia. Qed.

(** What is compact stays as it is. *)
Lemma compact_from_idem n : forall l q e, (length l <= n)%nat -> compact_from q e (compact_from q e l) = compact_from q e l.
Proof.
  induction n as [|n IH]; intros [|c l] q e Hn; cbn [length] in Hn; [done|lia|done|].
  assert (forall q e, compact_from q e (compact_from q e l) = compact_from q e l) as IHl by (intros; apply IH; lia).
  destruct q; [|cbn [compact_from negb]; destruct (is_space c) eqn:Es; [rewrite compact_unquoted; apply IHl|]; cbn [compact_from negb]; by rewrite Es, IHl].
  destruct e; [cbn; by rewrite IHl|]. cbn [compact_from negb].
  destruct (Z.eqb_spec c 92) as [->|N1]; [cbn; by rewrite IHl|]. destruct (Z.eqb_spec c 34) as [->|N2]; [cbn; by rewrite IHl|].
  destruct ((c =? 60) || (c =? 62) || (c =? 38)) eqn:Ea.
  { by rewrite compact_ascii, IHl by lia. }
  apply orb_false_iff in Ea as [[N3%Z.eqb_neq N4%Z.eqb_neq]%orb_false_iff N5%Z.eqb_neq].
  assert (forall l2, (length l2 <= n)%nat -> forall c2, (c2 =? 168) || (c2 =? 169) = true ->
    compact_from true false (escape_line c2 ++ compact_from true false l2) = escape_line c2 ++ compact_from true false l2) as Hline.
  { intros l2 Hl2 c2 Hc2. by rewrite compact_line, IH by lia. }
  assert (forall b : bool, (forall c2 l2, c = 226 -> l = 128 :: c2 :: l2 -> c2 <> 168 /\ c2 <> 169) ->
    compact_from true false (c :: compact_from true false l) = c :: compact_from true false l) as Hplain.
  { intros _ Hno. rewrite compact_plain; [by rewrite IHl|done..|]. intros c2 l2 Hc E. apply compact_head in E as (l1 & -> & E); [|lia].
    destruct (decide (128 <= c2)) as [Hc2|]; [|lia]. symmetry in E. apply compact_head in E as (l3 & -> & _); [|done]. by apply (Hno c2 l3). }
  destruct l as [|c1 [|c2 l2]]; [apply (Hplain true); by intros..|].
  destruct (c =? 226) eqn:E1; [|apply (Hplain true); intros ? ? ->; done]. destruct (c1 =? 128) eqn:E2; [|apply (Hplain true); intros ? ? _ [= -> _ _]; done].
  cbn [andb]. destruct ((c2 =? 168) || (c2 =? 169)) eqn:E3; [apply Hline; [cbn in Hn; lia|done]|].
  apply (Hplain true). intros c2' l2' _ [= _ -> _]. apply orb_false_iff in E3 as [E3%Z.eqb_neq E4%Z.eqb_neq]. done.
Qed.

Lemma compact_idem raw : compact (compact raw) = compact raw.
Proof. by eapply compact_from_idem. Qed.

Lemma compact_from_ok n : forall l q e, (length l <= n)%nat -> bytes_ok l -> bytes_ok (compact_from q e l).
Proof.
  induction n as [|n IH]; intros [|c l] q e Hn Hl; cbn [length] in Hn; [constructor|lia|constructor|]. apply Forall_cons in Hl as [Hc Hl].
  assert (forall q e, bytes_ok (compact_from q e l)) as IHl by (intros; apply IH; [lia|done]). cbn [compact_from].
  repeat (match goal with |- context [if ?b then _ else _] => destruct b eqn:? end); try (by apply IHl); try (constructor; [done|apply IHl]).
  - apply Forall_app. split; [|apply IHl]. assert (c = 60 \/ c = 62 \/ c = 38) as [->|[->| ->]] by lia; decided.
  - destruct l as [|c1 [|c2 l2]]; [constructor; [done|apply IHl]..|].
    destruct ((c =? 226) && (c1 =? 128) && ((c2 =? 168) || (c2 =? 169))) eqn:E; [|constructor; [done|apply IHl]].
    apply Forall_app. split; [assert (c2 = 168 \/ c2 = 169) as [->| ->] by lia; decided|]. apply IH; [cbn in Hn; lia|]. by apply Forall_cons in Hl as [_ [_ Hl]%Forall_cons].
Qed.

Lemma compact_ok raw : bytes_ok raw -> bytes_ok (compact raw).
Proof. by eapply compact_from_ok. Qed.

(** ** Payloads *)

Definition with_body (body : list Z) (p : SignedPayload) : SignedPayload :=
  mkPayload (sp_V p) (sp_Kind p) (sp_CreatedAt p) (sp_SenderPubB64 p) body (sp_SigB64 p).

(** A payload with a body that was read as it was written has the signed bytes it had. *)
Lemma signable_compacted p : payload_signable (with_body (compact (sp_Body p)) p) = payload_signable p.
Proof. unfold payload_signable, payload_fields, with_body. cbn [sp_V sp_Kind sp_CreatedAt sp_SenderPubB64 sp_Body]. by rewrite compact_idem. Qed.

Lemma payload_ok p : bytes_ok (sp_Body p) -> bytes_ok (json_payload p).
Proof.
  intros Hb. apply json_object_ok. unfold payload_fields. cbn [app]. repeat (apply Forall_cons_2; [cbn [snd]; auto with sl|]); [|constructor]. by apply compact_ok.
Qed.

Lemma DirectChatID_comm a b : DirectChatID a b = DirectChatID b a.
Proof.
  unfold DirectChatID, str_lt, String.ltb. rewrite (String.compare_antisym b a). destruct (String.compare a b) eqn:E; [|reflexivity..].
  by apply String.compare_eq_iff in E as ->.
Qed.

Section delivery.
Context {ED : Ed25519} {CJ : ChatJSON} {SS : SortSlice newest} {MC : MsgCrypto} {EJ : EnvelopeJSON} {F R : Type} {CF : ChatFile F} {RO : RelayOps R}.

(** What [json.Unmarshal] makes of a payload with a body that [json.Marshal] wrote: the body is
    the part of the text it is read from. *)
Record text_json_law (b : TextBody) : Prop := {
  law_payload at_ pub sig : json_range at_ -> bytes_ok pub -> bytes_ok sig ->
    let p := mkPayload PayloadV1 KindText at_ (EncodeToString pub) (json_text b) (EncodeToString sig) in
    read_payload (json_payload p) = Some (with_body (compact (json_text b)) p);
  law_text_body : valid_string (tb_ChatID b) -> valid_string (tb_Text b) -> read_text_body (compact (json_text b)) = Some b;
}.

Hypothesis laws : crypto_laws.
Hypothesis envelopes : envelope_json_law.

Lemma json_text_ok b : bytes_ok (json_text b) /\ json_text b <> [].
Proof. split; [|done]. apply json_object_ok. unfold omit_empty. destruct (is_empty _); cbn [app]; repeat (apply Forall_cons_2; [cbn [snd]; auto with sl|]); constructor. Qed.

Lemma compact_nonempty b : (blen (compact (json_text b)) =? 0) = false.
Proof.
  assert (exists r, json_text b = 123 :: r) as [r ->] by by eexists. change (compact (123 :: r)) with (123 :: compact_from false false r).
  apply Z.eqb_neq. unfold blen. rewrite length_cons. lia.
Qed.

(** What [EncodeText] writes is read, and verifies. *)
Lemma text_verifies pub priv chat text now raw : signs pub priv -> bytes_ok pub -> blen pub = PublicKeySize -> 0 < Unix now -> json_range (Unix now) ->
  text_json_law (mkText (TrimSpace chat) text) -> EncodeText (EncodeToString pub) priv chat text now = Ok raw -> bytes_ok raw /\ exists p, DecodeAndVerify raw = Ok (p, true) /\ sp_Kind p = KindText
    /\ sp_Body p = compact (json_text (mkText (TrimSpace chat) text)) /\ sp_SenderPubB64 p = EncodeToString pub /\ sp_CreatedAt p = Unix now.
Proof.
  intros Hs Hp Hl Hn Hr payloads. unfold EncodeText, sender_checked. destruct (is_blank (EncodeToString pub)) eqn:Eb; [done|]. cbn [negb]. destruct (_ =? _); [|done]. cbn [rbind]. intros [= <-].
  set (b := mkText _ _). set (q := mkPayload PayloadV1 KindText (Unix now) (EncodeToString pub) (json_text b) ""). unfold encodeSignedPayload. fold q.
  destruct (Hs (payload_signable q)) as (S1 & S2 & S3). set (sig := ed_sign priv (payload_signable q)) in *.
  set (p := mkPayload PayloadV1 KindText (Unix now) (EncodeToString pub) (json_text b) (EncodeToString sig)).
  split; [apply payload_ok, json_text_ok|]. exists (with_body (compact (json_text b)) p). split_and!; [|done..].
  pose proof (law_payload b payloads (Unix now) pub sig Hr Hp S1 : read_payload (json_payload p) = Some (with_body (compact (json_text b)) p)) as Er.
  unfold DecodeAndVerify. change (json_payload _) with (json_payload p). rewrite Er. cbn [with_body sp_V sp_Kind sp_CreatedAt sp_SenderPubB64 sp_Body sp_SigB64 p].
  rewrite Z.eqb_refl, Eb, compact_nonempty. assert (is_blank KindText = false) as -> by reflexivity. assert ((Unix now <=? 0) = false) as -> by lia. cbn [negb].
  unfold decode_part. rewrite !DecodeString_EncodeToString by done. rewrite S2, Hl, !Z.eqb_refl. cbn [rbind]. do 2 f_equal.
  change (ed_verify pub (payload_signable (with_body (compact (sp_Body p)) p)) sig = true). by rewrite signable_compacted.
Qed.

(** ** Conversations *)

Lemma contact_id_printable pub : Forall printable (bytes_of (ContactIDFromSignPub pub)).
Proof. destruct (contact_id_encoded pub) as (b & Hb & _ & ->). by apply EncodeToString_printable. Qed.

Lemma DirectChatID_printable a b : Forall printable (bytes_of a) -> Forall printable (bytes_of b) -> Forall printable (bytes_of (DirectChatID a b)).
Proof.
  intros Ha Hb. unfold DirectChatID. destruct (str_lt a b); rewrite !bytes_of_app; repeat (apply Forall_app; split); try done; decided.
Qed.

Lemma Prune_in now s m : Z.of_nat (length (cs_Messages s)) <= MaxMessages -> m ∈ cs_Messages s -> m ∈ cs_Messages (Prune now s).
Proof.
  intros Hl Hm. destruct (Prune_messages now s) as (ms & -> & Hp). rewrite take_ge by (rewrite Hp; unfold MaxMessages in *; lia). by rewrite Hp.
Qed.

(** A message that was appended is kept by the save. *)
Lemma saved_in {A} (a : A) t s f (r : R) m : Z.of_nat (length (cs_Messages s)) <= MaxMessages -> m ∈ cs_Messages s -> m ∈ cs_Messages (saved a t s f r).2.1.1.
Proof.
  intros Hl Hm. unfold saved. destruct (Save t s f) as [[e s'] f'] eqn:Es. apply Save_cases in Es as [-> _]. by apply Prune_in.
Qed.

Lemma ensureDirectChat_messages id c title now s : cs_Messages (ensureDirectChat id c title now s) = cs_Messages s.
Proof. unfold ensureDirectChat. by destruct (getChat s id). Qed.

Lemma ensureContact_messages id pub now s : cs_Messages (ensureContact id pub now s).2 = cs_Messages s.
Proof. unfold ensureContact. destruct (getContact s id) as [c|]; [|done]. by destruct (negb _). Qed.

(** A text that is taken in is kept as it was sent. *)
Lemma text_is_kept persona rm env raw p b clock rnd s f (r : R) : DecodeAndVerify raw = Ok (p, true) -> sp_Kind p = KindText -> read_text_body (sp_Body p) = Some b ->
  existsb (redelivered rm) (cs_Messages s) = false -> Z.of_nat (length (cs_Messages s)) < MaxMessages ->
  exists m, m ∈ cs_Messages (ApplyIncoming persona rm env raw clock rnd s f r).2.1.1 /\ mg_Text m = tb_Text b /\ mg_Valid m = true /\ mg_Direction m = "in"
    /\ mg_SenderSignPubB64 m = sp_SenderPubB64 p /\ mg_CreatedAt m = sp_CreatedAt p /\ mg_ChatID m = DirectChatID (self_id persona) (ContactIDFromSignPub (sp_SenderPubB64 p)).
Proof.
  intros Hd Hk Hb Hn Hl. unfold ApplyIncoming, read_incoming. rewrite Hd, Hk, Hb. rewrite bool_decide_eq_true_2 by done. cbv zeta. rewrite Hn.
  pose proof (ensureContact_messages (ContactIDFromSignPub (sp_SenderPubB64 p)) (sp_SenderPubB64 p) (Unix (clock 0%nat)) s) as Em.
  destruct (ensureContact _ _ _ s) as [alias s1]. cbn [snd take_effect] in Em |- *. eexists. split.
  - apply saved_in; cbn [cs_Messages alter_chat set_chats set_updated set_messages]; rewrite ensureDirectChat_messages, Em.
    + rewrite length_app. cbn. lia.
    + apply elem_of_app. right. apply list_elem_of_singleton. reflexivity.
  - done.
Qed.

(** C6: A text that one user's service reports as sent is pushed to the contact's mailbox in an
    envelope that the contact's prekey opens; the contact's service takes the payload in and
    keeps the text as sent, valid and under the sender's key, in the same conversation in which
    the sender keeps it. *)
Theorem sent_text_arrives alice bob pub priv prekey prepub c text clock rnd e s f r id w :
  SignKeypair alice = Ok (pub, priv) -> pe_SignPubB64 alice = EncodeToString pub -> bytes_ok pub -> signs pub priv ->
  getContact s (self_id bob) = Some c -> ct_PreKeyPubB64 c = EncodeToString prepub -> mc_public prekey = Some prepub ->
  valid_string text -> text_json_law (mkText (DirectChatID (self_id alice) (self_id bob)) text) -> clock_ok clock -> json_range (Unix (clock 0%nat)) -> seal_env_ok e -> Z.of_nat (length (cs_Messages s)) < MaxMessages ->
  SendTextToContact alice (self_id bob) text clock rnd e s f r = (Ok id, w) ->
  let chat := DirectChatID (self_id alice) (self_id bob) in
  (exists m, m ∈ cs_Messages w.1.1 /\ mg_ID m = id /\ mg_Text m = text /\ mg_ChatID m = chat /\ mg_Direction m = "out") /\
  exists env sealed raw sender, w.2 = (relay_push (mkPush (ct_Mailbox c) env 0 0 0 "") r).2 /\ DecodeEnvelope env = Some sealed /\ DecryptWithPreKey sealed prekey = Some (raw, sender)
    /\ forall rm clockb rndb sb fb (rb : R), existsb (redelivered rm) (cs_Messages sb) = false -> Z.of_nat (length (cs_Messages sb)) < MaxMessages ->
      exists m, m ∈ cs_Messages (ApplyIncoming bob rm env raw clockb rndb sb fb rb).2.1.1 /\ mg_Text m = text /\ mg_Valid m = true /\ mg_Direction m = "in"
        /\ mg_SenderSignPubB64 m = pe_SignPubB64 alice /\ mg_CreatedAt m = Unix (clock 0%nat) /\ mg_ChatID m = chat.
Proof.
  intros Hkey Ea Hp Hs Hc Epre Hpre Ht payloads Hk Hr He Hl. unfold SendTextToContact. rewrite Hkey, Hc. destruct (is_blank (ct_Mailbox c)); [done|].
  destruct (is_blank (ct_PreKeyPubB64 c)); [done|]. destruct (law_public laws prekey prepub Hpre) as [P1 P2]. unfold decode_part. rewrite Epre, DecodeString_EncodeToString by done.
  rewrite P1, Z.eqb_refl. fold (self_id alice). set (chat := DirectChatID _ _). destruct (EncodeText _ _ _ _ _) as [raw|] eqn:Eraw; [|done].
  assert (blen pub = PublicKeySize) as Hlen.
  { revert Hkey. unfold SignKeypair, sign_keypair. rewrite Ea, DecodeString_EncodeToString by done. destruct (DecodeString (pe_SignPrivB64 alice)); [|done].
    destruct (Z.eqb_spec (blen pub) PublicKeySize); [done|done]. }
  assert (Forall printable (bytes_of chat)) as Hchat by (apply DirectChatID_printable; apply contact_id_printable).
  rewrite Ea in Eraw. apply text_verifies in Eraw as (Hraw & p & Hd & Kp & Bp & Sp & Tp); [|done|done|done|by apply Hk|done|by rewrite TrimSpace_printable].
  rewrite TrimSpace_printable in Bp by done. destruct (EncryptToPreKey raw prepub e) as [[sealed sender]|] eqn:Eenv; [|done].
  destruct (envelope_roundtrip raw prekey prepub e sealed sender laws envelopes He Hraw Hpre Eenv) as [D1 D2].
  unfold push_envelope. destruct (relay_push _ r) as [[x|x] r1] eqn:Er; cbn [negb]; [|done]. intros Hw. split.
  - set (s2 := record_sent _ _ _ _ _ _ _) in Hw. set (m := mkMsg (msg_id rnd) (msg_id rnd) chat (Unix (clock 1%nat)) (Unix (clock 1%nat)) "" (pe_SignPubB64 alice) text (Envelope_Encode sealed) "" "" "sent" true "out").
    assert (cs_Messages s2 = cs_Messages s ++ [m]) as Em.
    { unfold s2, record_sent. cbn [cs_Messages alter_chat set_chats set_updated set_messages]. by rewrite ensureDirectChat_messages. }
    assert (id = msg_id rnd) as -> by (revert Hw; unfold saved; destruct (Save _ _ _) as [[[?|] ?] ?]; by intros [= <- _]).
    exists m. split; [|done].
    apply (f_equal snd) in Hw. cbn [snd] in Hw. rewrite <- Hw. apply saved_in; rewrite Em.
    + rewrite length_app. cbn. lia.
    + apply elem_of_app. right. by apply list_elem_of_singleton.
  - exists (Envelope_Encode sealed), sealed, raw, sender. split_and!; [|done|done|].
    + rewrite Er. revert Hw. unfold saved. destruct (Save _ _ _) as [[[?|] ?] ?]; by intros [= <- <-].
    + intros rm clockb rndb sb fb rb Hn Hlb. assert (read_text_body (sp_Body p) = Some (mkText chat text)) as Hbody.
      { rewrite Bp. apply (law_text_body _ payloads); [by apply printable_valid|done]. }
      destruct (text_is_kept bob rm (Envelope_Encode sealed) raw p _ clockb rndb sb fb rb Hd Kp Hbody Hn Hlb) as (m & H1 & H2 & H3 & H4 & H5 & H6 & H7).
      exists m. split_and!; [done|done|done|done|by rewrite H5, Sp, Ea|by rewrite H6, Tp|]. rewrite H7, Sp, <- Ea. apply DirectChatID_comm.
Qed.

End delivery.
