(* ===== verification/ChatExamples.v ===== *)
(** * Concrete histories of a chat service *)

From S2P Require Import Prelude Sha256 GoStr Persona RelayTypes RelayMailbox Messaging SyncRelay ChatCodec Chat CommunitySpec ChatSpec ChatServiceSpec ChatDelivery LedgerExamples SyncExamples.

#[local] Open Scope string_scope.
#[local] Open Scope list_scope.
#[local] Open Scope Z_scope.

#[local] Existing Instance LedgerExamples.toy_ed25519.
#[local] Existing Instance SyncExamples.toy_crypto.
#[local] Existing Instance SyncExamples.open_relay.

#[local] Instance newest_dec : RelDecision newest.
Proof. intros a b. unfold newest. apply _. Defined.
#[local] Instance newest_total : Total newest.
Proof. intros a b. unfold newest. lia. Qed.
#[local] Instance newest_trans : Transitive newest.
Proof. intros a b c. unfold newest. lia. Qed.
#[local] Instance by_newest : SortSlice newest := merge_sort_slice newest.

(** The file is what was last written. *)
#[local] Instance toy_file : ChatFile (option State) := {|
  file_read f := Some f;
  file_write s f := (true, Some s);
|}.
#[local] Instance toy_file_laws : ChatFileLaws (option State).
Proof. split. intros s f ok f' [= <- <-]. reflexivity. Qed.

(** Keys of three users; the node is bob's. *)
Definition user (k : Z) : string := EncodeToString (replicate 32 k).
Definition alice_pub : string := user 1.
Definition bob_pub : string := user 2.
Definition mallory_pub : string := user 3.
Definition bob : Persona := mkPersona "bob" 1 0 bob_pub (EncodeToString (replicate 64 2)).

(** Payloads and bodies that are sent. *)
Definition invite_body : GroupInviteBody := mkInviteBody "g:1" "friends" bob_pub [].
Definition role_body : GroupRoleBody := mkRoleBody "g:1" mallory_pub "owner".
Definition nameless_body : GroupTextBody := mkGroupText "" "hello".
Definition signed_by (k : Z) : string := EncodeToString (replicate 64 k).

(** Alice invites bob; then mallory makes alice say that mallory is an owner, and writes to no group. *)
Definition invite : SignedPayload := mkPayload PayloadV1 KindGroupInvite 1000 alice_pub (json_invite_body invite_body) (signed_by 1).
Definition forged_role : SignedPayload := mkPayload PayloadV1 KindGroupRole 1001 alice_pub (json_role_body role_body) (signed_by 3).
Definition nameless : SignedPayload := mkPayload PayloadV1 KindGroup 1002 mallory_pub (json_group_text nameless_body) (signed_by 9).

(** In alice's name bob is removed, then alice herself. *)
Definition remove_bob_body : GroupRemoveBody := mkRemoveBody "g:1" bob_pub.
Definition remove_alice_body : GroupRemoveBody := mkRemoveBody "g:1" alice_pub.
Definition remove_bob : SignedPayload := mkPayload PayloadV1 KindGroupRemove 1003 alice_pub (json_remove_body remove_bob_body) (signed_by 3).
Definition remove_alice : SignedPayload := mkPayload PayloadV1 KindGroupRemove 1004 alice_pub (json_remove_body remove_alice_body) (signed_by 3).

(** A reader of those texts alone. *)
Definition reads {A} (json : A -> list Z) (x : A) (l : list Z) : option A := if bool_decide (json x = l) then Some x else None.
#[local] Instance toy_chat_json : ChatJSON := {|
  read_payload l := head (omap (fun p => reads json_payload p l) [invite; forged_role; nameless; remove_bob; remove_alice]);
  read_text_body l := None;
  read_group_text_body := reads json_group_text nameless_body;
  read_invite_body := reads json_invite_body invite_body;
  read_join_body l := None;
  read_role_body := reads json_role_body role_body;
  read_remove_body l := head (omap (fun b => reads json_remove_body b l) [remove_bob_body; remove_alice_body]);
  read_post_body l := None;
|}.

Definition clock (i : nat) : Time := now_ns.
Definition drawn : list Z := replicate 16 7.
Definition from_relay (id : string) : RelayTypes.Message := mkMessage id "bob" "" 0.

Lemma clock_is_set : clock_ok clock.
Proof. intros i. reflexivity. Qed.
Lemma drawn_are_bytes : drawn_id drawn.
Proof. split; [repeat constructor; unfold is_u8; lia|discriminate]. Qed.

Definition world := (State * option State * gmap string (list stored))%type.
Definition fresh : world := (NewState now_ns, None, ∅).
Definition receive (p : SignedPayload) (id : string) : call := Incoming bob (from_relay id) "" (json_payload p) clock drawn seals.
(** Bob is in alice's group. *)
Definition invited : world := (run (receive invite "m1") fresh).2.

Lemma invite_received : rtc lived fresh invited.
Proof. apply rtc_once, lived_call. unfold invited, fresh. constructor. split; [apply clock_is_set|apply drawn_are_bytes]. Qed.

Lemma reads_json {A} (json : A -> list Z) x : reads json x (json x) = Some x.
Proof. unfold reads. by rewrite bool_decide_eq_true_2. Qed.

Lemma forged_decodes : DecodeAndVerify (json_payload forged_role) = Ok (forged_role, false).
Proof. vm_compute. reflexivity. Qed.
Lemma forged_is_role : read_incoming bob forged_role = Ok (Some (InRole role_body, "group role", "g:1")).
Proof. vm_compute. reflexivity. Qed.
Lemma nameless_decodes : DecodeAndVerify (json_payload nameless) = Ok (nameless, false).
Proof. vm_compute. reflexivity. Qed.
Lemma nameless_is_group : read_incoming bob nameless = Ok (Some (InGroup, "hello", "")).
Proof. vm_compute. reflexivity. Qed.

(** In the group alice is the owner, and neither message was delivered before. *)
Lemma invited_facts :
  ((fun v => (v.1, role_of v.2 (ContactIDFromSignPub alice_pub))) <$> view "g:1" invited.1.1, existsb (redelivered (from_relay "m2")) (cs_Messages invited.1.1))
  = (Some ("group", "owner"), false).
Proof. vm_compute. reflexivity. Qed.

Lemma chat_state_stays_valid_witness : consistent invited.1.1 /\ (State_Validate invited.1.1 = Ok tt <-> saveable invited.1.1).
Proof.
  destruct invited as [[s f] r] eqn:E. cbn [fst snd].
  destruct (chat_state_stays_valid now_ns None ∅ s f r) as (H1 & H2 & _); [reflexivity|rewrite <- E; exact invite_received|split; [exact H1|exact H2]].
Defined.

Lemma payload_changes_roles_witness :
  let s := (ApplyIncoming bob (from_relay "m2") "" (json_payload forged_role) clock drawn invited.1.1 invited.1.2 invited.2).2.1.1 in
  exists rs, view "g:1" s = Some ("group", <[ContactIDFromSignPub mallory_pub := "owner"]> rs).
Proof.
  cbv zeta. pose proof invited_facts as HF. pose proof invite_received as HR. destruct invited as [[s f] r]. cbn [fst snd] in HF |- *.
  destruct (view "g:1" s) as [[k rs]|] eqn:Ev; [|discriminate HF]. injection HF as -> Ho Hn. exists rs.
  destruct (payload_changes_roles now_ns None ∅ s f r bob (from_relay "m2") "" (json_payload forged_role) forged_role false (InRole role_body) "group role" "g:1" clock drawn rs) as [H _].
  - reflexivity.
  - exact HR.
  - exact clock_is_set.
  - exact forged_decodes.
  - exact forged_is_role.
  - exact Hn.
  - exact Ev.
  - cbn [sp_SenderPubB64 forged_role] in H. unfold roles_after in H. rewrite Ho in H. exact H.
Defined.

Lemma nameless_group_stops_saving_witness : exists e w, run (receive nameless "m2") invited = (Some e, w) /\ forall w', rtc called w w' -> w'.1.2 = invited.1.2.
Proof.
  pose proof invited_facts as HF. pose proof invite_received as HR. destruct invited as [[s f] r]. cbn [fst snd] in HF |- *. injection HF as _ Hn.
  apply (nameless_group_stops_saving now_ns None ∅ s f r bob (from_relay "m2") "" (json_payload nameless) nameless false InGroup "hello" clock drawn seals).
  - reflexivity.
  - exact HR.
  - exact clock_is_set.
  - exact drawn_are_bytes.
  - exact nameless_decodes.
  - exact nameless_is_group.
  - exact Hn.
Defined.

Lemma redelivery_is_ignored_witness : let w := (run (receive forged_role "m2") invited).2 in
  ApplyIncomingWithRelay bob (from_relay "m2") "" (json_payload forged_role) clock drawn seals w.1.1 w.1.2 w.2 = (Ok tt, w).
Proof.
  cbv zeta. set (w := (run (receive forged_role "m2") invited).2).
  destruct (redelivery_is_ignored now_ns None ∅ invited bob (from_relay "m2") "" (json_payload forged_role) forged_role false (InRole role_body) "group role" "g:1" clock drawn seals
    w "" clock drawn seals) as (r' & E & [Er|[Er _]]).
  - reflexivity.
  - exact invite_received.
  - exact clock_is_set.
  - exact drawn_are_bytes.
  - exact forged_decodes.
  - exact forged_is_role.
  - apply rtc_refl.
  - unfold w. vm_compute. reflexivity.
  - rewrite E, Er. destruct w as [[s f] r]. reflexivity.
  - discriminate Er.
Defined.

(** A group that lost its last participant, without a signature that verifies, is in the way of
    every later save. *)
Lemma emptied_group_is_not_saved :
  let w := (run (receive remove_bob "m3") invited).2 in
  (run (receive remove_bob "m3") invited).1 = None /\ is_Some (run (receive remove_alice "m4") w).1
  /\ (fun ch => (ch_ID ch, ch_Participants ch)) <$> cs_Chats (run (receive remove_alice "m4") w).2.1.1 = [("g:1", [])].
Proof. split; [vm_compute; reflexivity|]. split; [eexists; vm_compute; reflexivity|vm_compute; reflexivity]. Qed.

(** ** A text from alice to bob *)

Section text.
#[local] Existing Instance SyncExamples.toy_envelope.

(** A reader of payloads with one body. *)
#[local] Instance text_reader (b : TextBody) : ChatJSON := {|
  read_payload l :=
    l ← skip (member_text "{" "v") l; let '(v, l) := read_int l in
    l ← skip (member_text "," "kind") l; '(kind, l) ← read_text l;
    l ← skip (member_text "," "created_at") l; let '(at_, l) := read_int l in
    l ← skip (member_text "," "sender_pub_b64url") l; '(sender, l) ← read_text l;
    l ← skip (member_text "," "body") l; l ← skip (compact (json_text b)) l;
    l ← skip (member_text "," "sig_b64url") l; '(sig, l) ← read_text l;
    Some (mkPayload v kind at_ sender (compact (json_text b)) sig);
  read_text_body l := if bool_decide (compact (json_text b) = l) then Some b else None;
  read_group_text_body l := None;
  read_invite_body l := None;
  read_join_body l := None;
  read_role_body l := None;
  read_remove_body l := None;
  read_post_body l := None;
|}.

#[local] Ltac flatten := repeat (progress (rewrite <- ?app_assoc; cbn [app])); rewrite ?app_nil_l, ?app_nil_r; reflexivity.
#[local] Ltac next := rewrite skip_app; cbn [mbind option_bind].

Lemma text_reader_law b : text_json_law (CJ := text_reader b) b.
Proof.
  split; [|intros _ _; cbn [read_text_body text_reader]; by rewrite bool_decide_eq_true_2].
  intros at_ pub sig Hat Hp Hs p. subst p. unfold with_body, json_payload, payload_fields. cbn [sp_V sp_Kind sp_CreatedAt sp_SenderPubB64 sp_Body sp_SigB64].
  pose proof (printable_valid _ (EncodeToString_printable pub Hp)) as Vp. pose proof (printable_valid _ (EncodeToString_printable sig Hs)) as Vs.
  set (sp := EncodeToString pub) in *. set (ss := EncodeToString sig) in *. cbn [read_payload text_reader]. generalize (compact (json_text b)). intros body. clearbody sp ss.
  assert (json_object ([("v", json_int PayloadV1); ("kind", json_string KindText); ("created_at", json_int at_); ("sender_pub_b64url", json_string sp); ("body", body)] ++ [("sig_b64url", json_string ss)])
    = member_text "{" "v" ++ json_int PayloadV1 ++ member_text "," "kind" ++ json_string KindText ++ member_text "," "created_at" ++ json_int at_ ++ member_text "," "sender_pub_b64url" ++ json_string sp
      ++ member_text "," "body" ++ body ++ member_text "," "sig_b64url" ++ json_string ss ++ [125]) as ->.
  { unfold json_object, member_text. cbn [app map comma_separated fst snd concat bytes_of]. flatten. }
  next. rewrite read_int_json by (apply no_digit_comma || (split; reflexivity)). next. rewrite read_text_json by reflexivity. cbn [mbind option_bind].
  next. rewrite read_int_json by (exact Hat || apply no_digit_comma). next. rewrite read_text_json by done. cbn [mbind option_bind]. next. next. next. by rewrite read_text_json.
Qed.

Definition alice : Persona := mkPersona "alice" 1 0 alice_pub (EncodeToString (replicate 64 1)).
Definition bob_contact : Contact := mkContact (self_id bob) 1 "bob" bob_pub "bob" (EncodeToString (key 3)) [] "unverified" 1.
Definition alice_state : State := set_contacts [bob_contact] (NewState now_ns).
Definition greeting : TextBody := mkText (DirectChatID (self_id alice) (self_id bob)) "hello".

Lemma alice_signs : signs (replicate 32 1) (replicate 64 1).
Proof. intros msg. change (ed_sign (replicate 64 1) msg) with (replicate 64 1). split; [|split; reflexivity]. apply Forall_replicate. unfold is_u8. lia. Qed.

Lemma sent_text_arrives_witness : let sent := SendTextToContact alice (self_id bob) "hello" clock drawn (seals 0) alice_state None ∅ in
  exists env sealed raw sender m, DecodeEnvelope env = Some sealed /\ DecryptWithPreKey sealed (key 3) = Some (raw, sender)
    /\ m ∈ cs_Messages (ApplyIncoming (CJ := text_reader greeting) bob (from_relay "m1") env raw clock drawn (NewState now_ns) (None : option State) sent.2.2).2.1.1
    /\ mg_Text m = "hello" /\ mg_Valid m = true.
Proof.
  cbv zeta. set (sent := SendTextToContact _ _ _ _ _ _ _ _ _). assert (is_ok sent.1 = true) as Hok by (vm_compute; reflexivity).
  destruct sent as [[id|x] w] eqn:E; [|discriminate Hok]. cbn [snd]. subst sent.
  destruct (sent_text_arrives (CJ := text_reader greeting) toy_laws toy_envelope_law alice bob (replicate 32 1) (replicate 64 1) (key 3) (key 3) bob_contact "hello" clock drawn (seals 0) alice_state None ∅ id w)
    as (_ & env & sealed & raw & sender & _ & D1 & D2 & H).
  - vm_compute. reflexivity.
  - reflexivity.
  - apply Forall_replicate. unfold is_u8. lia.
  - exact alice_signs.
  - unfold getContact, alice_state. cbn [set_contacts cs_Contacts find]. unfold is_contact. by rewrite bool_decide_eq_true_2.
  - reflexivity.
  - reflexivity.
  - reflexivity.
  - apply text_reader_law.
  - exact clock_is_set.
  - split; reflexivity.
  - apply seals_ok.
  - reflexivity.
  - exact E.
  - destruct (H (from_relay "m1") clock drawn (NewState now_ns) None w.2) as (m & M1 & M2 & M3 & _); [reflexivity|reflexivity|].
    exists env, sealed, raw, sender, m. split; [exact D1|]. split; [exact D2|]. split; [exact M1|]. split; [exact M2|exact M3].
Defined.

End text.
